(* ===== verification/_CoqProject ===== *)
-Q . S2P
Prelude.v
LogApi.v
Crypto.v
Codec.v
Secure.v
Meta.v
Time.v
Event.v
Index.v
LogFile.v
MemDb.v
RedoLog.v
Fs.v
LocalFs.v
LocalFsSpec.v
Recovery.v
Signature.v
Tree.v
Compact.v
Plugins.v
Chain.v
ChainSpec.v
CompactSpec.v
Replay.v
Pipe.v
Dio.v
DioSpec.v
Mesh.v
MeshClient.v
MeshSpec.v
MeshSamples.v
MeshLocks.v
MeshOffline.v
MeshTable.v
Session.v
Trans.v
TransSpec.v
FileModel.v
RegFile.v
RegFileSpec.v
RegFileBytes.v
RecordBytes.v
RegFileSamples.v
FileSpec.v
Accessor.v
Layout.v
AccessorSpec.v
AccessorMake.v
AccessorWrite.v
RepositorySpec.v
RepositorySamples.v
Wire.v
Protocol.v
ProtocolSpec.v
ProtocolQueue.v
ProtocolTorn.v
Handshake.v
HandshakeSpec.v
HandshakeSafety.v
AuthModel.v
AuthService.v
AuthUsers.v
AuthUsersSpec.v
AuthGroups.v
AuthRoles.v
AuthRights.v
AuthSamples.v
AuthUserSamples.v
