(* ===== verification/Prelude.v ===== *)
(** * A verification of ate

    ate keeps records on distributed, signed and encrypted logs ("chains").  A chain writes
    events to a redo log; its plugins decide which events it takes and who may read and write a
    record; a transaction gathers changes of records and commits them as events; a mesh of
    servers and clients shares the chains over connections of its own protocol.  On top of the
    records there are a file system and an authentication service.  This library models these
    parts as functions on explicit states and proves what they promise each other.

    ** The parts, the files and the sources

    - The log.  [LogApi] (lib/src/spec.rs, redo/appender.rs, redo/archive.rs) reads and writes
      bytes; [Codec] (spec.rs, redo/magic.rs) lays out events; [LogFile] (redo/log_traits.rs) is
      the contract of a log, kept by [MemDb] (redo/log_memdb.rs) and by [LocalFs] with
      [LocalFsSpec] (redo/log_localfs.rs) on the file system [Fs]; [RedoLog] (redo/core.rs,
      flip.rs) is the log with its flip; [Recovery] reopens a log after a crash.
    - Keys and events.  [Crypto] and [Secure] (crypto/src/crypto), [Meta] (lib/src/meta,
      header.rs), [Event] (event.rs), [Time] (time), [Index] (index.rs).
    - Plugins.  [Signature] (signature.rs), [Tree] (tree), [Plugins] (anti_replay.rs,
      time/enforcer.rs, validator.rs, lint.rs, transform.rs, multi.rs), [Compact] (compact).
    - The chain.  [Chain], [ChainSpec], [CompactSpec] and [Replay] (lib/src/chain, trust).
    - Records.  [Pipe] (pipe.rs, chain/inbox_pipe.rs), [Dio] and [DioSpec] (lib/src/dio).
      [Session] (lib/src/session) is what a user brings along.
    - The mesh.  [Mesh], [MeshClient], [MeshSpec], [MeshLocks], [MeshOffline], [MeshTable] and
      [MeshSamples] (lib/src/mesh).
    - Files.  [Trans] and [TransSpec] state what a client of the records relies on; [FileModel],
      [RegFile], [RegFileSpec], [RegFileBytes], [FileSpec], [Accessor], [Layout],
      [AccessorSpec], [AccessorMake], [AccessorWrite] and [RepositorySpec] (files/src), with
      [RecordBytes], [RegFileSamples] and [RepositorySamples] for concrete runs.
    - Connections.  [Wire] runs programs on byte streams; [Protocol], [ProtocolSpec],
      [ProtocolQueue] and [ProtocolTorn] (comms/src/protocol); [Handshake], [HandshakeSpec] and
      [HandshakeSafety] (comms/src/hello.rs, key_exchange.rs, client.rs, lib/src/comms).
    - Authentication.  [AuthModel] (wasmer-auth/src/model, helper), [AuthService], [AuthUsers]
      and [AuthGroups] (wasmer-auth/src/service.rs, request, work), [AuthUsersSpec],
      [AuthRoles] and [AuthRights], with [AuthSamples] and [AuthUserSamples].

    A struct is a record and an enum an inductive type, with a prefix on the fields where Rust
    has name spaces; a method is a definition of the same name in a module named after its type.
    A method that changes its receiver is a function in [st], which keeps the state on the error
    path as a [&mut self] method that leaves with [?] does.  Where components meet there is a
    class of operations and one of laws: [LogFileSpec], [TransSpec], [TreeSpec], [DropSpec],
    [RegistrySpec].

    ** What the theorems show

    - The log: what is written is read back, reading ends on any file, a crash loses only what
      was not flushed, and a flip loses nothing.
    - The chain: its log and index stay in step, it serves the last event of every record,
      reopening and compacting it keep them, and the anti-replay plugin keeps events single.
    - Rights: an event that is accepted is authorised by a verified signature, what an honest
      writer lints is accepted, permissions are those of the nearest ancestor, and a shared
      secret opens for its members.
    - Records: a commit takes effect as a whole, a transaction reads its own writes, the cache
      of a reader follows the chain, and data survives the way through the chain.
    - The mesh: a subscriber catches up, what one client writes reaches the others, locks
      exclude each other, and every chain is on one server.
    - Files: a file is a sequence of bytes, and a repository a tree of directories and files.
    - Connections: a stream is a queue of messages, torn messages are refused, and both ends of
      a handshake agree on version and key.
    - Authentication: a login answers by the status of the account; a session gains in a new
      group exactly the roles its keys lead to.
    - Some theorems show where the code does less than it means to, among them
      [torn_tail_swallows], [declared_parent_overrides], [failed_commit_loses_changes],
      [unasked_encryption_strands] and [wrong_codes_never_lock].

    ** Fuel

    Loops that are not structural have fuel.  The scan for the next event, and reading a log
    file, have the bytes that are left.  The walk to the ancestors of a record has the number of
    records that declare a parent, which is enough unless the parents form a cycle; on a cycle
    the code does not return, and Tree.v shows that no fuel is enough.  The rounds of a compaction
    have the events that can still change their vote.  The loops over numbered files have the
    number of names of the file system.  Streaming a history needs more than the events of the
    range, reading a message at most two more than the bytes that have arrived.  The rounds
    that open roles have the roles and one, since each but the last opens one.  The theorems on these loops
    include that they end.

    ** Assumptions

    - Code of other crates is a class or an argument: hashes, ciphers, signatures and key
      encapsulation, the serde formats, the caches with an expiry, the authenticator codes and
      their pictures.  Random draws and the clock are arguments.  What is asked of them is a named
      hypothesis, and concrete instances show that it can be met.
    - Names in the authentication service are ASCII.  Tasks interleave at the locks of the code:
      what runs under a lock is one step.  A load of [Dio] is one step, although the code looks
      up and caches under separate locks.  [inbox_subscribe] assumes that a try for a free lock
      succeeds.  Within one operation of the file system or one request the clock stands still.
    - [TransSpec], [TreeSpec] and [DropSpec] are what the theorems on files and on the
      authentication service rely on; the plain store discharges them.  The data layer has the
      operations of [Trans], and DioSpec.v has its theorems, but it is not proved to keep those
      laws.
    - Bytes of a connection arrive when they are flushed, in order, and are not changed on the
      way; against a server that sends anything, HandshakeSafety.v has its theorem.

    ** Not modelled

    Sockets, listeners, web endpoints, name resolution and the tasks that drive them; the
    registry that opens chains, which is a parameter; services and the bus of notifications;
    configuration and command lines; the virtual network; mounting through FUSE; wallets,
    contracts and instances; the shell, the terminals and the bus of WebAssembly processes; the
    generated grammar and bindings.  They are input and output, callbacks of an application, or
    wrappers of other crates. *)

(** * Shared prelude

    The vocabulary every component of the development uses: Rust's [Result], a
    state monad that keeps the state on the error path (as a [&mut self] method
    that returns early with [?] does), bytes and the big-endian integers of the
    log format, and the lemmas and automation on lists, maps and sets that the
    components share. *)

From Stdlib Require Export ZArith Lia.
From Stdlib Require Export Strings.Byte.
From stdpp Require Export base numbers list gmap sets strings countable pretty.

Open Scope Z_scope.

(** ** Results *)

(** [std::result::Result]. *)
Inductive result (E A : Type) : Type :=
  | Ok (a : A)
  | Err (e : E).
Arguments Ok {E A} a.
Arguments Err {E A} e.

#[global] Instance result_ret (E : Type) : MRet (result E) := λ A a, Ok a.
#[global] Instance result_bind (E : Type) : MBind (result E) := λ A B f r,
  match r with Ok a => f a | Err e => Err e end.
#[global] Instance result_fmap (E : Type) : FMap (result E) := λ A B f r,
  match r with Ok a => Ok (f a) | Err e => Err e end.

(** [Result::map_err], the conversion [?] performs between error types. *)
Definition map_err {E F A : Type} (f : E → F) (r : result E A) : result F A :=
  match r with Ok a => Ok a | Err e => Err (f e) end.

(** [Result::ok]. *)
Definition result_ok {E A : Type} (r : result E A) : option A :=
  match r with Ok a => Some a | Err _ => None end.

(** [Result::is_ok]. *)
Definition is_ok {E A : Type} (r : result E A) : bool :=
  match r with Ok _ => true | Err _ => false end.

Lemma bind_Ok_inv {E A B : Type} (r : result E A) (f : A → result E B) (b : B) :
  (r ≫= f) = Ok b → ∃ a, r = Ok a ∧ f a = Ok b.
Proof. destruct r as [a|e]; [by exists a | done]. Qed.

Lemma map_err_Ok_inv {E F A : Type} (g : E → F) (r : result E A) (a : A) :
  map_err g r = Ok a → r = Ok a.
Proof. destruct r; simpl; congruence. Qed.

(** ** Stateful, fallible computations *)

(** A computation on a state [S] that may fail: the state reached is returned
    on both paths, as Rust does not roll a [&mut self] back when [?] returns. *)
Definition st (S E A : Type) : Type := S → result E A * S.

#[global] Instance st_ret (S E : Type) : MRet (st S E) := λ A a s, (Ok a, s).
#[global] Instance st_bind (S E : Type) : MBind (st S E) := λ A B f c s,
  match c s with
  | (Ok a, s') => f a s'
  | (Err e, s') => (Err e, s')
  end.

Definition st_fail {S E A : Type} (e : E) : st S E A := λ s, (Err e, s).
Definition st_mk {S E A} (f : S → result E A * S) : st S E A := f.
Definition st_get {S E : Type} : st S E S := λ s, (Ok s, s).
Definition st_map_err {S E F A : Type} (f : E → F) (c : st S E A) : st S F A :=
  λ s, let '(r, s') := c s in (map_err f r, s').

(** Runs [c] and hands its result, error included, to [k]: [match c.await { .. }]. *)
Definition st_try {S E F A B : Type} (c : st S E A) (k : result E A → st S F B) : st S F B :=
  λ s, let '(r, s') := c s in k r s'.

Lemma st_bind_Ok {S E A B : Type} (c : st S E A) (f : A → st S E B) (s s' : S) (a : A) :
  c s = (Ok a, s') → (c ≫= f) s = f a s'.
Proof. intros H. unfold mbind, st_bind. by rewrite H. Qed.

Lemma st_bind_Err {S E A B : Type} (c : st S E A) (f : A → st S E B) (s s' : S) (e : E) :
  c s = (Err e, s') → (c ≫= f) s = (Err e, s').
Proof. intros H. unfold mbind, st_bind. by rewrite H. Qed.

Lemma st_map_err_run {S E F A : Type} (g : E → F) (c : st S E A) (s s' : S) (r : result E A) :
  c s = (r, s') → st_map_err g c s = (map_err g r, s').
Proof. intros H. unfold st_map_err. by rewrite H. Qed.

(** ** Bytes and big-endian integers *)

Abbreviation byte := Byte.byte.
Abbreviation bytes := (list Byte.byte).

Definition Z_of_byte (b : byte) : Z := Z.of_N (Byte.to_N b).
Definition byte_of_Z (z : Z) : byte := default x00 (Byte.of_N (Z.to_N (z mod 256))).

#[global] Instance byte_eq_dec : EqDecision byte.
Proof. intros a b. destruct (Byte.byte_eq_dec a b); [by left | by right]. Defined.

#[global] Program Instance byte_countable : Countable byte :=
  inj_countable Byte.to_N Byte.of_N _.
Next Obligation. intros b. apply Byte.of_to_N. Qed.

Lemma Z_of_byte_bound b : 0 ≤ Z_of_byte b < 256.
Proof. unfold Z_of_byte. pose proof (Byte.to_N_bounded b). lia. Qed.

Lemma Z_of_byte_of_Z z : Z_of_byte (byte_of_Z z) = z mod 256.
Proof.
  unfold Z_of_byte, byte_of_Z. pose proof (Z.mod_pos_bound z 256 ltac:(lia)) as Hb.
  destruct (Byte.of_N (Z.to_N (z mod 256))) as [b|] eqn:E; simpl.
  - apply Byte.to_of_N in E. rewrite E. lia.
  - apply Byte.of_N_None_iff in E. lia.
Qed.

Lemma byte_of_Z_of_byte b : byte_of_Z (Z_of_byte b) = b.
Proof.
  unfold byte_of_Z. rewrite Z.mod_small by apply Z_of_byte_bound.
  unfold Z_of_byte. rewrite N2Z.id. by rewrite Byte.of_to_N.
Qed.

(** [uN::to_be_bytes] and [uN::from_be_bytes], which is also how tokio's
    [write_uN] and [read_uN] lay integers out. *)
Fixpoint to_be (n : nat) (z : Z) : bytes :=
  match n with
  | O => []
  | S n' => byte_of_Z (z / 256 ^ Z.of_nat n') :: to_be n' z
  end.

Definition from_be (bs : bytes) : Z := foldl (λ a b, a * 256 + Z_of_byte b) 0 bs.

Lemma to_be_length n z : length (to_be n z) = n.
Proof. induction n; simpl; congruence. Qed.

Lemma foldl_to_be n z a :
  foldl (λ a b, a * 256 + Z_of_byte b) a (to_be n z)
  = a * 256 ^ Z.of_nat n + z mod 256 ^ Z.of_nat n.
Proof.
  revert a. induction n as [|n IH]; intros a.
  - simpl. rewrite Z.mod_1_r. lia.
  - cbn [to_be foldl]. rewrite IH, Z_of_byte_of_Z.
    rewrite Nat2Z.inj_succ, Z.pow_succ_r by lia.
    rewrite (Z.mul_comm 256 (256 ^ Z.of_nat n)).
    assert (0 < 256 ^ Z.of_nat n) by (apply Z.pow_pos_nonneg; lia).
    rewrite (Z.rem_mul_r z) by lia. ring.
Qed.

Lemma from_be_to_be n z : 0 ≤ z < 256 ^ Z.of_nat n → from_be (to_be n z) = z.
Proof.
  intros Hz. unfold from_be. rewrite foldl_to_be, Z.mod_small by done. lia.
Qed.

Lemma from_be_to_be_mod n z : from_be (to_be n z) = z mod 256 ^ Z.of_nat n.
Proof. unfold from_be. rewrite foldl_to_be. lia. Qed.

Lemma to_be_snoc n z : to_be (S n) z = to_be n (z / 256) ++ [byte_of_Z z].
Proof.
  revert z. induction n as [|n IH]; intros z.
  - cbn [to_be app]. by rewrite Z.pow_0_r, Z.div_1_r.
  - change (to_be (S (S n)) z) with (byte_of_Z (z / 256 ^ Z.of_nat (S n)) :: to_be (S n) z).
    rewrite IH. cbn [to_be app]. rewrite Z.div_div by lia.
    by rewrite Nat2Z.inj_succ, Z.pow_succ_r by lia.
Qed.

Lemma to_be_from_be bs : to_be (length bs) (from_be bs) = bs.
Proof.
  induction bs as [|b bs IH] using rev_ind; [done|].
  rewrite length_app, Nat.add_1_r. unfold from_be in *. rewrite foldl_snoc, to_be_snoc.
  pose proof (Z_of_byte_bound b) as Hb.
  rewrite Z.div_add_l, (Z.div_small (Z_of_byte b)), Z.add_0_r by lia. rewrite IH.
  replace (byte_of_Z _) with b; [done|].
  rewrite <- (byte_of_Z_of_byte b) at 1. unfold byte_of_Z. f_equal. f_equal. f_equal.
  by rewrite Z.add_comm, Z_mod_plus_full.
Qed.

Lemma from_be_bound bs : 0 ≤ from_be bs < 256 ^ Z.of_nat (length bs).
Proof.
  rewrite <- (to_be_from_be bs) at 1 2. rewrite from_be_to_be_mod. apply Z.mod_pos_bound. lia.
Qed.

Lemma from_be_nonneg bs : 0 ≤ from_be bs.
Proof. apply from_be_bound. Qed.

(** Machine limits. *)
Definition u8_max : Z := 255.
Definition u16_max : Z := 65535.
Definition u32_max : Z := 4294967295.
Definition u64_max : Z := 18446744073709551615.
Definition isize_max : Z := 9223372036854775807.

(** ** Lists *)

(** [Iterator::filter_map(..).next()]. *)
Fixpoint find_map {A B : Type} (f : A → option B) (l : list A) : option B :=
  match l with
  | [] => None
  | x :: l' => match f x with Some y => Some y | None => find_map f l' end
  end.

Lemma find_map_Some {A B : Type} (f : A → option B) (l : list A) (y : B) :
  find_map f l = Some y → ∃ x, x ∈ l ∧ f x = Some y.
Proof.
  induction l as [|x l IH]; simpl; [done|].
  destruct (f x) as [z|] eqn:E; intros H.
  - exists x. split; [left | congruence].
  - destruct (IH H) as (x' & Hin & Hf). exists x'. split; [by right | done].
Qed.

Lemma find_map_None {A B : Type} (f : A → option B) (l : list A) :
  find_map f l = None ↔ ∀ x, x ∈ l → f x = None.
Proof.
  induction l as [|x l IH]; simpl.
  - split; [|done]. intros _ x Hx. by apply elem_of_nil in Hx.
  - destruct (f x) as [z|] eqn:E.
    + split; [done|]. intros H. rewrite (H x) in E; [done | left].
    + rewrite IH. split; intros H.
      * intros y [->|Hy]%elem_of_cons; [done | by apply H].
      * intros y Hy. apply H. by right.
Qed.

Lemma find_map_app {A B : Type} (f : A → option B) (l k : list A) :
  find_map f (l ++ k) = match find_map f l with Some y => Some y | None => find_map f k end.
Proof. induction l as [|x l IH]; simpl; [done|]. by destruct (f x). Qed.

(** The last element of a list with a property, and what follows it. *)
Lemma last_filter_Some {A : Type} (P : A → bool) (l : list A) (x : A) :
  last (List.filter P l) = Some x ↔
  ∃ l1 l2, l = l1 ++ x :: l2 ∧ P x = true ∧ List.filter P l2 = [].
Proof.
  split.
  - induction l as [|y l IH] using rev_ind; [done|]. rewrite List.filter_app. cbn.
    destruct (P y) eqn:Hy.
    + rewrite last_snoc. intros [= ->]. by exists l, [].
    + rewrite app_nil_r. intros (l1 & l2 & -> & Hx & Hl2)%IH. exists l1, (l2 ++ [y]).
      rewrite List.filter_app, Hl2. cbn. rewrite Hy. by rewrite <-app_assoc.
  - intros (l1 & l2 & -> & Hx & Hl2). rewrite List.filter_app. cbn. rewrite Hx, Hl2.
    by rewrite last_snoc.
Qed.

Lemma filter_nil_iff {A : Type} (P : A → bool) (l : list A) :
  List.filter P l = [] ↔ ∀ x, x ∈ l → P x = false.
Proof.
  induction l as [|y l IH]; cbn; [split; [intros _ x ?%elem_of_nil|]; done|].
  destruct (P y) eqn:Hy.
  - split; [done|]. intros Hall. by rewrite (Hall y) in Hy by left.
  - rewrite IH. split; [intros Hall x [->|?]%elem_of_cons; auto|].
    intros Hall x ?. apply Hall. by right.
Qed.

Lemma filter_filter {A : Type} (P Q : A → bool) (l : list A) :
  List.filter P (List.filter Q l) = List.filter Q (List.filter P l).
Proof.
  induction l as [|x l IH]; [done|]. cbn.
  destruct (P x) eqn:Hp, (Q x) eqn:Hq; cbn; rewrite ?Hp, ?Hq, IH; done.
Qed.

Lemma Forall2_elem_l {A B : Type} (P : A → B → Prop) l k x :
  Forall2 P l k → x ∈ l → ∃ y, y ∈ k ∧ P x y.
Proof.
  intros Hall [i Hi]%list_elem_of_lookup. destruct (Forall2_lookup_l _ _ _ _ _ Hall Hi) as (y & ? & ?).
  exists y. split; [by eapply list_elem_of_lookup_2 | done].
Qed.

Lemma Forall2_elem_r {A B : Type} (P : A → B → Prop) l k y :
  Forall2 P l k → y ∈ k → ∃ x, x ∈ l ∧ P x y.
Proof.
  intros Hall [i Hi]%list_elem_of_lookup. destruct (Forall2_lookup_r _ _ _ _ _ Hall Hi) as (x & ? & ?).
  exists x. split; [by eapply list_elem_of_lookup_2 | done].
Qed.

Lemma Forall2_fmap_eq {A B C : Type} (R : A → B → Prop) (f : A → C) (g : B → C) l k :
  (∀ x y, R x y → f x = g y) → Forall2 R l k → f <$> l = g <$> k.
Proof. intros Hfg. induction 1 as [|x y l k Hxy Hl IH]; [done|]. cbn. by rewrite (Hfg x y), IH. Qed.

(** A decision that agrees on related elements filters related lists alike. *)
Lemma Forall2_filter {A B : Type} (R : A → B → Prop) (p : A → bool) (q : B → bool) l l' :
  (∀ x y, R x y → p x = q y) → Forall2 R l l' →
  Forall2 R (List.filter p l) (List.filter q l').
Proof.
  intros Hpq. induction 1 as [|x y l l' Hxy Hl IH]; [constructor|]. cbn.
  rewrite (Hpq x y Hxy). destruct (q y); [by constructor | done].
Qed.

Lemma Forall2_last {A B : Type} (R : A → B → Prop) l l' : Forall2 R l l' →
  match last l, last l' with
  | Some x, Some y => R x y
  | None, None => True
  | _, _ => False
  end.
Proof.
  induction 1 as [|x y l l' Hxy Hl IH]; [done|].
  inversion Hl; subst; [done|exact IH].
Qed.

(** A list with distinct images has one element for each of them. *)
Lemma NoDup_fmap_elem {A B : Type} (f : A → B) (l : list A) x y :
  NoDup (f <$> l) → x ∈ l → y ∈ l → f x = f y → x = y.
Proof.
  intros Hnd [i Hi]%list_elem_of_lookup [j Hj]%list_elem_of_lookup Hf.
  assert (i = j) as <-; [|congruence].
  apply (NoDup_lookup _ i j (f x) Hnd); rewrite list_lookup_fmap; [by rewrite Hi|by rewrite Hj, Hf].
Qed.

Lemma Forall2_sublist_r {A B : Type} (R : A → B → Prop) (l : list A) (k k' : list B) :
  Forall2 R l k → k' `sublist_of` k → ∃ l', l' `sublist_of` l ∧ Forall2 R l' k'.
Proof.
  intros Hl Hsub. revert l Hl. induction Hsub as [|y k' k Hsub IH|y k' k Hsub IH]; intros l Hl.
  - exists []. split; [apply sublist_nil_l|constructor].
  - inversion Hl as [|x ? l0 ? Hxy Hl0]; subst. destruct (IH l0 Hl0) as (l' & ? & ?).
    exists (x :: l'). by split; constructor.
  - inversion Hl as [|x ? l0 ? Hxy Hl0]; subst. destruct (IH l0 Hl0) as (l' & ? & ?).
    exists l'. by split; [constructor|].
Qed.

Lemma sublist_fmap {A B : Type} (f : A → B) l k : l `sublist_of` k → f <$> l `sublist_of` f <$> k.
Proof. induction 1; by constructor. Qed.

Lemma sublist_filter {A : Type} (p : A → bool) (l : list A) : List.filter p l `sublist_of` l.
Proof. induction l as [|x l IH]; [done|]. cbn. destruct (p x); by constructor. Qed.

(** ** Automation *)

Create HintDb ate.
Create Rewrite HintDb ate_len.

#[export] Hint Rewrite @length_app @length_take @length_drop to_be_length @length_replicate : ate_len.

(** Splits the conjunctions of the context and substitutes its equations. *)
Ltac inv_all :=
  repeat match goal with
  | H : _ ∧ _ |- _ => destruct H
  | H : ∃ _, _ |- _ => destruct H
  | H : Ok _ = Ok _ |- _ => injection H as H
  | H : Err _ = Err _ |- _ => injection H as H
  | H : Some _ = Some _ |- _ => injection H as H
  | H : (_, _) = (_, _) |- _ => injection H as H
  | H : Ok _ = Err _ |- _ => discriminate H
  | H : Err _ = Ok _ |- _ => discriminate H
  | H : Some _ = None |- _ => discriminate H
  | H : None = Some _ |- _ => discriminate H
  end; subst.

(** Case analysis on the scrutinee of a [match] or [if] of the goal. *)
Ltac case_step :=
  match goal with
  | |- context [match ?x with _ => _ end] => destruct x eqn:?
  end.

Ltac len := autorewrite with ate_len in *; simpl in *; lia.
