(* ===== verification/LogApi.v ===== *)
(** * The byte-level log interface

    [LogApi] is the trait of lib/src/spec.rs through which the log format is read
    and written.  Its two implementations are modelled here: [LogArchiveGuard]
    (lib/src/redo/archive.rs), a locked read handle on one log file, and
    [LogAppender] (lib/src/redo/appender.rs), the buffered write end of the active
    log file.  [LogReader] and [LogWriter] state what the format relies on; the
    format's theorems are proved against them and the two implementations
    discharge them. *)

From S2P Require Import Prelude.

(** ** Errors *)

(** [std::io::ErrorKind], the kinds the log code distinguishes; [Other] carries
    every kind it treats alike. *)
Inductive IoErrorKind : Type :=
  | UnexpectedEof
  | NotFound
  | AlreadyExists
  | PermissionDenied
  | Other.

(** [SerializationErrorKind], the kinds the log code raises.  [Serde] is an error
    of one of the serialization crates. [Diverged] is not an error of the code:
    it marks a bounded model of a loop that ran out of its bound, and
    [read_version_terminates] and its successors show it is never returned.
    [CapacityOverflow] is not one either: it marks the panic of a [Vec] that is asked for
    more than [isize::MAX] bytes. *)
Inductive SerializationErrorKind : Type :=
  | IO (k : IoErrorKind)
  | MissingData
  | InvalidSerializationFormat
  | Serde
  | CapacityOverflow
  | Diverged.

#[global] Instance io_error_eq_dec : EqDecision IoErrorKind.
Proof. solve_decision. Defined.

(** ** The trait *)

(** [LogApi].  [api_read_exact n] stands for [read_exact(&mut vec![0; n])] and
    returns the buffer it fills.  [len] returns the size of the file. *)
Class LogApi (S : Type) : Type := {
  api_offset : S → Z;
  api_len : S → Z;
  api_seek : Z → st S IoErrorKind unit;
  api_read_u8 : st S IoErrorKind Z;
  api_read_u16 : st S IoErrorKind Z;
  api_read_u32 : st S IoErrorKind Z;
  api_read_u64 : st S IoErrorKind Z;
  api_read_exact : Z → st S IoErrorKind bytes;
  api_write_u8 : Z → st S IoErrorKind unit;
  api_write_u16 : Z → st S IoErrorKind unit;
  api_write_u32 : Z → st S IoErrorKind unit;
  api_write_u64 : Z → st S IoErrorKind unit;
  api_write_exact : bytes → st S IoErrorKind unit;
  api_sync : st S IoErrorKind unit;
}.

(** ** What the format relies on *)

(** A reader delivers the bytes of [unread] in order; a read past their end fails
    with [UnexpectedEof] and leaves nothing unread.  The integer reads are
    big-endian reads of their width. *)
Class LogReader (S : Type) `{LogApi S} : Type := {
  unread : S → bytes;
  read_exact_ok : ∀ s n bs rest, unread s = bs ++ rest → Z.of_nat (length bs) = n →
    ∃ s', api_read_exact n s = (Ok bs, s') ∧ unread s' = rest
          ∧ api_offset s' = api_offset s + n ∧ api_len s' = api_len s;
  read_exact_eof : ∀ s n, Z.of_nat (length (unread s)) < n →
    ∃ s', api_read_exact n s = (Err UnexpectedEof, s') ∧ unread s' = []
          ∧ api_len s' = api_len s;
  read_u8_exact : ∀ s, api_read_u8 s = (bs ← api_read_exact 1; mret (from_be bs)) s;
  read_u16_exact : ∀ s, api_read_u16 s = (bs ← api_read_exact 2; mret (from_be bs)) s;
  read_u32_exact : ∀ s, api_read_u32 s = (bs ← api_read_exact 4; mret (from_be bs)) s;
  read_u64_exact : ∀ s, api_read_u64 s = (bs ← api_read_exact 8; mret (from_be bs)) s;
}.

(** A writer that stands at its end appends: [stored] is everything it holds,
    buffered or not, and [at_end] the state in which it appends. *)
Class LogWriter (S : Type) `{LogApi S} : Type := {
  stored : S → bytes;
  at_end : S → Prop;
  at_end_offset : ∀ s, at_end s → api_offset s = Z.of_nat (length (stored s));
  write_exact_ok : ∀ s bs, at_end s →
    ∃ s', api_write_exact bs s = (Ok (), s') ∧ at_end s' ∧ stored s' = stored s ++ bs;
  write_u8_exact : ∀ s v, api_write_u8 v s = api_write_exact (to_be 1 v) s;
  write_u16_exact : ∀ s v, api_write_u16 v s = api_write_exact (to_be 2 v) s;
  write_u32_exact : ∀ s v, api_write_u32 v s = api_write_exact (to_be 4 v) s;
  write_u64_exact : ∀ s v, api_write_u64 v s = api_write_exact (to_be 8 v) s;
}.

Section reader.
Context {S : Type} `{LogReader S}.

(** A reader has no more to deliver than its file holds. *)
Definition readable (s : S) : Prop := Z.of_nat (length (unread s)) ≤ api_len s.

(** Reading an integer of [w] bytes that is there. *)
Lemma read_uint_ok (rd : st S IoErrorKind Z) (w : nat) s z rest :
  (∀ s, rd s = (bs ← api_read_exact (Z.of_nat w); mret (from_be bs)) s) →
  unread s = to_be w z ++ rest → 0 ≤ z < 256 ^ Z.of_nat w →
  ∃ s', rd s = (Ok z, s') ∧ unread s' = rest
        ∧ api_offset s' = api_offset s + Z.of_nat w ∧ api_len s' = api_len s.
Proof.
  intros Hrd Hun Hz.
  destruct (read_exact_ok s (Z.of_nat w) (to_be w z) rest Hun) as (s' & Hr & ? & ? & ?).
  { by rewrite to_be_length. }
  exists s'. rewrite Hrd, (st_bind_Ok _ _ _ _ _ Hr).
  unfold mret, st_ret. by rewrite from_be_to_be.
Qed.

Lemma read_u8_cons s b rest : unread s = b :: rest →
  ∃ s', api_read_u8 s = (Ok (Z_of_byte b), s') ∧ unread s' = rest
        ∧ api_offset s' = api_offset s + 1 ∧ api_len s' = api_len s.
Proof.
  intros Hun.
  destruct (read_exact_ok s 1 [b] rest Hun eq_refl) as (s' & Hr & ? & ? & ?).
  exists s'. rewrite read_u8_exact, (st_bind_Ok _ _ _ _ _ Hr). done.
Qed.

Lemma read_u8_nil s : unread s = [] →
  ∃ s', api_read_u8 s = (Err UnexpectedEof, s') ∧ unread s' = [] ∧ api_len s' = api_len s.
Proof.
  intros Hun. destruct (read_exact_eof s 1) as (s' & Hr & ? & ?).
  { rewrite Hun. simpl. lia. }
  exists s'. by rewrite read_u8_exact, (st_bind_Err _ _ _ _ _ Hr).
Qed.

(** Any read either delivers a prefix of the unread bytes or exhausts them. *)
Lemma read_exact_total s n : 0 ≤ n →
  (∃ s' bs, api_read_exact n s = (Ok bs, s') ∧ unread s = bs ++ unread s'
     ∧ Z.of_nat (length bs) = n ∧ api_offset s' = api_offset s + n ∧ api_len s' = api_len s)
  ∨ (∃ s', api_read_exact n s = (Err UnexpectedEof, s') ∧ unread s' = []
     ∧ Z.of_nat (length (unread s)) < n ∧ api_len s' = api_len s).
Proof.
  intros Hn. destruct (decide (n ≤ Z.of_nat (length (unread s)))) as [Hle|Hgt].
  - left. destruct (read_exact_ok s n (take (Z.to_nat n) (unread s))
      (drop (Z.to_nat n) (unread s))) as (s' & Hr & Hun & Hoff & Hlen).
    { by rewrite take_drop. }
    { rewrite length_take. lia. }
    exists s', (take (Z.to_nat n) (unread s)). rewrite Hun, take_drop, length_take.
    repeat split; try done. lia.
  - right. destruct (read_exact_eof s n) as (s' & Hr & Hun & ?); [lia|].
    exists s'. repeat split; try done. lia.
Qed.
End reader.

(** ** Archive guards *)

(** [LogArchiveGuard]: a handle on one log file ([tokio::fs::File] behind a mutex),
    its position, and the offset the guard itself tracks, which a failed read does
    not advance although the handle moved. *)
Record LogArchiveGuard : Type := {
  g_index : Z;
  g_offset : Z;
  g_data : bytes;
  g_pos : nat;
}.

Module LogArchiveGuard.
Definition index (g : LogArchiveGuard) : Z := g_index g.

Definition moved (g : LogArchiveGuard) (off : Z) (pos : nat) : LogArchiveGuard :=
  {| g_index := g_index g; g_offset := off; g_data := g_data g; g_pos := pos |}.

(** [tokio]'s [read_exact] on the handle: the bytes from the position, or
    [UnexpectedEof] with the position at the end of the file. *)
Definition file_read (n : Z) : st LogArchiveGuard IoErrorKind bytes := λ g,
  let rest := drop (g_pos g) (g_data g) in
  if decide (n ≤ Z.of_nat (length rest))
  then (Ok (take (Z.to_nat n) rest), moved g (g_offset g) (g_pos g + Z.to_nat n)%nat)
  else (Err UnexpectedEof,
        moved g (g_offset g) (Nat.max (g_pos g) (length (g_data g)))).

Definition advance (n : Z) : st LogArchiveGuard IoErrorKind unit := λ g,
  (Ok (), moved g (g_offset g + n) (g_pos g)).

Definition seek (off : Z) : st LogArchiveGuard IoErrorKind unit := λ g,
  (Ok (), moved g off (Z.to_nat off)).

Definition read_uint (w : Z) : st LogArchiveGuard IoErrorKind Z :=
  ret ← file_read w; _ ← advance w; mret (from_be ret).

Definition read_exact (n : Z) : st LogArchiveGuard IoErrorKind bytes :=
  buf ← file_read n; _ ← advance n; mret buf.

(** The archive's file is opened with [read(true)] only: a write fails. *)
Definition write_denied : st LogArchiveGuard IoErrorKind unit := st_fail Other.
End LogArchiveGuard.

#[global] Instance LogArchiveGuard_api : LogApi LogArchiveGuard := {
  api_offset := g_offset;
  api_len g := Z.of_nat (length (g_data g));
  api_seek := LogArchiveGuard.seek;
  api_read_u8 := LogArchiveGuard.read_uint 1;
  api_read_u16 := LogArchiveGuard.read_uint 2;
  api_read_u32 := LogArchiveGuard.read_uint 4;
  api_read_u64 := LogArchiveGuard.read_uint 8;
  api_read_exact := LogArchiveGuard.read_exact;
  api_write_u8 _ := LogArchiveGuard.write_denied;
  api_write_u16 _ := LogArchiveGuard.write_denied;
  api_write_u32 _ := LogArchiveGuard.write_denied;
  api_write_u64 _ := LogArchiveGuard.write_denied;
  api_write_exact _ := LogArchiveGuard.write_denied;
  api_sync := mret ();
}.

Lemma guard_read_uint_exact w g :
  LogArchiveGuard.read_uint w g = (bs ← LogArchiveGuard.read_exact w; mret (from_be bs)) g.
Proof.
  unfold LogArchiveGuard.read_uint, LogArchiveGuard.read_exact, mbind, st_bind, mret, st_ret.
  by destruct (LogArchiveGuard.file_read w g) as [[a|e] g'].
Qed.

#[global] Program Instance LogArchiveGuard_reader : LogReader LogArchiveGuard := {
  unread g := drop (g_pos g) (g_data g);
}.
Next Obligation.
  intros g n bs rest Hun Hlen. simpl in *.
  unfold LogArchiveGuard.read_exact, LogArchiveGuard.file_read, mbind, st_bind, mret, st_ret.
  rewrite Hun. rewrite decide_True by len. simpl.
  eexists. split; [rewrite take_app_length' by lia; reflexivity|]. simpl.
  repeat split; try done.
  rewrite <- drop_drop, Hun. apply drop_app_length'. lia.
Qed.
Next Obligation.
  intros g n Hlt. simpl in *.
  unfold LogArchiveGuard.read_exact, LogArchiveGuard.file_read, mbind, st_bind, mret, st_ret.
  rewrite decide_False by lia. eexists. split; [reflexivity|]. simpl.
  split; [|done]. apply drop_ge. lia.
Qed.
Next Obligation. intros. apply guard_read_uint_exact. Qed.
Next Obligation. intros. apply guard_read_uint_exact. Qed.
Next Obligation. intros. apply guard_read_uint_exact. Qed.
Next Obligation. intros. apply guard_read_uint_exact. Qed.

Lemma guard_readable (g : LogArchiveGuard) : readable g.
Proof. unfold readable. simpl. rewrite length_drop. lia. Qed.

(** ** The appender *)

(** How much [tokio]'s [BufStream] moves between its buffers and the file is its
    own choice: [read_ahead rest] bytes of [rest] are fetched beyond a read that
    went to the file, and [spill pending new] bytes of [pending ++ new] reach the
    file when [new] is written.  The theorems hold for every choice. *)
Class BufStreamPolicy : Type := {
  read_ahead : bytes → nat;
  spill : bytes → bytes → nat;
}.

(** [LogAppender].  [file] and [stream] are clones of one handle and share its
    position [a_pos]; [a_data] is the content of the file they refer to, [a_writable]
    whether it was opened for writing, [a_rbuf] and [a_wbuf] are the two buffers of
    the stream. *)
Record LogAppender : Type := {
  a_path : string;
  a_data : bytes;
  a_writable : bool;
  a_pos : nat;
  a_rbuf : bytes;
  a_wbuf : bytes;
  a_offset : Z;
  a_header : bytes;
  a_index : Z;
}.

(** A file write of [bs] at [pos]: what lies under it is overwritten, a gap before
    it is filled with zeros; writing nothing does nothing. *)
Definition file_splice (data : bytes) (pos : nat) (bs : bytes) : bytes :=
  match bs with
  | [] => data
  | _ :: _ =>
      take pos data ++ replicate (pos - length data) x00 ++ bs ++ drop (pos + length bs) data
  end.

Module LogAppender.
Section ops.
Context `{BufStreamPolicy}.

Definition with_file (a : LogAppender) (data : bytes) (pos : nat) (rbuf wbuf : bytes)
    (off : Z) : LogAppender :=
  {| a_path := a_path a; a_data := data; a_writable := a_writable a; a_pos := pos; a_rbuf := rbuf; a_wbuf := wbuf;
     a_offset := off; a_header := a_header a; a_index := a_index a |}.

Definition with_header (a : LogAppender) (h : bytes) : LogAppender :=
  {| a_path := a_path a; a_data := a_data a; a_writable := a_writable a; a_pos := a_pos a;
     a_rbuf := a_rbuf a; a_wbuf := a_wbuf a; a_offset := a_offset a; a_header := h; a_index := a_index a |}.

Definition path (a : LogAppender) : string := a_path a.
Definition header (a : LogAppender) : bytes := a_header a.

(** Writing out the first [n] pending bytes, which a handle that was not opened for
    writing refuses. *)
Definition write_out (n : nat) : st LogAppender IoErrorKind unit := λ a,
  let bs := take n (a_wbuf a) in
  match bs, a_writable a with
  | _ :: _, false => (Err Other, a)
  | _, _ =>
      (Ok (), with_file a (file_splice (a_data a) (a_pos a) bs) (a_pos a + length bs)
                (a_rbuf a) (drop n (a_wbuf a)) (a_offset a))
  end.

Definition flush : st LogAppender IoErrorKind unit := λ a,
  write_out (length (a_wbuf a)) a.

Definition seek (off : Z) : st LogAppender IoErrorKind unit :=
  _ ← flush; st_mk (λ a,
  (Ok (), with_file a (a_data a) (Z.to_nat off) [] [] off)).

Definition seek_to_end : st LogAppender IoErrorKind unit :=
  _ ← flush; st_mk (λ a,
  let end_ := length (a_data a) in
  (Ok (), with_file a (a_data a) end_ [] [] (Z.of_nat end_))).

(** A read through the stream: from the buffer while it has enough, else the
    buffer and the file. *)
Definition stream_read (n : Z) : st LogAppender IoErrorKind bytes := λ a,
  let rest := drop (a_pos a) (a_data a) in
  if decide (n ≤ Z.of_nat (length (a_rbuf a))) then
    (Ok (take (Z.to_nat n) (a_rbuf a)),
     with_file a (a_data a) (a_pos a) (drop (Z.to_nat n) (a_rbuf a)) (a_wbuf a) (a_offset a))
  else
    let need := (Z.to_nat n - length (a_rbuf a))%nat in
    if decide (n ≤ Z.of_nat (length (a_rbuf a)) + Z.of_nat (length rest)) then
      let ahead := take (read_ahead (drop need rest)) (drop need rest) in
      (Ok (a_rbuf a ++ take need rest),
       with_file a (a_data a) (a_pos a + need + length ahead) ahead (a_wbuf a) (a_offset a))
    else
      (Err UnexpectedEof,
       with_file a (a_data a) (Nat.max (a_pos a) (length (a_data a))) [] (a_wbuf a)
         (a_offset a)).

Definition advance (n : Z) : st LogAppender IoErrorKind unit := λ a,
  (Ok (), with_file a (a_data a) (a_pos a) (a_rbuf a) (a_wbuf a) (a_offset a + n)).

Definition read_uint (w : Z) : st LogAppender IoErrorKind Z :=
  ret ← stream_read w; _ ← advance w; mret (from_be ret).

Definition read_exact (n : Z) : st LogAppender IoErrorKind bytes :=
  buf ← stream_read n; _ ← advance n; mret buf.

Definition stream_write (bs : bytes) : st LogAppender IoErrorKind unit := λ a,
  write_out (spill (a_wbuf a) bs)
    (with_file a (a_data a) (a_pos a) (a_rbuf a) (a_wbuf a ++ bs) (a_offset a)).

Definition write_exact (bs : bytes) : st LogAppender IoErrorKind unit :=
  _ ← stream_write bs; advance (Z.of_nat (length bs)).

Definition sync : st LogAppender IoErrorKind unit := flush.

(** [clone] flushes, and hands out a second appender on the same handle. *)
Definition clone : st LogAppender IoErrorKind LogAppender :=
  _ ← flush; st_mk (λ a,
  (Ok (with_file a (a_data a) (a_pos a) [] [] (a_offset a)), a)).
End ops.
End LogAppender.

#[global] Instance LogAppender_api `{BufStreamPolicy} : LogApi LogAppender := {
  api_offset := a_offset;
  api_len a := Z.of_nat (length (a_data a));
  api_seek := LogAppender.seek;
  api_read_u8 := LogAppender.read_uint 1;
  api_read_u16 := LogAppender.read_uint 2;
  api_read_u32 := LogAppender.read_uint 4;
  api_read_u64 := LogAppender.read_uint 8;
  api_read_exact := LogAppender.read_exact;
  api_write_u8 v := LogAppender.write_exact (to_be 1 v);
  api_write_u16 v := LogAppender.write_exact (to_be 2 v);
  api_write_u32 v := LogAppender.write_exact (to_be 4 v);
  api_write_u64 v := LogAppender.write_exact (to_be 8 v);
  api_write_exact := LogAppender.write_exact;
  api_sync := LogAppender.sync;
}.

Section appender_laws.
Context `{BufStreamPolicy}.

Lemma appender_read_uint_exact w a :
  LogAppender.read_uint w a = (bs ← LogAppender.read_exact w; mret (from_be bs)) a.
Proof.
  unfold LogAppender.read_uint, LogAppender.read_exact, mbind, st_bind, mret, st_ret.
  by destruct (LogAppender.stream_read w a) as [[x|e] a'].
Qed.

Lemma write_out_writable n a : a_writable a = true →
  LogAppender.write_out n a
  = (Ok (), LogAppender.with_file a (file_splice (a_data a) (a_pos a) (take n (a_wbuf a)))
              (a_pos a + length (take n (a_wbuf a))) (a_rbuf a) (drop n (a_wbuf a)) (a_offset a)).
Proof. intros Hw. unfold LogAppender.write_out. rewrite Hw. by case_match. Qed.

(** A file write at the end of the file appends. *)
Lemma file_splice_end data bs : file_splice data (length data) bs = data ++ bs.
Proof.
  unfold file_splice. destruct bs as [|b bs]; [by rewrite app_nil_r|].
  rewrite take_ge, Nat.sub_diag, drop_ge by (simpl; lia). simpl. by rewrite app_nil_r.
Qed.

#[global] Program Instance LogAppender_reader : LogReader LogAppender := {
  unread a := a_rbuf a ++ drop (a_pos a) (a_data a);
}.
Next Obligation.
  intros a n bs rest Hun Hn. simpl in *.
  unfold LogAppender.read_exact, LogAppender.stream_read, mbind, st_bind, mret, st_ret.
  destruct (decide (n ≤ _)) as [Hin|Hout].
  - assert (take (Z.to_nat n) (a_rbuf a) = bs) as ->.
    { rewrite <- (take_app_le _ (drop (a_pos a) (a_data a))), Hun by lia.
      by rewrite take_app_length' by lia. }
    eexists. split; [reflexivity|]. simpl. split; [|done].
    rewrite <- drop_app_le, Hun by lia. by rewrite drop_app_length' by lia.
  - apply (f_equal length) in Hun as Hl. rewrite !length_app in Hl.
    rewrite decide_True by lia. set (need := (Z.to_nat n - length (a_rbuf a))%nat).
    assert (a_rbuf a ++ take need (drop (a_pos a) (a_data a)) = bs
            ∧ drop need (drop (a_pos a) (a_data a)) = rest) as [-> Hrest].
    { rewrite <- (take_drop need (drop (a_pos a) (a_data a))), app_assoc in Hun.
      apply app_inj_1 in Hun; [done|]. rewrite length_app, length_take. lia. }
    eexists. split; [simpl; reflexivity|]. simpl. split; [|done].
    rewrite <- !drop_drop, Hrest, length_take.
    transitivity (take (read_ahead rest) rest ++ drop (read_ahead rest) rest);
      [f_equal|apply take_drop].
    destruct (decide (read_ahead rest ≤ length rest)%nat).
    + by rewrite Nat.min_l by lia.
    + rewrite Nat.min_r, !drop_ge by lia. done.
Qed.
Next Obligation.
  intros a n Hlt. simpl in *. rewrite length_app in Hlt.
  unfold LogAppender.read_exact, LogAppender.stream_read, mbind, st_bind, mret, st_ret.
  rewrite decide_False by lia. rewrite decide_False by lia.
  eexists. split; [reflexivity|]. simpl. split; [apply drop_ge; lia|done].
Qed.
Next Obligation. intros. apply appender_read_uint_exact. Qed.
Next Obligation. intros. apply appender_read_uint_exact. Qed.
Next Obligation. intros. apply appender_read_uint_exact. Qed.
Next Obligation. intros. apply appender_read_uint_exact. Qed.

(** The appender appends when it has nothing read ahead and its handle stands at
    the end of the file: what is stored is the file and the pending bytes. *)
#[global] Program Instance LogAppender_writer : LogWriter LogAppender := {
  stored a := a_data a ++ a_wbuf a;
  at_end a := a_writable a = true ∧ a_rbuf a = [] ∧ a_pos a = length (a_data a)
    ∧ a_offset a = Z.of_nat (length (a_data a ++ a_wbuf a));
}.
Next Obligation. by intros a (_ & _ & _ & ?). Qed.
Next Obligation.
  intros a bs (Hw & Hr & Hp & Ho). simpl.
  unfold LogAppender.write_exact, LogAppender.stream_write, mbind, st_bind, LogAppender.advance.
  rewrite write_out_writable by done. eexists. split; [reflexivity|].
  simpl. rewrite Hp, file_splice_end, <- !app_assoc, take_drop.
  repeat split; try done; len.
Qed.
Next Obligation. done. Qed.
Next Obligation. done. Qed.
Next Obligation. done. Qed.
Next Obligation. done. Qed.

(** A flush moves everything pending into the file and changes nothing stored. *)
Lemma appender_flush a : at_end a →
  ∃ a', LogAppender.flush a = (Ok (), a') ∧ at_end a' ∧ a_data a' = stored a
        ∧ a_wbuf a' = [] ∧ a_offset a' = a_offset a ∧ a_index a' = a_index a
        ∧ a_path a' = a_path a ∧ a_header a' = a_header a.
Proof.
  intros (Hw & Hr & Hp & Ho). unfold LogAppender.flush. rewrite write_out_writable by done.
  eexists. split; [reflexivity|].
  unfold at_end, stored. simpl.
  rewrite take_ge, drop_ge, Hp, file_splice_end, app_nil_r by lia.
  repeat split; try done; len.
Qed.
End appender_laws.

(** A stream with 8 KiB buffers, as [BufStream::new] makes it: it prefetches what
    the buffer holds, and writes the pending bytes out when the new ones do not fit. *)
#[local] Instance buffered_8k : BufStreamPolicy := {
  read_ahead rest := Z.to_nat 8192;
  spill pending new :=
    if decide (Z.of_nat (length pending + length new) ≤ 8192) then 0%nat
    else if decide (8192 ≤ Z.of_nat (length new)) then (length pending + length new)%nat
    else length pending;
}.
