(* ===== verification/Crypto.v ===== *)
(** * Hashes, keys and encryption

    The value types of crypto/src/crypto that the log's metadata is made of, and
    the symmetric encryption built on them.  The primitives of third-party crates
    ([blake3], [sha3], [aes]/[ctr], [pqcrypto_falcon]) are the class
    [CryptoPrims]; a draw from the random number generator is an argument. *)

From S2P Require Import Prelude LogApi.

(** ** Third-party primitives *)

(** The security level of a Falcon key pair. *)
Inductive FalconLevel : Type := Level512 | Level1024.

(** [blake3::hash] and [sha3::Keccak384] on the concatenation of what was fed to
    the hasher, the AES counter-mode key stream, and Falcon's detached signatures:
    [falcon_sign] is [None] when the secret key does not decode,
    [falcon_verify] is [None] when the key or the signature does not decode.
    The laws are the documented digest sizes, that the stream is as long as asked,
    and that a signature by a generated pair verifies. *)
Class CryptoPrims : Type := {
  blake3 : bytes → bytes;
  keccak384 : bytes → bytes;
  aes_ctr : bytes → bytes → nat → bytes;
  falcon_pair : FalconLevel → bytes → bytes → Prop;
  falcon_sign : FalconLevel → bytes → bytes → option bytes;
  falcon_verify : FalconLevel → bytes → bytes → bytes → option bool;
  blake3_length : ∀ bs, length (blake3 bs) = 32%nat;
  keccak384_length : ∀ bs, length (keccak384 bs) = 48%nat;
  aes_ctr_length : ∀ k iv n, length (aes_ctr k iv n) = n;
  falcon_sign_verify : ∀ l pk sk data, falcon_pair l pk sk →
    ∃ sig, falcon_sign l sk data = Some sig ∧ falcon_verify l pk data sig = Some true;
}.

(** ** Byte strings *)

Definition byte_xor (a b : byte) : byte := byte_of_Z (Z.lxor (Z_of_byte a) (Z_of_byte b)).

(** [x1 ^= x2] over the zip of two slices: the tail of a longer [xs] is kept. *)
Fixpoint xor_onto (xs ys : bytes) : bytes :=
  match xs, ys with
  | x :: xs', y :: ys' => byte_xor x y :: xor_onto xs' ys'
  | _, _ => xs
  end.

(** A slice cut or zero-filled to [n] bytes. *)
Definition fit (n : nat) (bs : bytes) : bytes :=
  take n bs ++ replicate (n - length bs) x00.

Lemma byte_lxor_bound a b : 0 ≤ Z.lxor (Z_of_byte a) (Z_of_byte b) < 256.
Proof.
  pose proof (Z_of_byte_bound a). pose proof (Z_of_byte_bound b).
  assert (0 ≤ Z.lxor (Z_of_byte a) (Z_of_byte b)) by (apply Z.lxor_nonneg; lia).
  split; [done|].
  destruct (decide (Z.lxor (Z_of_byte a) (Z_of_byte b) = 0)) as [->|Hne]; [lia|].
  apply (Z.log2_lt_pow2 _ 8); [lia|].
  eapply Z.le_lt_trans; [apply Z.log2_lxor; lia|].
  apply Z.max_lub_lt; apply Z.le_lt_trans with (Z.log2 255);
    try (apply Z.log2_le_mono; lia); reflexivity.
Qed.

Lemma byte_xor_xor a b : byte_xor (byte_xor a b) b = a.
Proof.
  unfold byte_xor. rewrite Z_of_byte_of_Z, Z.mod_small by apply byte_lxor_bound.
  rewrite Z.lxor_assoc, Z.lxor_nilpotent, Z.lxor_0_r. apply byte_of_Z_of_byte.
Qed.

Lemma xor_onto_xor_onto xs ys : xor_onto (xor_onto xs ys) ys = xs.
Proof.
  revert ys. induction xs as [|x xs IH]; intros [|y ys]; simpl; try done.
  by rewrite byte_xor_xor, IH.
Qed.

Lemma xor_onto_length xs ys : length (xor_onto xs ys) = length xs.
Proof. revert ys. induction xs as [|x xs IH]; intros [|y ys]; simpl; auto. Qed.

Lemma fit_length n bs : length (fit n bs) = n.
Proof. unfold fit. len. Qed.

Lemma fit_exact n bs : length bs = n → fit n bs = bs.
Proof.
  intros <-. unfold fit. by rewrite take_ge, Nat.sub_diag, app_nil_r by lia.
Qed.

(** ** Hashes *)

Inductive HashRoutine : Type := Sha3 | Blake3.

(** [crate::HASH_ROUTINE]. *)
Definition HASH_ROUTINE : HashRoutine := Blake3.

Record AteHash : Type := { hash_val : bytes }.
Record ShortHash : Type := { short_val : Z }.

#[global] Instance AteHash_eq_dec : EqDecision AteHash.
Proof. solve_decision. Defined.
#[global] Program Instance AteHash_countable : Countable AteHash :=
  inj_countable' hash_val (λ v, {| hash_val := v |}) _.
Next Obligation. by intros []. Qed.
#[global] Instance ShortHash_eq_dec : EqDecision ShortHash.
Proof. solve_decision. Defined.

Section hashes.
Context `{CryptoPrims}.

(** The digest of the concatenation of the inputs fed to a hasher. *)
Definition digest (routine : HashRoutine) (inputs : list bytes) : bytes :=
  match routine with
  | Sha3 => keccak384 (concat inputs)
  | Blake3 => blake3 (concat inputs)
  end.
End hashes.

Module AteHash.
Section ops.
Context `{CryptoPrims}.

Definition LEN : Z := 16.

Definition from_bytes_blake3 (input : bytes) : AteHash :=
  {| hash_val := take 16 (digest Blake3 [input]) |}.

Definition from_bytes_twice_blake3 (input1 input2 : bytes) : AteHash :=
  {| hash_val := take 16 (digest Blake3 [input1; input2]) |}.

Definition from_bytes_sha3 (input : bytes) (repeat : Z) : AteHash :=
  {| hash_val := take 16 (digest Sha3 (replicate (Z.to_nat repeat) input)) |}.

Definition from_bytes_twice_sha3 (input1 input2 : bytes) : AteHash :=
  {| hash_val := take 16 (digest Sha3 [input1; input2]) |}.

Definition from_bytes_by_routine (input : bytes) (routine : HashRoutine) : AteHash :=
  match routine with
  | Sha3 => from_bytes_sha3 input 1
  | Blake3 => from_bytes_blake3 input
  end.

Definition from_bytes_twice_by_routine (input1 input2 : bytes) (routine : HashRoutine) : AteHash :=
  match routine with
  | Sha3 => from_bytes_twice_sha3 input1 input2
  | Blake3 => from_bytes_twice_blake3 input1 input2
  end.

Definition from_bytes (input : bytes) : AteHash := from_bytes_by_routine input HASH_ROUTINE.

Definition from_bytes_twice (input1 input2 : bytes) : AteHash :=
  from_bytes_twice_by_routine input1 input2 HASH_ROUTINE.

(** [From<u64>]. *)
Definition from_u64 (val : Z) : AteHash := from_bytes (to_be 8 val).

Definition to_u64 (h : AteHash) : Z := from_be (take 8 (hash_val h)).
End ops.
End AteHash.

Module ShortHash.
Section ops.
Context `{CryptoPrims}.

Definition from_bytes_blake3 (input : bytes) : ShortHash :=
  {| short_val := from_be (take 4 (digest Blake3 [input])) |}.

Definition from_bytes_twice_blake3 (input1 input2 : bytes) : ShortHash :=
  {| short_val := from_be (take 4 (digest Blake3 [input1; input2])) |}.

Definition from_bytes_sha3 (input : bytes) (repeat : Z) : ShortHash :=
  {| short_val := from_be (take 4 (digest Sha3 (replicate (Z.to_nat repeat) input))) |}.

Definition from_bytes_twice_sha3 (input1 input2 : bytes) : ShortHash :=
  {| short_val := from_be (take 4 (digest Sha3 [input1; input2])) |}.

Definition from_bytes_by_routine (input : bytes) (routine : HashRoutine) : ShortHash :=
  match routine with
  | Sha3 => from_bytes_sha3 input 1
  | Blake3 => from_bytes_blake3 input
  end.

Definition from_bytes_twice_by_routine (input1 input2 : bytes) (routine : HashRoutine) : ShortHash :=
  match routine with
  | Sha3 => from_bytes_twice_sha3 input1 input2
  | Blake3 => from_bytes_twice_blake3 input1 input2
  end.

Definition from_bytes (input : bytes) : ShortHash := from_bytes_by_routine input HASH_ROUTINE.

Definition from_bytes_twice (input1 input2 : bytes) : ShortHash :=
  from_bytes_twice_by_routine input1 input2 HASH_ROUTINE.
End ops.
End ShortHash.

Record DoubleHash : Type := { hash1 : AteHash; hash2 : AteHash }.

Module DoubleHash.
Definition from_hashes (h1 h2 : AteHash) : DoubleHash := {| hash1 := h1; hash2 := h2 |}.

Definition hash `{CryptoPrims} (d : DoubleHash) : AteHash :=
  AteHash.from_bytes_twice (hash_val (hash1 d)) (hash_val (hash2 d)).
End DoubleHash.

(** ** Primary keys *)

Record PrimaryKey : Type := { pk_key : Z }.

#[global] Instance PrimaryKey_eq_dec : EqDecision PrimaryKey.
Proof. solve_decision. Defined.
#[global] Program Instance PrimaryKey_countable : Countable PrimaryKey :=
  inj_countable' pk_key (λ v, {| pk_key := v |}) _.
Next Obligation. by intros []. Qed.

Module PrimaryKey.
Definition new (key : Z) : PrimaryKey := {| pk_key := key |}.
Definition as_u64 (k : PrimaryKey) : Z := pk_key k.

(** [From<AteHash>]. *)
Definition from_hash (h : AteHash) : PrimaryKey := {| pk_key := from_be (take 8 (hash_val h)) |}.

(** The subtraction and the remainder are u64 operations: [max < min] or an empty
    range panics, which is [None]. *)
Definition from_ext (val : AteHash) (min max : Z) : option PrimaryKey :=
  if decide (min < max)
  then Some {| pk_key := from_be (take 8 (hash_val val)) mod (max - min) + min |}
  else None.
End PrimaryKey.

(** ** Symmetric encryption *)

Inductive KeySize : Type := Bit128 | Bit192 | Bit256.

#[global] Instance KeySize_eq_dec : EqDecision KeySize.
Proof. solve_decision. Defined.

Module KeySize.
Definition as_str (s : KeySize) : string :=
  match s with Bit128 => "128" | Bit192 => "192" | Bit256 => "256" end.

(** [FromStr]: [None] is the error. *)
Definition from_str (s : string) : option KeySize :=
  if decide (s = "128"%string) then Some Bit128
  else if decide (s = "192"%string) then Some Bit192
  else if decide (s = "256"%string) then Some Bit256
  else None.
End KeySize.

Record InitializationVector : Type := { iv_bytes : bytes }.

#[global] Instance InitializationVector_eq_dec : EqDecision InitializationVector.
Proof. solve_decision. Defined.

Inductive EncryptKey : Type :=
  | Aes128 (a : bytes)
  | Aes192 (a : bytes)
  | Aes256 (a : bytes).

Record EncryptResult : Type := { er_iv : InitializationVector; er_data : bytes }.

#[global] Instance EncryptKey_eq_dec : EqDecision EncryptKey.
Proof. solve_decision. Defined.
#[global] Instance EncryptResult_eq_dec : EqDecision EncryptResult.
Proof. solve_decision. Defined.

Module EncryptKey.
Definition size (k : EncryptKey) : KeySize :=
  match k with Aes128 _ => Bit128 | Aes192 _ => Bit192 | Aes256 _ => Bit256 end.

Definition value (k : EncryptKey) : bytes :=
  match k with Aes128 a => a | Aes192 a => a | Aes256 a => a end.

(** The array lengths of the enum's fields. *)
Definition wf (k : EncryptKey) : Prop :=
  match k with
  | Aes128 a => length a = 16%nat
  | Aes192 a => length a = 24%nat
  | Aes256 a => length a = 32%nat
  end.

(** [rnd] is what the generator fills the key with. *)
Definition generate (rnd : bytes) (size : KeySize) : EncryptKey :=
  match size with
  | Bit128 => Aes128 (fit 16 rnd)
  | Bit192 => Aes192 (fit 24 rnd)
  | Bit256 => Aes256 (fit 32 rnd)
  end.

Definition resize (k : EncryptKey) (size : KeySize) : EncryptKey :=
  let bytes := value k ++ replicate (32 - length (value k)) x00 in
  match size with
  | Bit128 => Aes128 (take 16 bytes)
  | Bit192 => Aes192 (take 24 bytes)
  | Bit256 => Aes256 (take 32 bytes)
  end.

Definition as_bytes (k : EncryptKey) : bytes := value k.

Definition from_bytes (bs : bytes) : result IoErrorKind EncryptKey :=
  match length bs with
  | 16%nat => Ok (Aes128 bs)
  | 24%nat => Ok (Aes192 bs)
  | 32%nat => Ok (Aes256 bs)
  | _ => Err Other
  end.

(** [None] is the panic of [expect]. *)
Definition xor (ek1 ek2 : EncryptKey) : option EncryptKey :=
  result_ok (from_bytes (xor_onto (as_bytes ek1) (as_bytes ek2))).

Section ops.
Context `{CryptoPrims}.

(** The initialization vector is cut or zero-filled to 16 bytes. *)
Definition encrypt_with_iv (k : EncryptKey) (iv : InitializationVector) (data : bytes) : bytes :=
  let iv := if decide (length (iv_bytes iv) = 16%nat) then iv_bytes iv
            else fit 16 (iv_bytes iv) in
  xor_onto data (aes_ctr (value k) iv (length data)).

Definition encrypt_with_hash_iv (k : EncryptKey) (hash : AteHash) (data : bytes) : bytes :=
  xor_onto data (aes_ctr (value k) (hash_val hash) (length data)).

Definition encrypt_with_hash_iv_with_capacity (k : EncryptKey) (hash : AteHash)
    (data : bytes) : bytes :=
  hash_val hash ++ xor_onto data (aes_ctr (value k) (hash_val hash) (length data)).

Definition encrypt_with_hash_iv_with_capacity_and_prefix (k : EncryptKey) (hash : AteHash)
    (data : bytes) (prefix : bytes) : bytes :=
  prefix ++ hash_val hash ++ xor_onto data (aes_ctr (value k) (hash_val hash) (length data)).

(** [rnd] is what the generator fills the 16-byte vector with. *)
Definition encrypt (k : EncryptKey) (rnd : bytes) (data : bytes) : EncryptResult :=
  let iv := {| iv_bytes := fit 16 rnd |} in
  {| er_iv := iv; er_data := encrypt_with_iv k iv data |}.

Definition decrypt (k : EncryptKey) (iv : InitializationVector) (data : bytes) : bytes :=
  let iv := if decide (length (iv_bytes iv) = 16%nat) then iv_bytes iv
            else fit 16 (iv_bytes iv) in
  xor_onto data (aes_ctr (value k) iv (length data)).

Definition decrypt_with_hash_iv (k : EncryptKey) (hash : AteHash) (data : bytes) : bytes :=
  xor_onto data (aes_ctr (value k) (hash_val hash) (length data)).

Definition hash (k : EncryptKey) : AteHash := AteHash.from_bytes (value k).

Definition short_hash (k : EncryptKey) : ShortHash := ShortHash.from_bytes (value k).

Definition from_seed_bytes (seed_bytes : bytes) (size : KeySize) : EncryptKey :=
  let result := digest Sha3 [seed_bytes] in
  match size with
  | Bit128 => Aes128 (take 16 result)
  | Bit192 => Aes192 (take 24 result)
  | Bit256 => Aes256 (take 32 result)
  end.
End ops.
End EncryptKey.

Record DerivedEncryptKey : Type := { dk_inner : EncryptResult }.

#[global] Instance DerivedEncryptKey_eq_dec : EqDecision DerivedEncryptKey.
Proof. solve_decision. Defined.

Module DerivedEncryptKey.
Section ops.
Context `{CryptoPrims}.

(** [rnd_key] and [rnd_iv] are the draws for the inner key and for its vector. *)
Definition new (rnd_key rnd_iv : bytes) (key : EncryptKey) : DerivedEncryptKey :=
  let inner := EncryptKey.generate rnd_key (EncryptKey.size key) in
  {| dk_inner := EncryptKey.encrypt key rnd_iv (EncryptKey.value inner) |}.

Definition reverse (rnd_iv : bytes) (key inner : EncryptKey) : DerivedEncryptKey :=
  {| dk_inner := EncryptKey.encrypt key rnd_iv (EncryptKey.value inner) |}.

Definition transmute (d : DerivedEncryptKey) (key : EncryptKey) : result IoErrorKind EncryptKey :=
  EncryptKey.from_bytes (EncryptKey.decrypt key (er_iv (dk_inner d)) (er_data (dk_inner d))).

Definition change (rnd_iv : bytes) (d : DerivedEncryptKey) (old new : EncryptKey)
    : result IoErrorKind DerivedEncryptKey :=
  inner ← transmute d old;
  Ok {| dk_inner := EncryptKey.encrypt new rnd_iv (EncryptKey.value inner) |}.
End ops.
End DerivedEncryptKey.

(** ** Signing keys *)

Inductive PublicSignKey : Type :=
  | PublicFalcon512 (pk : bytes)
  | PublicFalcon1024 (pk : bytes).

Inductive PrivateSignKey : Type :=
  | PrivateFalcon512 (pk : PublicSignKey) (sk : bytes)
  | PrivateFalcon1024 (pk : PublicSignKey) (sk : bytes).

#[global] Instance PublicSignKey_eq_dec : EqDecision PublicSignKey.
Proof. solve_decision. Defined.

Module PublicSignKey.
Definition pk (k : PublicSignKey) : bytes :=
  match k with PublicFalcon512 pk => pk | PublicFalcon1024 pk => pk end.

Section ops.
Context `{CryptoPrims}.

Definition hash (k : PublicSignKey) : AteHash := AteHash.from_bytes (pk k).

(** [None] is the error of a key or signature that does not decode. *)
Definition verify (k : PublicSignKey) (data sig : bytes) : option bool :=
  match k with
  | PublicFalcon512 pk => falcon_verify Level512 pk data sig
  | PublicFalcon1024 pk => falcon_verify Level1024 pk data sig
  end.
End ops.
End PublicSignKey.

Module PrivateSignKey.
(** [keypair512] and [keypair1024] are the draws of [falcon512::keypair] and
    [falcon1024::keypair]. *)
Definition generate (keypair512 keypair1024 : bytes * bytes) (size : KeySize) : PrivateSignKey :=
  match size with
  | Bit128 | Bit192 =>
      PrivateFalcon512 (PublicFalcon512 (fst keypair512)) (snd keypair512)
  | Bit256 =>
      PrivateFalcon1024 (PublicFalcon1024 (fst keypair1024)) (snd keypair1024)
  end.

Definition as_public_key (k : PrivateSignKey) : PublicSignKey :=
  match k with PrivateFalcon512 pk _ => pk | PrivateFalcon1024 pk _ => pk end.

Definition sk (k : PrivateSignKey) : bytes :=
  match k with PrivateFalcon512 _ sk => sk | PrivateFalcon1024 _ sk => sk end.

Definition size (k : PrivateSignKey) : KeySize :=
  match k with PrivateFalcon512 _ _ => Bit192 | PrivateFalcon1024 _ _ => Bit256 end.

Section ops.
Context `{CryptoPrims}.

Definition hash (k : PrivateSignKey) : AteHash := PublicSignKey.hash (as_public_key k).

Definition sign (k : PrivateSignKey) (data : bytes) : result IoErrorKind bytes :=
  match (match k with
         | PrivateFalcon512 _ sk => falcon_sign Level512 sk data
         | PrivateFalcon1024 _ sk => falcon_sign Level1024 sk data
         end) with
  | Some sig => Ok sig
  | None => Err Other
  end.

(** A pair as [generate] makes it. *)
Definition generated (k : PrivateSignKey) : Prop :=
  match k with
  | PrivateFalcon512 (PublicFalcon512 pk) sk => falcon_pair Level512 pk sk
  | PrivateFalcon1024 (PublicFalcon1024 pk) sk => falcon_pair Level1024 pk sk
  | _ => False
  end.
End ops.
End PrivateSignKey.

Record EncryptedPrivateKey : Type := {
  epk_pk : PublicSignKey;
  epk_ek_hash : AteHash;
  epk_sk_iv : InitializationVector;
  epk_sk_encrypted : bytes;
}.

Module EncryptedPrivateKey.
Section ops.
Context `{CryptoPrims}.

Definition from_pair (rnd : bytes) (pair : PrivateSignKey) (encrypt_key : EncryptKey)
    : EncryptedPrivateKey :=
  let sk := EncryptKey.encrypt encrypt_key rnd (PrivateSignKey.sk pair) in
  {| epk_pk := PrivateSignKey.as_public_key pair;
     epk_ek_hash := EncryptKey.hash encrypt_key;
     epk_sk_iv := er_iv sk;
     epk_sk_encrypted := er_data sk |}.

Definition as_private_key (e : EncryptedPrivateKey) (key : EncryptKey) : PrivateSignKey :=
  let data := EncryptKey.decrypt key (epk_sk_iv e) (epk_sk_encrypted e) in
  match epk_pk e with
  | PublicFalcon512 pk => PrivateFalcon512 (PublicFalcon512 pk) data
  | PublicFalcon1024 pk => PrivateFalcon1024 (PublicFalcon1024 pk) data
  end.

Definition as_public_key (e : EncryptedPrivateKey) : PublicSignKey := epk_pk e.

Definition pk_hash (e : EncryptedPrivateKey) : AteHash := PublicSignKey.hash (epk_pk e).

Definition double_hash (e : EncryptedPrivateKey) : DoubleHash :=
  DoubleHash.from_hashes (pk_hash e) (epk_ek_hash e).
End ops.
End EncryptedPrivateKey.

(** ** Theorems *)

Section theorems.
Context `{CryptoPrims}.

Lemma AteHash_from_bytes_length input : length (hash_val (AteHash.from_bytes input)) = 16%nat.
Proof. simpl. rewrite length_take, blake3_length. done. Qed.

Lemma encrypt_with_iv_length k iv d : length (EncryptKey.encrypt_with_iv k iv d) = length d.
Proof. apply xor_onto_length. Qed.

Lemma decrypt_encrypt_with_iv k iv d :
  EncryptKey.decrypt k iv (EncryptKey.encrypt_with_iv k iv d) = d.
Proof.
  unfold EncryptKey.decrypt, EncryptKey.encrypt_with_iv. rewrite xor_onto_length.
  apply xor_onto_xor_onto.
Qed.

Lemma decrypt_encrypt k rnd d :
  EncryptKey.decrypt k (er_iv (EncryptKey.encrypt k rnd d))
    (er_data (EncryptKey.encrypt k rnd d)) = d.
Proof. apply decrypt_encrypt_with_iv. Qed.

Lemma from_bytes_value k : EncryptKey.wf k → EncryptKey.from_bytes (EncryptKey.value k) = Ok k.
Proof. unfold EncryptKey.from_bytes. by destruct k; simpl; intros ->. Qed.

Lemma from_bytes_Ok bs k : EncryptKey.from_bytes bs = Ok k →
  EncryptKey.value k = bs ∧ EncryptKey.wf k.
Proof.
  unfold EncryptKey.from_bytes. intros Hk.
  repeat case_match; simplify_eq; simpl; auto.
Qed.

Lemma generate_wf rnd size : EncryptKey.wf (EncryptKey.generate rnd size).
Proof. destruct size; apply fit_length. Qed.

Lemma sign_verifies k data : PrivateSignKey.generated k →
  ∃ sig, PrivateSignKey.sign k data = Ok sig
         ∧ PublicSignKey.verify (PrivateSignKey.as_public_key k) data sig = Some true.
Proof.
  unfold PrivateSignKey.sign, PublicSignKey.verify.
  destruct k as [[pk|pk] sk|[pk|pk] sk]; simpl; try done; intros Hgen;
    destruct (falcon_sign_verify _ _ _ data Hgen) as (sig & -> & ?); eauto.
Qed.

(** Rotating the key that protects a derived key keeps the derived key: when
    [transmute] under the old key yields [k], [change] succeeds and [transmute] of
    the changed record under the new key yields the same [k], whatever the new
    initialization vector. *)
Theorem change_keeps_derived_key (rnd : bytes) (d : DerivedEncryptKey) (old new k : EncryptKey)
  (Hk : DerivedEncryptKey.transmute d old = Ok k) :
  ∃ d', DerivedEncryptKey.change rnd d old new = Ok d'
        ∧ DerivedEncryptKey.transmute d' new = Ok k.
Proof.
  unfold DerivedEncryptKey.change. rewrite Hk. simpl.
  eexists. split; [done|]. unfold DerivedEncryptKey.transmute. cbn [dk_inner].
  rewrite decrypt_encrypt. apply from_bytes_value.
  by apply from_bytes_Ok in Hk as [_ ?].
Qed.

(** A private key stored encrypted comes back whole and signs: decrypting the
    record made from a generated pair with the same key gives the pair, and what it
    signs verifies under the public key the record carries. *)
Theorem encrypted_private_key_signs (rnd data : bytes) (pair : PrivateSignKey) (ek : EncryptKey)
  (Hgen : PrivateSignKey.generated pair) :
  let e := EncryptedPrivateKey.from_pair rnd pair ek in
  EncryptedPrivateKey.as_private_key e ek = pair
  ∧ ∃ sig, PrivateSignKey.sign (EncryptedPrivateKey.as_private_key e ek) data = Ok sig
      ∧ PublicSignKey.verify (EncryptedPrivateKey.as_public_key e) data sig = Some true.
Proof.
  intros e.
  assert (EncryptedPrivateKey.as_private_key e ek = pair) as Heq.
  { unfold e, EncryptedPrivateKey.as_private_key, EncryptedPrivateKey.from_pair. simpl.
    rewrite decrypt_encrypt_with_iv. by destruct pair as [[] ?|[] ?]. }
  rewrite Heq. split; [done|].
  by apply sign_verifies.
Qed.

(** Combining two keys with [xor] never panics, keeps the size of the first and
    is undone by combining with the second again, also when their sizes differ. *)
Theorem xor_involutive (ek1 ek2 : EncryptKey) (Hwf : EncryptKey.wf ek1) :
  ∃ k, EncryptKey.xor ek1 ek2 = Some k ∧ EncryptKey.size k = EncryptKey.size ek1
       ∧ EncryptKey.wf k ∧ EncryptKey.xor k ek2 = Some ek1.
Proof.
  unfold EncryptKey.xor, EncryptKey.as_bytes, EncryptKey.from_bytes.
  rewrite xor_onto_length.
  destruct ek1; simpl in *; rewrite Hwf; simpl; eexists; repeat split;
    simpl; rewrite ?xor_onto_length, ?Hwf, ?xor_onto_xor_onto; done.
Qed.
End theorems.

(** ** A concrete instance *)

(** Primitives of the documented sizes, to evaluate the definitions on concrete
    inputs: a digest that keeps what fits, a constant key stream, and signatures
    that repeat the data. *)
#[local] Program Instance toy_prims : CryptoPrims := {
  blake3 := fit 32;
  keccak384 := fit 48;
  aes_ctr k iv n := fit n (k ++ iv);
  falcon_pair _ pk sk := pk = sk;
  falcon_sign _ sk data := Some (sk ++ data);
  falcon_verify _ pk data sig := Some (bool_decide (sig = pk ++ data));
}.
Next Obligation. intros. apply fit_length. Qed.
Next Obligation. intros. apply fit_length. Qed.
Next Obligation. intros. apply fit_length. Qed.
Next Obligation.
  intros l pk sk data ->. eexists. split; [done|]. by rewrite bool_decide_eq_true_2.
Qed.

Definition toy_key (b : byte) : EncryptKey := Aes128 (replicate 16 b).

Lemma change_keeps_derived_key_witness :
  ∃ d', DerivedEncryptKey.change [x07] (DerivedEncryptKey.new [x01] [x02] (toy_key x0a))
          (toy_key x0a) (toy_key x0b) = Ok d'
        ∧ DerivedEncryptKey.transmute d' (toy_key x0b) = Ok (EncryptKey.generate [x01] Bit128).
Proof. apply change_keeps_derived_key. vm_compute. reflexivity. Defined.

Lemma encrypted_private_key_signs_witness :
  let pair := PrivateFalcon512 (PublicFalcon512 [x01; x02]) [x01; x02] in
  let e := EncryptedPrivateKey.from_pair [x09] pair (toy_key x0a) in
  EncryptedPrivateKey.as_private_key e (toy_key x0a) = pair
  ∧ ∃ sig, PrivateSignKey.sign (EncryptedPrivateKey.as_private_key e (toy_key x0a)) [x05] = Ok sig
      ∧ PublicSignKey.verify (EncryptedPrivateKey.as_public_key e) [x05] sig = Some true.
Proof. intros pair e. apply (encrypted_private_key_signs [x09] [x05] pair). reflexivity. Defined.

Lemma xor_involutive_witness :
  ∃ k, EncryptKey.xor (toy_key x0f) (Aes256 (replicate 32 xf0)) = Some k
       ∧ EncryptKey.size k = Bit128 ∧ EncryptKey.wf k
       ∧ EncryptKey.xor k (Aes256 (replicate 32 xf0)) = Some (toy_key x0f).
Proof. apply (xor_involutive (toy_key x0f)). reflexivity. Defined.
