(* ===== verification/Codec.v ===== *)
(** * The log format

    lib/src/spec.rs and lib/src/redo/magic.rs: how events and the file header are
    laid out in a log file.  An event is the magic [Ate], a version byte, the
    format byte, size and bytes of its metadata and the format byte, size and bytes
    of its data; a file header is the magic [RED], a version byte, a size and the
    header bytes.  Readers skip what does not start with the magic.

    Definitions are generic in the [LogApi] they run on.  The theorems show that
    the scan for the magic finds its first occurrence and always ends, that what
    was written is read back, and what a reader makes of a file that ends inside an
    event. *)

From S2P Require Import Prelude LogApi Crypto.

(** ** Data *)

(** [SerializationFormat] of wasmer-bus/types/src/format.rs with its default
    features, which leave [Rkyv] out. *)
Inductive SerializationFormat : Type :=
  | Raw | Json | MessagePack | Bincode | Yaml | Xml.

Record MessageFormat : Type := {
  mf_meta : SerializationFormat;
  mf_data : SerializationFormat;
}.

Inductive CentralizedRole : Type := Server | Client.

Inductive TrustMode : Type :=
  | Distributed
  | Centralized (role : CentralizedRole).

Inductive BlobSize : Type := U8 | U16 | U32 | U64.

Record LogHeader : Type := { lh_offset : Z; lh_format : MessageFormat }.

Record LogLookup : Type := { ll_index : Z; ll_offset : Z }.

Record LazyData : Type := { ld_record : AteHash; ld_hash : AteHash; ld_len : Z }.

Inductive LogData : Type :=
  | LogSome (a : bytes)
  | LogLazySome (l : LazyData)
  | LogNone.

Record LogEntry : Type := {
  le_header : LogHeader;
  le_meta : bytes;
  le_data : LogData;
}.

Inductive EventVersion : Type := V2.

#[global] Instance SerializationFormat_eq_dec : EqDecision SerializationFormat.
Proof. solve_decision. Defined.
#[global] Instance MessageFormat_eq_dec : EqDecision MessageFormat.
Proof. solve_decision. Defined.
#[global] Instance LogLookup_eq_dec : EqDecision LogLookup.
Proof. solve_decision. Defined.
#[global] Instance LazyData_eq_dec : EqDecision LazyData.
Proof. solve_decision. Defined.
#[global] Instance CentralizedRole_eq_dec : EqDecision CentralizedRole.
Proof. solve_decision. Defined.
#[global] Instance TrustMode_eq_dec : EqDecision TrustMode.
Proof. solve_decision. Defined.

Module SerializationFormat.
(** [IntoPrimitive] and [TryFromPrimitive]. *)
Definition into_u8 (f : SerializationFormat) : Z :=
  match f with
  | Raw => 0 | Json => 1 | MessagePack => 2 | Bincode => 3 | Yaml => 4 | Xml => 5
  end.

Definition try_from_u8 (z : Z) : option SerializationFormat :=
  if decide (z = 0) then Some Raw
  else if decide (z = 1) then Some Json
  else if decide (z = 2) then Some MessagePack
  else if decide (z = 3) then Some Bincode
  else if decide (z = 4) then Some Yaml
  else if decide (z = 5) then Some Xml
  else None.

(** [FromStr]; [None] is the error. *)
Definition from_str (s : string) : option SerializationFormat :=
  if decide (s = "raw"%string) then Some Raw
  else if decide (s = "mpack"%string ∨ s = "messagepack"%string) then Some MessagePack
  else if decide (s = "bincode"%string ∨ s = "bc"%string) then Some Bincode
  else if decide (s = "json"%string) then Some Json
  else if decide (s = "yaml"%string) then Some Yaml
  else if decide (s = "xml"%string) then Some Xml
  else None.
End SerializationFormat.

Module TrustMode.
Definition is_centralized (m : TrustMode) : bool :=
  match m with Centralized _ => true | Distributed => false end.

Definition as_client (m : TrustMode) : TrustMode :=
  match m with Centralized _ => Centralized Client | a => a end.

Definition as_server (m : TrustMode) : TrustMode :=
  match m with Centralized _ => Centralized Server | a => a end.

(** [Display] and [FromStr]. *)
Definition to_string (m : TrustMode) : string :=
  match m with
  | Centralized Server => "centralized(server)"
  | Centralized Client => "centralized(client)"
  | Distributed => "distributed"
  end.

Definition from_str (s : string) : option TrustMode :=
  if decide (s = "distributed"%string) then Some Distributed
  else if decide (s = "centralized"%string) then Some (Centralized Server)
  else if decide (s = "centralized(client)"%string) then Some (Centralized Client)
  else if decide (s = "centralized(server)"%string) then Some (Centralized Server)
  else None.
End TrustMode.

Module BlobSize.
Definition into_u8 (b : BlobSize) : Z :=
  match b with U8 => 1 | U16 => 2 | U32 => 3 | U64 => 4 end.

Definition try_from_u8 (z : Z) : option BlobSize :=
  if decide (z = 1) then Some U8
  else if decide (z = 2) then Some U16
  else if decide (z = 3) then Some U32
  else if decide (z = 4) then Some U64
  else None.
End BlobSize.

Module LogData.
Definition is_some (d : LogData) : bool :=
  match d with LogSome _ => true | LogLazySome _ => true | LogNone => false end.

Definition is_none (d : LogData) : bool := negb (is_some d).

Definition as_option (d : LogData) : option bytes :=
  match d with LogSome a => Some a | _ => None end.

Definition hash `{CryptoPrims} (d : LogData) : option AteHash :=
  match d with
  | LogSome a => Some (AteHash.from_bytes a)
  | LogLazySome l => Some (ld_hash l)
  | LogNone => None
  end.

Definition size (d : LogData) : Z :=
  match d with
  | LogSome a => Z.of_nat (length a)
  | LogLazySome l => ld_len l
  | LogNone => 0
  end.
End LogData.

(** ** The scan for a magic *)

(** One byte of the scan: the inner [loop] of [read_version] and of
    [RedoHeader::read] for a magic of three bytes.  [n] bytes of the magic are
    matched; [inl v] is the version the byte completes, [inr n'] the matched count
    after it.  Each turn ends the loop or resets [n] to zero, after which the next
    turn ends it, so two turns are enough ([scan_byte_total]). *)
Fixpoint scan_byte {V : Type} (magic : list Z) (try_from : Z → option V) (fuel n : nat) (cur : Z)
    : option (V + nat) :=
  match fuel with
  | O => None
  | S fuel =>
      match magic !! n with
      | Some m =>
          if decide (cur = m) then Some (inr (S n))
          else if decide (0 < n)%nat then scan_byte magic try_from fuel 0 cur
          else Some (inr 0%nat)
      | None =>
          match try_from cur with
          | Some a => Some (inl a)
          | None => scan_byte magic try_from fuel 0 cur
          end
      end
  end.

Module EventVersion.
(** [b"Ate"]. *)
Definition LOG_MAGIC : list Z := [65; 116; 101].

Definition into_u8 (v : EventVersion) : Z := match v with V2 => 49 end.

Definition try_from_u8 (z : Z) : option EventVersion :=
  if decide (z = 49) then Some V2 else None.

Section ops.
Context {S : Type} `{LogApi S}.

Definition read_byte : st S SerializationErrorKind (option Z) :=
  st_try api_read_u8 (λ r,
    match r with
    | Ok a => mret (Some a)
    | Err UnexpectedEof => mret None
    | Err _ => st_fail (IO Other)
    end).

(** The outer [while let] loop.  Every turn reads a byte, so one more turn than
    the file has bytes is enough ([read_version_spec]). *)
Fixpoint read_version_loop (fuel n : nat) : st S SerializationErrorKind (option EventVersion) :=
  match fuel with
  | O => st_fail Diverged
  | Datatypes.S fuel =>
      cur ← read_byte;
      match cur with
      | None => mret None
      | Some cur =>
          match scan_byte LOG_MAGIC try_from_u8 2 n cur with
          | None => st_fail Diverged
          | Some (inl a) => mret (Some a)
          | Some (inr n) => read_version_loop fuel n
          end
      end
  end.

Definition read_version : st S SerializationErrorKind (option EventVersion) :=
  s ← st_get;
  read_version_loop (Datatypes.S (Z.to_nat (api_len s))) 0.

Definition read_blob_size (v : EventVersion) : st S SerializationErrorKind Z :=
  match v with
  | V2 =>
      tag ← st_map_err IO api_read_u8;
      match BlobSize.try_from_u8 tag with
      | Some U8 => st_map_err IO api_read_u8
      | Some U16 => st_map_err IO api_read_u16
      | Some U32 => st_map_err IO api_read_u32
      | Some U64 => st_map_err IO api_read_u64
      | None => st_fail (IO Other)
      end
  end.

(** The size class [write_blob_size] picks for a [usize]. *)
Definition blob_size_of (val : Z) : BlobSize :=
  if decide (val < u8_max) then U8
  else if decide (val < u16_max) then U16
  else if decide (val < u32_max) then U32
  else if decide (val < u64_max) then U64
  else U32.

Definition write_blob_size (v : EventVersion) (val : Z) : st S SerializationErrorKind unit :=
  match v with
  | V2 =>
      _ ← st_map_err IO (api_write_u8 (BlobSize.into_u8 (blob_size_of val)));
      match blob_size_of val with
      | U8 => st_map_err IO (api_write_u8 val)
      | U16 => st_map_err IO (api_write_u16 val)
      | U32 => st_map_err IO (api_write_u32 val)
      | U64 => st_map_err IO (api_write_u64 val)
      end
  end.

Definition read_format (v : EventVersion) : st S SerializationErrorKind SerializationFormat :=
  b ← st_map_err IO api_read_u8;
  match SerializationFormat.try_from_u8 b with
  | Some a => mret a
  | None => st_fail InvalidSerializationFormat
  end.

Definition write_format (v : EventVersion) (format : SerializationFormat)
    : st S SerializationErrorKind unit :=
  match v with
  | V2 => st_map_err (λ _, IO Other) (api_write_u8 (SerializationFormat.into_u8 format))
  end.

(** [vec![0; size]], which panics on a size above [isize::MAX], and [read_exact] into it. *)
Definition read_vec (size : Z) : st S SerializationErrorKind bytes :=
  if decide (size ≤ isize_max) then st_map_err IO (api_read_exact size)
  else st_fail CapacityOverflow.

Definition read : st S SerializationErrorKind (option LogEntry) :=
  s ← st_get;
  let offset := api_offset s in
  version ← read_version;
  match version with
  | None => mret None
  | Some version =>
      format_meta ← read_format version;
      meta_size ← read_blob_size version;
      meta ← read_vec meta_size;
      format_data ← read_format version;
      data_size ← read_blob_size version;
      data ← (if decide (0 < data_size)
              then data ← read_vec data_size; mret (Some data)
              else mret None);
      mret (Some {|
        le_header := {| lh_offset := offset;
                        lh_format := {| mf_meta := format_meta; mf_data := format_data |} |};
        le_meta := meta;
        le_data := match data with Some a => LogSome a | None => LogNone end |})
  end.

Definition write (v : EventVersion) (meta : bytes) (data : option bytes) (format : MessageFormat)
    : st S SerializationErrorKind LogHeader :=
  s ← st_get;
  let offset := api_offset s in
  _ ← st_map_err IO (api_write_exact (byte_of_Z <$> LOG_MAGIC));
  _ ← st_map_err IO (api_write_u8 (into_u8 v));
  _ ← write_format v (mf_meta format);
  _ ← write_blob_size v (Z.of_nat (length meta));
  _ ← st_map_err IO (api_write_exact meta);
  _ ← write_format v (mf_data format);
  _ ← (match data with
       | Some data =>
           _ ← write_blob_size v (Z.of_nat (length data));
           st_map_err IO (api_write_exact data)
       | None => write_blob_size v 0
       end);
  mret {| lh_offset := offset; lh_format := format |}.
End ops.
End EventVersion.

(** [crate::LOG_VERSION]. *)
Definition LOG_VERSION : EventVersion := V2.

(** ** The file header *)

Inductive RedoMagic : Type := RedoV2.

Record RedoHeader : Type := { rh_magic : RedoMagic; rh_inner : bytes }.

Module RedoHeader.
(** [b"RED"]. *)
Definition LOG_MAGIC : list Z := [82; 69; 68].

Definition into_u8 (v : RedoMagic) : Z := match v with RedoV2 => 49 end.

Definition try_from_u8 (z : Z) : option RedoMagic :=
  if decide (z = 49) then Some RedoV2 else None.

Definition new (magic : RedoMagic) : RedoHeader := {| rh_magic := magic; rh_inner := [] |}.

Definition inner (h : RedoHeader) : bytes := rh_inner h.

Definition set_inner (h : RedoHeader) (val : bytes) : RedoHeader :=
  {| rh_magic := rh_magic h; rh_inner := val |}.

Section ops.
Context {S : Type} `{LogApi S}.

(** The errors here are [tokio::io::Error]s; [Diverged] again marks the bound of
    the model. *)
Definition read_byte : st S SerializationErrorKind (option Z) :=
  st_try api_read_u8 (λ r,
    match r with
    | Ok a => mret (Some a)
    | Err UnexpectedEof => mret None
    | Err _ => st_fail (IO Other)
    end).

Fixpoint read_loop (fuel n : nat) : st S SerializationErrorKind (option RedoHeader) :=
  match fuel with
  | O => st_fail Diverged
  | Datatypes.S fuel =>
      cur ← read_byte;
      match cur with
      | None => mret None
      | Some cur =>
          match scan_byte LOG_MAGIC try_from_u8 2 n cur with
          | None => st_fail Diverged
          | Some (inl a) =>
              inner_size ← st_map_err IO api_read_u32;
              inner ← st_map_err IO (api_read_exact inner_size);
              mret (Some {| rh_magic := a; rh_inner := inner |})
          | Some (inr n) => read_loop fuel n
          end
      end
  end.

Definition read : st S SerializationErrorKind (option RedoHeader) :=
  s ← st_get;
  read_loop (Datatypes.S (Z.to_nat (api_len s))) 0.

(** [inner.len() as u32]: [api_write_u32] keeps the low 32 bits. *)
Definition write (h : RedoHeader) : st S SerializationErrorKind unit :=
  _ ← st_map_err IO (api_write_exact (byte_of_Z <$> LOG_MAGIC));
  _ ← st_map_err IO (api_write_u8 (into_u8 (rh_magic h)));
  match rh_magic h with
  | RedoV2 =>
      _ ← st_map_err IO (api_write_u32 (Z.of_nat (length (rh_inner h))));
      st_map_err IO (api_write_exact (rh_inner h))
  end.

Definition load (default_header_bytes : bytes) : st S SerializationErrorKind bytes :=
  h ← read;
  match h with
  | Some a => mret (inner a)
  | None =>
      let magic := set_inner (new RedoV2) default_header_bytes in
      _ ← write magic;
      _ ← st_map_err IO api_sync;
      mret default_header_bytes
  end.
End ops.
End RedoHeader.

(** ** Reference descriptions *)

(** What follows the first occurrence of [pat]. *)
Fixpoint after_magic (pat l : bytes) : option bytes :=
  if decide (take (length pat) l = pat) then Some (drop (length pat) l)
  else match l with [] => None | _ :: l => after_magic pat l end.

Definition event_magic : bytes := [x41; x74; x65; x31].
Definition redo_magic : bytes := [x52; x45; x44; x31].

Definition enc_size (val : Z) : bytes :=
  match EventVersion.blob_size_of val with
  | U8 => x01 :: to_be 1 val
  | U16 => x02 :: to_be 2 val
  | U32 => x03 :: to_be 4 val
  | U64 => x04 :: to_be 8 val
  end.

Definition enc_format (f : SerializationFormat) : bytes :=
  to_be 1 (SerializationFormat.into_u8 f).

(** The bytes of one event, after its magic. *)
Definition enc_body (meta : bytes) (data : option bytes) (format : MessageFormat) : bytes :=
  enc_format (mf_meta format) ++ enc_size (Z.of_nat (length meta)) ++ meta
  ++ enc_format (mf_data format) ++ enc_size (Z.of_nat (length (default [] data)))
  ++ default [] data.

Definition enc_event (meta : bytes) (data : option bytes) (format : MessageFormat) : bytes :=
  event_magic ++ enc_body meta data format.

Definition enc_header (inner : bytes) : bytes :=
  redo_magic ++ to_be 4 (Z.of_nat (length inner)) ++ inner.

(** What a reader makes of the data it finds: an empty blob is no data. *)
Definition read_data (data : option bytes) : LogData :=
  match data with Some (b :: bs) => LogSome (b :: bs) | _ => LogNone end.

(** The length of a slice is at most [isize::MAX]. *)
Definition blob_ok (bs : bytes) : Prop := Z.of_nat (length bs) < isize_max + 1.

(** ** Reading and writing, composed *)

Section parses.
Context {S : Type} `{LogReader S}.
Context {A B : Type}.

(** [c] consumes exactly [bs] and yields [a]. *)
Definition parses (c : st S SerializationErrorKind A) (bs : bytes) (a : A) : Prop :=
  ∀ s rest, readable s → unread s = bs ++ rest →
  ∃ s', c s = (Ok a, s') ∧ unread s' = rest
        ∧ api_offset s' = api_offset s + Z.of_nat (length bs) ∧ api_len s' = api_len s.

(** [c] fails at the end of the file when only a proper prefix of [bs] is left. *)
Definition starves (c : st S SerializationErrorKind A) (bs : bytes) : Prop :=
  ∀ s p q, readable s → bs = p ++ q → q ≠ [] → unread s = p →
  ∃ s', c s = (Err (IO UnexpectedEof), s') ∧ unread s' = [] ∧ api_len s' = api_len s.
End parses.

Section writes.
Context {S : Type} `{LogWriter S}.
Context {A B : Type}.

(** [c] appends exactly [bs] and yields [a]. *)
Definition appends (c : st S SerializationErrorKind A) (bs : bytes) (a : A) : Prop :=
  ∀ s, at_end s → ∃ s', c s = (Ok a, s') ∧ at_end s' ∧ stored s' = stored s ++ bs.
End writes.

Section parses_lemmas.
Context {S : Type} `{LogReader S}.

Lemma readable_suffix (s s' : S) bs rest :
  readable s → unread s = bs ++ rest → unread s' = rest → api_len s' = api_len s → readable s'.
Proof. unfold readable. intros Hr Hs -> ->. rewrite Hs in Hr. len. Qed.

Lemma parses_ret {A} (a : A) : parses (S := S) (mret a) [] a.
Proof. intros s rest _ Hs. exists s. repeat split; try done. simpl. lia. Qed.

Lemma parses_bind {A B} (c : st S SerializationErrorKind A) (k : A → st S _ B) bs bs' a b :
  parses c bs a → parses (k a) bs' b → parses (c ≫= k) (bs ++ bs') b.
Proof.
  intros Hc Hk s rest Hr Hs. rewrite <- app_assoc in Hs.
  destruct (Hc s _ Hr Hs) as (s1 & E1 & U1 & O1 & L1).
  destruct (Hk s1 rest) as (s2 & E2 & U2 & O2 & L2); [by eapply readable_suffix|done|].
  exists s2. rewrite (st_bind_Ok _ _ _ _ _ E1).
  repeat split; try done; [len|congruence].
Qed.

Lemma starves_bind {A B} (c : st S SerializationErrorKind A) (k : A → st S _ B) bs bs' a :
  parses c bs a → starves c bs → starves (k a) bs' → starves (c ≫= k) (bs ++ bs').
Proof.
  intros Hp Hc Hk s p q Hr Hpq Hq Hs.
  destruct (decide (length p < length bs)%nat) as [Hlt|Hge].
  - assert (∃ q', bs = p ++ q' ∧ q' ≠ []) as (q' & -> & Hq').
    { exists (drop (length p) bs). split.
      - apply (f_equal (take (length p))) in Hpq.
        rewrite take_app_length, take_app_le in Hpq by lia.
        by rewrite <- Hpq, take_drop at 1.
      - intros E%(f_equal length). rewrite length_drop in E. simpl in E. lia. }
    destruct (Hc s p q' Hr eq_refl Hq' Hs) as (s' & E & U & L).
    exists s'. by rewrite (st_bind_Err _ _ _ _ _ E).
  - assert (∃ p', p = bs ++ p' ∧ bs' = p' ++ q) as (p' & -> & ->).
    { exists (drop (length bs) p). split.
      - apply (f_equal (take (length bs))) in Hpq.
        rewrite take_app_length, take_app_le in Hpq by lia.
        by rewrite Hpq, take_drop at 1.
      - apply (f_equal (drop (length bs))) in Hpq.
        by rewrite drop_app_length, drop_app_le in Hpq by lia. }
    destruct (Hp s p' Hr Hs) as (s1 & E1 & U1 & O1 & L1).
    destruct (Hk s1 p' q) as (s2 & E2 & U2 & L2); try done; [by eapply readable_suffix|].
    exists s2. rewrite (st_bind_Ok _ _ _ _ _ E1). by rewrite L2.
Qed.

Lemma parses_then_ret {A B} (c : st S SerializationErrorKind A) (f : A → B) bs a :
  parses c bs a → parses (x ← c; mret (f x)) bs (f a).
Proof.
  intros Hc. rewrite <- (app_nil_r bs). eapply parses_bind; [done|apply parses_ret].
Qed.

Lemma starves_then {A B} (c : st S SerializationErrorKind A) (k : A → st S _ B) bs :
  starves c bs → starves (c ≫= k) bs.
Proof.
  intros Hc s p q Hr Hpq Hq Hs. destruct (Hc s p q Hr Hpq Hq Hs) as (s' & E & U & L).
  exists s'. by rewrite (st_bind_Err _ _ _ _ _ E).
Qed.

Lemma starves_nil {A} (c : st S SerializationErrorKind A) : starves c [].
Proof. by intros s [|] [|] _ ? ? _. Qed.

Lemma parses_read_exact n bs :
  Z.of_nat (length bs) = n → parses (S := S) (st_map_err IO (api_read_exact n)) bs bs.
Proof.
  intros Hn s rest _ Hs.
  destruct (read_exact_ok s n bs rest Hs Hn) as (s' & E & U & O & L).
  exists s'. rewrite (st_map_err_run _ _ _ _ _ E). repeat split; try done. lia.
Qed.

Lemma starves_read_exact n bs :
  Z.of_nat (length bs) = n → starves (S := S) (st_map_err IO (api_read_exact n)) bs.
Proof.
  intros Hn s p q _ -> Hq Hs.
  destruct (read_exact_eof s n) as (s' & E & U & L).
  { rewrite Hs, <- Hn, length_app. destruct q; [done|simpl; lia]. }
  exists s'. by rewrite (st_map_err_run _ _ _ _ _ E).
Qed.

(** The integer reads, through their big-endian equation. *)
Lemma parses_uint (rd : st S IoErrorKind Z) w bs :
  (∀ s, rd s = (bs ← api_read_exact (Z.of_nat w); mret (from_be bs)) s) →
  length bs = w → parses (st_map_err IO rd) bs (from_be bs).
Proof.
  intros Hrd Hw s rest _ Hs.
  destruct (read_exact_ok s (Z.of_nat w) bs rest Hs) as (s' & E & U & O & L); [lia|].
  exists s'. rewrite (st_map_err_run _ _ s s' (Ok (from_be bs))).
  - repeat split; try done. lia.
  - by rewrite Hrd, (st_bind_Ok _ _ _ _ _ E).
Qed.

Lemma starves_uint (rd : st S IoErrorKind Z) w bs :
  (∀ s, rd s = (bs ← api_read_exact (Z.of_nat w); mret (from_be bs)) s) →
  length bs = w → starves (st_map_err IO rd) bs.
Proof.
  intros Hrd Hw s p q _ -> Hq Hs.
  destruct (read_exact_eof s (Z.of_nat w)) as (s' & E & U & L).
  { rewrite Hs, <- Hw, length_app. destruct q; [done|simpl; lia]. }
  exists s'. rewrite (st_map_err_run _ _ s s' (Err UnexpectedEof)); [done|].
  by rewrite Hrd, (st_bind_Err _ _ _ _ _ E).
Qed.
End parses_lemmas.

Section appends_lemmas.
Context {S : Type} `{LogWriter S}.

Lemma appends_ret {A} (a : A) : appends (S := S) (mret a) [] a.
Proof. intros s Hs. exists s. by rewrite app_nil_r. Qed.

Lemma appends_bind {A B} (c : st S SerializationErrorKind A) (k : A → st S _ B) bs bs' a b :
  appends c bs a → appends (k a) bs' b → appends (c ≫= k) (bs ++ bs') b.
Proof.
  intros Hc Hk s Hs. destruct (Hc s Hs) as (s1 & E1 & A1 & S1).
  destruct (Hk s1 A1) as (s2 & E2 & A2 & S2).
  exists s2. rewrite (st_bind_Ok _ _ _ _ _ E1), S2, S1, app_assoc. done.
Qed.

Lemma appends_write (wr : st S IoErrorKind unit) f bs :
  (∀ s, wr s = api_write_exact bs s) → appends (st_map_err f wr) bs ().
Proof.
  intros Hw s Hs. destruct (write_exact_ok s bs Hs) as (s' & E & A & St).
  exists s'. rewrite (st_map_err_run _ _ s s' (Ok ())); [done|]. by rewrite Hw.
Qed.
End appends_lemmas.

#[export] Hint Resolve parses_ret parses_bind starves_nil appends_ret appends_bind : ate.

(** ** The scan finds the first magic *)

Lemma Z_of_byte_inj a b : Z_of_byte a = Z_of_byte b → a = b.
Proof. intros E%(f_equal byte_of_Z). by rewrite !byte_of_Z_of_byte in E. Qed.

Section scan.
Context {V : Type} (b0 b1 b2 bv : byte) (try_from : Z → option V) (v : V).
Context (Hv : ∀ z, try_from z = if decide (z = Z_of_byte bv) then Some v else None).
Context (H01 : b0 ≠ b1) (H02 : b0 ≠ b2) (H0v : b0 ≠ bv).
Let magic : list Z := [Z_of_byte b0; Z_of_byte b1; Z_of_byte b2].
Let pat : bytes := [b0; b1; b2; bv].

Lemma after_magic_skip x l : x ≠ b0 → after_magic pat (x :: l) = after_magic pat l.
Proof. intros Hx. simpl. rewrite decide_False; [done|]. intros [=]. congruence. Qed.

(** Dropping a partial match that the next byte breaks loses nothing, as the magic's
    first byte does not come again inside it. *)
Lemma after_magic_broken n x l :
  (n ≤ 3)%nat → pat !! n ≠ Some x →
  after_magic pat (take n pat ++ x :: l) = after_magic pat (x :: l).
Proof.
  intros Hn Hx.
  assert (∀ y l, y ≠ b0 → after_magic pat (y :: l) = after_magic pat l) as Hskip
    by (intros; by apply after_magic_skip).
  assert (∀ l, take 4 (b0 :: l) ≠ pat → after_magic pat (b0 :: l) = after_magic pat l) as Hb.
  { intros l' Hl. simpl. rewrite decide_False; [done|]. apply Hl. }
  destruct n as [|[|[|[|n]]]]; [..|lia]; cbn [take app pat] in *; simpl in Hx; [done|..];
    (rewrite Hb; [|intros [=]; congruence]);
    repeat (rewrite Hskip by congruence); done.
Qed.

Lemma scan_byte_total n b :
  (n ≤ 3)%nat →
  (scan_byte magic try_from 2 n (Z_of_byte b) = Some (inl v) ∧ n = 3%nat ∧ b = bv)
  ∨ (∃ n', scan_byte magic try_from 2 n (Z_of_byte b) = Some (inr n') ∧ (n' ≤ 3)%nat
       ∧ ∀ l, after_magic pat (take n pat ++ b :: l) = after_magic pat (take n' pat ++ l)).
Proof.
  intros Hn.
  destruct (decide (pat !! n = Some b)) as [Hm|Hm].
  - destruct n as [|[|[|[|n]]]]; [..|lia]; simpl in Hm; injection Hm as <-.
    1-3: right; eexists; split; [simpl; rewrite decide_True by done; reflexivity|];
      split; [lia|done].
    left. simpl. by rewrite Hv, decide_True.
  - right.
    assert (scan_byte magic try_from 2 n (Z_of_byte b)
      = Some (inr (if decide (b = b0) then 1 else 0)%nat)) as Hscan.
    { destruct n as [|[|[|[|n]]]]; [..|lia]; simpl in *;
        rewrite ?Hv, decide_False by (intros ?%Z_of_byte_inj; congruence); simpl;
        destruct (decide (b = b0)) as [->|]; try congruence;
        rewrite ?(decide_True _ _ (eq_refl (Z_of_byte b0))) by done;
        repeat (rewrite decide_False by (try intros ?%Z_of_byte_inj; (congruence || lia)));
        try (rewrite decide_True by done); done. }
    rewrite Hscan. eexists. split; [done|]. split; [case_decide; lia|].
    intros l. rewrite after_magic_broken by done.
    destruct (decide (b = b0)) as [->|]; [done|by apply after_magic_skip].
Qed.
End scan.

Section read_version.
Context {S : Type} `{LogReader S}.

Lemma event_scan n b : (n ≤ 3)%nat →
  (scan_byte EventVersion.LOG_MAGIC EventVersion.try_from_u8 2 n (Z_of_byte b) = Some (inl V2)
   ∧ n = 3%nat ∧ b = x31)
  ∨ (∃ n', scan_byte EventVersion.LOG_MAGIC EventVersion.try_from_u8 2 n (Z_of_byte b)
             = Some (inr n') ∧ (n' ≤ 3)%nat
       ∧ ∀ l, after_magic event_magic (take n event_magic ++ b :: l)
              = after_magic event_magic (take n' event_magic ++ l)).
Proof. by apply (scan_byte_total x41 x74 x65 x31). Qed.

Lemma redo_scan n b : (n ≤ 3)%nat →
  (scan_byte RedoHeader.LOG_MAGIC RedoHeader.try_from_u8 2 n (Z_of_byte b) = Some (inl RedoV2)
   ∧ n = 3%nat ∧ b = x31)
  ∨ (∃ n', scan_byte RedoHeader.LOG_MAGIC RedoHeader.try_from_u8 2 n (Z_of_byte b)
             = Some (inr n') ∧ (n' ≤ 3)%nat
       ∧ ∀ l, after_magic redo_magic (take n redo_magic ++ b :: l)
              = after_magic redo_magic (take n' redo_magic ++ l)).
Proof. by apply (scan_byte_total x52 x45 x44 x31). Qed.

Lemma read_byte_cons s b u : unread s = b :: u →
  ∃ s', EventVersion.read_byte s = (Ok (Some (Z_of_byte b)), s') ∧ unread s' = u
        ∧ api_offset s' = api_offset s + 1 ∧ api_len s' = api_len s.
Proof.
  intros Hs. destruct (read_u8_cons s b u Hs) as (s' & E & U & O & L).
  exists s'. unfold EventVersion.read_byte, st_try. by rewrite E.
Qed.

Lemma read_byte_nil s : unread s = [] →
  ∃ s', EventVersion.read_byte s = (Ok None, s') ∧ unread s' = [] ∧ api_len s' = api_len s.
Proof.
  intros Hs. destruct (read_u8_nil s Hs) as (s' & E & U & L).
  exists s'. unfold EventVersion.read_byte, st_try. by rewrite E.
Qed.

Lemma after_magic_partial pat n :
  (n < length pat)%nat → after_magic pat (take n pat) = None.
Proof.
  intros Hn. assert (∀ l : bytes, (length l < length pat)%nat → after_magic pat l = None) as Hs.
  { induction l as [|x l IH]; intros Hl; cbn [after_magic];
      (rewrite decide_False by (intros E%(f_equal length); rewrite length_take in E;
         simpl in *; lia)); [done|]. apply IH. simpl in Hl. lia. }
  apply Hs. rewrite length_take. lia.
Qed.

Lemma read_version_loop_spec u : ∀ fuel n s,
  (n ≤ 3)%nat → unread s = u → (length u < fuel)%nat →
  match after_magic event_magic (take n event_magic ++ u) with
  | Some rest => ∃ s', EventVersion.read_version_loop fuel n s = (Ok (Some V2), s')
      ∧ unread s' = rest ∧ api_len s' = api_len s
      ∧ api_offset s' = api_offset s + Z.of_nat (length u) - Z.of_nat (length rest)
  | None => ∃ s', EventVersion.read_version_loop fuel n s = (Ok None, s')
      ∧ unread s' = [] ∧ api_len s' = api_len s
  end.
Proof.
  induction u as [|b u IH]; intros [|fuel] n s Hn Hs Hf; simpl in Hf; try lia.
  - rewrite app_nil_r, after_magic_partial by (simpl; lia).
    destruct (read_byte_nil s Hs) as (s' & E & U & L).
    exists s'. cbn [EventVersion.read_version_loop]. by rewrite (st_bind_Ok _ _ _ _ _ E).
  - destruct (read_byte_cons s b u Hs) as (s1 & E1 & U1 & O1 & L1).
    cbn [EventVersion.read_version_loop]. rewrite (st_bind_Ok _ _ _ _ _ E1).
    destruct (event_scan n b Hn) as [(-> & -> & ->)|(n' & -> & Hn' & Hafter)].
    + change (after_magic event_magic (take 3 event_magic ++ x31 :: u)) with (Some u).
      exists s1. repeat split; try done. rewrite O1. simpl. lia.
    + rewrite Hafter. specialize (IH fuel n' s1 Hn' U1 ltac:(lia)).
      case_match.
      * destruct IH as (s2 & E2 & U2 & L2 & O2). exists s2. repeat split; try done; try congruence.
        rewrite O2, O1. simpl. lia.
      * destruct IH as (s2 & E2 & U2 & L2). exists s2. repeat split; try done; congruence.
Qed.

(** [read_version] from any readable state, to be used by the clients below. *)
Lemma read_version_run s (Hr : readable s) :
  match after_magic event_magic (unread s) with
  | Some rest => ∃ s', EventVersion.read_version s = (Ok (Some V2), s')
      ∧ unread s' = rest ∧ api_len s' = api_len s
      ∧ api_offset s' = api_offset s + Z.of_nat (length (unread s)) - Z.of_nat (length rest)
  | None => ∃ s', EventVersion.read_version s = (Ok None, s')
      ∧ unread s' = [] ∧ api_len s' = api_len s
  end.
Proof.
  unfold EventVersion.read_version. rewrite (st_bind_Ok st_get _ s s s) by done.
  apply (read_version_loop_spec (unread s) (Datatypes.S (Z.to_nat (api_len s))) 0 s); [lia|done|].
  unfold readable in Hr. lia.
Qed.

Lemma parses_read_version : parses EventVersion.read_version event_magic (Some V2).
Proof.
  intros s rest Hr Hs. pose proof (read_version_run s Hr) as Hv. rewrite Hs in Hv.
  change (after_magic event_magic (event_magic ++ rest)) with (Some rest) in Hv.
  destruct Hv as (s' & E & U & L & O). exists s'. repeat split; try done.
  rewrite O, length_app. lia.
Qed.
End read_version.

Section event_format.
Context {S : Type} `{LogReader S}.

Lemma parses_tag b : parses (S := S) (st_map_err IO api_read_u8) [b] (Z_of_byte b).
Proof. apply (parses_uint _ 1 [b] read_u8_exact eq_refl). Qed.

Lemma starves_tag b : starves (S := S) (st_map_err IO api_read_u8) [b].
Proof. by apply (starves_uint _ 1 [b] read_u8_exact). Qed.

Lemma parses_read_format v f : parses (S := S) (EventVersion.read_format v) (enc_format f) f.
Proof.
  rewrite <- (app_nil_r (enc_format f)).
  destruct f; (eapply parses_bind; [apply parses_tag|apply parses_ret]).
Qed.

Lemma starves_read_format v f : starves (S := S) (EventVersion.read_format v) (enc_format f).
Proof. destruct f; apply starves_then, starves_tag. Qed.

Lemma read_blob_size_enc val : 0 ≤ val < u64_max →
  parses (S := S) (EventVersion.read_blob_size V2) (enc_size val) val
  ∧ starves (S := S) (EventVersion.read_blob_size V2) (enc_size val).
Proof.
  unfold enc_size, EventVersion.blob_size_of, u8_max, u16_max, u32_max, u64_max.
  intros Hval. repeat case_decide; try lia;
    match goal with |- context [?t :: to_be ?w val] => change (t :: to_be w val) with ([t] ++ to_be w val) end;
    (split; [eapply parses_bind; [apply parses_tag|]
            |eapply starves_bind; [apply parses_tag|apply starves_tag|]]);
    lazymatch goal with
    | |- parses _ (to_be ?w val) _ =>
        pose proof (from_be_to_be w val ltac:(simpl; lia)) as E; rewrite <- E at 2; clear E
    | _ => idtac
    end;
    first
    [ exact (parses_uint api_read_u8 1 _ read_u8_exact (to_be_length _ _))
    | exact (parses_uint api_read_u16 2 _ read_u16_exact (to_be_length _ _))
    | exact (parses_uint api_read_u32 4 _ read_u32_exact (to_be_length _ _))
    | exact (parses_uint api_read_u64 8 _ read_u64_exact (to_be_length _ _))
    | exact (starves_uint api_read_u8 1 _ read_u8_exact (to_be_length _ _))
    | exact (starves_uint api_read_u16 2 _ read_u16_exact (to_be_length _ _))
    | exact (starves_uint api_read_u32 4 _ read_u32_exact (to_be_length _ _))
    | exact (starves_uint api_read_u64 8 _ read_u64_exact (to_be_length _ _)) ].
Qed.

(** The entry a reader that stood at [offset] makes of an event. *)
Definition entry_of (offset : Z) (meta : bytes) (data : option bytes) (format : MessageFormat)
    : LogEntry :=
  {| le_header := {| lh_offset := offset; lh_format := format |};
     le_meta := meta; le_data := read_data data |}.

(** [read] after its scan. *)
Definition read_body (offset : Z) (version : EventVersion)
    : st S SerializationErrorKind (option LogEntry) :=
  format_meta ← EventVersion.read_format version;
  meta_size ← EventVersion.read_blob_size version;
  meta ← EventVersion.read_vec meta_size;
  format_data ← EventVersion.read_format version;
  data_size ← EventVersion.read_blob_size version;
  data ← (if decide (0 < data_size)
          then data ← EventVersion.read_vec data_size; mret (Some data)
          else mret None);
  mret (Some {|
    le_header := {| lh_offset := offset;
                    lh_format := {| mf_meta := format_meta; mf_data := format_data |} |};
    le_meta := meta;
    le_data := match data with Some a => LogSome a | None => LogNone end |}).

Lemma read_unfold s :
  EventVersion.read s
  = (version ← EventVersion.read_version;
     match version with None => mret None | Some v => read_body (api_offset s) v end) s.
Proof. reflexivity. Qed.

Lemma blob_size_ok bs : blob_ok bs → 0 ≤ Z.of_nat (length bs) < u64_max.
Proof. unfold blob_ok, isize_max, u64_max. lia. Qed.

Lemma read_vec_enc bs : blob_ok bs →
  parses (S := S) (EventVersion.read_vec (Z.of_nat (length bs))) bs bs
  ∧ starves (S := S) (EventVersion.read_vec (Z.of_nat (length bs))) bs.
Proof.
  intros Hb. unfold EventVersion.read_vec. rewrite decide_True by (unfold blob_ok in Hb; lia).
  split; [by apply parses_read_exact|by apply starves_read_exact].
Qed.

Lemma read_body_enc offset meta data format :
  blob_ok meta → blob_ok (default [] data) →
  parses (S := S) (read_body offset V2) (enc_body meta data format)
    (Some (entry_of offset meta data format))
  ∧ starves (S := S) (read_body offset V2) (enc_body meta data format).
Proof.
  intros Hm Hd. destruct format as [fm fd]. unfold enc_body, read_body, entry_of.
  destruct (read_blob_size_enc _ (blob_size_ok _ Hm)) as [Pm Sm].
  destruct (read_blob_size_enc _ (blob_size_ok _ Hd)) as [Pd Sd].
  set (bd := default [] data) in *.
  assert (∃ d, match d with Some a => LogSome a | None => LogNone end = read_data data
    ∧ parses (S := S) (if decide (0 < Z.of_nat (length bd))
              then data ← EventVersion.read_vec (Z.of_nat (length bd)); mret (Some data)
              else mret None) bd d
    ∧ starves (S := S) (if decide (0 < Z.of_nat (length bd))
              then data ← EventVersion.read_vec (Z.of_nat (length bd)); mret (Some data)
              else mret None) bd) as (d & Hdata & Pb & Sb).
  { exists (match bd with [] => None | _ => Some bd end).
    split; [unfold bd; by destruct data as [[|]|]|].
    case_decide as Hlen.
    - destruct bd as [|b bd]; [simpl in Hlen; lia|].
      split; [by apply (parses_then_ret _ Some), read_vec_enc|].
      by apply starves_then, read_vec_enc.
    - destruct bd as [|b bd]; [|simpl in Hlen; lia].
      split; [apply parses_ret|apply starves_nil]. }
  rewrite <- Hdata. split.
  - repeat (eapply parses_bind; [first [apply parses_read_format|exact Pm|exact Pd
      |by apply read_vec_enc]|]). by apply (parses_then_ret _ (λ data, Some _)).
  - repeat (eapply starves_bind; [first [apply parses_read_format|exact Pm|exact Pd
      |by apply read_vec_enc]|first [apply starves_read_format|exact Sm|exact Sd
      |by apply read_vec_enc]|]). by apply starves_then.
Qed.
End event_format.

Section write_lemmas.
Context {S : Type} `{LogWriter S}.

Lemma appends_write_format v f :
  appends (S := S) (EventVersion.write_format v f) (enc_format f) ().
Proof. destruct v. apply appends_write. intros s. apply write_u8_exact. Qed.

Lemma appends_write_blob_size v val :
  appends (S := S) (EventVersion.write_blob_size v val) (enc_size val) ().
Proof.
  destruct v. unfold EventVersion.write_blob_size, enc_size.
  destruct (EventVersion.blob_size_of val);
    match goal with |- context [?t :: to_be ?w val] => change (t :: to_be w val) with ([t] ++ to_be w val) end;
    (eapply appends_bind; apply appends_write; intros s;
     first [apply write_u8_exact|apply write_u16_exact|apply write_u32_exact|apply write_u64_exact]).
Qed.

Lemma write_event s meta data format : at_end s →
  ∃ s', EventVersion.write V2 meta data format s
        = (Ok {| lh_offset := Z.of_nat (length (stored s)); lh_format := format |}, s')
      ∧ at_end s' ∧ stored s' = stored s ++ enc_event meta data format.
Proof.
  intros Hs. unfold EventVersion.write. rewrite (st_bind_Ok st_get _ s s s) by done. cbv zeta.
  rewrite (at_end_offset s Hs). revert s Hs.
  assert (∀ (h : LogHeader), appends (S := S)
    (_ ← st_map_err IO (api_write_exact (byte_of_Z <$> EventVersion.LOG_MAGIC));
     _ ← st_map_err IO (api_write_u8 (EventVersion.into_u8 V2));
     _ ← EventVersion.write_format V2 (mf_meta format);
     _ ← EventVersion.write_blob_size V2 (Z.of_nat (length meta));
     _ ← st_map_err IO (api_write_exact meta);
     _ ← EventVersion.write_format V2 (mf_data format);
     _ ← (match data with
          | Some data =>
              _ ← EventVersion.write_blob_size V2 (Z.of_nat (length data));
              st_map_err IO (api_write_exact data)
          | None => EventVersion.write_blob_size V2 0
          end);
     mret h) (enc_event meta data format) h) as Happ; [|intros s Hs; apply (Happ _ s Hs)].
  intros h. change (enc_event meta data format)
    with ([x41; x74; x65] ++ [x31] ++ enc_body meta data format).
  unfold enc_body. rewrite <- (app_nil_r (default [] data)) at 2.
  rewrite (app_assoc (enc_size _) (default [] data)).
  eapply appends_bind; [apply appends_write; reflexivity|].
  eapply appends_bind; [apply appends_write; intros s; apply write_u8_exact|].
  eapply appends_bind; [apply appends_write_format|].
  eapply appends_bind; [apply appends_write_blob_size|].
  eapply appends_bind; [apply appends_write; reflexivity|].
  eapply appends_bind; [apply appends_write_format|].
  eapply appends_bind; [|apply appends_ret].
  destruct data as [d|].
  - eapply appends_bind; [apply appends_write_blob_size|apply appends_write; reflexivity].
  - rewrite app_nil_r. apply appends_write_blob_size.
Qed.

Lemma write_header s inner : at_end s →
  ∃ s', RedoHeader.write {| rh_magic := RedoV2; rh_inner := inner |} s = (Ok (), s')
      ∧ at_end s' ∧ stored s' = stored s ++ enc_header inner.
Proof.
  revert s. change (enc_header inner)
    with ([x52; x45; x44] ++ [x31] ++ to_be 4 (Z.of_nat (length inner)) ++ inner).
  eapply appends_bind; [apply appends_write; reflexivity|].
  eapply appends_bind; [apply appends_write; intros s; apply write_u8_exact|].
  eapply appends_bind; [apply appends_write; intros s; apply write_u32_exact|].
  apply appends_write. reflexivity.
Qed.
End write_lemmas.

(** ** What any read does *)

Section consumes.
Context {S : Type} `{LogReader S}.

(** [c] consumes a prefix of what is unread, leaves the file alone, ends within the
    bound of its loops, and its result satisfies [P]. *)
Definition consumes {A} (c : st S SerializationErrorKind A) (P : A → Prop) : Prop :=
  ∀ s, readable s → ∃ p, unread s = p ++ unread (c s).2 ∧ api_len (c s).2 = api_len s
    ∧ match (c s).1 with Ok a => P a | Err e => e ≠ Diverged end.

Lemma consumes_ret {A} (a : A) (P : A → Prop) : P a → consumes (mret a) P.
Proof. intros HP s _. by exists []. Qed.

Lemma consumes_fail {A} e (P : A → Prop) : e ≠ Diverged → consumes (st_fail e) P.
Proof. intros HP s _. by exists []. Qed.

Lemma consumes_bind {A B} (c : st S SerializationErrorKind A) (k : A → st S _ B) P Q :
  consumes c P → (∀ a, P a → consumes (k a) Q) → consumes (c ≫= k) Q.
Proof.
  intros Hc Hk s Hr. destruct (Hc s Hr) as (p & U & L & R).
  unfold mbind, st_bind. destruct (c s) as [[a|e] s1]; simpl in *; [|by exists p].
  destruct (Hk a R s1) as (p' & U' & L' & R').
  { by eapply readable_suffix. }
  exists (p ++ p'). rewrite U, U', app_assoc, L'. done.
Qed.

Lemma consumes_read_exact n : 0 ≤ n → consumes (st_map_err IO (api_read_exact n)) (λ _, True).
Proof.
  intros Hn s _. unfold st_map_err.
  destruct (read_exact_total s n Hn) as [(s' & bs & -> & U & _ & _ & L)|(s' & -> & U & _ & L)]; simpl.
  - by exists bs.
  - exists (unread s). by rewrite U, app_nil_r.
Qed.

Lemma consumes_uint (rd : st S IoErrorKind Z) w :
  (∀ s, rd s = (bs ← api_read_exact (Z.of_nat w); mret (from_be bs)) s) →
  consumes (st_map_err IO rd) (λ z, 0 ≤ z).
Proof.
  intros Hrd s _. unfold st_map_err. rewrite Hrd. unfold mbind, st_bind.
  destruct (read_exact_total s (Z.of_nat w)) as [(s' & bs & -> & U & _ & _ & L)|(s' & -> & U & _ & L)];
    [lia|..]; simpl.
  - exists bs. split; [done|]. split; [done|apply from_be_nonneg].
  - exists (unread s). by rewrite U, app_nil_r.
Qed.

Lemma consumes_read_vec n : 0 ≤ n → consumes (EventVersion.read_vec n) (λ _, True).
Proof.
  intros Hn. unfold EventVersion.read_vec. case_decide; [by apply consumes_read_exact|by apply consumes_fail].
Qed.

Lemma consumes_read_format v : consumes (EventVersion.read_format v) (λ _, True).
Proof.
  eapply consumes_bind; [apply (consumes_uint _ 1), read_u8_exact|].
  intros b _. destruct (SerializationFormat.try_from_u8 b); [by apply consumes_ret|].
  by apply consumes_fail.
Qed.

Lemma consumes_read_blob_size v : consumes (EventVersion.read_blob_size v) (λ z, 0 ≤ z).
Proof.
  destruct v. eapply consumes_bind; [apply (consumes_uint _ 1), read_u8_exact|].
  intros b _. destruct (BlobSize.try_from_u8 b) as [[]|]; [..|by apply consumes_fail].
  - apply (consumes_uint _ 1), read_u8_exact.
  - apply (consumes_uint _ 2), read_u16_exact.
  - apply (consumes_uint _ 4), read_u32_exact.
  - apply (consumes_uint _ 8), read_u64_exact.
Qed.

Lemma consumes_read_body offset v : consumes (read_body offset v) is_Some.
Proof.
  eapply consumes_bind; [apply consumes_read_format|intros fm _].
  eapply consumes_bind; [apply consumes_read_blob_size|intros ms Hms].
  eapply consumes_bind; [by apply consumes_read_vec|intros meta _].
  eapply consumes_bind; [apply consumes_read_format|intros fd _].
  eapply consumes_bind; [apply consumes_read_blob_size|intros ds Hds].
  eapply (consumes_bind _ _ (λ _, True)); [|intros d _; by apply consumes_ret].
  case_decide; [|by apply consumes_ret].
  eapply consumes_bind; [by apply consumes_read_vec|intros d _; by apply consumes_ret].
Qed.

(** A length that no [Vec] can have. *)
Definition oversized (bs : bytes) : Prop :=
  ∃ pre size rest, bs = pre ++ x04 :: size ++ rest ∧ length size = 8%nat ∧ isize_max < from_be size.

Lemma oversized_app p bs : oversized bs → oversized (p ++ bs).
Proof.
  intros (pre & size & rest & -> & Hs). exists (p ++ pre), size, rest. by rewrite <- app_assoc.
Qed.

Lemma uint_inv (rd : st S IoErrorKind Z) w r s s' :
  (∀ s, rd s = (bs ← api_read_exact (Z.of_nat w); mret (from_be bs)) s) →
  st_map_err IO rd s = (r, s') →
  match r with
  | Ok z => ∃ bs, unread s = bs ++ unread s' ∧ length bs = w ∧ z = from_be bs
  | Err e => e ≠ CapacityOverflow
  end.
Proof.
  intros Hrd. unfold st_map_err. rewrite Hrd. unfold mbind, st_bind.
  destruct (read_exact_total s (Z.of_nat w)) as [(s1 & bs & -> & U & Hl & _)|(s1 & -> & _)]; [lia|..];
    intros [= <- <-]; [|done]. exists bs. split; [done|]. split; [lia|done].
Qed.

Lemma read_format_inv v r s s' : EventVersion.read_format v s = (r, s') → r ≠ Err CapacityOverflow.
Proof.
  unfold EventVersion.read_format, mbind, st_bind.
  destruct (st_map_err IO api_read_u8 s) as [r1 s1] eqn:E. apply (uint_inv _ 1) in E; [|apply read_u8_exact].
  destruct r1; [|by intros [= <- _] [= ->]]. by case_match; intros [= <- _].
Qed.

Lemma read_blob_size_inv r s s' : EventVersion.read_blob_size V2 s = (r, s') →
  match r with
  | Ok z => isize_max < z → oversized (unread s)
  | Err e => e ≠ CapacityOverflow
  end.
Proof.
  unfold EventVersion.read_blob_size, mbind, st_bind.
  destruct (st_map_err IO api_read_u8 s) as [r1 s1] eqn:E. apply (uint_inv _ 1) in E; [|apply read_u8_exact].
  destruct r1 as [tag|e]; [|by intros [= <- _]]. destruct E as (t & Hu & Ht & ->).
  destruct t as [|b []]; [done| |done]. rewrite Hu.
  assert (from_be [b] = Z_of_byte b) as -> by done.
  destruct (BlobSize.try_from_u8 (Z_of_byte b)) as [sz|] eqn:Hb; [|by intros [= <- _]].
  assert (∀ w rd, (∀ s, rd s = (bs ← api_read_exact (Z.of_nat w); mret (from_be bs)) s) →
    st_map_err IO rd s1 = (r, s') → (w < 8 ∨ w = 8 ∧ sz = U64)%nat →
    match r with Ok z => isize_max < z → oversized ([b] ++ unread s1) | Err e => e ≠ CapacityOverflow end) as Hrd.
  { intros w rd Hx E Hw. apply (uint_inv _ w) in E; [|done]. destruct r as [z|e]; [|done].
    destruct E as (bs & -> & Hl & ->). intros Hbig. destruct Hw as [Hw|[-> ->]].
    - pose proof (from_be_bound bs) as Hbd. rewrite Hl in Hbd. unfold isize_max in Hbig. exfalso.
      assert (256 ^ Z.of_nat w ≤ 256 ^ 7) by (apply Z.pow_le_mono_r; lia). lia.
    - exists [], bs, (unread s'). split; [|done]. cbn. f_equal.
      unfold BlobSize.try_from_u8 in Hb. repeat case_decide; try done.
      match goal with Hz : Z_of_byte b = 4 |- _ => by rewrite <- (byte_of_Z_of_byte b), Hz end. }
  destruct sz; intros E.
  - eapply (Hrd 1%nat); [apply read_u8_exact|exact E|lia].
  - eapply (Hrd 2%nat); [apply read_u16_exact|exact E|lia].
  - eapply (Hrd 4%nat); [apply read_u32_exact|exact E|lia].
  - eapply (Hrd 8%nat); [apply read_u64_exact|exact E|auto].
Qed.

Lemma after_magic_suffix pat l rest : after_magic pat l = Some rest →
  ∃ junk, l = junk ++ pat ++ rest.
Proof.
  assert (∀ l, take (length pat) l = pat → l = [] ++ pat ++ drop (length pat) l) as Hhit.
  { intros l' Hp. pose proof (take_drop (length pat) l') as E. by rewrite Hp in E. }
  revert rest. induction l as [|x l IH]; intros rest; cbn [after_magic];
    (case_decide as Hp; [intros [= <-]; eauto|]); [done|].
  intros Hrest. destruct (IH _ Hrest) as (junk & ->). by exists (x :: junk).
Qed.

Lemma read_body_overflow offset s : readable s →
  (read_body offset V2 s).1 = Err CapacityOverflow → oversized (unread s).
Proof.
  assert (∀ n s r s', EventVersion.read_vec n s = (r, s') → r = Err CapacityOverflow → isize_max < n) as Hvec.
  { intros n s1 r s' E ->. unfold EventVersion.read_vec in E. case_decide; [|lia].
    unfold st_map_err in E. by destruct (api_read_exact n s1) as [[]]. }
  intros Hr. unfold read_body, mbind, st_bind.
  destruct (consumes_read_format V2 s Hr) as (p1 & U1 & L1 & _).
  destruct (EventVersion.read_format V2 s) as [r1 s1] eqn:E1; cbn in U1, L1. apply read_format_inv in E1.
  destruct r1 as [fm|]; [|by intros [= ->]]. assert (readable s1) as Hr1 by by eapply readable_suffix.
  rewrite U1. destruct (consumes_read_blob_size V2 s1 Hr1) as (p2 & U2 & L2 & H2).
  destruct (EventVersion.read_blob_size V2 s1) as [r2 s2] eqn:E2; cbn in U2, L2, H2. apply read_blob_size_inv in E2.
  destruct r2 as [m|]; [|by intros [= ->]]. assert (readable s2) as Hr2 by by eapply readable_suffix.
  destruct (consumes_read_vec m H2 s2 Hr2) as (p3 & U3 & L3 & _).
  destruct (EventVersion.read_vec m s2) as [r3 s3] eqn:E3; cbn in U3, L3.
  destruct r3 as [meta|]; [|cbn; intros [= ->]; apply oversized_app, E2; by eapply Hvec].
  assert (readable s3) as Hr3 by by eapply readable_suffix.
  rewrite U2, U3. destruct (consumes_read_format V2 s3 Hr3) as (p4 & U4 & L4 & _).
  destruct (EventVersion.read_format V2 s3) as [r4 s4] eqn:E4; cbn in U4, L4. apply read_format_inv in E4.
  destruct r4 as [fd|]; [|by intros [= ->]]. rewrite U4.
  destruct (EventVersion.read_blob_size V2 s4) as [r5 s5] eqn:E5. apply read_blob_size_inv in E5.
  destruct r5 as [n|]; [|by intros [= ->]]. cbn. intros Hpanic. do 4 apply oversized_app. apply E5.
  case_decide; [|done]. destruct (EventVersion.read_vec n s5) as [[d|] s6] eqn:E6; [done|].
  injection Hpanic as ->. by eapply Hvec.
Qed.

(** One [read] on any file: it ends, and unless it reports the end of the log it
    consumed at least the magic. *)
Lemma read_progress s : readable s →
  ∃ p, unread s = p ++ unread (EventVersion.read s).2
    ∧ api_len (EventVersion.read s).2 = api_len s
    ∧ match (EventVersion.read s).1 with
      | Ok (Some _) => (4 ≤ length p)%nat
      | Ok None => unread (EventVersion.read s).2 = []
      | Err e => e ≠ Diverged ∧ (4 ≤ length p)%nat ∧ (e = CapacityOverflow → oversized (unread s))
      end.
Proof.
  intros Hr. rewrite read_unfold. pose proof (read_version_run s Hr) as Hv.
  destruct (after_magic event_magic (unread s)) as [rest|] eqn:Hm.
  - destruct Hv as (s1 & E & U & L & _). rewrite (st_bind_Ok _ _ _ _ _ E).
    apply after_magic_suffix in Hm as (junk & Hm).
    assert (readable s1) as Hr1.
    { eapply (readable_suffix s s1 (junk ++ event_magic)); [done| |done|done].
      by rewrite <- app_assoc. }
    destruct (consumes_read_body (api_offset s) V2 s1 Hr1) as (p & U2 & L2 & R).
    pose proof (read_body_overflow (api_offset s) s1 Hr1) as Hover.
    exists (junk ++ event_magic ++ p). rewrite <- !app_assoc, <- U2, U, L2. split; [done|].
    split; [done|]. destruct (read_body _ _ _) as [[[e|]|e] s2]; simpl in *; [|by destruct R|];
      rewrite length_app; simpl; [lia|]. split; [done|]. split; [lia|].
    intros ->. rewrite Hm, <- U. by apply oversized_app, (oversized_app event_magic), Hover.
  - destruct Hv as (s1 & E & U & L). rewrite (st_bind_Ok _ _ _ _ _ E). simpl.
    exists (unread s). by rewrite U, app_nil_r.
Qed.
End consumes.

(** ** Reading a file header *)

Section redo_header.
Context {S : Type} `{LogReader S}.

(** [RedoHeader::read] after its scan. *)
Definition read_inner : st S SerializationErrorKind (option RedoHeader) :=
  inner_size ← st_map_err IO api_read_u32;
  inner ← st_map_err IO (api_read_exact inner_size);
  mret (Some {| rh_magic := RedoV2; rh_inner := inner |}).

Lemma redo_read_loop_spec u : ∀ fuel n s,
  (n ≤ 3)%nat → unread s = u → (length u < fuel)%nat →
  match after_magic redo_magic (take n redo_magic ++ u) with
  | Some rest => ∃ s', RedoHeader.read_loop fuel n s = read_inner s'
      ∧ unread s' = rest ∧ api_len s' = api_len s
      ∧ api_offset s' = api_offset s + Z.of_nat (length u) - Z.of_nat (length rest)
  | None => ∃ s', RedoHeader.read_loop fuel n s = (Ok None, s')
      ∧ unread s' = [] ∧ api_len s' = api_len s
  end.
Proof.
  induction u as [|b u IH]; intros [|fuel] n s Hn Hs Hf; simpl in Hf; try lia.
  - rewrite app_nil_r, after_magic_partial by (simpl; lia).
    destruct (read_byte_nil s Hs) as (s' & E & U & L).
    exists s'. cbn [RedoHeader.read_loop]. by rewrite (st_bind_Ok _ _ _ _ _ E).
  - destruct (read_byte_cons s b u Hs) as (s1 & E1 & U1 & O1 & L1).
    cbn [RedoHeader.read_loop]. rewrite (st_bind_Ok _ _ _ _ _ E1).
    destruct (redo_scan n b Hn) as [(-> & -> & ->)|(n' & -> & Hn' & Hafter)].
    + change (after_magic redo_magic (take 3 redo_magic ++ x31 :: u)) with (Some u).
      exists s1. repeat split; try done. rewrite O1. simpl. lia.
    + rewrite Hafter. specialize (IH fuel n' s1 Hn' U1 ltac:(lia)).
      case_match.
      * destruct IH as (s2 & E2 & U2 & L2 & O2). exists s2. repeat split; try done; try congruence.
        rewrite O2, O1. simpl. lia.
      * destruct IH as (s2 & E2 & U2 & L2). exists s2. repeat split; try done; congruence.
Qed.

Lemma redo_read_run s (Hr : readable s) :
  match after_magic redo_magic (unread s) with
  | Some rest => ∃ s', RedoHeader.read s = read_inner s' ∧ unread s' = rest
      ∧ api_len s' = api_len s
      ∧ api_offset s' = api_offset s + Z.of_nat (length (unread s)) - Z.of_nat (length rest)
  | None => ∃ s', RedoHeader.read s = (Ok None, s') ∧ unread s' = [] ∧ api_len s' = api_len s
  end.
Proof.
  unfold RedoHeader.read. rewrite (st_bind_Ok st_get _ s s s) by done.
  apply (redo_read_loop_spec (unread s) (Datatypes.S (Z.to_nat (api_len s))) 0 s); [lia|done|].
  unfold readable in Hr. lia.
Qed.

(** Reading a header fails with an error of the file only, and takes from its front. *)
Lemma redo_read_total s : readable s →
  ∃ p, unread s = p ++ unread (RedoHeader.read s).2
    ∧ match (RedoHeader.read s).1 with Ok _ => True | Err e => ∃ k, e = IO k end.
Proof.
  intros Hr. pose proof (redo_read_run s Hr) as Hrun.
  destruct (after_magic redo_magic (unread s)) as [rest|] eqn:Em.
  - destruct Hrun as (s1 & -> & U & L & _). apply after_magic_suffix in Em as (junk & Em). rewrite <- U in Em.
    assert (consumes (S := S) read_inner (λ _, True)) as Hc.
    { eapply consumes_bind; [apply (consumes_uint _ 4), read_u32_exact|intros n Hn].
      eapply consumes_bind; [by apply consumes_read_exact|intros inner _; by apply consumes_ret]. }
    destruct (Hc s1) as (p & Hp & _).
    { apply (readable_suffix s s1 (junk ++ redo_magic) (unread s1) Hr); [|done|done]. by rewrite <- app_assoc. }
    exists (junk ++ redo_magic ++ p). rewrite <- !app_assoc, <- Hp. split; [done|].
    unfold read_inner, mbind, st_bind, st_map_err. destruct (api_read_u32 s1) as [[n|e] s2]; [|by eexists].
    cbn. destruct (api_read_exact n s2) as [[inner|e] s3]; cbn; [exact I|by eexists].
  - destruct Hrun as (s1 & -> & U & _). exists (unread s). cbn. by rewrite U, app_nil_r.
Qed.

Lemma parses_read_inner inner : Z.of_nat (length inner) ≤ u32_max →
  parses (S := S) read_inner (to_be 4 (Z.of_nat (length inner)) ++ inner)
    (Some {| rh_magic := RedoV2; rh_inner := inner |}).
Proof.
  unfold u32_max. intros Hlen. eapply parses_bind.
  - apply (parses_uint _ 4 _ read_u32_exact), to_be_length.
  - rewrite from_be_to_be by (simpl; lia).
    by apply (parses_then_ret _ (λ inner, Some _)), parses_read_exact.
Qed.

(** The header is found behind anything that holds no magic. *)
Lemma after_redo_magic_app junk rest : after_magic redo_magic junk = None →
  after_magic redo_magic (junk ++ redo_magic ++ rest) = Some rest.
Proof.
  induction junk as [|x junk IH]; [done|].
  intros Hnone. cbn [after_magic] in Hnone. case_decide as Hx; [done|].
  cbn [app after_magic]. rewrite decide_False; [by apply IH|].
  intros Heq. apply Hx. unfold redo_magic in *.
  by destruct junk as [|y [|z [|w junk]]]; simpl in *; rewrite ?take_0 in *.
Qed.

Lemma redo_read_header s junk inner rest :
  readable s → after_magic redo_magic junk = None → Z.of_nat (length inner) ≤ u32_max →
  unread s = junk ++ enc_header inner ++ rest →
  ∃ s', RedoHeader.read s = (Ok (Some {| rh_magic := RedoV2; rh_inner := inner |}), s')
        ∧ unread s' = rest ∧ api_len s' = api_len s
        ∧ api_offset s' = api_offset s + Z.of_nat (length (junk ++ enc_header inner)).
Proof.
  intros Hr Hj Hlen Hs. pose proof (redo_read_run s Hr) as Hv.
  unfold enc_header in Hs. rewrite <- !app_assoc in Hs.
  rewrite Hs, after_redo_magic_app in Hv by done. destruct Hv as (s1 & E & U & L & O).
  rewrite app_assoc in U.
  destruct (parses_read_inner inner Hlen s1 rest) as (s2 & E2 & U2 & O2 & L2); [|done|].
  { refine (readable_suffix s s1 (junk ++ redo_magic) _ Hr _ U L).
    by rewrite Hs, <- !app_assoc. }
  exists s2. rewrite E, E2. repeat split; [done|congruence|].
  rewrite O2, O. unfold enc_header. rewrite !length_app. lia.
Qed.
End redo_header.

(** ** Theorems *)

(** Scanning for an event finds the first occurrence of the magic and version
    bytes, whatever precedes it, or reports the end of the log when there is none;
    the scan ends on every file. *)
Theorem read_version_first_magic {S : Type} `{LogReader S} (s : S) (Hr : readable s) :
  match after_magic event_magic (unread s) with
  | Some rest => ∃ s', EventVersion.read_version s = (Ok (Some V2), s')
      ∧ unread s' = rest
      ∧ api_offset s' = api_offset s + Z.of_nat (length (unread s)) - Z.of_nat (length rest)
  | None => ∃ s', EventVersion.read_version s = (Ok None, s') ∧ unread s' = []
  end.
Proof.
  pose proof (read_version_run s Hr) as Hv.
  destruct (after_magic event_magic (unread s)).
  - destruct Hv as (s' & ? & ? & ? & ?). by exists s'.
  - destruct Hv as (s' & ? & ? & ?). by exists s'.
Qed.

(** Reading an event that is next, and one that is cut short. *)
Lemma read_enc {R : Type} `{LogReader R} meta data format (r : R) rest :
  blob_ok meta → blob_ok (default [] data) →
  readable r → unread r = enc_event meta data format ++ rest →
  ∃ r', EventVersion.read r = (Ok (Some (entry_of (api_offset r) meta data format)), r')
    ∧ unread r' = rest
    ∧ api_offset r' = api_offset r + Z.of_nat (length (enc_event meta data format))
    ∧ api_len r' = api_len r.
Proof.
  intros Hm Hd Hr Hu. rewrite read_unfold.
  destruct (read_body_enc (S := R) (api_offset r) meta data format Hm Hd) as [Hp _].
  destruct (parses_bind _ (λ v, match v with None => mret None
    | Some v => read_body (api_offset r) v end) _ _ _ _ parses_read_version Hp r rest Hr Hu)
    as (r' & E' & U & O & L).
  exists r'. by rewrite E'.
Qed.

Lemma read_torn {R : Type} `{LogReader R} meta data format p q (r : R) :
  blob_ok meta → blob_ok (default [] data) → readable r →
  enc_event meta data format = p ++ q → q ≠ [] → unread r = p →
  ∃ r', unread r' = []
    ∧ EventVersion.read r
      = ((if decide (length p < 4)%nat then Ok None else Err (IO UnexpectedEof)), r').
Proof.
  intros Hm Hd Hr Hpq Hq Hu.
  rewrite read_unfold. unfold enc_event in Hpq. case_decide as Hlen.
  - pose proof (read_version_run r Hr) as Hv.
    assert (p = take (length p) event_magic) as Hp.
    { apply (f_equal (take (length p))) in Hpq.
      by rewrite take_app_length, take_app_le in Hpq by (simpl; lia). }
    rewrite Hu, Hp, after_magic_partial in Hv by done.
    destruct Hv as (r' & E & U & _). exists r'. by rewrite (st_bind_Ok _ _ _ _ _ E).
  - assert (∃ p', p = event_magic ++ p') as (p' & ->).
    { exists (drop 4 p). apply (f_equal (take 4)) in Hpq.
      rewrite (take_app_le p q) in Hpq by lia. change (event_magic = take 4 p) in Hpq.
      by rewrite Hpq, take_drop. }
    rewrite <- app_assoc in Hpq. apply app_inv_head in Hpq.
    destruct (parses_read_version r p' Hr Hu) as (r1 & E & U & O & L).
    destruct (read_body_enc (S := R) (api_offset r) meta data format Hm Hd) as [_ Hst].
    destruct (Hst r1 p' q (readable_suffix r r1 _ _ Hr Hu U L) Hpq Hq U) as (r2 & E2 & U2 & _).
    exists r2. by rewrite (st_bind_Ok _ _ _ _ _ E), E2.
Qed.

(** C26. What the appender's side of the format writes, the archive's side reads:
    [write] appends one encoding [e] at the offset it reports, and [read] on any
    reader that has [e] next returns the metadata, the data and the formats and
    stands right behind [e].  Data of length zero reads back as no data. *)
Theorem event_write_read {W R : Type} `{LogWriter W} `{LogReader R} (w : W)
  (meta : bytes) (data : option bytes) (format : MessageFormat)
  (Hw : at_end w) (Hm : blob_ok meta) (Hd : blob_ok (default [] data)) :
  ∃ w' e,
    EventVersion.write LOG_VERSION meta data format w
      = (Ok {| lh_offset := Z.of_nat (length (stored w)); lh_format := format |}, w')
    ∧ at_end w' ∧ stored w' = stored w ++ e
    ∧ ∀ (r : R) rest, readable r → unread r = e ++ rest →
      ∃ r', EventVersion.read r = (Ok (Some (entry_of (api_offset r) meta data format)), r')
        ∧ unread r' = rest
        ∧ api_offset r' = api_offset r + Z.of_nat (length e).
Proof.
  destruct (write_event w meta data format Hw) as (w' & E & A & St).
  exists w', (enc_event meta data format). repeat split; try done.
  intros r rest Hr Hu.
  destruct (read_enc meta data format r rest Hm Hd Hr Hu) as (r' & E' & U & O & _). by exists r'.
Qed.

(** A log that ends inside an event, as a crash leaves it: a cut inside the
    magic reads as the end of the log, a later cut fails with [UnexpectedEof]; in
    no case is an event made up, and nothing is left unread. *)
Theorem read_truncated_event {R : Type} `{LogReader R} (r : R)
  (meta : bytes) (data : option bytes) (format : MessageFormat) (p q : bytes)
  (Hm : blob_ok meta) (Hd : blob_ok (default [] data))
  (Hr : readable r) (Hpq : enc_event meta data format = p ++ q) (Hq : q ≠ [])
  (Hu : unread r = p) :
  ∃ r', unread r' = []
    ∧ EventVersion.read r
      = ((if decide (length p < 4)%nat then Ok None else Err (IO UnexpectedEof)), r').
Proof.
  by apply (read_torn meta data format p q).
Qed.

Section header_load.
Context `{BufStreamPolicy}.

(** An appender that has only read: its file, and the place the offset names. *)
Definition same_file (a a' : LogAppender) : Prop :=
  a_data a' = a_data a ∧ a_wbuf a' = a_wbuf a ∧ a_writable a' = a_writable a
  ∧ a_path a' = a_path a ∧ a_index a' = a_index a ∧ a_header a' = a_header a.

Definition in_step (a : LogAppender) : Prop :=
  (a_pos a ≤ length (a_data a))%nat
  ∧ a_offset a = Z.of_nat (a_pos a) - Z.of_nat (length (a_rbuf a)).

(** A newly opened appender, before anything was read or written. *)
Definition opened (a : LogAppender) : Prop :=
  a_writable a = true ∧ a_rbuf a = [] ∧ a_wbuf a = [] ∧ a_pos a = 0%nat ∧ a_offset a = 0.

(** The identity of the log file an appender writes. *)
Definition same_name (a a' : LogAppender) : Prop :=
  a_path a' = a_path a ∧ a_index a' = a_index a ∧ a_header a' = a_header a.

#[export] Instance same_file_preorder : PreOrder same_file.
Proof. split; [done|]. unfold same_file. intros a b c; intuition congruence. Qed.
#[export] Instance same_name_preorder : PreOrder same_name.
Proof. split; [done|]. unfold same_name. intros a b c; intuition congruence. Qed.

(** [c] relates every state to the one it leaves. *)
Definition preserves {S : Type} (R : relation S) {A}
    (c : st S SerializationErrorKind A) : Prop :=
  ∀ a, R a (c a).2.

Lemma preserves_bind {S} (R : relation S) `{!PreOrder R} {A B}
    (c : st S SerializationErrorKind A) (k : A → st _ _ B) :
  preserves R c → (∀ x, preserves R (k x)) → preserves R (c ≫= k).
Proof.
  intros Hc Hk a. unfold mbind, st_bind. pose proof (Hc a) as Ha.
  destruct (c a) as [[x|e] a1]; simpl in *; [|done]. etrans; [done|apply Hk].
Qed.

Lemma preserves_get {S} (R : relation S) `{!PreOrder R} : preserves R st_get.
Proof. intros a. simpl. done. Qed.

Lemma preserves_ret {S} (R : relation S) `{!PreOrder R} {A} (x : A) : preserves R (mret x).
Proof. intros a. simpl. done. Qed.

Lemma write_out_name n a : same_name a (LogAppender.write_out n a).2.
Proof. unfold LogAppender.write_out. by repeat case_match. Qed.

Lemma preserves_write f bs : preserves same_name (st_map_err f (LogAppender.write_exact bs)).
Proof.
  intros a. unfold st_map_err, LogAppender.write_exact, LogAppender.stream_write, mbind, st_bind.
  match goal with |- context [LogAppender.write_out ?n ?x] =>
    pose proof (write_out_name n x); by destruct (LogAppender.write_out n x) as [[[]|]] end.
Qed.

Lemma read_exact_same n a : same_file a (LogAppender.read_exact n a).2.
Proof.
  unfold LogAppender.read_exact, LogAppender.stream_read, mbind, st_bind.
  repeat case_decide; done.
Qed.

Lemma frames_read_exact n : preserves same_file (st_map_err IO (LogAppender.read_exact n)).
Proof.
  intros a. pose proof (read_exact_same n a) as Hs. unfold st_map_err.
  by destruct (LogAppender.read_exact n a).
Qed.

Lemma read_uint_same w a : same_file a (LogAppender.read_uint w a).2.
Proof.
  rewrite appender_read_uint_exact. pose proof (read_exact_same w a) as Hs.
  unfold mbind, st_bind. by destruct (LogAppender.read_exact w a) as [[]].
Qed.

Lemma frames_read_byte : preserves same_file RedoHeader.read_byte.
Proof.
  intros a. pose proof (read_uint_same 1 a) as Hs. unfold RedoHeader.read_byte, st_try. simpl.
  by destruct (LogAppender.read_uint 1 a) as [[|[]]].
Qed.

Lemma frames_redo_read : preserves same_file RedoHeader.read.
Proof.
  apply preserves_bind; [apply _|apply preserves_get; apply _|]. intros a0. generalize 0%nat as n.
  generalize (Datatypes.S (Z.to_nat (api_len a0))) as fuel.
  induction fuel as [|fuel IH]; intros n; [done|]. cbn [RedoHeader.read_loop].
  apply preserves_bind; [apply _|apply frames_read_byte|]. intros [cur|]; [|done].
  destruct (scan_byte RedoHeader.LOG_MAGIC RedoHeader.try_from_u8 2 n cur) as [[v|n']|]; [|apply IH|done].
  apply preserves_bind; [apply _| |intros sz].
  - intros a. pose proof (read_uint_same 4 a) as Hs. unfold st_map_err. simpl.
    by destruct (LogAppender.read_uint 4 a).
  - by apply preserves_bind; [apply _|apply frames_read_exact|].
Qed.

Lemma read_byte_in_step a : in_step a → in_step (RedoHeader.read_byte a).2.
Proof.
  intros [Hp Ho]. unfold RedoHeader.read_byte, st_try. simpl.
  unfold LogAppender.read_uint, LogAppender.stream_read, mbind, st_bind.
  destruct (decide (1 ≤ Z.of_nat (length (a_rbuf a)))) as [Hin|Hout]; simpl.
  - split; simpl; [done|]. rewrite length_drop. lia.
  - case_decide as Hr; simpl; split; simpl; rewrite length_drop in Hr;
      rewrite ?length_take, ?length_drop; lia.
Qed.

Lemma redo_read_in_step a a' : in_step a → RedoHeader.read a = (Ok None, a') → in_step a'.
Proof.
  unfold RedoHeader.read. rewrite (st_bind_Ok st_get _ a a a) by done.
  generalize (Datatypes.S (Z.to_nat (api_len a))) as fuel. generalize 0%nat as n.
  intros n fuel. revert n a. induction fuel as [|fuel IH]; intros n a Ha; [done|].
  cbn [RedoHeader.read_loop]. pose proof (read_byte_in_step a Ha) as Hb.
  unfold mbind at 1, st_bind at 1.
  destruct (RedoHeader.read_byte a) as [[[cur|]|e] a1]; simpl in Hb; [|by intros [= <-]|done].
  destruct (scan_byte RedoHeader.LOG_MAGIC RedoHeader.try_from_u8 2 n cur) as [[v|n']|]; [|by apply IH|done].
  unfold mbind, st_bind. by repeat case_match; intros [=].
Qed.

Lemma opened_readable a : opened a → readable a ∧ unread a = a_data a.
Proof.
  intros (_ & Hr & Hw & Hp & Ho). unfold readable. simpl. rewrite Hr, Hp, drop_0. simpl.
  split; [lia|done].
Qed.
End header_load.

Section load_theorem.
Context `{BufStreamPolicy}.

Lemma write_same_name v meta data format :
  preserves same_name (EventVersion.write v meta data format).
Proof.
  destruct v. unfold EventVersion.write, EventVersion.write_blob_size, EventVersion.write_format.
  apply preserves_bind; [apply _|apply preserves_get, _|intros a0].
  repeat first [apply preserves_write | apply preserves_ret, _ | apply preserves_bind; [apply _| |intros []] | case_match ].
Qed.

Lemma write_header_same_name h : preserves same_name (RedoHeader.write h).
Proof.
  unfold RedoHeader.write.
  repeat first [apply preserves_write | apply preserves_ret, _ | apply preserves_bind; [apply _| |intros []] | case_match ].
Qed.

(** Loading where no header is yet: the file gets exactly one at its end. *)
Lemma load_creates a dflt :
  opened a → after_magic redo_magic (a_data a) = None →
  ∃ a', RedoHeader.load dflt a = (Ok dflt, a') ∧ a_data a' = a_data a ++ enc_header dflt
        ∧ a_wbuf a' = [] ∧ at_end a' ∧ same_name a a'.
Proof.
  intros Ho Hnone. destruct (opened_readable a Ho) as [Hr Hu].
  pose proof (redo_read_run a Hr) as Hv. rewrite Hu, Hnone in Hv.
  destruct Hv as (a1 & E & U & _).
  assert (in_step a1) as [Hp1 Ho1].
  { apply (redo_read_in_step a a1); [|done]. destruct Ho as (_ & Hrb & Hwb & Hp & Hoff).
    split; [rewrite Hp; lia|]. rewrite Hrb, Hp, Hoff. done. }
  pose proof (frames_redo_read a) as (Hd & Hw & Hwr & Hname).
  rewrite E in Hd, Hw, Hwr, Hname. simpl in *.
  apply app_eq_nil in U as [Hrb U]. apply (f_equal length) in U. rewrite length_drop in U.
  destruct Ho as (Hwrt & _ & Hwb & _ & _). simpl in U. assert (at_end a1) as Hend.
  { repeat split; [congruence|done|lia|]. rewrite Hw, Hwb, app_nil_r, Ho1, Hrb. simpl. lia. }
  destruct (write_header a1 dflt Hend) as (a2 & E2 & Hend2 & St2).
  pose proof (write_header_same_name {| rh_magic := RedoV2; rh_inner := dflt |} a1) as Hname2. rewrite E2 in Hname2.
  destruct (appender_flush a2 Hend2) as (a3 & E3 & Hend3 & D3 & W3 & _ & I3 & P3 & H3).
  exists a3. unfold RedoHeader.load. rewrite (st_bind_Ok _ _ _ _ _ E), (st_bind_Ok _ _ _ _ _ E2).
  rewrite (st_bind_Ok _ _ a2 a3 ()) by by rewrite (st_map_err_run _ _ a2 a3 (Ok ())).
  split; [done|]. split; [|split; [done|split; [done|]]].
  - rewrite D3, St2. simpl. by rewrite Hw, Hwb, app_nil_r, Hd.
  - unfold same_name in *. simpl in *. intuition congruence.
Qed.

(** Loading where a header is: it is returned and the file is as it was. *)
Lemma load_finds a dflt junk inner rest :
  opened a → a_data a = junk ++ enc_header inner ++ rest →
  after_magic redo_magic junk = None → Z.of_nat (length inner) ≤ u32_max →
  ∃ a', RedoHeader.load dflt a = (Ok inner, a') ∧ same_file a a'.
Proof.
  intros Ho Hd Hj Hlen. destruct (opened_readable a Ho) as [Hr Hu]. rewrite Hd in Hu.
  destruct (redo_read_header a junk inner rest Hr Hj Hlen Hu) as (a1 & E & U & _).
  pose proof (frames_redo_read a) as Hsame. rewrite E in Hsame.
  exists a1. unfold RedoHeader.load. by rewrite (st_bind_Ok _ _ _ _ _ E).
Qed.

(** Opening a log that has no header appends exactly one, already synced to the
    file, and returns the default; opening the result again, with any other default
    and whatever was appended since, returns the first one and writes nothing. *)
Theorem header_load_once (a : LogAppender) (dflt : bytes)
  (Ho : opened a) (Hnone : after_magic redo_magic (a_data a) = None)
  (Hlen : Z.of_nat (length dflt) ≤ u32_max) :
  ∃ a', RedoHeader.load dflt a = (Ok dflt, a')
    ∧ a_data a' = a_data a ++ enc_header dflt ∧ a_wbuf a' = []
    ∧ ∀ b other rest, opened b → a_data b = a_data a' ++ rest →
      ∃ b', RedoHeader.load other b = (Ok dflt, b') ∧ a_data b' = a_data b ∧ a_wbuf b' = [].
Proof.
  destruct (load_creates a dflt Ho Hnone) as (a' & E & D & W & _ & _).
  exists a'. repeat split; try done. intros b other rest Hb Hd.
  rewrite D, <- app_assoc in Hd.
  destruct (load_finds b other _ _ _ Hb Hd Hnone Hlen) as (b' & E' & Hd' & Hw' & _).
  exists b'. destruct Hb as (_ & _ & Hwb & _ & _). by rewrite Hw'.
Qed.
End load_theorem.

(** C36. The size prefix round-trips exactly below [u64::MAX]: there the reader gets
    back the size written, while for [u64::MAX] itself the writer falls through to a
    four-byte field and the reader gets [u32::MAX]. *)
Theorem blob_size_round_trip {W R : Type} `{LogWriter W} `{LogReader R} (w : W) (val : Z)
  (Hw : at_end w) (Hval : 0 ≤ val ≤ u64_max) :
  ∃ w' e, EventVersion.write_blob_size V2 val w = (Ok (), w') ∧ stored w' = stored w ++ e
    ∧ ∀ (r : R) rest, readable r → unread r = e ++ rest →
      ∃ r', EventVersion.read_blob_size V2 r
            = (Ok (if decide (val < u64_max) then val else u32_max), r') ∧ unread r' = rest.
Proof.
  destruct (appends_write_blob_size V2 val w Hw) as (w' & E & _ & St).
  exists w', (enc_size val). repeat split; try done. intros r rest Hr Hu.
  case_decide as Hlt.
  - destruct (read_blob_size_enc (S := R) val) as [Hp _]; [lia|].
    destruct (Hp r rest Hr Hu) as (r' & E' & U & _). eauto.
  - assert (val = u64_max) as -> by lia.
    change (enc_size u64_max) with ([x03] ++ to_be 4 u32_max) in Hu.
    assert (parses (EventVersion.read_blob_size V2) ([x03] ++ to_be 4 u32_max) u32_max) as Hp.
    { eapply parses_bind; [apply parses_tag|].
      exact (parses_uint api_read_u32 4 _ read_u32_exact (to_be_length 4 u32_max)). }
    destruct (Hp r rest Hr Hu) as (r' & E' & U & _). eauto.
Qed.

(** ** Witnesses *)

#[local] Existing Instance buffered_8k.

Definition guard_at_start (data : bytes) : LogArchiveGuard :=
  {| g_index := 0; g_offset := 0; g_data := data; g_pos := 0 |}.

Definition appender_at_start (data : bytes) : LogAppender :=
  {| a_path := "log.0"; a_data := data; a_writable := true; a_pos := 0; a_rbuf := []; a_wbuf := [];
     a_offset := 0; a_header := []; a_index := 0 |}.

Definition json_format : MessageFormat := {| mf_meta := Json; mf_data := Bincode |}.

Lemma read_version_first_magic_witness :
  ∃ s', EventVersion.read_version (guard_at_start [x41; x74; x41; x74; x65; x31; x07])
        = (Ok (Some V2), s') ∧ unread s' = [x07].
Proof.
  destruct (read_version_first_magic (guard_at_start [x41; x74; x41; x74; x65; x31; x07])
    (guard_readable _)) as (s' & E & U & _).
  exists s'. split; [exact E|exact U].
Defined.

Lemma event_write_read_witness :
  ∃ w' e, EventVersion.write LOG_VERSION [x05] (Some [x06; x07]) json_format (appender_at_start [])
          = (Ok {| lh_offset := 0; lh_format := json_format |}, w')
    ∧ stored w' = e ∧ length e = 13%nat
    ∧ ∃ r', EventVersion.read (guard_at_start (e ++ [x41]))
            = (Ok (Some (entry_of 0 [x05] (Some [x06; x07]) json_format)), r')
        ∧ unread r' = [x41].
Proof.
  destruct (event_write_read (R := LogArchiveGuard) (appender_at_start []) [x05]
    (Some [x06; x07]) json_format) as (w' & e & E & _ & St & Hread);
    [repeat split; reflexivity|reflexivity|reflexivity|].
  exists w', e. split; [exact E|]. split; [exact St|].
  split; [vm_compute in E; injection E as <-; vm_compute in St; rewrite <- St; reflexivity|].
  destruct (Hread (guard_at_start (e ++ [x41])) [x41]) as (r' & E' & U' & _);
    [apply guard_readable|reflexivity|].
  exists r'. split; [exact E'|exact U'].
Defined.

Lemma read_truncated_event_witness :
  ∃ r', unread r' = []
    ∧ EventVersion.read (guard_at_start [x41; x74; x65; x31; x01; x01])
      = (Err (IO UnexpectedEof), r').
Proof.
  apply (read_truncated_event (guard_at_start [x41; x74; x65; x31; x01; x01])
    [x05] None json_format [x41; x74; x65; x31; x01; x01] [x01; x05; x03; x01; x00]);
    [reflexivity|reflexivity|apply guard_readable|reflexivity|discriminate|reflexivity].
Defined.

Lemma header_load_once_witness :
  ∃ a', RedoHeader.load [x01; x02] (appender_at_start [x52]) = (Ok [x01; x02], a')
    ∧ a_data a' = [x52; x52; x45; x44; x31; x00; x00; x00; x02; x01; x02] ∧ a_wbuf a' = []
    ∧ ∃ b', RedoHeader.load [x09] (appender_at_start (a_data a' ++ [x41])) = (Ok [x01; x02], b')
            ∧ a_data b' = a_data a' ++ [x41].
Proof.
  destruct (header_load_once (appender_at_start [x52]) [x01; x02])
    as (a' & E & D & W & Hb); [repeat split; reflexivity|reflexivity|unfold u32_max; simpl; lia|].
  exists a'. split; [exact E|]. split; [exact D|]. split; [exact W|].
  destruct (Hb (appender_at_start (a_data a' ++ [x41])) [x09] [x41])
    as (b' & E' & D' & _); [repeat split; reflexivity|reflexivity|].
  exists b'. split; [exact E'|exact D'].
Defined.

Lemma blob_size_round_trip_witness :
  ∃ w' e, EventVersion.write_blob_size V2 u64_max (appender_at_start []) = (Ok (), w')
    ∧ stored w' = e
    ∧ ∃ r', EventVersion.read_blob_size V2 (guard_at_start e) = (Ok u32_max, r').
Proof.
  destruct (blob_size_round_trip (R := LogArchiveGuard) (appender_at_start []) u64_max)
    as (w' & e & E & St & Hread); [repeat split; reflexivity|unfold u64_max; lia|].
  exists w', e. split; [exact E|]. split; [exact St|].
  destruct (Hread (guard_at_start e) []) as (r' & E' & _);
    [apply guard_readable|rewrite app_nil_r; reflexivity|].
  exists r'. exact E'.
Defined.
