(* ===== verification/Secure.v ===== *)
(** * Public-key encryption and protected data

    crypto/src/crypto: the NTRU key pairs of private_encrypt_key.rs, the records that
    carry encrypted or signed data (encrypted_secure_data.rs,
    public_encrypted_secure_data.rs, signed_protected_data.rs), and the part of
    derived_encrypt_key.rs that works with key pairs. *)

From S2P Require Import Prelude LogApi Crypto Codec.

(** ** What the code relies on *)

(** The [pqcrypto_ntru] key encapsulation, one parameter set per key size.  [None] is a
    key that [from_bytes] refuses; [rnd] is the randomness of an encapsulation. *)
Class KemPrims : Type := {
  ntru_public_key_bytes : KeySize → nat;
  ntru_ciphertext_bytes : KeySize → nat;
  ntru_pair : KeySize → bytes → bytes → Prop;
  ntru_encapsulate : KeySize → bytes → bytes → option (bytes * bytes);
  ntru_decapsulate : KeySize → bytes → bytes → option bytes;
  ntru_agree : ∀ l pk sk rnd, ntru_pair l pk sk →
    ∃ ss ct, ntru_encapsulate l pk rnd = Some (ss, ct)
      ∧ length ct = ntru_ciphertext_bytes l ∧ ntru_decapsulate l ct sk = Some ss;
}.

(** The serialization of a type by the serde formats: what was written in bincode reads
    back. *)
Class Serde (T : Type) : Type := {
  serialize : SerializationFormat → T → option bytes;
  deserialize : SerializationFormat → bytes → option T;
  serde_bincode : ∀ t bs, serialize Bincode t = Some bs → deserialize Bincode bs = Some t;
}.

(** ** Data *)

(** [Panicked] is the panic of an [unwrap]. *)
Inductive SecureError : Type :=
  | SecureIo (e : IoErrorKind)
  | Panicked.

Inductive PublicEncryptKey : Type :=
  | PublicNtru128 (pk : bytes)
  | PublicNtru192 (pk : bytes)
  | PublicNtru256 (pk : bytes).

Inductive PrivateEncryptKey : Type :=
  | PrivateNtru128 (pk : PublicEncryptKey) (sk : bytes)
  | PrivateNtru192 (pk : PublicEncryptKey) (sk : bytes)
  | PrivateNtru256 (pk : PublicEncryptKey) (sk : bytes).

#[global] Instance PublicEncryptKey_eq_dec : EqDecision PublicEncryptKey.
Proof. solve_decision. Defined.
#[global] Instance PrivateEncryptKey_eq_dec : EqDecision PrivateEncryptKey.
Proof. solve_decision. Defined.

Record EncryptedSecureData : Type := {
  esd_format : SerializationFormat;
  esd_ek_hash : AteHash;
  esd_iv : InitializationVector;
  esd_encrypted : bytes;
}.

Record PublicEncryptedSecureData : Type := {
  psd_format : SerializationFormat;
  psd_ek_hash : AteHash;
  psd_iv : InitializationVector;
  psd_encrypted : bytes;
}.

Record MultiEncryptedSecureData : Type := {
  msd_format : SerializationFormat;
  msd_members : gmap string PublicEncryptedSecureData;
  msd_metadata : gmap string string;
  msd_iv : InitializationVector;
  msd_hash : AteHash;
  msd_encrypted : bytes;
}.

Record SignedProtectedData (T : Type) : Type := {
  spd_format : SerializationFormat;
  spd_sig : bytes;
  spd_data : T;
}.
Arguments spd_format {T} _.
Arguments spd_sig {T} _.
Arguments spd_data {T} _.

(** ** Hexadecimal *)

Definition hex_char (n : Z) : Ascii.ascii :=
  Ascii.ascii_of_nat (Z.to_nat (if decide (n < 10) then 48 + n else 87 + n)).

(** [hex::encode]. *)
Fixpoint hex_encode (bs : bytes) : string :=
  match bs with
  | [] => EmptyString
  | b :: bs => String (hex_char (Z_of_byte b / 16))
                 (String (hex_char (Z_of_byte b mod 16)) (hex_encode bs))
  end.

Definition to_hex_string (h : AteHash) : string := hex_encode (hash_val h).

(** ** Operations *)

Section kem.
Context `{CryptoPrims} `{KemPrims}.

(** The three arms of [PublicEncryptKey::encapsulate]. *)
Definition encapsulate_at (l : KeySize) (rnd pk : bytes)
    : result SecureError (InitializationVector * EncryptKey) :=
  match ntru_encapsulate l pk rnd with
  | None => Err Panicked
  | Some (ss, ct) => Ok ({| iv_bytes := ct |}, EncryptKey.from_seed_bytes ss l)
  end.

(** The three arms of [PrivateEncryptKey::decapsulate]. *)
Definition decapsulate_at (l : KeySize) (sk : bytes) (iv : InitializationVector)
    : result SecureError (option EncryptKey) :=
  if negb (bool_decide (length (iv_bytes iv) = ntru_ciphertext_bytes l)) then Ok None
  else match ntru_decapsulate l (iv_bytes iv) sk with
       | None => Err Panicked
       | Some ss => Ok (Some (EncryptKey.from_seed_bytes ss l))
       end.
End kem.

Module PublicEncryptKey.
Definition pk (k : PublicEncryptKey) : bytes :=
  match k with PublicNtru128 pk => pk | PublicNtru192 pk => pk | PublicNtru256 pk => pk end.

Definition size (k : PublicEncryptKey) : KeySize :=
  match k with
  | PublicNtru128 _ => Bit128 | PublicNtru192 _ => Bit192 | PublicNtru256 _ => Bit256
  end.

Section ops.
Context `{CryptoPrims} `{KemPrims}.

Definition from_bytes (bs : bytes) : option PublicEncryptKey :=
  if decide (length bs = ntru_public_key_bytes Bit128) then Some (PublicNtru128 bs)
  else if decide (length bs = ntru_public_key_bytes Bit192) then Some (PublicNtru192 bs)
  else if decide (length bs = ntru_public_key_bytes Bit256) then Some (PublicNtru256 bs)
  else None.

Definition hash (k : PublicEncryptKey) : AteHash :=
  match k with
  | PublicNtru128 pk => AteHash.from_bytes pk
  | PublicNtru192 pk => AteHash.from_bytes pk
  | PublicNtru256 pk => AteHash.from_bytes pk
  end.

Definition encapsulate (rnd : bytes) (k : PublicEncryptKey)
    : result SecureError (InitializationVector * EncryptKey) :=
  match k with
  | PublicNtru128 pk => encapsulate_at Bit128 rnd pk
  | PublicNtru192 pk => encapsulate_at Bit192 rnd pk
  | PublicNtru256 pk => encapsulate_at Bit256 rnd pk
  end.

Definition encrypt (rnd : bytes) (k : PublicEncryptKey) (data : bytes)
    : result SecureError EncryptResult :=
  '(iv, ek) ← encapsulate rnd k;
  Ok {| er_iv := iv; er_data := EncryptKey.encrypt_with_iv ek iv data |}.
End ops.
End PublicEncryptKey.

Module PrivateEncryptKey.
(** [pair] is the draw of the parameter set's [keypair]. *)
Definition generate (pair : bytes * bytes) (size : KeySize) : PrivateEncryptKey :=
  match size with
  | Bit128 => PrivateNtru128 (PublicNtru128 (fst pair)) (snd pair)
  | Bit192 => PrivateNtru192 (PublicNtru192 (fst pair)) (snd pair)
  | Bit256 => PrivateNtru256 (PublicNtru256 (fst pair)) (snd pair)
  end.

Definition as_public_key (k : PrivateEncryptKey) : PublicEncryptKey :=
  match k with
  | PrivateNtru128 pk _ => pk | PrivateNtru192 pk _ => pk | PrivateNtru256 pk _ => pk
  end.

Definition pk (k : PrivateEncryptKey) : bytes := PublicEncryptKey.pk (as_public_key k).

Definition sk (k : PrivateEncryptKey) : bytes :=
  match k with
  | PrivateNtru128 _ sk => sk | PrivateNtru192 _ sk => sk | PrivateNtru256 _ sk => sk
  end.

Definition size (k : PrivateEncryptKey) : KeySize :=
  match k with
  | PrivateNtru128 _ _ => Bit128 | PrivateNtru192 _ _ => Bit192 | PrivateNtru256 _ _ => Bit256
  end.

Section ops.
Context `{CryptoPrims} `{KemPrims}.

Definition hash (k : PrivateEncryptKey) : AteHash := PublicEncryptKey.hash (as_public_key k).

Definition decapsulate (k : PrivateEncryptKey) (iv : InitializationVector)
    : result SecureError (option EncryptKey) :=
  match k with
  | PrivateNtru128 _ sk => decapsulate_at Bit128 sk iv
  | PrivateNtru192 _ sk => decapsulate_at Bit192 sk iv
  | PrivateNtru256 _ sk => decapsulate_at Bit256 sk iv
  end.

Definition decrypt (k : PrivateEncryptKey) (iv : InitializationVector) (data : bytes)
    : result SecureError bytes :=
  ek ← decapsulate k iv;
  match ek with
  | None => Err (SecureIo Other)
  | Some ek => Ok (EncryptKey.decrypt ek iv data)
  end.

Definition decrypt_ext (k : PrivateEncryptKey) (iv : InitializationVector) (data : bytes)
    (ek_hash : AteHash) : result SecureError bytes :=
  ek ← decapsulate k iv;
  match ek with
  | None => Err (SecureIo Other)
  | Some ek => if decide (EncryptKey.hash ek = ek_hash)
               then Ok (EncryptKey.decrypt ek iv data) else Err (SecureIo Other)
  end.

(** A pair as [generate] makes it. *)
Definition generated (k : PrivateEncryptKey) : Prop :=
  match k with
  | PrivateNtru128 (PublicNtru128 pk) sk => ntru_pair Bit128 pk sk
  | PrivateNtru192 (PublicNtru192 pk) sk => ntru_pair Bit192 pk sk
  | PrivateNtru256 (PublicNtru256 pk) sk => ntru_pair Bit256 pk sk
  | _ => False
  end.
End ops.
End PrivateEncryptKey.

(** The methods of [DerivedEncryptKey] on key pairs. *)
Module DerivedPrivate.
Section ops.
Context `{CryptoPrims} `{KemPrims}.

Definition transmute_private (d : DerivedEncryptKey) (key : PrivateEncryptKey)
    : result SecureError EncryptKey :=
  bs ← PrivateEncryptKey.decrypt key (er_iv (dk_inner d)) (er_data (dk_inner d));
  map_err SecureIo (EncryptKey.from_bytes bs).

Definition change_private (rnd : bytes) (d : DerivedEncryptKey) (old : PrivateEncryptKey)
    (new : PublicEncryptKey) : result SecureError DerivedEncryptKey :=
  inner ← transmute_private d old;
  r ← PublicEncryptKey.encrypt rnd new (EncryptKey.value inner);
  Ok {| dk_inner := r |}.
End ops.
End DerivedPrivate.

Section serde.
Context {T : Type} `{Serde T}.

(** [format.serialize] and [format.deserialize_ref], with their error mapped to
    [ErrorKind::Other]. *)
Definition to_bytes (format : SerializationFormat) (data : T) : result SecureError bytes :=
  match serialize format data with Some bs => Ok bs | None => Err (SecureIo Other) end.

Definition of_bytes (format : SerializationFormat) (bs : bytes) : result SecureError T :=
  match deserialize format bs with Some t => Ok t | None => Err (SecureIo Other) end.
End serde.

Module EncryptedSecureData.
Section ops.
Context {T : Type} `{CryptoPrims} `{Serde T}.

Definition new (rnd : bytes) (encrypt_key : EncryptKey) (data : T)
    : result SecureError EncryptedSecureData :=
  data ← to_bytes Bincode data;
  let result := EncryptKey.encrypt encrypt_key rnd data in
  Ok {| esd_format := Bincode; esd_ek_hash := EncryptKey.hash encrypt_key;
        esd_iv := er_iv result; esd_encrypted := er_data result |}.

Definition unwrap (d : EncryptedSecureData) (key : EncryptKey) : result SecureError T :=
  of_bytes (esd_format d) (EncryptKey.decrypt key (esd_iv d) (esd_encrypted d)).
End ops.
End EncryptedSecureData.

Module PublicEncryptedSecureData.
Section ops.
Context {T : Type} `{CryptoPrims} `{KemPrims} `{Serde T}.

Definition new (rnd : bytes) (encrypt_key : PublicEncryptKey) (data : T)
    : result SecureError PublicEncryptedSecureData :=
  data ← to_bytes Bincode data;
  result ← PublicEncryptKey.encrypt rnd encrypt_key data;
  Ok {| psd_format := Bincode; psd_ek_hash := PublicEncryptKey.hash encrypt_key;
        psd_iv := er_iv result; psd_encrypted := er_data result |}.

(** The error of [decrypt] is unwrapped: it panics. *)
Definition unwrap (d : PublicEncryptedSecureData) (key : PrivateEncryptKey)
    : result SecureError T :=
  if negb (bool_decide (PrivateEncryptKey.hash key = psd_ek_hash d)) then Err (SecureIo Other)
  else
    data ← map_err (λ _, Panicked) (PrivateEncryptKey.decrypt key (psd_iv d) (psd_encrypted d));
    of_bytes (psd_format d) data.
End ops.
End PublicEncryptedSecureData.

Module MultiEncryptedSecureData.
Section ops.
Context {T : Type} `{CryptoPrims} `{KemPrims} `{Serde EncryptKey} `{Serde T}.

(** [rnd_member] is the randomness of the encapsulation, [rnd_iv] that of the vector. *)
Definition new_ext (rnd_member rnd_iv : bytes) (encrypt_key : PublicEncryptKey)
    (shared_key : EncryptKey) (meta : string) (data : T)
    : result SecureError MultiEncryptedSecureData :=
  let index := to_hex_string (PublicEncryptKey.hash encrypt_key) in
  member ← PublicEncryptedSecureData.new rnd_member encrypt_key shared_key;
  data ← to_bytes Bincode data;
  let result := EncryptKey.encrypt shared_key rnd_iv data in
  Ok {| msd_format := Bincode;
        msd_members := <[index := member]> ∅;
        msd_metadata := <[index := meta]> ∅;
        msd_iv := er_iv result;
        msd_hash := AteHash.from_bytes_twice (iv_bytes (er_iv result)) data;
        msd_encrypted := er_data result |}.

Definition new (rnd_key rnd_member rnd_iv : bytes) (encrypt_key : PublicEncryptKey)
    (meta : string) (data : T) : result SecureError MultiEncryptedSecureData :=
  let shared_key := EncryptKey.generate rnd_key (PublicEncryptKey.size encrypt_key) in
  new_ext rnd_member rnd_iv encrypt_key shared_key meta data.

Definition unwrap (m : MultiEncryptedSecureData) (key : PrivateEncryptKey)
    : result SecureError (option T) :=
  match msd_members m !! to_hex_string (PrivateEncryptKey.hash key) with
  | Some a =>
      shared_key ← PublicEncryptedSecureData.unwrap (T := EncryptKey) a key;
      Some <$> of_bytes (msd_format m)
                 (EncryptKey.decrypt shared_key (msd_iv m) (msd_encrypted m))
  | None => Ok None
  end.

Definition unwrap_shared (m : MultiEncryptedSecureData) (shared_key : EncryptKey)
    : result SecureError (option T) :=
  let data := EncryptKey.decrypt shared_key (msd_iv m) (msd_encrypted m) in
  if negb (bool_decide (AteHash.from_bytes_twice (iv_bytes (msd_iv m)) data = msd_hash m))
  then Ok None
  else Some <$> of_bytes (msd_format m) data.
End ops.

Section members.
Context `{CryptoPrims} `{KemPrims} `{Serde EncryptKey}.

Definition with_members (m : MultiEncryptedSecureData)
    (members : gmap string PublicEncryptedSecureData) (metadata : gmap string string)
    : MultiEncryptedSecureData :=
  {| msd_format := msd_format m; msd_members := members; msd_metadata := metadata;
     msd_iv := msd_iv m; msd_hash := msd_hash m; msd_encrypted := msd_encrypted m |}.

Definition add (rnd : bytes) (encrypt_key : PublicEncryptKey) (meta : string)
    (referrer : PrivateEncryptKey) : st MultiEncryptedSecureData SecureError bool :=
  st_mk (λ m,
    match msd_members m !! to_hex_string (PrivateEncryptKey.hash referrer) with
    | Some a =>
        match (shared_key ← PublicEncryptedSecureData.unwrap (T := EncryptKey) a referrer;
               PublicEncryptedSecureData.new rnd encrypt_key shared_key) with
        | Ok member =>
            let index := to_hex_string (PublicEncryptKey.hash encrypt_key) in
            (Ok true, with_members m (<[index := member]> (msd_members m))
                        (<[index := meta]> (msd_metadata m)))
        | Err e => (Err e, m)
        end
    | None => (Ok false, m)
    end).

Definition remove (what : AteHash) (m : MultiEncryptedSecureData)
    : bool * MultiEncryptedSecureData :=
  let index := to_hex_string what in
  (bool_decide (is_Some (msd_members m !! index)),
   with_members m (delete index (msd_members m)) (delete index (msd_metadata m))).

Definition exists_ (m : MultiEncryptedSecureData) (what : AteHash) : bool :=
  bool_decide (is_Some (msd_members m !! to_hex_string what)).

Definition meta (m : MultiEncryptedSecureData) (what : AteHash) : option string :=
  msd_metadata m !! to_hex_string what.
End members.
End MultiEncryptedSecureData.

Module SignedProtectedData.
Section ops.
Context {T : Type} `{CryptoPrims} `{Serde T}.

Definition new (sign_key : PrivateSignKey) (data : T)
    : result SecureError (SignedProtectedData T) :=
  binary_data ← to_bytes Bincode data;
  sig ← map_err SecureIo
          (PrivateSignKey.sign sign_key (hash_val (AteHash.from_bytes binary_data)));
  Ok {| spd_format := Bincode; spd_sig := sig; spd_data := data |}.

Definition verify (d : SignedProtectedData T) (key : PublicSignKey) : result SecureError bool :=
  binary_data ← to_bytes (spd_format d) (spd_data d);
  match PublicSignKey.verify key (hash_val (AteHash.from_bytes binary_data)) (spd_sig d) with
  | Some a => Ok a
  | None => Err (SecureIo Other)
  end.
End ops.
End SignedProtectedData.

(** ** Hexadecimal is injective *)

Definition unhex (c : Ascii.ascii) : Z :=
  let n := Z.of_nat (Ascii.nat_of_ascii c) in if decide (n < 58) then n - 48 else n - 87.

Lemma unhex_byte b :
  byte_of_Z (16 * unhex (hex_char (Z_of_byte b / 16)) + unhex (hex_char (Z_of_byte b mod 16))) = b.
Proof. destruct b; vm_compute; reflexivity. Qed.

Lemma hex_encode_inj bs bs' : hex_encode bs = hex_encode bs' → bs = bs'.
Proof.
  revert bs'. induction bs as [|b bs IH]; intros [|b' bs']; cbn [hex_encode]; try done.
  intros E. injection E as Hhi Hlo Hrest. f_equal; [|by apply IH].
  rewrite <-(unhex_byte b), <-(unhex_byte b'). congruence.
Qed.

#[global] Instance to_hex_string_inj : Inj (=) (=) to_hex_string.
Proof. intros [v] [v'] Hh. f_equal. by apply hex_encode_inj. Qed.

(** ** Key pairs *)

Section theorems.
Context `{CryptoPrims} `{KemPrims}.

Lemma encapsulate_decapsulate rnd k : PrivateEncryptKey.generated k →
  ∃ iv ek, PublicEncryptKey.encapsulate rnd (PrivateEncryptKey.as_public_key k) = Ok (iv, ek)
           ∧ PrivateEncryptKey.decapsulate k iv = Ok (Some ek).
Proof.
  assert (∀ l pk sk, ntru_pair l pk sk →
    ∃ iv ek, encapsulate_at l rnd pk = Ok (iv, ek) ∧ decapsulate_at l sk iv = Ok (Some ek)) as Hat.
  { intros l pk sk Hp. destruct (ntru_agree l pk sk rnd Hp) as (ss & ct & He & Hl & Hd).
    unfold encapsulate_at, decapsulate_at. rewrite He. eexists _, _. split; [done|].
    cbn [iv_bytes]. rewrite bool_decide_eq_true_2 by done. cbn [negb]. by rewrite Hd. }
  destruct k as [[] ?|[] ?|[] ?]; cbn; try done; apply Hat.
Qed.

Lemma public_encrypt_decrypt rnd k data : PrivateEncryptKey.generated k →
  ∃ r, PublicEncryptKey.encrypt rnd (PrivateEncryptKey.as_public_key k) data = Ok r
       ∧ PrivateEncryptKey.decrypt k (er_iv r) (er_data r) = Ok data.
Proof.
  intros (iv & ek & He & Hd)%(encapsulate_decapsulate rnd).
  unfold PublicEncryptKey.encrypt, PrivateEncryptKey.decrypt. rewrite He. cbn.
  eexists. split; [done|]. cbn. rewrite Hd. cbn. f_equal. apply decrypt_encrypt_with_iv.
Qed.

(** Handing a derived key over to a key pair keeps the derived key: when it opens
    under the old private key as [k], [change_private] to the public half of a generated
    pair succeeds, and the changed record opens under that pair's private key as the same
    [k]. *)
Theorem change_private_keeps_derived_key (rnd : bytes) (d : DerivedEncryptKey)
  (old new : PrivateEncryptKey) (k : EncryptKey)
  (Hgen : PrivateEncryptKey.generated new)
  (Hk : DerivedPrivate.transmute_private d old = Ok k) :
  ∃ d', DerivedPrivate.change_private rnd d old (PrivateEncryptKey.as_public_key new) = Ok d'
        ∧ DerivedPrivate.transmute_private d' new = Ok k.
Proof.
  unfold DerivedPrivate.change_private. rewrite Hk. cbn.
  destruct (public_encrypt_decrypt rnd new (EncryptKey.value k) Hgen) as (r & -> & Hd). cbn.
  eexists. split; [done|]. unfold DerivedPrivate.transmute_private. cbn. rewrite Hd. cbn.
  apply bind_Ok_inv in Hk as (bs & _ & [_ Hwf]%map_err_Ok_inv%from_bytes_Ok).
  f_equal. by rewrite from_bytes_value.
Qed.

(** Signed data verifies under the key that signed it: whenever the data serializes,
    [new] with a generated key succeeds, and [verify] with its public half returns true. *)
Theorem signed_data_verifies {T : Type} `{!Serde T} (sk : PrivateSignKey) (data : T) (bs : bytes)
  (Hgen : PrivateSignKey.generated sk) (Hser : serialize Bincode data = Some bs) :
  ∃ d, SignedProtectedData.new sk data = Ok d
       ∧ SignedProtectedData.verify d (PrivateSignKey.as_public_key sk) = Ok true
       ∧ spd_data d = data.
Proof.
  unfold SignedProtectedData.new, SignedProtectedData.verify, to_bytes. rewrite Hser. cbn.
  destruct (sign_verifies sk (hash_val (AteHash.from_bytes bs)) Hgen) as (sig & Hs & Hv).
  cbn in Hs, Hv. rewrite Hs. cbn. eexists. split; [done|]. cbn. rewrite Hser. cbn.
  by rewrite Hv.
Qed.
End theorems.

(** ** Shared secrets refine a set of members *)

(** What is done to a shared secret after it is made. *)
Inductive MemberOp : Type :=
  | Grant (rnd : bytes) (key : PrivateEncryptKey) (meta : string) (referrer : PrivateEncryptKey)
  | Revoke (what : AteHash).

Section members.
Context `{CryptoPrims} `{KemPrims} `{!Serde EncryptKey}.
Implicit Types (m : MultiEncryptedSecureData) (k : PrivateEncryptKey) (ring : list PrivateEncryptKey).

Definition run_member (op : MemberOp) m : MultiEncryptedSecureData :=
  match op with
  | Grant rnd key meta referrer =>
      (MultiEncryptedSecureData.add rnd (PrivateEncryptKey.as_public_key key) meta referrer m).2
  | Revoke what => (MultiEncryptedSecureData.remove what m).2
  end.

(** The specification: the hashes of the keys that open the secret. *)
Definition spec_member (op : MemberOp) (s : gset AteHash) : gset AteHash :=
  match op with
  | Grant _ key _ referrer =>
      if decide (PrivateEncryptKey.hash referrer ∈ s)
      then s ∪ {[PrivateEncryptKey.hash key]} else s
  | Revoke what => s ∖ {[what]}
  end.

(** Generated keys, told apart by their hashes. *)
Definition key_ring ring : Prop :=
  (∀ k, k ∈ ring → PrivateEncryptKey.generated k)
  ∧ ∀ k k', k ∈ ring → k' ∈ ring → PrivateEncryptKey.hash k = PrivateEncryptKey.hash k' → k = k'.

Definition op_from ring (op : MemberOp) : Prop :=
  match op with Grant _ key _ referrer => key ∈ ring ∧ referrer ∈ ring | Revoke _ => True end.

(** The refinement relation: the table holds exactly the members, and each member of the
    ring finds the shared key in its entry. *)
Record shares (shared : EncryptKey) ring m (s : gset AteHash) : Prop := {
  shares_dom : ∀ h, is_Some (msd_members m !! to_hex_string h) ↔ h ∈ s;
  shares_key : ∀ k a, k ∈ ring →
    msd_members m !! to_hex_string (PrivateEncryptKey.hash k) = Some a →
    PublicEncryptedSecureData.unwrap (T := EncryptKey) a k = Ok shared;
}.

Lemma member_opens {T : Type} `{!Serde T} rnd k (t : T) bs :
  PrivateEncryptKey.generated k → serialize Bincode t = Some bs →
  ∃ a, PublicEncryptedSecureData.new rnd (PrivateEncryptKey.as_public_key k) t = Ok a
       ∧ PublicEncryptedSecureData.unwrap a k = Ok t.
Proof.
  intros Hgen Hser. unfold PublicEncryptedSecureData.new, to_bytes. rewrite Hser.
  destruct (public_encrypt_decrypt rnd k bs Hgen) as (r & He & Hd).
  cbn [mbind result_bind]. rewrite He. cbn [mbind result_bind]. eexists. split; [done|].
  unfold PublicEncryptedSecureData.unwrap. cbn [psd_ek_hash psd_iv psd_encrypted psd_format].
  rewrite bool_decide_eq_true_2 by done. cbn [negb]. rewrite Hd. cbn.
  unfold of_bytes. by rewrite (serde_bincode t bs).
Qed.

Lemma shares_insert shared ring m s k a md : key_ring ring → k ∈ ring →
  PublicEncryptedSecureData.unwrap a k = Ok shared → shares shared ring m s →
  shares shared ring (MultiEncryptedSecureData.with_members m
      (<[to_hex_string (PrivateEncryptKey.hash k) := a]> (msd_members m)) md)
    (s ∪ {[PrivateEncryptKey.hash k]}).
Proof.
  intros [_ Hinj] Hk Ha Hs. split.
  - intros h. cbn. rewrite lookup_insert_is_Some, (shares_dom _ _ _ _ Hs).
    rewrite (inj_iff to_hex_string). destruct (decide (PrivateEncryptKey.hash k = h)); set_solver.
  - intros k' a' Hk'. cbn. intros [[Hh%(inj _) ->]|[_ ?]]%lookup_insert_Some.
    + by rewrite <-(Hinj _ _ Hk Hk' Hh).
    + by apply (shares_key _ _ _ _ Hs).
Qed.

Lemma shares_step shared ring m s op bs :
  key_ring ring → serialize Bincode shared = Some bs → op_from ring op →
  shares shared ring m s → shares shared ring (run_member op m) (spec_member op s).
Proof.
  intros Hring Hser Hop Hs. destruct op as [rnd key meta referrer|what].
  - destruct Hop as [Hkey Href]. cbn [run_member spec_member].
    unfold MultiEncryptedSecureData.add, st_mk.
    pose proof (shares_dom _ _ _ _ Hs (PrivateEncryptKey.hash referrer)) as Hdom.
    destruct (msd_members m !! _) as [a|] eqn:Ea.
    + rewrite decide_True by (apply Hdom; eauto).
      rewrite (shares_key _ _ _ _ Hs _ _ Href Ea). cbn [mbind result_bind].
      destruct (member_opens rnd key shared bs (proj1 Hring _ Hkey) Hser) as (b & -> & Hb).
      by apply shares_insert.
    + rewrite decide_False; [done|]. intros []%Hdom. done.
  - cbn [run_member spec_member MultiEncryptedSecureData.remove snd]. split.
    + intros h. cbn. rewrite lookup_delete_is_Some, (shares_dom _ _ _ _ Hs).
      rewrite (inj_iff to_hex_string). set_solver.
    + intros k a Hk. cbn. intros [_ ?]%lookup_delete_Some. by apply (shares_key _ _ _ _ Hs).
Qed.

(** What the operations leave alone: the encrypted data. *)
Definition same_data m m' : Prop :=
  msd_format m' = msd_format m ∧ msd_iv m' = msd_iv m ∧ msd_hash m' = msd_hash m
  ∧ msd_encrypted m' = msd_encrypted m.

Lemma run_member_data op m : same_data m (run_member op m).
Proof.
  destruct op; [|done]. cbn [run_member]. unfold MultiEncryptedSecureData.add, st_mk.
  destruct (msd_members m !! _); [|done]. by destruct (_ ≫= _).
Qed.

Lemma run_members_ok shared ring bs ops m s :
  key_ring ring → serialize Bincode shared = Some bs → Forall (op_from ring) ops →
  shares shared ring m s →
  shares shared ring (foldl (flip run_member) m ops) (foldl (flip spec_member) s ops)
  ∧ same_data m (foldl (flip run_member) m ops).
Proof.
  intros Hring Hser Hops. revert m s.
  induction Hops as [|op ops Hop _ IH]; intros m s Hs; [done|]. cbn [foldl flip].
  destruct (IH (run_member op m) (spec_member op s)) as [? Hd];
    [by eapply shares_step|]. split; [done|].
  pose proof (run_member_data op m). unfold same_data in *. intuition congruence.
Qed.

(** A fresh secret is shared with its owner, and holds the data. *)
Lemma new_ext_shares {T : Type} `{!Serde T} ring owner shared meta (data : T) rnd_member rnd_iv m :
  key_ring ring → owner ∈ ring →
  MultiEncryptedSecureData.new_ext rnd_member rnd_iv (PrivateEncryptKey.as_public_key owner)
    shared meta data = Ok m →
  is_Some (serialize Bincode shared)
  ∧ shares shared ring m {[PrivateEncryptKey.hash owner]}
  ∧ ∃ d, deserialize Bincode d = Some data
      ∧ msd_format m = Bincode
      ∧ EncryptKey.decrypt shared (msd_iv m) (msd_encrypted m) = d
      ∧ AteHash.from_bytes_twice (iv_bytes (msd_iv m)) d = msd_hash m.
Proof.
  intros Hring Howner (member & Hmember & (d & Hd & Hm)%bind_Ok_inv)%bind_Ok_inv.
  assert (is_Some (serialize Bincode shared)) as [bs Hser].
  { unfold PublicEncryptedSecureData.new, to_bytes in Hmember.
    by destruct (serialize Bincode shared). }
  destruct (member_opens rnd_member owner shared bs (proj1 Hring _ Howner) Hser)
    as (a & Ha & Hopen).
  rewrite Hmember in Ha. injection Ha as <-. injection Hm as <-.
  split; [by eauto|]. split.
  - match goal with |- shares _ _ ?m0 _ => set (m := m0) end.
    assert (shares shared ring (MultiEncryptedSecureData.with_members m ∅ ∅) ∅) as Hempty.
    { split; cbn; [|by intros ???; rewrite lookup_empty].
      intros h. rewrite lookup_empty. split; [intros []|]; set_solver. }
    pose proof (shares_insert _ _ _ _ _ _ (msd_metadata m) Hring Howner Hopen Hempty) as Hins.
    rewrite union_empty_l_L in Hins. exact Hins.
  - exists d. split; [|split; [done|split; [apply decrypt_encrypt | done]]].
    unfold to_bytes in Hd. destruct (serialize Bincode data) as [d'|] eqn:E; [|done].
    injection Hd as ->. by apply serde_bincode.
Qed.

(** The members after a sequence of grants and revocations. *)
Lemma new_ext_members {T : Type} `{!Serde T} (ring : list PrivateEncryptKey)
  (owner k : PrivateEncryptKey) (shared : EncryptKey) (meta : string) (data : T)
  (rnd_member rnd_iv : bytes) (m : MultiEncryptedSecureData) (ops : list MemberOp)
  (Hring : key_ring ring) (Howner : owner ∈ ring) (Hk : k ∈ ring)
  (Hnew : MultiEncryptedSecureData.new_ext rnd_member rnd_iv
            (PrivateEncryptKey.as_public_key owner) shared meta data = Ok m)
  (Hops : Forall (op_from ring) ops) :
  let m' := foldl (flip run_member) m ops in
  let s := foldl (flip spec_member) {[PrivateEncryptKey.hash owner]} ops in
  MultiEncryptedSecureData.unwrap m' k
    = Ok (if decide (PrivateEncryptKey.hash k ∈ s) then Some data else None)
  ∧ (∀ h, MultiEncryptedSecureData.exists_ m' h = bool_decide (h ∈ s))
  ∧ MultiEncryptedSecureData.unwrap_shared m' shared = Ok (Some data).
Proof.
  intros m' s.
  destruct (new_ext_shares _ _ _ _ _ _ _ _ Hring Howner Hnew)
    as ([bs Hser] & Hs & d & Hde & Hf & Hdec & Hh).
  destruct (run_members_ok _ _ bs ops _ _ Hring Hser Hops Hs) as [[Hdom Hkey] Hdata].
  fold m' s in Hdom, Hkey, Hdata. destruct Hdata as (<- & <- & <- & <-) in Hf, Hdec, Hh.
  split; [|split].
  - unfold MultiEncryptedSecureData.unwrap. specialize (Hdom (PrivateEncryptKey.hash k)).
    destruct (msd_members m' !! _) as [a|] eqn:Ea.
    + rewrite decide_True by (apply Hdom; eauto). rewrite (Hkey _ _ Hk Ea).
      cbn [mbind result_bind]. rewrite Hdec, Hf. unfold of_bytes. by rewrite Hde.
    + rewrite decide_False; [done|]. intros []%Hdom. done.
  - intros h. apply bool_decide_ext, Hdom.
  - unfold MultiEncryptedSecureData.unwrap_shared. rewrite Hdec, Hf.
    rewrite bool_decide_eq_true_2 by done. cbn [negb]. unfold of_bytes. by rewrite Hde.
Qed.

(** C33. A shared secret opens for its members and for nobody else.  Start from [new_ext]
    by any owner and run any sequence of grants and revocations with keys of a ring of
    generated pairs: the table refines the set in which a grant adds its key when the
    referrer is a member and a revocation deletes one.  Afterwards each key of the ring
    that is a member unwraps exactly the original data, each other key gets [None], and
    the shared key itself still opens the data. *)
Theorem shared_secret_members {T : Type} `{!Serde T} (ring : list PrivateEncryptKey)
  (owner k : PrivateEncryptKey) (shared : EncryptKey) (meta : string) (data : T)
  (rnd_member rnd_iv : bytes) (m : MultiEncryptedSecureData) (ops : list MemberOp)
  (Hring : key_ring ring) (Howner : owner ∈ ring) (Hk : k ∈ ring)
  (Hnew : MultiEncryptedSecureData.new_ext rnd_member rnd_iv
            (PrivateEncryptKey.as_public_key owner) shared meta data = Ok m)
  (Hops : Forall (op_from ring) ops) :
  let m' := foldl (flip run_member) m ops in
  let s := foldl (flip spec_member) {[PrivateEncryptKey.hash owner]} ops in
  MultiEncryptedSecureData.unwrap m' k
    = Ok (if decide (PrivateEncryptKey.hash k ∈ s) then Some data else None)
  ∧ (∀ h, MultiEncryptedSecureData.exists_ m' h = bool_decide (h ∈ s))
  ∧ MultiEncryptedSecureData.unwrap_shared m' shared = Ok (Some data).
Proof. by apply new_ext_members with (1 := Hring) (2 := Howner) (4 := Hnew). Qed.
End members.

(** ** Concrete inputs *)

#[local] Existing Instance toy_prims.

(** A key encapsulation of the documented shape: the ciphertext is the randomness, and
    the secret joins it to the key. *)
#[local] Program Instance toy_kem : KemPrims := {
  ntru_public_key_bytes l := match l with Bit128 => 1 | Bit192 => 2 | Bit256 => 3 end%nat;
  ntru_ciphertext_bytes _ := 20%nat;
  ntru_pair _ pk sk := pk = sk;
  ntru_encapsulate _ pk rnd := Some (pk ++ fit 20 rnd, fit 20 rnd);
  ntru_decapsulate _ ct sk := Some (sk ++ ct);
}.
Next Obligation.
  intros l pk sk rnd ->. eexists _, _. split; [done|]. split; [apply fit_length | done].
Qed.

#[local] Program Instance toy_serde_bytes : Serde bytes := {
  serialize _ bs := Some bs;
  deserialize _ bs := Some bs;
}.
Next Obligation. intros t bs. simpl. congruence. Qed.

Definition toy_key_bytes (k : EncryptKey) : bytes :=
  match k with Aes128 v => x00 :: v | Aes192 v => x01 :: v | Aes256 v => x02 :: v end.

Definition toy_bytes_key (bs : bytes) : option EncryptKey :=
  match bs with
  | x00 :: v => Some (Aes128 v)
  | x01 :: v => Some (Aes192 v)
  | x02 :: v => Some (Aes256 v)
  | _ => None
  end.

#[local] Program Instance toy_serde_key : Serde EncryptKey := {
  serialize _ k := Some (toy_key_bytes k);
  deserialize _ bs := toy_bytes_key bs;
}.
Next Obligation. intros [] bs [= <-]; reflexivity. Qed.

Definition alice : PrivateEncryptKey := PrivateEncryptKey.generate ([x0a], [x0a]) Bit128.
Definition bob : PrivateEncryptKey := PrivateEncryptKey.generate ([x0b], [x0b]) Bit192.

(** A key derived for Alice's pair. *)
Definition sample_derived : DerivedEncryptKey :=
  {| dk_inner := match PublicEncryptKey.encrypt [x05] (PrivateEncryptKey.as_public_key alice)
                         (EncryptKey.value (toy_key x0c)) with
                 | Ok r => r
                 | Err _ => {| er_iv := {| iv_bytes := [] |}; er_data := [] |}
                 end |}.

Lemma change_private_keeps_derived_key_witness :
  ∃ d', DerivedPrivate.change_private [x07] sample_derived alice
          (PrivateEncryptKey.as_public_key bob) = Ok d'
        ∧ DerivedPrivate.transmute_private d' bob = Ok (toy_key x0c).
Proof. apply change_private_keeps_derived_key; [reflexivity | vm_compute; reflexivity]. Defined.

Lemma signed_data_verifies_witness :
  let sk := PrivateFalcon512 (PublicFalcon512 [x01; x02]) [x01; x02] in
  ∃ d, SignedProtectedData.new sk [x05; x06] = Ok d
       ∧ SignedProtectedData.verify d (PrivateSignKey.as_public_key sk) = Ok true
       ∧ spd_data d = [x05; x06].
Proof. intros sk. apply (signed_data_verifies sk [x05; x06] [x05; x06]); reflexivity. Defined.

Definition sample_secret : result SecureError MultiEncryptedSecureData :=
  MultiEncryptedSecureData.new_ext [x01] [x02] (PrivateEncryptKey.as_public_key alice)
    (toy_key x2a) "alice" [x05; x06; x07].

(** Alice shares with Bob, who then revokes Alice. *)
Definition sample_grants : list MemberOp :=
  [Grant [x03] bob "bob" alice; Revoke (PrivateEncryptKey.hash alice)].

Lemma shared_secret_members_witness :
  ∃ m, sample_secret = Ok m
    ∧ MultiEncryptedSecureData.unwrap (foldl (flip run_member) m sample_grants) bob
      = Ok (Some [x05; x06; x07]).
Proof.
  destruct sample_secret as [m|e] eqn:E; [|vm_compute in E; discriminate E].
  exists m. split; [reflexivity|].
  refine (proj1 (shared_secret_members [alice; bob] alice bob (toy_key x2a) "alice"
                   [x05; x06; x07] [x01] [x02] m sample_grants _ _ _ _ _)).
  - split.
    + intros k [->|[->|[]%elem_of_nil]%elem_of_cons]%elem_of_cons; reflexivity.
    + intros k k' [->|[->|[]%elem_of_nil]%elem_of_cons]%elem_of_cons
        [->|[->|[]%elem_of_nil]%elem_of_cons]%elem_of_cons; intros Hh;
        reflexivity || (vm_compute in Hh; discriminate Hh).
  - left.
  - right. left.
  - exact E.
  - repeat constructor.
Defined.
