(* ===== verification/Meta.v ===== *)
(** * Event metadata

    lib/src/meta, lib/src/header.rs, the data types of lib/src/signature.rs and
    lib/src/time/timestamp.rs: the list of [CoreMetadata] entries every event
    carries, and the queries and updates on it.  The serde formats the metadata is
    written with are the class [MetaSerializer]. *)

From S2P Require Import Prelude LogApi Crypto Codec.

(** ** Data *)

Record ChainTimestamp : Type := { time_since_epoch_ms : Z }.

#[global] Instance ChainTimestamp_eq_dec : EqDecision ChainTimestamp.
Proof. solve_decision. Defined.

Module ChainTimestamp.
(** The derived [PartialOrd]. *)
Definition lt (a b : ChainTimestamp) : bool :=
  bool_decide (time_since_epoch_ms a < time_since_epoch_ms b).

(** A u64 addition: [None] is the overflow panic. *)
Definition inc (t : ChainTimestamp) : option ChainTimestamp :=
  if decide (time_since_epoch_ms t < u64_max)
  then Some {| time_since_epoch_ms := time_since_epoch_ms t + 1 |} else None.

(** [From<u64>] and [Default]. *)
Definition from (val : Z) : ChainTimestamp := {| time_since_epoch_ms := val |}.
Definition default : ChainTimestamp := from 0.
End ChainTimestamp.

Record MetaSignature : Type := {
  sig_hashes : list AteHash;
  sig_signature : bytes;
  sig_public_key_hash : AteHash;
}.

Record MetaSignWith : Type := { sw_keys : list AteHash }.

Inductive ReadOption : Type :=
  | ReadInherit
  | ReadEveryone (key : option EncryptKey)
  | ReadSpecific (hash : AteHash) (derived : DerivedEncryptKey).

Inductive WriteOption : Type :=
  | WriteInherit
  | WriteEveryone
  | WriteNobody
  | WriteSpecific (hash : AteHash)
  | WriteAny (hashes : list AteHash).

Record MetaAuthorization : Type := { ma_read : ReadOption; ma_write : WriteOption }.

Record MetaCollection : Type := { mc_parent_id : PrimaryKey; mc_collection_id : Z }.

Record MetaParent : Type := { mp_vec : MetaCollection }.

Record MetaConfidentiality : Type := {
  conf_hash : ShortHash;
  conf_cache : option ReadOption;
}.

Record MetaDelayedUpload : Type := {
  du_complete : bool;
  du_from : ChainTimestamp;
  du_to : ChainTimestamp;
}.

Record MetaType : Type := { mt_type_name : string }.

Inductive CoreMetadata : Type :=
  | CoreNone
  | CoreData (key : PrimaryKey)
  | CoreTombstone (key : PrimaryKey)
  | CoreAuthorization (auth : MetaAuthorization)
  | CoreInitializationVector (iv : InitializationVector)
  | CorePublicKey (pk : PublicSignKey)
  | CoreEncryptedPrivateKey (epk : EncryptedPrivateKey)
  | CoreConfidentiality (conf : MetaConfidentiality)
  | CoreCollection (col : MetaCollection)
  | CoreParent (parent : MetaParent)
  | CoreTimestamp (time : ChainTimestamp)
  | CoreSignature (sig : MetaSignature)
  | CoreSignWith (sign_with : MetaSignWith)
  | CoreAuthor (author : string)
  | CoreType (ty : MetaType)
  | CoreReply (key : PrimaryKey)
  | CoreDelayedUpload (up : MetaDelayedUpload).

Record Metadata : Type := { meta_core : list CoreMetadata }.

#[global] Instance ReadOption_eq_dec : EqDecision ReadOption.
Proof. solve_decision. Defined.
#[global] Instance WriteOption_eq_dec : EqDecision WriteOption.
Proof. solve_decision. Defined.
#[global] Instance MetaCollection_eq_dec : EqDecision MetaCollection.
Proof. solve_decision. Defined.
#[global] Program Instance MetaCollection_countable : Countable MetaCollection :=
  inj_countable' (λ c, (mc_parent_id c, mc_collection_id c))
    (λ p, {| mc_parent_id := p.1; mc_collection_id := p.2 |}) _.
Next Obligation. by intros []. Qed.
#[global] Instance MetaParent_eq_dec : EqDecision MetaParent.
Proof. solve_decision. Defined.

(** ** Options *)

Module ReadOption.
(** The two draws are those of [DerivedEncryptKey::new]. *)
Definition from_key `{CryptoPrims} (rnd_key rnd_iv : bytes) (key : EncryptKey) : ReadOption :=
  ReadSpecific (EncryptKey.hash key) (DerivedEncryptKey.new rnd_key rnd_iv key).
End ReadOption.

Module WriteOption.
Definition vals (w : WriteOption) : gset AteHash :=
  match w with
  | WriteSpecific a => {[ a ]}
  | WriteAny hashes => list_to_set hashes
  | _ => ∅
  end.

(** A hash set is turned into a vector in its iteration order, which is
    unspecified; [elements] is one such order. *)
Definition or (self other : WriteOption) : WriteOption :=
  match other with
  | WriteInherit => self
  | WriteAny keys => WriteAny (elements (vals self ∪ list_to_set keys))
  | WriteSpecific hash =>
      match elements (vals self ∪ {[ hash ]}) with
      | [h] => WriteSpecific h
      | vals => WriteAny vals
      end
  | a => a
  end.
End WriteOption.

Module MetaAuthorization.
Definition is_relevant (a : MetaAuthorization) : bool :=
  bool_decide (ma_read a ≠ ReadInherit) || bool_decide (ma_write a ≠ WriteInherit).
End MetaAuthorization.

(** ** Metadata *)

Module Metadata.
(** [Default]. *)
Definition default : Metadata := {| meta_core := [] |}.

Definition push (m : Metadata) (c : CoreMetadata) : Metadata :=
  {| meta_core := meta_core m ++ [c] |}.

Definition for_data (key : PrimaryKey) : Metadata := push default (CoreData key).

Definition get_data_key (m : Metadata) : option PrimaryKey :=
  find_map (λ c, match c with
    | CoreData k => Some k
    | CoreTombstone k => Some k
    | _ => None end) (meta_core m).

Fixpoint set_data_key_core (core : list CoreMetadata) (key : PrimaryKey) : list CoreMetadata :=
  match core with
  | [] => [CoreData key]
  | CoreData k :: rest => if decide (k = key) then CoreData k :: rest else CoreData key :: rest
  | c :: rest => c :: set_data_key_core rest key
  end.

Definition set_data_key (m : Metadata) (key : PrimaryKey) : Metadata :=
  {| meta_core := set_data_key_core (meta_core m) key |}.

Definition get_authorization (m : Metadata) : option MetaAuthorization :=
  find_map (λ c, match c with CoreAuthorization a => Some a | _ => None end) (meta_core m).

Definition get_parent (m : Metadata) : option MetaParent :=
  find_map (λ c, match c with CoreParent a => Some a | _ => None end) (meta_core m).

Definition get_collections (m : Metadata) : list MetaCollection :=
  omap (λ c, match c with CoreCollection a => Some a | _ => None end) (meta_core m).

Definition get_confidentiality (m : Metadata) : option MetaConfidentiality :=
  find_map (λ c, match c with CoreConfidentiality a => Some a | _ => None end) (meta_core m).

Definition is_iv (c : CoreMetadata) : bool :=
  match c with CoreInitializationVector _ => true | _ => false end.

(** [rnd] is what the generator fills the vector with. *)
Definition generate_iv (rnd : bytes) (m : Metadata) : InitializationVector * Metadata :=
  let core := List.filter (λ c, negb (is_iv c)) (meta_core m) in
  let iv := {| iv_bytes := fit 16 rnd |} in
  (iv, {| meta_core := core ++ [CoreInitializationVector iv] |}).

(** [None] is [CryptoErrorKind::NoIvPresent]. *)
Definition get_iv (m : Metadata) : option InitializationVector :=
  find_map (λ c, match c with CoreInitializationVector iv => Some iv | _ => None end)
    (meta_core m).

Definition core_needs_signature (c : CoreMetadata) : bool :=
  match c with
  | CorePublicKey _ | CoreSignature _ | CoreEncryptedPrivateKey _
  | CoreConfidentiality _ | CoreDelayedUpload _ => false
  | _ => true
  end.

Definition needs_signature (m : Metadata) : bool := existsb core_needs_signature (meta_core m).

Definition strip_signatures (m : Metadata) : Metadata :=
  {| meta_core := List.filter
       (λ c, match c with CoreSignature _ => false | _ => true end) (meta_core m) |}.

Definition strip_public_keys (m : Metadata) : Metadata :=
  {| meta_core := List.filter
       (λ c, match c with CorePublicKey _ => false | _ => true end) (meta_core m) |}.

Definition get_sign_with (m : Metadata) : option MetaSignWith :=
  find_map (λ c, match c with CoreSignWith a => Some a | _ => None end) (meta_core m).

Definition get_timestamp (m : Metadata) : option ChainTimestamp :=
  find_map (λ c, match c with CoreTimestamp a => Some a | _ => None end) (meta_core m).

Definition get_type_name (m : Metadata) : option MetaType :=
  find_map (λ c, match c with CoreType t => Some t | _ => None end) (meta_core m).

Definition get_public_key (m : Metadata) : option PublicSignKey :=
  find_map (λ c, match c with CorePublicKey t => Some t | _ => None end) (meta_core m).

(** [type_name] is [std::any::type_name::<T>()]. *)
Definition is_of_type (type_name : string) (m : Metadata) : bool :=
  match get_type_name m with
  | Some t => bool_decide (mt_type_name t = type_name)
  | None => false
  end.

Fixpoint set_type_name_core (type_name : string) (core : list CoreMetadata) : list CoreMetadata :=
  match core with
  | [] => [CoreType {| mt_type_name := type_name |}]
  | CoreType t :: rest => CoreType {| mt_type_name := type_name |} :: rest
  | c :: rest => c :: set_type_name_core type_name rest
  end.

Definition set_type_name (type_name : string) (m : Metadata) : Metadata :=
  {| meta_core := set_type_name_core type_name (meta_core m) |}.

Definition is_reply_to_what (m : Metadata) : option PrimaryKey :=
  find_map (λ c, match c with CoreReply a => Some a | _ => None end) (meta_core m).

Definition get_delayed_upload (m : Metadata) : option MetaDelayedUpload :=
  find_map (λ c, match c with CoreDelayedUpload k => Some k | _ => None end) (meta_core m).

Definition include_in_history (m : Metadata) : bool :=
  match get_delayed_upload m with Some _ => false | None => true end.

Definition is_empty (m : Metadata) : bool :=
  match meta_core m with [] => true | _ => false end.

Definition get_tombstone (m : Metadata) : option PrimaryKey :=
  find_map (λ c, match c with CoreTombstone k => Some k | _ => None end) (meta_core m).

Definition add_tombstone (m : Metadata) (key : PrimaryKey) : Metadata :=
  if existsb (λ c, match c with CoreTombstone k => bool_decide (k = key) | _ => false end)
       (meta_core m)
  then m else push m (CoreTombstone key).

Definition get_signature (m : Metadata) : option MetaSignature :=
  find_map (λ c, match c with CoreSignature s => Some s | _ => None end) (meta_core m).
End Metadata.

(** ** Serialization *)

(** [MetaConfidentiality]'s cache is [#[serde(skip)]]: a round trip forgets it. *)
Definition forget_cache_core (c : CoreMetadata) : CoreMetadata :=
  match c with
  | CoreConfidentiality a =>
      CoreConfidentiality {| conf_hash := conf_hash a; conf_cache := None |}
  | c => c
  end.

Definition forget_cache (m : Metadata) : Metadata :=
  {| meta_core := forget_cache_core <$> meta_core m |}.

(** [SerializationFormat::serialize] and [deserialize_ref] at [Metadata], which are
    the serde formats' own.  The laws are their round trip, and that the cache, which is
    marked to be skipped, makes no difference and comes back empty, and that decoding fails with
    an error of the format. *)
Class MetaSerializer : Type := {
  meta_serialize : SerializationFormat → Metadata → result SerializationErrorKind bytes;
  meta_deserialize : SerializationFormat → bytes → result SerializationErrorKind Metadata;
  meta_round_trip : ∀ f m bs,
    meta_serialize f m = Ok bs → meta_deserialize f bs = Ok (forget_cache m);
  meta_serialize_forget : ∀ f m, meta_serialize f (forget_cache m) = meta_serialize f m;
  meta_deserialize_forget : ∀ f bs m, meta_deserialize f bs = Ok m → forget_cache m = m;
  meta_deserialize_error : ∀ f bs e, meta_deserialize f bs = Err e → e = Serde;
}.

(** ** Lemmas *)

(** A query that does not look at confidentiality entries does not see the cache. *)
Lemma find_map_forget_cache {B} (f : CoreMetadata → option B) m :
  (∀ c, f (forget_cache_core c) = f c) →
  find_map f (meta_core (forget_cache m)) = find_map f (meta_core m).
Proof.
  intros Hf. simpl. induction (meta_core m) as [|c core IH]; simpl; [done|].
  rewrite Hf. destruct (f c); [done|exact IH].
Qed.

Lemma forget_cache_idem m : forget_cache (forget_cache m) = forget_cache m.
Proof.
  unfold forget_cache. simpl. f_equal. rewrite <- list_fmap_compose.
  apply list_fmap_ext. intros i c _. by destruct c.
Qed.

Lemma get_data_key_forget m : Metadata.get_data_key (forget_cache m) = Metadata.get_data_key m.
Proof. apply find_map_forget_cache. by intros []. Qed.

(** ** Theorems *)

(** Combining write permissions never loses a key: for a [Specific] or [Any]
    operand the keys of the result are exactly the keys of both, [Inherit] is
    neutral, and [Everyone] and [Nobody] on the right replace what was there. *)
Theorem write_option_or_keys (a b : WriteOption) :
  match b with
  | WriteInherit => WriteOption.or a b = a
  | WriteSpecific _ | WriteAny _ =>
      WriteOption.vals (WriteOption.or a b) = WriteOption.vals a ∪ WriteOption.vals b
  | WriteEveryone | WriteNobody => WriteOption.or a b = b
  end.
Proof.
  destruct b as [| | |h|hs]; try done; cbn [WriteOption.or WriteOption.vals].
  - pose proof (list_to_set_elements_L (WriteOption.vals a ∪ {[h]})) as E.
    destruct (elements (WriteOption.vals a ∪ {[h]})) as [|x [|y l]] eqn:Hel;
      cbn [WriteOption.vals]; rewrite <- E; try done.
    symmetry. apply (right_id_L ∅ (∪)).
  - by rewrite list_to_set_elements_L.
Qed.

(** Setting the data key, the type or the initialization vector of an event is
    read back by the matching query: the key whenever no tombstone stands in front
    of it, the type and the vector always, and each leaves one entry of its kind in
    place of the old. *)
Theorem metadata_set_get (m : Metadata) (key : PrimaryKey) (ty : string) (rnd : bytes)
  (Hnt : Metadata.get_tombstone m = None) :
  Metadata.get_data_key (Metadata.set_data_key m key) = Some key
  ∧ Metadata.is_of_type ty (Metadata.set_type_name ty m) = true
  ∧ Metadata.get_iv (snd (Metadata.generate_iv rnd m)) = Some (fst (Metadata.generate_iv rnd m))
  ∧ length (List.filter Metadata.is_iv (meta_core (snd (Metadata.generate_iv rnd m)))) = 1%nat.
Proof.
  repeat split.
  - unfold Metadata.get_data_key, Metadata.set_data_key, Metadata.get_tombstone in *. simpl.
    induction (meta_core m) as [|c core IH]; [done|].
    destruct c; simpl in *; try done; auto. case_decide; simpl; congruence.
  - clear Hnt. unfold Metadata.is_of_type, Metadata.get_type_name, Metadata.set_type_name. simpl.
    induction (meta_core m) as [|c core IH]; [by apply bool_decide_eq_true|].
    destruct c; simpl in *; try done. by apply bool_decide_eq_true.
  - clear Hnt. unfold Metadata.get_iv, Metadata.generate_iv. simpl.
    induction (meta_core m) as [|c core IH]; [done|]. by destruct c.
  - clear Hnt. simpl. induction (meta_core m) as [|c core IH]; [done|]. by destruct c.
Qed.

(** ** A concrete serializer *)

(** Entries that hold one u64, as a tag byte and the integer, and parents of the first
    collection and authorizations that name no key: enough of a format to evaluate the
    definitions on concrete events; it refuses other entries. *)
Definition toy_core (c : CoreMetadata) : option bytes :=
  match c with
  | CoreData k => if decide (0 ≤ pk_key k ≤ u64_max) then Some (x01 :: to_be 8 (pk_key k)) else None
  | CoreTombstone k =>
      if decide (0 ≤ pk_key k ≤ u64_max) then Some (x02 :: to_be 8 (pk_key k)) else None
  | CoreTimestamp t =>
      if decide (0 ≤ time_since_epoch_ms t ≤ u64_max)
      then Some (x03 :: to_be 8 (time_since_epoch_ms t)) else None
  | CoreParent {| mp_vec := {| mc_parent_id := k; mc_collection_id := 1 |} |} =>
      if decide (0 ≤ pk_key k ≤ u64_max) then Some (x04 :: to_be 8 (pk_key k)) else None
  | CoreAuthorization {| ma_read := ReadEveryone None; ma_write := WriteNobody |} =>
      Some (x05 :: to_be 8 0)
  | CoreAuthorization {| ma_read := ReadEveryone None; ma_write := WriteEveryone |} =>
      Some (x06 :: to_be 8 0)
  | _ => None
  end.

Definition toy_uncore (bs : bytes) : option CoreMetadata :=
  match bs with
  | x01 :: k => Some (CoreData {| pk_key := from_be k |})
  | x02 :: k => Some (CoreTombstone {| pk_key := from_be k |})
  | x03 :: k => Some (CoreTimestamp {| time_since_epoch_ms := from_be k |})
  | x04 :: k => Some (CoreParent {| mp_vec := {| mc_parent_id := {| pk_key := from_be k |};
                                                 mc_collection_id := 1 |} |})
  | x05 :: _ => Some (CoreAuthorization {| ma_read := ReadEveryone None; ma_write := WriteNobody |})
  | x06 :: _ =>
      Some (CoreAuthorization {| ma_read := ReadEveryone None; ma_write := WriteEveryone |})
  | _ => None
  end.

Fixpoint toy_decode (fuel : nat) (bs : bytes) : option (list CoreMetadata) :=
  match fuel, bs with
  | _, [] => Some []
  | O, _ => None
  | S fuel, _ => c ← toy_uncore (take 9 bs); cs ← toy_decode fuel (drop 9 bs); Some (c :: cs)
  end.

Definition toy_encode (core : list CoreMetadata) : option bytes :=
  (@concat byte) <$> mapM toy_core core.

Lemma toy_core_inv c bs : toy_core c = Some bs →
  length bs = 9%nat ∧ toy_uncore bs = Some c ∧ forget_cache_core c = c.
Proof.
  assert (∀ z, 0 ≤ z ≤ u64_max → from_be (to_be 8 z) = z) as Hz.
  { unfold u64_max. intros z ?. apply from_be_to_be. simpl. lia. }
  destruct c; cbn [toy_core]; repeat (case_match; try done); try case_decide; try done;
    intros E%(inj Some); subst bs; try done; cbn [length]; rewrite to_be_length;
    (split; [done|split; [|done]]); unfold toy_uncore; rewrite Hz by done;
    repeat match goal with x : PrimaryKey |- _ => destruct x | x : ChainTimestamp |- _ => destruct x end;
    simplify_eq/=; done.
Qed.

Lemma toy_uncore_forget bs c : toy_uncore bs = Some c → forget_cache_core c = c.
Proof. destruct bs as [|[] bs]; try done; by intros [= <-]. Qed.

Lemma toy_decode_forget fuel : ∀ bs core,
  toy_decode fuel bs = Some core → forget_cache_core <$> core = core.
Proof.
  induction fuel as [|fuel IH]; intros [|b bs] core; cbn [toy_decode]; try by intros [= <-].
  intros (c & Hc & (cs & Hcs & [= <-])%bind_Some)%bind_Some.
  rewrite fmap_cons. f_equal; [by eapply toy_uncore_forget|by eapply IH].
Qed.

Lemma toy_round_trip core bs : toy_encode core = Some bs →
  toy_decode (length bs) bs = Some core ∧ forget_cache_core <$> core = core.
Proof.
  intros (bss & Hm & ->)%fmap_Some. revert Hm. rewrite mapM_Some.
  induction 1 as [|c b core bss Hc _ IH]; [done|].
  apply toy_core_inv in Hc as (Hl & Hu & Hf).
  destruct IH as [IH1 IH2]. split; [|rewrite fmap_cons; by rewrite Hf, IH2].
  simpl. destruct b as [|x b]; [done|]. cbn [length app toy_decode].
  rewrite (take_app_length' (x :: b) (concat bss) 9 (eq_sym Hl) : take 9 (x :: b ++ concat bss) = x :: b).
  rewrite (drop_app_length' (x :: b) (concat bss) 9 (eq_sym Hl) : drop 9 (x :: b ++ concat bss) = concat bss).
  rewrite Hu. cbn [mbind option_bind].
  assert (∀ fuel n bs l, toy_decode n bs = Some l → (n ≤ fuel)%nat → toy_decode fuel bs = Some l)
    as Hmono.
  { clear. induction fuel as [|fuel IH]; intros [|n] bs l; destruct bs as [|y bs];
      cbn [toy_decode]; try done; try lia.
    destruct (toy_uncore (take 9 (y :: bs))); [|done]. cbn [mbind option_bind].
    destruct (toy_decode n (drop 9 (y :: bs))) as [l'|] eqn:E; [|done].
    intros Hl Hn. erewrite IH; [done|exact E|lia]. }
  erewrite Hmono; [reflexivity|exact IH1|]. rewrite length_app. lia.
Qed.

#[local] Program Instance toy_serializer : MetaSerializer := {
  meta_serialize _ m :=
    match toy_encode (meta_core m) with Some bs => Ok bs | None => Err Serde end;
  meta_deserialize _ bs :=
    match toy_decode (length bs) bs with
    | Some core => Ok {| meta_core := core |}
    | None => Err Serde
    end;
}.
Next Obligation.
  intros f m bs. simpl. destruct (toy_encode (meta_core m)) as [bs'|] eqn:E; [|done].
  intros [= <-]. apply toy_round_trip in E as [-> E]. unfold forget_cache. by rewrite E.
Qed.
Next Obligation.
  intros f [core]. simpl. assert (mapM toy_core (forget_cache_core <$> core) = mapM toy_core core) as E.
  { induction core as [|c core IH]; [done|]. rewrite fmap_cons. cbn [mapM]. rewrite IH. by destruct c. }
  unfold toy_encode. by rewrite E.
Qed.
Next Obligation.
  intros f bs m. simpl. destruct (toy_decode _ _) as [core|] eqn:E; [|done].
  intros [= <-]. unfold forget_cache. cbn. by rewrite (toy_decode_forget _ _ _ E).
Qed.
Next Obligation. intros f bs e. cbn. destruct (toy_decode _ _); by intros [=]. Qed.

Lemma metadata_set_get_witness :
  Metadata.get_data_key (Metadata.set_data_key (Metadata.for_data (PrimaryKey.new 1))
    (PrimaryKey.new 2)) = Some (PrimaryKey.new 2).
Proof.
  refine (proj1 (metadata_set_get (Metadata.for_data (PrimaryKey.new 1)) (PrimaryKey.new 2)
    "t" [] _)). reflexivity.
Defined.
