(* ===== verification/Time.v ===== *)
(** * Time

    lib/src/time: the SNTP exchange of ntp.rs that measures how far the system clock is
    off, the worker of worker.rs that keeps the best answer, and the time keeper of
    keeper.rs the rest of the program asks for the time.

    The system clock is an argument: the nanoseconds since the epoch it shows, or [None]
    when it shows a time before the epoch.  Arithmetic on machine integers wraps, as it
    does in a release build; the target is little-endian. *)

From S2P Require Import Prelude LogApi Meta.

(** ** Machine arithmetic *)

Definition wrap_u32 (z : Z) : Z := z mod 2 ^ 32.
Definition wrap_u64 (z : Z) : Z := z mod 2 ^ 64.

(** [as i64] on what fits 64 bits, and the wrap-around of [i64] operations. *)
Definition wrap_i64 (z : Z) : Z := (z + 2 ^ 63) mod 2 ^ 64 - 2 ^ 63.

Lemma wrap_u64_small z : 0 ≤ z < 2 ^ 64 → wrap_u64 z = z.
Proof. apply Z.mod_small. Qed.

Lemma wrap_i64_small z : - 2 ^ 63 ≤ z < 2 ^ 63 → wrap_i64 z = z.
Proof. intros Hz. unfold wrap_i64. rewrite Z.mod_small; lia. Qed.

Lemma wrap_i64_unique z k : - 2 ^ 63 ≤ z + k * 2 ^ 64 < 2 ^ 63 → wrap_i64 z = z + k * 2 ^ 64.
Proof.
  intros Hz. unfold wrap_i64.
  rewrite <- (Z.mod_unique_pos (z + 2 ^ 63) (2 ^ 64) (- k) (z + k * 2 ^ 64 + 2 ^ 63)); lia.
Qed.

Lemma wrap_i64_congr z : ∃ k, wrap_i64 z = z + k * 2 ^ 64 ∧ - 2 ^ 63 ≤ z + k * 2 ^ 64 < 2 ^ 63.
Proof.
  unfold wrap_i64. pose proof (Z.mod_pos_bound (z + 2 ^ 63) (2 ^ 64) ltac:(lia)) as Hb.
  pose proof (Z.div_mod (z + 2 ^ 63) (2 ^ 64) ltac:(lia)) as Hd.
  exists (- ((z + 2 ^ 63) / 2 ^ 64)). lia.
Qed.

(** Differences of wrapped values are differences of the values, wrapped. *)
Lemma wrap_i64_sub a b : wrap_i64 (wrap_i64 a - wrap_i64 b) = wrap_i64 (a - b).
Proof.
  destruct (wrap_i64_congr a) as (ka & -> & _), (wrap_i64_congr b) as (kb & -> & _).
  destruct (wrap_i64_congr (a - b)) as (k & -> & Hk).
  rewrite (wrap_i64_unique _ (k - ka + kb)); lia.
Qed.

(** Removes the wrap-arounds that do not happen, from the inside out. *)
Ltac unwrap :=
  repeat match goal with
  | |- context [wrap_u64 ?z] =>
      lazymatch z with
      | context [wrap_u64 _] => fail
      | context [wrap_i64 _] => fail
      | _ => rewrite (wrap_u64_small z) by lia
      end
  | |- context [wrap_i64 ?z] =>
      lazymatch z with
      | context [wrap_u64 _] => fail
      | context [wrap_i64 _] => fail
      | _ => rewrite (wrap_i64_small z) by lia
      end
  end.

(** [uN::from_le_bytes]. *)
Definition from_le (bs : bytes) : Z := from_be (rev bs).

(** ** Errors *)

(** [TimeErrorKind].  Times are nanoseconds since the epoch.  [TimePanic] is not an error
    of the code: it is the panic of a subtraction of durations below zero. *)
Inductive TimeErrorKind : Type :=
  | TimeIO (e : IoErrorKind)
  | SystemTimeError
  | BeyondTolerance (tolerance : Z)
  | NoTimestamp
  | OutOfBounds (cursor timestamp : Z)
  | TimePanic.

(** ** Packets *)

Record NtpPacket : Type := {
  np_li_vn_mode : Z;
  np_stratum : Z;
  np_poll : Z;
  np_precision : Z;
  np_root_delay : Z;
  np_root_dispersion : Z;
  np_ref_id : Z;
  np_ref_timestamp : Z;
  np_origin_timestamp : Z;
  np_recv_timestamp : Z;
  np_tx_timestamp : Z;
}.

Record NtpResult : Type := {
  nr_sec : Z;
  nr_nsec : Z;
  nr_roundtrip : Z;
  nr_offset : Z;
  nr_accurate : bool;
}.

Definition NSEC_IN_SEC : Z := 1000000000.
Definition NTP_TIMESTAMP_DELTA : Z := 2208988800.

Module NtpResult.
Definition new (sec nsec roundtrip offset : Z) (accurate : bool) : NtpResult :=
  let residue := nsec / NSEC_IN_SEC in
  {| nr_sec := wrap_u32 (sec + residue); nr_nsec := nsec mod NSEC_IN_SEC;
     nr_roundtrip := roundtrip; nr_offset := offset; nr_accurate := accurate |}.
End NtpResult.

(** [as i8] and [as u8] between the byte and the signed field. *)
Definition i8_of_byte (b : byte) : Z :=
  let z := Z_of_byte b in if decide (z < 128) then z else z - 256.

(** The value a network-order field of [w] bytes has: the bytes are read as the machine
    orders them, and [ntohl] ([to_be]) then swaps the value. *)
Definition swap_bytes (w : nat) (z : Z) : Z := from_le (to_be w z).

(** The bytes [from..to] of the packet. *)
Definition field (from to : nat) (raw : bytes) : bytes := take (to - from) (drop from raw).

Module NtpPacket.
Definition SNTP_CLIENT_MODE : Z := 3.
Definition SNTP_VERSION : Z := Z.shiftl 4 3.

(** [tx_timestamp] is [get_ntp_timestamp]. *)
Definition new (tx_timestamp : Z) : NtpPacket :=
  {| np_li_vn_mode := Z.lor SNTP_CLIENT_MODE SNTP_VERSION;
     np_stratum := 0; np_poll := 0; np_precision := 0; np_root_delay := 0;
     np_root_dispersion := 0; np_ref_id := 0; np_ref_timestamp := 0;
     np_origin_timestamp := 0; np_recv_timestamp := 0; np_tx_timestamp := tx_timestamp |}.

(** [From<RawNtpPacket> for NtpPacket], on the 48 bytes of a packet. *)
Definition from_raw (raw : bytes) : NtpPacket :=
  {| np_li_vn_mode := Z_of_byte (nth 0 raw x00);
     np_stratum := Z_of_byte (nth 1 raw x00);
     np_poll := i8_of_byte (nth 2 raw x00);
     np_precision := i8_of_byte (nth 3 raw x00);
     np_root_delay := from_le (field 4 8 raw);
     np_root_dispersion := from_le (field 8 12 raw);
     np_ref_id := from_le (field 12 16 raw);
     np_ref_timestamp := from_le (field 16 24 raw);
     np_origin_timestamp := from_le (field 24 32 raw);
     np_recv_timestamp := from_le (field 32 40 raw);
     np_tx_timestamp := from_le (field 40 48 raw) |}.

(** [From<&NtpPacket> for RawNtpPacket]. *)
Definition to_raw (p : NtpPacket) : bytes :=
  [byte_of_Z (np_li_vn_mode p); byte_of_Z (np_stratum p); byte_of_Z (np_poll p);
   byte_of_Z (np_precision p)]
  ++ to_be 4 (np_root_delay p) ++ to_be 4 (np_root_dispersion p) ++ to_be 4 (np_ref_id p)
  ++ to_be 8 (np_ref_timestamp p) ++ to_be 8 (np_origin_timestamp p)
  ++ to_be 8 (np_recv_timestamp p) ++ to_be 8 (np_tx_timestamp p).

Definition convert_from_network (p : NtpPacket) : NtpPacket :=
  {| np_li_vn_mode := np_li_vn_mode p; np_stratum := np_stratum p; np_poll := np_poll p;
     np_precision := np_precision p;
     np_root_delay := swap_bytes 4 (np_root_delay p);
     np_root_dispersion := swap_bytes 4 (np_root_dispersion p);
     np_ref_id := swap_bytes 4 (np_ref_id p);
     np_ref_timestamp := swap_bytes 8 (np_ref_timestamp p);
     np_origin_timestamp := swap_bytes 8 (np_origin_timestamp p);
     np_recv_timestamp := swap_bytes 8 (np_recv_timestamp p);
     np_tx_timestamp := swap_bytes 8 (np_tx_timestamp p) |}.
End NtpPacket.

(** [get_ntp_timestamp]: seconds in the upper half, microseconds in the lower. *)
Definition get_ntp_timestamp (now : Z) : Z :=
  let secs := now / NSEC_IN_SEC in
  let micros := now mod NSEC_IN_SEC / 1000 in
  wrap_u64 (wrap_u64 (Z.shiftl (secs + NTP_TIMESTAMP_DELTA) 32) + micros).

(** ** The exchange *)

Definition shifter (val mask shift : Z) : Z := Z.shiftr (Z.land val mask) shift.

Definition process_response (req : NtpPacket) (resp : bytes) (recv_timestamp : Z)
    : result string NtpResult :=
  let packet := NtpPacket.convert_from_network (NtpPacket.from_raw resp) in
  if decide (np_tx_timestamp req ≠ np_origin_timestamp packet)
  then Err "Incorrect origin timestamp" else
  let mode := shifter (np_li_vn_mode packet) 7 0 in
  let li := shifter (np_li_vn_mode packet) 192 6 in
  let resp_version := shifter (np_li_vn_mode packet) 56 3 in
  let req_version := shifter (np_li_vn_mode req) 56 3 in
  if decide (mode ≠ 4 ∧ mode ≠ 5) then Err "Incorrect MODE value" else
  if decide (3 < li) then Err "Incorrect LI value" else
  if decide (req_version ≠ resp_version) then Err "Incorrect response version" else
  if decide (np_stratum packet = 0) then Err "Incorrect STRATUM headers" else
  let delta :=
    wrap_i64 (wrap_i64 (wrap_u64 (recv_timestamp - np_origin_timestamp packet))
              - wrap_i64 (wrap_u64 (np_tx_timestamp packet - np_recv_timestamp packet))) in
  let theta :=
    Z.quot
      (wrap_i64
         (wrap_i64 (wrap_i64 (np_recv_timestamp packet) - wrap_i64 (np_origin_timestamp packet))
          + wrap_i64 (wrap_i64 recv_timestamp - wrap_i64 (np_tx_timestamp packet))))
      2 in
  let seconds := wrap_u32 (Z.shiftr (np_tx_timestamp packet) 32) in
  let nsec := wrap_u32 (Z.land (np_tx_timestamp packet) u32_max) in
  let tx_tm := wrap_u32 (seconds - NTP_TIMESTAMP_DELTA) in
  Ok (NtpResult.new tx_tm nsec (wrap_u64 (Z.abs delta)) theta true).

(** [Duration::from_micros(r.roundtrip()).as_millis() as u32]. *)
Definition ping_ms (r : NtpResult) : Z := wrap_u32 (nr_roundtrip r / 1000).

(** [query_ntp], on the answer of the one request it makes. *)
Definition query_ntp (tolerance_ms : Z) (answer : result IoErrorKind NtpResult)
    : result TimeErrorKind NtpResult :=
  ret ← map_err TimeIO answer;
  let ping := ping_ms ret in
  if decide (tolerance_ms < ping) then Err (BeyondTolerance ping) else Ok ret.

(** The loop of [query_ntp_retry]: [answers] are what the requests return, in order. *)
Fixpoint best_answer (samples : nat) (answers : list (option NtpResult)) (positives : nat)
    (best : option NtpResult) : option NtpResult :=
  match answers with
  | [] => best
  | Some ret :: answers =>
      let current_ping := match best with Some b => nr_roundtrip b | None => u64_max end in
      let best := if decide (nr_roundtrip ret < current_ping) then Some ret else best in
      if decide (samples ≤ positives + 1)%nat then best
      else best_answer samples answers (positives + 1) best
  | None :: answers => best_answer samples answers positives best
  end.

(** [answers] has an answer for each of the [samples] requests. *)
Definition query_ntp_retry (tolerance_ms : Z) (samples : nat) (answers : list (option NtpResult))
    (last : result IoErrorKind NtpResult) : result TimeErrorKind NtpResult :=
  match best_answer samples (take samples answers) 0 None with
  | Some ret => if decide (ping_ms ret ≤ tolerance_ms) then Ok ret
                else query_ntp tolerance_ms last
  | None => query_ntp tolerance_ms last
  end.

(** ** The worker *)

(** The result on the channel, and the loop's variables. *)
Record NtpWorker : Type := { nw_result : NtpResult; nw_best_ping : Z; nw_backoff_time : Z }.

Module NtpWorker.
(** The result the worker starts with, from the system clock. *)
Definition new (now : Z) : NtpWorker :=
  {| nw_result := {| nr_sec := wrap_u32 (now / NSEC_IN_SEC);
                     nr_nsec := wrap_u32 (now mod NSEC_IN_SEC);
                     nr_roundtrip := u64_max; nr_offset := 0; nr_accurate := false |};
     nw_best_ping := u32_max; nw_backoff_time := 50 |}.

(** One turn of the loop. *)
Definition turn (w : NtpWorker) (answer : option NtpResult) : NtpWorker :=
  match answer with
  | Some r =>
      let ping := ping_ms r in
      let accept := bool_decide (nw_best_ping w = u32_max)
                    || bool_decide (ping < wrap_u32 (nw_best_ping w + 50)) in
      {| nw_result := if accept then r else nw_result w;
         nw_best_ping := if accept then ping else nw_best_ping w;
         nw_backoff_time := 50 |}
  | None =>
      let backoff := nw_backoff_time w * 120 / 100 + 50 in
      {| nw_result := nw_result w; nw_best_ping := nw_best_ping w;
         nw_backoff_time := if decide (10000 < backoff) then 10000 else backoff |}
  end.

Definition is_accurate (w : NtpWorker) : bool := nr_accurate (nw_result w).

Definition current_timestamp (w : NtpWorker) (now : option Z) : result TimeErrorKind Z :=
  match now with
  | None => Err SystemTimeError
  | Some since_the_epoch =>
      let offset := nr_offset (nw_result w) in
      if decide (0 ≤ offset) then Ok (since_the_epoch + offset * 1000)
      else if decide (since_the_epoch < - offset * 1000) then Err TimePanic
      else Ok (since_the_epoch - (- offset * 1000))
  end.
End NtpWorker.

(** ** The keeper *)

(** [tk_tolerance] in nanoseconds. *)
Record TimeKeeper : Type := { tk_tolerance : Z; tk_ntp_worker : option NtpWorker }.

Module TimeKeeper.
(** [worker] is the worker of the configured pool, when the configuration asks for it. *)
Definition new (worker : option NtpWorker) (tolerance_ms : Z) : TimeKeeper :=
  {| tk_tolerance := tolerance_ms * 1000000; tk_ntp_worker := worker |}.

Definition has_converged (k : TimeKeeper) : bool :=
  match tk_ntp_worker k with Some w => NtpWorker.is_accurate w | None => true end.

Definition current_timestamp_as_duration (k : TimeKeeper) (now : option Z)
    : result TimeErrorKind Z :=
  match tk_ntp_worker k with
  | Some w => NtpWorker.current_timestamp w now
  | None => match now with Some n => Ok n | None => Err SystemTimeError end
  end.

Definition current_timestamp (k : TimeKeeper) (now : option Z)
    : result TimeErrorKind ChainTimestamp :=
  ns ← current_timestamp_as_duration k now;
  Ok (ChainTimestamp.from (wrap_u64 (ns / 1000000))).
End TimeKeeper.

(** ** Theorems *)

Lemma swap_from_le bs : swap_bytes (length bs) (from_le bs) = from_be bs.
Proof.
  unfold swap_bytes, from_le. rewrite <- (length_rev bs), to_be_from_be. by rewrite rev_involutive.
Qed.

(** A packet whose fields fit their widths. *)
Record packet_ok (p : NtpPacket) : Prop := {
  po_mode : 0 ≤ np_li_vn_mode p < 256;
  po_stratum : 0 ≤ np_stratum p < 256;
  po_poll : -128 ≤ np_poll p < 128;
  po_precision : -128 ≤ np_precision p < 128;
  po_delay : 0 ≤ np_root_delay p < 2 ^ 32;
  po_dispersion : 0 ≤ np_root_dispersion p < 2 ^ 32;
  po_ref_id : 0 ≤ np_ref_id p < 2 ^ 32;
  po_ref : 0 ≤ np_ref_timestamp p < 2 ^ 64;
  po_origin : 0 ≤ np_origin_timestamp p < 2 ^ 64;
  po_recv : 0 ≤ np_recv_timestamp p < 2 ^ 64;
  po_tx : 0 ≤ np_tx_timestamp p < 2 ^ 64;
}.

Lemma i8_of_byte_of_Z z : -128 ≤ z < 128 → i8_of_byte (byte_of_Z z) = z.
Proof.
  intros Hz. unfold i8_of_byte. rewrite Z_of_byte_of_Z.
  destruct (decide (0 ≤ z)).
  - rewrite Z.mod_small by lia. case_decide; lia.
  - rewrite <- (Z.mod_unique_pos z 256 (-1) (z + 256)) by lia. case_decide; lia.
Qed.

Lemma swap_field raw from to w z : field from to raw = to_be w z → 0 ≤ z < 256 ^ Z.of_nat w →
  swap_bytes w (from_le (field from to raw)) = z.
Proof.
  intros -> Hz. rewrite <- (to_be_length w z) at 1. rewrite swap_from_le.
  by apply from_be_to_be.
Qed.

Lemma packet_round_trip p : packet_ok p →
  NtpPacket.convert_from_network (NtpPacket.from_raw (NtpPacket.to_raw p)) = p.
Proof.
  intros [? ? ? ? ? ? ? ? ? ? ?]. destruct p as [m s po pr rd rs ri rt ot vt tt].
  unfold NtpPacket.convert_from_network, NtpPacket.from_raw. cbn [np_li_vn_mode
    np_stratum np_poll np_precision np_root_delay np_root_dispersion np_ref_id np_ref_timestamp
    np_origin_timestamp np_recv_timestamp np_tx_timestamp] in *.
  f_equal; try (apply swap_field; [reflexivity | lia]); cbn [nth NtpPacket.to_raw app];
    rewrite ?i8_of_byte_of_Z, ?Z_of_byte_of_Z, ?Z.mod_small by (cbn; lia); done.
Qed.

(** An answer to a request sent at [t1]: it reached the server after [d], the server's
    clock being [theta] ahead, left it [p] later, and came back after [d]. *)
Definition symmetric_answer (t1 d theta p : Z) : NtpPacket :=
  {| np_li_vn_mode := Z.lor 4 (Z.shiftl 4 3); np_stratum := 1; np_poll := 0; np_precision := 0;
     np_root_delay := 0; np_root_dispersion := 0; np_ref_id := 0; np_ref_timestamp := 0;
     np_origin_timestamp := t1; np_recv_timestamp := t1 + d + theta;
     np_tx_timestamp := t1 + d + theta + p |}.

Lemma symmetric_ok t1 d theta p : 0 ≤ p → 0 ≤ t1 < 2 ^ 64 → 0 ≤ t1 + d + theta →
  t1 + d + theta + p < 2 ^ 64 → packet_ok (symmetric_answer t1 d theta p).
Proof.
  intros Hp Ht1 Hlo Hhi. assert (Z.lor 4 (Z.shiftl 4 3) = 36) as Hm by reflexivity.
  split; unfold symmetric_answer; cbn [np_li_vn_mode np_stratum np_poll np_precision
    np_root_delay np_root_dispersion np_ref_id np_ref_timestamp np_origin_timestamp
    np_recv_timestamp np_tx_timestamp]; lia.
Qed.

(** Finding: the offset that the exchange reports does not depend on the offset of the
    clocks.  The round trip is measured right, but the formula for the offset has the sign
    of its second difference the other way round than the comment above it (and than SNTP):
    it yields the delay of one way, whatever the difference of the clocks is. *)
Theorem ntp_offset_is_delay (t1 d theta p : Z)
  (Hd : 0 ≤ d < 2 ^ 60) (Hp : 0 ≤ p < 2 ^ 60) (Htheta : - 2 ^ 60 < theta < 2 ^ 60)
  (Hr : 0 ≤ t1 ∧ t1 + 2 * d + p < 2 ^ 64)
  (Ht : 0 ≤ t1 + d + theta ∧ t1 + d + theta + p < 2 ^ 64) :
  ∃ r, process_response (NtpPacket.new t1)
         (NtpPacket.to_raw (symmetric_answer t1 d theta p)) (t1 + 2 * d + p) = Ok r
    ∧ nr_roundtrip r = 2 * d ∧ nr_offset r = d.
Proof.
  unfold process_response. rewrite packet_round_trip by (apply symmetric_ok; lia). cbv zeta.
  cbn [np_li_vn_mode np_stratum np_origin_timestamp np_recv_timestamp np_tx_timestamp
       symmetric_answer NtpPacket.new].
  rewrite decide_False by (intros []; reflexivity).
  rewrite (decide_False (P := _ ∧ _)) by (vm_compute; intros [[] _]; reflexivity).
  rewrite (decide_False (P := 3 < _)) by (vm_compute; discriminate).
  rewrite (decide_False (P := _ ≠ _)) by (vm_compute; intros []; reflexivity).
  rewrite (decide_False (P := 1 = 0)) by lia.
  eexists. split; [reflexivity|]. unfold NtpResult.new. cbn [nr_roundtrip nr_offset].
  rewrite (wrap_i64_sub (t1 + d + theta) t1), (wrap_i64_sub (t1 + 2 * d + p)).
  unwrap. split; [lia|].
  replace (_ + _) with (d * 2) by lia. by rewrite Z.quot_mul by lia.
Qed.

(** A server one hour ahead and ten milliseconds away, asked in 2022. *)
Lemma ntp_offset_is_delay_witness :
  let t1 := get_ntp_timestamp 1650000000000000000 in
  ∃ r, process_response (NtpPacket.new t1)
         (NtpPacket.to_raw (symmetric_answer t1 10000 (Z.shiftl 3600 32) 500))
         (t1 + 2 * 10000 + 500) = Ok r
    ∧ nr_roundtrip r = 20000 ∧ nr_offset r = 10000.
Proof.
  intros t1. assert (t1 = 16574230691630284800) as -> by (vm_compute; reflexivity).
  apply (ntp_offset_is_delay 16574230691630284800 10000 (Z.shiftl 3600 32) 500);
    change (Z.shiftl 3600 32) with 15461882265600; lia.
Defined.
