(* ===== verification/Event.v ===== *)
(** * Events

    lib/src/event.rs: the raw header that identifies an event by the hash of its
    metadata and data, the header with its metadata decoded, and events that carry
    their data.  The theorems tie an event's identity to its content. *)

From S2P Require Import Prelude LogApi Crypto Codec Meta.

(** ** Data *)

Record EventHeaderRaw : Type := {
  raw_meta_hash : AteHash;
  raw_meta_bytes : bytes;
  raw_data_hash : option AteHash;
  raw_data_size : Z;
  raw_event_hash : AteHash;
  raw_format : MessageFormat;
}.

Record EventHeader : Type := { eh_raw : EventHeaderRaw; eh_meta : Metadata }.

Inductive MessageBytes : Type :=
  | BytesSome (a : bytes)
  | BytesLazySome (l : LazyData)
  | BytesNone.

Record EventWeakData : Type := {
  ew_meta : Metadata;
  ew_data_bytes : MessageBytes;
  ew_format : MessageFormat;
}.

Record EventStrongData : Type := {
  es_meta : Metadata;
  es_data_bytes : option bytes;
  es_format : MessageFormat;
}.

Section event_sig_hash.
Context `{CryptoPrims}.

Definition event_sig_hash (meta_hash : AteHash) (data_hash : option AteHash) : AteHash :=
  match data_hash with
  | Some d => DoubleHash.hash (DoubleHash.from_hashes meta_hash d)
  | None => meta_hash
  end.
End event_sig_hash.

Module EventHeaderRaw.
Section ops.
Context `{CryptoPrims} `{MetaSerializer}.

Definition new (meta_hash : AteHash) (meta_bytes : bytes) (data_hash : option AteHash)
    (data_size : Z) (format : MessageFormat) : EventHeaderRaw :=
  {| raw_meta_hash := meta_hash;
     raw_meta_bytes := meta_bytes;
     raw_data_hash := data_hash;
     raw_data_size := data_size;
     raw_event_hash := event_sig_hash meta_hash data_hash;
     raw_format := format |}.

Definition as_header (r : EventHeaderRaw) : result SerializationErrorKind EventHeader :=
  meta ← meta_deserialize (mf_meta (raw_format r)) (raw_meta_bytes r);
  Ok {| eh_raw := r; eh_meta := meta |}.
End ops.
End EventHeaderRaw.

Module EventHeader.
Definition hash (h : EventHeader) : AteHash := raw_event_hash (eh_raw h).

Definition is_empty (h : EventHeader) : bool :=
  if negb (Metadata.is_empty (eh_meta h)) then false
  else if decide (0 < raw_data_size (eh_raw h)) then false
  else true.
End EventHeader.

Module MessageBytes.
Definition is_some (b : MessageBytes) : bool :=
  match b with BytesSome _ => true | BytesLazySome _ => true | BytesNone => false end.

Definition is_none (b : MessageBytes) : bool := negb (is_some b).

Definition is_lazy (b : MessageBytes) : bool :=
  match b with BytesLazySome _ => true | _ => false end.

(** [as_option] and [to_option] differ in ownership only. *)
Definition as_option (b : MessageBytes) : option bytes :=
  match b with BytesSome a => Some a | _ => None end.

Definition to_log_data (b : MessageBytes) : LogData :=
  match b with
  | BytesSome a => LogSome a
  | BytesLazySome l => LogLazySome l
  | BytesNone => LogNone
  end.
End MessageBytes.

Module EventWeakData.
Definition new (key : PrimaryKey) (data : bytes) (format : MessageFormat) : EventWeakData :=
  {| ew_meta := Metadata.for_data key; ew_data_bytes := BytesSome data; ew_format := format |}.

Definition barebone (format : MessageFormat) : EventWeakData :=
  {| ew_meta := Metadata.default; ew_data_bytes := BytesNone; ew_format := format |}.

Definition with_core_metadata (e : EventWeakData) (core : CoreMetadata) : EventWeakData :=
  {| ew_meta := Metadata.push (ew_meta e) core;
     ew_data_bytes := ew_data_bytes e; ew_format := ew_format e |}.

Section ops.
Context `{CryptoPrims} `{MetaSerializer}.

Definition data_hash (e : EventWeakData) : option AteHash :=
  match ew_data_bytes e with
  | BytesSome d => Some (AteHash.from_bytes d)
  | BytesLazySome lazy => Some (ld_hash lazy)
  | BytesNone => None
  end.

Definition data_size (e : EventWeakData) : Z :=
  match ew_data_bytes e with
  | BytesSome d => Z.of_nat (length d)
  | BytesLazySome lazy => ld_len lazy
  | BytesNone => 0
  end.

Definition as_header_raw (e : EventWeakData) : result SerializationErrorKind EventHeaderRaw :=
  meta_bytes ← meta_serialize (mf_meta (ew_format e)) (ew_meta e);
  Ok (EventHeaderRaw.new (AteHash.from_bytes meta_bytes) meta_bytes
        (data_hash e) (data_size e) (ew_format e)).

Definition as_header (e : EventWeakData) : result SerializationErrorKind EventHeader :=
  raw ← as_header_raw e;
  Ok {| eh_raw := raw; eh_meta := ew_meta e |}.
End ops.
End EventWeakData.

Module EventStrongData.
Definition new (key : PrimaryKey) (data : bytes) (format : MessageFormat) : EventStrongData :=
  {| es_meta := Metadata.for_data key; es_data_bytes := Some data; es_format := format |}.

Definition barebone (format : MessageFormat) : EventStrongData :=
  {| es_meta := Metadata.default; es_data_bytes := None; es_format := format |}.

Definition with_core_metadata (e : EventStrongData) (core : CoreMetadata) : EventStrongData :=
  {| es_meta := Metadata.push (es_meta e) core;
     es_data_bytes := es_data_bytes e; es_format := es_format e |}.
End EventStrongData.

(** ** Theorems *)

Section theorems.
Context `{CryptoPrims} `{MetaSerializer}.

(** An event as a reader of the log rebuilds it. *)
Definition forget_event (e : EventWeakData) : EventWeakData :=
  {| ew_meta := forget_cache (ew_meta e); ew_data_bytes := ew_data_bytes e;
     ew_format := ew_format e |}.

Lemma as_header_raw_inv e raw : EventWeakData.as_header_raw e = Ok raw →
  meta_serialize (mf_meta (ew_format e)) (ew_meta e) = Ok (raw_meta_bytes raw)
  ∧ raw_meta_hash raw = AteHash.from_bytes (raw_meta_bytes raw)
  ∧ raw_data_hash raw = EventWeakData.data_hash e
  ∧ raw_data_size raw = EventWeakData.data_size e
  ∧ raw_format raw = ew_format e
  ∧ raw_event_hash raw = event_sig_hash (raw_meta_hash raw) (raw_data_hash raw).
Proof.
  unfold EventWeakData.as_header_raw.
  destruct (meta_serialize _ _) as [bs|err]; [|done]. by intros [= <-].
Qed.

Lemma as_header_raw_forget e :
  EventWeakData.as_header_raw (forget_event e) = EventWeakData.as_header_raw e.
Proof. unfold EventWeakData.as_header_raw. cbn. by rewrite meta_serialize_forget. Qed.

(** The header of an event decodes to the event's own metadata, up to the cache
    that is never serialized, and its identity is the hash of its metadata bytes,
    combined with the hash of its data when it has any. *)
Theorem header_decodes (e : EventWeakData) (raw : EventHeaderRaw)
  (Hraw : EventWeakData.as_header_raw e = Ok raw) :
  EventHeaderRaw.as_header raw = Ok {| eh_raw := raw; eh_meta := forget_cache (ew_meta e) |}
  ∧ raw_event_hash raw
    = match EventWeakData.data_hash e with
      | Some d => AteHash.from_bytes_twice (hash_val (AteHash.from_bytes (raw_meta_bytes raw)))
                    (hash_val d)
      | None => AteHash.from_bytes (raw_meta_bytes raw)
      end.
Proof.
  apply as_header_raw_inv in Hraw as (Hs & Hm & Hd & _ & Hf & He).
  split.
  - unfold EventHeaderRaw.as_header. rewrite Hf. by rewrite (meta_round_trip _ _ _ Hs).
  - by rewrite He, Hm, Hd.
Qed.
End theorems.

#[local] Existing Instance toy_prims.
#[local] Existing Instance toy_serializer.

Lemma header_decodes_witness :
  let e := EventWeakData.new (PrimaryKey.new 7) [x01; x02] json_format in
  ∃ raw, EventWeakData.as_header_raw e = Ok raw
    ∧ EventHeaderRaw.as_header raw = Ok {| eh_raw := raw; eh_meta := ew_meta e |}.
Proof.
  intros e. eexists. split; [reflexivity|].
  refine (proj1 (header_decodes e _ _)). reflexivity.
Defined.
