(* ===== verification/Index.v ===== *)
(** * The index

    lib/src/index.rs: the in-memory index a chain keeps over its events, from
    primary keys to the latest event and from collections to their members.  The
    theorems show that the two directions of the parent relation agree after any
    sequence of events, and that the primary side answers with the last event that
    concerns a key. *)

From S2P Require Import Prelude LogApi Crypto Codec Meta Event.

#[global] Program Instance ChainTimestamp_countable : Countable ChainTimestamp :=
  inj_countable' time_since_epoch_ms (λ v, {| time_since_epoch_ms := v |}) _.
Next Obligation. by intros []. Qed.

(** ** State *)

Record EventLeaf : Type := {
  leaf_record : AteHash;
  leaf_created : Z;
  leaf_updated : Z;
}.

(** [secondary] is a [MultiMap]: a key with no values left keeps an empty vector. *)
Record BinaryTreeIndexer : Type := {
  ix_roots : gset PrimaryKey;
  ix_primary : gmap PrimaryKey EventLeaf;
  ix_secondary : gmap MetaCollection (list PrimaryKey);
  ix_parents : gmap PrimaryKey MetaParent;
  ix_uploads : gmap ChainTimestamp MetaDelayedUpload;
}.

Module BinaryTreeIndexer.
(** [Default]. *)
Definition default : BinaryTreeIndexer :=
  {| ix_roots := ∅; ix_primary := ∅; ix_secondary := ∅; ix_parents := ∅; ix_uploads := ∅ |}.

Definition contains_key (ix : BinaryTreeIndexer) (key : PrimaryKey) : bool :=
  bool_decide (is_Some (ix_primary ix !! key)).

Definition count (ix : BinaryTreeIndexer) : nat := size (ix_primary ix).

(** [if let Some(tree) = self.parents.remove(&key) { .. retain .. }]. *)
Definition remove_parent (ix : BinaryTreeIndexer) (key : PrimaryKey) : BinaryTreeIndexer :=
  match ix_parents ix !! key with
  | Some tree =>
      {| ix_roots := ix_roots ix; ix_primary := ix_primary ix;
         ix_secondary := match ix_secondary ix !! mp_vec tree with
           | Some vec => <[mp_vec tree := filter (λ x, x ≠ key) vec]> (ix_secondary ix)
           | None => ix_secondary ix
           end;
         ix_parents := delete key (ix_parents ix); ix_uploads := ix_uploads ix |}
  | None => ix
  end.

Definition feed_tombstone (ix : BinaryTreeIndexer) (key : PrimaryKey) : BinaryTreeIndexer :=
  remove_parent
    {| ix_roots := ix_roots ix ∖ {[ key ]}; ix_primary := delete key (ix_primary ix);
       ix_secondary := ix_secondary ix; ix_parents := ix_parents ix;
       ix_uploads := ix_uploads ix |} key.

Definition has_parent (entry : EventHeader) : bool :=
  existsb (λ c, match c with CoreParent _ => true | _ => false end)
    (meta_core (eh_meta entry)).

Definition when (entry : EventHeader) : Z :=
  match Metadata.get_timestamp (eh_meta entry) with
  | Some t => time_since_epoch_ms t
  | None => 0
  end.

Definition feed_data (entry : EventHeader) (ix : BinaryTreeIndexer) (key : PrimaryKey)
    : BinaryTreeIndexer :=
  match raw_data_hash (eh_raw entry) with
  | None => ix
  | Some _ =>
      let created := match ix_primary ix !! key with
        | Some v => leaf_created v
        | None => when entry
        end in
      {| ix_roots := if has_parent entry then {[ key ]} ∪ ix_roots ix else ix_roots ix;
         ix_primary := <[key := {| leaf_record := raw_event_hash (eh_raw entry);
                                   leaf_created := created;
                                   leaf_updated := when entry |}]> (ix_primary ix);
         ix_secondary := ix_secondary ix; ix_parents := ix_parents ix;
         ix_uploads := ix_uploads ix |}
  end.

Definition feed_parent (entry : EventHeader) (ix : BinaryTreeIndexer) (parent : MetaParent)
    : BinaryTreeIndexer :=
  match Metadata.get_data_key (eh_meta entry) with
  | None => ix
  | Some key =>
      let ix := remove_parent ix key in
      let vec := mp_vec parent in
      {| ix_roots := ix_roots ix; ix_primary := ix_primary ix;
         ix_secondary := match ix_secondary ix !! vec with
           | Some a => if decide (key ∈ a) then ix_secondary ix
                       else <[vec := a ++ [key]]> (ix_secondary ix)
           | None => <[vec := [key]]> (ix_secondary ix)
           end;
         ix_parents := <[key := parent]> (ix_parents ix); ix_uploads := ix_uploads ix |}
  end.

Definition feed_upload (ix : BinaryTreeIndexer) (upload : MetaDelayedUpload) : BinaryTreeIndexer :=
  {| ix_roots := ix_roots ix; ix_primary := ix_primary ix; ix_secondary := ix_secondary ix;
     ix_parents := ix_parents ix;
     ix_uploads := <[du_from upload := upload]> (ix_uploads ix) |}.

Definition feed_core (entry : EventHeader) (ix : BinaryTreeIndexer) (core : CoreMetadata)
    : BinaryTreeIndexer :=
  match core with
  | CoreData key => feed_data entry ix key
  | CoreParent parent => feed_parent entry ix parent
  | CoreDelayedUpload upload => feed_upload ix upload
  | _ => ix
  end.

Definition feed (ix : BinaryTreeIndexer) (entry : EventHeader) : BinaryTreeIndexer :=
  match Metadata.get_tombstone (eh_meta entry) with
  | Some key => feed_tombstone ix key
  | None => foldl (feed_core entry) ix (meta_core (eh_meta entry))
  end.

Definition lookup_primary (ix : BinaryTreeIndexer) (key : PrimaryKey) : option EventLeaf :=
  ix_primary ix !! key.

Definition lookup_parent (ix : BinaryTreeIndexer) (key : PrimaryKey) : option MetaParent :=
  ix_parents ix !! key.

Definition lookup_secondary (ix : BinaryTreeIndexer) (key : MetaCollection)
    : option (list EventLeaf) :=
  match ix_secondary ix !! key with
  | Some vec => Some (omap (λ a, ix_primary ix !! a) vec)
  | None => None
  end.

Definition lookup_secondary_raw (ix : BinaryTreeIndexer) (key : MetaCollection)
    : option (list PrimaryKey) :=
  ix_secondary ix !! key.

Definition roots_raw (ix : BinaryTreeIndexer) : list PrimaryKey := elements (ix_roots ix).

Definition get_delayed_upload (ix : BinaryTreeIndexer) (from : ChainTimestamp)
    : option MetaDelayedUpload :=
  ix_uploads ix !! from.

Definition get_pending_uploads (ix : BinaryTreeIndexer) : list MetaDelayedUpload :=
  List.filter (λ d, negb (du_complete d)) (snd <$> map_to_list (ix_uploads ix)).

Definition all_keys (ix : BinaryTreeIndexer) : list PrimaryKey :=
  fst <$> map_to_list (ix_primary ix).
End BinaryTreeIndexer.
Import BinaryTreeIndexer.

(** The index of a sequence of events, as a chain builds it. *)
Definition index_of (evts : list EventHeader) : BinaryTreeIndexer := foldl feed default evts.

(** ** Invariant *)

(** The two directions of the parent relation agree, and no member is listed twice. *)
Definition index_wf (ix : BinaryTreeIndexer) : Prop :=
  (∀ c k, (∃ vec, ix_secondary ix !! c = Some vec ∧ k ∈ vec)
          ↔ (∃ p, ix_parents ix !! k = Some p ∧ mp_vec p = c))
  ∧ (∀ c vec, ix_secondary ix !! c = Some vec → NoDup vec).

(** Steps that leave the parent relation alone keep it. *)
Lemma index_wf_same ix ix' :
  ix_secondary ix' = ix_secondary ix → ix_parents ix' = ix_parents ix →
  index_wf ix → index_wf ix'.
Proof. unfold index_wf. by intros -> ->. Qed.

Lemma remove_parent_wf ix key : index_wf ix →
  index_wf (remove_parent ix key) ∧ ix_parents (remove_parent ix key) !! key = None.
Proof.
  intros [Hiff Hnd]. unfold remove_parent.
  destruct (ix_parents ix !! key) as [tree|] eqn:Hp; [|done].
  destruct (proj2 (Hiff (mp_vec tree) key)) as (vec & Hv & Hin); [eauto|].
  rewrite Hv. simpl. split; [|apply lookup_delete_eq]. split; simpl.
  - intros c k. destruct (decide (k = key)) as [->|Hk].
    + split; [|intros (p & Hp' & _); by rewrite lookup_delete_eq in Hp'].
      intros (vec' & Hv' & Hin'). exfalso.
      destruct (decide (c = mp_vec tree)) as [->|Hc].
      * rewrite lookup_insert_eq in Hv'. simplify_eq.
        by apply list_elem_of_filter in Hin' as [? _].
      * rewrite lookup_insert_ne in Hv' by done.
        destruct (proj1 (Hiff c key)) as (p & ? & ?); [eauto|]. congruence.
    + rewrite lookup_delete_ne by done. rewrite <- Hiff.
      destruct (decide (c = mp_vec tree)) as [->|Hc]; [|by rewrite lookup_insert_ne by done].
      rewrite lookup_insert_eq. split.
      * intros (vec' & [= <-] & Hin'). apply list_elem_of_filter in Hin' as [_ ?]. eauto.
      * intros (vec' & ? & ?). simplify_eq. eexists. split; [done|].
        by apply list_elem_of_filter.
  - intros c vec' Hv'. destruct (decide (c = mp_vec tree)) as [->|Hc].
    + rewrite lookup_insert_eq in Hv'. simplify_eq. apply NoDup_filter. eauto.
    + rewrite lookup_insert_ne in Hv' by done. eauto.
Qed.

Lemma feed_parent_wf entry ix parent : index_wf ix → index_wf (feed_parent entry ix parent).
Proof.
  intros Hwf. unfold feed_parent.
  destruct (Metadata.get_data_key _) as [key|]; [|done].
  destruct (remove_parent_wf ix key Hwf) as [[Hiff Hnd] Hnone].
  set (ix' := remove_parent ix key) in *.
  assert (∀ c vec, ix_secondary ix' !! c = Some vec → key ∉ vec) as Hfree.
  { intros c vec Hv Hin. destruct (proj1 (Hiff c key)) as (p & ? & _); [eauto|]. congruence. }
  set (old := from_option id [] (ix_secondary ix' !! mp_vec parent)).
  assert (match ix_secondary ix' !! mp_vec parent with
    | Some a => if decide (key ∈ a) then ix_secondary ix'
                else <[mp_vec parent := a ++ [key]]> (ix_secondary ix')
    | None => <[mp_vec parent := [key]]> (ix_secondary ix')
    end = <[mp_vec parent := old ++ [key]]> (ix_secondary ix')) as Hsec.
  { unfold old. destruct (ix_secondary ix' !! mp_vec parent) as [a|] eqn:Ha; [|done].
    rewrite decide_False; [done|eauto]. }
  assert (∀ k, k ∈ old ↔ ∃ vec, ix_secondary ix' !! mp_vec parent = Some vec ∧ k ∈ vec) as Hold.
  { intros k. unfold old. destruct (ix_secondary ix' !! mp_vec parent); simpl; [|set_solver].
    split; [eauto|]. by intros (vec & [= <-] & ?). }
  unfold index_wf. simpl. rewrite Hsec. split.
  - intros c k. destruct (decide (c = mp_vec parent)) as [->|Hc].
    + rewrite lookup_insert_eq. destruct (decide (k = key)) as [->|Hk].
      * rewrite lookup_insert_eq. split; [eauto|]. intros _. eexists. split; [done|].
        apply elem_of_app. right. by apply list_elem_of_singleton.
      * rewrite lookup_insert_ne, <- Hiff, <- Hold by done. split.
        -- intros (vec & [= <-] & [Hin|Hin]%elem_of_app); [done|].
           by apply list_elem_of_singleton in Hin.
        -- intros Hin. eexists. split; [done|]. apply elem_of_app. by left.
    + rewrite lookup_insert_ne by done. rewrite Hiff.
      destruct (decide (k = key)) as [->|Hk]; [|by rewrite lookup_insert_ne by done].
      rewrite lookup_insert_eq. naive_solver.
  - intros c vec. destruct (decide (c = mp_vec parent)) as [->|Hc].
    + rewrite lookup_insert_eq. intros [= <-]. apply NoDup_app. split; [|split].
      * unfold old. destruct (ix_secondary ix' !! mp_vec parent) eqn:Ha; simpl; [eauto|constructor].
      * intros k Hin Hk. apply list_elem_of_singleton in Hk as ->.
        apply Hold in Hin as (vec & ? & ?). naive_solver.
      * apply NoDup_singleton.
    + rewrite lookup_insert_ne by done. eauto.
Qed.

Lemma feed_wf ix entry : index_wf ix → index_wf (feed ix entry).
Proof.
  intros Hwf. unfold feed. destruct (Metadata.get_tombstone _) as [key|].
  - apply remove_parent_wf. by apply (index_wf_same ix).
  - generalize dependent ix. induction (meta_core (eh_meta entry)) as [|c core IH];
      intros ix Hwf; simpl; [done|].
    apply IH. destruct c; simpl; try done.
    + apply (index_wf_same ix); [..|done]; unfold feed_data; by case_match.
    + by apply feed_parent_wf.
Qed.

Lemma index_of_wf evts : index_wf (index_of evts).
Proof.
  unfold index_of. assert (index_wf default) as Hd.
  { split; simpl; [|intros c vec; by rewrite lookup_empty].
    intros c k. split; intros (x & Hx & _); by rewrite lookup_empty in Hx. }
  revert Hd. generalize default as ix.
  induction evts as [|e evts IH]; intros ix Hix; simpl; [done|]. apply IH. by apply feed_wf.
Qed.

(** ** The primary side *)

(** What an event does to a key: a tombstone for it removes it, a data event with
    data writes it, any other event leaves it alone. *)
Definition writes_key (k : PrimaryKey) (e : EventHeader) : bool :=
  match Metadata.get_tombstone (eh_meta e), raw_data_hash (eh_raw e) with
  | None, Some _ =>
      existsb (λ c, match c with CoreData k' => bool_decide (k' = k) | _ => false end)
        (meta_core (eh_meta e))
  | _, _ => false
  end.

Definition removes_key (k : PrimaryKey) (e : EventHeader) : bool :=
  bool_decide (Metadata.get_tombstone (eh_meta e) = Some k).

(** The events that wrote a key since it was last removed. *)
Definition live (k : PrimaryKey) (evts : list EventHeader) : list EventHeader :=
  foldl (λ acc e, if removes_key k e then [] else if writes_key k e then acc ++ [e] else acc)
    [] evts.

(** The leaf they amount to: the last one's hash and time, created at the first. *)
Definition leaf_of (evts : list EventHeader) : option EventLeaf :=
  match evts, last evts with
  | first :: _, Some latest =>
      Some {| leaf_record := EventHeader.hash latest; leaf_created := when first;
              leaf_updated := when latest |}
  | _, _ => None
  end.

Lemma remove_parent_primary ix key : ix_primary (remove_parent ix key) = ix_primary ix.
Proof. unfold remove_parent. by case_match. Qed.

Lemma feed_core_primary entry ix c k :
  ix_primary (feed_core entry ix c) !! k
  = match raw_data_hash (eh_raw entry), c with
    | Some _, CoreData k' =>
        if decide (k' = k) then
          Some {| leaf_record := raw_event_hash (eh_raw entry);
                  leaf_created := from_option leaf_created (when entry) (ix_primary ix !! k);
                  leaf_updated := when entry |}
        else ix_primary ix !! k
    | _, _ => ix_primary ix !! k
    end.
Proof.
  destruct c; simpl; try by destruct (raw_data_hash (eh_raw entry)).
  - unfold feed_data. destruct (raw_data_hash (eh_raw entry)); [|done]. simpl.
    case_decide as Hk; [subst|by rewrite lookup_insert_ne].
    rewrite lookup_insert_eq. by destruct (ix_primary ix !! k).
  - unfold feed_parent. destruct (Metadata.get_data_key (eh_meta entry)); simpl;
      rewrite ?remove_parent_primary; by destruct (raw_data_hash (eh_raw entry)).
Qed.

Lemma feed_primary ix e k :
  ix_primary (feed ix e) !! k
  = if removes_key k e then None
    else if writes_key k e then
      Some {| leaf_record := EventHeader.hash e;
              leaf_created := from_option leaf_created (when e) (ix_primary ix !! k);
              leaf_updated := when e |}
    else ix_primary ix !! k.
Proof.
  unfold feed, removes_key, writes_key.
  destruct (Metadata.get_tombstone (eh_meta e)) as [k'|].
  - unfold feed_tombstone. rewrite remove_parent_primary. simpl.
    case_bool_decide as Hk; simplify_eq; [apply lookup_delete_eq|].
    apply lookup_delete_ne. congruence.
  - rewrite bool_decide_eq_false_2 by done. unfold EventHeader.hash.
    generalize ix. induction (meta_core (eh_meta e)) as [|c core IH]; intros ix'; simpl.
    { by destruct (raw_data_hash (eh_raw e)). }
    rewrite IH, feed_core_primary.
    destruct (raw_data_hash (eh_raw e)) as [d|]; [|done].
    destruct c; simpl; try done. case_decide as Hk; case_bool_decide; try done; simpl.
    by destruct (existsb _ core), (ix_primary ix' !! k).
Qed.

Lemma live_snoc k evts e :
  live k (evts ++ [e])
  = if removes_key k e then [] else if writes_key k e then live k evts ++ [e] else live k evts.
Proof. unfold live. by rewrite foldl_app. Qed.

Lemma index_of_snoc evts e : index_of (evts ++ [e]) = feed (index_of evts) e.
Proof. unfold index_of. by rewrite foldl_app. Qed.

Lemma leaf_of_snoc evts e :
  leaf_of (evts ++ [e])
  = Some {| leaf_record := EventHeader.hash e;
            leaf_created := from_option leaf_created (when e) (leaf_of evts);
            leaf_updated := when e |}.
Proof.
  destruct evts as [|f evts]; [done|].
  pose proof (last_snoc e (f :: evts)) as He. cbn [app] in *. unfold leaf_of. rewrite He.
  destruct (last (f :: evts)) eqn:Hl; [done|]. by apply last_None in Hl.
Qed.

(** The last event that does anything to a key decides what a lookup finds. *)
Definition touches (k : PrimaryKey) (e : EventHeader) : bool := removes_key k e || writes_key k e.

Lemma primary_last evts k :
  (λ leaf, (leaf_record leaf, leaf_updated leaf)) <$> (ix_primary (index_of evts) !! k)
  = match last (List.filter (touches k) evts) with
    | Some e => if removes_key k e then None else Some (EventHeader.hash e, when e)
    | None => None
    end.
Proof.
  induction evts as [|e evts IH] using rev_ind; [cbn; by rewrite lookup_empty|].
  rewrite index_of_snoc, feed_primary, List.filter_app. cbn [List.filter]. unfold touches in *.
  destruct (removes_key k e) eqn:Hr; cbn [orb]; [by rewrite last_snoc, Hr|].
  destruct (writes_key k e); [by rewrite last_snoc, Hr|]. by rewrite app_nil_r.
Qed.

(** ** Theorems *)

(** C27. Looking a key up gives the last event that wrote it since it was last
    removed, with the time of the first such write as its creation time; a key
    that was never written, or was removed since, is not found. *)
Theorem lookup_primary_latest (evts : list EventHeader) (k : PrimaryKey) :
  lookup_primary (index_of evts) k = leaf_of (live k evts).
Proof.
  unfold lookup_primary. induction evts as [|e evts IH] using rev_ind; [apply lookup_empty|].
  rewrite index_of_snoc, live_snoc, feed_primary, IH.
  destruct (removes_key k e); [done|]. destruct (writes_key k e); [|done].
  by rewrite leaf_of_snoc.
Qed.

(** C28. Listing a collection is exact: after any events, the leaves listed for it are
    those of the keys whose parent it is and that are live, each key once. *)
Theorem lookup_secondary_exact (evts : list EventHeader) (c : MetaCollection) :
  let ix := index_of evts in
  (∀ leaf, (∃ leaves, lookup_secondary ix c = Some leaves ∧ leaf ∈ leaves)
     ↔ ∃ k p, lookup_parent ix k = Some p ∧ mp_vec p = c ∧ lookup_primary ix k = Some leaf)
  ∧ (∀ keys, lookup_secondary_raw ix c = Some keys → NoDup keys).
Proof.
  intros ix. destruct (index_of_wf evts) as [Hiff Hnd]. fold ix in Hiff, Hnd.
  split; [|apply Hnd]. intros leaf. unfold lookup_secondary, lookup_parent, lookup_primary.
  split.
  - intros (leaves & Hl & Hin). destruct (ix_secondary ix !! c) as [vec|] eqn:Hv; [|done].
    injection Hl as <-. apply list_elem_of_omap in Hin as (k & Hk & Hleaf).
    destruct (proj1 (Hiff c k)) as (p & Hp & Hc); [eauto|]. eauto 6.
  - intros (k & p & Hp & Hc & Hleaf).
    destruct (proj2 (Hiff c k)) as (vec & Hv & Hk); [eauto|].
    rewrite Hv. eexists. split; [done|]. apply list_elem_of_omap. eauto.
Qed.

Lemma feed_roots ix e k :
  k ∈ ix_roots (feed ix e) → k ∈ ix_roots ix ∨ (has_parent e = true ∧ writes_key k e = true).
Proof.
  unfold feed, writes_key. destruct (Metadata.get_tombstone (eh_meta e)) as [k'|].
  - unfold feed_tombstone, remove_parent. simpl. case_match; simpl; set_solver.
  - generalize ix. induction (meta_core (eh_meta e)) as [|c core IH]; intros ix'; simpl; [auto|].
    intros [Hin|[Hp Hw]]%IH.
    + destruct c; simpl in *; auto.
      * unfold feed_data in Hin. destruct (raw_data_hash (eh_raw e)); [|auto]. simpl in Hin.
        destruct (has_parent e); [|auto].
        apply elem_of_union in Hin as [->%elem_of_singleton|?]; [|auto].
        right. by rewrite bool_decide_eq_true_2.
      * left. unfold feed_parent, remove_parent in Hin. by repeat case_match.
    + right. split; [done|]. destruct (raw_data_hash (eh_raw e)); [|done].
      by rewrite Hw, orb_true_r.
Qed.

(** The set of roots holds only keys written by an event with a parent entry: a
    top-level object, which has none, is never among them. *)
Theorem roots_have_parents (evts : list EventHeader) (k : PrimaryKey)
  (Hk : k ∈ roots_raw (index_of evts)) :
  ∃ e, e ∈ evts ∧ has_parent e = true ∧ writes_key k e = true.
Proof.
  unfold roots_raw in Hk. apply elem_of_elements in Hk. revert Hk.
  induction evts as [|e evts IH] using rev_ind; [set_solver|].
  rewrite index_of_snoc. intros [Hin|[Hp Hw]]%feed_roots.
  - destruct (IH Hin) as (e' & ? & ? & ?). exists e'. set_solver.
  - exists e. set_solver.
Qed.

(** ** Witness *)

(** A header with the given entries and a data hash, identified by [n]. *)
Definition sample_header (n : byte) (core : list CoreMetadata) : EventHeader :=
  {| eh_raw := {| raw_meta_hash := {| hash_val := [n] |}; raw_meta_bytes := [n];
                  raw_data_hash := Some {| hash_val := [n] |}; raw_data_size := 1;
                  raw_event_hash := {| hash_val := [n] |}; raw_format := json_format |};
     eh_meta := {| meta_core := core |} |}.

Definition child_of (p : Z) : CoreMetadata :=
  CoreParent {| mp_vec := {| mc_parent_id := PrimaryKey.new p; mc_collection_id := 1 |} |}.

Lemma roots_have_parents_witness :
  ∃ e, e ∈ [sample_header x01 [CoreData (PrimaryKey.new 1)];
            sample_header x02 [CoreData (PrimaryKey.new 2); child_of 1]]
       ∧ has_parent e = true ∧ writes_key (PrimaryKey.new 2) e = true.
Proof.
  apply roots_have_parents. apply (bool_decide_unpack _). vm_compute. exact I.
Defined.
