(* ===== verification/LogFile.v ===== *)
(** * What a log file promises

    lib/src/redo/log_traits.rs and the data types of lib/src/loader.rs: the
    [LogFile] trait behind which the redo log keeps its events, as a class of
    operations, and [LogFileSpec], the contract its clients rely on: the log is a
    map from event hashes to events, which a write extends, a load reads, and
    which copying, flushing and moving the log leave as it is.  [MemDb] and
    [LocalFs] discharge the contract; [RedoLog] is proved against it. *)

From S2P Require Import Prelude LogApi Crypto Codec Meta Event.

(** ** Data *)

Record LoadData : Type := {
  ld_lookup : LogLookup;
  ld_header : EventHeaderRaw;
  ld_data : EventWeakData;
}.

(** [LoadErrorKind], the kinds the log files raise; [LoadPanic] is a failed
    [assert_eq!], which unwinds the task. *)
Inductive LoadErrorKind : Type :=
  | NotFoundByHash (hash : AteHash)
  | LoadSerialization (e : SerializationErrorKind)
  | LoadPanic.

(** ** The trait *)

(** The log files run in a world [W] they share (the file system).  [load] takes
    [&self], but moves entries between caches.  [copy_event] loads from the first
    log and writes the second. *)
Class LogFile (W L : Type) : Type := {
  lf_rotate : bytes → st (W * L) SerializationErrorKind unit;
  lf_copy : st (W * L) SerializationErrorKind L;
  lf_write : EventWeakData → st (W * L) SerializationErrorKind LogLookup;
  lf_copy_event : AteHash → st (W * (L * L)) LoadErrorKind LogLookup;
  lf_load : AteHash → st (W * L) LoadErrorKind LoadData;
  lf_move_log_file : string → st (W * L) SerializationErrorKind unit;
  lf_begin_flip : bytes → st (W * L) SerializationErrorKind L;
  lf_flush : st (W * L) SerializationErrorKind unit;
  lf_count : L → nat;
  lf_prime : list (AteHash * option bytes) → L → L;
  lf_size : L → Z;
  lf_index : L → Z;
  lf_offset : L → Z;
  lf_header : Z → L → bytes;
  lf_destroy : st (W * L) SerializationErrorKind unit;
}.

(** ** Events as the log keeps them *)

Section entries.
Context `{CryptoPrims} `{MetaSerializer}.

(** The body both log files rebuild an event from: [EventHeaderRaw::new] on what was
    read, and the metadata decoded.  This is the tail of [LogFileMemDb::load], of
    [LogFileLocalFs::load] and of [read_once_internal]. *)
Definition entry_header (en : LogEntry) : EventHeaderRaw :=
  EventHeaderRaw.new (AteHash.from_bytes (le_meta en)) (le_meta en)
    (LogData.hash (le_data en)) (LogData.size (le_data en)) (lh_format (le_header en)).

Definition message_bytes (d : LogData) : MessageBytes :=
  match d with
  | LogSome data => BytesSome data
  | LogLazySome l => BytesLazySome l
  | LogNone => BytesNone
  end.

Definition entry_load (lookup : LogLookup) (en : LogEntry)
    : result SerializationErrorKind LoadData :=
  meta ← meta_deserialize (mf_meta (lh_format (le_header en))) (le_meta en);
  Ok {| ld_lookup := lookup;
        ld_header := entry_header en;
        ld_data := {| ew_meta := meta; ew_data_bytes := message_bytes (le_data en);
                      ew_format := lh_format (le_header en) |} |}.

Lemma entry_load_error lookup en e : entry_load lookup en = Err e → e = Serde.
Proof.
  unfold entry_load. cbn. destruct (meta_deserialize _ _) eqn:E; [done|]. intros [= <-].
  by eapply meta_deserialize_error.
Qed.

(** A load result that answers for the event [e] under the hash [h]: the header is
    the one of [e] and the event is [e] but for the cache in its metadata. *)
Definition loaded (h : AteHash) (e : EventWeakData) (d : LoadData) : Prop :=
  raw_event_hash (ld_header d) = h
  ∧ forget_event (ld_data d) = e
  ∧ raw_format (ld_header d) = ew_format e
  ∧ raw_meta_hash (ld_header d) = AteHash.from_bytes (raw_meta_bytes (ld_header d))
  ∧ raw_data_hash (ld_header d) = EventWeakData.data_hash e
  ∧ raw_event_hash (ld_header d)
    = event_sig_hash (raw_meta_hash (ld_header d)) (raw_data_hash (ld_header d))
  ∧ (∃ m, meta_deserialize (mf_meta (ew_format e)) (raw_meta_bytes (ld_header d)) = Ok m
          ∧ forget_cache m = ew_meta e)
  ∧ blob_ok (raw_meta_bytes (ld_header d)).

(** Metadata of a size the format can hold; a Rust slice always has it. *)
Definition meta_ok (e : EventWeakData) : Prop :=
  ∀ raw, EventWeakData.as_header_raw e = Ok raw → blob_ok (raw_meta_bytes raw).

Lemma meta_ok_forget e : meta_ok e → meta_ok (forget_event e).
Proof. unfold meta_ok. by rewrite as_header_raw_forget. Qed.

Lemma loaded_written e raw lookup : meta_ok e → EventWeakData.as_header_raw e = Ok raw →
  loaded (raw_event_hash raw) (forget_event e)
    {| ld_lookup := lookup; ld_header := raw; ld_data := e |}.
Proof.
  intros Hok Hraw. pose proof Hraw as (Hs & Hm & Hd & _ & Hf & He)%as_header_raw_inv.
  unfold loaded. simpl. repeat split; try done; [|by apply Hok].
  exists (forget_cache (ew_meta e)). rewrite forget_cache_idem.
  by rewrite (meta_round_trip _ _ _ Hs).
Qed.

(** An entry made of a load result's header and data loads back as the same. *)
Lemma loaded_entry h e d en lookup :
  loaded h e d → le_meta en = raw_meta_bytes (ld_header d) →
  message_bytes (le_data en) = ew_data_bytes (ld_data d) →
  lh_format (le_header en) = ew_format (ld_data d) →
  ∃ d', entry_load lookup en = Ok d' ∧ loaded h e d'
        ∧ raw_event_hash (ld_header d') = h ∧ ld_lookup d' = lookup.
Proof.
  intros (Hh & He & Hf & Hm & Hd & Hs & (m & Hdm & Hfm) & Hok) Hmeta Hdata Hfmt.
  assert (ew_format e = ew_format (ld_data d)) as Hfe by by rewrite <- He.
  assert (LogData.hash (le_data en) = EventWeakData.data_hash e) as Hdh.
  { rewrite <- He. unfold EventWeakData.data_hash. simpl. rewrite <- Hdata.
    by destruct (le_data en). }
  unfold entry_load. rewrite Hfmt, Hmeta, <- Hfe, Hdm. simpl. eexists. split; [done|].
  unfold loaded, entry_header, forget_event. simpl.
  rewrite Hmeta, Hdh, Hfm, Hdata, Hfmt, <- Hh, <- Hfe, Hs, Hm, Hd.
  repeat split; try done; [|eauto].
  rewrite <- He. simpl. by destruct e.
Qed.
End entries.

(** ** The contract *)

(** [lf_inv] is the invariant of a log in its world, [contents] the events it holds
    by hash, [storable] the events it accepts, [apart] that two logs share no file, and [can_flip]
    that the place a flip puts its new log at is free of the log's own files.
    Operations on a log leave the logs apart from it alone ([frame]). *)
Class LogFileSpec (W L : Type) `{CryptoPrims} `{MetaSerializer} `{LogFile W L} : Type := {
  lf_inv : W → L → Prop;
  contents : W → L → AteHash → option EventWeakData;
  storable : EventWeakData → Prop;
  apart : W → L → L → Prop;
  can_flip : W → L → Prop;
  frame (w : W) (l : L) (w' : W) (l' : L) : Prop :=
    ∀ l2, lf_inv w l2 → apart w l l2 →
      lf_inv w' l2 ∧ (∀ h, contents w' l2 h = contents w l2 h) ∧ apart w' l' l2;
  storable_forget : ∀ e, storable e → storable (forget_event e);
  apart_sym : ∀ w l1 l2, apart w l1 l2 → apart w l2 l1;
  lf_write_ok : ∀ w l e raw,
    lf_inv w l → storable e → EventWeakData.as_header_raw e = Ok raw →
    (∀ old, contents w l (raw_event_hash raw) = Some old → old = forget_event e) →
    ∃ lk w' l', lf_write e (w, l) = (Ok lk, (w', l')) ∧ lf_inv w' l' ∧ frame w l w' l'
      ∧ ∀ h, contents w' l' h
             = if decide (h = raw_event_hash raw) then Some (forget_event e) else contents w l h;
  lf_write_unserializable : ∀ w l e err,
    EventWeakData.as_header_raw e = Err err → lf_write e (w, l) = (Err err, (w, l));
  lf_load_ok : ∀ w l h e,
    lf_inv w l → contents w l h = Some e →
    ∃ d w' l', lf_load h (w, l) = (Ok d, (w', l')) ∧ loaded h e d ∧ lf_inv w' l'
      ∧ frame w l w' l' ∧ ∀ h', contents w' l' h' = contents w l h';
  lf_load_missing : ∀ w l h,
    lf_inv w l → contents w l h = None →
    ∃ w' l', lf_load h (w, l) = (Err (NotFoundByHash h), (w', l')) ∧ lf_inv w' l'
      ∧ frame w l w' l' ∧ ∀ h', contents w' l' h' = contents w l h';
  lf_copy_event_ok : ∀ w from to h e,
    lf_inv w from → lf_inv w to → apart w from to →
    contents w from h = Some e → storable e →
    (∀ old, contents w to h = Some old → old = e) →
    ∃ lk w' from' to', lf_copy_event h (w, (from, to)) = (Ok lk, (w', (from', to')))
      ∧ lf_inv w' from' ∧ lf_inv w' to' ∧ apart w' from' to'
      ∧ (∀ h', contents w' from' h' = contents w from h')
      ∧ ∀ h', contents w' to' h' = if decide (h' = h) then Some e else contents w to h';
  lf_copy_ok : ∀ w l, lf_inv w l →
    ∃ w' l' new, lf_copy (w, l) = (Ok new, (w', l')) ∧ lf_inv w' new ∧ frame w l w' new
      ∧ ∀ h, contents w' new h = contents w l h;
  lf_flush_ok : ∀ w l, lf_inv w l →
    ∃ w' l', lf_flush (w, l) = (Ok (), (w', l')) ∧ lf_inv w' l' ∧ frame w l w' l'
      ∧ ∀ h, contents w' l' h = contents w l h;
  lf_move_ok : ∀ w l path, lf_inv w l →
    ∃ w' l', lf_move_log_file path (w, l) = (Ok (), (w', l')) ∧ lf_inv w' l' ∧ frame w l w' l'
      ∧ ∀ h, contents w' l' h = contents w l h;
  lf_write_can_flip : ∀ w l e lk w' l', lf_write e (w, l) = (Ok lk, (w', l')) →
    can_flip w l → can_flip w' l';
  lf_begin_flip_ok : ∀ w l hdr, lf_inv w l → can_flip w l → Z.of_nat (length hdr) ≤ u32_max →
    ∃ w' l' new, lf_begin_flip hdr (w, l) = (Ok new, (w', l')) ∧ lf_inv w' l' ∧ lf_inv w' new
      ∧ apart w' l' new
      ∧ (∀ h, contents w' l' h = contents w l h) ∧ ∀ h, contents w' new h = None;
}.
