(* ===== verification/MemDb.v ===== *)
(** * The in-memory log

    lib/src/redo/log_memdb.rs: the log file of a chain without a path on disk, two
    maps from hashes to positions and from positions to entries.  It discharges
    [LogFileSpec]; priming it is the one operation that can break it. *)

From S2P Require Import Prelude LogApi Crypto Codec Meta Event LogFile.

#[global] Program Instance LogLookup_countable : Countable LogLookup :=
  inj_countable' (λ l, (ll_index l, ll_offset l))
    (λ p, {| ll_index := p.1; ll_offset := p.2 |}) _.
Next Obligation. by intros []. Qed.

(** ** State and operations *)

Record LogFileMemDb : Type := {
  md_offset : Z;
  md_lookup : gmap AteHash LogLookup;
  md_memdb : gmap LogLookup LogEntry;
  md_header : bytes;
}.

Module LogFileMemDb.
Section ops.
Context `{CryptoPrims} `{MetaSerializer}.

Definition new (header_bytes : bytes) : LogFileMemDb :=
  {| md_offset := 0; md_lookup := ∅; md_memdb := ∅; md_header := header_bytes |}.

Definition rotate (header_bytes : bytes) : st (unit * LogFileMemDb) SerializationErrorKind unit :=
  st_mk (λ '(w, l), (Ok (),
    (w, {| md_offset := md_offset l; md_lookup := md_lookup l; md_memdb := md_memdb l;
           md_header := header_bytes |}))).

Definition copy : st (unit * LogFileMemDb) SerializationErrorKind LogFileMemDb :=
  st_mk (λ '(w, l), (Ok l, (w, l))).

(** Where the next entry goes, and the state with it. *)
Definition insert_entry (hash : AteHash) (meta : bytes) (data : LogData) (format : MessageFormat)
    (l : LogFileMemDb) : LogLookup * LogFileMemDb :=
  let lookup := {| ll_index := 0; ll_offset := md_offset l |} in
  (lookup,
   {| md_offset := md_offset l + 1;
      md_lookup := <[hash := lookup]> (md_lookup l);
      md_memdb := <[lookup := {| le_header := {| lh_offset := ll_offset lookup;
                                                 lh_format := format |};
                                 le_meta := meta; le_data := data |}]> (md_memdb l);
      md_header := md_header l |}).

Definition write (evt : EventWeakData)
    : st (unit * LogFileMemDb) SerializationErrorKind LogLookup :=
  st_mk (λ '(w, l),
    match EventWeakData.as_header_raw evt with
    | Err e => (Err e, (w, l))
    | Ok header =>
        let '(lookup, l) := insert_entry (raw_event_hash header) (raw_meta_bytes header)
          (MessageBytes.to_log_data (ew_data_bytes evt)) (ew_format evt) l in
        (Ok lookup, (w, l))
    end).

Definition load (hash : AteHash) : st (unit * LogFileMemDb) LoadErrorKind LoadData :=
  st_mk (λ '(w, l),
    (match md_lookup l !! hash with
     | None => Err (NotFoundByHash hash)
     | Some lookup =>
         match md_memdb l !! lookup with
         | None => Err (NotFoundByHash hash)
         | Some result =>
             ret ← map_err LoadSerialization (entry_load lookup result);
             if decide (hash = raw_event_hash (ld_header ret)) then Ok ret else Err LoadPanic
         end
     end, (w, l))).

Definition copy_event (hash : AteHash)
    : st (unit * (LogFileMemDb * LogFileMemDb)) LoadErrorKind LogLookup :=
  st_mk (λ '(w, (from, to)),
    let '(r, (w, from)) := load hash (w, from) in
    match r with
    | Err e => (Err e, (w, (from, to)))
    | Ok result =>
        let '(lookup, to) := insert_entry hash (raw_meta_bytes (ld_header result))
          (MessageBytes.to_log_data (ew_data_bytes (ld_data result)))
          (ew_format (ld_data result)) to in
        (Ok lookup, (w, (from, to)))
    end).

Definition prime_one (l : LogFileMemDb) (rec : AteHash * option bytes) : LogFileMemDb :=
  let '(record, data) := rec in
  match md_lookup l !! record with
  | None => l
  | Some lookup =>
      match md_memdb l !! lookup with
      | None => l
      | Some entry =>
          {| md_offset := md_offset l; md_lookup := md_lookup l;
             md_memdb := <[lookup := {| le_header := le_header entry; le_meta := le_meta entry;
                                        le_data := match data with
                                          | Some a => LogSome a
                                          | None => LogNone
                                          end |}]> (md_memdb l);
             md_header := md_header l |}
      end
  end.

Definition prime (records : list (AteHash * option bytes)) (l : LogFileMemDb) : LogFileMemDb :=
  foldl prime_one l records.

Definition count (l : LogFileMemDb) : nat := size (md_lookup l).

Definition begin_flip (header_bytes : bytes)
    : st (unit * LogFileMemDb) SerializationErrorKind LogFileMemDb :=
  st_mk (λ s, (Ok (new header_bytes), s)).
End ops.
End LogFileMemDb.

#[global] Instance LogFileMemDb_log `{CryptoPrims} `{MetaSerializer}
    : LogFile unit LogFileMemDb := {
  lf_rotate := LogFileMemDb.rotate;
  lf_copy := LogFileMemDb.copy;
  lf_write := LogFileMemDb.write;
  lf_copy_event := LogFileMemDb.copy_event;
  lf_load := LogFileMemDb.load;
  lf_move_log_file _ := mret ();
  lf_begin_flip := LogFileMemDb.begin_flip;
  lf_flush := mret ();
  lf_count := LogFileMemDb.count;
  lf_prime := LogFileMemDb.prime;
  lf_size := md_offset;
  lf_index _ := 0;
  lf_offset := md_offset;
  lf_header _ l := md_header l;
  lf_destroy := mret ();
}.

(** ** The contract holds *)

Section laws.
Context `{CryptoPrims} `{MetaSerializer}.

(** Every hash known leads to an entry that loads under it; positions are handed
    out in order. *)
Definition memdb_inv (l : LogFileMemDb) : Prop :=
  ∀ h lk, md_lookup l !! h = Some lk →
    ll_offset lk < md_offset l
    ∧ ∃ en d, md_memdb l !! lk = Some en ∧ entry_load lk en = Ok d
              ∧ loaded h (forget_event (ld_data d)) d.

Definition memdb_contents (l : LogFileMemDb) (h : AteHash) : option EventWeakData :=
  lk ← md_lookup l !! h; en ← md_memdb l !! lk; d ← result_ok (entry_load lk en);
  Some (forget_event (ld_data d)).

Lemma memdb_contents_Some l h e : memdb_inv l → memdb_contents l h = Some e →
  ∃ lk en d, md_lookup l !! h = Some lk ∧ md_memdb l !! lk = Some en
    ∧ entry_load lk en = Ok d ∧ loaded h e d.
Proof.
  intros Hinv. unfold memdb_contents. destruct (md_lookup l !! h) as [lk|] eqn:Hl; [|done].
  destruct (Hinv h lk Hl) as (_ & en & d & Hen & Hd & Hload).
  simpl. rewrite Hen. simpl. rewrite Hd. simpl. intros [= <-]. eauto 7.
Qed.

Lemma memdb_contents_None l h : memdb_inv l → memdb_contents l h = None →
  md_lookup l !! h = None.
Proof.
  intros Hinv. unfold memdb_contents. destruct (md_lookup l !! h) as [lk|] eqn:Hl; [|done].
  destruct (Hinv h lk Hl) as (_ & en & d & Hen & Hd & _).
  simpl. rewrite Hen. simpl. by rewrite Hd.
Qed.

(** Inserting an entry that loads as [e] under [h] adds just that. *)
Lemma insert_entry_ok l h meta data format e :
  memdb_inv l →
  (∀ lk, ∃ d, entry_load lk {| le_header := {| lh_offset := ll_offset lk; lh_format := format |};
                               le_meta := meta; le_data := data |} = Ok d ∧ loaded h e d) →
  let l' := (LogFileMemDb.insert_entry h meta data format l).2 in
  memdb_inv l' ∧ ∀ h', memdb_contents l' h' = if decide (h' = h) then Some e
                                              else memdb_contents l h'.
Proof.
  intros Hinv Hen. set (lk := {| ll_index := 0; ll_offset := md_offset l |}).
  destruct (Hen lk) as (d & Hd & Hload).
  assert (forget_event (ld_data d) = e) as He by apply Hload.
  assert (∀ h' lk', md_lookup l !! h' = Some lk' → lk' ≠ lk) as Hfresh.
  { intros h' lk' Hl ->. apply Hinv in Hl as [Hlt _]. simpl in Hlt. lia. }
  simpl. fold lk. split.
  - intros h' lk' Hl'. simpl in *. destruct (decide (h' = h)) as [->|Hne].
    + rewrite lookup_insert_eq in Hl'. injection Hl' as <-. split; [simpl; lia|].
      rewrite lookup_insert_eq. eexists _, d. by rewrite He.
    + rewrite lookup_insert_ne in Hl' by done.
      rewrite lookup_insert_ne by (symmetry; eauto).
      apply Hinv in Hl' as (? & ?). split; [lia|done].
  - intros h'. unfold memdb_contents. simpl. case_decide as Hh.
    + subst h'. rewrite lookup_insert_eq. simpl. rewrite lookup_insert_eq. simpl.
      simpl in Hd. rewrite Hd. simpl. by rewrite He.
    + rewrite lookup_insert_ne by done. destruct (md_lookup l !! h') as [lk'|] eqn:Hl; [|done].
      simpl. by rewrite lookup_insert_ne by (symmetry; eauto).
Qed.

Lemma to_log_data_bytes b : message_bytes (MessageBytes.to_log_data b) = b.
Proof. by destruct b. Qed.

Lemma memdb_write_ok l e raw : memdb_inv l → meta_ok e → EventWeakData.as_header_raw e = Ok raw →
  ∃ lk l', LogFileMemDb.write e ((), l) = (Ok lk, ((), l')) ∧ memdb_inv l'
    ∧ ∀ h, memdb_contents l' h
           = if decide (h = raw_event_hash raw) then Some (forget_event e) else memdb_contents l h.
Proof.
  intros Hinv Hok Hraw. unfold LogFileMemDb.write, st_mk. rewrite Hraw.
  destruct (insert_entry_ok l (raw_event_hash raw) (raw_meta_bytes raw)
    (MessageBytes.to_log_data (ew_data_bytes e)) (ew_format e) (forget_event e) Hinv)
    as [Hinv' Hc].
  - intros lk. pose proof (loaded_written e raw lk Hok Hraw) as Hw.
    eapply (loaded_entry _ _ _ {| le_header := _; le_meta := _; le_data := _ |} lk)
      in Hw as (d & ? & ? & _); [eauto|..]; simpl; [done|apply to_log_data_bytes|done].
  - eauto.
Qed.

Lemma memdb_load_ok l h e : memdb_inv l → memdb_contents l h = Some e →
  ∃ d, LogFileMemDb.load h ((), l) = (Ok d, ((), l)) ∧ loaded h e d.
Proof.
  intros Hinv Hc. destruct (memdb_contents_Some l h e Hinv Hc) as (lk & en & d & Hl & He & Hd & Hload).
  exists d. unfold LogFileMemDb.load, st_mk. rewrite Hl, He, Hd. simpl.
  rewrite decide_True; [done|]. symmetry. apply Hload.
Qed.

Lemma memdb_copy_event_ok from to h e :
  memdb_inv from → memdb_inv to → memdb_contents from h = Some e →
  ∃ lk to', LogFileMemDb.copy_event h ((), (from, to)) = (Ok lk, ((), (from, to')))
    ∧ memdb_inv to'
    ∧ ∀ h', memdb_contents to' h' = if decide (h' = h) then Some e else memdb_contents to h'.
Proof.
  intros Hf Ht Hc. destruct (memdb_load_ok from h e Hf Hc) as (d & Hd & Hload).
  unfold LogFileMemDb.copy_event, st_mk. rewrite Hd.
  destruct (insert_entry_ok to h (raw_meta_bytes (ld_header d))
    (MessageBytes.to_log_data (ew_data_bytes (ld_data d))) (ew_format (ld_data d)) e Ht)
    as [Hinv' Hc']; [|eauto].
  intros lk.
  eapply (loaded_entry h e d {| le_header := _; le_meta := _; le_data := _ |} lk)
    in Hload as (d' & ? & ? & _); [eauto|..]; simpl; [done|apply to_log_data_bytes|done].
Qed.

#[global] Program Instance LogFileMemDb_spec : LogFileSpec unit LogFileMemDb := {
  lf_inv _ := memdb_inv;
  contents _ := memdb_contents;
  storable := meta_ok;
  apart _ _ _ := True;
  can_flip _ _ := True;
}.
Next Obligation. exact meta_ok_forget. Qed.
Next Obligation. done. Qed.
Next Obligation.
  intros [] l e raw Hinv Hok Hraw _. simpl in *.
  destruct (memdb_write_ok l e raw Hinv Hok Hraw) as (lk & l' & ? & ? & ?). by exists lk, (), l'.
Qed.
Next Obligation.
  intros [] l e err Herr. simpl. unfold LogFileMemDb.write, st_mk. by rewrite Herr.
Qed.
Next Obligation.
  intros [] l h e Hinv Hc. simpl in *. destruct (memdb_load_ok l h e Hinv Hc) as (d & ? & ?).
  by exists d, (), l.
Qed.
Next Obligation.
  intros [] l h Hinv Hc. simpl in *. exists (), l. unfold LogFileMemDb.load, st_mk.
  by rewrite (memdb_contents_None l h Hinv Hc).
Qed.
Next Obligation.
  intros [] from to h e Hf Ht _ Hc _ _. simpl in *.
  destruct (memdb_copy_event_ok from to h e Hf Ht Hc) as (lk & to' & ? & ? & ?).
  by exists lk, (), from, to'.
Qed.
Next Obligation. intros [] l Hinv. by exists (), l, l. Qed.
Next Obligation. intros [] l Hinv. by exists (), l. Qed.
Next Obligation. intros [] l path Hinv. by exists (), l. Qed.
Next Obligation. done. Qed.
Next Obligation.
  intros [] l hdr Hinv _ _. exists (), l, (LogFileMemDb.new hdr). simpl.
  split; [done|]. split; [done|]. split; [|by repeat split].
  intros h lk. simpl. by rewrite lookup_empty.
Qed.
End laws.
