(* ===== verification/RedoLog.v ===== *)
(** * The redo log and its flip

    lib/src/redo/core.rs, flip.rs and flags.rs: the log a chain writes its events
    to, and the flip by which compaction replaces it: while a second log is filled
    with the events that are kept, the writes that still arrive go to the current
    log and are deferred; finishing the flip replays them into the new log and puts
    it in place of the old.  Everything here is proved against [LogFileSpec], for
    any log file. *)

From S2P Require Import Prelude LogApi Crypto Codec Meta Event LogFile MemDb.

(** ** Open flags *)

Record OpenFlags : Type := {
  of_read_only : bool;
  of_truncate : bool;
  of_temporal : bool;
  of_integrity : TrustMode;
}.

Module OpenFlags.
Definition create_distributed : OpenFlags :=
  {| of_read_only := false; of_truncate := true; of_temporal := false;
     of_integrity := Distributed |}.
Definition create_centralized_server : OpenFlags :=
  {| of_read_only := false; of_truncate := true; of_temporal := false;
     of_integrity := Centralized Server |}.
Definition create_centralized_client : OpenFlags :=
  {| of_read_only := false; of_truncate := true; of_temporal := false;
     of_integrity := Centralized Client |}.
Definition open_distributed : OpenFlags :=
  {| of_read_only := false; of_truncate := false; of_temporal := false;
     of_integrity := Distributed |}.
Definition open_centralized_server : OpenFlags :=
  {| of_read_only := false; of_truncate := false; of_temporal := false;
     of_integrity := Centralized Server |}.
Definition open_centralized_client : OpenFlags :=
  {| of_read_only := false; of_truncate := false; of_temporal := false;
     of_integrity := Centralized Client |}.
Definition ethereal_distributed : OpenFlags :=
  {| of_read_only := false; of_truncate := false; of_temporal := true;
     of_integrity := Distributed |}.
Definition ethereal_centralized_server : OpenFlags :=
  {| of_read_only := false; of_truncate := false; of_temporal := true;
     of_integrity := Centralized Server |}.
Definition ethereal_centralized_client : OpenFlags :=
  {| of_read_only := false; of_truncate := false; of_temporal := true;
     of_integrity := Centralized Client |}.
End OpenFlags.

(** ** State *)

(** [flip] is the [RedoLogFlip] of a flip under way: its deferred events. *)
Record RedoLog (L : Type) : Type := {
  rl_log_path : option string;
  rl_flip : option (list EventWeakData);
  rl_log_file : L;
}.
Arguments rl_log_path {L} r.
Arguments rl_flip {L} r.
Arguments rl_log_file {L} r.

Record FlippedLogFile (L : Type) : Type := {
  fl_log_file : L;
  fl_event_summary : list EventHeaderRaw;
}.
Arguments fl_log_file {L} f.
Arguments fl_event_summary {L} f.

(** Runs a log file's operation on the log file inside a larger state. *)
Definition on_log {W L T E A : Type} (get : T → L) (set : T → L → T) (c : st (W * L) E A)
    : st (W * T) E A :=
  λ '(w, t), let '(r, (w', l')) := c (w, get t) in (r, (w', set t l')).

Module RedoLog.
Section ops.
Context {W L : Type} `{CryptoPrims} `{MetaSerializer} `{LogFile W L}.

Definition with_log (r : RedoLog L) (l : L) : RedoLog L :=
  {| rl_log_path := rl_log_path r; rl_flip := rl_flip r; rl_log_file := l |}.

Definition with_flip (r : RedoLog L) (f : option (list EventWeakData)) : RedoLog L :=
  {| rl_log_path := rl_log_path r; rl_flip := f; rl_log_file := rl_log_file r |}.

Definition on_log_file {E A} (c : st (W * L) E A) : st (W * RedoLog L) E A :=
  on_log rl_log_file with_log c.

Definition rotate (header_bytes : bytes) : st (W * RedoLog L) SerializationErrorKind unit :=
  on_log_file (lf_rotate header_bytes).

Definition begin_flip (header_bytes : bytes)
    : st (W * RedoLog L) SerializationErrorKind (FlippedLogFile L) :=
  st_mk (λ '(w, r),
    match rl_flip r with
    | None =>
        let '(res, (w, r)) := on_log_file (lf_begin_flip header_bytes) (w, r) in
        match res with
        | Ok new =>
            (Ok {| fl_log_file := new; fl_event_summary := [] |}, (w, with_flip r (Some [])))
        | Err e => (Err e, (w, r))
        end
    | Some _ => (Err (IO Other), (w, r))
    end).

(** The loop over the deferred events: each goes to the summary, to the new log and
    to the callback, whose effect is on [C]. *)
Fixpoint replay {C : Type} (cb : LogLookup → EventHeader → C → C)
    (deferred : list EventWeakData) (summary : list EventHeaderRaw)
    : st (W * L * C) SerializationErrorKind (list EventHeaderRaw) :=
  match deferred with
  | [] => mret summary
  | d :: deferred => st_mk (λ '(w, l, c),
      match EventWeakData.as_header d with
      | Err e => (Err e, (w, l, c))
      | Ok header =>
          let summary := summary ++ [eh_raw header] in
          let '(res, (w, l)) := lf_write d (w, l) in
          match res with
          | Err e => (Err e, (w, l, c))
          | Ok lookup => replay cb deferred summary (w, l, cb lookup header c)
          end
      end)
  end.

(** A failure leaves the old log in place; the deferred events it had drained are
    gone from the flip. *)
Definition finish_flip {C : Type} (flip : FlippedLogFile L)
    (cb : LogLookup → EventHeader → C → C)
    : st (W * RedoLog L * C) SerializationErrorKind (list EventHeaderRaw) :=
  st_mk (λ '(w, r, c),
    match rl_flip r with
    | None => (Err (IO Other), (w, r, c))
    | Some deferred =>
        let event_summary := fl_event_summary flip in
        match lf_copy (w, fl_log_file flip) with
        | (Err e, (w, _)) => (Err e, (w, r, c))
        | (Ok new_log_file, (w, _)) =>
            let r := with_flip r (Some []) in
            match replay cb deferred event_summary (w, new_log_file, c) with
            | (Err e, (w, _, c)) => (Err e, (w, r, c))
            | (Ok event_summary, (w, new_log_file, c)) =>
                match lf_flush (w, new_log_file) with
                | (Err e, (w, _)) => (Err e, (w, r, c))
                | (Ok _, (w, new_log_file)) =>
                    match (match rl_log_path r with
                           | Some a => lf_move_log_file a (w, new_log_file)
                           | None => (Ok (), (w, new_log_file))
                           end) with
                    | (Err e, (w, _)) => (Err e, (w, r, c))
                    | (Ok _, (w, new_log_file)) =>
                        (Ok event_summary, (w, with_flip (with_log r new_log_file) None, c))
                    end
                end
            end
        end
    end).

Definition load (hash : AteHash) : st (W * RedoLog L) LoadErrorKind LoadData :=
  on_log_file (lf_load hash).

Definition prime (records : list (AteHash * option bytes)) (r : RedoLog L) : RedoLog L :=
  with_log r (lf_prime records (rl_log_file r)).

Definition count (r : RedoLog L) : nat := lf_count (rl_log_file r).
Definition size (r : RedoLog L) : Z := lf_size (rl_log_file r).
Definition offset (r : RedoLog L) : Z := lf_offset (rl_log_file r).
Definition end_ (r : RedoLog L) : LogLookup :=
  {| ll_index := lf_index (rl_log_file r); ll_offset := lf_offset (rl_log_file r) |}.
Definition destroy : st (W * RedoLog L) SerializationErrorKind unit := on_log_file lf_destroy.
Definition header (index : Z) (r : RedoLog L) : bytes := lf_header index (rl_log_file r).

Definition write (evt : EventWeakData) : st (W * RedoLog L) SerializationErrorKind LogLookup :=
  st_mk (λ '(w, r),
    let r := match rl_flip r with
             | Some deferred => with_flip r (Some (deferred ++ [evt]))
             | None => r
             end in
    on_log_file (lf_write evt) (w, r)).

Definition flush : st (W * RedoLog L) SerializationErrorKind unit := on_log_file lf_flush.
End ops.
End RedoLog.

Module FlippedLogFile.
Section ops.
Context {W L : Type} `{CryptoPrims} `{MetaSerializer} `{LogFile W L}.

Definition with_log (f : FlippedLogFile L) (l : L) : FlippedLogFile L :=
  {| fl_log_file := l; fl_event_summary := fl_event_summary f |}.

Definition write (evt : EventWeakData)
    : st (W * FlippedLogFile L) SerializationErrorKind LogLookup :=
  st_mk (λ '(w, f),
    let '(res, (w, f)) := on_log fl_log_file with_log (lf_write evt) (w, f) in
    match res with
    | Err e => (Err e, (w, f))
    | Ok ret =>
        match EventWeakData.as_header_raw evt with
        | Err e => (Err e, (w, f))
        | Ok raw =>
            (Ok ret, (w, {| fl_log_file := fl_log_file f;
                            fl_event_summary := fl_event_summary f ++ [raw] |}))
        end
    end).

Definition flush : st (W * FlippedLogFile L) SerializationErrorKind unit :=
  on_log fl_log_file with_log lf_flush.

Definition count (f : FlippedLogFile L) : nat := lf_count (fl_log_file f).

Definition copy_event (from_pointer : AteHash)
    : st (W * (RedoLog L * FlippedLogFile L)) LoadErrorKind LogLookup :=
  st_mk (λ '(w, (r, f)),
    let '(res, (w, (from, to))) := lf_copy_event from_pointer (w, (rl_log_file r, fl_log_file f)) in
    (res, (w, (RedoLog.with_log r from, with_log f to)))).
End ops.
End FlippedLogFile.

(** ** A flip with writes arriving *)

(** What may happen between [begin_flip] and [finish_flip]: events arrive at the redo
    log, events of its history are copied over or written to the new log, and events
    are loaded. *)
Inductive FlipOp : Type :=
  | OpWrite (e : EventWeakData)
  | OpCopy (h : AteHash)
  | OpFlipWrite (e : EventWeakData)
  | OpLoad (h : AteHash).

Section flip.
Context {W L : Type} `{CryptoPrims} `{MetaSerializer} `{!LogFile W L} `{!LogFileSpec W L}.

(** Runs one operation; [None] when it fails. *)
Definition flip_op (op : FlipOp) (s : W * (RedoLog L * FlippedLogFile L))
    : option (W * (RedoLog L * FlippedLogFile L)) :=
  let '(w, (r, f)) := s in
  match op with
  | OpWrite e =>
      match RedoLog.write e (w, r) with (Ok _, (w, r)) => Some (w, (r, f)) | _ => None end
  | OpCopy h =>
      match FlippedLogFile.copy_event h s with (Ok _, s) => Some s | _ => None end
  | OpFlipWrite e =>
      match FlippedLogFile.write e (w, f) with (Ok _, (w, f)) => Some (w, (r, f)) | _ => None end
  | OpLoad h =>
      match RedoLog.load h (w, r) with (Ok _, (w, r)) => Some (w, (r, f)) | _ => None end
  end.

Fixpoint flip_ops (ops : list FlipOp) (s : W * (RedoLog L * FlippedLogFile L))
    : option (W * (RedoLog L * FlippedLogFile L)) :=
  match ops with
  | [] => Some s
  | op :: ops => s ← flip_op op s; flip_ops ops s
  end.

(** The events in play, by hash: no two of them collide. *)
Variable U : AteHash → option EventWeakData.

Definition agrees (w : W) (l : L) : Prop :=
  ∀ h e, contents w l h = Some e → U h = Some e.

Definition in_play (e : EventWeakData) : Prop :=
  storable e ∧ ∃ raw, EventWeakData.as_header_raw e = Ok raw
                      ∧ U (raw_event_hash raw) = Some (forget_event e).

Definition hash_of (e : EventWeakData) : option AteHash :=
  raw_event_hash <$> result_ok (EventWeakData.as_header_raw e).

(** An operation that makes sense at all: what it writes is in play, what it copies
    or loads is in the history [hist] of the log at the start of the flip. *)
Definition op_ok (hist : AteHash → option EventWeakData) (op : FlipOp) : Prop :=
  match op with
  | OpWrite e | OpFlipWrite e => in_play e
  | OpCopy h => ∃ e, hist h = Some e ∧ storable e
  | OpLoad h => is_Some (hist h)
  end.

(** The hashes an operation brings to the log that the flip ends with. *)
Definition op_brings (op : FlipOp) : option AteHash :=
  match op with
  | OpWrite e | OpFlipWrite e => hash_of e
  | OpCopy h => Some h
  | OpLoad _ => None
  end.

Definition deferred_of (ops : list FlipOp) : list EventWeakData :=
  omap (λ op, match op with OpWrite e => Some e | _ => None end) ops.

Definition copied_of (ops : list FlipOp) : list AteHash :=
  omap (λ op, match op with OpWrite _ => None | op => op_brings op end) ops.

(** The state of a flip after [ops]: the old log still has its history, the new log
    has what was copied and written to it, and the writes are deferred. *)
Definition flip_inv (hist : AteHash → option EventWeakData) (ops : list FlipOp)
    (s : W * (RedoLog L * FlippedLogFile L)) : Prop :=
  let '(w, (r, f)) := s in
  let l := rl_log_file r in let n := fl_log_file f in
  lf_inv w l ∧ lf_inv w n ∧ apart w l n
  ∧ agrees w l ∧ (∀ h e, hist h = Some e → contents w l h = Some e)
  ∧ rl_flip r = Some (deferred_of ops)
  ∧ (∀ h, contents w n h = if decide (h ∈ copied_of ops) then U h else None).

Lemma in_play_hash e : in_play e →
  ∃ raw h, EventWeakData.as_header_raw e = Ok raw ∧ raw_event_hash raw = h
           ∧ hash_of e = Some h ∧ U h = Some (forget_event e) ∧ storable e.
Proof.
  intros (Hs & raw & Hraw & HU). exists raw, (raw_event_hash raw).
  unfold hash_of. by rewrite Hraw.
Qed.

(** Writing an event in play to a log whose events are in play. *)
Lemma write_in_play w l e : lf_inv w l → in_play e → agrees w l →
  ∃ h lk w' l', hash_of e = Some h ∧ lf_write e (w, l) = (Ok lk, (w', l'))
    ∧ lf_inv w' l' ∧ frame w l w' l' ∧ agrees w' l'
    ∧ ∀ h', contents w' l' h' = if decide (h' = h) then U h else contents w l h'.
Proof.
  intros Hinv (raw & h & Hraw & Hh & Hhash & HU & Hst)%in_play_hash Hag.
  destruct (lf_write_ok w l e raw Hinv Hst Hraw) as (lk & w' & l' & E & Hinv' & Hfr & Hc).
  { intros old Hold. rewrite Hh in Hold. apply Hag in Hold. congruence. }
  rewrite Hh in Hc. exists h, lk, w', l'.
  split; [done|]. split; [done|]. split; [done|]. split; [done|]. split.
  - intros h' e'. rewrite Hc. case_decide; [subst; congruence|apply Hag].
  - intros h'. rewrite Hc, HU. done.
Qed.

Lemma deferred_snoc ops op : deferred_of (ops ++ [op])
  = deferred_of ops ++ match op with OpWrite e => [e] | _ => [] end.
Proof. unfold deferred_of. rewrite omap_app. by destruct op. Qed.

Lemma copied_snoc ops op : copied_of (ops ++ [op])
  = copied_of ops ++ match op with
                     | OpWrite _ => []
                     | op => option_list (op_brings op)
                     end.
Proof.
  unfold copied_of. rewrite omap_app. by destruct op; simpl; repeat case_match.
Qed.

Lemma copied_elem ops op h :
  h ∈ copied_of (ops ++ [op])
  ↔ h ∈ copied_of ops ∨ match op with OpWrite _ => False | op => op_brings op = Some h end.
Proof.
  rewrite copied_snoc, elem_of_app.
  destruct op as [e|h'|e|h']; simpl; [..|by rewrite elem_of_nil; intuition].
  - rewrite elem_of_nil. intuition.
  - rewrite list_elem_of_singleton. intuition congruence.
  - destruct (hash_of e); simpl; rewrite ?list_elem_of_singleton, ?elem_of_nil;
      intuition congruence.
Qed.

(** Every operation that makes sense succeeds and keeps the flip's state. *)
Lemma flip_op_ok hist ops op s :
  flip_inv hist ops s → op_ok hist op →
  ∃ s', flip_op op s = Some s' ∧ flip_inv hist (ops ++ [op]) s'.
Proof.
  destruct s as [w [r f]].
  intros (Il & In & Aln & Hag & Hhist & Hdef & Hnew) Hop.
  assert (agrees w (fl_log_file f)) as Hagn.
  { intros h e. rewrite Hnew. by case_decide. }
  destruct op as [e|h|e|h]; simpl in *.
  - destruct (write_in_play w (rl_log_file r) e Il Hop Hag)
      as (h & lk & w' & l' & Hhash & E & Il' & Hfr & Hag' & Hc).
    destruct (Hfr _ In Aln) as (In' & Cn & Aln').
    unfold RedoLog.write, st_mk, RedoLog.on_log_file, on_log. rewrite Hdef. simpl. rewrite E.
    eexists. split; [done|]. simpl. do 4 (split; [done|]). split; [|split].
    + intros h' e' He'. rewrite Hc. case_decide; [subst|by apply Hhist].
      by apply Hag, Hhist.
    + by rewrite deferred_snoc.
    + intros h'. rewrite Cn, Hnew. apply decide_ext. rewrite copied_elem. intuition.
  - destruct Hop as (e & He & Hst). apply Hhist in He as Hl.
    destruct (lf_copy_event_ok w (rl_log_file r) (fl_log_file f) h e Il In Aln Hl Hst)
      as (lk & w' & l' & n' & E & Il' & In' & A' & Cl & Cn).
    { intros old Hold. apply Hagn in Hold. apply Hag in Hl. congruence. }
    unfold FlippedLogFile.copy_event, st_mk. rewrite E. eexists. split; [done|]. simpl.
    do 3 (split; [done|]). split; [intros h' e'; rewrite Cl; apply Hag|].
    split; [intros h' e'; rewrite Cl; apply Hhist|]. split.
    + by rewrite deferred_snoc, app_nil_r.
    + intros h'. rewrite Cn. destruct (decide (h' = h)) as [->|Hne].
      * rewrite decide_True by (rewrite copied_elem; by right). symmetry. by apply Hag.
      * rewrite Hnew. apply decide_ext. rewrite copied_elem. simpl. intuition congruence.
  - destruct (write_in_play w (fl_log_file f) e In Hop Hagn)
      as (h & lk & w' & n' & Hhash & E & In' & Hfr & Hag' & Hc).
    destruct (Hfr _ Il (apart_sym _ _ _ Aln)) as (Il' & Cl & Anl').
    destruct (in_play_hash e Hop) as (raw & h2 & Hraw & _).
    unfold FlippedLogFile.write, st_mk, on_log. rewrite E, Hraw.
    eexists. split; [done|]. simpl. do 2 (split; [done|]). split; [by apply apart_sym|].
    split; [intros h' e'; rewrite Cl; apply Hag|].
    split; [intros h' e'; rewrite Cl; apply Hhist|]. split.
    + by rewrite deferred_snoc, app_nil_r.
    + intros h'. rewrite Hc. destruct (decide (h' = h)) as [->|Hne].
      * rewrite decide_True by (rewrite copied_elem; by right). done.
      * rewrite Hnew. apply decide_ext. rewrite copied_elem. simpl. rewrite Hhash.
        intuition congruence.
  - destruct Hop as [e He]. apply Hhist in He.
    destruct (lf_load_ok w (rl_log_file r) h e Il He)
      as (d & w' & l' & E & _ & Il' & Hfr & Hc).
    destruct (Hfr _ In Aln) as (In' & Cn & Aln').
    unfold RedoLog.load, RedoLog.on_log_file, on_log. rewrite E.
    eexists. split; [done|]. simpl. do 3 (split; [done|]).
    split; [intros h' e'; rewrite Hc; apply Hag|].
    split; [intros h' e'; rewrite Hc; apply Hhist|]. split.
    + by rewrite deferred_snoc, app_nil_r.
    + intros h'. rewrite Cn, Hnew. apply decide_ext. rewrite copied_elem. simpl.
      intuition congruence.
Qed.

Lemma flip_ops_ok hist ops : ∀ done s,
  flip_inv hist done s → Forall (op_ok hist) ops →
  ∃ s', flip_ops ops s = Some s' ∧ flip_inv hist (done ++ ops) s'.
Proof.
  induction ops as [|op ops IH]; intros done s Hs Hops; simpl.
  - exists s. by rewrite app_nil_r.
  - inversion Hops as [|? ? Hop Hrest]; subst.
    destruct (flip_op_ok hist done op s Hs Hop) as (s1 & -> & Hs1). simpl.
    destruct (IH _ _ Hs1 Hrest) as (s2 & -> & Hs2). exists s2. split; [done|].
    by rewrite <- app_assoc in Hs2.
Qed.

Lemma replay_ok {C} (cb : LogLookup → EventHeader → C → C) deferred : ∀ summary w l c,
  lf_inv w l → agrees w l → Forall in_play deferred →
  ∃ w' l' c', RedoLog.replay cb deferred summary (w, l, c)
      = (Ok (summary ++ omap (λ e, result_ok (EventWeakData.as_header_raw e)) deferred), (w', l', c'))
    ∧ lf_inv w' l' ∧ agrees w' l'
    ∧ ∀ h, contents w' l' h = if decide (h ∈ omap hash_of deferred) then U h else contents w l h.
Proof.
  induction deferred as [|e deferred IH]; intros summary w l c Hinv Hag Hplay.
  - exists w, l, c. split; [simpl; by rewrite app_nil_r|]. split; [done|]. split; [done|].
    intros h. rewrite decide_False; [done|apply not_elem_of_nil].
  - inversion Hplay as [|? ? He Hrest]; subst.
    destruct (write_in_play w l e Hinv He Hag)
      as (h & lk & w1 & l1 & Hhash & E & Hinv1 & _ & Hag1 & Hc1).
    destruct (in_play_hash e He) as (raw & h2 & Hraw & _).
    edestruct (IH (summary ++ [raw]) w1 l1) as (w2 & l2 & c2 & E2 & Hinv2 & Hag2 & Hc2); [done..|].
    exists w2, l2, c2. cbn [RedoLog.replay]. unfold st_mk, EventWeakData.as_header.
    rewrite Hraw. simpl. rewrite E. rewrite Hraw. cbn [result_ok]. split.
    + rewrite E2. by rewrite <- app_assoc.
    + split; [done|]. split; [done|]. intros h'. rewrite Hc2, Hhash.
      destruct (decide (h' ∈ omap hash_of deferred)) as [Hin|Hnin].
      * rewrite decide_True; [done|]. by apply list_elem_of_further.
      * rewrite Hc1. destruct (decide (h' = h)) as [->|Hne].
        -- rewrite decide_True; [done|]. apply list_elem_of_here.
        -- rewrite decide_False; [done|]. rewrite elem_of_cons. intuition.
Qed.

Lemma brings_elem ops h :
  h ∈ omap op_brings ops ↔ h ∈ omap hash_of (deferred_of ops) ∨ h ∈ copied_of ops.
Proof.
  induction ops as [|op ops IH]; simpl; [by rewrite elem_of_nil; intuition|].
  destruct op as [e|h'|e|h']; simpl; try (destruct (hash_of e)); simpl;
    rewrite ?elem_of_cons, IH; intuition.
Qed.

Lemma begin_flip_ok w r hdr : lf_inv w (rl_log_file r) → can_flip w (rl_log_file r) →
  Z.of_nat (length hdr) ≤ u32_max → rl_flip r = None → agrees w (rl_log_file r) →
  ∃ f w1 r1, RedoLog.begin_flip hdr (w, r) = (Ok f, (w1, r1))
    ∧ rl_log_path r1 = rl_log_path r ∧ fl_event_summary f = []
    ∧ flip_inv (contents w (rl_log_file r)) [] (w1, (r1, f))
    ∧ ∀ h, contents w1 (rl_log_file r1) h = contents w (rl_log_file r) h.
Proof.
  intros Hinv Hcan Hhdr Hidle Hag.
  destruct (lf_begin_flip_ok w (rl_log_file r) hdr Hinv Hcan Hhdr)
    as (w1 & l1 & new & E1 & Il & In & A & Cl & Cn).
  eexists {| fl_log_file := new; fl_event_summary := [] |}, w1, _. split.
  { unfold RedoLog.begin_flip, st_mk, RedoLog.on_log_file, on_log. by rewrite Hidle, E1. }
  split; [done|]. split; [done|]. split; [|done].
  simpl. do 3 (split; [done|]). split; [intros h e; rewrite Cl; apply Hag|].
  split; [intros h e; by rewrite Cl|]. split; [done|]. intros h. by rewrite Cn.
Qed.

Lemma finish_flip_ok {C} (cb : LogLookup → EventHeader → C → C) (c : C) hist ops w r f :
  flip_inv hist ops (w, (r, f)) → Forall in_play (deferred_of ops) →
  ∃ w' r' c', RedoLog.finish_flip f cb (w, r, c)
      = (Ok (fl_event_summary f
             ++ omap (λ e, result_ok (EventWeakData.as_header_raw e)) (deferred_of ops)),
         (w', r', c'))
    ∧ rl_flip r' = None ∧ rl_log_path r' = rl_log_path r ∧ lf_inv w' (rl_log_file r')
    ∧ ∀ h, contents w' (rl_log_file r') h = if decide (h ∈ omap op_brings ops) then U h else None.
Proof.
  intros (Il & In & A & Hag & _ & Hdef & Cn) Hplay.
  destruct (lf_copy_ok w (fl_log_file f) In) as (w3 & ? & n3 & E3 & In3 & _ & C3).
  assert (agrees w3 n3) as Hag3.
  { intros h e. rewrite C3, Cn. by case_decide. }
  destruct (replay_ok cb (deferred_of ops) (fl_event_summary f) w3 n3 c In3 Hag3 Hplay)
    as (w4 & n4 & c4 & E4 & In4 & _ & C4).
  destruct (lf_flush_ok w4 n4 In4) as (w5 & n5 & E5 & In5 & _ & C5).
  assert (∃ w6 n6, match rl_log_path r with
      | Some a => lf_move_log_file a (w5, n5) | None => (Ok (), (w5, n5)) end = (Ok (), (w6, n6))
    ∧ lf_inv w6 n6 ∧ ∀ h, contents w6 n6 h = contents w5 n5 h) as (w6 & n6 & E6 & In6 & C6).
  { destruct (rl_log_path r) as [a|]; [|eauto].
    destruct (lf_move_ok w5 n5 a In5) as (w6 & n6 & ? & ? & _ & ?). eauto. }
  eexists w6, _, c4. split.
  { unfold RedoLog.finish_flip, st_mk. rewrite Hdef, E3, E4, E5. cbn [RedoLog.with_flip rl_log_path].
    rewrite E6. reflexivity. }
  simpl. split; [done|]. split; [done|]. split; [done|].
  intros h. rewrite C6, C5, C4, C3, Cn.
  destruct (decide (h ∈ omap hash_of (deferred_of ops))) as [Hd|Hd].
  - rewrite decide_True; [done|]. apply brings_elem. by left.
  - apply decide_ext. rewrite brings_elem. intuition.
Qed.

Lemma deferred_in_play hist ops : Forall (op_ok hist) ops → Forall in_play (deferred_of ops).
Proof.
  induction 1 as [|op ops Hop _ IH]; simpl; [constructor|].
  destruct op; simpl in *; [by constructor|done..].
Qed.

(** C2. A flip loses nothing.  Begin a flip on any log, let events arrive, be copied,
    written to the new log and loaded in any order: every one of these steps
    succeeds, finishing succeeds, and the log then in place holds exactly the events
    that were copied or written to the new log and those that arrived meanwhile,
    each under its hash.  The flip is over, and another may begin. *)
Theorem flip_loses_nothing {C : Type} (cb : LogLookup → EventHeader → C → C) (c : C)
  (w : W) (r : RedoLog L) (hdr : bytes) (ops : list FlipOp)
  (Hinv : lf_inv w (rl_log_file r)) (Hcan : can_flip w (rl_log_file r))
  (Hhdr : Z.of_nat (length hdr) ≤ u32_max) (Hidle : rl_flip r = None)
  (Hag : agrees w (rl_log_file r))
  (Hops : Forall (op_ok (contents w (rl_log_file r))) ops) :
  ∃ f w1 r1 w2 r2 f2 summary w3 r3 c3,
    RedoLog.begin_flip hdr (w, r) = (Ok f, (w1, r1))
    ∧ flip_ops ops (w1, (r1, f)) = Some (w2, (r2, f2))
    ∧ RedoLog.finish_flip f2 cb (w2, r2, c) = (Ok summary, (w3, r3, c3))
    ∧ rl_flip r3 = None ∧ lf_inv w3 (rl_log_file r3)
    ∧ (∀ h, contents w3 (rl_log_file r3) h
            = if decide (h ∈ omap op_brings ops) then U h else None).
Proof.
  destruct (begin_flip_ok w r hdr Hinv Hcan Hhdr Hidle Hag) as (f & w1 & r1 & E1 & _ & _ & I1 & _).
  destruct (flip_ops_ok _ ops [] _ I1 Hops) as ([w2 [r2 f2]] & E2 & I2).
  destruct (finish_flip_ok cb c _ _ _ _ _ I2) as (w3 & r3 & c3 & E3 & ? & _ & ? & ?);
    [by eapply deferred_in_play|].
  exists f, w1, r1, w2, r2, f2. eexists _, w3, r3, c3. done.
Qed.

(** What the callback of a flip sees: the headers of the deferred events. *)
Lemma replay_calls {C} (step : C → EventHeader → C) deferred : ∀ summary w l c r w' l' c',
  RedoLog.replay (λ _ h c, step c h) deferred summary (w, l, c) = (Ok r, (w', l', c')) →
  ∃ hs, Forall2 (λ e h, EventWeakData.as_header e = Ok h) deferred hs ∧ c' = foldl step c hs.
Proof.
  induction deferred as [|e deferred IH]; intros summary w l c r w' l' c'; cbn [RedoLog.replay].
  - intros [= _ _ _ <-]. by exists [].
  - unfold st_mk. destruct (EventWeakData.as_header e) as [hd|] eqn:Eh; [|done].
    destruct (lf_write e (w, l)) as [[lk|] [w1 l1]]; [|done].
    intros (hs & Hhs & ->)%IH. exists (hd :: hs). split; [by constructor | done].
Qed.

Lemma finish_flip_calls {C} (step : C → EventHeader → C) w r f c deferred res w' r' c' :
  rl_flip r = Some deferred →
  RedoLog.finish_flip f (λ _ h c, step c h) (w, r, c) = (Ok res, (w', r', c')) →
  ∃ hs, Forall2 (λ e h, EventWeakData.as_header e = Ok h) deferred hs ∧ c' = foldl step c hs.
Proof.
  unfold RedoLog.finish_flip, st_mk. intros ->.
  destruct (lf_copy _) as [[n|] [w1 ?]]; [|done].
  destruct (RedoLog.replay _ _ _ _) as [[r1|] [[w2 l2] c2]] eqn:E; [|done].
  destruct (lf_flush _) as [[?|] [w3 l3]]; [|done].
  destruct (match rl_log_path _ with Some a => _ | None => _ end) as [[?|] [w4 l4]]; [|done].
  intros [= _ _ _ <-]. by eapply replay_calls.
Qed.

(** Flushing the log under a flip does not change the flip. *)
Lemma flip_flush hist ops w r f : flip_inv hist ops (w, (r, f)) →
  ∃ w' r', RedoLog.flush (w, r) = (Ok (), (w', r')) ∧ rl_log_path r' = rl_log_path r
    ∧ flip_inv hist ops (w', (r', f))
    ∧ ∀ h, contents w' (rl_log_file r') h = contents w (rl_log_file r) h.
Proof.
  intros (Il & In & A & Hag & Hhist & Hdef & Cn).
  destruct (lf_flush_ok w (rl_log_file r) Il) as (w' & l' & E & Il' & Hfr & Hc).
  destruct (Hfr _ In A) as (In' & Cn' & A').
  eexists w', _. split.
  { unfold RedoLog.flush, RedoLog.on_log_file, on_log. by rewrite E. }
  split; [done|]. split; [|done]. simpl. do 3 (split; [done|]).
  split; [intros h e; rewrite Hc; apply Hag|].
  split; [intros h e He; rewrite Hc; by apply Hhist|]. split; [done|].
  intros h. by rewrite Cn'.
Qed.

(** Only one flip at a time: beginning a second one, or finishing one that was
    not begun, fails and changes neither the world nor the log. *)
Theorem flip_guarded {C : Type} (cb : LogLookup → EventHeader → C → C) (c : C)
  (w : W) (r : RedoLog L) (f : FlippedLogFile L) (hdr : bytes) :
  match rl_flip r with
  | Some _ => RedoLog.begin_flip hdr (w, r) = (Err (IO Other), (w, r))
  | None => RedoLog.finish_flip f cb (w, r, c) = (Err (IO Other), (w, r, c))
  end.
Proof.
  unfold RedoLog.begin_flip, RedoLog.finish_flip, st_mk. by destruct (rl_flip r).
Qed.

(** A write that the log takes can be loaded right after, flip or no flip, and
    during a flip it is deferred as well. *)
Theorem redo_write_load (w : W) (r : RedoLog L) (e : EventWeakData)
  (Hinv : lf_inv w (rl_log_file r)) (Hag : agrees w (rl_log_file r)) (Hplay : in_play e) :
  ∃ h lk w1 r1, hash_of e = Some h ∧ RedoLog.write e (w, r) = (Ok lk, (w1, r1))
    ∧ rl_flip r1 = (λ d, d ++ [e]) <$> rl_flip r
    ∧ ∃ d w2 r2, RedoLog.load h (w1, r1) = (Ok d, (w2, r2)) ∧ loaded h (forget_event e) d.
Proof.
  destruct (write_in_play w (rl_log_file r) e Hinv Hplay Hag)
    as (h & lk & w1 & l1 & Hhash & E & Hinv1 & _ & _ & Hc).
  destruct (in_play_hash e Hplay) as (raw & h2 & _ & _ & Hh2 & HU & _).
  assert (h2 = h) as -> by congruence.
  destruct (lf_load_ok w1 l1 h (forget_event e) Hinv1) as (d & w2 & l2 & E2 & Hd & _).
  { rewrite Hc, decide_True by done. done. }
  assert (∀ r', rl_log_file r' = l1 → ∃ d w2 r2,
    RedoLog.load h (w1, r') = (Ok d, (w2, r2)) ∧ loaded h (forget_event e) d) as Hload.
  { intros r' Hr'. unfold RedoLog.load, RedoLog.on_log_file, on_log. rewrite Hr', E2. eauto. }
  unfold RedoLog.write, st_mk, RedoLog.on_log_file, on_log.
  destruct (rl_flip r) eqn:Hf; simpl; rewrite E; eexists h, lk, w1, _;
    (split; [done|]; split; [reflexivity|]; split; [by simpl|by apply Hload]).
Qed.
End flip.

(** ** Witnesses, on the in-memory log *)

#[local] Existing Instance toy_prims.
#[local] Existing Instance toy_serializer.

Definition sample_event (n : Z) : EventWeakData :=
  EventWeakData.new (PrimaryKey.new n) [x01; byte_of_Z n] json_format.

(** A universe of three events. *)
Definition sample_universe (h : AteHash) : option EventWeakData :=
  find_map (λ e, if decide (hash_of e = Some h) then Some e else None)
    [sample_event 1; sample_event 2; sample_event 3].

(** A redo log with the first of them in its history. *)
Definition sample_log : RedoLog LogFileMemDb :=
  {| rl_log_path := None; rl_flip := None;
     rl_log_file := (LogFileMemDb.write (sample_event 1) ((), LogFileMemDb.new [])).2.2 |}.

Definition sample_hash (n : Z) : AteHash :=
  from_option id {| hash_val := [] |} (hash_of (sample_event n)).

Lemma sample_log_inv : memdb_inv (rl_log_file sample_log)
  ∧ ∀ h, memdb_contents (rl_log_file sample_log) h
         = if decide (h = sample_hash 1) then Some (sample_event 1) else None.
Proof.
  destruct (memdb_write_ok (LogFileMemDb.new []) (sample_event 1)
    (match EventWeakData.as_header_raw (sample_event 1) with
     | Ok raw => raw
     | Err _ => EventHeaderRaw.new (sample_hash 1) [] None 0 json_format
     end)) as (lk & l & E & Hinv & Hc).
  - intros h lk. simpl. by rewrite lookup_empty.
  - intros raw [= <-]. reflexivity.
  - reflexivity.
  - unfold sample_log. cbn [rl_log_file]. rewrite E. split; [done|].
    intros h. cbn [snd]. rewrite Hc. apply decide_ext. reflexivity.
Qed.

Lemma sample_in_play n : meta_ok (sample_event n) → sample_universe (sample_hash n) = Some (sample_event n) →
  is_Some (hash_of (sample_event n)) → in_play (W := unit) (L := LogFileMemDb) sample_universe (sample_event n).
Proof.
  unfold in_play, sample_hash, hash_of. intros Hok HU [h Hh]. split; [exact Hok|].
  destruct (EventWeakData.as_header_raw (sample_event n)) as [raw|err]; [|done].
  exists raw. split; [done|]. exact HU.
Qed.

Lemma sample_agrees : agrees sample_universe () (rl_log_file sample_log).
Proof.
  intros h e Hc. simpl in Hc. rewrite (proj2 sample_log_inv) in Hc. case_decide as Hh; [|done].
  rewrite Hh. injection Hc as <-. vm_compute. reflexivity.
Qed.

Lemma flip_loses_nothing_witness :
  ∃ w3 r3 summary c3, ∃ w2 r2 f2,
    RedoLog.finish_flip f2 (λ _ _ n, S n) (w2, r2, 0%nat) = (Ok summary, (w3, r3, c3))
    ∧ memdb_contents (rl_log_file r3) (sample_hash 1) = Some (sample_event 1)
    ∧ memdb_contents (rl_log_file r3) (sample_hash 2) = Some (sample_event 2).
Proof.
  destruct (flip_loses_nothing sample_universe (λ _ _ n, S n) 0%nat () sample_log [x00]
    [OpCopy (sample_hash 1); OpWrite (sample_event 2); OpLoad (sample_hash 1);
     OpFlipWrite (sample_event 3)])
    as (f & w1 & r1 & w2 & r2 & f2 & summary & w3 & r3 & c3 & _ & _ & E & _ & _ & Hc).
  - apply sample_log_inv.
  - exact I.
  - unfold u32_max. simpl. lia.
  - reflexivity.
  - exact sample_agrees.
  - assert (contents () (rl_log_file sample_log) (sample_hash 1) = Some (sample_event 1)) as H1.
    { simpl. rewrite (proj2 sample_log_inv). by rewrite decide_True. }
    rewrite !Forall_cons. split_and!; [..|by constructor]; cbn [op_ok].
    + exists (sample_event 1). split; [exact H1|intros raw [= <-]; reflexivity].
    + apply sample_in_play; [intros raw [= <-]; reflexivity|vm_compute; eauto..].
    + exists (sample_event 1). exact H1.
    + apply sample_in_play; [intros raw [= <-]; reflexivity|vm_compute; eauto..].
  - exists w3, r3, summary, c3, w2, r2, f2. split; [exact E|]. simpl in Hc. rewrite !Hc.
    split; vm_compute; reflexivity.
Defined.

Lemma redo_write_load_witness :
  ∃ lk w1 r1 d w2 r2, RedoLog.write (sample_event 2) ((), sample_log) = (Ok lk, (w1, r1))
    ∧ RedoLog.load (sample_hash 2) (w1, r1) = (Ok d, (w2, r2))
    ∧ raw_event_hash (ld_header d) = sample_hash 2.
Proof.
  destruct (redo_write_load sample_universe () sample_log (sample_event 2))
    as (h & lk & w1 & r1 & Hh & Ew & _ & d & w2 & r2 & El & Hd).
  - apply sample_log_inv.
  - exact sample_agrees.
  - apply sample_in_play; [intros raw [= <-]; reflexivity|vm_compute; eauto..].
  - assert (h = sample_hash 2) as -> by (unfold sample_hash; rewrite Hh; reflexivity).
    exists lk, w1, r1, d, w2, r2. split; [exact Ew|]. split; [exact El|]. apply Hd.
Defined.
