(* ===== verification/Fs.v ===== *)
(** * The file system

    What the file-backed log uses of [std::fs] and [tokio::fs]: names that refer to
    inodes and inodes that hold bytes.  A handle refers to an inode, so it survives
    the renaming and the removal of the name it was opened under.  Directories are
    not modelled; a call that fails for lack of space or permission is not. *)

From Stdlib Require Import Ascii.
From S2P Require Import Prelude LogApi.

Record Fs : Type := {
  fs_names : gmap string nat;
  fs_inodes : gmap nat bytes;
  fs_next : nat;
}.

Module Fs.
Definition content (fs : Fs) (i : nat) : bytes := from_option id [] (fs_inodes fs !! i).

Definition set_content (i : nat) (bs : bytes) (fs : Fs) : Fs :=
  {| fs_names := fs_names fs; fs_inodes := <[i := bs]> (fs_inodes fs); fs_next := fs_next fs |}.

Definition with_names (fs : Fs) (names : gmap string nat) : Fs :=
  {| fs_names := names; fs_inodes := fs_inodes fs; fs_next := fs_next fs |}.

(** [Path::exists] and [metadata().len()]. *)
Definition exists_ (fs : Fs) (p : string) : bool := bool_decide (is_Some (fs_names fs !! p)).

Definition len (fs : Fs) (p : string) : Z :=
  match fs_names fs !! p with Some i => Z.of_nat (length (content fs i)) | None => 0 end.

(** [OpenOptions::new().read(true).open(p)]. *)
Definition open_read (p : string) (fs : Fs) : result IoErrorKind nat :=
  match fs_names fs !! p with Some i => Ok i | None => Err NotFound end.

(** [OpenOptions::new().read(true).write(true).truncate(truncate).create(true)]. *)
Definition open_write (truncate : bool) (p : string) (fs : Fs) : nat * Fs :=
  match fs_names fs !! p with
  | Some i => (i, if truncate then set_content i [] fs else fs)
  | None =>
      (fs_next fs, {| fs_names := <[p := fs_next fs]> (fs_names fs);
                      fs_inodes := <[fs_next fs := []]> (fs_inodes fs);
                      fs_next := S (fs_next fs) |})
  end.

Definition rename (from to : string) (fs : Fs) : result IoErrorKind Fs :=
  match fs_names fs !! from with
  | Some i => Ok (with_names fs (<[to := i]> (delete from (fs_names fs))))
  | None => Err NotFound
  end.

Definition remove_file (p : string) (fs : Fs) : result IoErrorKind Fs :=
  match fs_names fs !! p with
  | Some _ => Ok (with_names fs (delete p (fs_names fs)))
  | None => Err NotFound
  end.

Definition copy (from to : string) (fs : Fs) : result IoErrorKind Fs :=
  match fs_names fs !! from with
  | Some i =>
      let bs := content fs i in
      let '(j, fs) := open_write true to fs in
      Ok (set_content j bs fs)
  | None => Err NotFound
  end.

(** Names refer to inodes that exist, and new inodes are new. *)
Definition wf (fs : Fs) : Prop :=
  (∀ p i, fs_names fs !! p = Some i → is_Some (fs_inodes fs !! i))
  ∧ (∀ i, is_Some (fs_inodes fs !! i) → (i < fs_next fs)%nat).
End Fs.

(** ** Names of log files *)

(** [format!("{}.{}", path, n)]. *)
Definition log_name (path : string) (n : Z) : string := path +:+ "." +:+ pretty (Z.to_N n).

(** A decimal number has only digits. *)
Fixpoint all_chars (P : ascii → bool) (s : string) : bool :=
  match s with
  | EmptyString => true
  | String a s => P a && all_chars P s
  end.

Definition is_digit (a : ascii) : bool :=
  let n := N_of_ascii a in bool_decide (48 ≤ n ∧ n ≤ 57)%N.

Lemma string_app_cons a s t : String a s +:+ t = String a (s +:+ t).
Proof. done. Qed.

Lemma string_app_inj s t u : s +:+ t = s +:+ u → t = u.
Proof. induction s; [done|]. rewrite !string_app_cons. intros [=]. auto. Qed.

Lemma string_app_assoc s t u : (s +:+ t) +:+ u = s +:+ (t +:+ u).
Proof. induction s; [done|]. by rewrite !string_app_cons, IHs. Qed.

Lemma pretty_char_digit n : is_digit (pretty_N_char n) = true.
Proof. unfold pretty_N_char. by repeat case_match. Qed.

Lemma pretty_go_digits x : ∀ s, all_chars is_digit s = true →
  all_chars is_digit (pretty_N_go x s) = true.
Proof.
  induction (N.lt_wf_0 x) as [x _ IH]; intros s Hs.
  destruct (decide (0 < x)%N) as [Hx|Hx].
  - rewrite pretty_N_go_step by done. apply IH; [apply N.div_lt; lia|].
    simpl. by rewrite pretty_char_digit.
  - assert (x = 0%N) as -> by lia. by rewrite pretty_N_go_0.
Qed.

Lemma pretty_digits (n : N) : all_chars is_digit (pretty n) = true.
Proof.
  unfold pretty, pretty_N. case_decide; [done|]. by apply pretty_go_digits.
Qed.

(** A name determines the path and the number: the number holds no further dot. *)
Lemma dot_digits_inj s t d e : all_chars is_digit d = true → all_chars is_digit e = true →
  s +:+ "." +:+ d = t +:+ "." +:+ e → s = t ∧ d = e.
Proof.
  assert (∀ u d e, all_chars is_digit d = true → d = u +:+ "." +:+ e → False) as Hno.
  { induction u as [|c u IH]; intros d' e' Hd ->; [done|].
    rewrite string_app_cons in Hd. simpl in Hd. apply andb_true_iff in Hd as [_ Hd].
    by eapply IH. }
  intros Hd He. revert t. induction s as [|a s IH]; intros [|b t]; rewrite ?string_app_cons.
  - intros E. by injection E.
  - intros E. injection E as _ E. exfalso. by apply (Hno t d e Hd).
  - intros E. injection E as _ E. exfalso. by apply (Hno s e d He).
  - intros E. injection E as -> E. by destruct (IH t E) as [-> ->].
Qed.

Lemma log_name_inj p q n m : 0 ≤ n → 0 ≤ m → log_name p n = log_name q m → p = q ∧ n = m.
Proof.
  unfold log_name. intros Hn Hm [-> E%(inj pretty)]%dot_digits_inj; try apply pretty_digits.
  split; [done|]. by apply Z2N.inj.
Qed.

(** The numbered files of a log, up to the first that is missing: no more than there
    are names. *)
Lemma first_missing (names : gmap string nat) (path : string) :
  ∃ k, (k ≤ size names)%nat ∧ names !! log_name path (Z.of_nat k) = None
    ∧ ∀ j, (j < k)%nat → is_Some (names !! log_name path (Z.of_nat j)).
Proof.
  set (present j := bool_decide (is_Some (names !! log_name path (Z.of_nat j)))).
  assert (∀ n, (∃ k, (k < n)%nat ∧ present k = false ∧ ∀ j, (j < k)%nat → present j = true)
    ∨ ∀ j, (j < n)%nat → present j = true) as Hsearch.
  { induction n as [|n [(k & Hk & Hp & Hj)|IH]]; [right; lia|left; exists k; split; [lia|done]|].
    destruct (present n) eqn:Hn; [right|left; exists n; split; [lia|done]].
    intros j Hj. destruct (decide (j = n)) as [->|]; [done|]. apply IH. lia. }
  destruct (Hsearch (S (size names))) as [(k & Hk & Hp & Hj)|Hall].
  - exists k. split; [lia|]. unfold present in *. split.
    + apply bool_decide_eq_false in Hp. by apply eq_None_not_Some.
    + intros j Hjk. specialize (Hj j Hjk). by apply bool_decide_eq_true in Hj.
  - exfalso.
    set (ks := (λ j, log_name path (Z.of_nat j)) <$> seq 0 (S (size names))).
    assert (NoDup ks) as Hnd.
    { apply NoDup_fmap_2_strong; [|apply NoDup_seq]. intros x y _ _ E.
      apply log_name_inj in E as [_ E]; lia. }
    assert (list_to_set ks ⊆@{gset string} dom names) as Hsub.
    { intros x. rewrite elem_of_list_to_set. intros (j & -> & Hj%elem_of_seq)%list_elem_of_fmap.
      apply elem_of_dom. specialize (Hall j ltac:(lia)). by apply bool_decide_eq_true in Hall. }
    apply subseteq_size in Hsub. rewrite size_list_to_set, size_dom in Hsub by done.
    unfold ks in Hsub. rewrite length_fmap, length_seq in Hsub. lia.
Qed.
