(* ===== verification/LocalFs.v ===== *)
(** * The file-backed log

    lib/src/redo/log_localfs.rs, with the constructors of lib/src/redo/appender.rs
    and lib/src/redo/archive.rs and the path handling of lib/src/redo/core.rs: a log
    kept in numbered files, the last of which is appended to, with an index from
    hashes to positions and three caches in front of the files.

    The file system is the world [Fs]; the size- and time-bounded caches of the
    [cached] crate are the class [TimedSizedCache], which may forget anything at any
    time; the order in which a hash map yields the files is the class
    [ArchiveOrder]. *)

From Stdlib Require Import Ascii.
From S2P Require Import Prelude LogApi Crypto Codec Meta Event LogFile MemDb RedoLog Fs.

(** ** Code of other crates *)

(** [cached::TimedSizedCache]: a get or a remove answers with what was last set under
    the key, or with nothing when that has been evicted or has expired.
    [cache_holds] is what a get could still answer. *)
Class TimedSizedCache (C : Type) : Type := {
  cache_new : Z → Z → C;
  cache_capacity : C → Z;
  cache_lifespan : C → Z;
  cache_get : AteHash → C → option LoadData * C;
  cache_set : AteHash → LoadData → C → C;
  cache_remove : AteHash → C → option LoadData * C;
  cache_holds : C → AteHash → LoadData → Prop;
  cache_new_holds : ∀ sz ttl k v, ¬ cache_holds (cache_new sz ttl) k v;
  cache_get_holds : ∀ k c v, (cache_get k c).1 = Some v → cache_holds c k v;
  cache_get_after : ∀ k c k' v, cache_holds (cache_get k c).2 k' v → cache_holds c k' v;
  cache_set_after : ∀ k v c k' v', cache_holds (cache_set k v c) k' v' →
    (k' = k ∧ v' = v) ∨ cache_holds c k' v';
  cache_remove_holds : ∀ k c v, (cache_remove k c).1 = Some v → cache_holds c k v;
  cache_remove_after : ∀ k c k' v, cache_holds (cache_remove k c).2 k' v → cache_holds c k' v;
}.

(** ** State *)

(** [LogArchive]: the handle is its inode; every use seeks first. *)
Record LogArchive : Type := {
  ar_index : Z;
  ar_path : string;
  ar_inode : nat;
  ar_header : bytes;
}.

(** The iteration order of [FxHashMap::values_mut]. *)
Class ArchiveOrder : Type := {
  values_of : gmap Z LogArchive → list LogArchive;
  values_of_perm : ∀ m, values_of m ≡ₚ (map_to_list m).*2;
}.

(** [appender] refers to the inode [lo_inode], whose content its [a_data] is. *)
Record LogFileLocalFs (C : Type) : Type := {
  lo_log_path : string;
  lo_backup_path : option string;
  lo_temp : bool;
  lo_lookup : gmap AteHash LogLookup;
  lo_appender : LogAppender;
  lo_inode : nat;
  lo_archives : gmap Z LogArchive;
  lo_flush : gmap AteHash LoadData;
  lo_write : C;
  lo_read : C;
}.
Arguments lo_log_path {C} l.
Arguments lo_backup_path {C} l.
Arguments lo_temp {C} l.
Arguments lo_lookup {C} l.
Arguments lo_appender {C} l.
Arguments lo_inode {C} l.
Arguments lo_archives {C} l.
Arguments lo_flush {C} l.
Arguments lo_write {C} l.
Arguments lo_read {C} l.

(** ** Archives and appenders *)

Module LogArchive.
Definition lock_at (fs : Fs) (ar : LogArchive) (off : Z) : LogArchiveGuard :=
  {| g_index := ar_index ar; g_offset := off; g_data := Fs.content fs (ar_inode ar);
     g_pos := Z.to_nat off |}.

Definition new (path : string) (index : Z) (fs : Fs)
    : result SerializationErrorKind LogArchive :=
  let name := log_name path index in
  inode ← map_err IO (Fs.open_read name fs);
  let ret := {| ar_index := index; ar_path := name; ar_inode := inode; ar_header := [] |} in
  header ← (RedoHeader.read (lock_at fs ret 0)).1;
  Ok {| ar_index := index; ar_path := name; ar_inode := inode;
        ar_header := match header with Some a => RedoHeader.inner a | None => [] end |}.

Definition len (fs : Fs) (ar : LogArchive) : Z :=
  Z.of_nat (length (Fs.content fs (ar_inode ar))).
End LogArchive.

Module LogAppenderFs.
Section ops.
Context `{BufStreamPolicy}.

(** [LogAppender::new]. *)
Definition new (path_log : string) (truncate read_only : bool) (index : Z) (header_bytes : bytes)
    : st Fs SerializationErrorKind (nat * LogAppender * LogArchive) :=
  st_mk (λ fs,
    let name := log_name path_log index in
    match (if read_only then
             match Fs.open_read name fs with
             | Ok i => Ok (i, fs)
             | Err e => Err (IO e)
             end
           else Ok (Fs.open_write truncate name fs)) with
    | Err e => (Err e, fs)
    | Ok (inode, fs) =>
        let appender := {| a_path := name; a_data := Fs.content fs inode;
          a_writable := negb read_only; a_pos := 0; a_rbuf := []; a_wbuf := [];
          a_offset := 0; a_header := []; a_index := index |} in
        let '(r, a) := (header ← RedoHeader.load header_bytes;
                        _ ← st_map_err IO LogAppender.flush;
                        _ ← st_map_err IO LogAppender.seek_to_end;
                        mret header) appender in
        let fs := Fs.set_content inode (a_data a) fs in
        match r with
        | Err e => (Err e, fs)
        | Ok header =>
            match LogArchive.new path_log index fs with
            | Err e => (Err e, fs)
            | Ok archive => (Ok (inode, LogAppender.with_header a header, archive), fs)
            end
        end
    end).

(** [LogAppender::write]. *)
Definition write (evt : EventWeakData) (header : EventHeaderRaw)
    : st LogAppender SerializationErrorKind LogLookup :=
  match ew_data_bytes evt with
  | BytesLazySome _ => st_fail MissingData
  | data =>
      log_header ← EventVersion.write LOG_VERSION (raw_meta_bytes header)
        (match data with BytesSome d => Some d | _ => None end) (ew_format evt);
      st_mk (λ a, (Ok {| ll_index := a_index a; ll_offset := lh_offset log_header |}, a))
  end.
End ops.
End LogAppenderFs.

Module LogFileLocalFs.
Section ops.
Context {C : Type} `{CryptoPrims} `{MetaSerializer} `{BufStreamPolicy} `{TimedSizedCache C}
  `{ArchiveOrder}.

Definition with_appender (l : LogFileLocalFs C) (a : LogAppender) : LogFileLocalFs C :=
  {| lo_log_path := lo_log_path l; lo_backup_path := lo_backup_path l; lo_temp := lo_temp l;
     lo_lookup := lo_lookup l; lo_appender := a; lo_inode := lo_inode l;
     lo_archives := lo_archives l; lo_flush := lo_flush l; lo_write := lo_write l;
     lo_read := lo_read l |}.

Definition with_lookup (l : LogFileLocalFs C) (lk : gmap AteHash LogLookup) : LogFileLocalFs C :=
  {| lo_log_path := lo_log_path l; lo_backup_path := lo_backup_path l; lo_temp := lo_temp l;
     lo_lookup := lk; lo_appender := lo_appender l; lo_inode := lo_inode l;
     lo_archives := lo_archives l; lo_flush := lo_flush l; lo_write := lo_write l;
     lo_read := lo_read l |}.

Definition with_caches (l : LogFileLocalFs C) (f : gmap AteHash LoadData) (w r : C)
    : LogFileLocalFs C :=
  {| lo_log_path := lo_log_path l; lo_backup_path := lo_backup_path l; lo_temp := lo_temp l;
     lo_lookup := lo_lookup l; lo_appender := lo_appender l; lo_inode := lo_inode l;
     lo_archives := lo_archives l; lo_flush := f; lo_write := w; lo_read := r |}.

(** Runs the appender on the content of its inode. *)
Definition on_appender {A} (c : st LogAppender SerializationErrorKind A)
    : st (Fs * LogFileLocalFs C) SerializationErrorKind A :=
  st_mk (λ '(fs, l),
    let a := lo_appender l in
    let a := LogAppender.with_file a (Fs.content fs (lo_inode l)) (a_pos a) (a_rbuf a)
               (a_wbuf a) (a_offset a) in
    let '(r, a) := c a in
    (r, (Fs.set_content (lo_inode l) (a_data a) fs, with_appender l a))).

(** The loop that restores backups.  It goes on while the next backup exists; there
    are no more backups than names. *)
Fixpoint restore_loop (fuel : nat) (n : Z) (temp_file : bool) (path_log restore_path : string)
    (archives : gmap Z LogArchive) : st Fs SerializationErrorKind (gmap Z LogArchive) :=
  match fuel with
  | O => st_fail Diverged
  | S fuel => st_mk (λ fs,
      let source := log_name restore_path n in
      if negb (Fs.exists_ fs source) then (Ok archives, fs) else
      let dest := log_name path_log n in
      if Fs.exists_ fs dest && bool_decide (Fs.len fs source > Fs.len fs dest)
      then restore_loop fuel (n + 1) temp_file path_log restore_path archives fs
      else if temp_file then (Err (IO AlreadyExists), fs) else
      let dest_stage := log_name restore_path n +:+ ".staged" in
      match Fs.copy source dest_stage fs with
      | Err e => (Err (IO e), fs)
      | Ok fs =>
          match Fs.rename dest_stage dest fs with
          | Err e => (Err (IO e), fs)
          | Ok fs =>
              match LogArchive.new path_log n fs with
              | Err e => (Err e, fs)
              | Ok ar => restore_loop fuel (n + 1) temp_file path_log restore_path
                           (<[n := ar]> archives) fs
              end
          end
      end)
  end.

(** The loop over the files before the last: while file [n + 1] exists, file [n] is
    an archive. *)
Fixpoint archive_loop (fuel : nat) (n : Z) (temp_file : bool) (path_log : string)
    (archives : gmap Z LogArchive) (fs : Fs)
    : result SerializationErrorKind (Z * gmap Z LogArchive) :=
  match fuel with
  | O => Err Diverged
  | S fuel =>
      if negb (Fs.exists_ fs (log_name path_log (n + 1))) then Ok (n, archives) else
      if temp_file then Err (IO AlreadyExists) else
      ar ← LogArchive.new path_log n fs;
      archive_loop fuel (n + 1) temp_file path_log (<[n := ar]> archives) fs
  end.

Definition loop_fuel (fs : Fs) : nat := S (size (fs_names fs)).

Definition new (temp_file read_only : bool) (path_log : string)
    (backup_path restore_path : option string) (truncate : bool) (cache_size cache_ttl : Z)
    (header_bytes : bytes) : st Fs SerializationErrorKind (LogFileLocalFs C) :=
  archives ← match restore_path with
             | Some restore_path =>
                 st_mk (λ fs, restore_loop (loop_fuel fs) 0 temp_file path_log restore_path ∅ fs)
             | None => mret ∅
             end;
  na ← st_mk (λ fs, (archive_loop (loop_fuel fs) 0 temp_file path_log archives fs, fs));
  let '(n, archives) := na in
  ap ← LogAppenderFs.new path_log truncate read_only n header_bytes;
  let '(inode, appender, archive) := ap in
  st_mk (λ fs,
    let fs := if temp_file && negb read_only
              then match Fs.remove_file (a_path appender) fs with Ok fs => fs | Err _ => fs end
              else fs in
    (Ok {| lo_log_path := path_log; lo_backup_path := backup_path; lo_temp := temp_file;
           lo_lookup := ∅; lo_appender := appender; lo_inode := inode;
           lo_archives := <[n := archive]> archives; lo_flush := ∅;
           lo_write := cache_new cache_size cache_ttl;
           lo_read := cache_new cache_size cache_ttl |}, fs)).

Definition read_once_internal : st LogArchiveGuard SerializationErrorKind (option LoadData) :=
  st_mk (λ guard,
    let offset := api_offset guard in
    match EventVersion.read guard with
    | (Err e, guard) => (Err e, guard)
    | (Ok None, guard) => (Ok None, guard)
    | (Ok (Some evt), guard) =>
        (Some <$> entry_load {| ll_index := LogArchiveGuard.index guard; ll_offset := offset |} evt,
         guard)
    end).

(** The loop over one file: an event is recorded, an error is skipped, a panic is not.  Each turn
    but the last consumes a magic, so one turn more than the file has bytes is enough. *)
Fixpoint read_loop (fuel : nat) : st LogArchiveGuard SerializationErrorKind (list LoadData) :=
  match fuel with
  | O => st_fail Diverged
  | S fuel => st_mk (λ guard,
      match read_once_internal guard with
      | (Ok (Some head), guard) => (rest ← read_loop fuel; mret (head :: rest)) guard
      | (Ok None, guard) => (Ok [], guard)
      | (Err CapacityOverflow, guard) => (Err CapacityOverflow, guard)
      | (Err _, guard) => read_loop fuel guard
      end)
  end.

Definition read_archive (fs : Fs) (ar : LogArchive)
    : result SerializationErrorKind (list LoadData) :=
  let lock := LogArchive.lock_at fs ar 0 in
  match RedoHeader.read lock with
  | (Err e, _) => Err e
  | (Ok None, _) => Ok []
  | (Ok (Some _), lock) => (read_loop (S (length (g_data lock))) lock).1
  end.

Fixpoint read_archives (fs : Fs) (ars : list LogArchive)
    : result SerializationErrorKind (list LoadData) :=
  match ars with
  | [] => Ok []
  | ar :: ars => evts ← read_archive fs ar; rest ← read_archives fs ars; Ok (evts ++ rest)
  end.

(** The result is what the loader is fed, in order; the count is its length. *)
Definition read_all : st (Fs * LogFileLocalFs C) SerializationErrorKind (list LoadData) :=
  st_mk (λ '(fs, l),
    match read_archives fs (values_of (lo_archives l)) with
    | Err e => (Err e, (fs, l))
    | Ok evts =>
        let lookup := foldl (λ m d, <[raw_event_hash (ld_header d) := ld_lookup d]> m)
                        (lo_lookup l) evts in
        (Ok evts, (fs, with_lookup l lookup))
    end).

Definition rotate (header_bytes : bytes)
    : st (Fs * LogFileLocalFs C) SerializationErrorKind unit :=
  st_mk (λ '(fs, l),
    if lo_temp l then (Err (IO PermissionDenied), (fs, l)) else
    match on_appender (st_map_err IO LogAppender.sync) (fs, l) with
    | (Err e, s) => (Err e, s)
    | (Ok _, (fs, l)) =>
        let next_index := a_index (lo_appender l) + 1 in
        match LogAppenderFs.new (lo_log_path l) false false next_index header_bytes fs with
        | (Err e, fs) => (Err e, (fs, l))
        | (Ok (inode, new_appender, new_archive), fs) =>
            (Ok (), (fs,
              {| lo_log_path := lo_log_path l; lo_backup_path := lo_backup_path l;
                 lo_temp := lo_temp l; lo_lookup := lo_lookup l; lo_appender := new_appender;
                 lo_inode := inode;
                 lo_archives := <[next_index := new_archive]> (lo_archives l);
                 lo_flush := lo_flush l; lo_write := lo_write l; lo_read := lo_read l |}))
        end
    end).

(** Which files [backup] copies: source, staging and destination names. *)
Fixpoint backup_plan (fuel : nat) (n end_ : Z) (log_path restore_path : string) (fs : Fs)
    : list (string * string * string) :=
  match fuel with
  | O => []
  | S fuel =>
      if bool_decide (end_ ≤ n) then [] else
      let source := log_name log_path n in
      if negb (Fs.exists_ fs source) then [] else
      let dest := log_name restore_path n in
      if Fs.exists_ fs dest && bool_decide (Fs.len fs source > Fs.len fs dest)
      then backup_plan fuel (n + 1) end_ log_path restore_path fs
      else (source, dest +:+ ".staged", dest)
           :: backup_plan fuel (n + 1) end_ log_path restore_path fs
  end.

(** The future [backup] returns: run later, on the file system as it is then. *)
Fixpoint run_backup (plan : list (string * string * string))
    : st Fs SerializationErrorKind unit :=
  match plan with
  | [] => mret ()
  | (source, stage, dest) :: plan => st_mk (λ fs,
      match Fs.copy source stage fs with
      | Err e => (Err (IO e), fs)
      | Ok fs =>
          match Fs.rename stage dest fs with
          | Err e => (Err (IO e), fs)
          | Ok fs => run_backup plan fs
          end
      end)
  end.

Definition backup (include_active_files : bool) (fs : Fs) (l : LogFileLocalFs C)
    : result SerializationErrorKind (list (string * string * string)) :=
  if lo_temp l then Err (IO PermissionDenied) else
  match lo_backup_path l with
  | None => Ok []
  | Some restore_path =>
      let end_ := if include_active_files then a_index (lo_appender l) + 1
                  else a_index (lo_appender l) in
      Ok (backup_plan (Z.to_nat end_) 0 end_ (lo_log_path l) restore_path fs)
  end.

Definition copy : st (Fs * LogFileLocalFs C) SerializationErrorKind (LogFileLocalFs C) :=
  st_mk (λ '(fs, l),
    match on_appender (st_map_err IO LogAppender.clone) (fs, l) with
    | (Err e, s) => (Err e, s)
    | (Ok appender, (fs, l)) =>
        (Ok {| lo_log_path := lo_log_path l; lo_backup_path := lo_backup_path l;
               lo_temp := lo_temp l; lo_lookup := lo_lookup l; lo_appender := appender;
               lo_inode := lo_inode l; lo_archives := lo_archives l; lo_flush := lo_flush l;
               lo_write := cache_new (cache_capacity (lo_write l)) (cache_lifespan (lo_write l));
               lo_read := cache_new (cache_capacity (lo_read l)) (cache_lifespan (lo_read l)) |},
         (fs, l))
    end).

(** The common part of [write] and [copy_event]: append, record, cache. *)
Definition append_event (hash : AteHash) (evt : EventWeakData) (header : EventHeaderRaw)
    : st (Fs * LogFileLocalFs C) SerializationErrorKind LogLookup :=
  lookup ← on_appender (LogAppenderFs.write evt header);
  st_mk (λ '(fs, l),
    let l := with_lookup l (<[hash := lookup]> (lo_lookup l)) in
    (Ok lookup, (fs, with_caches l
      (<[hash := {| ld_lookup := lookup; ld_header := header; ld_data := evt |}]> (lo_flush l))
      (lo_write l) (lo_read l)))).

Definition write (evt : EventWeakData)
    : st (Fs * LogFileLocalFs C) SerializationErrorKind LogLookup :=
  st_mk (λ s,
    match EventWeakData.as_header_raw evt with
    | Err e => (Err e, s)
    | Ok header => append_event (raw_event_hash header) evt header s
    end).

(** The first part of [load]: the caches. *)
Definition load_cached (hash : AteHash) (l : LogFileLocalFs C)
    : option LoadData * LogFileLocalFs C :=
  match lo_flush l !! hash with
  | Some result => (Some result, l)
  | None =>
      let '(hit, read) := cache_get hash (lo_read l) in
      let l := with_caches l (lo_flush l) (lo_write l) read in
      match hit with
      | Some result => (Some result, l)
      | None =>
          let '(hit, write) := cache_remove hash (lo_write l) in
          (hit, with_caches l (lo_flush l) write (lo_read l))
      end
  end.

(** The second part: the files. *)
Definition load_file (hash : AteHash) (fs : Fs) (l : LogFileLocalFs C)
    : result LoadErrorKind LoadData :=
  match lo_lookup l !! hash with
  | None => Err (NotFoundByHash hash)
  | Some lookup =>
      match lo_archives l !! ll_index lookup with
      | None => Err (NotFoundByHash hash)
      | Some archive =>
          match (EventVersion.read (LogArchive.lock_at fs archive (ll_offset lookup))).1 with
          | Err CapacityOverflow => Err LoadPanic
          | Err e => Err (LoadSerialization e)
          | Ok None => Err (NotFoundByHash hash)
          | Ok (Some result) =>
              ret ← map_err LoadSerialization (entry_load lookup result);
              if decide (hash = raw_event_hash (ld_header ret)) then Ok ret else Err LoadPanic
          end
      end
  end.

Definition load (hash : AteHash) : st (Fs * LogFileLocalFs C) LoadErrorKind LoadData :=
  st_mk (λ '(fs, l),
    let '(hit, l) := load_cached hash l in
    match hit with
    | Some result => (Ok result, (fs, l))
    | None =>
        match load_file hash fs l with
        | Err e => (Err e, (fs, l))
        | Ok ret =>
            (Ok ret, (fs, with_caches l (lo_flush l) (lo_write l)
                            (cache_set (raw_event_hash (ld_header ret)) ret (lo_read l))))
        end
    end).

Definition copy_event (hash : AteHash)
    : st (Fs * (LogFileLocalFs C * LogFileLocalFs C)) LoadErrorKind LogLookup :=
  st_mk (λ '(fs, (from, to)),
    let '(r, (fs, from)) := load hash (fs, from) in
    match r with
    | Err e => (Err e, (fs, (from, to)))
    | Ok result =>
        let '(r, (fs, to)) := append_event hash (ld_data result) (ld_header result) (fs, to) in
        (map_err LoadSerialization r, (fs, (from, to)))
    end).

Definition prime_one (l : LogFileLocalFs C) (rec : AteHash * option bytes) : LogFileLocalFs C :=
  let '(record, data) := rec in
  let '(hit, read) := cache_get record (lo_read l) in
  match hit with
  | None => with_caches l (lo_flush l) (lo_write l) read
  | Some result =>
      let new_result :=
        {| ld_lookup := ld_lookup result; ld_header := ld_header result;
           ld_data := {| ew_meta := ew_meta (ld_data result);
                         ew_data_bytes := match data with
                           | Some data => BytesSome data
                           | None => BytesNone
                           end;
                         ew_format := ew_format (ld_data result) |} |} in
      with_caches l (lo_flush l) (lo_write l) (cache_set record new_result read)
  end.

Definition prime (records : list (AteHash * option bytes)) (l : LogFileLocalFs C)
    : LogFileLocalFs C :=
  foldl prime_one l records.

(** [loop { if !exists(from(n)) break; rename(from(n), to(n))?; n += 1 }]. *)
Fixpoint rename_loop (fuel : nat) (n : Z) (from to : string) : st Fs SerializationErrorKind unit :=
  match fuel with
  | O => st_fail Diverged
  | S fuel => st_mk (λ fs,
      if negb (Fs.exists_ fs (log_name from n)) then (Ok (), fs) else
      match Fs.rename (log_name from n) (log_name to n) fs with
      | Err e => (Err (IO e), fs)
      | Ok fs => rename_loop fuel (n + 1) from to fs
      end)
  end.

Fixpoint remove_loop (fuel : nat) (n : Z) (path : string) : st Fs SerializationErrorKind unit :=
  match fuel with
  | O => st_fail Diverged
  | S fuel => st_mk (λ fs,
      if negb (Fs.exists_ fs (log_name path n)) then (Ok (), fs) else
      match Fs.remove_file (log_name path n) fs with
      | Err e => (Err (IO e), fs)
      | Ok fs => remove_loop fuel (n + 1) path fs
      end)
  end.

Definition on_fs {A} (c : Fs → st Fs SerializationErrorKind A)
    : st (Fs * LogFileLocalFs C) SerializationErrorKind A :=
  st_mk (λ '(fs, l), let '(r, fs) := c fs fs in (r, (fs, l))).

Definition move_log_file (new_path : string)
    : st (Fs * LogFileLocalFs C) SerializationErrorKind unit :=
  s ← st_get;
  _ ← (if lo_temp (snd s) then mret () else
       _ ← on_fs (λ fs, rename_loop (loop_fuel fs) 0 new_path (new_path +:+ ".backup"));
       _ ← on_fs (λ fs, rename_loop (loop_fuel fs) 0 (lo_log_path (snd s)) new_path);
       on_fs (λ fs, remove_loop (loop_fuel fs) 0 (new_path +:+ ".backup")));
  st_mk (λ '(fs, l), (Ok (), (fs,
    {| lo_log_path := new_path; lo_backup_path := lo_backup_path l; lo_temp := lo_temp l;
       lo_lookup := lo_lookup l; lo_appender := lo_appender l; lo_inode := lo_inode l;
       lo_archives := lo_archives l; lo_flush := lo_flush l; lo_write := lo_write l;
       lo_read := lo_read l |}))).

Definition flush : st (Fs * LogFileLocalFs C) SerializationErrorKind unit :=
  st_mk (λ '(fs, l),
    let keys := fst <$> map_to_list (lo_flush l) in
    match on_appender (st_map_err IO LogAppender.flush) (fs, l) with
    | (Err e, s) => (Err e, s)
    | (Ok _, (fs, l)) =>
        let '(fl, wr) := foldl (λ '(fl, wr) k,
          match (fl : gmap AteHash LoadData) !! k with
          | Some v => (delete k fl, cache_set k v wr)
          | None => (fl, wr)
          end) (lo_flush l, lo_write l) keys in
        (Ok (), (fs, with_caches l fl wr (lo_read l)))
    end).

Definition count (l : LogFileLocalFs C) : nat := base.size (lo_lookup l).

(** A u64 subtraction of the header's length from the offset behind it. *)
Definition size (l : LogFileLocalFs C) : Z :=
  a_offset (lo_appender l) - Z.of_nat (length (a_header (lo_appender l))).

Definition index (l : LogFileLocalFs C) : Z := a_index (lo_appender l).
Definition offset (l : LogFileLocalFs C) : Z := a_offset (lo_appender l).

Definition header (index : Z) (l : LogFileLocalFs C) : bytes :=
  if decide (index = u32_max ∨ index = a_index (lo_appender l)) then a_header (lo_appender l)
  else match lo_archives l !! index with Some a => ar_header a | None => [] end.

Definition destroy : st (Fs * LogFileLocalFs C) SerializationErrorKind unit :=
  s ← st_get; on_fs (λ fs, remove_loop (loop_fuel fs) 0 (lo_log_path (snd s))).

Definition begin_flip (header_bytes : bytes)
    : st (Fs * LogFileLocalFs C) SerializationErrorKind (LogFileLocalFs C) :=
  st_mk (λ '(fs, l),
    let path_flip := lo_log_path l +:+ ".flip" in
    let '(r, fs) := new (lo_temp l) false path_flip (lo_backup_path l) None true
      (cache_capacity (lo_read l)) (cache_lifespan (lo_read l)) header_bytes fs in
    (r, (fs, l))).
End ops.
End LogFileLocalFs.

#[global] Instance LogFileLocalFs_log {C : Type} `{CryptoPrims} `{MetaSerializer}
    `{BufStreamPolicy} `{TimedSizedCache C} : LogFile Fs (LogFileLocalFs C) := {
  lf_rotate := LogFileLocalFs.rotate;
  lf_copy := LogFileLocalFs.copy;
  lf_write := LogFileLocalFs.write;
  lf_copy_event := LogFileLocalFs.copy_event;
  lf_load := LogFileLocalFs.load;
  lf_move_log_file := LogFileLocalFs.move_log_file;
  lf_begin_flip := LogFileLocalFs.begin_flip;
  lf_flush := LogFileLocalFs.flush;
  lf_count := LogFileLocalFs.count;
  lf_prime := LogFileLocalFs.prime;
  lf_size := LogFileLocalFs.size;
  lf_index := LogFileLocalFs.index;
  lf_offset := LogFileLocalFs.offset;
  lf_header := LogFileLocalFs.header;
  lf_destroy := LogFileLocalFs.destroy;
}.

(** ** Opening a redo log *)

(** [BackupMode]; its [None] is [NoBackup] here. *)
Inductive BackupMode : Type := NoBackup | Restore | Rotating | Full.

(** The part of [ConfAte] that decides where a log lives. *)
Record ConfAte : Type := {
  cfg_log_path : option string;
  cfg_backup_path : option string;
  cfg_backup_mode : BackupMode;
  cfg_load_cache_size : Z;
  cfg_load_cache_ttl : Z;
}.

Fixpoint ends_with_slash (s : string) : bool :=
  match s with
  | EmptyString => false
  | String a EmptyString => bool_decide (a = "/"%char)
  | String _ rest => ends_with_slash rest
  end.

(** [format!("{}{}.log", dir, key_name)], with a slash between when [dir] ends in none. *)
Definition log_path_in (dir key_name : string) : string :=
  if ends_with_slash dir then dir +:+ key_name +:+ ".log" else dir +:+ "/" +:+ key_name +:+ ".log".

Definition strip_slash (name : string) : string :=
  match name with
  | String a rest => if bool_decide (a = "/"%char) then rest else name
  | EmptyString => name
  end.

Module RedoLogFs.
Section ops.
Context {C : Type} `{CryptoPrims} `{MetaSerializer} `{BufStreamPolicy} `{TimedSizedCache C}
  `{ArchiveOrder}.

(** [RedoLog::new]: the log and what the loader is fed.  When a file cannot be read
    there is no log, and what was fed until then is dropped with it. *)
Definition new (path_log backup_path restore_path : option string) (flags : OpenFlags)
    (cache_size cache_ttl : Z) (header_bytes : bytes)
    : st Fs SerializationErrorKind (RedoLog (LogFileLocalFs C + LogFileMemDb) * list LoadData) :=
  match path_log with
  | Some path =>
      log_file ← LogFileLocalFs.new (of_temporal flags) (of_read_only flags) path backup_path
        restore_path (of_truncate flags) cache_size cache_ttl header_bytes;
      st_mk (λ fs,
        let '(r, (fs, log_file)) := LogFileLocalFs.read_all (fs, log_file) in
        (evts ← r; Ok ({| rl_log_path := path_log; rl_flip := None;
                          rl_log_file := inl log_file |}, evts), fs))
  | None => mret ({| rl_log_path := path_log; rl_flip := None;
                     rl_log_file := inr (LogFileMemDb.new header_bytes) |}, [])
  end.

(** [RedoLog::open_ext]; [open] collects what it feeds. *)
Definition open (cfg : ConfAte) (name : string) (flags : OpenFlags) (header_bytes : bytes)
    : st Fs SerializationErrorKind (RedoLog (LogFileLocalFs C + LogFileMemDb) * list LoadData) :=
  let key_name := strip_slash name in
  let path_log := if of_temporal flags then None
                  else (λ a, log_path_in a key_name) <$> cfg_log_path cfg in
  let backup_path := (λ a, log_path_in a key_name) <$> cfg_backup_path cfg in
  let '(backup_path, restore_path) :=
    match cfg_backup_mode cfg with
    | NoBackup => (None, None)
    | Restore => (None, backup_path)
    | Rotating | Full => (backup_path, backup_path)
    end in
  new path_log backup_path restore_path flags (cfg_load_cache_size cfg) (cfg_load_cache_ttl cfg)
    header_bytes.
End ops.
End RedoLogFs.

(** ** Reading a file ends *)

Section read_total.
Context `{CryptoPrims} `{MetaSerializer}.
Import LogFileLocalFs.

(** Whatever the file holds, the loop ends, with the file or with a length that no [Vec] can have:
    an error is skipped, and skipping costs a magic. *)
Lemma read_loop_total fuel : ∀ g, (length (unread g) < fuel)%nat →
  (∃ evts g', read_loop fuel g = (Ok evts, g'))
  ∨ (∃ g', read_loop fuel g = (Err CapacityOverflow, g')) ∧ oversized (unread g).
Proof.
  induction fuel as [|fuel IH]; intros g Hf; [lia|]. cbn [read_loop].
  destruct (read_progress g (guard_readable g)) as (p & Hp & _ & Hcase).
  unfold st_mk, read_once_internal, st_mk.
  destruct (EventVersion.read g) as [[[en|]|e] g1]; cbn [fst snd] in *; [|by left; eauto|].
  - rewrite Hp. apply (f_equal length) in Hp. rewrite length_app in Hp.
    destruct (entry_load _ en) as [d|e] eqn:Ee; [|apply entry_load_error in Ee as ->];
      (destruct (IH g1 ltac:(lia)) as [(evts & g' & E)|[(g' & E) Hover]];
       [left|right; split; [|by apply oversized_app]]; cbn; unfold mbind, st_bind; rewrite E; eauto).
  - destruct Hcase as (_ & Hl & Hover). pose proof Hp as Hlen. apply (f_equal length) in Hlen. rewrite length_app in Hlen.
    destruct (IH g1 ltac:(lia)) as [Hok|[Hpanic Hmore]].
    + destruct e; try by left. right. by eauto.
    + right. destruct e; (split; [by eauto|]); rewrite Hp; by apply oversized_app.
Qed.


(** And a length above [isize::MAX] right behind the header does end the process. *)
Lemma oversized_panics fs ar hdr f n rest : Z.of_nat (length hdr) ≤ u32_max → isize_max < n < u64_max →
  Fs.content fs (ar_inode ar) = enc_header hdr ++ event_magic ++ enc_format f ++ enc_size n ++ rest →
  read_archive fs ar = Err CapacityOverflow.
Proof.
  intros Hh Hn Hc. unfold read_archive. set (lock := LogArchive.lock_at fs ar 0).
  destruct (redo_read_header lock [] hdr (event_magic ++ enc_format f ++ enc_size n ++ rest) (guard_readable _))
    as (g & -> & U & _); [done|done|exact Hc|].
  cbn [read_loop]. unfold st_mk, read_once_internal, st_mk. rewrite read_unfold.
  destruct (parses_read_version g _ (guard_readable _) U) as (g1 & E1 & U1 & _). rewrite (st_bind_Ok _ _ _ _ _ E1).
  destruct (parses_read_format V2 f g1 _ (guard_readable _) U1) as (g2 & E2 & U2 & _).
  unfold read_body. rewrite (st_bind_Ok _ _ _ _ _ E2).
  destruct (read_blob_size_enc (S := LogArchiveGuard) n) as [Hp _]; [unfold isize_max in Hn; lia|].
  destruct (Hp g2 _ (guard_readable _) U2) as (g3 & E3 & _). rewrite (st_bind_Ok _ _ _ _ _ E3).
  unfold EventVersion.read_vec, mbind, st_bind. by rewrite decide_False by lia.
Qed.
End read_total.
