(* ===== verification/LocalFsSpec.v ===== *)
(** * The file-backed log keeps its promise

    [LogFileLocalFs] discharges [LogFileSpec]: an event written to it is loaded from
    whichever of the caches or files has it, whatever the caches forget and however
    the stream buffers; flushing, copying, moving and flipping the log keep its
    events. *)

From S2P Require Import Prelude LogApi Crypto Codec Meta Event LogFile MemDb RedoLog Fs LocalFs.
Import LogFileLocalFs.

(** ** Events inside a file *)

Lemma after_magic_extend pat l m rest : pat ≠ [] → after_magic pat l = Some rest →
  after_magic pat (l ++ m) = Some (rest ++ m).
Proof.
  intros Hpat. revert rest. induction l as [|x l IH]; intros rest.
  - cbn [after_magic]. case_decide as Hp; [|done]. rewrite take_nil in Hp. by destruct Hpat.
  - cbn [after_magic app]. destruct (decide (take (length pat) (x :: l) = pat)) as [Hp|Hp].
    + intros [= <-].
      assert (length pat ≤ length (x :: l))%nat as Hl.
      { apply (f_equal length) in Hp. rewrite length_take in Hp. lia. }
      rewrite (take_app_le (x :: l) m _ Hl : take _ (x :: l ++ m) = _), decide_True by done.
      by rewrite (drop_app_le (x :: l) m _ Hl : drop _ (x :: l ++ m) = _).
    + destruct (decide (take (length pat) (x :: l ++ m) = pat)) as [Hp'|_]; [|apply IH].
      intros Hrest. exfalso. apply Hp.
      assert (length pat ≤ length (x :: l))%nat as Hl.
      { apply after_magic_suffix in Hrest as (junk & ->). simpl. rewrite !length_app. lia. }
      by rewrite (take_app_le (x :: l) m _ Hl : take _ (x :: l ++ m) = _) in Hp'.
Qed.

Section event_at.
Context `{CryptoPrims} `{MetaSerializer}.

(** The first event at or after [off] in [bs] is [e], with the hash [h]. *)
Definition event_at (bs : bytes) (off : Z) (h : AteHash) (e : EventWeakData) : Prop :=
  ∃ meta data fmt rest,
    after_magic event_magic (drop (Z.to_nat off) bs) = Some (enc_body meta data fmt ++ rest)
    ∧ blob_ok meta ∧ blob_ok (default [] data)
    ∧ ∀ o lk, ∃ d, entry_load lk (entry_of o meta data fmt) = Ok d ∧ loaded h e d.

Lemma event_at_extend bs more off h e : event_at bs off h e → event_at (bs ++ more) off h e.
Proof.
  intros (meta & data & fmt & rest & Ha & Hm & Hd & He).
  exists meta, data, fmt, (rest ++ more). split; [|done].
  destruct (decide (Z.to_nat off ≤ length bs)%nat) as [Hle|Hgt].
  - rewrite drop_app_le by done. rewrite app_assoc. by apply after_magic_extend.
  - rewrite drop_ge in Ha by lia. done.
Qed.

Lemma event_at_append bs meta data fmt h e :
  blob_ok meta → blob_ok (default [] data) →
  (∀ o lk, ∃ d, entry_load lk (entry_of o meta data fmt) = Ok d ∧ loaded h e d) →
  event_at (bs ++ enc_event meta data fmt) (Z.of_nat (length bs)) h e.
Proof.
  intros Hm Hd He. exists meta, data, fmt, []. split; [|done].
  rewrite Nat2Z.id, drop_app_length, app_nil_r. unfold enc_event.
  generalize (enc_body meta data fmt). done.
Qed.

(** Reading there returns it. *)
Lemma read_event_at bs off h e idx : event_at bs off h e →
  ∃ en g', EventVersion.read {| g_index := idx; g_offset := off; g_data := bs;
                                g_pos := Z.to_nat off |} = (Ok (Some en), g')
    ∧ ∀ lk, ∃ d, entry_load lk en = Ok d ∧ loaded h e d.
Proof.
  intros (meta & data & fmt & rest & Ha & Hm & Hd & He).
  set (g := {| g_index := idx; g_offset := off; g_data := bs; g_pos := Z.to_nat off |}).
  pose proof (read_version_run g (guard_readable g)) as Hv. simpl unread in Hv. rewrite Ha in Hv.
  destruct Hv as (g1 & E1 & U1 & L1 & _).
  destruct (read_body_enc (S := LogArchiveGuard) off meta data fmt Hm Hd) as [Hp _].
  destruct (Hp g1 rest (guard_readable g1) U1) as (g2 & E2 & _).
  exists (entry_of off meta data fmt), g2. rewrite read_unfold, (st_bind_Ok _ _ _ _ _ E1).
  simpl api_offset. rewrite E2. eauto.
Qed.

(** An event as it is written to a file: data of no bytes would read back as none. *)
Definition data_ok (e : EventWeakData) : Prop :=
  match ew_data_bytes e with
  | BytesSome d => d ≠ [] ∧ blob_ok d
  | BytesLazySome _ => False
  | BytesNone => True
  end.

Lemma loaded_entry_of h e d o lk : loaded h e d → data_ok e →
  ∃ d', entry_load lk (entry_of o (raw_meta_bytes (ld_header d))
          (MessageBytes.as_option (ew_data_bytes (ld_data d))) (ew_format (ld_data d))) = Ok d'
        ∧ loaded h e d'.
Proof.
  intros Hl Hd.
  assert (ew_data_bytes e = ew_data_bytes (ld_data d)) as Hdata.
  { destruct Hl as (_ & <- & _). done. }
  unfold data_ok in Hd. rewrite Hdata in Hd.
  edestruct (loaded_entry h e d (entry_of o (raw_meta_bytes (ld_header d))
    (MessageBytes.as_option (ew_data_bytes (ld_data d))) (ew_format (ld_data d))) lk)
    as (d' & ? & ? & _); [done|done| |done|eauto].
  simpl. destruct (ew_data_bytes (ld_data d)) as [[|b bs]| |]; simpl; try done. by destruct Hd.
Qed.
End event_at.

(** ** The appender only appends *)

Section grows.
Context `{BufStreamPolicy}.

Definition grows (a a' : LogAppender) : Prop :=
  at_end a → at_end a' ∧ ∃ more, a_data a' = a_data a ++ more.

#[export] Instance grows_preorder : PreOrder grows.
Proof.
  split.
  - intros a Ha. split; [done|]. exists []. by rewrite app_nil_r.
  - intros a b c Hab Hbc Ha. destruct (Hab Ha) as (Hb & m1 & Hm1).
    destruct (Hbc Hb) as (Hc & m2 & Hm2). split; [done|].
    exists (m1 ++ m2). by rewrite app_assoc, <- Hm1.
Qed.

Lemma grows_write f bs : preserves grows (st_map_err f (LogAppender.write_exact bs)).
Proof.
  intros a Ha. destruct (write_exact_ok a bs Ha) as (a' & E & Ha' & _).
  simpl in E. unfold st_map_err. rewrite E. split; [done|]. simpl.
  unfold LogAppender.write_exact, LogAppender.stream_write, mbind, st_bind in E.
  destruct Ha as (Hw & Hr & Hp & Ho). rewrite write_out_writable in E by done.
  simpl in E. injection E as <-. simpl. rewrite Hp, file_splice_end. eauto.
Qed.

Lemma write_grows v meta data format : preserves grows (EventVersion.write v meta data format).
Proof.
  destruct v. unfold EventVersion.write, EventVersion.write_blob_size, EventVersion.write_format.
  apply preserves_bind; [apply _|apply preserves_get, _|intros a0].
  repeat first [apply grows_write | apply preserves_ret, _
    | apply preserves_bind; [apply _| |intros []] | case_match ].
Qed.

(** What [LogAppender::write] does to an appender at its end. *)
Lemma appender_write `{CryptoPrims} `{MetaSerializer} evt header a :
  at_end a → data_ok evt →
  ∃ a', LogAppenderFs.write evt header a
        = (Ok {| ll_index := a_index a; ll_offset := Z.of_nat (length (stored a)) |}, a')
      ∧ at_end a' ∧ same_name a a' ∧ (∃ more, a_data a' = a_data a ++ more)
      ∧ stored a' = stored a ++ enc_event (raw_meta_bytes header)
                                  (MessageBytes.as_option (ew_data_bytes evt)) (ew_format evt).
Proof.
  intros Ha Hd.
  destruct (write_event a (raw_meta_bytes header)
    (MessageBytes.as_option (ew_data_bytes evt)) (ew_format evt) Ha) as (a' & E & Ha' & St).
  pose proof (write_same_name V2 (raw_meta_bytes header)
    (MessageBytes.as_option (ew_data_bytes evt)) (ew_format evt) a) as Hn. rewrite E in Hn.
  pose proof (write_grows V2 (raw_meta_bytes header)
    (MessageBytes.as_option (ew_data_bytes evt)) (ew_format evt) a Ha) as [_ Hg]. rewrite E in Hg.
  exists a'. split; [|done].
  assert (a_index a' = a_index a) as Hi by apply Hn.
  unfold LogAppenderFs.write, data_ok in *.
  destruct (ew_data_bytes evt); [|done|]; simpl in *; rewrite (st_bind_Ok _ _ _ _ _ E);
    unfold st_mk; by rewrite Hi.
Qed.
End grows.

(** ** Renaming and removing numbered files *)

(** The numbered files of [path] from [n] are those below [k]. *)
Definition run_of (names : gmap string nat) (path : string) (n k : Z) : Prop :=
  0 ≤ n ≤ k ∧ names !! log_name path k = None
  ∧ ∀ j, n ≤ j < k → is_Some (names !! log_name path j).

Lemma run_exists fs path : ∃ k, run_of (fs_names fs) path 0 k ∧ k < Z.of_nat (loop_fuel fs).
Proof.
  destruct (first_missing (fs_names fs) path) as (k & Hk & Hnone & Hall).
  exists (Z.of_nat k). unfold loop_fuel. split; [|lia]. split; [lia|]. split; [done|].
  intros j Hj. specialize (Hall (Z.to_nat j)). rewrite Z2Nat.id in Hall by lia. apply Hall. lia.
Qed.

Lemma with_names_self fs : Fs.with_names fs (fs_names fs) = fs.
Proof. by destruct fs. Qed.

Lemma log_name_ne p q n m : 0 ≤ n → 0 ≤ m → p ≠ q ∨ n ≠ m → log_name p n ≠ log_name q m.
Proof. intros Hn Hm Hne E. apply log_name_inj in E as [-> ->]; [|done..]. naive_solver. Qed.

(** The renaming loop moves the whole run and touches nothing but names. *)
Lemma rename_loop_ok from to k : from ≠ to → ∀ fuel n fs,
  run_of (fs_names fs) from n k → k - n < Z.of_nat fuel →
  ∃ names', rename_loop fuel n from to fs = (Ok (), Fs.with_names fs names')
    ∧ (∀ j, n ≤ j < k → names' !! log_name to j = fs_names fs !! log_name from j
                        ∧ names' !! log_name from j = None)
    ∧ ∀ x, (∀ j, n ≤ j < k → x ≠ log_name from j ∧ x ≠ log_name to j) →
        names' !! x = fs_names fs !! x.
Proof.
  intros Hft. induction fuel as [|fuel IH]; intros n fs (Hn & Hk & Hrun) Hf; [lia|].
  cbn [rename_loop]. unfold st_mk, Fs.exists_.
  destruct (decide (n = k)) as [->|Hne].
  { rewrite Hk, bool_decide_eq_false_2 by by intros []. simpl.
    exists (fs_names fs). rewrite with_names_self. split; [done|]. split; [lia|done]. }
  destruct (Hrun n ltac:(lia)) as [i Hi]. unfold Fs.rename.
  rewrite Hi, bool_decide_eq_true_2 by eauto. simpl.
  set (names1 := <[log_name to n := i]> (delete (log_name from n) (fs_names fs))).
  assert (∀ x, x ≠ log_name from n → x ≠ log_name to n → names1 !! x = fs_names fs !! x) as H1.
  { intros x Hx1 Hx2. unfold names1. by rewrite lookup_insert_ne, lookup_delete_ne by done. }
  destruct (IH (n + 1) (Fs.with_names fs names1)) as (names' & E & Hmoved & Hkept).
  { split; [lia|]. cbn [fs_names Fs.with_names]. split.
    - rewrite H1; [done|..]; apply log_name_ne; first [lia|naive_solver lia].
    - intros j Hj. rewrite H1; [apply Hrun; lia|..]; apply log_name_ne; first [lia|naive_solver lia]. }
  { lia. }
  cbn [fs_names Fs.with_names] in *. exists names'. rewrite E. split; [done|]. split.
  - intros j Hj. destruct (decide (j = n)) as [->|Hjn].
    + rewrite !Hkept.
      * unfold names1. rewrite lookup_insert_eq, Hi, lookup_insert_ne, lookup_delete_eq; [done|].
        apply log_name_ne; [lia|lia|]. left. naive_solver.
      * intros j' Hj'. split; apply log_name_ne; first [lia|naive_solver lia].
      * intros j' Hj'. split; apply log_name_ne; first [lia|naive_solver lia].
    + destruct (Hmoved j ltac:(lia)) as [-> ->]. split; [|done].
      apply H1; apply log_name_ne; first [lia|naive_solver lia].
  - intros x Hx. rewrite Hkept by (intros j Hj; apply Hx; lia).
    destruct (Hx n ltac:(lia)). by apply H1.
Qed.

Lemma remove_loop_ok path k : ∀ fuel n fs,
  run_of (fs_names fs) path n k → k - n < Z.of_nat fuel →
  ∃ names', remove_loop fuel n path fs = (Ok (), Fs.with_names fs names')
    ∧ (∀ j, n ≤ j < k → names' !! log_name path j = None)
    ∧ ∀ x, (∀ j, n ≤ j < k → x ≠ log_name path j) → names' !! x = fs_names fs !! x.
Proof.
  induction fuel as [|fuel IH]; intros n fs (Hn & Hk & Hrun) Hf; [lia|].
  cbn [remove_loop]. unfold st_mk, Fs.exists_.
  destruct (decide (n = k)) as [->|Hne].
  { rewrite Hk, bool_decide_eq_false_2 by by intros []. simpl.
    exists (fs_names fs). rewrite with_names_self. split; [done|]. split; [lia|done]. }
  destruct (Hrun n ltac:(lia)) as [i Hi]. unfold Fs.remove_file.
  rewrite Hi, bool_decide_eq_true_2 by eauto. simpl.
  set (names1 := delete (log_name path n) (fs_names fs)).
  assert (∀ x, x ≠ log_name path n → names1 !! x = fs_names fs !! x) as H1.
  { intros x Hx. by apply lookup_delete_ne. }
  destruct (IH (n + 1) (Fs.with_names fs names1)) as (names' & E & Hgone & Hkept).
  { split; [lia|]. cbn [fs_names Fs.with_names]. split.
    - rewrite H1; [done|]. apply log_name_ne; first [lia|naive_solver lia].
    - intros j Hj. rewrite H1; [apply Hrun; lia|]. apply log_name_ne; first [lia|naive_solver lia]. }
  { lia. }
  cbn [fs_names Fs.with_names] in *. exists names'. rewrite E. split; [done|]. split.
  - intros j Hj. destruct (decide (j = n)) as [->|Hjn]; [|apply Hgone; lia].
    rewrite Hkept; [apply lookup_delete_eq|].
    intros j' Hj'. apply log_name_ne; first [lia|naive_solver lia].
  - intros x Hx. rewrite Hkept by (intros j Hj; apply Hx; lia). apply H1, Hx. lia.
Qed.

(** Renaming a run onto itself is no move. *)
Lemma rename_loop_same path k : ∀ fuel n fs,
  run_of (fs_names fs) path n k → k - n < Z.of_nat fuel →
  rename_loop fuel n path path fs = (Ok (), fs).
Proof.
  induction fuel as [|fuel IH]; intros n fs (Hn & Hk & Hrun) Hf; [lia|].
  cbn [rename_loop]. unfold st_mk, Fs.exists_.
  destruct (decide (n = k)) as [->|Hne].
  { by rewrite Hk, bool_decide_eq_false_2 by by intros []. }
  destruct (Hrun n ltac:(lia)) as [i Hi]. unfold Fs.rename.
  rewrite Hi, bool_decide_eq_true_2 by eauto. simpl.
  rewrite insert_delete_eq, insert_id, with_names_self by done. apply IH; [|lia].
  split; [lia|]. split; [done|]. intros j Hj. apply Hrun. lia.
Qed.

Lemma backup_ne path : path ≠ path +:+ ".backup".
Proof.
  intros E. apply (f_equal String.length) in E. revert E.
  induction path as [|a path IH]; [done|]. rewrite string_app_cons. simpl. lia.
Qed.

(** ** The invariant *)

Section inv.
Context {C : Type} `{CryptoPrims} `{MetaSerializer} `{BufStreamPolicy} `{TimedSizedCache C}.
Implicit Types l : LogFileLocalFs C.

Definition owns l (i : nat) : Prop :=
  i = lo_inode l ∨ ∃ k ar, lo_archives l !! k = Some ar ∧ ar_inode ar = i.

(** The bytes of a file as the log sees it: with what its appender has pending. *)
Definition visible (fs : Fs) l (i : nat) : bytes :=
  Fs.content fs i ++ if decide (i = lo_inode l) then a_wbuf (lo_appender l) else [].

(** What the log holds under a hash. *)
Definition local_contents (fs : Fs) l (h : AteHash) : option EventWeakData :=
  lk ← lo_lookup l !! h;
  ar ← lo_archives l !! ll_index lk;
  match (EventVersion.read {| g_index := ar_index ar; g_offset := ll_offset lk;
           g_data := visible fs l (ar_inode ar); g_pos := Z.to_nat (ll_offset lk) |}).1 with
  | Ok (Some en) => d ← result_ok (entry_load lk en); Some (forget_event (ld_data d))
  | _ => None
  end.

Definition cached l (h : AteHash) (d : LoadData) : Prop :=
  lo_flush l !! h = Some d ∨ cache_holds (lo_write l) h d ∨ cache_holds (lo_read l) h d.

(** The appender stands at the end of its file, which is the archive of its index;
    every known hash leads to its event, in the file unless it is still in the flush
    cache; and the caches hold nothing but events of the log. *)
Record local_inv (fs : Fs) l : Prop := {
  inv_appender : at_end (lo_appender l) ∧ a_data (lo_appender l) = Fs.content fs (lo_inode l);
  inv_active : ∃ ar, lo_archives l !! a_index (lo_appender l) = Some ar
                     ∧ ar_inode ar = lo_inode l;
  inv_inodes : ∀ i, owns l i → (i < fs_next fs)%nat;
  inv_lookup : ∀ h lk, lo_lookup l !! h = Some lk →
    ∃ ar e, lo_archives l !! ll_index lk = Some ar
      ∧ event_at (visible fs l (ar_inode ar)) (ll_offset lk) h e
      ∧ (lo_flush l !! h = None → event_at (Fs.content fs (ar_inode ar)) (ll_offset lk) h e);
  inv_cached : ∀ h d, cached l h d → ∃ e, local_contents fs l h = Some e ∧ loaded h e d;
}.

Lemma contents_event_at fs l h lk ar e :
  lo_lookup l !! h = Some lk → lo_archives l !! ll_index lk = Some ar →
  event_at (visible fs l (ar_inode ar)) (ll_offset lk) h e → local_contents fs l h = Some e.
Proof.
  intros Hl Har He. unfold local_contents. rewrite Hl. simpl. rewrite Har. simpl.
  destruct (read_event_at _ _ _ _ (ar_index ar) He) as (en & g' & -> & Hen). simpl.
  destruct (Hen lk) as (d & -> & Hd). simpl. f_equal. apply Hd.
Qed.

Lemma contents_known fs l h : local_inv fs l →
  is_Some (lo_lookup l !! h) ↔ is_Some (local_contents fs l h).
Proof.
  intros Hinv. split.
  - intros [lk Hlk]. destruct (inv_lookup fs l Hinv h lk Hlk) as (ar & e & Har & He & _).
    exists e. by eapply contents_event_at.
  - unfold local_contents. destruct (lo_lookup l !! h); [eauto|]. by intros [].
Qed.

Definition local_apart (l1 l2 : LogFileLocalFs C) : Prop := ∀ i, owns l1 i → ¬ owns l2 i.

(** A change of the world outside a log's files does not concern the log. *)
Lemma local_inv_frame fs fs' l :
  (∀ i, owns l i → Fs.content fs' i = Fs.content fs i) → (fs_next fs ≤ fs_next fs')%nat →
  local_inv fs l →
  local_inv fs' l ∧ ∀ h, local_contents fs' l h = local_contents fs l h.
Proof.
  intros Hc Hn Hinv.
  assert (∀ k ar, lo_archives l !! k = Some ar →
    Fs.content fs' (ar_inode ar) = Fs.content fs (ar_inode ar)) as Hca.
  { intros k ar Har. apply Hc. right. eauto. }
  assert (∀ h, local_contents fs' l h = local_contents fs l h) as Hcont.
  { intros h. unfold local_contents. destruct (lo_lookup l !! h) as [lk|]; simpl; [|done].
    destruct (lo_archives l !! ll_index lk) as [ar|] eqn:Har; simpl; [|done].
    unfold visible. by rewrite (Hca _ _ Har). }
  split; [|done]. destruct Hinv as [Ha Hact Hi Hl Hcd]. split.
  - rewrite Hc by by left. done.
  - done.
  - intros i Hio. specialize (Hi i Hio). lia.
  - intros h lk Hlk. destruct (Hl h lk Hlk) as (ar & e & Har & He & Hf). exists ar, e.
    unfold visible in *. rewrite (Hca _ _ Har). done.
  - intros h d Hd. rewrite Hcont. eauto.
Qed.

Lemma content_set fs i j bs :
  Fs.content (Fs.set_content i bs fs) j = if decide (j = i) then bs else Fs.content fs j.
Proof.
  unfold Fs.content, Fs.set_content. simpl. case_decide; subst.
  - by rewrite lookup_insert_eq.
  - by rewrite lookup_insert_ne by done.
Qed.

Lemma with_file_same a : LogAppender.with_file a (a_data a) (a_pos a) (a_rbuf a) (a_wbuf a)
  (a_offset a) = a.
Proof. by destruct a. Qed.

(** Running the appender of a log in step with its file. *)
Lemma on_appender_run {A} (c : st LogAppender SerializationErrorKind A) fs l r a' :
  local_inv fs l → c (lo_appender l) = (r, a') →
  on_appender c (fs, l) = (r, (Fs.set_content (lo_inode l) (a_data a') fs, with_appender l a')).
Proof.
  intros Hinv E. unfold on_appender, st_mk.
  destruct (inv_appender fs l Hinv) as [_ <-]. by rewrite with_file_same, E.
Qed.

Lemma owns_same l l' : lo_inode l' = lo_inode l → lo_archives l' = lo_archives l →
  ∀ i, owns l' i ↔ owns l i.
Proof. unfold owns. by intros -> ->. Qed.

(** The visible bytes after the appender moved on. *)
Lemma visible_step fs l l' a' more i :
  local_inv fs l → lo_inode l' = lo_inode l → lo_appender l' = a' →
  stored a' = stored (lo_appender l) ++ more →
  visible (Fs.set_content (lo_inode l) (a_data a') fs) l' i
  = visible fs l i ++ if decide (i = lo_inode l) then more else [].
Proof.
  intros Hinv Hi Ha St. unfold visible. rewrite content_set, Hi, Ha.
  destruct (decide (i = lo_inode l)) as [->|]; [|by rewrite !app_nil_r].
  destruct (inv_appender fs l Hinv) as [_ <-]. simpl in St. by rewrite St, <- app_assoc.
Qed.

(** Appending an event that loads as [e] under [h] adds just that. *)
Lemma append_ok fs l h evt header e :
  local_inv fs l → data_ok evt → data_ok e →
  (∀ lk, loaded h e {| ld_lookup := lk; ld_header := header; ld_data := evt |}) →
  (∀ old, local_contents fs l h = Some old → old = e) →
  ∃ lk fs' l', append_event h evt header (fs, l) = (Ok lk, (fs', l'))
    ∧ local_inv fs' l' ∧ (∀ i, owns l' i ↔ owns l i)
    ∧ (∀ i, ¬ owns l i → Fs.content fs' i = Fs.content fs i)
    ∧ fs_next fs' = fs_next fs
    ∧ ∀ h', local_contents fs' l' h' = if decide (h' = h) then Some e else local_contents fs l h'.
Proof.
  intros Hinv Hdevt Hde Hload Hold.
  set (meta := raw_meta_bytes header).
  set (data := MessageBytes.as_option (ew_data_bytes evt)).
  set (enc := enc_event meta data (ew_format evt)).
  destruct (inv_appender fs l Hinv) as [Hend Hdata].
  destruct (appender_write evt header (lo_appender l) Hend Hdevt)
    as (a' & E & Hend' & (_ & Hidx & _) & (more & Hgrow) & St).
  fold meta data enc in St.
  set (lk := {| ll_index := a_index (lo_appender l);
                ll_offset := Z.of_nat (length (stored (lo_appender l))) |}) in *.
  set (fs' := Fs.set_content (lo_inode l) (a_data a') fs).
  set (l' := with_caches (with_lookup (with_appender l a') (<[h := lk]> (lo_lookup l)))
    (<[h := {| ld_lookup := lk; ld_header := header; ld_data := evt |}]> (lo_flush l))
    (lo_write l) (lo_read l)).
  assert (∀ i, visible fs' l' i = visible fs l i ++ if decide (i = lo_inode l) then enc else [])
    as Hvis by (intros i; exact (visible_step fs l l' a' enc i Hinv eq_refl eq_refl St)).
  assert (∀ i, ∃ more, Fs.content fs' i = Fs.content fs i ++ more) as Hcont.
  { intros i. unfold fs'. rewrite content_set. case_decide as Hi; [|exists []; by rewrite app_nil_r].
    exists more. rewrite Hgrow, Hdata. by subst i. }
  destruct (inv_active fs l Hinv) as (ar & Har & Hari).
  assert (event_at (visible fs' l' (ar_inode ar)) (ll_offset lk) h e) as Hnew.
  { rewrite Hvis, Hari, decide_True by done.
    change (ll_offset lk) with (Z.of_nat (length (stored (lo_appender l)))).
    assert (stored (lo_appender l) = visible fs l (lo_inode l)) as ->.
    { unfold visible. rewrite decide_True by done. simpl. by rewrite Hdata. }
    apply event_at_append.
    - apply (Hload lk).
    - unfold data, data_ok in *. destruct (ew_data_bytes evt); simpl; [apply Hdevt|done|reflexivity].
    - intros o lk'. apply (loaded_entry_of h e _ o lk' (Hload lk') Hde). }
  assert (∀ h', local_contents fs' l' h'
    = if decide (h' = h) then Some e else local_contents fs l h') as Hc.
  { intros h'. case_decide as Hh.
    - subst h'. eapply contents_event_at; [apply lookup_insert_eq|done|done].
    - destruct (lo_lookup l !! h') as [lk'|] eqn:Hlk'.
      + destruct (inv_lookup fs l Hinv h' lk' Hlk') as (ar' & e' & Har' & He' & _).
        rewrite (contents_event_at fs l h' lk' ar' e' Hlk' Har' He').
        eapply contents_event_at; [simpl; by rewrite lookup_insert_ne by done|done|].
        rewrite Hvis. by apply event_at_extend.
      + unfold local_contents. simpl. by rewrite lookup_insert_ne, Hlk' by done. }
  exists lk, fs', l'. split; [|split; [|split; [|split; [|split; [done|done]]]]].
  - unfold append_event. rewrite (st_bind_Ok _ _ _ _ _ (on_appender_run _ fs l _ _ Hinv E)). done.
  - split.
    + split; [done|]. simpl. unfold fs'. rewrite content_set. by rewrite decide_True.
    + simpl. rewrite Hidx. eauto.
    + intros i Hi. apply (inv_inodes fs l Hinv). by apply (owns_same l l').
    + intros h' lk' Hlk'. simpl in Hlk'. destruct (decide (h' = h)) as [->|Hh].
      * rewrite lookup_insert_eq in Hlk'. injection Hlk' as <-. exists ar, e.
        split; [done|]. split; [done|]. simpl. by rewrite lookup_insert_eq.
      * rewrite lookup_insert_ne in Hlk' by done.
        destruct (inv_lookup fs l Hinv h' lk' Hlk') as (ar' & e' & Har' & He' & Hf').
        exists ar', e'. split; [done|]. split; [rewrite Hvis; by apply event_at_extend|].
        simpl. rewrite lookup_insert_ne by done. intros Hfl.
        destruct (Hcont (ar_inode ar')) as (m & ->). by apply event_at_extend, Hf'.
    + intros h' d Hd. rewrite Hc. destruct (decide (h' = h)) as [->|Hh].
      * exists e. split; [done|]. destruct Hd as [Hd|Hd].
        -- simpl in Hd. rewrite lookup_insert_eq in Hd. injection Hd as <-. apply Hload.
        -- destruct (inv_cached fs l Hinv h d) as (old & Ho & Hol); [by right|].
           by rewrite <- (Hold _ Ho).
      * apply (inv_cached fs l Hinv). destruct Hd as [Hd|Hd]; [|by right].
        simpl in Hd. rewrite lookup_insert_ne in Hd by done. by left.
  - by apply owns_same.
  - intros i Hi. unfold fs'. rewrite content_set, decide_False; [done|].
    intros ->. apply Hi. by left.
Qed.

(** Changing only the caches, to ones that hold no more. *)
Lemma local_inv_caches fs l f w r :
  local_inv fs l →
  (∀ h, f !! h = None → lo_flush l !! h = None ∨
     ∀ lk ar e, lo_lookup l !! h = Some lk → lo_archives l !! ll_index lk = Some ar →
       event_at (visible fs l (ar_inode ar)) (ll_offset lk) h e →
       event_at (Fs.content fs (ar_inode ar)) (ll_offset lk) h e) →
  (∀ h d, f !! h = Some d ∨ cache_holds w h d ∨ cache_holds r h d →
     ∃ e, local_contents fs l h = Some e ∧ loaded h e d) →
  local_inv fs (with_caches l f w r).
Proof.
  intros Hinv Hf2 Hc. destruct Hinv as [Ha Hact Hi Hl Hcd]. split; try done.
  intros h lk Hlk. destruct (Hl h lk Hlk) as (ar & e & Har & He & Hfl).
  exists ar, e. split; [done|]. split; [done|]. simpl. intros Hn.
  destruct (Hf2 h Hn) as [Hn'|Hev]; [by apply Hfl|by eapply Hev].
Qed.

Lemma load_cached_hit fs l h hit l' : local_inv fs l → load_cached h l = (hit, l') →
  local_inv fs l' ∧ (∀ i, owns l' i ↔ owns l i)
  ∧ (∀ h', local_contents fs l' h' = local_contents fs l h')
  ∧ lo_lookup l' = lo_lookup l ∧ lo_archives l' = lo_archives l
  ∧ match hit with
    | Some d => cached l h d
    | None => lo_flush l !! h = None ∧ lo_flush l' = lo_flush l
    end.
Proof.
  intros Hinv. unfold load_cached.
  assert (∀ w r, (∀ k v, cache_holds w k v → cache_holds (lo_write l) k v) →
    (∀ k v, cache_holds r k v → cache_holds (lo_read l) k v) →
    local_inv fs (with_caches l (lo_flush l) w r)) as Hsub.
  { intros w r Hw Hr. apply local_inv_caches; [done|by left|].
    intros h' d Hd. apply (inv_cached fs l Hinv). unfold cached. naive_solver. }
  destruct (lo_flush l !! h) as [d|] eqn:Hfl.
  { intros [= <- <-]. do 5 (split; [done|]). by left. }
  destruct (cache_get h (lo_read l)) as [hit1 read] eqn:Hg.
  assert (∀ k v, cache_holds read k v → cache_holds (lo_read l) k v) as Hread.
  { intros k v Hk. apply (cache_get_after h). by rewrite Hg. }
  destruct hit1 as [d|].
  { intros [= <- <-]. split; [by apply Hsub|]. do 4 (split; [done|]). right. right.
    apply cache_get_holds. by rewrite Hg. }
  cbn [lo_write with_caches lo_flush lo_read].
  destruct (cache_remove h (lo_write l)) as [hit2 write] eqn:Hr.
  assert (∀ k v, cache_holds write k v → cache_holds (lo_write l) k v) as Hwrite.
  { intros k v Hk. apply (cache_remove_after h). by rewrite Hr. }
  intros [= <- <-]. split; [by apply (Hsub write read)|]. do 4 (split; [done|]).
  destruct hit2 as [d|]; [|done]. right. left. apply cache_remove_holds. by rewrite Hr.
Qed.

Lemma local_load_ok fs l h e : local_inv fs l → local_contents fs l h = Some e →
  ∃ d l', load h (fs, l) = (Ok d, (fs, l')) ∧ loaded h e d ∧ local_inv fs l'
    ∧ (∀ i, owns l' i ↔ owns l i) ∧ ∀ h', local_contents fs l' h' = local_contents fs l h'.
Proof.
  intros Hinv Hc. unfold load, st_mk.
  destruct (load_cached h l) as [hit l1] eqn:Hl1.
  destruct (load_cached_hit fs l h hit l1 Hinv Hl1) as (Hinv1 & Hown & Hc1 & Hlk & Har & Hhit).
  destruct hit as [d|].
  { exists d, l1. destruct (inv_cached fs l Hinv h d Hhit) as (e' & He' & Hd).
    assert (e' = e) as -> by congruence. done. }
  destruct Hhit as [Hfl Hfl1].
  destruct (proj2 (contents_known fs l h Hinv)) as [lk Hlkh]; [eauto|].
  destruct (inv_lookup fs l Hinv h lk Hlkh) as (ar & e' & Harh & He' & Hdisk).
  assert (e' = e) as ->.
  { rewrite (contents_event_at fs l h lk ar e' Hlkh Harh He') in Hc. congruence. }
  destruct (read_event_at _ _ _ _ (ar_index ar) (Hdisk Hfl)) as (en & g' & Eread & Hen).
  destruct (Hen lk) as (d & Ed & Hd).
  assert (raw_event_hash (ld_header d) = h) as Hh by apply Hd.
  assert (load_file h fs l1 = Ok d) as ->.
  { unfold load_file. rewrite Hlk, Hlkh, Har, Harh. unfold LogArchive.lock_at. rewrite Eread.
    simpl. rewrite Ed. simpl. by rewrite Hh, decide_True. }
  eexists d, _. split; [done|]. split; [done|]. rewrite Hh.
  split; [|split; [intros i; rewrite <- Hown; by apply owns_same|apply Hc1]].
  apply local_inv_caches; [done|by left|].
  intros h' d' [Hd'|[Hd'|Hd']].
  - apply (inv_cached fs l1 Hinv1). by left.
  - apply (inv_cached fs l1 Hinv1). right. by left.
  - apply cache_set_after in Hd' as [[-> ->]|Hd'].
    + exists e. by rewrite Hc1.
    + apply (inv_cached fs l1 Hinv1). right. by right.
Qed.

Lemma local_load_missing fs l h : local_inv fs l → local_contents fs l h = None →
  ∃ l', load h (fs, l) = (Err (NotFoundByHash h), (fs, l')) ∧ local_inv fs l'
    ∧ (∀ i, owns l' i ↔ owns l i) ∧ ∀ h', local_contents fs l' h' = local_contents fs l h'.
Proof.
  intros Hinv Hc. unfold load, st_mk.
  destruct (load_cached h l) as [hit l1] eqn:Hl1.
  destruct (load_cached_hit fs l h hit l1 Hinv Hl1) as (Hinv1 & Hown & Hc1 & Hlk & Har & Hhit).
  destruct hit as [d|].
  { destruct (inv_cached fs l Hinv h d Hhit) as (e' & He' & _). congruence. }
  assert (lo_lookup l !! h = None) as Hnone.
  { apply eq_None_not_Some. rewrite contents_known by done. rewrite Hc. by intros []. }
  unfold load_file. rewrite Hlk, Hnone. eauto.
Qed.

(** Moving the flush cache into the write cache. *)
Lemma flush_fold keys : ∀ (fl fl' : gmap AteHash LoadData) (wr wr' : C),
  foldl (λ '(fl, wr) k, match (fl : gmap AteHash LoadData) !! k with
    | Some v => (delete k fl, cache_set k v wr) | None => (fl, wr) end) (fl, wr) keys = (fl', wr') →
  (∀ h d, fl' !! h = Some d → fl !! h = Some d)
  ∧ (∀ h d, cache_holds wr' h d → fl !! h = Some d ∨ cache_holds wr h d).
Proof.
  induction keys as [|k keys IH]; intros fl fl' wr wr' E; simpl in E.
  - injection E as <- <-. split; [done|by right].
  - destruct (fl !! k) as [v|] eqn:Hk; [|by apply IH].
    apply IH in E as [E1 E2]. split.
    + intros h d Hd. apply E1 in Hd. by apply lookup_delete_Some in Hd as [_ ?].
    + intros h d Hd. destruct (E2 h d Hd) as [Hf|Hw].
      * left. by apply lookup_delete_Some in Hf as [_ ?].
      * apply cache_set_after in Hw as [[-> ->]|Hw]; [by left|by right].
Qed.

(** Flushing the appender puts everything visible into the file. *)
Lemma flush_appender fs l : local_inv fs l →
  ∃ a' fs', on_appender (st_map_err IO LogAppender.flush) (fs, l) = (Ok (), (fs', with_appender l a'))
    ∧ at_end a' ∧ a_wbuf a' = [] ∧ same_name (lo_appender l) a'
    ∧ a_data a' = Fs.content fs' (lo_inode l)
    ∧ (∀ i, Fs.content fs' i = visible fs l i) ∧ fs_next fs' = fs_next fs
    ∧ a_offset a' = a_offset (lo_appender l).
Proof.
  intros Hinv. destruct (inv_appender fs l Hinv) as [Hend Hdata].
  destruct (appender_flush (lo_appender l) Hend)
    as (a' & E & Hend' & D & W & O & Hi & Hp & Hh).
  eexists a', _. split.
  { apply on_appender_run; [done|]. by apply (st_map_err_run IO _ _ _ _ E). }
  split; [done|]. split; [done|]. split; [done|]. rewrite content_set, decide_True by done.
  split; [done|]. split; [|done]. intros i. rewrite content_set. unfold visible.
  case_decide as Hii; [|by rewrite app_nil_r]. subst i. rewrite D. simpl. by rewrite Hdata.
Qed.

(** A log after a flush: same files, nothing pending, caches that hold no more. *)
Lemma flushed_inv fs l fs' l1 :
  local_inv fs l → (∀ i, Fs.content fs' i = visible fs l i) → fs_next fs' = fs_next fs →
  lo_inode l1 = lo_inode l → lo_archives l1 = lo_archives l → lo_lookup l1 = lo_lookup l →
  at_end (lo_appender l1) → a_wbuf (lo_appender l1) = [] →
  a_data (lo_appender l1) = Fs.content fs' (lo_inode l) →
  a_index (lo_appender l1) = a_index (lo_appender l) →
  (∀ h d, cached l1 h d → cached l h d) →
  local_inv fs' l1 ∧ ∀ h, local_contents fs' l1 h = local_contents fs l h.
Proof.
  intros Hinv Hc Hn Hi Har Hlk Hend Hw Hd Hidx Hcd.
  assert (∀ i, visible fs' l1 i = visible fs l i) as Hvis.
  { intros i. unfold visible at 1. rewrite Hw, Hc. case_decide; by rewrite app_nil_r. }
  assert (∀ h, local_contents fs' l1 h = local_contents fs l h) as Hcont.
  { intros h. unfold local_contents. rewrite Hlk, Har.
    destruct (lo_lookup l !! h) as [lk|]; simpl; [|done].
    destruct (lo_archives l !! ll_index lk); simpl; [|done]. by rewrite Hvis. }
  split; [|done]. destruct Hinv as [Ha Hact Hin Hl Hch]. split.
  - by rewrite Hi.
  - by rewrite Hidx, Hi, Har.
  - intros i Ho. rewrite Hn. apply Hin. by apply (owns_same l l1).
  - intros h lk Hlkh. rewrite Hlk in Hlkh. destruct (Hl h lk Hlkh) as (ar & e & Harh & He & _).
    exists ar, e. rewrite Har, Hvis, Hc. done.
  - intros h d Hh. rewrite Hcont. apply Hch. by apply Hcd.
Qed.

Lemma local_flush_ok fs l : local_inv fs l →
  ∃ fs' l', flush (fs, l) = (Ok (), (fs', l')) ∧ local_inv fs' l' ∧ (∀ i, owns l' i ↔ owns l i)
    ∧ (∀ i, ¬ owns l i → Fs.content fs' i = Fs.content fs i) ∧ fs_next fs' = fs_next fs
    ∧ (∀ i, Fs.content fs' i = visible fs l i)
    ∧ ∀ h, local_contents fs' l' h = local_contents fs l h.
Proof.
  intros Hinv. destruct (flush_appender fs l Hinv)
    as (a' & fs' & E & Hend & Hw & (Hp & Hidx & Hh) & Hd & Hc & Hn & _).
  unfold flush, st_mk. rewrite E. cbn [lo_flush with_appender lo_write].
  destruct (foldl _ (lo_flush l, lo_write l) _) as [fl wr] eqn:Hfold.
  apply flush_fold in Hfold as [Hfl Hwr].
  eexists fs', _. split; [done|].
  destruct (flushed_inv fs l fs' (with_caches (with_appender l a') fl wr (lo_read l)))
    as [Hinv' Hcont]; try done.
  { intros h d [Hh'|[Hh'|Hh']]; simpl in Hh'.
    - left. by apply Hfl.
    - destruct (Hwr h d Hh'); [by left|right; by left].
    - right. by right. }
  split; [done|]. split; [by apply owns_same|]. split; [|done].
  intros i Hi. rewrite Hc. unfold visible. rewrite decide_False; [by rewrite app_nil_r|].
  intros ->. apply Hi. by left.
Qed.

Lemma clone_appender fs l : local_inv fs l →
  ∃ a' new fs', on_appender (st_map_err IO LogAppender.clone) (fs, l)
      = (Ok new, (fs', with_appender l a'))
    ∧ at_end new ∧ a_wbuf new = [] ∧ same_name (lo_appender l) new
    ∧ a_data new = Fs.content fs' (lo_inode l)
    ∧ (∀ i, Fs.content fs' i = visible fs l i) ∧ fs_next fs' = fs_next fs.
Proof.
  intros Hinv. destruct (inv_appender fs l Hinv) as [Hend Hdata].
  destruct (appender_flush (lo_appender l) Hend)
    as (a' & E & Hend' & D & W & O & Hi & Hp & Hh).
  eexists a', _, _. split.
  { apply on_appender_run; [done|]. unfold st_map_err, LogAppender.clone.
    rewrite (st_bind_Ok _ _ _ _ _ E). reflexivity. }
  destruct Hend' as (Hwr & Hr & Hpos & Hoff).
  split. { split; [done|]. split; [done|]. split; [done|]. simpl. by rewrite <- W. }
  split; [done|]. split; [done|]. rewrite content_set, decide_True by done.
  split; [done|]. split; [|done]. intros i. rewrite content_set. unfold visible.
  case_decide as Hii; [|by rewrite app_nil_r]. subst i. rewrite D. simpl. by rewrite Hdata.
Qed.

Lemma local_copy_ok fs l : local_inv fs l →
  ∃ fs' l' new, copy (fs, l) = (Ok new, (fs', l')) ∧ local_inv fs' new
    ∧ (∀ i, owns new i ↔ owns l i)
    ∧ (∀ i, ¬ owns l i → Fs.content fs' i = Fs.content fs i) ∧ fs_next fs' = fs_next fs
    ∧ ∀ h, local_contents fs' new h = local_contents fs l h.
Proof.
  intros Hinv. destruct (clone_appender fs l Hinv)
    as (a' & new & fs' & E & Hend & Hw & (Hp & Hidx & Hh) & Hd & Hc & Hn).
  unfold copy, st_mk. rewrite E. eexists fs', _, _. split; [done|].
  match goal with |- local_inv _ ?n ∧ _ => destruct (flushed_inv fs l fs' n) as [Hinv' Hcont] end;
    try done.
  { intros h d [Hh'|[Hh'|Hh']]; simpl in Hh'; [by left|by apply cache_new_holds in Hh'..]. }
  split; [done|]. split; [by apply owns_same|]. split; [|done].
  intros i Hi. rewrite Hc. unfold visible. rewrite decide_False; [by rewrite app_nil_r|].
  intros ->. apply Hi. by left.
Qed.

(** Moving a log renames files. *)
Lemma renames from to fs : ∃ names,
  rename_loop (loop_fuel fs) 0 from to fs = (Ok (), Fs.with_names fs names).
Proof.
  destruct (run_exists fs from) as (k & Hrun & Hk).
  destruct (decide (from = to)) as [->|Hne].
  - exists (fs_names fs). rewrite (rename_loop_same to k), with_names_self by (done || lia). done.
  - destruct (rename_loop_ok from to k Hne (loop_fuel fs) 0 fs Hrun ltac:(lia)) as (names & E & _).
    by exists names.
Qed.

Lemma removes path fs : ∃ names,
  remove_loop (loop_fuel fs) 0 path fs = (Ok (), Fs.with_names fs names).
Proof.
  destruct (run_exists fs path) as (k & Hrun & Hk).
  destruct (remove_loop_ok path k (loop_fuel fs) 0 fs Hrun ltac:(lia)) as (names & E & _).
  by exists names.
Qed.

Lemma on_fs_run {A} (c : Fs → st Fs SerializationErrorKind A) fs l r fs' :
  c fs fs = (r, fs') → on_fs c (fs, l) = (r, (fs', l)).
Proof. intros E. unfold on_fs, st_mk. by rewrite E. Qed.

Definition with_path l (path : string) : LogFileLocalFs C :=
  {| lo_log_path := path; lo_backup_path := lo_backup_path l; lo_temp := lo_temp l;
     lo_lookup := lo_lookup l; lo_appender := lo_appender l; lo_inode := lo_inode l;
     lo_archives := lo_archives l; lo_flush := lo_flush l; lo_write := lo_write l;
     lo_read := lo_read l |}.

Lemma move_run fs l path : ∃ names,
  move_log_file path (fs, l) = (Ok (), (Fs.with_names fs names, with_path l path)).
Proof.
  unfold move_log_file. rewrite (st_bind_Ok _ _ _ _ _ (eq_refl : st_get (fs, l) = _)).
  cbn [snd]. destruct (lo_temp l).
  { exists (fs_names fs). by rewrite with_names_self. }
  destruct (renames path (path +:+ ".backup") fs) as (n1 & E1).
  destruct (renames (lo_log_path l) path (Fs.with_names fs n1)) as (n2 & E2).
  destruct (removes (path +:+ ".backup") (Fs.with_names fs n2)) as (n3 & E3).
  exists n3. erewrite st_bind_Ok.
  2:{ erewrite st_bind_Ok by (apply on_fs_run; exact E1).
      erewrite st_bind_Ok by (apply on_fs_run; exact E2).
      apply on_fs_run. exact E3. }
  done.
Qed.

Lemma local_move_ok fs l path : local_inv fs l →
  ∃ fs' l', move_log_file path (fs, l) = (Ok (), (fs', l')) ∧ local_inv fs' l'
    ∧ (∀ i, owns l' i ↔ owns l i) ∧ (∀ i, Fs.content fs' i = Fs.content fs i)
    ∧ fs_next fs' = fs_next fs ∧ ∀ h, local_contents fs' l' h = local_contents fs l h.
Proof.
  intros Hinv. destruct (move_run fs l path) as (names & E). eexists _, _. split; [done|].
  destruct (local_inv_frame fs (Fs.with_names fs names) l) as [[Ha Hact Hi Hl Hcd] Hc]; [done..|].
  split; [|done]. by split.
Qed.

(** ** Opening a log *)

(** The end of [LogAppender::new], once the header is loaded. *)
Lemma settle (header : bytes) a : a_writable a = true → a_wbuf a = [] →
  (_ ← st_map_err IO LogAppender.flush; _ ← st_map_err IO LogAppender.seek_to_end;
   mret header) a
  = (Ok header, LogAppender.with_file a (a_data a) (length (a_data a)) [] []
                  (Z.of_nat (length (a_data a)))).
Proof.
  intros Hw Hb. unfold mbind, st_bind, st_map_err, LogAppender.seek_to_end, LogAppender.flush,
    mbind, st_bind, st_mk.
  rewrite write_out_writable by done. rewrite Hb, take_nil, drop_nil. cbn [file_splice length].
  rewrite write_out_writable by done. by cbn [a_wbuf LogAppender.with_file take drop].
Qed.

(** The file a log header was loaded from: what was there, or what was there with a
    header added at the end. *)
Definition headed (bs : bytes) (dflt header : bytes) (bs' : bytes) : Prop :=
  ∃ junk rest, bs' = junk ++ enc_header header ++ rest ∧ after_magic redo_magic junk = None
    ∧ Z.of_nat (length header) ≤ u32_max
    ∧ (bs' = bs ∨ (junk = bs ∧ header = dflt ∧ rest = [])).

Lemma headed_new bs dflt : after_magic redo_magic bs = None → Z.of_nat (length dflt) ≤ u32_max →
  headed bs dflt dflt (bs ++ enc_header dflt).
Proof. intros Hn Hl. exists bs, []. rewrite app_nil_r. naive_solver. Qed.

Lemma headed_old junk header rest dflt :
  after_magic redo_magic junk = None → Z.of_nat (length header) ≤ u32_max →
  headed (junk ++ enc_header header ++ rest) dflt header (junk ++ enc_header header ++ rest).
Proof. intros Hn Hl. exists junk, rest. naive_solver. Qed.

Lemma load_headed a dflt header bs' : opened a → headed (a_data a) dflt header bs' →
  ∃ a', RedoHeader.load dflt a = (Ok header, a') ∧ a_data a' = bs' ∧ a_wbuf a' = []
        ∧ a_writable a' = true ∧ same_name a a'.
Proof.
  intros Ho (junk & rest & Hbs' & Hjunk & Hlen & Hcase).
  assert (a_wbuf a = [] ∧ a_writable a = true) as [Hwb Hwr] by by destruct Ho as (? & _ & ? & _).
  destruct Hcase as [Hsame|(-> & -> & ->)].
  - rewrite Hbs' in Hsame. symmetry in Hsame.
    destruct (load_finds a dflt junk header rest Ho Hsame Hjunk Hlen) as (a' & E & Hd & Hw & Hwr' & Hn).
    exists a'. rewrite Hd, Hw, Hwr', Hsame, Hbs'. done.
  - destruct (load_creates a dflt Ho Hjunk) as (a' & E & D & W & Hend & Hn).
    exists a'. rewrite D, Hbs', app_nil_r. split; [done|]. split; [done|]. split; [done|].
    split; [apply Hend|done].
Qed.

Lemma archive_new path index fs inode bs dflt header :
  fs_names fs !! log_name path index = Some inode →
  headed bs dflt header (Fs.content fs inode) →
  LogArchive.new path index fs
  = Ok {| ar_index := index; ar_path := log_name path index; ar_inode := inode;
          ar_header := header |}.
Proof.
  intros Hn (junk & rest & Hc & Hjunk & Hlen & _). unfold LogArchive.new, Fs.open_read. rewrite Hn.
  simpl. set (g := LogArchive.lock_at _ _ _).
  destruct (redo_read_header g junk header rest (guard_readable g) Hjunk Hlen) as (g' & E & _).
  { simpl. by rewrite Hc. }
  by rewrite E.
Qed.

(** [LogAppender::new] for writing. *)
Lemma appender_new path truncate index dflt fs i fs1 header bs' :
  Fs.open_write truncate (log_name path index) fs = (i, fs1) →
  headed (Fs.content fs1 i) dflt header bs' →
  ∃ a ar, LogAppenderFs.new path truncate false index dflt fs
          = (Ok (i, a, ar), Fs.set_content i bs' fs1)
    ∧ at_end a ∧ a_data a = bs' ∧ a_wbuf a = [] ∧ a_index a = index ∧ a_header a = header
    ∧ a_path a = log_name path index
    ∧ ar = {| ar_index := index; ar_path := log_name path index; ar_inode := i;
              ar_header := header |}.
Proof.
  intros Hopen Hhead. unfold LogAppenderFs.new, st_mk. cbn iota zeta. rewrite Hopen.
  set (a0 := {| a_path := _; a_data := _ |}).
  destruct (load_headed a0 dflt header bs') as (a1 & E & D & W & Hwr & Hp & Hi & Hh); [done|done|].
  rewrite (st_bind_Ok _ _ _ _ _ E), settle by done.
  cbn [a_data LogAppender.with_file]. rewrite D.
  assert (fs_names fs1 !! log_name path index = Some i) as Hname.
  { unfold Fs.open_write in Hopen. destruct (fs_names fs !! _) as [j|] eqn:Hj.
    - injection Hopen as <- <-. by destruct truncate.
    - injection Hopen as <- <-. apply lookup_insert_eq. }
  rewrite (archive_new path index _ i (Fs.content fs1 i) dflt header).
  - eexists _, _. split; [done|]. split; [|done].
    unfold at_end, LogAppender_writer. simpl. rewrite app_nil_r. done.
  - done.
  - by rewrite content_set, decide_True.
Qed.

(** The log [new] returns, over the files it opened. *)
Definition opened_log (temp : bool) (path : string) (backup : option string) (size ttl : Z)
    (inode : nat) (a : LogAppender) (archives : gmap Z LogArchive) : LogFileLocalFs C :=
  {| lo_log_path := path; lo_backup_path := backup; lo_temp := temp; lo_lookup := ∅;
     lo_appender := a; lo_inode := inode; lo_archives := archives; lo_flush := ∅;
     lo_write := cache_new size ttl; lo_read := cache_new size ttl |}.

Lemma opened_log_inv fs temp path backup size ttl i a archives ar :
  at_end a → a_data a = Fs.content fs i → archives !! a_index a = Some ar → ar_inode ar = i →
  (∀ k ar, archives !! k = Some ar → (ar_inode ar < fs_next fs)%nat) →
  local_inv fs (opened_log temp path backup size ttl i a archives)
  ∧ ∀ h, local_contents fs (opened_log temp path backup size ttl i a archives) h = None.
Proof.
  intros Hend Hd Har Hi Hnext. split; [|done]. split.
  - done.
  - eauto.
  - intros j [->|(k & ar' & Hk & <-)]; simpl in *; [|by eapply Hnext].
    rewrite <- Hi. by eapply Hnext.
  - intros h lk Hlk. simpl in Hlk. by rewrite lookup_empty in Hlk.
  - intros h d [Hf|[Hw|Hr]]; simpl in *.
    + by rewrite lookup_empty in Hf.
    + by apply cache_new_holds in Hw.
    + by apply cache_new_holds in Hr.
Qed.

(** [new] for writing, without a restore path, once the archives are known. *)
Lemma new_run temp path backup truncate size ttl dflt fs n archives i fs1 header bs' :
  archive_loop (loop_fuel fs) 0 temp path ∅ fs = Ok (n, archives) →
  Fs.open_write truncate (log_name path n) fs = (i, fs1) →
  headed (Fs.content fs1 i) dflt header bs' →
  ∃ a names', new temp false path backup None truncate size ttl dflt fs
      = (Ok (opened_log temp path backup size ttl i a
               (<[n := {| ar_index := n; ar_path := log_name path n; ar_inode := i;
                          ar_header := header |}]> archives)),
         Fs.with_names (Fs.set_content i bs' fs1) names')
    ∧ at_end a ∧ a_data a = bs' ∧ a_wbuf a = [] ∧ a_index a = n ∧ a_header a = header
    ∧ (temp = false → names' = fs_names fs1).
Proof.
  intros Hloop Hopen Hhead.
  destruct (appender_new path truncate n dflt fs i fs1 header bs' Hopen Hhead)
    as (a & ar & E & Hend & D & W & I & Hh & P & ->).
  unfold new. rewrite (st_bind_Ok _ _ fs fs ∅) by done.
  rewrite (st_bind_Ok _ _ fs fs (n, archives)) by (unfold st_mk; by rewrite Hloop).
  rewrite (st_bind_Ok _ _ _ _ _ E). unfold st_mk. cbn [negb]. rewrite andb_true_r.
  destruct temp.
  - unfold Fs.remove_file. destruct (fs_names _ !! _).
    + eexists a, _. split; [done|]. by do 5 (split; [done|]).
    + eexists a, (fs_names fs1). by do 6 (split; [done|]).
  - eexists a, (fs_names fs1). by do 6 (split; [done|]).
Qed.

(** The place a flip puts the new log at: nothing but possibly a left-over first file
    that the log itself does not use. *)
Definition local_can_flip (fs : Fs) l : Prop :=
  let path := lo_log_path l +:+ ".flip" in
  fs_names fs !! log_name path 1 = None
  ∧ ∀ i, fs_names fs !! log_name path 0 = Some i → ¬ owns l i ∧ (i < fs_next fs)%nat.

Lemma open_truncate p fs i fs1 : Fs.open_write true p fs = (i, fs1) →
  Fs.content fs1 i = [] ∧ (∀ j, j ≠ i → Fs.content fs1 j = Fs.content fs j)
  ∧ (fs_next fs ≤ fs_next fs1)%nat
  ∧ (fs_names fs !! p = Some i ∧ fs_next fs1 = fs_next fs
     ∨ i = fs_next fs ∧ fs_next fs1 = S (fs_next fs)).
Proof.
  unfold Fs.open_write. destruct (fs_names fs !! p) as [j|].
  - intros [= <- <-]. rewrite content_set, decide_True by done.
    split; [done|]. split; [|auto]. intros k Hk. by rewrite content_set, decide_False.
  - intros [= <- <-]. unfold Fs.content. simpl. rewrite lookup_insert_eq.
    split; [done|]. split; [|auto]. intros k Hk. by rewrite lookup_insert_ne.
Qed.

Lemma local_begin_flip_ok fs l hdr : local_inv fs l → local_can_flip fs l →
  Z.of_nat (length hdr) ≤ u32_max →
  ∃ fs' new, begin_flip hdr (fs, l) = (Ok new, (fs', l)) ∧ local_inv fs' l ∧ local_inv fs' new
    ∧ local_apart l new ∧ (∀ h, local_contents fs' l h = local_contents fs l h)
    ∧ (∀ h, local_contents fs' new h = None).
Proof.
  intros Hinv [Hone Hzero] Hlen. unfold begin_flip, st_mk.
  set (path := lo_log_path l +:+ ".flip") in *. cbn zeta.
  destruct (Fs.open_write true (log_name path 0) fs) as [i fs1] eqn:Hopen.
  destruct (open_truncate _ _ _ _ Hopen) as (Hempty & Hother & Hle & Hi).
  destruct (new_run (lo_temp l) path (lo_backup_path l) true (cache_capacity (lo_read l))
    (cache_lifespan (lo_read l)) hdr fs 0 ∅ i fs1 hdr (enc_header hdr))
    as (a & names & E & Hend & D & W & I & _).
  { unfold loop_fuel. cbn [archive_loop]. unfold Fs.exists_.
    change (0 + 1) with 1. rewrite Hone. by rewrite bool_decide_eq_false_2 by by intros []. }
  { done. }
  { rewrite Hempty. by apply headed_new. }
  rewrite E. set (fs' := Fs.with_names _ names).
  assert (∀ j, Fs.content fs' j = if decide (j = i) then enc_header hdr else Fs.content fs1 j)
    as Hc by (intros j; apply (content_set fs1 i j)).
  assert (¬ owns l i ∧ (i < fs_next fs1)%nat) as [Hno Hlt].
  { destruct Hi as [[Hn Hnx]|[-> Hnx]].
    - destruct (Hzero i Hn). split; [done|lia].
    - split; [|lia]. intros Ho%(inv_inodes fs l Hinv). lia. }
  destruct (local_inv_frame fs fs' l) as [Hinv' Hcont]; [|done|done|].
  { intros j Hj. rewrite Hc, decide_False by by intros ->. apply Hother. by intros ->. }
  eexists fs', _. split; [done|]. split; [done|].
  assert (Fs.content fs' i = enc_header hdr) as Hci by by rewrite Hc, decide_True.
  destruct (opened_log_inv fs' (lo_temp l) path (lo_backup_path l) (cache_capacity (lo_read l))
    (cache_lifespan (lo_read l)) i a
    {[0 := {| ar_index := 0; ar_path := log_name path 0; ar_inode := i; ar_header := hdr |}]}
    {| ar_index := 0; ar_path := log_name path 0; ar_inode := i; ar_header := hdr |})
    as [Hnew Hnone]; try done.
  { by rewrite D. }
  { rewrite I. apply lookup_singleton_eq. }
  { intros k ar [_ <-]%lookup_singleton_Some. done. }
  split; [exact Hnew|]. split; [|done].
  intros j Hj [->|(k & ar & Hk & <-)]; [done|]. simpl in Hk.
  apply lookup_singleton_Some in Hk as [_ <-]. done.
Qed.

(** ** The contract *)

Definition local_storable (e : EventWeakData) : Prop := data_ok e ∧ meta_ok e.

Lemma data_ok_forget e : data_ok (forget_event e) ↔ data_ok e.
Proof. done. Qed.

(** An operation that changes the content of no file but the log's own. *)
Lemma local_frame fs l fs' l' l2 :
  (∀ i, ¬ owns l i → Fs.content fs' i = Fs.content fs i) → (fs_next fs ≤ fs_next fs')%nat →
  (∀ i, owns l' i ↔ owns l i) → local_inv fs l2 → local_apart l l2 →
  local_inv fs' l2 ∧ (∀ h, local_contents fs' l2 h = local_contents fs l2 h) ∧ local_apart l' l2.
Proof.
  intros Hc Hn Ho Hinv Hap.
  destruct (local_inv_frame fs fs' l2) as [Hinv' Hcont]; [|done|done|].
  - intros i Hi. apply Hc. intros Hi'. by apply (Hap i).
  - split; [done|]. split; [done|]. intros i Hi%Ho. by apply Hap.
Qed.

Lemma local_write_ok fs l e raw :
  local_inv fs l → local_storable e → EventWeakData.as_header_raw e = Ok raw →
  (∀ old, local_contents fs l (raw_event_hash raw) = Some old → old = forget_event e) →
  ∃ lk fs' l', write e (fs, l) = (Ok lk, (fs', l'))
    ∧ local_inv fs' l' ∧ (∀ i, owns l' i ↔ owns l i)
    ∧ (∀ i, ¬ owns l i → Fs.content fs' i = Fs.content fs i)
    ∧ fs_next fs' = fs_next fs
    ∧ ∀ h', local_contents fs' l' h' = if decide (h' = raw_event_hash raw)
                                       then Some (forget_event e) else local_contents fs l h'.
Proof.
  intros Hinv [Hd Hm] Hraw Hold. unfold write, st_mk. rewrite Hraw.
  apply append_ok; try done. intros lk. by apply loaded_written.
Qed.

Lemma local_copy_event_ok fs from to h e :
  local_inv fs from → local_inv fs to → local_apart from to →
  local_contents fs from h = Some e → local_storable e →
  (∀ old, local_contents fs to h = Some old → old = e) →
  ∃ lk fs' from' to', copy_event h (fs, (from, to)) = (Ok lk, (fs', (from', to')))
    ∧ local_inv fs' from' ∧ local_inv fs' to' ∧ local_apart from' to'
    ∧ (∀ h', local_contents fs' from' h' = local_contents fs from h')
    ∧ ∀ h', local_contents fs' to' h' = if decide (h' = h) then Some e
                                        else local_contents fs to h'.
Proof.
  intros Hf Ht Hap Hc [Hd Hm] Hold.
  destruct (local_load_ok fs from h e Hf Hc) as (d & from' & E & Hload & Hf' & Ho & Hcf).
  assert (ew_data_bytes (ld_data d) = ew_data_bytes e) as Hdata.
  { destruct Hload as (_ & <- & _). done. }
  destruct (append_ok fs to h (ld_data d) (ld_header d) e Ht)
    as (lk & fs' & to' & E' & Ht' & Ho' & Hkeep & Hn & Hct); try done.
  { unfold data_ok in *. by rewrite Hdata. }
  assert (local_apart to from') as Hap'.
  { intros i Hi Hi'%Ho. by apply (Hap i). }
  destruct (local_frame fs to fs' to' from' Hkeep ltac:(lia) Ho' Hf' Hap')
    as (Hf'' & Hcf' & Hap'').
  exists lk, fs', from', to'. unfold copy_event, st_mk. rewrite E, E'. split; [done|].
  split; [done|]. split; [done|].
  split; [intros i Hi Hi'; by apply (Hap'' i)|]. split; [|done].
  intros h'. by rewrite Hcf', Hcf.
Qed.

#[global] Program Instance LogFileLocalFs_spec : LogFileSpec Fs (LogFileLocalFs C) := {
  lf_inv := local_inv;
  contents := local_contents;
  storable := local_storable;
  apart _ := local_apart;
  can_flip := local_can_flip;
}.
Next Obligation. intros e [Hd Hm]. split; [done|by apply meta_ok_forget]. Qed.
Next Obligation. intros fs l1 l2 Hap i Hi1 Hi2. by apply (Hap i). Qed.
Next Obligation.
  intros fs l e raw Hinv Hst Hraw Hold. simpl in *.
  destruct (local_write_ok fs l e raw Hinv Hst Hraw Hold)
    as (lk & fs' & l' & ? & ? & ? & ? & ? & ?).
  exists lk, fs', l'. split; [done|]. split; [done|]. split; [|done].
  intros l2. apply local_frame; [done|lia|done].
Qed.
Next Obligation.
  intros fs l e err Herr. simpl. unfold write, st_mk. by rewrite Herr.
Qed.
Next Obligation.
  intros fs l h e Hinv Hc. simpl in *.
  destruct (local_load_ok fs l h e Hinv Hc) as (d & l' & ? & ? & ? & ? & ?).
  exists d, fs, l'. do 3 (split; [done|]). split; [|done]. intros l2. by apply local_frame.
Qed.
Next Obligation.
  intros fs l h Hinv Hc. simpl in *.
  destruct (local_load_missing fs l h Hinv Hc) as (l' & ? & ? & ? & ?).
  exists fs, l'. do 2 (split; [done|]). split; [|done]. intros l2. by apply local_frame.
Qed.
Next Obligation. intros. by apply local_copy_event_ok. Qed.
Next Obligation.
  intros fs l Hinv. simpl in *.
  destruct (local_copy_ok fs l Hinv) as (fs' & l' & new & ? & ? & ? & ? & ? & ?).
  exists fs', l', new. do 2 (split; [done|]). split; [|done].
  intros l2. apply local_frame; [done|lia|done].
Qed.
Next Obligation.
  intros fs l Hinv. simpl in *.
  destruct (local_flush_ok fs l Hinv) as (fs' & l' & ? & ? & ? & ? & ? & ? & ?).
  exists fs', l'. do 2 (split; [done|]). split; [|done].
  intros l2. apply local_frame; [done|lia|done].
Qed.
Next Obligation.
  intros fs l path Hinv. simpl in *.
  destruct (local_move_ok fs l path Hinv) as (fs' & l' & ? & ? & ? & ? & ? & ?).
  exists fs', l'. do 2 (split; [done|]). split; [|done].
  intros l2. apply local_frame; [done|lia|done].
Qed.
Next Obligation.
  intros fs l e lk fs' l' E [Hn Ho]. simpl in E. unfold write, append_event, st_mk in E.
  destruct (EventWeakData.as_header_raw e) as [header|]; [|done].
  unfold on_appender, st_mk, mbind, st_bind in E. destruct (LogAppenderFs.write e header _) as [[x|] a]; [|done].
  injection E as _ <- <-. split; [exact Hn|exact Ho].
Qed.
Next Obligation.
  intros fs l hdr Hinv Hf Hlen. simpl in *.
  destruct (local_begin_flip_ok fs l hdr Hinv Hf Hlen) as (fs' & new & ? & ? & ? & ? & ? & ?).
  by exists fs', l, new.
Qed.
End inv.
