(* ===== verification/Recovery.v ===== *)
(** * What a file-backed log recovers

    Reading log files back: [read_all] of lib/src/redo/log_localfs.rs on any file,
    on a file of whole events, and on one that a crash cut short; and what that means
    for a log that was written, rotated, flushed and then opened again. *)

From S2P Require Import Prelude LogApi Crypto Codec Meta Event LogFile MemDb RedoLog Fs.
From S2P Require Import LocalFs LocalFsSpec.
Import LogFileLocalFs.

(** ** Files of events *)

(** An event as a file stores it. *)
Record Stored : Type := {
  rc_meta : bytes;
  rc_data : option bytes;
  rc_format : MessageFormat;
}.

Definition enc_rec (r : Stored) : bytes := enc_event (rc_meta r) (rc_data r) (rc_format r).

Definition enc_recs (rs : list Stored) : bytes := mjoin (enc_rec <$> rs).

Lemma enc_recs_cons r rs : enc_recs (r :: rs) = enc_rec r ++ enc_recs rs.
Proof. done. Qed.

Definition rec_ok (r : Stored) : Prop := blob_ok (rc_meta r) ∧ blob_ok (default [] (rc_data r)).

(** What is left of an event that was not written to its end. *)
Definition torn (bs : bytes) : Prop :=
  ∃ r q, rec_ok r ∧ enc_rec r = bs ++ q ∧ q ≠ [].

Lemma enc_rec_length r : (4 ≤ length (enc_rec r))%nat.
Proof. unfold enc_rec, enc_event. rewrite length_app. simpl. lia. Qed.

Lemma torn_nil : torn [].
Proof.
  exists {| rc_meta := []; rc_data := None; rc_format := {| mf_meta := Json; mf_data := Json |} |},
    (enc_rec {| rc_meta := []; rc_data := None;
                rc_format := {| mf_meta := Json; mf_data := Json |} |}).
  by repeat split.
Qed.

(** A prefix of whole events is whole events and a torn one, shorter than the next. *)
Lemma prefix_recs rs : Forall rec_ok rs → ∀ bs, bs `prefix_of` enc_recs rs →
  ∃ k t, bs = enc_recs (take k rs) ++ t ∧ torn t
    ∧ match rs !! k with Some r => (length t < length (enc_rec r))%nat | None => True end.
Proof.
  induction 1 as [|r rs Hr Hrs IH]; intros bs [q Hq].
  { symmetry in Hq. apply app_eq_nil in Hq as [-> _]. exists 0%nat, []. split; [done|].
    split; [apply torn_nil|done]. }
  rewrite enc_recs_cons in Hq. destruct (decide (length bs < length (enc_rec r))%nat) as [Hlt|Hge].
  - exists 0%nat, bs. split; [done|]. split; [|done].
    exists r, (drop (length bs) (enc_rec r)). split; [done|].
    apply (f_equal (take (length bs))) in Hq.
    rewrite take_app_length, take_app_le in Hq by lia.
    split; [by rewrite <- Hq at 1; rewrite take_drop|].
    intros Hd. apply (f_equal length) in Hd. rewrite length_drop in Hd. cbn [length] in Hd. lia.
  - assert (bs = enc_rec r ++ drop (length (enc_rec r)) bs) as Hbs.
    { apply (f_equal (take (length (enc_rec r)))) in Hq.
      rewrite take_app_length, take_app_le in Hq by lia. rewrite Hq at 1. by rewrite take_drop. }
    destruct (IH (drop (length (enc_rec r)) bs)) as (k & t & Hk & Ht).
    { exists q. rewrite Hbs, <- app_assoc in Hq. by apply app_inv_head in Hq. }
    exists (S k), t. split; [|done]. rewrite Hbs, Hk. cbn [take]. by rewrite enc_recs_cons, <- app_assoc.
Qed.

Lemma enc_recs_app rs rs' : enc_recs (rs ++ rs') = enc_recs rs ++ enc_recs rs'.
Proof. unfold enc_recs. by rewrite fmap_app, join_app. Qed.

(** All events whose encodings fit before the tear are whole. *)
Lemma prefix_whole rs k m t :
  match rs !! k with Some r => (length t < length (enc_rec r))%nat | None => True end →
  enc_recs (take m rs) `prefix_of` enc_recs (take k rs) ++ t →
  take m rs `prefix_of` take k rs.
Proof.
  intros Ht Hp. destruct (decide (m ≤ k)%nat) as [Hle|Hgt].
  { exists (drop m (take k rs)). replace (take m rs) with (take m (take k rs)).
    - by rewrite take_drop.
    - rewrite take_take. by rewrite Nat.min_l by lia. }
  destruct (rs !! k) as [r|] eqn:Hk.
  - exfalso. apply prefix_length in Hp. rewrite length_app in Hp.
    assert (take m rs = take k rs ++ r :: drop (S k) (take m rs)) as Hm.
    { rewrite <- (take_drop_middle (take m rs) k r) at 1 by by rewrite lookup_take_lt by lia.
      rewrite take_take. by rewrite Nat.min_l by lia. }
    rewrite Hm, enc_recs_app, enc_recs_cons, !length_app in Hp. lia.
  - apply lookup_ge_None in Hk. by rewrite !take_ge by lia.
Qed.

(** ** Reading one file *)

Section read.
Context `{CryptoPrims} `{MetaSerializer}.

(** The guard stays on its file. *)
Definition same_index (g g' : LogArchiveGuard) : Prop := g_index g' = g_index g.

#[export] Instance same_index_preorder : PreOrder same_index.
Proof. split; [done|]. unfold same_index. intros a b c; congruence. Qed.

Lemma index_read_exact n : preserves same_index (st_map_err IO (LogArchiveGuard.read_exact n)).
Proof.
  intros g. unfold st_map_err, LogArchiveGuard.read_exact, LogArchiveGuard.file_read, mbind, st_bind.
  by case_decide.
Qed.

Lemma index_read_uint n : preserves same_index (st_map_err IO (LogArchiveGuard.read_uint n)).
Proof.
  intros g. unfold st_map_err, LogArchiveGuard.read_uint, LogArchiveGuard.file_read, mbind, st_bind.
  by case_decide.
Qed.

Lemma index_read_byte : preserves same_index EventVersion.read_byte.
Proof.
  intros g. unfold EventVersion.read_byte, st_try. simpl.
  unfold LogArchiveGuard.read_uint, LogArchiveGuard.file_read, mbind, st_bind. by case_decide.
Qed.

Lemma index_read : preserves (S := LogArchiveGuard) same_index EventVersion.read.
Proof.
  apply preserves_bind; [apply _|apply preserves_get, _|]. intros g0.
  apply preserves_bind; [apply _| |].
  { apply preserves_bind; [apply _|apply preserves_get, _|]. intros g1.
    generalize (Datatypes.S (Z.to_nat (api_len g1))) as fuel. generalize 0%nat as n.
    intros n fuel. revert n. induction fuel as [|fuel IH]; intros n; [done|].
    cbn [EventVersion.read_version_loop].
    apply preserves_bind; [apply _|apply index_read_byte|]. intros [cur|]; [|done].
    destruct (scan_byte _ _ 2 n cur) as [[v|n']|]; [done|apply IH|done]. }
  intros [v|]; [|done]. destruct v. unfold EventVersion.read_format, EventVersion.read_blob_size, EventVersion.read_vec.
  repeat first [apply index_read_uint | apply index_read_exact | apply preserves_ret, _
    | apply preserves_bind; [apply _| |intros ?] | done | case_match ].
Qed.

Lemma index_redo_read : preserves (S := LogArchiveGuard) same_index RedoHeader.read.
Proof.
  apply preserves_bind; [apply _|apply preserves_get, _|]. intros g1.
  generalize (Datatypes.S (Z.to_nat (api_len g1))) as fuel. generalize 0%nat as n.
  intros n fuel. revert n. induction fuel as [|fuel IH]; intros n; [done|].
  cbn [RedoHeader.read_loop].
  apply preserves_bind; [apply _|exact index_read_byte|]. intros [cur|]; [|done].
  destruct (scan_byte _ _ 2 n cur) as [[v|n']|]; [|apply IH|done].
  repeat first [apply index_read_uint | apply index_read_exact | apply preserves_ret, _
    | apply preserves_bind; [apply _| |intros ?]].
Qed.

(** What reading the stored events [rs] from [off] yields: an event whose metadata does
    not decode is passed over. *)
Fixpoint loads (idx off : Z) (rs : list Stored) : list LoadData :=
  match rs with
  | [] => []
  | r :: rs =>
      let rest := loads idx (off + Z.of_nat (length (enc_rec r))) rs in
      match entry_load {| ll_index := idx; ll_offset := off |}
              (entry_of off (rc_meta r) (rc_data r) (rc_format r)) with
      | Ok d => d :: rest
      | Err _ => rest
      end
  end.

Lemma read_once_torn t g : torn t → unread g = t →
  ∃ g', unread g' = [] ∧ ((read_once_internal g = (Ok None, g'))
    ∨ (4 ≤ length t)%nat ∧ read_once_internal g = (Err (IO UnexpectedEof), g')).
Proof.
  intros (r & q & [Hm Hd] & Hpq & Hq) Hu.
  destruct (read_torn _ _ _ t q g Hm Hd (guard_readable g) Hpq Hq Hu) as (g' & U & E).
  exists g'. split; [done|]. unfold read_once_internal, st_mk. rewrite E.
  case_decide; [by left|right]. split; [lia|done].
Qed.

Lemma read_loop_recs rs t : Forall rec_ok rs → torn t → ∀ fuel g,
  unread g = enc_recs rs ++ t → (length (unread g) < fuel)%nat →
  ∃ g', read_loop fuel g = (Ok (loads (g_index g) (g_offset g) rs), g').
Proof.
  intros Hrs Ht. induction Hrs as [|r rs [Hm Hd] Hrs IH]; intros fuel g Hu Hf.
  - destruct fuel as [|fuel]; [lia|]. cbn [read_loop]. unfold st_mk.
    destruct (read_once_torn t g Ht Hu) as (g' & U & [E|(H4 & E)]); rewrite E; [eauto|].
    destruct fuel as [|fuel]; [rewrite Hu in Hf; simpl in Hf; lia|]. cbn [read_loop]. unfold st_mk.
    destruct (read_once_torn [] g' torn_nil U) as (g2 & _ & [E2|(H4' & _)]); [|simpl in H4'; lia].
    rewrite E2. eauto.
  - destruct fuel as [|fuel]; [lia|]. cbn [read_loop loads].
    assert (unread g = enc_rec r ++ enc_recs rs ++ t) as Hu1.
    { by rewrite Hu, enc_recs_cons, app_assoc. }
    destruct (read_enc (rc_meta r) (rc_data r) (rc_format r) g (enc_recs rs ++ t) Hm Hd
      (guard_readable g) Hu1) as (g1 & E & U1 & O1 & _).
    pose proof (index_read g) as Hidx. rewrite E in Hidx. unfold same_index in Hidx. simpl in Hidx.
    assert (length (unread g1) < fuel)%nat as Hf1.
    { rewrite Hu1, length_app in Hf. pose proof (enc_rec_length r). rewrite U1. lia. }
    destruct (IH fuel g1 U1 Hf1) as (g' & E'). simpl in O1. rewrite Hidx, O1 in E'.
    unfold st_mk, read_once_internal, st_mk. rewrite E. unfold LogArchiveGuard.index. rewrite Hidx.
    simpl api_offset. destruct (entry_load _ _) as [d|e] eqn:Ee; [|apply entry_load_error in Ee as ->; by exists g'].
    cbn. rewrite (st_bind_Ok _ _ _ _ _ E'). by exists g'.
Qed.

(** A log file: its header, whole events and possibly a torn one. *)
Definition file_of (hdr : bytes) (rs : list Stored) (t : bytes) : bytes :=
  enc_header hdr ++ enc_recs rs ++ t.

Lemma read_archive_recs fs ar hdr rs t :
  Fs.content fs (ar_inode ar) = file_of hdr rs t → Z.of_nat (length hdr) ≤ u32_max →
  Forall rec_ok rs → torn t →
  read_archive fs ar = Ok (loads (ar_index ar) (Z.of_nat (length (enc_header hdr))) rs).
Proof.
  intros Hc Hlen Hrs Ht. unfold read_archive. set (g := LogArchive.lock_at fs ar 0).
  destruct (redo_read_header g [] hdr (enc_recs rs ++ t) (guard_readable g)) as (g1 & E & U & L & O);
    [done|done|by simpl; rewrite Hc|].
  rewrite E. destruct (read_loop_recs rs t Hrs Ht (S (length (g_data g1))) g1 U) as (g' & E').
  { simpl. rewrite length_drop. lia. }
  pose proof (index_redo_read g) as Hidx. rewrite E in Hidx. unfold same_index in Hidx.
  rewrite E'. cbn [fst snd] in *.
  change (g_offset g1 = 0 + Z.of_nat (length (enc_header hdr))) in O. by rewrite Hidx, O.
Qed.

(** The file holds the event [e] under the hash [h]. *)
Definition records (h : AteHash) (e : EventWeakData) (r : Stored) : Prop :=
  rec_ok r ∧ ∀ o lk, ∃ d, entry_load lk (entry_of o (rc_meta r) (rc_data r) (rc_format r)) = Ok d
    ∧ loaded h e d ∧ ld_lookup d = lk.

Lemma records_load r o lk d : rec_ok r →
  entry_load lk (entry_of o (rc_meta r) (rc_data r) (rc_format r)) = Ok d →
  records (raw_event_hash (ld_header d)) (forget_event (ld_data d)) r.
Proof.
  intros Hok. unfold records, entry_load, entry_of, entry_header. cbn [le_header lh_format le_meta].
  destruct (meta_deserialize _ _) as [m|err] eqn:Hm; [|done]. intros [= <-].
  split; [done|]. intros o' lk'. eexists. split; [done|]. split; [|done].
  unfold loaded. simpl. do 2 (split; [done|]). split; [done|]. split; [done|].
  split; [|split; [done|]].
  - unfold EventWeakData.data_hash. simpl. by destruct (read_data _).
  - split; [|apply Hok]. eauto.
Qed.

Lemma records_fun h1 e1 h2 e2 r : records h1 e1 r → records h2 e2 r → h1 = h2 ∧ e1 = e2.
Proof.
  intros [_ H1] [_ H2]. set (lk := {| ll_index := 0; ll_offset := 0 |}).
  destruct (H1 0 lk) as (d1 & E1 & (Hh1 & He1 & _) & _).
  destruct (H2 0 lk) as (d2 & E2 & (Hh2 & He2 & _) & _).
  rewrite E1 in E2. injection E2 as ->. by subst.
Qed.

(** Every load comes from an event of the file, at its place. *)
Lemma loads_inv idx pre rs post d : Forall rec_ok rs →
  d ∈ loads idx (Z.of_nat (length pre)) rs →
  ∃ r h e, r ∈ rs ∧ records h e r ∧ loaded h e d ∧ ll_index (ld_lookup d) = idx
    ∧ event_at (pre ++ enc_recs rs ++ post) (ll_offset (ld_lookup d)) h e.
Proof.
  intros Hrs. revert pre. induction Hrs as [|r rs Hr Hrs IH]; intros pre Hd; cbn [loads] in Hd.
  { by apply elem_of_nil in Hd. }
  rewrite <- Nat2Z.inj_add, <- length_app in Hd.
  assert (d ∈ loads idx (Z.of_nat (length (pre ++ enc_rec r))) rs →
    ∃ r' h e, r' ∈ r :: rs ∧ records h e r' ∧ loaded h e d ∧ ll_index (ld_lookup d) = idx
      ∧ event_at (pre ++ enc_recs (r :: rs) ++ post) (ll_offset (ld_lookup d)) h e) as Hrest.
  { intros (r' & h & e & Hin & ? & ? & ? & Hat)%IH. exists r', h, e.
    split; [by apply list_elem_of_further|]. do 3 (split; [done|]).
    rewrite enc_recs_cons. by rewrite <- !app_assoc in Hat |- *. }
  destruct (entry_load _ _) as [d0|err] eqn:E; [|by apply Hrest].
  apply elem_of_cons in Hd as [->|Hd]; [|by apply Hrest].
  pose proof (records_load _ _ _ _ Hr E) as Hrec.
  exists r, (raw_event_hash (ld_header d0)), (forget_event (ld_data d0)).
  split; [apply list_elem_of_here|]. split; [done|].
  destruct Hrec as [_ Hall]. destruct (Hall (Z.of_nat (length pre))
    {| ll_index := idx; ll_offset := Z.of_nat (length pre) |}) as (d1 & E1 & Hl1 & Hlk).
  rewrite E in E1. injection E1 as <-. split; [done|]. rewrite Hlk. split; [done|].
  rewrite enc_recs_cons, <- app_assoc, (app_assoc pre). apply event_at_extend.
  destruct Hr as [Hm Hdat]. apply event_at_append; [done|done|].
  intros o lk. destruct (Hall o lk) as (d1 & ? & ? & _). eauto.
Qed.

Lemma loads_elem idx off rs r h e : r ∈ rs → records h e r →
  ∃ d, d ∈ loads idx off rs ∧ raw_event_hash (ld_header d) = h.
Proof.
  intros Hin [_ Hr]. revert off. induction rs as [|r' rs IH]; intros off; cbn [loads].
  { by apply elem_of_nil in Hin. }
  apply elem_of_cons in Hin as [<-|Hin].
  - destruct (Hr off {| ll_index := idx; ll_offset := off |}) as (d & -> & (Hh & _) & _).
    exists d. split; [apply list_elem_of_here|done].
  - destruct (IH Hin (off + Z.of_nat (length (enc_rec r')))) as (d & Hd & Hh).
    exists d. split; [|done]. destruct (entry_load _ _); [by apply list_elem_of_further|done].
Qed.
End read.

(** ** Opening the files of a log *)

(** A file of a log: its header, its events and the rest of a torn one. *)
Record DiskFile : Type := { df_header : bytes; df_recs : list Stored; df_torn : bytes }.

Definition disk_bytes (f : DiskFile) : bytes := file_of (df_header f) (df_recs f) (df_torn f).

Definition disk_ok (f : DiskFile) : Prop :=
  Z.of_nat (length (df_header f)) ≤ u32_max ∧ Forall rec_ok (df_recs f) ∧ torn (df_torn f).

(** The files of the log at [path] are [files], numbered from 0 without a gap. *)
Record on_disk (fs : Fs) (path : string) (files : list DiskFile) : Prop := {
  disk_some : files ≠ [];
  disk_end : ∀ k : nat, (length files ≤ k)%nat → fs_names fs !! log_name path (Z.of_nat k) = None;
  disk_file : ∀ (j : nat) f, files !! j = Some f → disk_ok f ∧
    ∃ i, fs_names fs !! log_name path (Z.of_nat j) = Some i ∧ (i < fs_next fs)%nat
         ∧ Fs.content fs i = disk_bytes f;
}.

(** The archive made of file [j]. *)
Definition file_archive (fs : Fs) (path : string) (j : nat) (f : DiskFile) : LogArchive :=
  {| ar_index := Z.of_nat j; ar_path := log_name path (Z.of_nat j);
     ar_inode := default 0%nat (fs_names fs !! log_name path (Z.of_nat j));
     ar_header := df_header f |}.

Definition archive_at (fs : Fs) (path : string) (files : list DiskFile) (k : Z)
    : option LogArchive :=
  if decide (0 ≤ k) then file_archive fs path (Z.to_nat k) <$> files !! Z.to_nat k else None.

Lemma archive_at_Some fs path files k ar : on_disk fs path files →
  archive_at fs path files k = Some ar →
  ∃ j f, k = Z.of_nat j ∧ files !! j = Some f ∧ disk_ok f ∧ ar_index ar = k
    ∧ ar_header ar = df_header f ∧ fs_names fs !! log_name path k = Some (ar_inode ar)
    ∧ (ar_inode ar < fs_next fs)%nat ∧ Fs.content fs (ar_inode ar) = disk_bytes f.
Proof.
  intros Hd. unfold archive_at. case_decide as Hk; [|done].
  destruct (files !! Z.to_nat k) as [f|] eqn:Hf; [|done]. simpl.
  destruct (disk_file fs path files Hd _ f Hf) as [Hok (i & Hi & Hlt & Hc)].
  intros [= <-]. exists (Z.to_nat k), f. simpl. rewrite Z2Nat.id in * by done.
  rewrite Hi. done.
Qed.

Lemma archive_at_file fs path files j f : on_disk fs path files → files !! j = Some f →
  ∃ ar, archive_at fs path files (Z.of_nat j) = Some ar.
Proof.
  intros Hd Hf. unfold archive_at. rewrite decide_True, Nat2Z.id, Hf by lia. eauto.
Qed.

Section reopen.
Context {C : Type} `{CryptoPrims} `{MetaSerializer} `{BufStreamPolicy} `{TimedSizedCache C}
  `{ArchiveOrder}.

Lemma disk_headed f dflt : disk_ok f →
  headed (disk_bytes f) dflt (df_header f) (disk_bytes f).
Proof. intros (Hlen & _). by apply (headed_old []). Qed.

Lemma archive_loop_disk fs path files : on_disk fs path files →
  ∀ fuel n archives, (n < length files)%nat → (length files - n ≤ fuel)%nat →
  ∃ archives', archive_loop fuel (Z.of_nat n) false path archives fs
      = Ok (Z.of_nat (length files - 1), archives')
    ∧ ∀ k, archives' !! k = if decide (Z.of_nat n ≤ k < Z.of_nat (length files - 1))
                            then archive_at fs path files k else archives !! k.
Proof.
  intros Hd. induction fuel as [|fuel IH]; intros n archives Hn Hf; [lia|].
  cbn [archive_loop]. unfold Fs.exists_.
  replace (Z.of_nat n + 1) with (Z.of_nat (S n)) by lia.
  destruct (decide (S n = length files)) as [Hlast|Hmore].
  - rewrite (disk_end fs path files Hd) by lia.
    rewrite bool_decide_eq_false_2 by by intros []. simpl. exists archives.
    split; [do 2 f_equal; lia|]. intros k. rewrite decide_False by lia. done.
  - destruct (lookup_lt_is_Some_2 files (S n)) as [f1 Hf1]; [lia|].
    destruct (disk_file fs path files Hd _ f1 Hf1) as [_ (i1 & Hi1 & _)].
    rewrite Hi1, bool_decide_eq_true_2 by eauto. simpl.
    destruct (lookup_lt_is_Some_2 files n) as [f Hfn]; [lia|].
    destruct (disk_file fs path files Hd _ f Hfn) as [Hok (i & Hi & _ & Hc)].
    rewrite (archive_new path (Z.of_nat n) fs i (disk_bytes f) [] (df_header f)); [|done|].
    2:{ rewrite Hc. by apply disk_headed. }
    simpl.
    set (ar := {| ar_index := _; ar_path := _; ar_inode := _; ar_header := _ |}).
    destruct (IH (S n) (<[Z.of_nat n := ar]> archives)) as (archives' & E & Hm); [lia|lia|].
    exists archives'. rewrite E. split; [done|]. intros k. rewrite Hm.
    destruct (decide (k = Z.of_nat n)) as [->|Hk].
    + rewrite decide_False, decide_True, lookup_insert_eq by lia.
      unfold archive_at, file_archive. rewrite decide_True, Nat2Z.id, Hfn by lia. simpl.
      by rewrite Hi.
    + rewrite lookup_insert_ne by done.
      destruct (decide (Z.of_nat (S n) ≤ k < _)); [by rewrite decide_True by lia|].
      by rewrite decide_False by lia.
Qed.

(** A file system that differs in nothing a reader can see. *)
Definition same_files (fs fs' : Fs) : Prop :=
  fs_names fs' = fs_names fs ∧ fs_next fs' = fs_next fs ∧ ∀ i, Fs.content fs' i = Fs.content fs i.

Lemma on_disk_same fs fs' path files : same_files fs fs' → on_disk fs path files →
  on_disk fs' path files ∧ ∀ k, archive_at fs' path files k = archive_at fs path files k.
Proof.
  intros (Hn & Hx & Hc) [Hs He Hf]. split.
  - split; [done| |]; rewrite ?Hn, ?Hx; [done|]. intros j f Hj.
    destruct (Hf j f Hj) as [Hok (i & Hi)]. split; [done|]. exists i. by rewrite Hc.
  - intros k. unfold archive_at, file_archive. by rewrite Hn.
Qed.

(** [LogFileLocalFs::new] on them. *)
Lemma new_disk fs path files backup size ttl dflt : on_disk fs path files →
  ∃ i a archives fs', new false false path backup None false size ttl dflt fs
      = (Ok (opened_log (C := C) false path backup size ttl i a archives), fs')
    ∧ same_files fs fs' ∧ at_end a ∧ a_data a = Fs.content fs' i
    ∧ (∀ k, archives !! k = archive_at fs path files k)
    ∧ (∃ ar, archives !! a_index a = Some ar ∧ ar_inode ar = i)
    ∧ a_wbuf a = [] ∧ fs_names fs !! log_name path (Z.of_nat (length files - 1)) = Some i.
Proof.
  intros Hd. pose proof (disk_some fs path files Hd) as Hne.
  assert (0 < length files)%nat as Hlen by by destruct files; simpl; [|lia].
  set (n := (length files - 1)%nat).
  assert (length files ≤ loop_fuel fs)%nat as Hfuel.
  { unfold loop_fuel. destruct (first_missing (fs_names fs) path) as (k & Hk & Hnone & _).
    destruct (decide (k < length files)%nat) as [Hlt|]; [|lia].
    destruct (lookup_lt_is_Some_2 files k Hlt) as [f Hf].
    destruct (disk_file fs path files Hd _ f Hf) as [_ (i & Hi & _)]. congruence. }
  destruct (archive_loop_disk fs path files Hd (loop_fuel fs) 0 ∅) as (archives & E & Hm); [lia|lia|].
  destruct (lookup_lt_is_Some_2 files n) as [f Hf]; [lia|].
  destruct (disk_file fs path files Hd _ f Hf) as [Hok (i & Hi & Hlt & Hc)].
  destruct (new_run (C := C) false path backup false size ttl dflt fs (Z.of_nat n) archives i fs
    (df_header f) (disk_bytes f)) as (a & names' & E' & Hend & D & W & I & Hh & Hnm).
  { done. }
  { unfold Fs.open_write. by rewrite Hi. }
  { rewrite Hc. by apply disk_headed. }
  rewrite (Hnm eq_refl) in E'.
  assert (same_files fs (Fs.with_names (Fs.set_content i (disk_bytes f) fs) (fs_names fs))) as Hsame.
  { do 2 (split; [done|]). intros j. change (Fs.content (Fs.set_content i (disk_bytes f) fs) j
      = Fs.content fs j). rewrite content_set. case_decide; by subst. }
  eexists i, a, _, _. split; [exact E'|]. split; [exact Hsame|]. split; [done|].
  split. { destruct Hsame as (_ & _ & ->). by rewrite Hc. }
  split; [|split; [rewrite I, lookup_insert_eq; eauto|done]].
  intros k. destruct (decide (k = Z.of_nat n)) as [->|Hk].
  - rewrite lookup_insert_eq. unfold archive_at, file_archive.
    rewrite decide_True, Nat2Z.id, Hf by lia. simpl. by rewrite Hi.
  - rewrite lookup_insert_ne, Hm by done. case_decide as Hr; [done|].
    rewrite lookup_empty. unfold archive_at. case_decide as Hk0; [|done].
    rewrite lookup_ge_None_2 by lia. done.
Qed.

(** ** Reading them back *)

Definition all_recs (files : list DiskFile) : list Stored := mjoin (df_recs <$> files).

Definition file_loads (j : nat) (f : DiskFile) : list LoadData :=
  loads (Z.of_nat j) (Z.of_nat (length (enc_header (df_header f)))) (df_recs f).

(** What the archive [ar] contributes. *)
Definition archive_loads (files : list DiskFile) (ar : LogArchive) : list LoadData :=
  from_option (file_loads (Z.to_nat (ar_index ar))) [] (files !! Z.to_nat (ar_index ar)).

Lemma all_recs_elem files r : r ∈ all_recs files ↔ ∃ j f, files !! j = Some f ∧ r ∈ df_recs f.
Proof.
  unfold all_recs. rewrite list_elem_of_join. split.
  - intros (rs & Hr & (f & -> & [j Hj]%list_elem_of_lookup)%list_elem_of_fmap). eauto.
  - intros (j & f & Hj & Hr). exists (df_recs f). split; [done|]. apply list_elem_of_fmap.
    exists f. split; [done|]. by eapply list_elem_of_lookup_2.
Qed.

Lemma read_archives_ok fs (g : LogArchive → list LoadData) ars :
  (∀ ar, ar ∈ ars → read_archive fs ar = Ok (g ar)) →
  read_archives fs ars = Ok (mjoin (g <$> ars)).
Proof.
  induction ars as [|ar ars IH]; intros Hall; [done|]. cbn [read_archives].
  rewrite Hall by apply list_elem_of_here. simpl.
  rewrite IH by (intros; by apply Hall, list_elem_of_further). done.
Qed.

Lemma values_elem (m : gmap Z LogArchive) ar : ar ∈ values_of m ↔ ∃ k, m !! k = Some ar.
Proof.
  rewrite values_of_perm. rewrite list_elem_of_fmap. split.
  - intros ([k ar'] & -> & Hk%elem_of_map_to_list). eauto.
  - intros [k Hk]. exists (k, ar). split; [done|]. by apply elem_of_map_to_list.
Qed.

(** The archives of a log, in the order of the hash map, are its files. *)
Lemma values_files fs path files (m : gmap Z LogArchive) : on_disk fs path files →
  (∀ k, m !! k = archive_at fs path files k) →
  values_of m ≡ₚ imap (file_archive fs path) files.
Proof.
  intros Hd Hm.
  assert (∀ k ar, m !! k = Some ar → ar_index ar = k) as Hidx.
  { intros k ar Hk. rewrite Hm in Hk.
    by apply (archive_at_Some fs path files _ _ Hd) in Hk as (? & ? & _ & _ & _ & Hi & _). }
  apply NoDup_Permutation.
  - rewrite values_of_perm. apply NoDup_fmap_2_strong; [|apply NoDup_map_to_list].
    intros [k1 ar1] [k2 ar2] Hk1%elem_of_map_to_list Hk2%elem_of_map_to_list Heq.
    simpl in Heq. subst ar2. f_equal. by rewrite <- (Hidx _ _ Hk1), <- (Hidx _ _ Hk2).
  - apply NoDup_alt. intros j1 j2 ar. rewrite !list_lookup_imap.
    destruct (files !! j1), (files !! j2); try done. simpl. intros [= <-] [= E]. lia.
  - intros ar. rewrite values_elem, list_elem_of_lookup. split.
    + intros [k Hk]. rewrite Hm in Hk. unfold archive_at in Hk. case_decide; [|done].
      exists (Z.to_nat k). by rewrite list_lookup_imap.
    + intros [j Hj]. exists (Z.of_nat j). rewrite Hm. unfold archive_at.
      rewrite decide_True, Nat2Z.id by lia. by rewrite list_lookup_imap in Hj.
Qed.

Lemma archive_loads_files fs path files :
  archive_loads files <$> imap (file_archive fs path) files = imap file_loads files.
Proof.
  apply list_eq. intros j. rewrite list_lookup_fmap, !list_lookup_imap.
  destruct (files !! j) as [f|] eqn:Hf; [|done]. simpl. unfold archive_loads. simpl.
  by rewrite Nat2Z.id, Hf.
Qed.

(** The hash index that reading back fills. *)
Lemma lookup_fold evts (m : gmap AteHash LogLookup) h :
  let m' := foldl (λ m d, <[raw_event_hash (ld_header d) := ld_lookup d]> m) m evts in
  (∀ lk, m' !! h = Some lk → m !! h = Some lk
     ∨ ∃ d, d ∈ evts ∧ raw_event_hash (ld_header d) = h ∧ ld_lookup d = lk)
  ∧ (∀ d, d ∈ evts → raw_event_hash (ld_header d) = h → is_Some (m' !! h))
  ∧ (is_Some (m !! h) → is_Some (m' !! h)).
Proof.
  revert m. induction evts as [|d evts IH]; intros m; simpl.
  { split; [by left|]. split; [|done]. by intros d Hd%elem_of_nil. }
  destruct (IH (<[raw_event_hash (ld_header d) := ld_lookup d]> m)) as (H1' & H2' & H3').
  split; [|split].
  - intros lk Hlk. destruct (H1' lk Hlk) as [Hm|(d' & Hd' & ?)].
    + destruct (decide (raw_event_hash (ld_header d) = h)) as [Hh|Hh].
      * rewrite Hh, lookup_insert_eq in Hm. injection Hm as <-. right. exists d.
        split; [apply list_elem_of_here|done].
      * rewrite lookup_insert_ne in Hm by done. by left.
    + right. exists d'. split; [by apply list_elem_of_further|done].
  - intros d' [->|Hd']%elem_of_cons Hh; [|by eapply H2'].
    apply H3'. rewrite Hh, lookup_insert_eq. eauto.
  - intros Hm. apply H3'. destruct (decide (raw_event_hash (ld_header d) = h)) as [Hh|Hh].
    + rewrite Hh, lookup_insert_eq. eauto.
    + by rewrite lookup_insert_ne.
Qed.

(** No two different events of the files share a hash. *)
Definition collision_free (files : list DiskFile) : Prop :=
  ∀ h e1 e2 r1 r2, r1 ∈ all_recs files → r2 ∈ all_recs files →
    records h e1 r1 → records h e2 r2 → e1 = e2.

Definition lookups (evts : list LoadData) (m : gmap AteHash LogLookup) : gmap AteHash LogLookup :=
  foldl (λ m d, <[raw_event_hash (ld_header d) := ld_lookup d]> m) m evts.

Section recovered.
Context (fs : Fs) (path : string) (files : list DiskFile) (archives : gmap Z LogArchive)
  (Hdisk : on_disk fs path files) (Harch : ∀ k, archives !! k = archive_at fs path files k).

(** What the files hold, in the order the hash map has them. *)
Definition disk_loads : list LoadData := mjoin (archive_loads files <$> values_of archives).

Lemma archive_file k ar : archives !! k = Some ar →
  ∃ j f, k = Z.of_nat j ∧ files !! j = Some f ∧ disk_ok f ∧ ar_index ar = k
    ∧ (ar_inode ar < fs_next fs)%nat ∧ Fs.content fs (ar_inode ar) = disk_bytes f
    ∧ archive_loads files ar = file_loads j f.
Proof.
  intros Hk. rewrite Harch in Hk.
  apply (archive_at_Some fs path files _ _ Hdisk) in Hk
    as (j & f & -> & Hf & Hok & Hi & Hh & _ & Hlt & Hc).
  exists j, f. unfold archive_loads. rewrite Hi, Nat2Z.id, Hf. done.
Qed.

Lemma read_archives_disk : read_archives fs (values_of archives) = Ok disk_loads.
Proof.
  apply read_archives_ok. intros ar [k Hk]%values_elem.
  destruct (archive_file k ar Hk) as (j & f & -> & _ & (Hlen & Hrs & Ht) & Hi & _ & Hc & ->).
  rewrite (read_archive_recs fs ar (df_header f) (df_recs f) (df_torn f)) by done.
  unfold file_loads. by rewrite Hi.
Qed.

Lemma disk_loads_order : ∃ order, order ≡ₚ imap file_loads files ∧ disk_loads = mjoin order.
Proof.
  eexists. split; [|done]. rewrite (values_files fs path files archives Hdisk Harch).
  by rewrite archive_loads_files.
Qed.

(** Every load is an event of its file. *)
Lemma disk_loads_event d : d ∈ disk_loads →
  ∃ r h e ar, r ∈ all_recs files ∧ records h e r ∧ loaded h e d
    ∧ archives !! ll_index (ld_lookup d) = Some ar
    ∧ event_at (Fs.content fs (ar_inode ar)) (ll_offset (ld_lookup d)) h e.
Proof.
  intros (ds & Hd & (ar & -> & [k Hk]%values_elem)%list_elem_of_fmap)%list_elem_of_join.
  destruct (archive_file k ar Hk) as (j & f & -> & Hf & (Hlen & Hrs & Ht) & Hi & _ & Hc & Hl).
  rewrite Hl in Hd.
  destruct (loads_inv _ (enc_header (df_header f)) _ (df_torn f) d Hrs Hd)
    as (r & h & e & Hr & Hrec & Hld & Hidx & Hev).
  exists r, h, e, ar. split; [apply all_recs_elem; eauto|]. rewrite Hidx, Hc. done.
Qed.

Lemma disk_lookup h lk : lookups disk_loads ∅ !! h = Some lk →
  ∃ r e ar, r ∈ all_recs files ∧ records h e r ∧ archives !! ll_index lk = Some ar
    ∧ event_at (Fs.content fs (ar_inode ar)) (ll_offset lk) h e.
Proof.
  intros Hlk. destruct (lookup_fold disk_loads ∅ h) as (Hl & _).
  apply Hl in Hlk as [Hno|(d & Hd & Hh & <-)]; [by rewrite lookup_empty in Hno|].
  destruct (disk_loads_event d Hd) as (r & h' & e & ar & Hr & Hrec & Hld & Har & Hev).
  assert (h' = h) as -> by (destruct Hld as (Hh' & _); congruence). eauto 7.
Qed.

Lemma disk_lookup_known r h e : r ∈ all_recs files → records h e r →
  is_Some (lookups disk_loads ∅ !! h).
Proof.
  intros (j & f & Hf & Hrf)%all_recs_elem Hrec.
  destruct (archive_at_file fs path files j f Hdisk Hf) as [ar Har]. rewrite <- Harch in Har.
  destruct (archive_file _ ar Har) as (j' & f' & Hj%(inj Z.of_nat) & Hf' & _ & _ & _ & _ & Hl).
  subst j'. rewrite Hf in Hf'. injection Hf' as <-.
  destruct (loads_elem (Z.of_nat j) (Z.of_nat (length (enc_header (df_header f)))) _ r h e Hrf Hrec)
    as (d & Hd & Hh).
  destruct (lookup_fold disk_loads ∅ h) as (_ & Hl2 & _). apply (Hl2 d); [|done].
  apply list_elem_of_join. eexists. split; [exact Hd|]. apply list_elem_of_fmap.
  exists ar. split; [done|]. apply values_elem. eauto.
Qed.

(** The log over these files, with the index that reading them filled. *)
Lemma recovered_inv l : lo_archives l = archives → lo_flush l = ∅ →
  (∀ h d, ¬ cache_holds (lo_write l) h d) → (∀ h d, ¬ cache_holds (lo_read l) h d) →
  local_inv fs l → collision_free files →
  local_inv fs (with_lookup l (lookups disk_loads ∅))
  ∧ ∀ h e, local_contents fs (with_lookup l (lookups disk_loads ∅)) h = Some e
           ↔ ∃ r, r ∈ all_recs files ∧ records h e r.
Proof.
  intros Hla Hlf Hw Hr [Ha Hact Hin _ _] Hcf. set (l' := with_lookup l _).
  assert (∀ h lk, lo_lookup l' !! h = Some lk → ∃ r e ar, r ∈ all_recs files ∧ records h e r
    ∧ lo_archives l' !! ll_index lk = Some ar
    ∧ event_at (Fs.content fs (ar_inode ar)) (ll_offset lk) h e) as Hlk.
  { simpl. rewrite Hla. apply disk_lookup. }
  assert (local_inv fs l') as Hinv.
  { split; try done.
    - intros h lk (r & e & ar & _ & _ & Har & Hev)%Hlk. exists ar, e.
      split; [done|]. split; [by apply event_at_extend|done].
    - intros h d [Hf|[Hf|Hf]]; simpl in Hf; [by rewrite Hlf, lookup_empty in Hf|by destruct (Hw h d)|by destruct (Hr h d)]. }
  assert (∀ h lk, lo_lookup l' !! h = Some lk → ∃ r e, r ∈ all_recs files ∧ records h e r
    ∧ local_contents fs l' h = Some e) as Hcont.
  { intros h lk Hh. destruct (Hlk h lk Hh) as (r & e & ar & Hr1 & Hr2 & Har & Hev). exists r, e.
    do 2 (split; [done|]). eapply contents_event_at; [done..|]. by apply event_at_extend. }
  split; [done|]. intros h e. split.
  - intros Hc. destruct (proj2 (contents_known fs l' h Hinv)) as [lk Hh]; [eauto|].
    destruct (Hcont h lk Hh) as (r & e' & ? & ? & Hc'). rewrite Hc' in Hc. injection Hc as <-. eauto.
  - intros (r & Hr1 & Hr2). destruct (disk_lookup_known r h e Hr1 Hr2) as [lk Hh].
    destruct (Hcont h lk Hh) as (r' & e' & Hr1' & Hr2' & ->). f_equal. by apply (Hcf h e' e r' r).
Qed.
End recovered.

(** Opening the files of a log and reading them back gives their events: each file's
    in order, all of them findable, and nothing else. *)
Lemma recover fs path files backup size ttl dflt :
  on_disk fs path files → collision_free files →
  ∃ l evts fs' l', new (C := C) false false path backup None false size ttl dflt fs = (Ok l, fs')
    ∧ read_all (fs', l) = (Ok evts, (fs', l')) ∧ same_files fs fs'
    ∧ (∃ order, order ≡ₚ imap file_loads files ∧ evts = mjoin order)
    ∧ local_inv fs' l'
    ∧ (∀ h e, local_contents fs' l' h = Some e ↔ ∃ r, r ∈ all_recs files ∧ records h e r)
    ∧ a_wbuf (lo_appender l') = []
    ∧ fs_names fs' !! log_name path (Z.of_nat (length files - 1)) = Some (lo_inode l').
Proof.
  intros Hd Hcf.
  destruct (new_disk fs path files backup size ttl dflt Hd)
    as (i & a & archives & fs' & E & Hsame & Hend & Hdata & Harch & (ar & Har & Hari) & Hw & Hi).
  destruct (on_disk_same fs fs' path files Hsame Hd) as [Hd' Hat].
  assert (∀ k, archives !! k = archive_at fs' path files k) as Harch' by by intros; rewrite Hat.
  destruct (opened_log_inv fs' false path backup size ttl i a archives ar Hend Hdata Har Hari)
    as [Hinv _].
  { intros k ar' Hk. by destruct (archive_file fs' path files archives Hd' Harch' k ar' Hk)
      as (? & ? & _ & _ & _ & _ & Hlt & _). }
  destruct (recovered_inv fs' path files archives Hd' Harch'
    (opened_log false path backup size ttl i a archives) eq_refl eq_refl
    (cache_new_holds size ttl) (cache_new_holds size ttl) Hinv Hcf) as [Hinv' Hc].
  eexists _, _, fs', _. split; [exact E|]. split.
  { unfold read_all, st_mk. cbn [lo_archives opened_log].
    rewrite (read_archives_disk fs' path files archives Hd' Harch'). reflexivity. }
  split; [done|]. split; [by eapply disk_loads_order|]. split; [exact Hinv'|]. split; [exact Hc|].
  split; [exact Hw|]. destruct Hsame as (-> & _). exact Hi.
Qed.
End reopen.

(** ** The life of a log on disk *)

Inductive LogOp : Type :=
  | LogWrite (e : EventWeakData)
  | LogLoad (h : AteHash)
  | LogFlush
  | LogRotate (header_bytes : bytes).

Section life.
Context {C : Type} `{CryptoPrims} `{MetaSerializer} `{BufStreamPolicy} `{TimedSizedCache C}
  `{ArchiveOrder}.
Implicit Types l : LogFileLocalFs C.

Definition run_op (op : LogOp) : st (Fs * LogFileLocalFs C) SerializationErrorKind unit :=
  match op with
  | LogWrite e => _ ← write e; mret ()
  | LogLoad h => st_mk (λ s, (Ok (), (load h s).2))
  | LogFlush => flush
  | LogRotate hdr => rotate hdr
  end.

Fixpoint run_ops (ops : list LogOp) : st (Fs * LogFileLocalFs C) SerializationErrorKind unit :=
  match ops with
  | [] => mret ()
  | op :: ops => _ ← run_op op; run_ops ops
  end.

(** The universe [U] gives the one event of each hash. *)
Definition life_ok (U : AteHash → EventWeakData) (op : LogOp) : Prop :=
  match op with
  | LogWrite e => local_storable e
      ∧ ∃ raw, EventWeakData.as_header_raw e = Ok raw ∧ U (raw_event_hash raw) = forget_event e
  | LogRotate hdr => Z.of_nat (length hdr) ≤ u32_max
  | _ => True
  end.

(** The hashes written so far and the ones that have reached the files. *)
Definition track (wd : gset AteHash * gset AteHash) (op : LogOp) : gset AteHash * gset AteHash :=
  match op with
  | LogWrite e =>
      match EventWeakData.as_header_raw e with
      | Ok raw => (wd.1 ∪ {[raw_event_hash raw]}, wd.2)
      | Err _ => wd
      end
  | LogLoad _ => wd
  | LogFlush | LogRotate _ => (wd.1, wd.1)
  end.

Definition written (ops : list LogOp) : gset AteHash := (foldl track (∅, ∅) ops).1.
Definition durable (ops : list LogOp) : gset AteHash := (foldl track (∅, ∅) ops).2.

(** The log in step with its files: [init] the files before the active one, which
    has the header [hdr] and the events [recs], counting what is still buffered. *)
Record kept (U : AteHash → EventWeakData) (wd : gset AteHash * gset AteHash) (fs : Fs) l
    (init : list DiskFile) (hdr : bytes) (recs : list Stored) : Prop := {
  kp_inv : local_inv fs l;
  kp_temp : lo_temp l = false;
  kp_index : a_index (lo_appender l) = Z.of_nat (length init);
  kp_arch : ∀ k ar, lo_archives l !! k = Some ar → k ≤ Z.of_nat (length init);
  kp_end : ∀ k : nat, (length init < k)%nat →
    fs_names fs !! log_name (lo_log_path l) (Z.of_nat k) = None;
  kp_init : ∀ (j : nat) f, init !! j = Some f → disk_ok f ∧
    ∃ i, fs_names fs !! log_name (lo_log_path l) (Z.of_nat j) = Some i ∧ i ≠ lo_inode l
         ∧ (i < fs_next fs)%nat ∧ Fs.content fs i = disk_bytes f;
  kp_name : fs_names fs !! log_name (lo_log_path l) (Z.of_nat (length init)) = Some (lo_inode l);
  kp_hdr : Z.of_nat (length hdr) ≤ u32_max;
  kp_recs : Forall rec_ok recs;
  kp_visible : visible fs l (lo_inode l) = file_of hdr recs [];
  kp_contents : ∀ h, local_contents fs l h = if decide (h ∈ wd.1) then Some (U h) else None;
  kp_stored : ∀ h e r, r ∈ all_recs init ++ recs → records h e r → h ∈ wd.1 ∧ e = U h;
  kp_durable : ∃ m, file_of hdr (take m recs) [] `prefix_of` Fs.content fs (lo_inode l)
    ∧ ∀ h, h ∈ wd.2 → ∃ r, r ∈ all_recs init ++ take m recs ∧ records h (U h) r;
  kp_all : ∀ h, h ∈ wd.1 → ∃ r, r ∈ all_recs init ++ recs ∧ records h (U h) r;
}.

(** A process that stops leaves the files as they are, whatever it had buffered. *)
Lemma kept_disk U wd fs l init hdr recs : kept U wd fs l init hdr recs →
  ∃ k t, let last := {| df_header := hdr; df_recs := take k recs; df_torn := t |} in
    on_disk fs (lo_log_path l) (init ++ [last])
    ∧ ∀ h, h ∈ wd.2 → ∃ r, r ∈ all_recs (init ++ [last]) ∧ records h (U h) r.
Proof.
  intros Hk. destruct (kp_durable _ _ _ _ _ _ _ Hk) as (m & Hm & Hdur).
  pose proof (kp_visible _ _ _ _ _ _ _ Hk) as Hvis. unfold visible in Hvis.
  rewrite decide_True in Hvis by done.
  destruct Hm as [c' Hm]. unfold file_of in Hm, Hvis. rewrite app_nil_r in Hm, Hvis.
  rewrite <- app_assoc in Hm. rewrite Hm, <- app_assoc in Hvis. apply app_inv_head in Hvis.
  destruct (prefix_recs recs (kp_recs _ _ _ _ _ _ _ Hk) (enc_recs (take m recs) ++ c'))
    as (k & t & Hbs & Ht & Hnext); [by eexists|].
  exists k, t. intros last.
  assert (take m recs `prefix_of` take k recs) as Hpre.
  { apply (prefix_whole recs k m t Hnext). rewrite <- Hbs. by eexists. }
  split.
  - split.
    + by destruct init.
    + intros j Hj. rewrite length_app in Hj. simpl in Hj. apply (kp_end _ _ _ _ _ _ _ Hk). lia.
    + intros j f Hf. destruct (decide (j < length init)%nat) as [Hlt|Hge].
      * rewrite lookup_app_l in Hf by done.
        destruct (kp_init _ _ _ _ _ _ _ Hk j f Hf) as [Hok (i & Hi & _ & ? & ?)]. eauto.
      * rewrite lookup_app_r in Hf by lia. apply list_lookup_singleton_Some in Hf as [Hj <-].
        assert (j = length init) as -> by lia. split.
        { split; [apply Hk|]. split; [|done]. apply Forall_take. apply Hk. }
        exists (lo_inode l). split; [apply Hk|].
        split; [apply (inv_inodes fs l (kp_inv _ _ _ _ _ _ _ Hk)); by left|].
        unfold disk_bytes, file_of. simpl. by rewrite Hm, Hbs.
  - intros h Hh. destruct (Hdur h Hh) as (r & Hr & Hrec). exists r. split; [|done].
    unfold all_recs. rewrite fmap_app, join_app. cbn. rewrite app_nil_r.
    apply elem_of_app in Hr as [Hr|Hr]; apply elem_of_app; [by left|right].
    destruct Hpre as [x ->]. apply elem_of_app. by left.
Qed.

(** *** Each operation keeps the log in step *)

(** A log that differs only in its caches. *)
Lemma load_run h fs l : ∃ w r, (load h (fs, l)).2 = (fs, with_caches l (lo_flush l) w r).
Proof.
  assert (l = with_caches l (lo_flush l) (lo_write l) (lo_read l)) as Hl by by destruct l.
  unfold load, load_cached, st_mk. destruct (lo_flush l !! h).
  { exists (lo_write l), (lo_read l). by rewrite <- Hl. }
  destruct (cache_get h (lo_read l)) as [[d|] rd]; [by eexists _, _|].
  cbn [lo_write with_caches lo_flush lo_read].
  destruct (cache_remove h (lo_write l)) as [[d|] wr]; [by eexists _, _|].
  destruct (load_file _ _ _); by eexists _, _.
Qed.

Lemma kept_load U wd fs l init hdr recs h : kept U wd fs l init hdr recs →
  ∃ l', run_op (LogLoad h) (fs, l) = (Ok (), (fs, l')) ∧ lo_log_path l' = lo_log_path l
    ∧ kept U wd fs l' init hdr recs.
Proof.
  intros Hk. destruct (load_run h fs l) as (w & r & E).
  cbn [run_op]. unfold st_mk. rewrite E. eexists. split; [done|]. split; [done|].
  pose proof (kp_inv _ _ _ _ _ _ _ Hk) as Hinv.
  assert (local_inv fs (with_caches l (lo_flush l) w r)) as Hinv'.
  { destruct (local_contents fs l h) as [e|] eqn:He.
    - destruct (local_load_ok fs l h e Hinv He) as (d & l' & E' & _ & ? & _).
      rewrite E' in E. injection E as <-. done.
    - destruct (local_load_missing fs l h Hinv He) as (l' & E' & ? & _).
      rewrite E' in E. injection E as <-. done. }
  by destruct Hk.
Qed.

Lemma append_run h evt header fs l : local_inv fs l → data_ok evt →
  ∃ lk a' f', append_event h evt header (fs, l)
      = (Ok lk, (Fs.set_content (lo_inode l) (a_data a') fs,
          with_caches (with_lookup (with_appender l a') (<[h := lk]> (lo_lookup l))) f'
            (lo_write l) (lo_read l)))
    ∧ a_index a' = a_index (lo_appender l)
    ∧ (∃ more, a_data a' = Fs.content fs (lo_inode l) ++ more)
    ∧ stored a' = stored (lo_appender l) ++ enc_event (raw_meta_bytes header)
        (MessageBytes.as_option (ew_data_bytes evt)) (ew_format evt).
Proof.
  intros Hinv Hd. destruct (inv_appender fs l Hinv) as [Hend Hdata].
  destruct (appender_write evt header (lo_appender l) Hend Hd)
    as (a' & E & Hend' & (_ & Hidx & _) & (more & Hgrow) & St).
  eexists _, a', _. unfold append_event.
  rewrite (st_bind_Ok _ _ _ _ _ (on_appender_run _ fs l _ _ Hinv E)).
  split; [done|]. split; [done|]. split; [|done]. exists more. by rewrite Hgrow, Hdata.
Qed.

(** How an event is stored. *)
Definition stored_of (e : EventWeakData) (raw : EventHeaderRaw) : Stored :=
  {| rc_meta := raw_meta_bytes raw; rc_data := MessageBytes.as_option (ew_data_bytes e);
     rc_format := ew_format e |}.

Lemma records_written e raw : local_storable e → EventWeakData.as_header_raw e = Ok raw →
  records (raw_event_hash raw) (forget_event e) (stored_of e raw).
Proof.
  intros [Hd Hm] Hraw. split.
  - split; [by apply Hm|]. unfold data_ok in Hd. simpl.
    destruct (ew_data_bytes e); simpl; [apply Hd|done|reflexivity].
  - intros o lk.
    destruct (loaded_entry_of (raw_event_hash raw) (forget_event e) {| ld_lookup := lk;
      ld_header := raw; ld_data := e |} o lk) as (d & Hd1 & Hd2); [by apply loaded_written|done|].
    exists d. split; [done|]. split; [done|]. revert Hd1. unfold entry_load.
    destruct (meta_deserialize _ _); simpl; [|done]. intros E. by injection E as <-.
Qed.

Lemma kept_write U wd fs l init hdr recs e : kept U wd fs l init hdr recs → life_ok U (LogWrite e) →
  ∃ fs' l' r, run_op (LogWrite e) (fs, l) = (Ok (), (fs', l')) ∧ lo_log_path l' = lo_log_path l
    ∧ kept U (track wd (LogWrite e)) fs' l' init hdr (recs ++ [r]).
Proof.
  intros Hk ([Hd Hm] & raw & Hraw & HU). pose proof (kp_inv _ _ _ _ _ _ _ Hk) as Hinv.
  set (h := raw_event_hash raw) in *.
  destruct (append_run h e raw fs l Hinv Hd) as (lk & a' & f' & E & Hidx & (more & Hgrow) & St).
  destruct (append_ok fs l h e raw (forget_event e) Hinv Hd Hd)
    as (lk' & fs1 & l1 & E1 & Hinv' & Hown & Hkeep & Hnext & Hc).
  { intros lk0. by apply loaded_written. }
  { intros old Ho. rewrite (kp_contents _ _ _ _ _ _ _ Hk) in Ho.
    case_decide; [|done]. injection Ho as <-. done. }
  rewrite E in E1. injection E1 as <- Hfs Hl.
  set (r := stored_of e raw).
  assert (records h (forget_event e) r) as Hrec by by apply records_written.
  cbn [run_op]. unfold write, st_mk. rewrite (st_bind_Ok _ _ (fs, l) (fs1, l1) lk).
  2:{ rewrite Hraw. fold h. by rewrite E, Hfs, Hl. }
  exists fs1, l1, r. split; [done|].
  assert (lo_inode l1 = lo_inode l) as Hi by by rewrite <- Hl.
  assert (lo_log_path l1 = lo_log_path l) as Hp by by rewrite <- Hl.
  assert (fs_names fs1 = fs_names fs) as Hn by by rewrite <- Hfs.
  assert (∀ i, Fs.content fs1 i = if decide (i = lo_inode l) then a_data a' else Fs.content fs i)
    as Hcont by (intros i; rewrite <- Hfs; apply content_set).
  split; [done|]. unfold track. rewrite Hraw. fold h.
  destruct Hk as [_ Htemp Hkidx Harch Hend Hinit Hname Hhdr Hrecs Hvis Hcon Hsto Hdur Hall].
  split; try (done || by rewrite ?Hn, ?Hp, ?Hi, <- ?Hl); rewrite ?Hp, ?Hn, ?Hi.
  - rewrite <- Hl. simpl. congruence.
  - intros j f Hf. destruct (Hinit j f Hf) as [Hok (i & Hni & Hne & Hlt & Hci)].
    split; [done|]. exists i. rewrite Hcont, decide_False, Hnext by done. done.
  - apply Forall_app_2; [done|]. apply Forall_singleton. apply Hrec.
  - pose proof (visible_step fs l l1 a' (enc_rec r) (lo_inode l) Hinv Hi) as Hv.
    rewrite Hfs in Hv. rewrite Hv; [|by rewrite <- Hl|done].
    rewrite Hvis, decide_True by done. unfold file_of.
    rewrite !app_nil_r, enc_recs_app, <- app_assoc. unfold enc_recs at 3. cbn [fmap list_fmap].
    unfold mjoin, list_join. by rewrite app_nil_r.
  - intros h'. rewrite Hc, Hcon. destruct (decide (h' = h)) as [->|Hne].
    + rewrite decide_True by set_solver. by rewrite HU.
    + destruct (decide (h' ∈ wd.1)); [by rewrite decide_True by set_solver|].
      by rewrite decide_False by set_solver.
  - intros h' e' r'. rewrite app_assoc, elem_of_app, list_elem_of_singleton.
    intros [Hr'| ->] Hrec'; [destruct (Hsto h' e' r' Hr' Hrec'); set_solver|].
    destruct (records_fun _ _ _ _ _ Hrec Hrec') as [<- <-]. set_solver.
  - destruct Hdur as (m & Hpre & Hdur). exists (Nat.min m (length recs)).
    rewrite take_app_le by lia. split.
    + rewrite Hcont, decide_True by done. rewrite Hgrow.
      replace (take (m `min` length recs) recs) with (take m recs).
      * etrans; [exact Hpre|]. by eexists.
      * destruct (decide (m ≤ length recs)%nat); [by rewrite Nat.min_l by lia|].
        rewrite Nat.min_r by lia. by rewrite !take_ge by lia.
    + intros h' (r' & Hr' & Hrec')%Hdur. exists r'. split; [|done].
      destruct (decide (m ≤ length recs)%nat); [by rewrite Nat.min_l by lia|].
      rewrite Nat.min_r by lia. rewrite take_ge in Hr' |- * by lia. done.
  - intros h' Hh'. destruct (decide (h' = h)) as [->|Hne].
    + exists r. split; [set_solver|]. by rewrite HU.
    + destruct (Hall h') as (r' & Hr' & ?); [set_solver|]. exists r'. set_solver.
Qed.

(** The log after a flush of its appender, with whatever caches. *)
Lemma kept_flushed U wd fs l init hdr recs fs' l1 :
  kept U wd fs l init hdr recs → local_inv fs' l1 →
  (∀ h, local_contents fs' l1 h = local_contents fs l h) →
  (∀ i, Fs.content fs' i = visible fs l i) → fs_next fs' = fs_next fs →
  fs_names fs' = fs_names fs → a_wbuf (lo_appender l1) = [] →
  a_index (lo_appender l1) = a_index (lo_appender l) →
  lo_temp l1 = lo_temp l → lo_log_path l1 = lo_log_path l → lo_inode l1 = lo_inode l →
  lo_archives l1 = lo_archives l →
  kept U (wd.1, wd.1) fs' l1 init hdr recs.
Proof.
  intros [] Hinv Hc Hcont Hnx Hn Hw Hidx Ht Hp Hi Har.
  assert (∀ i, visible fs' l1 i = visible fs l i) as Hvis.
  { intros i. unfold visible at 1. rewrite Hw, Hcont. case_decide; by rewrite app_nil_r. }
  split; rewrite ?Hn, ?Hnx, ?Hp, ?Hi, ?Hidx, ?Ht, ?Har, ?Hvis; try done.
  - intros j f Hf. destruct (kp_init0 j f Hf) as [Hok (i & Hni & Hne & Hlt & Hci)].
    split; [done|]. exists i. do 3 (split; [done|]). rewrite Hcont. unfold visible.
    by rewrite decide_False, app_nil_r.
  - intros h. by rewrite Hc.
  - exists (length recs). rewrite take_ge by lia. rewrite Hcont, kp_visible0. done.
Qed.

Lemma kept_flush U wd fs l init hdr recs : kept U wd fs l init hdr recs →
  ∃ fs' l', run_op LogFlush (fs, l) = (Ok (), (fs', l')) ∧ lo_log_path l' = lo_log_path l
    ∧ kept U (track wd LogFlush) fs' l' init hdr recs.
Proof.
  intros Hk. pose proof (kp_inv _ _ _ _ _ _ _ Hk) as Hinv.
  destruct (local_flush_ok fs l Hinv) as (fs' & l' & E & Hinv' & _ & _ & Hnx & Hcont & Hc).
  exists fs', l'. split; [done|]. cbn [track].
  destruct (flush_appender fs l Hinv) as (a' & fs1 & Ea & _ & Hw & (_ & Hidx & _) & _).
  pose proof (on_appender_run (st_map_err IO LogAppender.flush) fs l) as Hrun.
  destruct (st_map_err IO LogAppender.flush (lo_appender l)) as [ra a2] eqn:E2.
  specialize (Hrun ra a2 Hinv eq_refl). rewrite Ea in Hrun. injection Hrun as <- Hfs1 Ha2.
  unfold flush, st_mk in E. rewrite Ea in E.
  destruct (foldl _ _ _) as [fl wr] in E. injection E as <- <-.
  split; [done|]. apply (kept_flushed U wd fs l); try done. by rewrite Hfs1.
Qed.

(** The log with a new active file. *)
Definition rotated l (k : Z) (i : nat) (a : LogAppender) (ar : LogArchive) : LogFileLocalFs C :=
  {| lo_log_path := lo_log_path l; lo_backup_path := lo_backup_path l; lo_temp := lo_temp l;
     lo_lookup := lo_lookup l; lo_appender := a; lo_inode := i;
     lo_archives := <[k := ar]> (lo_archives l); lo_flush := lo_flush l;
     lo_write := lo_write l; lo_read := lo_read l |}.

Lemma rotated_inv fs l fs' k i a ar : local_inv fs l → a_wbuf (lo_appender l) = [] →
  lo_archives l !! k = None → (∀ j, owns l j → Fs.content fs' j = Fs.content fs j) →
  fs_next fs = i → fs_next fs' = S (fs_next fs) →
  at_end a → a_data a = Fs.content fs' i → a_index a = k → a_wbuf a = [] → ar_inode ar = i →
  local_inv fs' (rotated l k i a ar)
  ∧ ∀ h, local_contents fs' (rotated l k i a ar) h = local_contents fs l h.
Proof.
  intros Hinv Hw Hk Hcont Hi Hnx Hend Hdata Hidx Hwa Hari.
  assert (∀ k' ar', lo_archives l !! k' = Some ar' →
    lo_archives (rotated l k i a ar) !! k' = Some ar'
    ∧ visible fs' (rotated l k i a ar) (ar_inode ar') = Fs.content fs (ar_inode ar')
    ∧ visible fs l (ar_inode ar') = Fs.content fs (ar_inode ar')) as Hold.
  { intros k' ar' Hk'. simpl. rewrite lookup_insert_ne by congruence. split; [done|].
    unfold visible. simpl. rewrite Hw, Hwa, Hcont by (right; eauto).
    split; case_decide; by rewrite app_nil_r. }
  assert (∀ h, local_contents fs' (rotated l k i a ar) h = local_contents fs l h) as Hc.
  { intros h. unfold local_contents. simpl.
    destruct (lo_lookup l !! h) as [lk|] eqn:Hlk; simpl; [|done].
    destruct (inv_lookup fs l Hinv h lk Hlk) as (ar' & e & Har' & _).
    destruct (Hold _ _ Har') as (Hn & Hv & Hv'). simpl in Hn. rewrite Hn, Har'. simpl.
    by rewrite Hv, Hv'. }
  split; [|done]. destruct Hinv as [Ha Hact Hin Hl Hcd]. split.
  - done.
  - exists ar. simpl. by rewrite Hidx, lookup_insert_eq.
  - intros j [->|(k' & ar' & Hk' & <-)]; simpl in *; [lia|].
    rewrite Hnx. destruct (decide (k' = k)) as [->|Hne].
    + rewrite lookup_insert_eq in Hk'. injection Hk' as <-. lia.
    + rewrite lookup_insert_ne in Hk' by done.
      specialize (Hin (ar_inode ar')). apply Nat.lt_lt_succ_r, Hin. right. eauto.
  - intros h lk Hlk. destruct (Hl h lk Hlk) as (ar' & e & Har' & He & Hf).
    destruct (Hold _ _ Har') as (Hn & Hv & Hv'). exists ar', e. split; [done|].
    rewrite Hv. rewrite Hv' in He. split; [done|]. intros _. by rewrite Hcont by (right; eauto).
  - intros h d Hd. rewrite Hc. by apply Hcd.
Qed.

Lemma kept_rotate U wd fs l init hdr recs hdr' : kept U wd fs l init hdr recs →
  Z.of_nat (length hdr') ≤ u32_max →
  ∃ fs' l', run_op (LogRotate hdr') (fs, l) = (Ok (), (fs', l')) ∧ lo_log_path l' = lo_log_path l
    ∧ kept U (wd.1, wd.1) fs' l'
        (init ++ [{| df_header := hdr; df_recs := recs; df_torn := [] |}]) hdr' [].
Proof.
  intros Hk0 Hlen. pose proof (kp_inv _ _ _ _ _ _ _ Hk0) as Hinv0.
  destruct (flush_appender fs l Hinv0)
    as (a' & fs1 & Ea & Hend & Hw & (_ & Hidx & _) & Hd & Hcont & Hnx & _).
  assert (fs_names fs1 = fs_names fs) as Hnm.
  { pose proof (on_appender_run (st_map_err IO LogAppender.flush) fs l) as Hrun.
    destruct (st_map_err IO LogAppender.flush (lo_appender l)) as [ra a2] eqn:E2.
    specialize (Hrun ra a2 Hinv0 eq_refl). rewrite Ea in Hrun. by injection Hrun as _ -> _. }
  set (l1 := with_appender l a') in *.
  destruct (flushed_inv fs l fs1 l1 Hinv0 Hcont Hnx) as [Hinv1 Hc1]; try done.
  assert (kept U (wd.1, wd.1) fs1 l1 init hdr recs) as Hk by (by apply (kept_flushed U wd fs l)).
  set (n := S (length init)).
  destruct (appender_new (lo_log_path l) false (Z.of_nat n) hdr' fs1 (fs_next fs1)
    {| fs_names := <[log_name (lo_log_path l) (Z.of_nat n) := fs_next fs1]> (fs_names fs1);
       fs_inodes := <[fs_next fs1 := []]> (fs_inodes fs1); fs_next := S (fs_next fs1) |}
    hdr' (enc_header hdr')) as (a & ar & E & Hend2 & D & W & I & _ & _ & Har).
  { unfold Fs.open_write.
    by rewrite (kp_end _ _ _ _ _ _ _ Hk n ltac:(lia)
      : fs_names fs1 !! log_name (lo_log_path l) (Z.of_nat n) = None). }
  { unfold Fs.content. simpl. rewrite lookup_insert_eq. by apply headed_new. }
  set (fs2 := Fs.set_content _ _ _) in E.
  assert (∀ j, j ≠ fs_next fs1 → Fs.content fs2 j = Fs.content fs1 j) as Hc2.
  { intros j Hj. unfold fs2. rewrite content_set, decide_False by done. unfold Fs.content. simpl.
    by rewrite lookup_insert_ne. }
  assert (Fs.content fs2 (fs_next fs1) = enc_header hdr') as Hci
    by by unfold fs2; rewrite content_set, decide_True.
  destruct (rotated_inv fs1 l1 fs2 (Z.of_nat n) (fs_next fs1) a ar) as [Hinv2 Hcon2]; try done.
  { apply eq_None_not_Some. intros [x Hx%(kp_arch _ _ _ _ _ _ _ Hk)]. lia. }
  { intros j Hj%(inv_inodes fs1 l1 Hinv1). apply Hc2. lia. }
  { by rewrite D. }
  { by rewrite Har. }
  exists fs2, (rotated l1 (Z.of_nat n) (fs_next fs1) a ar). split.
  { cbn [run_op]. unfold rotate, st_mk. rewrite (kp_temp _ _ _ _ _ _ _ Hk0). unfold LogAppender.sync.
    rewrite Ea. fold l1. cbn zeta. replace (a_index (lo_appender l1) + 1) with (Z.of_nat n).
    - change (lo_log_path l1) with (lo_log_path l). by rewrite E.
    - rewrite (kp_index _ _ _ _ _ _ _ Hk). lia. }
  split; [done|].
  assert (∀ j : nat, (j < n)%nat → log_name (lo_log_path l) (Z.of_nat n)
    ≠ log_name (lo_log_path l) (Z.of_nat j)) as Hne.
  { intros j Hj. apply log_name_ne; lia. }
  clear Hk0. destruct Hk. split; try done.
  - simpl. rewrite I, length_app. simpl. lia.
  - intros k ar'. simpl. intros [[<- _]|[_ Hk]]%lookup_insert_Some; rewrite length_app; simpl; [lia|].
    apply kp_arch0 in Hk. lia.
  - intros k Hk. rewrite length_app in Hk. simpl in *.
    rewrite lookup_insert_ne by (apply log_name_ne; lia). apply kp_end0. lia.
  - intros j f Hf. simpl. destruct (decide (j < length init)%nat) as [Hlt|Hge].
    + rewrite lookup_app_l in Hf by done. destruct (kp_init0 j f Hf) as [Hok (i & Hi & _ & Hli & Hci')].
      split; [done|]. exists i. rewrite lookup_insert_ne by (apply Hne; lia). split; [done|].
      split; [lia|]. split; [lia|]. rewrite Hc2 by lia. done.
    + rewrite lookup_app_r in Hf by lia. apply list_lookup_singleton_Some in Hf as [Hj <-].
      assert (j = length init) as -> by lia. split; [by split; [|split; [|apply torn_nil]]|].
      exists (lo_inode l1). rewrite lookup_insert_ne by (apply Hne; lia). split; [done|].
      assert (lo_inode l1 < fs_next fs1)%nat by (apply (inv_inodes fs1 l1 Hinv1); by left).
      split; [lia|]. split; [lia|]. rewrite Hc2 by lia. unfold disk_bytes. simpl.
      rewrite <- kp_visible0. unfold visible. rewrite decide_True by done. simpl.
      by rewrite Hw, app_nil_r.
  - simpl. rewrite length_app. simpl. replace (length init + 1)%nat with n by lia.
    by rewrite lookup_insert_eq.
  - unfold visible. simpl. rewrite Hci, decide_True, W by done. done.
  - intros h. by rewrite Hcon2.
  - intros h e r. unfold all_recs. rewrite app_nil_r, fmap_app, join_app. cbn. rewrite app_nil_r.
    apply kp_stored0.
  - exists 0%nat. cbn [take lo_inode rotated]. rewrite Hci.
    split; [unfold file_of, enc_recs; cbn; by rewrite app_nil_r|].
    unfold all_recs. rewrite app_nil_r, fmap_app, join_app. cbn. by rewrite app_nil_r.
  - unfold all_recs. rewrite app_nil_r, fmap_app, join_app. cbn. by rewrite app_nil_r.
Qed.

Lemma kept_new U fs path backup size ttl hdr :
  (∀ k : nat, fs_names fs !! log_name path (Z.of_nat k) = None) →
  Z.of_nat (length hdr) ≤ u32_max →
  ∃ l fs', new (C := C) false false path backup None false size ttl hdr fs = (Ok l, fs')
    ∧ lo_log_path l = path ∧ kept U (∅, ∅) fs' l [] hdr [].
Proof.
  intros Hfresh Hlen.
  destruct (new_run (C := C) false path backup false size ttl hdr fs 0 ∅ (fs_next fs)
    {| fs_names := <[log_name path 0 := fs_next fs]> (fs_names fs);
       fs_inodes := <[fs_next fs := []]> (fs_inodes fs); fs_next := S (fs_next fs) |}
    hdr (enc_header hdr)) as (a & names & E & Hend & D & W & I & _ & Hnm).
  { unfold loop_fuel. cbn [archive_loop]. unfold Fs.exists_.
    rewrite (Hfresh 1%nat : fs_names fs !! log_name path (0 + 1) = None).
    by rewrite bool_decide_eq_false_2 by by intros []. }
  { unfold Fs.open_write. by rewrite (Hfresh 0%nat : fs_names fs !! log_name path 0 = None). }
  { unfold Fs.content. simpl. rewrite lookup_insert_eq. by apply headed_new. }
  rewrite (Hnm eq_refl) in E. set (fs' := Fs.with_names _ _) in E.
  assert (Fs.content fs' (fs_next fs) = enc_header hdr) as Hci.
  { unfold fs', Fs.content. simpl. by rewrite lookup_insert_eq. }
  set (ar := {| ar_index := 0; ar_path := log_name path 0; ar_inode := fs_next fs;
    ar_header := hdr |}) in E.
  destruct (opened_log_inv (C := C) fs' false path backup size ttl (fs_next fs) a {[0 := ar]} ar)
    as [Hinv Hnone]; try done.
  { by rewrite D. }
  { rewrite I. apply lookup_singleton_eq. }
  { intros k ar' [_ <-]%lookup_singleton_Some. simpl. lia. }
  eexists _, fs'. split; [exact E|]. split; [done|]. split; try done.
  - intros k ar'. simpl. intros [<- _]%lookup_singleton_Some. simpl. lia.
  - intros k Hk. simpl in *. rewrite lookup_insert_ne by (apply log_name_ne; lia). apply Hfresh.
  - simpl. by rewrite lookup_insert_eq.
  - unfold visible. cbn [lo_inode opened_log lo_appender]. by rewrite Hci, decide_True, W by done.
  - intros h e r Hr. by apply elem_of_nil in Hr.
  - exists 0%nat. cbn [lo_inode opened_log take]. rewrite Hci.
    split; [unfold file_of, enc_recs; cbn; by rewrite app_nil_r|set_solver].
Qed.

Lemma kept_op U wd fs l init hdr recs op : kept U wd fs l init hdr recs → life_ok U op →
  ∃ fs' l' init' hdr' recs', run_op op (fs, l) = (Ok (), (fs', l'))
    ∧ lo_log_path l' = lo_log_path l ∧ kept U (track wd op) fs' l' init' hdr' recs'.
Proof.
  intros Hk Hop. destruct op as [e|h| |hdr'].
  - destruct (kept_write U wd fs l init hdr recs e Hk Hop) as (fs' & l' & r & ?). eauto 10.
  - destruct (kept_load U wd fs l init hdr recs h Hk) as (l' & ?). eauto 10.
  - destruct (kept_flush U wd fs l init hdr recs Hk) as (fs' & l' & ?). eauto 10.
  - destruct (kept_rotate U wd fs l init hdr recs hdr' Hk Hop) as (fs' & l' & ?). eauto 10.
Qed.

Lemma kept_ops U ops : Forall (life_ok U) ops → ∀ wd fs l init hdr recs,
  kept U wd fs l init hdr recs →
  ∃ fs' l' init' hdr' recs', run_ops ops (fs, l) = (Ok (), (fs', l'))
    ∧ lo_log_path l' = lo_log_path l ∧ kept U (foldl track wd ops) fs' l' init' hdr' recs'.
Proof.
  induction 1 as [|op ops Hop Hops IH]; intros wd fs l init hdr recs Hk; [eauto 10|].
  destruct (kept_op U wd fs l init hdr recs op Hk Hop) as (fs1 & l1 & i1 & h1 & r1 & E1 & Hp1 & Hk1).
  destruct (IH _ _ _ _ _ _ Hk1) as (fs2 & l2 & i2 & h2 & r2 & E2 & Hp2 & Hk2).
  exists fs2, l2, i2, h2, r2. cbn [run_ops]. rewrite (st_bind_Ok _ _ _ _ _ E1).
  split; [done|]. split; [congruence|done].
Qed.

(** Opening the files of a log that just stopped. *)
Lemma kept_reopen U wd fs l init hdr recs backup size ttl dflt :
  kept U wd fs l init hdr recs →
  ∃ l2 evts fs2 l3,
    new (C := C) false false (lo_log_path l) backup None false size ttl dflt fs = (Ok l2, fs2)
    ∧ read_all (fs2, l2) = (Ok evts, (fs2, l3)) ∧ local_inv fs2 l3
    ∧ (∀ h e, local_contents fs2 l3 h = Some e → h ∈ wd.1 ∧ e = U h)
    ∧ ∀ h, h ∈ wd.2 → local_contents fs2 l3 h = Some (U h).
Proof.
  intros Hk. destruct (kept_disk U wd fs l init hdr recs Hk) as (k & t & Hd & Hdur).
  set (last := {| df_header := hdr; df_recs := take k recs; df_torn := t |}) in *.
  assert (∀ h e r, r ∈ all_recs (init ++ [last]) → records h e r → h ∈ wd.1 ∧ e = U h) as Hin.
  { intros h e r Hr. apply (kp_stored _ _ _ _ _ _ _ Hk). revert Hr.
    unfold all_recs. rewrite fmap_app, join_app. cbn. rewrite app_nil_r, !elem_of_app.
    intros [Hr|Hr]; [by left|right]. by eapply elem_of_take in Hr as (? & ?%list_elem_of_lookup_2 & _). }
  destruct (recover (C := C) fs (lo_log_path l) (init ++ [last]) backup size ttl dflt Hd)
    as (l2 & evts & fs2 & l3 & E & R & _ & _ & Hinv & Hc & _).
  { intros h e1 e2 r1 r2 Hr1 Hr2 [_ ->]%(Hin _ _ _ Hr1) [_ ->]%(Hin _ _ _ Hr2). done. }
  exists l2, evts, fs2, l3. do 3 (split; [done|]). split.
  - intros h e (r & Hr & Hrec)%Hc. by eapply Hin.
  - intros h Hh. apply Hc. by apply Hdur.
Qed.

(** ** What a reader can rely on *)

(** C1. A crash loses nothing that was flushed and makes nothing up.  Start a log in an
    empty place, write, load, flush and rotate it in any order, and stop the process at
    any point, whatever is still buffered and wherever in an event the file ends.
    Opening the log again and reading it succeeds, an event flushed or rotated before
    the stop is loaded back, and what was never written is not found. *)
Theorem crash_recovers (U : AteHash → EventWeakData) (fs : Fs) (path : string)
  (backup : option string) (size ttl : Z) (hdr dflt : bytes) (ops : list LogOp)
  (Hfresh : ∀ k : nat, fs_names fs !! log_name path (Z.of_nat k) = None)
  (Hlen : Z.of_nat (length hdr) ≤ u32_max) (Hops : Forall (life_ok U) ops) :
  ∃ l fs0 fs1 l1 l2 evts fs2 l3,
    new (C := C) false false path backup None false size ttl hdr fs = (Ok l, fs0)
    ∧ run_ops ops (fs0, l) = (Ok (), (fs1, l1))
    ∧ new (C := C) false false path backup None false size ttl dflt fs1 = (Ok l2, fs2)
    ∧ read_all (fs2, l2) = (Ok evts, (fs2, l3))
    ∧ (∀ h, h ∈ durable ops → ∃ d s, load h (fs2, l3) = (Ok d, s) ∧ loaded h (U h) d)
    ∧ (∀ h, h ∉ written ops → ∃ s, load h (fs2, l3) = (Err (NotFoundByHash h), s)).
Proof.
  destruct (kept_new U fs path backup size ttl hdr Hfresh Hlen) as (l & fs0 & E0 & Hp0 & Hk0).
  destruct (kept_ops U ops Hops _ _ _ _ _ _ Hk0) as (fs1 & l1 & i1 & h1 & r1 & E1 & Hp1 & Hk1).
  destruct (kept_reopen U _ fs1 l1 i1 h1 r1 backup size ttl dflt Hk1)
    as (l2 & evts & fs2 & l3 & E2 & E3 & Hinv & Hnew & Hdur).
  rewrite Hp1, Hp0 in E2. exists l, fs0, fs1, l1, l2, evts, fs2, l3. do 4 (split; [done|]).
  split.
  - intros h Hh. destruct (local_load_ok fs2 l3 h (U h) Hinv (Hdur h Hh)) as (d & l' & ? & ? & _).
    eauto.
  - intros h Hh. destruct (local_contents fs2 l3 h) as [e|] eqn:Hc.
    + by destruct (Hnew h e Hc).
    + destruct (local_load_missing fs2 l3 h Hinv Hc) as (l' & ? & _). eauto.
Qed.

(** Reading a log of one file yields exactly its whole events, in order, each with
    its place, its header and its metadata; an event whose metadata does not decode is
    passed over, and so is what a crash left of a last one. *)
Theorem read_all_in_order (fs : Fs) (path : string) (f : DiskFile) (backup : option string)
  (size ttl : Z) (dflt : bytes)
  (Hdisk : on_disk fs path [f]) (Hcf : collision_free [f]) :
  ∃ l fs' l', new (C := C) false false path backup None false size ttl dflt fs = (Ok l, fs')
    ∧ read_all (fs', l)
      = (Ok (loads 0 (Z.of_nat (length (enc_header (df_header f)))) (df_recs f)), (fs', l')).
Proof.
  destruct (recover (C := C) fs path [f] backup size ttl dflt Hdisk Hcf)
    as (l & evts & fs' & l' & E & R & _ & (order & Hperm & ->) & _).
  exists l, fs', l'. split; [done|]. rewrite R. simpl in Hperm.
  apply Permutation_singleton_r in Hperm as ->. cbn. by rewrite app_nil_r.
Qed.

(** ** Appending after a torn event *)

Lemma flush_names fs l fs' l' : flush (fs, l) = (Ok (), (fs', l')) → fs_names fs' = fs_names fs.
Proof.
  unfold flush, on_appender, st_mk. destruct (st_map_err IO LogAppender.flush _) as [[u|] a]; [|done].
  destruct (foldl _ _ _) as [fl wr]. by intros [= <- _].
Qed.

(** Writing an event and flushing it puts its bytes behind those of the active file. *)
Lemma append_flush fs l e raw : local_inv fs l → local_storable e → EventWeakData.as_header_raw e = Ok raw →
  local_contents fs l (raw_event_hash raw) = None →
  ∃ fs' l', run_ops [LogWrite e; LogFlush] (fs, l) = (Ok (), (fs', l')) ∧ local_inv fs' l'
    ∧ fs_names fs' = fs_names fs ∧ fs_next fs' = fs_next fs
    ∧ (∀ i, Fs.content fs' i = visible fs l i ++ if decide (i = lo_inode l) then enc_rec (stored_of e raw) else [])
    ∧ local_contents fs' l' (raw_event_hash raw) = Some (forget_event e).
Proof.
  intros Hinv He Hraw Hnew. pose proof He as [Hd _].
  destruct (append_run (raw_event_hash raw) e raw fs l Hinv Hd) as (lk & a' & f' & E & _ & _ & St).
  destruct (local_write_ok fs l e raw Hinv He Hraw) as (lk' & fs1 & l1 & E1 & Hinv1 & _ & _ & Hnx & Hc1);
    [by rewrite Hnew|].
  pose proof E1 as E1'. unfold write, st_mk in E1'. rewrite Hraw, E in E1'. injection E1' as -> Hfs Hl.
  destruct (local_flush_ok fs1 l1 Hinv1) as (fs2 & l2 & E2 & Hinv2 & _ & _ & Hnx2 & Hcont & Hc2).
  exists fs2, l2. cbn [run_ops run_op].
  assert ((_ ← write e; mret ()) (fs, l) = (Ok (), (fs1, l1))) as Ew by (by rewrite (st_bind_Ok _ _ _ _ _ E1)).
  rewrite (st_bind_Ok _ _ _ _ _ Ew), (st_bind_Ok _ _ _ _ _ E2). split; [done|]. split; [done|].
  split; [rewrite (flush_names _ _ _ _ E2); by rewrite <- Hfs|]. split; [congruence|].
  split; [|by rewrite Hc2, Hc1, decide_True].
  intros i. rewrite Hcont, <- Hfs. apply visible_step; [done|by rewrite <- Hl|by rewrite <- Hl|exact St].
Qed.

(** A torn event takes in bytes that are appended to it, up to the length that it announces. *)
Lemma torn_grows r d t q bs : rec_ok r → rc_data r = Some d → enc_rec r = t ++ q → (length q ≤ length d)%nat →
  (length bs < length q)%nat → torn (t ++ bs).
Proof.
  intros [Hm Hd] Er Et Hq Hbs. unfold enc_rec in Et. rewrite Er in Et, Hd. unfold enc_event, enc_body in Et.
  cbn [default from_option id] in *. rewrite !app_assoc in Et.
  assert (∃ d1, d = d1 ++ q) as [d1 ->].
  { exists (take (length d - length q) d). apply (f_equal (drop (length t))) in Et as Eq.
    rewrite drop_app_length in Eq. apply (f_equal length) in Et as El. rewrite !length_app in El.
    rewrite drop_app_ge in Eq by (rewrite !length_app; lia). rewrite <- Eq at 2.
    rewrite <- (take_drop (length d - length q) d) at 1. do 2 f_equal. rewrite !length_app. lia. }
  rewrite app_assoc in Et. apply app_inv_tail in Et.
  exists {| rc_meta := rc_meta r; rc_data := Some (d1 ++ bs ++ drop (length bs) q); rc_format := rc_format r |},
    (drop (length bs) q).
  assert (length (d1 ++ bs ++ drop (length bs) q) = length (d1 ++ q)) as Hlen by (rewrite !length_app, length_drop; lia).
  split; [|split].
  - split; [done|]. unfold blob_ok in *. cbn [rc_data default from_option id]. by rewrite Hlen.
  - unfold enc_rec, enc_event, enc_body. cbn [rc_meta rc_data rc_format default from_option id].
    rewrite Hlen, <- Et, <- !app_assoc. done.
  - intros E%(f_equal length). rewrite length_drop in E. cbn in E. lia.
Qed.

(** The files of a log whose last one has grown by a torn end. *)
Lemma grown_disk fs fs' path init last i bs : on_disk fs path (init ++ [last]) →
  fs_names fs !! log_name path (Z.of_nat (length init)) = Some i →
  (∀ j, (j < length init)%nat →
    fs_names fs !! log_name path (Z.of_nat j) ≠ fs_names fs !! log_name path (Z.of_nat (length init))) →
  fs_names fs' = fs_names fs → fs_next fs' = fs_next fs →
  (∀ j, Fs.content fs' j = Fs.content fs j ++ if decide (j = i) then bs else []) →
  torn (df_torn last ++ bs) →
  on_disk fs' path (init ++ [{| df_header := df_header last; df_recs := df_recs last; df_torn := df_torn last ++ bs |}]).
Proof.
  intros [_ Hend Hf] Hi Hown Hn Hx Hc Ht. split; [by destruct init| |].
  - intros k Hk. rewrite Hn. apply Hend. by rewrite length_app in *.
  - intros j f Hj. rewrite Hn, Hx. destruct (decide (j < length init)%nat) as [Hlt|Hge].
    + rewrite lookup_app_l in Hj by done. destruct (Hf j f) as [Hok (i' & Hi' & Hb & Hci)]; [by rewrite lookup_app_l|].
      split; [done|]. exists i'. split; [done|]. split; [done|].
      rewrite Hc, decide_False, app_nil_r; [done|]. intros ->. by destruct (Hown j Hlt); rewrite Hi.
    + rewrite lookup_app_r in Hj by lia. apply list_lookup_singleton_Some in Hj as [Hj <-].
      assert (j = length init) as -> by lia.
      destruct (Hf (length init) last) as [(Hlen & Hrs & _) (i' & Hi' & Hb & Hci)]; [by rewrite lookup_app_r, Nat.sub_diag|].
      assert (i' = i) as -> by congruence. split; [done|]. exists i. split; [done|]. split; [done|].
      rewrite Hc, decide_True, Hci by done. unfold disk_bytes, file_of. cbn. by rewrite <- !app_assoc.
Qed.

(** C38. A log that is opened after a crash appends behind the torn event instead of over it.  When
    the crash stopped inside the data of an event, its size field covers the bytes that come next:
    an event that the next start writes and flushes, and that is shorter than what is missing, can
    be loaded until the process ends, and is not found by the start after that. *)
Theorem torn_tail_swallows (fs : Fs) (path : string) (backup : option string) (size ttl : Z) (dflt : bytes)
  (init : list DiskFile) (last : DiskFile) (r : Stored) (d q : bytes) (e : EventWeakData) (raw : EventHeaderRaw)
  (Hdisk : on_disk fs path (init ++ [last])) (Hcf : collision_free (init ++ [last]))
  (Hown : ∀ j, (j < length init)%nat →
    fs_names fs !! log_name path (Z.of_nat j) ≠ fs_names fs !! log_name path (Z.of_nat (length init)))
  (Hr : rec_ok r) (Hdata : rc_data r = Some d) (Htorn : enc_rec r = df_torn last ++ q) (Hin : (length q ≤ length d)%nat)
  (He : local_storable e) (Hraw : EventWeakData.as_header_raw e = Ok raw)
  (Hshort : (length (enc_rec (stored_of e raw)) < length q)%nat)
  (Hnew : ∀ r' e', r' ∈ all_recs (init ++ [last]) → ~ records (raw_event_hash raw) e' r') :
  let h := raw_event_hash raw in
  ∃ l fs1 evts l1 fs2 l2 l3 fs3 evts3 l4,
    new (C := C) false false path backup None false size ttl dflt fs = (Ok l, fs1)
    ∧ read_all (fs1, l) = (Ok evts, (fs1, l1))
    ∧ run_ops [LogWrite e; LogFlush] (fs1, l1) = (Ok (), (fs2, l2))
    ∧ (∃ d s, load h (fs2, l2) = (Ok d, s) ∧ loaded h (forget_event e) d)
    ∧ new (C := C) false false path backup None false size ttl dflt fs2 = (Ok l3, fs3)
    ∧ read_all (fs3, l3) = (Ok evts3, (fs3, l4))
    ∧ ∃ s, load h (fs3, l4) = (Err (NotFoundByHash h), s).
Proof.
  intros h. destruct (recover (C := C) fs path (init ++ [last]) backup size ttl dflt Hdisk Hcf)
    as (l & evts & fs1 & l1 & E1 & R1 & Hsame & _ & Hinv1 & Hc1 & Hw1 & Hi1).
  destruct (append_flush fs1 l1 e raw Hinv1 He Hraw) as (fs2 & l2 & E2 & Hinv2 & Hn2 & Hx2 & Hcont & Hc2).
  { destruct (local_contents fs1 l1 (raw_event_hash raw)) as [e'|] eqn:Hc; [|done].
    apply Hc1 in Hc as (r' & Hr' & Hrec). by destruct (Hnew r' e' Hr'). }
  destruct (on_disk_same _ _ _ _ Hsame Hdisk) as [Hdisk1 _].
  set (last' := {| df_header := df_header last; df_recs := df_recs last;
                   df_torn := df_torn last ++ enc_rec (stored_of e raw) |}).
  assert (all_recs (init ++ [last']) = all_recs (init ++ [last])) as Hall
    by (unfold all_recs; by rewrite !fmap_app).
  assert (on_disk fs2 path (init ++ [last'])) as Hdisk2.
  { eapply (grown_disk fs1 fs2 path init last); try done.
    - by rewrite length_app, Nat.add_sub in Hi1.
    - intros j Hj. destruct Hsame as (-> & _). by apply Hown.
    - intros i. rewrite Hcont. unfold visible. rewrite Hw1. by case_decide; rewrite app_nil_r.
    - by eapply torn_grows. }
  destruct (recover (C := C) fs2 path (init ++ [last']) backup size ttl dflt Hdisk2)
    as (l3 & evts3 & fs3 & l4 & E3 & R3 & _ & _ & Hinv3 & Hc3 & _).
  { unfold collision_free. by rewrite Hall. }
  exists l, fs1, evts, l1, fs2, l2, l3, fs3, evts3, l4. do 3 (split; [done|]). split.
  { destruct (local_load_ok fs2 l2 h _ Hinv2 Hc2) as (d' & l' & E & Hl & _). by exists d', (fs2, l'). }
  do 2 (split; [done|]). destruct (local_contents fs3 l4 h) as [e'|] eqn:Hc.
  - apply Hc3 in Hc as (r' & Hr' & Hrec). rewrite Hall in Hr'. by destruct (Hnew r' e' Hr').
  - destruct (local_load_missing fs3 l4 h Hinv3 Hc) as (l' & E & _). by exists (fs3, l').
Qed.

End life.

(** ** Witnesses *)

#[local] Existing Instance toy_prims.
#[local] Existing Instance toy_serializer.
#[local] Existing Instance buffered_8k.

(** A cache that keeps everything it is given. *)
#[local] Program Instance map_cache : TimedSizedCache (gmap AteHash LoadData) := {
  cache_new _ _ := ∅;
  cache_capacity _ := 0;
  cache_lifespan _ := 0;
  cache_get k c := (c !! k, c);
  cache_set k v c := <[k := v]> c;
  cache_remove k c := (c !! k, delete k c);
  cache_holds c k v := c !! k = Some v;
}.
Next Obligation. simpl. intros size ttl k v. by rewrite lookup_empty. Qed.
Next Obligation. done. Qed.
Next Obligation. done. Qed.
Next Obligation.
  simpl. intros k v c k' v' [[<- <-]|[_ ?]]%lookup_insert_Some; auto.
Qed.
Next Obligation. done. Qed.
Next Obligation. simpl. by intros k c k' v [_ ?]%lookup_delete_Some. Qed.

(** The files in the order of a finite map. *)
#[local] Program Instance map_order : ArchiveOrder := { values_of m := (map_to_list m).*2 }.
Next Obligation. done. Qed.

Definition empty_fs : Fs := {| fs_names := ∅; fs_inodes := ∅; fs_next := 0 |}.

Definition sample_U (h : AteHash) : EventWeakData :=
  default (sample_event 0) (sample_universe h).

Definition sample_ops : list LogOp :=
  [LogWrite (sample_event 1); LogFlush; LogRotate [x07]; LogWrite (sample_event 2);
   LogLoad (sample_hash 1); LogFlush; LogWrite (sample_event 3)].

Lemma sample_write_ok n : n ∈ [1; 2; 3] → life_ok sample_U (LogWrite (sample_event n)).
Proof.
  rewrite !elem_of_cons, elem_of_nil. intros [->|[->|[->|[]]]];
    (split; [split; [by split|intros raw [= <-]; reflexivity]|]);
    eexists; (split; [reflexivity|]); vm_compute; reflexivity.
Qed.

Lemma crash_recovers_witness :
  ∃ l fs0 fs1 l1 l2 fs2 l3 evts d s,
    new (C := gmap AteHash LoadData) false false "log" None None false 10 10 [x01] empty_fs
      = (Ok l, fs0)
    ∧ run_ops sample_ops (fs0, l) = (Ok (), (fs1, l1))
    ∧ new (C := gmap AteHash LoadData) false false "log" None None false 10 10 [x02] fs1
      = (Ok l2, fs2)
    ∧ read_all (fs2, l2) = (Ok evts, (fs2, l3))
    ∧ load (sample_hash 2) (fs2, l3) = (Ok d, s)
    ∧ raw_event_hash (ld_header d) = sample_hash 2.
Proof.
  destruct (crash_recovers (C := gmap AteHash LoadData) sample_U empty_fs "log" None 10 10 [x01]
    [x02] sample_ops) as (l & fs0 & fs1 & l1 & l2 & evts & fs2 & l3 & E0 & E1 & E2 & E3 & Hd & _).
  - intros k. apply lookup_empty.
  - unfold u32_max. simpl. lia.
  - unfold sample_ops. rewrite !Forall_cons. split_and!; try done;
      try (apply sample_write_ok; set_solver).
  - destruct (Hd (sample_hash 2)) as (d & s & El & Hl).
    + apply (bool_decide_unpack _). vm_compute. exact I.
    + exists l, fs0, fs1, l1, l2, fs2, l3, evts, d, s. do 5 (split; [done|]). apply Hl.
Defined.

(** A file that holds the first sample event and the start of a second one. *)
Definition sample_stored (n : Z) (size : nat) : Stored :=
  match EventWeakData.as_header_raw (sample_event n) with
  | Ok raw => {| rc_meta := raw_meta_bytes raw; rc_data := Some (replicate size x2a);
                 rc_format := json_format |}
  | Err _ => {| rc_meta := []; rc_data := None; rc_format := json_format |}
  end.

Definition torn_file (n : nat) (whole : list Stored) : DiskFile :=
  {| df_header := [x01]; df_recs := whole; df_torn := take n (enc_rec (sample_stored 2 90)) |}.

Definition one_file_fs (f : DiskFile) : Fs :=
  {| fs_names := {[log_name "log" 0 := 0%nat]}; fs_inodes := {[0%nat := disk_bytes f]};
     fs_next := 1 |}.

Lemma one_file_disk f : disk_ok f → on_disk (one_file_fs f) "log" [f].
Proof.
  intros Hok. split; [done| |].
  - intros k Hk. simpl in *. apply lookup_singleton_ne. apply log_name_ne; [lia|lia|right; lia].
  - intros j g [-> <-]%list_lookup_singleton_Some. split; [done|]. exists 0%nat.
    split; [apply lookup_singleton_eq|]. split; [simpl; lia|done].
Qed.

Lemma read_all_in_order_witness :
  ∃ l fs' l', new (C := gmap AteHash LoadData) false false "log" None None false 10 10 []
      (one_file_fs (torn_file 9 [sample_stored 1 5])) = (Ok l, fs')
    ∧ read_all (fs', l) = (Ok (loads 0 9 [sample_stored 1 5]), (fs', l'))
    ∧ length (loads 0 9 [sample_stored 1 5]) = 1%nat.
Proof.
  destruct (read_all_in_order (C := gmap AteHash LoadData)
    (one_file_fs (torn_file 9 [sample_stored 1 5])) "log" (torn_file 9 [sample_stored 1 5])
    None 10 10 []) as (l & fs' & l' & E & R).
  - apply one_file_disk. split; [unfold u32_max; simpl; lia|]. split.
    + apply Forall_singleton. by split.
    + exists (sample_stored 2 90), (drop 9 (enc_rec (sample_stored 2 90))).
      split; [by split|]. split; [symmetry; apply take_drop|]. by vm_compute.
  - intros h e1 e2 r1 r2. unfold all_recs. cbn. rewrite !list_elem_of_singleton.
    intros -> -> Hr1 Hr2. by destruct (records_fun _ _ _ _ _ Hr1 Hr2).
  - exists l, fs', l'. split; [done|]. split; [done|]. vm_compute. reflexivity.
Defined.

(** The third sample event is shorter than what is missing of the torn one. *)
Lemma torn_tail_swallows_witness :
  ∃ l fs1 evts l1 fs2 l2 l3 fs3 evts3 l4 s,
    new (C := gmap AteHash LoadData) false false "log" None None false 10 10 [] (one_file_fs (torn_file 60 [])) = (Ok l, fs1)
    ∧ read_all (fs1, l) = (Ok evts, (fs1, l1))
    ∧ run_ops [LogWrite (sample_event 3); LogFlush] (fs1, l1) = (Ok (), (fs2, l2))
    ∧ new (C := gmap AteHash LoadData) false false "log" None None false 10 10 [] fs2 = (Ok l3, fs3)
    ∧ read_all (fs3, l3) = (Ok evts3, (fs3, l4))
    ∧ load (sample_hash 3) (fs3, l4) = (Err (NotFoundByHash (sample_hash 3)), s).
Proof.
  destruct (sample_write_ok 3) as (He & raw & Hraw & _); [set_solver|].
  assert (raw_event_hash raw = sample_hash 3) as Hh by (injection Hraw as <-; by vm_compute).
  destruct (torn_tail_swallows (C := gmap AteHash LoadData) (one_file_fs (torn_file 60 [])) "log" None 10 10 []
    [] (torn_file 60 []) (sample_stored 2 90) (replicate 90 x2a) (drop 60 (enc_rec (sample_stored 2 90)))
    (sample_event 3) raw) as (l & fs1 & evts & l1 & fs2 & l2 & l3 & fs3 & evts3 & l4 & E1 & R1 & E2 & _ & E3 & R3 & s & E4).
  - apply one_file_disk. split; [unfold u32_max; simpl; lia|]. split; [constructor|].
    exists (sample_stored 2 90), (drop 60 (enc_rec (sample_stored 2 90))).
    split; [by split|]. split; [symmetry; apply take_drop|]. by vm_compute.
  - intros h e1 e2 r1 r2 []%elem_of_nil.
  - intros j Hj. cbn in Hj. lia.
  - by split.
  - reflexivity.
  - symmetry. apply take_drop.
  - apply (bool_decide_unpack _). by vm_compute.
  - exact He.
  - exact Hraw.
  - injection Hraw as <-. apply (bool_decide_unpack _). by vm_compute.
  - intros r' e' []%elem_of_nil.
  - rewrite Hh in E4. exists l, fs1, evts, l1, fs2, l2, l3, fs3, evts3, l4, s. repeat (split; [assumption|]). assumption.
Defined.
