(* ===== verification/Signature.v ===== *)
(** * Signatures

    lib/src/signature.rs and the conversation of lib/src/transaction.rs: the plugin
    that collects public keys and verified signatures from the events of a chain, and
    that signs the events of a transaction. *)

From S2P Require Import Prelude LogApi Crypto Codec Secure Meta Time Event.

(** ** State *)

(** [ConversationSession], which its users share: what the code changes behind the
    [Arc] is threaded as state. *)
Record ConversationSession : Type := {
  cv_id : option AteHash;
  cv_weaken_validation : bool;
  cv_signatures : gset AteHash;
}.

Module ConversationSession.
Definition default : ConversationSession :=
  {| cv_id := None; cv_weaken_validation := false; cv_signatures := ∅ |}.

Definition clear (c : ConversationSession) : ConversationSession :=
  {| cv_id := None; cv_weaken_validation := cv_weaken_validation c; cv_signatures := ∅ |}.

Definition sign (c : ConversationSession) (h : AteHash) : ConversationSession :=
  {| cv_id := cv_id c; cv_weaken_validation := cv_weaken_validation c;
     cv_signatures := cv_signatures c ∪ {[h]} |}.
End ConversationSession.

Inductive SinkErrorKind : Type :=
  | MissingPublicKey (h : AteHash)
  | InvalidSignature (h : AteHash) (decodes : bool).

(** [TrustDiverged] is not an error of the code: it marks a bounded model of a loop that
    ran out of its bound. *)
Inductive TrustErrorKind : Type :=
  | NoAuthorizationWrite (type_code : string) (k : PrimaryKey) (w : WriteOption)
  | NoAuthorizationOrphan
  | NoAuthorizationRead (type_code : string) (k : PrimaryKey) (r : ReadOption)
  | OwnedByNobody (type_code : string)
  | MissingParent (k : PrimaryKey)
  | UnspecifiedWritability
  | TrustTime (e : TimeErrorKind)
  | TrustDiverged.

Inductive LintErrorKind : Type :=
  | MissingWriteKey (h : AteHash)
  | LintIO (e : IoErrorKind)
  | LintTrust (e : TrustErrorKind)
  | LintTime (e : TimeErrorKind).

(** [MultiMap::insert]. *)
Definition multi_insert (k v : AteHash) (m : gmap AteHash (list AteHash))
    : gmap AteHash (list AteHash) :=
  <[k := default [] (m !! k) ++ [v]]> m.

Record SignaturePlugin : Type := {
  sp_pk : gmap AteHash PublicSignKey;
  sp_sigs : gmap AteHash (list AteHash);
  sp_integrity : TrustMode;
}.

(** What the plugins use of a session ([AteSession]): its keys of all categories. *)
Record AteSession : Type := {
  ss_identity : string;
  ss_write_keys : list PrivateSignKey;
  ss_read_keys : list EncryptKey;
  ss_private_read_keys : list PrivateEncryptKey;
}.

(** [LintData]. *)
Record LintData : Type := { li_data : EventWeakData; li_header : EventHeader }.

(** ** Sorting hashes *)

(** The derived order on [AteHash]: the bytes, lexicographically. *)
Fixpoint bytes_leb (xs ys : bytes) : bool :=
  match xs, ys with
  | [], _ => true
  | _ :: _, [] => false
  | x :: xs, y :: ys =>
      bool_decide (Z_of_byte x < Z_of_byte y)
      || (bool_decide (Z_of_byte x = Z_of_byte y) && bytes_leb xs ys)
  end.

Fixpoint insert_hash (h : AteHash) (l : list AteHash) : list AteHash :=
  match l with
  | [] => [h]
  | h' :: l' => if bytes_leb (hash_val h) (hash_val h') then h :: l else h' :: insert_hash h l'
  end.

(** [auths.sort(); auths.dedup();]. *)
Definition sort_hashes (l : list AteHash) : list AteHash := foldr insert_hash [] l.

Fixpoint dedup (l : list AteHash) : list AteHash :=
  match l with
  | [] => []
  | h :: l' => match l' with
               | h' :: _ => if decide (h = h') then dedup l' else h :: dedup l'
               | [] => [h]
               end
  end.

Module SignaturePlugin.
Section ops.
Context `{CryptoPrims}.

Definition new : SignaturePlugin :=
  {| sp_pk := ∅; sp_sigs := ∅; sp_integrity := Distributed |}.

Definition get_verified_signatures (p : SignaturePlugin) (data_hash : AteHash)
    : option (list AteHash) := sp_sigs p !! data_hash.

Definition has_public_key (p : SignaturePlugin) (h : AteHash) : bool :=
  bool_decide (is_Some (sp_pk p !! h)).

Definition with_pk (p : SignaturePlugin) (pk : gmap AteHash PublicSignKey) : SignaturePlugin :=
  {| sp_pk := pk; sp_sigs := sp_sigs p; sp_integrity := sp_integrity p |}.

Definition with_sigs (p : SignaturePlugin) (sigs : gmap AteHash (list AteHash)) : SignaturePlugin :=
  {| sp_pk := sp_pk p; sp_sigs := sigs; sp_integrity := sp_integrity p |}.

Definition set_integrity_mode (mode : TrustMode) (p : SignaturePlugin) : SignaturePlugin :=
  {| sp_pk := sp_pk p; sp_sigs := sp_sigs p; sp_integrity := mode |}.

Definition reset (p : SignaturePlugin) : SignaturePlugin :=
  {| sp_pk := ∅; sp_sigs := ∅; sp_integrity := sp_integrity p |}.

(** The first loop of [feed]: public keys. *)
Definition feed_key (p : SignaturePlugin) (m : CoreMetadata) : SignaturePlugin :=
  match m with
  | CorePublicKey pk => with_pk p (<[PublicSignKey.hash pk := pk]> (sp_pk p))
  | _ => p
  end.

Definition hash_of_hashes (hashes : list AteHash) : AteHash :=
  AteHash.from_bytes (mjoin (hash_val <$> hashes)).

(** Does this node verify signatures, or does it leave that to the server? *)
Definition verifies (mode : TrustMode) : bool :=
  match mode with
  | Distributed | Centralized Server => true
  | Centralized Client => false
  end.

Definition check_signature (p : SignaturePlugin) (sig : MetaSignature)
    : result SinkErrorKind unit :=
  if verifies (sp_integrity p) then
    match sp_pk p !! sig_public_key_hash sig with
    | None => Err (MissingPublicKey (sig_public_key_hash sig))
    | Some pk =>
        match PublicSignKey.verify pk (hash_val (hash_of_hashes (sig_hashes sig)))
                (sig_signature sig) with
        | None => Err (InvalidSignature (sig_public_key_hash sig) false)
        | Some false => Err (InvalidSignature (sig_public_key_hash sig) true)
        | Some true => Ok ()
        end
    end
  else Ok ().

Definition record_signature (p : SignaturePlugin) (sig : MetaSignature) : SignaturePlugin :=
  with_sigs p (foldl (λ m h, multi_insert h (sig_public_key_hash sig) m) (sp_sigs p)
                 (sig_hashes sig)).

Definition note_conversation (p : SignaturePlugin) (sig : MetaSignature)
    (conv : option ConversationSession) : option ConversationSession :=
  if TrustMode.is_centralized (sp_integrity p) then
    match conv with
    | Some c =>
        match cv_id c with
        | Some id => if bool_decide (id ∈ sig_hashes sig)
                     then Some (ConversationSession.sign c (sig_public_key_hash sig))
                     else conv
        | None => conv
        end
    | None => conv
    end
  else conv.

(** The second loop of [feed]: signatures. *)
Fixpoint feed_sigs (core : list CoreMetadata)
    : st (SignaturePlugin * option ConversationSession) SinkErrorKind unit :=
  match core with
  | [] => mret ()
  | CoreSignature sig :: rest => st_mk (λ '(p, conv),
      match check_signature p sig with
      | Err e => (Err e, (p, conv))
      | Ok _ => feed_sigs rest (record_signature p sig, note_conversation p sig conv)
      end)
  | _ :: rest => feed_sigs rest
  end.

Definition feed (header : EventHeader)
    : st (SignaturePlugin * option ConversationSession) SinkErrorKind unit :=
  st_mk (λ '(p, conv),
    let core := meta_core (eh_meta header) in
    feed_sigs core (foldl feed_key p core, conv)).

(** [EventPlugin::rebuild]: an event that does not feed is passed over. *)
Definition rebuild (headers : list EventHeader)
    (s : SignaturePlugin * option ConversationSession)
    : SignaturePlugin * option ConversationSession :=
  foldl (λ s header, (feed header s).2) (reset (fst s), snd s) headers.

(** The hashes of the events that name [auth], after the conversation. *)
Definition signed_hashes (p : SignaturePlugin) (raw : list LintData)
    (conv : option ConversationSession) (auth : AteHash) : list AteHash :=
  (if TrustMode.is_centralized (sp_integrity p)
   then match conv with Some c => option_list (cv_id c) | None => [] end
   else [])
  ++ omap (λ e, match Metadata.get_sign_with (ew_meta (li_data e)) with
       | Some a => if bool_decide (auth ∈ sw_keys a)
                   then Some (raw_event_hash (eh_raw (li_header e))) else None
       | None => None
       end) raw.

(** One turn of the loop over the keys. *)
Definition sign_one (p : SignaturePlugin) (raw : list LintData) (session : AteSession)
    (conv : option ConversationSession) (auth : AteHash)
    : result LintErrorKind (list CoreMetadata) :=
  match List.find (λ k, bool_decide (PrivateSignKey.hash k = auth)) (ss_write_keys session) with
  | None => Err (MissingWriteKey auth)
  | Some sk =>
      let data_hashes := signed_hashes p raw conv auth in
      sig ← map_err LintIO (PrivateSignKey.sign sk (hash_val (hash_of_hashes data_hashes)));
      Ok ((if negb (has_public_key p auth) || TrustMode.is_centralized (sp_integrity p)
           then [CorePublicKey (PrivateSignKey.as_public_key sk)] else [])
          ++ [CoreSignature {| sig_hashes := data_hashes; sig_signature := sig;
                               sig_public_key_hash := auth |}])
  end.

Fixpoint sign_all (p : SignaturePlugin) (raw : list LintData) (session : AteSession)
    (auths : list AteHash) : st (option ConversationSession) LintErrorKind (list CoreMetadata) :=
  match auths with
  | [] => mret []
  | auth :: auths => st_mk (λ conv,
      match sign_one p raw session conv auth with
      | Err e => (Err e, conv)
      | Ok ms =>
          let conv := if TrustMode.is_centralized (sp_integrity p)
                      then (λ c, ConversationSession.sign c auth) <$> conv else conv in
          (rest ← sign_all p raw session auths; mret (ms ++ rest)) conv
      end)
  end.

(** The keys the events ask to be signed with. *)
Definition wanted_keys (raw : list LintData) : list AteHash :=
  dedup (sort_hashes (mjoin (omap (λ e, sw_keys <$> Metadata.get_sign_with (ew_meta (li_data e))) raw))).

Definition metadata_lint_many (p : SignaturePlugin) (raw : list LintData) (session : AteSession)
    : st (option ConversationSession) LintErrorKind (list CoreMetadata) :=
  match raw with
  | [] => mret []
  | _ => st_mk (λ conv,
      let auths := wanted_keys raw in
      let auths := if TrustMode.is_centralized (sp_integrity p)
                   then match conv with
                        | Some c => List.filter (λ h, negb (bool_decide (h ∈ cv_signatures c))) auths
                        | None => auths
                        end
                   else auths in
      sign_all p raw session auths conv)
  end.
End ops.
End SignaturePlugin.

(** ** What a recorded signature vouches for *)

Section theorems.
Context `{CryptoPrims}.
Implicit Types (p : SignaturePlugin) (fed core : list CoreMetadata).

(** Some signature of [fed] covers [h] under the key [auth], and verifies with the
    public key of that hash, which [fed] also holds. *)
Definition vouched fed (h auth : AteHash) : Prop :=
  ∃ sig pk, CoreSignature sig ∈ fed ∧ CorePublicKey pk ∈ fed
    ∧ h ∈ sig_hashes sig ∧ sig_public_key_hash sig = auth ∧ PublicSignKey.hash pk = auth
    ∧ PublicSignKey.verify pk (hash_val (SignaturePlugin.hash_of_hashes (sig_hashes sig)))
        (sig_signature sig) = Some true.

Definition keys_from fed p : Prop :=
  ∀ h pk, sp_pk p !! h = Some pk → CorePublicKey pk ∈ fed ∧ PublicSignKey.hash pk = h.

Definition sigs_from fed p : Prop :=
  ∀ h sigs auth, sp_sigs p !! h = Some sigs → auth ∈ sigs → vouched fed h auth.

Lemma vouched_mono fed fed' h auth : fed ⊆ fed' → vouched fed h auth → vouched fed' h auth.
Proof. intros Hsub (sig & pk & ? & ? & ?). exists sig, pk. set_solver. Qed.

Lemma elem_of_multi_insert k v m h x sigs :
  multi_insert k v m !! h = Some sigs → x ∈ sigs →
  (h = k ∧ x = v) ∨ ∃ old, m !! h = Some old ∧ x ∈ old.
Proof.
  unfold multi_insert. intros [[<- <-]|[Hne Hm]]%lookup_insert_Some Hx; [|by eauto].
  apply elem_of_app in Hx as [Hx|Hx%list_elem_of_singleton]; [|by left].
  right. destruct (m !! k) as [old|]; [by eauto | by apply elem_of_nil in Hx].
Qed.

Lemma elem_of_record_fold v hs m h x sigs :
  foldl (λ m h, multi_insert h v m) m hs !! h = Some sigs → x ∈ sigs →
  (h ∈ hs ∧ x = v) ∨ ∃ old, m !! h = Some old ∧ x ∈ old.
Proof.
  revert m. induction hs as [|k hs IH]; intros m; simpl; [by eauto|].
  intros Hl Hx. destruct (IH _ Hl Hx) as [[??]|(old & Ho & Hi)]; [left; by split; [right|]|].
  destruct (elem_of_multi_insert _ _ _ _ _ _ Ho Hi) as [[-> ->]|]; [|by auto].
  left. split; [left|done].
Qed.

Lemma feed_keys_from fed core p : core ⊆ fed → keys_from fed p →
  keys_from fed (foldl SignaturePlugin.feed_key p core).
Proof.
  revert p. induction core as [|m core IH]; intros p Hsub Hp; [done|]. simpl.
  apply IH; [set_solver|]. destruct m; try done. intros h k. simpl.
  intros [[<- <-]|[_ ?]]%lookup_insert_Some; [set_solver|by apply Hp].
Qed.

Lemma feed_keys_rest core p :
  sp_sigs (foldl SignaturePlugin.feed_key p core) = sp_sigs p
  ∧ sp_integrity (foldl SignaturePlugin.feed_key p core) = sp_integrity p.
Proof.
  revert p. induction core as [|m core IH]; intros p; [done|]. simpl.
  destruct (IH (SignaturePlugin.feed_key p m)) as [-> ->]. by destruct m.
Qed.

Lemma check_signature_Ok p sig :
  SignaturePlugin.verifies (sp_integrity p) = true →
  SignaturePlugin.check_signature p sig = Ok () ↔
  ∃ pk, sp_pk p !! sig_public_key_hash sig = Some pk
    ∧ PublicSignKey.verify pk (hash_val (SignaturePlugin.hash_of_hashes (sig_hashes sig)))
        (sig_signature sig) = Some true.
Proof.
  intros Hv. unfold SignaturePlugin.check_signature. rewrite Hv.
  destruct (sp_pk p !! _) as [pk|]; [|naive_solver].
  destruct (PublicSignKey.verify pk _ _) as [[]|] eqn:E; naive_solver.
Qed.

Lemma record_signature_from fed p sig pk :
  keys_from fed p → sigs_from fed p → CoreSignature sig ∈ fed →
  sp_pk p !! sig_public_key_hash sig = Some pk →
  PublicSignKey.verify pk (hash_val (SignaturePlugin.hash_of_hashes (sig_hashes sig)))
    (sig_signature sig) = Some true →
  sigs_from fed (SignaturePlugin.record_signature p sig).
Proof.
  intros Hk Hs Hin Hpk Hv h sigs auth Hl Ha.
  destruct (elem_of_record_fold _ _ _ _ _ _ Hl Ha) as [[? ->]|(old & Ho & ?)]; [|by eapply Hs].
  destruct (Hk _ _ Hpk) as [??]. by exists sig, pk.
Qed.

(** Every key a conversation holds as proven signed the conversation's identifier. *)
Definition conv_from fed (conv : option ConversationSession) : Prop :=
  ∀ c auth, conv = Some c → auth ∈ cv_signatures c →
    ∃ id, cv_id c = Some id ∧ vouched fed id auth.

Lemma note_conversation_from fed p sig pk conv :
  keys_from fed p → conv_from fed conv → CoreSignature sig ∈ fed →
  sp_pk p !! sig_public_key_hash sig = Some pk →
  PublicSignKey.verify pk (hash_val (SignaturePlugin.hash_of_hashes (sig_hashes sig)))
    (sig_signature sig) = Some true →
  conv_from fed (SignaturePlugin.note_conversation p sig conv).
Proof.
  intros Hk Hc Hin Hpk Hv. unfold SignaturePlugin.note_conversation.
  destruct (TrustMode.is_centralized _); [|done].
  destruct conv as [c|]; [|done]. destruct (cv_id c) as [id|] eqn:Hid; [|done].
  case_bool_decide as Hh; [|done]. intros c' auth [= <-]. cbn. rewrite Hid.
  intros [Ha|Ha]%elem_of_union; [rewrite <-Hid; by apply (Hc c)|].
  apply elem_of_singleton in Ha as ->. exists id. split; [done|].
  destruct (Hk _ _ Hpk) as [??]. by exists sig, pk.
Qed.

(** What a verifying plugin and its conversation know comes from [fed]. *)
Record sound fed (s : SignaturePlugin * option ConversationSession) : Prop := {
  sound_mode : SignaturePlugin.verifies (sp_integrity s.1) = true;
  sound_keys : keys_from fed s.1;
  sound_sigs : sigs_from fed s.1;
  sound_conv : conv_from fed s.2;
}.

Lemma feed_sigs_sound fed core s r s' :
  core ⊆ fed → sound fed s → SignaturePlugin.feed_sigs core s = (r, s') → sound fed s'.
Proof.
  revert s. induction core as [|m core IH]; intros [p conv] Hsub Hs.
  { cbn. by intros [= _ <-]. }
  assert (core ⊆ fed) by set_solver.
  destruct m; cbn [SignaturePlugin.feed_sigs]; try by apply IH.
  unfold st_mk. destruct Hs as [Hv Hk Hsig Hc]. cbn in Hv, Hk, Hsig, Hc.
  destruct (SignaturePlugin.check_signature p sig) as [[]|e] eqn:E; [|by intros [= _ <-]].
  apply (check_signature_Ok _ _ Hv) in E as (pk & ? & ?).
  assert (CoreSignature sig ∈ fed) by (apply Hsub; left).
  apply IH; [done|]. split; cbn; [done..| |].
  - by eapply record_signature_from.
  - by eapply note_conversation_from.
Qed.

Lemma feed_sound fed header s r s' :
  meta_core (eh_meta header) ⊆ fed → sound fed s →
  SignaturePlugin.feed header s = (r, s') → sound fed s'.
Proof.
  destruct s as [p conv]. intros Hsub [Hv Hk Hs Hc].
  destruct (feed_keys_rest (meta_core (eh_meta header)) p) as [Es Ei].
  unfold SignaturePlugin.feed, st_mk. apply feed_sigs_sound; [done|].
  split; cbn in *; [by rewrite Ei | by apply feed_keys_from | | done].
  intros h. rewrite Es. apply Hs.
Qed.

(** The entries of a list of events. *)
Definition fed_by (headers : list EventHeader) : list CoreMetadata :=
  headers ≫= λ header, meta_core (eh_meta header).

Lemma feed_all_sound {S : Type} fed (step : S → EventHeader → S)
    (proj : S → SignaturePlugin * option ConversationSession) headers (s : S) :
  (∀ s header, proj (step s header) = (SignaturePlugin.feed header (proj s)).2) →
  fed_by headers ⊆ fed → sound fed (proj s) → sound fed (proj (foldl step s headers)).
Proof.
  intros Hproj. revert s. induction headers as [|hd hs IH]; intros s Hsub Hs; [done|].
  cbn in Hsub. apply list_subseteq_app_iff_l in Hsub as [Hhd Htl]. cbn [foldl].
  apply IH; [done|]. rewrite Hproj.
  destruct (SignaturePlugin.feed hd (proj s)) as [r s'] eqn:E. by eapply feed_sound.
Qed.

Lemma reset_sound fed p conv :
  SignaturePlugin.verifies (sp_integrity p) = true → conv_from fed conv →
  sound fed (SignaturePlugin.reset p, conv).
Proof. by split. Qed.

Lemma rebuild_sound headers p conv :
  SignaturePlugin.verifies (sp_integrity p) = true → conv_from (fed_by headers) conv →
  sound (fed_by headers) (SignaturePlugin.rebuild headers (p, conv)).
Proof.
  intros Hv Hc. unfold SignaturePlugin.rebuild.
  apply (feed_all_sound _ _ (λ s, s)); [done..|]. by apply reset_sound.
Qed.

Lemma conv_from_empty fed conv :
  (∀ c, conv = Some c → cv_signatures c = ∅) → conv_from fed conv.
Proof. intros He c auth Hc. rewrite (He c Hc). set_solver. Qed.

(** C34. A node that verifies signatures (in distributed trust, or the server under
    centralized trust) never records a signature it did not check: after rebuilding
    from any list of event headers, whatever the plugin held before, a key listed as
    having signed an event hash comes from a signature in those headers that covers
    the hash and that verifies under a public key in those headers with that key's
    hash; and a key the conversation holds as proven signed the conversation's identifier
    in the same way, when the conversation began with none.  Events that fail to feed
    contribute nothing else. *)
Theorem verified_signatures_sound (headers : list EventHeader) (p : SignaturePlugin)
  (conv : option ConversationSession)
  (Hv : SignaturePlugin.verifies (sp_integrity p) = true)
  (Hconv : ∀ c, conv = Some c → cv_signatures c = ∅) :
  let s := SignaturePlugin.rebuild headers (p, conv) in
  (∀ h auth sigs, SignaturePlugin.get_verified_signatures s.1 h = Some sigs → auth ∈ sigs →
     vouched (fed_by headers) h auth)
  ∧ (∀ c auth, s.2 = Some c → auth ∈ cv_signatures c →
       ∃ id, cv_id c = Some id ∧ vouched (fed_by headers) id auth).
Proof.
  intros s. destruct (rebuild_sound headers p conv Hv) as [_ _ Hs Hc]; [by apply conv_from_empty|].
  split; [|exact Hc]. intros h auth sigs. apply Hs.
Qed.

(** ** Feeding signatures that verify *)

Definition has_signature p (h auth : AteHash) : Prop :=
  auth ∈ default [] (SignaturePlugin.get_verified_signatures p h).

Lemma multi_insert_has k v m h x : x ∈ default [] (m !! h) →
  x ∈ default [] (multi_insert k v m !! h).
Proof.
  unfold multi_insert. destruct (decide (h = k)) as [->|Hne].
  - rewrite lookup_insert_eq. simpl. set_solver.
  - by rewrite lookup_insert_ne.
Qed.

Lemma record_fold_has v hs m h :
  (∀ x, x ∈ default [] (m !! h) → x ∈ default [] (foldl (λ m h, multi_insert h v m) m hs !! h))
  ∧ (h ∈ hs → v ∈ default [] (foldl (λ m h, multi_insert h v m) m hs !! h)).
Proof.
  revert m. induction hs as [|k hs IH]; intros m; simpl.
  { split; [done | by intros ?%elem_of_nil]. }
  destruct (IH (multi_insert k v m)) as [IH1 IH2]. split.
  - intros x Hx. by apply IH1, multi_insert_has.
  - intros [->|?]%elem_of_cons; [|by apply IH2]. apply IH1. unfold multi_insert.
    rewrite lookup_insert_eq. simpl. set_solver.
Qed.

Lemma feed_sigs_all core p conv :
  (∀ sig, CoreSignature sig ∈ core → SignaturePlugin.check_signature p sig = Ok ()) →
  ∃ p' conv', SignaturePlugin.feed_sigs core (p, conv) = (Ok (), (p', conv'))
    ∧ (∀ h auth, has_signature p h auth → has_signature p' h auth)
    ∧ (∀ sig h, CoreSignature sig ∈ core → h ∈ sig_hashes sig →
         has_signature p' h (sig_public_key_hash sig)).
Proof.
  revert p conv. induction core as [|m core IH]; intros p conv Hall.
  { exists p, conv. split; [done|]. split; [done|]. by intros ?? ?%elem_of_nil. }
  assert (∀ sig, CoreSignature sig ∈ core → SignaturePlugin.check_signature p sig = Ok ())
    as Hrest by (intros sig ?; apply Hall; by right).
  destruct m; cbn [SignaturePlugin.feed_sigs];
    try (destruct (IH p conv Hrest) as (p' & conv' & E & Hm & Hs); exists p', conv';
         split; [done|]; split; [done|];
         intros sig' h [?|?]%elem_of_cons; [done | by apply Hs]).
  unfold st_mk. rewrite (Hall sig) by left.
  destruct (IH (SignaturePlugin.record_signature p sig)
              (SignaturePlugin.note_conversation p sig conv) Hrest) as (p' & conv' & E & Hm & Hs).
  exists p', conv'. split; [done|]. split.
  - intros h auth Ha. by apply Hm, record_fold_has.
  - intros sig' h [[= ->]|?]%elem_of_cons Hh; [|by apply Hs]. by apply Hm, record_fold_has.
Qed.

(** ** Signing a transaction *)

(** The session key the linter signs for [auth] with. *)
Definition session_key (session : AteSession) (auth : AteHash) : option PrivateSignKey :=
  List.find (λ k, bool_decide (PrivateSignKey.hash k = auth)) (ss_write_keys session).

(** The destination already has proof that this conversation owns [auth]. *)
Definition proven p (conv : option ConversationSession) (auth : AteHash) : bool :=
  TrustMode.is_centralized (sp_integrity p)
  && match conv with Some c => bool_decide (auth ∈ cv_signatures c) | None => false end.

(** The event [e] asks to be signed with [auth]. *)
Definition wants (e : LintData) (auth : AteHash) : Prop :=
  ∃ a, Metadata.get_sign_with (ew_meta (li_data e)) = Some a ∧ auth ∈ sw_keys a.

Lemma session_key_hash session auth sk : session_key session auth = Some sk →
  PublicSignKey.hash (PrivateSignKey.as_public_key sk) = auth ∧ sk ∈ ss_write_keys session.
Proof.
  intros Hf. apply List.find_some in Hf as [Hin Hh%bool_decide_eq_true].
  split; [done|]. by apply list_elem_of_In.
Qed.

Lemma insert_hash_perm h l : insert_hash h l ≡ₚ h :: l.
Proof.
  induction l as [|h' l IH]; simpl; [done|]. case_match; [done|].
  rewrite IH. apply Permutation_swap.
Qed.

Lemma sort_hashes_perm l : sort_hashes l ≡ₚ l.
Proof. induction l as [|h l IH]; simpl; [done|]. by rewrite insert_hash_perm, IH. Qed.

Lemma elem_of_dedup x l : x ∈ dedup l ↔ x ∈ l.
Proof.
  induction l as [|h [|h' l] IH]; simpl; [done..|].
  cbn [dedup] in IH. case_decide as Hd; [subst; rewrite IH; set_solver|].
  rewrite elem_of_cons, IH. set_solver.
Qed.

Lemma elem_of_wanted_keys raw auth :
  auth ∈ SignaturePlugin.wanted_keys raw ↔ ∃ e, e ∈ raw ∧ wants e auth.
Proof.
  unfold SignaturePlugin.wanted_keys, wants. rewrite elem_of_dedup, sort_hashes_perm.
  rewrite list_elem_of_join. setoid_rewrite list_elem_of_omap. split.
  - intros (ks & Ha & e & He & Hk). destruct (Metadata.get_sign_with _) as [a|] eqn:E; [|done].
    simplify_eq/=. by eauto.
  - intros (e & He & a & Hg & Ha). exists (sw_keys a). split; [done|]. exists e. by rewrite Hg.
Qed.

Lemma sign_one_ok p raw session conv auth sk :
  session_key session auth = Some sk → PrivateSignKey.generated sk →
  let hs := SignaturePlugin.signed_hashes p raw conv auth in
  ∃ bs, SignaturePlugin.sign_one p raw session conv auth
    = Ok ((if negb (SignaturePlugin.has_public_key p auth)
              || TrustMode.is_centralized (sp_integrity p)
           then [CorePublicKey (PrivateSignKey.as_public_key sk)] else [])
          ++ [CoreSignature {| sig_hashes := hs; sig_signature := bs;
                               sig_public_key_hash := auth |}])
    ∧ PublicSignKey.verify (PrivateSignKey.as_public_key sk)
        (hash_val (SignaturePlugin.hash_of_hashes hs)) bs = Some true.
Proof.
  intros Hk Hgen hs. unfold SignaturePlugin.sign_one. unfold session_key in Hk. rewrite Hk.
  destruct (sign_verifies sk (hash_val (SignaturePlugin.hash_of_hashes hs)) Hgen)
    as (bs & Hs & Hv).
  exists bs. fold hs. rewrite Hs. done.
Qed.

(** What the linter adds for [auths]: for each of them a signature over its events
    that verifies, and its public key where the plugin does not know it yet. *)
Record lints p raw session conv (auths : list AteHash) (metas : list CoreMetadata) : Prop := {
  lints_keys : ∀ pk, CorePublicKey pk ∈ metas →
    ∃ sk, session_key session (PublicSignKey.hash pk) = Some sk
          ∧ pk = PrivateSignKey.as_public_key sk;
  lints_verify : ∀ sig, CoreSignature sig ∈ metas → sig_public_key_hash sig ∈ auths
    ∧ ∃ sk, session_key session (sig_public_key_hash sig) = Some sk
          ∧ PublicSignKey.verify (PrivateSignKey.as_public_key sk)
              (hash_val (SignaturePlugin.hash_of_hashes (sig_hashes sig)))
              (sig_signature sig) = Some true;
  lints_known : ∀ auth sk, auth ∈ auths → SignaturePlugin.has_public_key p auth = false →
    session_key session auth = Some sk →
    CorePublicKey (PrivateSignKey.as_public_key sk) ∈ metas;
  lints_covers : ∀ auth, auth ∈ auths → ∃ sig, CoreSignature sig ∈ metas
    ∧ sig_public_key_hash sig = auth
    ∧ sig_hashes sig = SignaturePlugin.signed_hashes p raw conv auth;
  lints_only : ∀ m, m ∈ metas → (∃ pk, m = CorePublicKey pk) ∨ ∃ sig, m = CoreSignature sig;
}.

Lemma lints_nil p raw session conv : lints p raw session conv [] [].
Proof. split; by intros ? ?%elem_of_nil || by intros ? ? ?%elem_of_nil. Qed.

Lemma lints_cons p raw session conv auth sk auths ms metas :
  session_key session auth = Some sk → PrivateSignKey.generated sk →
  SignaturePlugin.sign_one p raw session conv auth = Ok ms →
  lints p raw session conv auths metas → lints p raw session conv (auth :: auths) (ms ++ metas).
Proof.
  intros Hk Hgen Hone Hl.
  destruct (sign_one_ok p raw session conv auth sk Hk Hgen) as (bs & Hok & Hv).
  rewrite Hok in Hone. injection Hone as <-.
  destruct (session_key_hash _ _ _ Hk) as [Hh _]. split.
  - intros pk [Hp|Hp]%elem_of_app; [|by eapply lints_keys].
    exists sk. case_match; set_solver.
  - intros sig [Hs|Hs]%elem_of_app.
    + assert (sig = {| sig_hashes := SignaturePlugin.signed_hashes p raw conv auth;
        sig_signature := bs; sig_public_key_hash := auth |}) as -> by (case_match; set_solver).
      split; [left|]. by exists sk.
    + destruct (lints_verify _ _ _ _ _ _ Hl _ Hs) as [??]. split; [by right | done].
  - intros a k [->|Ha]%elem_of_cons Hno Hk'.
    + rewrite Hno. simplify_eq/=. left.
    + apply elem_of_app. right. by eapply lints_known.
  - intros a [->|Ha]%elem_of_cons.
    + eexists. split; [apply elem_of_app; left; apply elem_of_app; right; left|]. done.
    + destruct (lints_covers _ _ _ _ _ _ Hl a Ha) as (sig & ? & ?). exists sig. set_solver.
  - intros m [[Hm|Hm%list_elem_of_singleton]%elem_of_app|Hm]%elem_of_app;
      [|by eauto | by eapply lints_only]. left. case_match; set_solver.
Qed.

Lemma sign_all_ok p raw session auths conv :
  (∀ auth, auth ∈ auths → ∃ sk, session_key session auth = Some sk ∧ PrivateSignKey.generated sk) →
  ∃ metas conv', SignaturePlugin.sign_all p raw session auths conv = (Ok metas, conv')
    ∧ lints p raw session conv auths metas.
Proof.
  revert conv. induction auths as [|auth auths IH]; intros conv Hkeys.
  { exists [], conv. split; [done|]. apply lints_nil. }
  destruct (Hkeys auth) as (sk & Hk & Hgen); [left|].
  destruct (sign_one_ok p raw session conv auth sk Hk Hgen) as (bs & Hone & _).
  cbn [SignaturePlugin.sign_all]. unfold st_mk.
  set (conv1 := if TrustMode.is_centralized (sp_integrity p)
                then (λ c, ConversationSession.sign c auth) <$> conv else conv).
  destruct (IH conv1) as (metas & conv' & E & Hl); [by intros; apply Hkeys; right|].
  pose proof (lints_cons _ _ _ _ _ _ auths _ metas Hk Hgen Hone) as Hcons.
  rewrite Hone. eexists _, conv'. split.
  - by rewrite (st_bind_Ok _ _ _ _ _ E).
  - apply Hcons. unfold conv1 in Hl.
    destruct (TrustMode.is_centralized (sp_integrity p)), conv; try exact Hl.
    destruct Hl as [? ? ? Hc ?]. split; assumption || exact Hc.
Qed.

(** ** A receiver accepts what the linter signed *)

Lemma feed_keys_lookup core p h k :
  (sp_pk p !! h = Some k ∨ (CorePublicKey k ∈ core ∧ PublicSignKey.hash k = h)) →
  (∀ k', CorePublicKey k' ∈ core → PublicSignKey.hash k' = h → k' = k) →
  sp_pk (foldl SignaturePlugin.feed_key p core) !! h = Some k.
Proof.
  revert p. induction core as [|m core IH]; intros p Hor Huniq; simpl.
  { destruct Hor as [?|[?%elem_of_nil _]]; done. }
  apply IH; [|intros k' ? ?; apply Huniq; [by right|done]].
  destruct m; try (destruct Hor as [?|[[?|?]%elem_of_cons ?]]; by auto).
  simpl. destruct (decide (PublicSignKey.hash pk = h)) as [Hh|Hne].
  - left. rewrite <-Hh, lookup_insert_eq. f_equal. apply Huniq; [left|done].
  - rewrite lookup_insert_ne by done.
    destruct Hor as [?|[[[= ->]|?]%elem_of_cons ?]]; by auto.
Qed.

(** The keys [metadata_lint_many] signs with. *)
Definition to_sign p raw (conv : option ConversationSession) : list AteHash :=
  List.filter (λ h, negb (proven p conv h)) (SignaturePlugin.wanted_keys raw).

Lemma elem_of_to_sign p raw conv auth :
  auth ∈ to_sign p raw conv ↔ proven p conv auth = false ∧ ∃ e, e ∈ raw ∧ wants e auth.
Proof.
  unfold to_sign. rewrite list_elem_of_In, filter_In, <-list_elem_of_In, elem_of_wanted_keys.
  rewrite negb_true_iff. tauto.
Qed.

Lemma lint_many_unfold p raw session conv :
  SignaturePlugin.metadata_lint_many p raw session conv
  = SignaturePlugin.sign_all p raw session (to_sign p raw conv) conv.
Proof.
  assert (∀ l : list AteHash, List.filter (λ _, true) l = l) as Hid.
  { intros l. induction l as [|x l IH]; simpl; congruence. }
  destruct raw as [|e raw]; [done|]. unfold SignaturePlugin.metadata_lint_many, to_sign, proven, st_mk.
  destruct (TrustMode.is_centralized (sp_integrity p)); simpl; [|by rewrite Hid].
  destruct conv; [done|]. by rewrite Hid.
Qed.

Lemma signed_hashes_wants p raw conv auth e : e ∈ raw → wants e auth →
  raw_event_hash (eh_raw (li_header e)) ∈ SignaturePlugin.signed_hashes p raw conv auth.
Proof.
  intros He (a & Hg & Ha). unfold SignaturePlugin.signed_hashes. apply elem_of_app. right.
  apply list_elem_of_omap. exists e. split; [done|]. by rewrite Hg, bool_decide_eq_true_2.
Qed.

(** The public key [q] holds for a key of the session, if any, is the session's. *)
Definition agrees (session : AteSession) (q : SignaturePlugin) : Prop :=
  ∀ auth sk pk, session_key session auth = Some sk → sp_pk q !! auth = Some pk →
    pk = PrivateSignKey.as_public_key sk.

Lemma lints_feed p q raw session conv auths metas header conv_q :
  lints p raw session conv auths metas → meta_core (eh_meta header) = metas →
  agrees session q →
  (∀ auth, SignaturePlugin.has_public_key p auth = true →
           SignaturePlugin.has_public_key q auth = true) →
  SignaturePlugin.verifies (sp_integrity q) = true →
  ∃ q' conv', SignaturePlugin.feed header (q, conv_q) = (Ok (), (q', conv'))
    ∧ (∀ sig h, CoreSignature sig ∈ metas → h ∈ sig_hashes sig →
         has_signature q' h (sig_public_key_hash sig)).
Proof.
  intros Hl Hm Hag Hknown Hv. unfold SignaturePlugin.feed, st_mk. rewrite Hm.
  destruct (feed_keys_rest metas q) as [Es Ei].
  destruct (feed_sigs_all metas (foldl SignaturePlugin.feed_key q metas) conv_q)
    as (q' & conv' & E & _ & Hs); [|by eauto].
  intros sig Hsig. apply check_signature_Ok; [by rewrite Ei|].
  destruct (lints_verify _ _ _ _ _ _ Hl _ Hsig) as (Ha & sk & Hk & Hver).
  exists (PrivateSignKey.as_public_key sk). split; [|done].
  destruct (session_key_hash _ _ _ Hk) as [Hh _].
  apply feed_keys_lookup.
  - destruct (SignaturePlugin.has_public_key p (sig_public_key_hash sig)) eqn:Hp.
    + left. apply Hknown in Hp. apply bool_decide_eq_true in Hp as [pk Hpk].
      rewrite Hpk. f_equal. by eapply Hag.
    + right. split; [|done]. by eapply lints_known.
  - intros k' Hk' Hhk. destruct (lints_keys _ _ _ _ _ _ Hl _ Hk') as (sk' & Hs' & ->).
    rewrite Hhk, Hk in Hs'. by simplify_eq.
Qed.

Lemma lint_many_lints p raw session conv :
  (∀ e auth, e ∈ raw → wants e auth → proven p conv auth = false →
     ∃ sk, session_key session auth = Some sk ∧ PrivateSignKey.generated sk) →
  ∃ metas conv', SignaturePlugin.metadata_lint_many p raw session conv = (Ok metas, conv')
    ∧ lints p raw session conv (to_sign p raw conv) metas.
Proof.
  intros Hkeys. rewrite lint_many_unfold. apply sign_all_ok.
  intros auth (Hp & e & He & Hw)%elem_of_to_sign. by eapply Hkeys.
Qed.

Lemma lint_conv_none p raw session r conv' :
  SignaturePlugin.metadata_lint_many p raw session None = (r, conv') → conv' = None.
Proof.
  rewrite lint_many_unfold. generalize (to_sign p raw None). intros auths.
  revert r. induction auths as [|auth auths IH]; intros r; [by intros [= _ <-]|].
  cbn [SignaturePlugin.sign_all]. unfold st_mk.
  destruct (SignaturePlugin.sign_one _ _ _ _ _); [|by intros [= _ <-]].
  replace (if TrustMode.is_centralized (sp_integrity p) then _ else None)
    with (@None ConversationSession) by by destruct (TrustMode.is_centralized _).
  unfold mbind, st_bind. destruct (SignaturePlugin.sign_all _ _ _ _ _) as [[] c] eqn:E;
    intros [= _ <-]; by eapply IH.
Qed.

Lemma lints_accepted p q raw session conv conv_q metas header :
  lints p raw session conv (to_sign p raw conv) metas → meta_core (eh_meta header) = metas →
  agrees session q →
  (∀ auth, SignaturePlugin.has_public_key p auth = true →
           SignaturePlugin.has_public_key q auth = true) →
  SignaturePlugin.verifies (sp_integrity q) = true →
  ∃ q' conv_q', SignaturePlugin.feed header (q, conv_q) = (Ok (), (q', conv_q'))
    ∧ ∀ e auth, e ∈ raw → wants e auth → proven p conv auth = false →
        has_signature q' (raw_event_hash (eh_raw (li_header e))) auth.
Proof.
  intros Hl Hm Hagree Hknown Hv.
  destruct (lints_feed _ _ _ _ _ _ _ _ conv_q Hl Hm Hagree Hknown Hv)
    as (q' & conv_q' & Ef & Hs).
  exists q', conv_q'. split; [done|]. intros e auth He Hw Hp.
  destruct (lints_covers _ _ _ _ _ _ Hl auth) as (sig & Hsig & <- & Hhs);
    [apply elem_of_to_sign; by eauto|].
  apply Hs; [done|]. rewrite Hhs. by apply signed_hashes_wants.
Qed.

(** What the linter signs, every verifying node accepts.  When the session holds a
    generated key for each key the events of a transaction ask to be signed with (the
    keys this conversation has already proven excepted), linting succeeds; and feeding
    an event with the metadata it returns to any node that verifies signatures, that
    knows at least the public keys the signer took as known and none that contradicts
    the session's, succeeds and makes every such key a verified signer of every event
    that asked for it. *)
Theorem linted_signatures_accepted (p q : SignaturePlugin) (raw : list LintData)
  (session : AteSession) (conv conv_q : option ConversationSession)
  (Hkeys : ∀ e auth, e ∈ raw → wants e auth → proven p conv auth = false →
     ∃ sk, session_key session auth = Some sk ∧ PrivateSignKey.generated sk)
  (Hagree : agrees session q)
  (Hknown : ∀ auth, SignaturePlugin.has_public_key p auth = true →
                    SignaturePlugin.has_public_key q auth = true)
  (Hv : SignaturePlugin.verifies (sp_integrity q) = true) :
  ∃ metas conv', SignaturePlugin.metadata_lint_many p raw session conv = (Ok metas, conv')
    ∧ ∀ header, meta_core (eh_meta header) = metas →
        ∃ q' conv_q', SignaturePlugin.feed header (q, conv_q) = (Ok (), (q', conv_q'))
          ∧ ∀ e auth, e ∈ raw → wants e auth → proven p conv auth = false →
              has_signature q' (raw_event_hash (eh_raw (li_header e))) auth.
Proof.
  destruct (lint_many_lints p raw session conv Hkeys) as (metas & conv' & E & Hl).
  exists metas, conv'. split; [done|]. intros header Hm. by eapply lints_accepted.
Qed.

Lemma sign_all_missing p raw session auths conv :
  (∀ auth sk, session_key session auth = Some sk → PrivateSignKey.generated sk) →
  (∃ auth, auth ∈ auths ∧ session_key session auth = None) →
  ∃ auth, auth ∈ auths ∧ session_key session auth = None
    ∧ (SignaturePlugin.sign_all p raw session auths conv).1 = Err (MissingWriteKey auth).
Proof.
  intros Hgen. revert conv. induction auths as [|auth auths IH]; intros conv (a & Ha & Hno).
  { by apply elem_of_nil in Ha. }
  cbn [SignaturePlugin.sign_all]. unfold st_mk.
  destruct (session_key session auth) as [sk|] eqn:Hk.
  - destruct (sign_one_ok p raw session conv auth sk Hk (Hgen _ _ Hk)) as (bs & -> & _).
    set (conv1 := if TrustMode.is_centralized (sp_integrity p)
                  then (λ c, ConversationSession.sign c auth) <$> conv else conv).
    destruct (IH conv1) as (a' & Ha' & Hno' & E).
    { exists a. apply elem_of_cons in Ha as [->|?]; [congruence | done]. }
    exists a'. split; [by right|]. split; [done|].
    unfold mbind, st_bind. destruct (SignaturePlugin.sign_all _ _ _ _ _) as [r s].
    by simplify_eq/=.
  - exists auth. split; [left|]. split; [done|].
    unfold SignaturePlugin.sign_one. unfold session_key in Hk. by rewrite Hk.
Qed.

(** Linting fails exactly for want of a key: with generated session keys, the linter
    returns an error iff some event asks to be signed with a key that the conversation
    has not proven and that the session does not hold, and the error names such a key. *)
Theorem lint_missing_key (p : SignaturePlugin) (raw : list LintData) (session : AteSession)
  (conv : option ConversationSession)
  (Hgen : ∀ auth sk, session_key session auth = Some sk → PrivateSignKey.generated sk) :
  let lacks auth := proven p conv auth = false ∧ session_key session auth = None
                    ∧ ∃ e, e ∈ raw ∧ wants e auth in
  match (SignaturePlugin.metadata_lint_many p raw session conv).1 with
  | Ok _ => ¬ ∃ auth, lacks auth
  | Err err => ∃ auth, lacks auth ∧ err = MissingWriteKey auth
  end.
Proof.
  intros lacks. rewrite lint_many_unfold. set (auths := to_sign p raw conv).
  assert (∀ auth, auth ∈ auths ∧ session_key session auth = None ↔ lacks auth) as Hlacks.
  { intros auth. unfold auths, lacks. rewrite elem_of_to_sign. tauto. }
  destruct (decide (Exists (λ auth, session_key session auth = None) auths)) as [Hex|Hall].
  - apply Exists_exists in Hex.
    destruct (sign_all_missing p raw session auths conv Hgen Hex) as (auth & Ha & Hno & ->).
    exists auth. by rewrite <-Hlacks.
  - rewrite Exists_exists in Hall.
    destruct (sign_all_ok p raw session auths conv) as (metas & conv' & -> & _).
    { intros auth Ha. destruct (session_key session auth) as [sk|] eqn:Hk; [by eauto|].
      destruct Hall. by eauto. }
    intros (auth & [??]%Hlacks). apply Hall. by eauto.
Qed.
End theorems.

(** ** Concrete inputs *)

#[local] Existing Instance toy_prims.

Definition sample_key : PrivateSignKey :=
  PrivateFalcon512 (PublicFalcon512 [x01; x02]) [x01; x02].

Definition sample_session : AteSession :=
  {| ss_identity := "alice"; ss_write_keys := [sample_key]; ss_read_keys := [];
     ss_private_read_keys := [] |}.

Definition sample_header (event_hash : AteHash) (core : list CoreMetadata) : EventHeader :=
  {| eh_raw := {| raw_meta_hash := event_hash; raw_meta_bytes := []; raw_data_hash := None;
                  raw_data_size := 0; raw_event_hash := event_hash;
                  raw_format := {| mf_meta := Json; mf_data := Json |} |};
     eh_meta := {| meta_core := core |} |}.

Definition sample_hash : AteHash := {| hash_val := replicate 16 x2a |}.

(** An event that asks for the key of the session. *)
Definition sample_raw : list LintData :=
  let core := [CoreSignWith {| sw_keys := [PrivateSignKey.hash sample_key] |}] in
  [{| li_data := {| ew_meta := {| meta_core := core |}; ew_data_bytes := BytesNone;
                    ew_format := {| mf_meta := Json; mf_data := Json |} |};
      li_header := sample_header sample_hash core |}].

(** The event that carries what the linter returns for it. *)
Definition sample_proof : EventHeader :=
  sample_header {| hash_val := replicate 16 x2b |}
    (default [] (result_ok
       (SignaturePlugin.metadata_lint_many SignaturePlugin.new sample_raw sample_session None).1)).

Lemma sample_raw_wants e auth : e ∈ sample_raw → wants e auth →
  session_key sample_session auth = Some sample_key.
Proof.
  intros ->%list_elem_of_singleton (a & Ha & Hin). injection Ha as <-.
  apply list_elem_of_singleton in Hin as ->. reflexivity.
Qed.

Lemma verified_signatures_sound_witness :
  vouched (fed_by [sample_proof]) sample_hash (PrivateSignKey.hash sample_key).
Proof.
  apply (proj1 (verified_signatures_sound [sample_proof] SignaturePlugin.new None
                  ltac:(reflexivity) ltac:(discriminate))
           sample_hash (PrivateSignKey.hash sample_key) [PrivateSignKey.hash sample_key]).
  - vm_compute. reflexivity.
  - left.
Defined.

Lemma linted_signatures_accepted_witness :
  ∃ metas conv',
    SignaturePlugin.metadata_lint_many SignaturePlugin.new sample_raw sample_session None
    = (Ok metas, conv')
    ∧ ∀ header, meta_core (eh_meta header) = metas →
        ∃ q' conv_q', SignaturePlugin.feed header (SignaturePlugin.new, None)
                      = (Ok (), (q', conv_q'))
          ∧ ∀ e auth, e ∈ sample_raw → wants e auth → proven SignaturePlugin.new None auth = false →
              has_signature q' (raw_event_hash (eh_raw (li_header e))) auth.
Proof.
  apply (linted_signatures_accepted SignaturePlugin.new SignaturePlugin.new sample_raw
           sample_session None None).
  - intros e auth He Hw _. exists sample_key. split; [by eapply sample_raw_wants | reflexivity].
  - intros auth sk pk _ Hpk. discriminate Hpk.
  - auto.
  - reflexivity.
Defined.

Definition keyless_session : AteSession :=
  {| ss_identity := "bob"; ss_write_keys := []; ss_read_keys := []; ss_private_read_keys := [] |}.

Lemma lint_missing_key_witness :
  ∃ auth, (proven SignaturePlugin.new None auth = false
           ∧ session_key keyless_session auth = None
           ∧ ∃ e, e ∈ sample_raw ∧ wants e auth)
          ∧ MissingWriteKey (PrivateSignKey.hash sample_key) = MissingWriteKey auth.
Proof.
  apply (lint_missing_key SignaturePlugin.new sample_raw keyless_session None).
  intros auth sk Hk. discriminate Hk.
Defined.
