(* ===== verification/Tree.v ===== *)
(** * The tree of authorities

    lib/src/tree: the plugin that knows who may read and write each record of a chain,
    from the authorizations and parents the events declare.  It computes the
    authorization of a record by inheritance, validates events against it, adds the
    metadata a writer needs, and encrypts and decrypts data. *)

From S2P Require Import Prelude LogApi Crypto Codec Secure Meta Time Event Signature.

(** ** State *)

(** [TransactionMetadata]: what the events of a transaction in progress declared. *)
Record TransactionMetadata : Type := {
  tm_auth : gmap PrimaryKey MetaAuthorization;
  tm_parents : gmap PrimaryKey MetaParent;
}.

Record TreeAuthorityPlugin : Type := {
  ta_root : WriteOption;
  ta_root_keys : gmap AteHash PublicSignKey;
  ta_auth : gmap PrimaryKey MetaAuthorization;
  ta_parents : gmap PrimaryKey MetaParent;
  ta_signature_plugin : SignaturePlugin;
  ta_integrity : TrustMode;
}.

Inductive ComputePhase : Type := BeforeStore | AfterStore.

Inductive ValidationResult : Type := Deny | Allow | Abstain.

Inductive ValidationErrorKind : Type :=
  | AllAbstained
  | Denied (reason : string)
  | Detached
  | NoSignatures
  | ValidationMany (errors : list ValidationErrorKind)
  | ValidationTrust (e : TrustErrorKind)
  | ValidationTime (e : TimeErrorKind).

Inductive TransformErrorKind : Type :=
  | UnspecifiedReadability
  | MissingReadKey (hash : string)
  | NoIvPresent
  | TransformIO (e : SecureError)
  | TransformTrust (e : TrustErrorKind).

Definition TransactionMetadata_default : TransactionMetadata :=
  {| tm_auth := ∅; tm_parents := ∅ |}.

(** [MetaAuthorization] of a record that declares none. *)
Definition inherit_auth : MetaAuthorization :=
  {| ma_read := ReadInherit; ma_write := WriteInherit |}.

Definition parent_key (p : MetaParent) : PrimaryKey := mc_parent_id (mp_vec p).

Module TreeAuthorityPlugin.
Section ops.
Context `{CryptoPrims} `{KemPrims}.

Definition new : TreeAuthorityPlugin :=
  {| ta_root := WriteEveryone; ta_root_keys := ∅; ta_auth := ∅; ta_parents := ∅;
     ta_signature_plugin := SignaturePlugin.new; ta_integrity := Distributed |}.

Definition with_root (t : TreeAuthorityPlugin) (root : WriteOption)
    (keys : gmap AteHash PublicSignKey) : TreeAuthorityPlugin :=
  {| ta_root := root; ta_root_keys := keys; ta_auth := ta_auth t; ta_parents := ta_parents t;
     ta_signature_plugin := ta_signature_plugin t; ta_integrity := ta_integrity t |}.

Definition with_tree (t : TreeAuthorityPlugin) (auth : gmap PrimaryKey MetaAuthorization)
    (parents : gmap PrimaryKey MetaParent) : TreeAuthorityPlugin :=
  {| ta_root := ta_root t; ta_root_keys := ta_root_keys t; ta_auth := auth;
     ta_parents := parents; ta_signature_plugin := ta_signature_plugin t;
     ta_integrity := ta_integrity t |}.

Definition with_signature_plugin (t : TreeAuthorityPlugin) (p : SignaturePlugin)
    : TreeAuthorityPlugin :=
  {| ta_root := ta_root t; ta_root_keys := ta_root_keys t; ta_auth := ta_auth t;
     ta_parents := ta_parents t; ta_signature_plugin := p; ta_integrity := ta_integrity t |}.

(** The keys of the hash map come in its iteration order; [map_to_list] is one. *)
Definition add_root_public_key (key : PublicSignKey) (t : TreeAuthorityPlugin)
    : TreeAuthorityPlugin :=
  let keys := <[PublicSignKey.hash key := key]> (ta_root_keys t) in
  with_root t (WriteAny (map_to_list keys).*1) keys.

Definition root_keys (t : TreeAuthorityPlugin) : list PublicSignKey :=
  (map_to_list (ta_root_keys t)).*2.

Definition set_root_keys (keys : list PublicSignKey) (t : TreeAuthorityPlugin)
    : TreeAuthorityPlugin :=
  foldl (λ t key, add_root_public_key key t) (with_root t WriteEveryone ∅) keys.

Definition set_integrity_mode (mode : TrustMode) (t : TreeAuthorityPlugin)
    : TreeAuthorityPlugin :=
  {| ta_root := ta_root t; ta_root_keys := ta_root_keys t; ta_auth := ta_auth t;
     ta_parents := ta_parents t;
     ta_signature_plugin := SignaturePlugin.set_integrity_mode mode (ta_signature_plugin t);
     ta_integrity := mode |}.

(** ** [compute_auth] *)

Definition lookup_auth (t : TreeAuthorityPlugin) (tm : TransactionMetadata) (key : PrimaryKey)
    : option MetaAuthorization :=
  match tm_auth tm !! key with Some a => Some a | None => ta_auth t !! key end.

(** The step up the tree at the end of the loop body. *)
Definition next_parent (t : TreeAuthorityPlugin) (tm : TransactionMetadata) (a : PrimaryKey)
    : option PrimaryKey :=
  let r := match tm_parents tm !! a with
           | Some b => Some b
           | None => match ta_parents t !! a with
                     | Some b => if decide (parent_key b ≠ a) then Some b else None
                     | None => None
                     end
           end in
  match r with
  | Some b => if decide (parent_key b ≠ a) then Some (parent_key b) else None
  | None => None
  end.

Definition or_read (read parent : ReadOption) : ReadOption :=
  if decide (read = ReadInherit) then parent else read.

Definition or_write (write parent : WriteOption) : WriteOption :=
  if decide (write = WriteInherit) then parent else write.

(** The loop, with a bound on its turns. *)
Fixpoint resolve (fuel : nat) (t : TreeAuthorityPlugin) (tm : TransactionMetadata)
    (parent : option PrimaryKey) (read : ReadOption) (write : WriteOption)
    : result TrustErrorKind (ReadOption * WriteOption) :=
  match fuel with
  | O => Err TrustDiverged
  | S fuel =>
      match parent with
      | None => Ok (read, write)
      | Some a =>
          if decide (read = ReadInherit ∨ write = WriteInherit) then
            match lookup_auth t tm a with
            | None => Err (MissingParent a)
            | Some pa =>
                let read := or_read read (ma_read pa) in
                let write := or_write write (ma_write pa) in
                match next_parent t tm a with
                | None => Ok (read, write)
                | Some b => resolve fuel t tm (Some b) read write
                end
            end
          else Ok (read, write)
      end
  end.

(** Enough turns to visit every key that has a parent, and the top. *)
Definition resolve_fuel (t : TreeAuthorityPlugin) (tm : TransactionMetadata) : nat :=
  size (tm_parents tm) + size (ta_parents t) + 2.

(** The authorization of the record itself, before its parents are asked. *)
Definition own_auth (t : TreeAuthorityPlugin) (meta : Metadata) (tm : TransactionMetadata)
    (phase : ComputePhase) (key : PrimaryKey) : MetaAuthorization :=
  let auth := match phase with
              | BeforeStore => None
              | AfterStore => Metadata.get_authorization meta
              end in
  let auth := match auth with Some a => Some a | None => lookup_auth t tm key end in
  default inherit_auth auth.

Definition compute_auth (t : TreeAuthorityPlugin) (meta : Metadata) (tm : TransactionMetadata)
    (phase : ComputePhase) : result TrustErrorKind MetaAuthorization :=
  match Metadata.get_data_key meta with
  | None => Ok {| ma_read := ReadEveryone None; ma_write := ta_root t |}
  | Some key =>
      let auth := own_auth t meta tm phase key in
      '(read, write) ← resolve (resolve_fuel t tm) t tm (parent_key <$> Metadata.get_parent meta)
                         (ma_read auth) (ma_write auth);
      Ok {| ma_read := or_read read (ReadEveryone None); ma_write := or_write write (ta_root t) |}
  end.

(** ** [feed], [reset], [rebuild] *)

Definition feed_tree (header : EventHeader) (t : TreeAuthorityPlugin) : TreeAuthorityPlugin :=
  let meta := eh_meta header in
  match Metadata.get_tombstone meta with
  | Some key => with_tree t (delete key (ta_auth t)) (delete key (ta_parents t))
  | None =>
      match Metadata.get_data_key meta with
      | Some key =>
          with_tree t
            (<[key := default inherit_auth (Metadata.get_authorization meta)]> (ta_auth t))
            (match Metadata.get_parent meta with
             | Some parent => if decide (parent_key parent ≠ key)
                              then <[key := parent]> (ta_parents t) else ta_parents t
             | None => ta_parents t
             end)
      | None => t
      end
  end.

Definition feed (header : EventHeader)
    : st (TreeAuthorityPlugin * option ConversationSession) SinkErrorKind unit :=
  st_mk (λ '(t, conv),
    let t := feed_tree header t in
    let '(r, (p, conv)) := SignaturePlugin.feed header (ta_signature_plugin t, conv) in
    (r, (with_signature_plugin t p, conv))).

Definition reset (t : TreeAuthorityPlugin) : TreeAuthorityPlugin :=
  with_signature_plugin (with_tree t ∅ ∅) (SignaturePlugin.reset (ta_signature_plugin t)).

(** The signatures are rebuilt first, and fed again with the tree. *)
Definition rebuild (headers : list EventHeader)
    (s : TreeAuthorityPlugin * option ConversationSession)
    : TreeAuthorityPlugin * option ConversationSession :=
  let t := reset (fst s) in
  let '(p, conv) := SignaturePlugin.rebuild headers (ta_signature_plugin t, snd s) in
  foldl (λ s header, (feed header s).2) (with_signature_plugin t p, conv) headers.

(** ** [validate] *)

(** What a conversation allows when the event has no verified signature. *)
Definition conversation_allows (t : TreeAuthorityPlugin) (c : ConversationSession)
    (write : WriteOption) : bool :=
  if cv_weaken_validation c then true
  else if TrustMode.is_centralized (ta_integrity t) then
    if decide (ta_integrity t = Centralized Client) then true
    else match write with
         | WriteSpecific hash => bool_decide (hash ∈ cv_signatures c)
         | WriteAny hashes => existsb (λ h, bool_decide (h ∈ cv_signatures c)) hashes
         | _ => false
         end
  else false.

(** The signature plugin's own [validate] abstains. *)
Definition validate (t : TreeAuthorityPlugin) (header : EventHeader)
    (conv : option ConversationSession) : result ValidationErrorKind ValidationResult :=
  if negb (Metadata.needs_signature (eh_meta header))
     && bool_decide (raw_data_hash (eh_raw header) = None)
  then Ok Allow
  else
    auth ← map_err ValidationTrust
             (compute_auth t (eh_meta header) TransactionMetadata_default BeforeStore);
    if decide (ma_write auth = WriteEveryone) then Ok Allow
    else
      match SignaturePlugin.get_verified_signatures (ta_signature_plugin t)
              (raw_event_hash (eh_raw header)) with
      | None =>
          match conv with
          | Some c => if conversation_allows t c (ma_write auth) then Ok Allow else Err NoSignatures
          | None => Err NoSignatures
          end
      | Some verified =>
          if existsb (λ h, bool_decide (h ∈ WriteOption.vals (ma_write auth))) verified
          then Ok Allow else Err Detached
      end.

(** ** [metadata_lint_many], [metadata_lint_event] *)

Definition metadata_lint_many (t : TreeAuthorityPlugin) (raw : list LintData)
    (session : AteSession) : st (option ConversationSession) LintErrorKind (list CoreMetadata) :=
  SignaturePlugin.metadata_lint_many (ta_signature_plugin t) raw session.

(** The session's keys among the hashes that may write; a hash set is walked in its
    iteration order, and [elements] is one. *)
Definition signing_keys (session : AteSession) (write : WriteOption) : list AteHash :=
  mjoin ((λ write_hash,
    filter (λ h, h = write_hash) (PrivateSignKey.hash <$> ss_write_keys session))
    <$> elements (WriteOption.vals write)).

(** The keys the session can open a derived key with: [read_keys], then
    [private_read_keys]. *)
Definition open_with_keys (session : AteSession) (read_hash : AteHash)
    (derived : DerivedEncryptKey) : option EncryptKey :=
  find_map (λ p, if decide (EncryptKey.hash p = read_hash)
                 then result_ok (DerivedEncryptKey.transmute derived p) else None)
    (ss_read_keys session).

Definition open_with_pairs (session : AteSession) (read_hash : AteHash)
    (derived : DerivedEncryptKey) : option EncryptKey :=
  find_map (λ p, if decide (PrivateEncryptKey.hash p = read_hash)
                 then result_ok (DerivedPrivate.transmute_private derived p) else None)
    (ss_private_read_keys session).

Definition lint_sign_with (t : TreeAuthorityPlugin) (meta : Metadata) (session : AteSession)
    (tm : TransactionMetadata) (type_code : string) : result LintErrorKind (list CoreMetadata) :=
  auth ← map_err LintTrust (compute_auth t meta tm BeforeStore);
  match ma_write auth with
  | WriteSpecific _ | WriteAny _ =>
      let sign_with := signing_keys session (ma_write auth) in
      if Metadata.needs_signature meta && bool_decide (sign_with = []) then
        match Metadata.get_data_key meta with
        | Some key => Err (LintTrust (NoAuthorizationWrite type_code key (ma_write auth)))
        | None => Err (LintTrust NoAuthorizationOrphan)
        end
      else Ok (if bool_decide (sign_with = []) then []
               else [CoreSignWith {| sw_keys := sign_with |}])
  | WriteInherit => Err (LintTrust UnspecifiedWritability)
  | WriteEveryone => Ok []
  | WriteNobody => Err (LintTrust (OwnedByNobody type_code))
  end.

Definition lint_confidentiality (t : TreeAuthorityPlugin) (meta : Metadata)
    (session : AteSession) (tm : TransactionMetadata) (type_code : string)
    : result LintErrorKind (list CoreMetadata) :=
  auth ← map_err LintTrust (compute_auth t meta tm AfterStore);
  key_hash ← match ma_read auth with
    | ReadEveryone key => Ok (EncryptKey.short_hash <$> key)
    | ReadSpecific read_hash derived =>
        let ret := match open_with_keys session read_hash derived with
                   | Some k => Some k
                   | None => open_with_pairs session read_hash derived
                   end in
        match ret, Metadata.get_data_key meta with
        | None, Some key => Err (LintTrust (NoAuthorizationRead type_code key (ma_read auth)))
        | _, _ => Ok (EncryptKey.short_hash <$> ret)
        end
    | ReadInherit => Ok None
    end;
  Ok (match key_hash with
      | Some h => [CoreConfidentiality {| conf_hash := h; conf_cache := Some (ma_read auth) |}]
      | None => []
      end).

(** The signature plugin's own [metadata_lint_event] adds nothing. *)
Definition metadata_lint_event (t : TreeAuthorityPlugin) (meta : Metadata)
    (session : AteSession) (tm : TransactionMetadata) (type_code : string)
    : result LintErrorKind (list CoreMetadata) :=
  sign_with ← lint_sign_with t meta session tm type_code;
  confidentiality ← lint_confidentiality t meta session tm type_code;
  Ok (sign_with ++ confidentiality).

(** ** [data_as_underlay], [data_as_overlay] *)

(** The session's first key of a hash, of either category. *)
Definition first_read_key (session : AteSession) (key_hash : AteHash)
    (derived : DerivedEncryptKey) : option (result TransformErrorKind EncryptKey) :=
  match List.find (λ k, bool_decide (EncryptKey.hash k = key_hash)) (ss_read_keys session) with
  | Some k => Some (map_err (λ e, TransformIO (SecureIo e)) (DerivedEncryptKey.transmute derived k))
  | None =>
      match List.find (λ k, bool_decide (PrivateEncryptKey.hash k = key_hash))
              (ss_private_read_keys session) with
      | Some k => Some (map_err TransformIO (DerivedPrivate.transmute_private derived k))
      | None => None
      end
  end.

(** [rnd] is the draw for the vector. *)
Definition generate_encrypt_key (rnd : bytes) (auth : ReadOption) (session : AteSession)
    : result TransformErrorKind (option (InitializationVector * EncryptKey)) :=
  match auth with
  | ReadInherit => Err UnspecifiedReadability
  | ReadEveryone _ => Ok None
  | ReadSpecific key_hash derived =>
      match first_read_key session key_hash derived with
      | Some k => (λ k, Some ({| iv_bytes := fit 16 rnd |}, k)) <$> k
      | None => Err (MissingReadKey (to_hex_string key_hash))
      end
  end.

(** The two loops of [get_encrypt_key]: the first key of the hash whose derived key has
    the short hash; a key that does not open ends the search with its error. *)
Fixpoint search_read_key {K : Type} (hash : K → AteHash)
    (transmute : K → result TransformErrorKind EncryptKey) (keys : list K)
    (key_hash : AteHash) (short : ShortHash) : result TransformErrorKind (option EncryptKey) :=
  match keys with
  | [] => Ok None
  | k :: keys =>
      if decide (hash k = key_hash) then
        inner ← transmute k;
        if decide (EncryptKey.short_hash inner = short) then Ok (Some inner)
        else search_read_key hash transmute keys key_hash short
      else search_read_key hash transmute keys key_hash short
  end.

Definition get_encrypt_key (t : TreeAuthorityPlugin) (meta : Metadata)
    (confidentiality : MetaConfidentiality) (iv : option InitializationVector)
    (session : AteSession) : result TransformErrorKind (option EncryptKey) :=
  auth ← match conf_cache confidentiality with
         | Some a => Ok a
         | None => ma_read <$> map_err TransformTrust
                     (compute_auth t meta TransactionMetadata_default AfterStore)
         end;
  match auth with
  | ReadInherit => Err UnspecifiedReadability
  | ReadEveryone key => Ok (match iv with Some _ => key | None => None end)
  | ReadSpecific key_hash derived =>
      found ← search_read_key EncryptKey.hash
        (λ k, map_err (λ e, TransformIO (SecureIo e)) (DerivedEncryptKey.transmute derived k))
        (ss_read_keys session) key_hash (conf_hash confidentiality);
      match found with
      | Some k => Ok (Some k)
      | None =>
          found ← search_read_key PrivateEncryptKey.hash
            (λ k, map_err TransformIO (DerivedPrivate.transmute_private derived k))
            (ss_private_read_keys session) key_hash (conf_hash confidentiality);
          match found with
          | Some k => Ok (Some k)
          | None => Err (MissingReadKey (to_hex_string key_hash))
          end
      end
  end.

Definition data_as_underlay (rnd : bytes) (t : TreeAuthorityPlugin) (with_ : bytes)
    (session : AteSession) (tm : TransactionMetadata) : st Metadata TransformErrorKind bytes :=
  st_mk (λ meta,
    let auth := match Metadata.get_confidentiality meta ≫= conf_cache with
                | Some a => Ok a
                | None => ma_read <$> map_err TransformTrust (compute_auth t meta tm AfterStore)
                end in
    match auth ≫= λ auth, generate_encrypt_key rnd auth session with
    | Err e => (Err e, meta)
    | Ok None => (Ok with_, meta)
    | Ok (Some (iv, key)) =>
        (Ok (EncryptKey.encrypt_with_iv key iv with_),
         Metadata.push meta (CoreInitializationVector iv))
    end).

Definition data_as_overlay (t : TreeAuthorityPlugin) (meta : Metadata) (with_ : bytes)
    (session : AteSession) : result TransformErrorKind bytes :=
  let iv := Metadata.get_iv meta in
  match Metadata.get_confidentiality meta with
  | Some confidentiality =>
      key ← get_encrypt_key t meta confidentiality iv session;
      match key with
      | None => Ok with_
      | Some key => match iv with
                    | None => Err NoIvPresent
                    | Some iv => Ok (EncryptKey.decrypt key iv with_)
                    end
      end
  | None => match iv with Some _ => Err UnspecifiedReadability | None => Ok with_ end
  end.
End ops.
End TreeAuthorityPlugin.

(** ** Inheritance *)

Section inheritance.
Context `{CryptoPrims} `{KemPrims}.
Implicit Types (t : TreeAuthorityPlugin) (tm : TransactionMetadata) (a b : PrimaryKey).

(** The keys [compute_auth] walks from [a] up to a top of the tree. *)
Inductive ancestry t tm : PrimaryKey → list PrimaryKey → Prop :=
  | ancestry_top a : TreeAuthorityPlugin.next_parent t tm a = None → ancestry t tm a [a]
  | ancestry_up a b ps : TreeAuthorityPlugin.next_parent t tm a = Some b →
      ancestry t tm b ps → ancestry t tm a (a :: ps).

(** The first of a list of options that does not inherit. *)
Definition first_read (reads : list ReadOption) (top : ReadOption) : ReadOption :=
  foldr TreeAuthorityPlugin.or_read top reads.

Definition first_write (writes : list WriteOption) (top : WriteOption) : WriteOption :=
  foldr TreeAuthorityPlugin.or_write top writes.

Definition ancestors_auth t tm (ps : list PrimaryKey) : list MetaAuthorization :=
  omap (TreeAuthorityPlugin.lookup_auth t tm) ps.

Lemma or_read_assoc r s u :
  TreeAuthorityPlugin.or_read (TreeAuthorityPlugin.or_read r s) u
  = TreeAuthorityPlugin.or_read r (TreeAuthorityPlugin.or_read s u).
Proof. unfold TreeAuthorityPlugin.or_read. repeat case_decide; congruence. Qed.

Lemma or_write_assoc r s u :
  TreeAuthorityPlugin.or_write (TreeAuthorityPlugin.or_write r s) u
  = TreeAuthorityPlugin.or_write r (TreeAuthorityPlugin.or_write s u).
Proof. unfold TreeAuthorityPlugin.or_write. repeat case_decide; congruence. Qed.

(** ** The bound on the walk *)

Lemma ancestry_inj t tm a ps qs : ancestry t tm a ps → ancestry t tm a qs → ps = qs.
Proof.
  intros Hp. revert qs. induction Hp as [a Hn|a b ps Hn Hp IH]; intros qs Hq;
    inversion Hq; subst; try congruence.
  f_equal. apply IH. congruence.
Qed.

Lemma ancestry_suffix t tm a ps b : ancestry t tm a ps → b ∈ ps →
  ∃ qs, ancestry t tm b qs ∧ (length qs ≤ length ps)%nat.
Proof.
  induction 1 as [a Hn|a c ps Hn Hp IH].
  - intros ->%list_elem_of_singleton. exists [a]. split; [by constructor | done].
  - intros [->|Hb]%elem_of_cons; [exists (a :: ps); split; [by econstructor | done]|].
    destruct (IH Hb) as (qs & ? & ?). exists qs. split; [done|]. simpl. lia.
Qed.

Lemma ancestry_NoDup t tm a ps : ancestry t tm a ps → NoDup ps.
Proof.
  induction 1 as [a Hn|a b ps Hn Hp IH]; [apply NoDup_singleton|].
  constructor; [|done]. intros Ha.
  destruct (ancestry_suffix _ _ _ _ _ Hp Ha) as (qs & Hq & Hl).
  assert (qs = a :: ps) as -> by (eapply ancestry_inj; [done|by econstructor]).
  simpl in Hl. lia.
Qed.

(** Every key but the top has a parent on record. *)
Lemma ancestry_dom t tm a ps : ancestry t tm a ps →
  ∀ b, b ∈ ps → b ∈ dom (tm_parents tm) ∪ dom (ta_parents t) ∨ last ps = Some b.
Proof.
  induction 1 as [a Hn|a c ps Hn Hp IH]; intros b.
  - intros ->%list_elem_of_singleton. by right.
  - intros [->|Hb]%elem_of_cons.
    + left. apply elem_of_union. rewrite !elem_of_dom. unfold TreeAuthorityPlugin.next_parent in Hn.
      destruct (tm_parents tm !! a); [left; eauto|].
      destruct (ta_parents t !! a); [right; eauto | done].
    + destruct (IH _ Hb) as [?|Hl]; [by left|]. right. destruct ps; [by apply elem_of_nil in Hb|done].
Qed.

Lemma ancestry_length t tm a ps : ancestry t tm a ps →
  (length ps < TreeAuthorityPlugin.resolve_fuel t tm)%nat.
Proof.
  intros Hp. destruct (last ps) as [top|] eqn:Hl.
  2: { inversion Hp; subst; [done|]. apply last_None in Hl. done. }
  set (D := dom (tm_parents tm) ∪ dom (ta_parents t) ∪ {[top]} : gset PrimaryKey).
  assert (length ps ≤ size D)%nat as Hsize.
  { rewrite <-(size_list_to_set (C := gset PrimaryKey) ps) by by eapply ancestry_NoDup.
    apply subseteq_size. intros b Hb%elem_of_list_to_set.
    destruct (ancestry_dom _ _ _ _ Hp _ Hb) as [?|Hb']; set_solver. }
  assert (size D ≤ size (tm_parents tm) + size (ta_parents t) + 1)%nat as HD.
  { unfold D. rewrite <-!size_dom.
    rewrite !size_union_alt.
    pose proof (subseteq_size (dom (ta_parents t) ∖ dom (tm_parents tm)) (dom (ta_parents t))
                  ltac:(set_solver)).
    pose proof (subseteq_size ({[top]} ∖ (dom (tm_parents tm) ∪ dom (ta_parents t)))
                  ({[top]} : gset PrimaryKey) ltac:(set_solver)) as Htop.
    rewrite size_singleton in Htop. lia. }
  unfold TreeAuthorityPlugin.resolve_fuel. lia.
Qed.

(** ** [compute_auth] finds the nearest authorization *)

Lemma resolve_nearest t tm a ps fuel r w : ancestry t tm a ps → (length ps ≤ fuel)%nat →
  match TreeAuthorityPlugin.resolve fuel t tm (Some a) r w with
  | Ok (r', w') => (∀ top, TreeAuthorityPlugin.or_read r' top
      = first_read (r :: (ma_read <$> ancestors_auth t tm ps)) top)
    ∧ (∀ top, TreeAuthorityPlugin.or_write w' top
      = first_write (w :: (ma_write <$> ancestors_auth t tm ps)) top)
  | Err e => ∃ b, b ∈ ps ∧ TreeAuthorityPlugin.lookup_auth t tm b = None ∧ e = MissingParent b
  end.
Proof.
  intros Hp. revert fuel r w.
  induction Hp as [a Hn|a b ps Hn Hp IH]; intros [|fuel] r w Hf; simpl in Hf; try lia;
    cbn [TreeAuthorityPlugin.resolve].
  all: case_decide as Hinh; [|by split; intros top; simpl;
    unfold TreeAuthorityPlugin.or_read, TreeAuthorityPlugin.or_write;
    rewrite decide_False by tauto; rewrite decide_False by tauto].
  all: destruct (TreeAuthorityPlugin.lookup_auth t tm a) as [pa|] eqn:Ha;
    [|exists a; split; [left|done]]; rewrite Hn.
  - unfold ancestors_auth. cbn [omap list_omap]. rewrite Ha. simpl.
    split; intros top; [apply or_read_assoc | apply or_write_assoc].
  - specialize (IH fuel (TreeAuthorityPlugin.or_read r (ma_read pa))
      (TreeAuthorityPlugin.or_write w (ma_write pa)) ltac:(lia)).
    destruct (TreeAuthorityPlugin.resolve fuel t tm (Some b) _ _) as [[r' w']|e].
    + destruct IH as [IHr IHw]. unfold ancestors_auth. cbn [omap list_omap]. rewrite Ha. simpl.
      split; intros top; [rewrite IHr | rewrite IHw]; [apply or_read_assoc | apply or_write_assoc].
    + destruct IH as (c & ? & ?). exists c. split; [by right|done].
Qed.

(** The walk above the record of [meta]: finite, as it is when no record is its own
    ancestor. *)
Definition lineage t tm (meta : Metadata) (ps : list PrimaryKey) : Prop :=
  match Metadata.get_parent meta with
  | None => ps = []
  | Some p => ancestry t tm (parent_key p) ps
  end.

Lemma compute_auth_first (t : TreeAuthorityPlugin) (tm : TransactionMetadata)
  (meta : Metadata) (phase : ComputePhase) (key : PrimaryKey) (ps : list PrimaryKey)
  (Hkey : Metadata.get_data_key meta = Some key) (Hline : lineage t tm meta ps) :
  let auths := TreeAuthorityPlugin.own_auth t meta tm phase key :: ancestors_auth t tm ps in
  match TreeAuthorityPlugin.compute_auth t meta tm phase with
  | Ok auth => auth = {| ma_read := first_read (ma_read <$> auths) (ReadEveryone None);
                         ma_write := first_write (ma_write <$> auths) (ta_root t) |}
  | Err e => ∃ b, b ∈ ps ∧ TreeAuthorityPlugin.lookup_auth t tm b = None ∧ e = MissingParent b
  end.
Proof.
  intros auths. unfold TreeAuthorityPlugin.compute_auth. rewrite Hkey. unfold lineage in Hline.
  destruct (Metadata.get_parent meta) as [p|] eqn:Hp; cbn [fmap option_fmap option_map].
  - pose proof (ancestry_length _ _ _ _ Hline) as Hl.
    pose proof (resolve_nearest _ _ _ _ (TreeAuthorityPlugin.resolve_fuel t tm)
      (ma_read (TreeAuthorityPlugin.own_auth t meta tm phase key))
      (ma_write (TreeAuthorityPlugin.own_auth t meta tm phase key)) Hline ltac:(lia)) as Hr.
    destruct (TreeAuthorityPlugin.resolve _ t tm _ _ _) as [[r w]|e]; [|exact Hr].
    cbn. destruct Hr as [-> ->]. done.
  - subst ps. unfold TreeAuthorityPlugin.resolve_fuel. rewrite Nat.add_comm. done.
Qed.

(** C32. The permissions of a record are those of its nearest ancestor that declares
    any.  When the walk up the parents is finite, [compute_auth] terminates within its
    bound and returns, for reading and for writing separately, the first option that does
    not inherit among the record's own and its ancestors', in order, and at the top
    everyone for reading and the root's option for writing.  The only error is an ancestor
    on that walk that the tree does not know. *)
Theorem compute_auth_nearest (t : TreeAuthorityPlugin) (tm : TransactionMetadata)
  (meta : Metadata) (phase : ComputePhase) (key : PrimaryKey) (ps : list PrimaryKey)
  (Hkey : Metadata.get_data_key meta = Some key) (Hline : lineage t tm meta ps) :
  let auths := TreeAuthorityPlugin.own_auth t meta tm phase key :: ancestors_auth t tm ps in
  match TreeAuthorityPlugin.compute_auth t meta tm phase with
  | Ok auth => auth = {| ma_read := first_read (ma_read <$> auths) (ReadEveryone None);
                         ma_write := first_write (ma_write <$> auths) (ta_root t) |}
  | Err e => ∃ b, b ∈ ps ∧ TreeAuthorityPlugin.lookup_auth t tm b = None ∧ e = MissingParent b
  end.
Proof. by apply compute_auth_first. Qed.

(** What the walk from a record up gives for writing, when it knows every record on it. *)
Definition resolves_write t (k : PrimaryKey) (w : WriteOption) : Prop :=
  ∃ ps, ancestry t TransactionMetadata_default k ps
    ∧ (∀ b, b ∈ ps → is_Some (TreeAuthorityPlugin.lookup_auth t TransactionMetadata_default b))
    ∧ first_write (ma_write <$> ancestors_auth t TransactionMetadata_default ps) (ta_root t) = w.

(** A record that inherits is written as the parent that its event names allows. *)
Lemma compute_auth_declared t (meta : Metadata) (k : PrimaryKey) (p : MetaParent) w :
  Metadata.get_data_key meta = Some k → Metadata.get_parent meta = Some p →
  ma_write (default inherit_auth (ta_auth t !! k)) = WriteInherit → resolves_write t (parent_key p) w →
  ma_write <$> TreeAuthorityPlugin.compute_auth t meta TransactionMetadata_default BeforeStore = Ok w.
Proof.
  intros Hk Hp Hinh (ps & Hps & Hknown & <-).
  pose proof (compute_auth_first t TransactionMetadata_default meta BeforeStore k ps Hk) as Hc.
  unfold lineage in Hc. rewrite Hp in Hc. specialize (Hc Hps). cbv zeta in Hc.
  destruct (TreeAuthorityPlugin.compute_auth _ _ _ _) as [auth|e].
  - subst auth. cbn. unfold TreeAuthorityPlugin.own_auth, TreeAuthorityPlugin.lookup_auth. cbn. by rewrite lookup_empty, Hinh.
  - destruct Hc as (b & Hb & Hnone & _). apply Hknown in Hb as [a Ha]. congruence.
Qed.

End inheritance.

(** ** Accepted events are authorised *)

Section validation.
Context `{CryptoPrims}.
Implicit Types (t : TreeAuthorityPlugin) (conv : option ConversationSession).

(** The signature state inside the tree's. *)
Definition signature_state (s : TreeAuthorityPlugin * option ConversationSession)
    : SignaturePlugin * option ConversationSession := (ta_signature_plugin s.1, s.2).

Lemma feed_tree_rest header t :
  ta_signature_plugin (TreeAuthorityPlugin.feed_tree header t) = ta_signature_plugin t
  ∧ ta_integrity (TreeAuthorityPlugin.feed_tree header t) = ta_integrity t
  ∧ ta_root (TreeAuthorityPlugin.feed_tree header t) = ta_root t.
Proof.
  unfold TreeAuthorityPlugin.feed_tree. destruct (Metadata.get_tombstone _); [done|].
  by destruct (Metadata.get_data_key _).
Qed.

Lemma feed_signature_state header s :
  signature_state (TreeAuthorityPlugin.feed header s).2
  = (SignaturePlugin.feed header (signature_state s)).2
  ∧ (TreeAuthorityPlugin.feed header s).1 = (SignaturePlugin.feed header (signature_state s)).1.
Proof.
  destruct s as [t conv]. unfold TreeAuthorityPlugin.feed, signature_state, st_mk. cbn [fst snd].
  destruct (feed_tree_rest header t) as (-> & _ & _).
  by destruct (SignaturePlugin.feed header _) as [r [p c]].
Qed.

Lemma feed_integrity header s :
  ta_integrity (TreeAuthorityPlugin.feed header s).2.1 = ta_integrity s.1.
Proof.
  destruct s as [t conv]. unfold TreeAuthorityPlugin.feed, st_mk.
  destruct (feed_tree_rest header t) as (_ & Hi & _).
  by destruct (SignaturePlugin.feed header _) as [r [p c]].
Qed.

Lemma feed_all_integrity headers s :
  ta_integrity (foldl (λ s header, (TreeAuthorityPlugin.feed header s).2) s headers).1
  = ta_integrity s.1.
Proof.
  revert s. induction headers as [|hd hs IH]; intros s; [done|]. cbn [foldl].
  by rewrite IH, feed_integrity.
Qed.

Lemma rebuild_tree headers t conv :
  SignaturePlugin.verifies (sp_integrity (ta_signature_plugin t)) = true →
  conv_from (fed_by headers) conv →
  let s := TreeAuthorityPlugin.rebuild headers (t, conv) in
  sound (fed_by headers) (signature_state s) ∧ ta_integrity s.1 = ta_integrity t.
Proof.
  intros Hv Hc. cbn zeta. unfold TreeAuthorityPlugin.rebuild. cbn [fst snd].
  pose proof (rebuild_sound headers
    (ta_signature_plugin (TreeAuthorityPlugin.reset t)) conv Hv Hc) as Hs.
  destruct (SignaturePlugin.rebuild headers _) as [p c]. split.
  - apply (feed_all_sound _ _ signature_state); [|done..].
    intros s header. apply feed_signature_state.
  - etrans; [apply feed_all_integrity|]. done.
Qed.

(** Why a validated event was let in: it needs no signature, anyone may write there, an
    authorised key signed it, or the conversation proved an authorised key. *)
Inductive authorised (fed : list CoreMetadata) t conv (header : EventHeader) : Prop :=
  | auth_unsigned : Metadata.needs_signature (eh_meta header) = false →
      raw_data_hash (eh_raw header) = None → authorised fed t conv header
  | auth_everyone auth :
      TreeAuthorityPlugin.compute_auth t (eh_meta header) TransactionMetadata_default BeforeStore
        = Ok auth →
      ma_write auth = WriteEveryone → authorised fed t conv header
  | auth_signed auth key :
      TreeAuthorityPlugin.compute_auth t (eh_meta header) TransactionMetadata_default BeforeStore
        = Ok auth →
      key ∈ WriteOption.vals (ma_write auth) →
      vouched fed (raw_event_hash (eh_raw header)) key → authorised fed t conv header
  | auth_conversation auth key c id :
      TreeAuthorityPlugin.compute_auth t (eh_meta header) TransactionMetadata_default BeforeStore
        = Ok auth →
      key ∈ WriteOption.vals (ma_write auth) →
      ta_integrity t = Centralized Server → conv = Some c → cv_id c = Some id →
      vouched fed id key → authorised fed t conv header.

Lemma conversation_allows_key t c w :
  cv_weaken_validation c = false → SignaturePlugin.verifies (ta_integrity t) = true →
  TreeAuthorityPlugin.conversation_allows t c w = true →
  ta_integrity t = Centralized Server ∧ ∃ key, key ∈ WriteOption.vals w ∧ key ∈ cv_signatures c.
Proof.
  unfold TreeAuthorityPlugin.conversation_allows. intros -> Hv.
  destruct (ta_integrity t) as [|[]]; try done. cbn. intros Hw. split; [done|].
  destruct w as [| | |h|hs]; try done.
  - apply bool_decide_eq_true in Hw. exists h. set_solver.
  - apply existsb_exists in Hw as (h & Hin%list_elem_of_In & Hw%bool_decide_eq_true).
    exists h. cbn. by rewrite elem_of_list_to_set.
Qed.

Lemma validate_authorised fed t conv header :
  sound fed (ta_signature_plugin t, conv) →
  SignaturePlugin.verifies (ta_integrity t) = true →
  (∀ c, conv = Some c → cv_weaken_validation c = false) →
  TreeAuthorityPlugin.validate t header conv = Ok Allow → authorised fed t conv header.
Proof.
  intros [_ _ Hs Hc] Hv Hweak Hval. cbn [fst snd] in Hs, Hc.
  unfold TreeAuthorityPlugin.validate in Hval.
  destruct (negb _ && _) eqn:Hu.
  { apply andb_true_iff in Hu as [?%negb_true_iff ?%bool_decide_eq_true].
    by apply auth_unsigned. }
  apply bind_Ok_inv in Hval as (auth & Ha%map_err_Ok_inv & Hval).
  case_decide as Hev; [by eapply auth_everyone|].
  destruct (SignaturePlugin.get_verified_signatures _ _) as [verified|] eqn:Hg.
  - destruct (existsb _ verified) eqn:Hx; [|done].
    apply existsb_exists in Hx as (key & Hin%list_elem_of_In & Hk%bool_decide_eq_true).
    eapply auth_signed; [done..|]. by eapply Hs.
  - destruct conv as [c|]; [|done].
    destruct (TreeAuthorityPlugin.conversation_allows _ _ _) eqn:Hx; [|done].
    apply conversation_allows_key in Hx as (? & key & ? & Hk); [|by apply Hweak|done].
    destruct (Hc c key eq_refl Hk) as (id & ? & ?). by eapply auth_conversation.
Qed.

(** C29. Only authorised events are accepted.  After the plugin of a verifying node
    (distributed, or the server under centralized trust) has been rebuilt from any
    headers, an event that [validate] allows, in a conversation whose validation is not
    weakened, needs no signature and carries no data, or is written where everyone may
    write, or bears a signature by one of the keys that [compute_auth] lets write there,
    or was sent on a conversation that proved such a key.  The signature is in the
    headers, covers the hash of the event (or the identifier of the conversation) and
    verifies under the public key of that hash. *)
Theorem accepted_is_authorised (headers : list EventHeader) (t : TreeAuthorityPlugin)
  (conv : option ConversationSession) (header : EventHeader)
  (Hmode : sp_integrity (ta_signature_plugin t) = ta_integrity t)
  (Hv : SignaturePlugin.verifies (ta_integrity t) = true)
  (Hconv : ∀ c, conv = Some c → cv_signatures c = ∅) :
  let s := TreeAuthorityPlugin.rebuild headers (t, conv) in
  (∀ c, s.2 = Some c → cv_weaken_validation c = false) →
  TreeAuthorityPlugin.validate s.1 header s.2 = Ok Allow →
  authorised (fed_by headers) s.1 s.2 header.
Proof.
  intros s Hweak Hval.
  destruct (rebuild_tree headers t conv) as [Hs Hi];
    [by rewrite Hmode | by apply conv_from_empty|].
  fold s in Hs, Hi. apply validate_authorised; [exact Hs | by rewrite Hi | done..].
Qed.
End validation.

(** ** What an authorised writer lints is accepted *)

Section acceptance.
Context `{CryptoPrims} `{KemPrims}.
Implicit Types (t u : TreeAuthorityPlugin) (tm : TransactionMetadata).

(** Two trees that hold the same permissions. *)
Definition same_tree t u : Prop :=
  ta_root t = ta_root u ∧ ta_auth t = ta_auth u ∧ ta_parents t = ta_parents u.

Lemma resolve_same t u tm fuel p r w : same_tree t u →
  TreeAuthorityPlugin.resolve fuel t tm p r w = TreeAuthorityPlugin.resolve fuel u tm p r w.
Proof.
  intros (_ & Ha & Hp). revert p r w. induction fuel as [|fuel IH]; intros p r w; [done|].
  cbn [TreeAuthorityPlugin.resolve]. destruct p as [a|]; [|done].
  unfold TreeAuthorityPlugin.lookup_auth, TreeAuthorityPlugin.next_parent. rewrite Ha, Hp.
  case_decide; [|done]. repeat (case_match; try done); apply IH.
Qed.

Lemma compute_auth_same t u tm meta meta' : same_tree t u →
  Metadata.get_data_key meta' = Metadata.get_data_key meta →
  Metadata.get_parent meta' = Metadata.get_parent meta →
  TreeAuthorityPlugin.compute_auth u meta' tm BeforeStore
  = TreeAuthorityPlugin.compute_auth t meta tm BeforeStore.
Proof.
  intros Hs Hk Hp. unfold TreeAuthorityPlugin.compute_auth. rewrite Hk, Hp.
  destruct (Metadata.get_data_key meta) as [key|]; destruct Hs as (Hr & Ha & Hps).
  - assert (TreeAuthorityPlugin.own_auth u meta' tm BeforeStore key
            = TreeAuthorityPlugin.own_auth t meta tm BeforeStore key) as ->.
    { unfold TreeAuthorityPlugin.own_auth, TreeAuthorityPlugin.lookup_auth. by rewrite Ha. }
    assert (TreeAuthorityPlugin.resolve_fuel u tm = TreeAuthorityPlugin.resolve_fuel t tm) as ->.
    { unfold TreeAuthorityPlugin.resolve_fuel. by rewrite Hps. }
    rewrite (resolve_same t u) by done. by rewrite Hr.
  - by rewrite Hr.
Qed.

(** The entries the linter and the transformer add do not say which record it is. *)
Definition added (c : CoreMetadata) : Prop :=
  match c with
  | CoreSignWith _ | CoreConfidentiality _ | CoreInitializationVector _ => True
  | _ => False
  end.

Lemma find_map_added {B : Type} (f : CoreMetadata → option B) core rest :
  Forall (λ c, f c = None) rest → find_map f (core ++ rest) = find_map f core.
Proof.
  intros Hr. rewrite find_map_app. destruct (find_map f core); [done|].
  apply find_map_None. by apply Forall_forall.
Qed.

Lemma lint_sign_with_inv t meta session tm code ms :
  TreeAuthorityPlugin.lint_sign_with t meta session tm code = Ok ms →
  Metadata.needs_signature meta = true →
  ∃ auth, TreeAuthorityPlugin.compute_auth t meta tm BeforeStore = Ok auth
    ∧ ((ma_write auth = WriteEveryone ∧ ms = [])
       ∨ (TreeAuthorityPlugin.signing_keys session (ma_write auth) ≠ []
          ∧ ms = [CoreSignWith {| sw_keys :=
                    TreeAuthorityPlugin.signing_keys session (ma_write auth) |}])).
Proof.
  intros (auth & Ha%map_err_Ok_inv & Hms)%bind_Ok_inv Hn. exists auth. split; [done|].
  rewrite Hn in Hms. destruct (ma_write auth); try done; [left; by simplify_eq|..];
    cbn [andb] in Hms; case_bool_decide; try (by destruct (Metadata.get_data_key meta));
    right; by simplify_eq.
Qed.

Lemma elem_of_signing_keys session w key :
  key ∈ TreeAuthorityPlugin.signing_keys session w →
  key ∈ WriteOption.vals w ∧ is_Some (session_key session key).
Proof.
  unfold TreeAuthorityPlugin.signing_keys. rewrite list_elem_of_join.
  intros (l & Hl & (h & -> & Hh%elem_of_elements)%list_elem_of_fmap).
  apply list_elem_of_filter in Hl as [-> (sk & -> & Hsk)%list_elem_of_fmap]. split; [done|].
  unfold session_key.
  destruct (List.find _ _) as [k|] eqn:E; [by eauto|].
  eapply List.find_none in E; [|by apply list_elem_of_In].
  by rewrite bool_decide_eq_true_2 in E.
Qed.

Lemma lint_confidentiality_added t meta session tm code ms :
  TreeAuthorityPlugin.lint_confidentiality t meta session tm code = Ok ms →
  Forall (λ c, ∃ conf, c = CoreConfidentiality conf) ms.
Proof.
  intros (auth & _ & (kh & _ & Hms)%bind_Ok_inv)%bind_Ok_inv. injection Hms as <-.
  destruct kh; repeat constructor. by eauto.
Qed.

Lemma validate_signed t header conv auth key :
  TreeAuthorityPlugin.compute_auth t (eh_meta header) TransactionMetadata_default BeforeStore
    = Ok auth →
  key ∈ WriteOption.vals (ma_write auth) →
  has_signature (ta_signature_plugin t) (raw_event_hash (eh_raw header)) key →
  TreeAuthorityPlugin.validate t header conv = Ok Allow.
Proof.
  intros Ha Hk Hs. unfold TreeAuthorityPlugin.validate. destruct (_ && _); [done|].
  rewrite Ha. cbn. case_decide; [done|]. unfold has_signature in Hs.
  destruct (SignaturePlugin.get_verified_signatures _ _) as [l|]; [|by apply elem_of_nil in Hs].
  assert (existsb (λ h, bool_decide (h ∈ WriteOption.vals (ma_write auth))) l = true) as ->;
    [|done].
  apply existsb_exists. exists key. rewrite bool_decide_eq_true_2 by done. split; [|done].
  by apply list_elem_of_In.
Qed.

Lemma feed_proof_same header u conv r p' conv' :
  (∀ m, m ∈ meta_core (eh_meta header) →
     (∃ pk, m = CorePublicKey pk) ∨ ∃ sig, m = CoreSignature sig) →
  SignaturePlugin.feed header (ta_signature_plugin u, conv) = (r, (p', conv')) →
  ∃ v, TreeAuthorityPlugin.feed header (u, conv) = (r, (v, conv'))
       ∧ ta_signature_plugin v = p' ∧ same_tree u v.
Proof.
  intros Honly Hf. unfold TreeAuthorityPlugin.feed, st_mk.
  assert (TreeAuthorityPlugin.feed_tree header u = u) as ->.
  { unfold TreeAuthorityPlugin.feed_tree, Metadata.get_tombstone, Metadata.get_data_key.
    rewrite (proj2 (find_map_None _ _)), (proj2 (find_map_None _ _)); [done|..];
      intros m [[? ->]|[? ->]]%Honly; done. }
  rewrite Hf. by eexists.
Qed.

(** An event as a transaction sends it: [meta] with what the linter added, and the vectors
    the transformer added. *)
Definition sent_core (meta : Metadata) (extra : list CoreMetadata)
    (ivs : list InitializationVector) : list CoreMetadata :=
  meta_core meta ++ extra ++ (CoreInitializationVector <$> ivs).

Lemma sent_core_same {B : Type} (f : CoreMetadata → option B) meta extra ivs :
  (∀ c, added c → f c = None) → Forall added extra →
  find_map f (sent_core meta extra ivs) = find_map f (meta_core meta).
Proof.
  intros Hf Hx. apply find_map_added, Forall_app. split; [by eapply Forall_impl|].
  apply Forall_fmap, Forall_true. intros iv. by apply Hf.
Qed.

Lemma sent_wants t meta session code extra ivs auth data header :
  TreeAuthorityPlugin.metadata_lint_event t meta session TransactionMetadata_default code
    = Ok extra →
  Metadata.needs_signature meta = true → Metadata.get_sign_with meta = None →
  meta_core (ew_meta data) = sent_core meta extra ivs →
  TreeAuthorityPlugin.compute_auth t meta TransactionMetadata_default BeforeStore = Ok auth →
  let e := {| li_data := data; li_header := header |} in
  Forall added extra
  ∧ (∀ key, wants e key → key ∈ TreeAuthorityPlugin.signing_keys session (ma_write auth))
  ∧ (ma_write auth = WriteEveryone
     ∨ ∃ key, key ∈ TreeAuthorityPlugin.signing_keys session (ma_write auth) ∧ wants e key).
Proof.
  intros (sw & Hsw & (conf & Hconf & Hx)%bind_Ok_inv)%bind_Ok_inv Hn Hg Hdata Ha. intros e.
  injection Hx as <-. apply lint_confidentiality_added in Hconf.
  destruct (lint_sign_with_inv _ _ _ _ _ _ Hsw Hn) as (auth' & Ha' & Hcase).
  rewrite Ha in Ha'. injection Ha' as <-.
  assert (Metadata.get_sign_with (ew_meta data)
          = find_map (λ c, match c with CoreSignWith a => Some a | _ => None end) sw) as Hget.
  { unfold Metadata.get_sign_with in *. rewrite Hdata. unfold sent_core.
    rewrite find_map_app, Hg, <-app_assoc. apply find_map_added, Forall_app.
    split; [by eapply Forall_impl; [done|]; intros ? [? ->]|]. by apply Forall_fmap, Forall_true. }
  assert (Forall added conf) by (eapply Forall_impl; [done|]; by intros ? [? ->]).
  unfold wants, e. cbn [li_data]. setoid_rewrite Hget.
  destruct Hcase as [[Hev ->]|[Hne ->]]; cbn.
  - split; [done|]. split; [|by left]. by intros key (a & ? & ?).
  - split; [by constructor|]. split; [by intros key (a & [= <-] & ?)|]. right.
    destruct (TreeAuthorityPlugin.signing_keys session (ma_write auth)) as [|key keys] eqn:E; [done|].
    exists key. split; [left|]. eexists. split; [done|]. left.
Qed.

(** C31. What an authorised writer commits, every node with the same tree accepts.  When
    linting an event succeeds (so the session holds a key that may write there, or everyone
    may), the transaction's signatures are produced, and a verifying node that holds the
    same permissions, knows at least the writer's public keys and none that contradicts the
    session's, feeds the event that carries them without error and then validates the
    written event: it is allowed. *)
Theorem linted_event_accepted (t u : TreeAuthorityPlugin) (meta : Metadata)
  (session : AteSession) (code : string) (extra : list CoreMetadata)
  (ivs : list InitializationVector) (data : EventWeakData) (header : EventHeader)
  (conv_u : option ConversationSession)
  (Hlint : TreeAuthorityPlugin.metadata_lint_event t meta session
             TransactionMetadata_default code = Ok extra)
  (Hneeds : Metadata.needs_signature meta = true)
  (Hnosign : Metadata.get_sign_with meta = None)
  (Hdata : meta_core (ew_meta data) = sent_core meta extra ivs)
  (Hheader : eh_meta header = ew_meta data)
  (Hgen : ∀ auth sk, session_key session auth = Some sk → PrivateSignKey.generated sk)
  (Hsame : same_tree t u)
  (Hagree : agrees session (ta_signature_plugin u))
  (Hknown : ∀ auth, SignaturePlugin.has_public_key (ta_signature_plugin t) auth = true →
                    SignaturePlugin.has_public_key (ta_signature_plugin u) auth = true)
  (Hv : SignaturePlugin.verifies (sp_integrity (ta_signature_plugin u)) = true) :
  ∃ metas, TreeAuthorityPlugin.metadata_lint_many t
             [{| li_data := data; li_header := header |}] session None = (Ok metas, None)
    ∧ ∀ proof_header, meta_core (eh_meta proof_header) = metas →
        ∃ u' conv_u', TreeAuthorityPlugin.feed proof_header (u, conv_u) = (Ok (), (u', conv_u'))
          ∧ TreeAuthorityPlugin.validate u' header conv_u' = Ok Allow.
Proof.
  set (e := {| li_data := data; li_header := header |}).
  assert (∃ auth, TreeAuthorityPlugin.compute_auth t meta TransactionMetadata_default BeforeStore
                  = Ok auth) as [auth Ha].
  { apply bind_Ok_inv in Hlint as (sw & Hsw & _).
    destruct (lint_sign_with_inv _ _ _ _ _ _ Hsw Hneeds) as (auth & ? & _). by eauto. }
  destruct (sent_wants _ _ _ _ _ _ _ _ header Hlint Hneeds Hnosign Hdata Ha)
    as (Hadded & Hwants & Hcase).
  destruct (lint_many_lints (ta_signature_plugin t) [e] session None) as (metas & conv' & E & Hl).
  { intros e' key ->%list_elem_of_singleton Hw%Hwants _.
    apply elem_of_signing_keys in Hw as [_ [sk Hsk]]. by eauto. }
  pose proof (lint_conv_none _ _ _ _ _ E) as ->.
  exists metas. split; [exact E|]. intros ph Hph.
  destruct (lints_accepted _ (ta_signature_plugin u) _ _ _ conv_u _ _ Hl Hph Hagree Hknown Hv)
    as (q' & conv_q & Hf & Hsig).
  destruct (feed_proof_same ph u conv_u _ _ _ ltac:(rewrite Hph; apply Hl) Hf)
    as (v & Hfeed & <- & Hsame').
  exists v, conv_q. split; [done|].
  assert (TreeAuthorityPlugin.compute_auth v (eh_meta header) TransactionMetadata_default
            BeforeStore = Ok auth) as Hav.
  { rewrite <-Ha. apply compute_auth_same.
    - unfold same_tree in *. intuition congruence.
    - rewrite Hheader. unfold Metadata.get_data_key. rewrite Hdata.
      apply sent_core_same; [|done]. by intros [].
    - rewrite Hheader. unfold Metadata.get_parent. rewrite Hdata.
      apply sent_core_same; [|done]. by intros []. }
  destruct Hcase as [Hev|(key & Hk & Hw)].
  - unfold TreeAuthorityPlugin.validate. destruct (_ && _); [done|]. rewrite Hav. cbn.
    by rewrite decide_True.
  - apply (validate_signed _ _ _ auth key); [done|by apply elem_of_signing_keys in Hk as [? _]|].
    apply (Hsig e key); [left|done|]. unfold proven. by destruct (TrustMode.is_centralized _).
Qed.
End acceptance.


(** ** Encryption round trip *)

Section transformation.
Context `{CryptoPrims} `{KemPrims}.
Implicit Types (t : TreeAuthorityPlugin) (session : AteSession).

Lemma find_find_map {A B : Type} (P : A → bool) (f : A → option B) (l : list A) :
  (∀ x, P x = false → f x = None) →
  match List.find P l with
  | Some x => f x ≠ None → find_map f l = f x
  | None => find_map f l = None
  end.
Proof.
  intros Hf. induction l as [|x l IH]; simpl; [done|].
  destruct (P x) eqn:E; [|by rewrite (Hf _ E)]. by destruct (f x).
Qed.

Lemma search_first {K : Type} (hash : K → AteHash) transmute keys h short :
  match List.find (λ k, bool_decide (hash k = h)) keys with
  | Some k => ∀ inner, transmute k = Ok inner → EncryptKey.short_hash inner = short →
      TreeAuthorityPlugin.search_read_key hash transmute keys h short = Ok (Some inner)
  | None => TreeAuthorityPlugin.search_read_key hash transmute keys h short = Ok None
  end.
Proof.
  induction keys as [|k keys IH]; [done|].
  cbn [List.find TreeAuthorityPlugin.search_read_key]. case_bool_decide as Hh.
  - rewrite decide_True by done. intros inner -> Hs. cbn. by rewrite decide_True.
  - rewrite decide_False by done. exact IH.
Qed.

(** The key the linter announces is the key the transformer encrypts with. *)
Lemma lint_opens_first session h d k :
  TreeAuthorityPlugin.first_read_key session h d = Some (Ok k) →
  match TreeAuthorityPlugin.open_with_keys session h d with
  | Some k => Some k
  | None => TreeAuthorityPlugin.open_with_pairs session h d
  end = Some k.
Proof.
  unfold TreeAuthorityPlugin.first_read_key, TreeAuthorityPlugin.open_with_keys,
    TreeAuthorityPlugin.open_with_pairs. intros Hk.
  pose proof (find_find_map (λ k, bool_decide (EncryptKey.hash k = h))
    (λ p, if decide (EncryptKey.hash p = h)
          then result_ok (DerivedEncryptKey.transmute d p) else None) (ss_read_keys session)) as Hs.
  destruct (List.find _ (ss_read_keys session)) as [k1|] eqn:E1.
  - apply List.find_some in E1 as [_ E1%bool_decide_eq_true].
    injection Hk as Hk%map_err_Ok_inv.
    rewrite decide_True, Hk in Hs by done. cbn [result_ok] in Hs. rewrite Hs; [done| |done].
    intros x Hx%bool_decide_eq_false. by rewrite decide_False.
  - rewrite Hs by (intros x Hx%bool_decide_eq_false; by rewrite decide_False).
    pose proof (find_find_map (λ k, bool_decide (PrivateEncryptKey.hash k = h))
      (λ p, if decide (PrivateEncryptKey.hash p = h)
            then result_ok (DerivedPrivate.transmute_private d p) else None)
      (ss_private_read_keys session)) as Hp.
    destruct (List.find _ (ss_private_read_keys session)) as [k2|] eqn:E2; [|done].
    apply List.find_some in E2 as [_ E2%bool_decide_eq_true].
    injection Hk as Hk%map_err_Ok_inv.
    rewrite decide_True, Hk in Hp by done. cbn [result_ok] in Hp. apply Hp; [|done].
    intros x Hx%bool_decide_eq_false. by rewrite decide_False.
Qed.

Lemma get_encrypt_key_first t meta conf iv session auth h d k :
  conf_cache conf = None → conf_hash conf = EncryptKey.short_hash k →
  TreeAuthorityPlugin.compute_auth t meta TransactionMetadata_default AfterStore = Ok auth →
  ma_read auth = ReadSpecific h d →
  TreeAuthorityPlugin.first_read_key session h d = Some (Ok k) →
  TreeAuthorityPlugin.get_encrypt_key t meta conf iv session = Ok (Some k).
Proof.
  intros Hc Hs Ha Hr Hk. unfold TreeAuthorityPlugin.get_encrypt_key. rewrite Hc, Ha. cbn.
  rewrite Hr. unfold TreeAuthorityPlugin.first_read_key in Hk.
  pose proof (search_first EncryptKey.hash
    (λ k, map_err (λ e, TransformIO (SecureIo e)) (DerivedEncryptKey.transmute d k))
    (ss_read_keys session) h (conf_hash conf)) as Hf.
  destruct (List.find _ (ss_read_keys session)) as [k1|].
  - injection Hk as Hk. rewrite (Hf k Hk) by done. done.
  - rewrite Hf. cbn.
    pose proof (search_first PrivateEncryptKey.hash
      (λ k, map_err TransformIO (DerivedPrivate.transmute_private d k))
      (ss_private_read_keys session) h (conf_hash conf)) as Hg.
    destruct (List.find _ (ss_private_read_keys session)) as [k2|]; [|done].
    injection Hk as Hk. by rewrite (Hg k Hk).
Qed.

Lemma get_confidentiality_forget m :
  Metadata.get_confidentiality (forget_cache m)
  = (λ c, {| conf_hash := conf_hash c; conf_cache := None |}) <$> Metadata.get_confidentiality m.
Proof.
  unfold Metadata.get_confidentiality, forget_cache. cbn [meta_core].
  induction (meta_core m) as [|c core IH]; [done|]. destruct c; try done.
Qed.

Lemma get_iv_forget m : Metadata.get_iv (forget_cache m) = Metadata.get_iv m.
Proof. apply find_map_forget_cache. by intros []. Qed.

Lemma get_iv_append meta rest : Metadata.get_iv meta = None →
  Metadata.get_iv {| meta_core := meta_core meta ++ rest |}
  = Metadata.get_iv {| meta_core := rest |}.
Proof. intros Hi. unfold Metadata.get_iv in *. cbn [meta_core]. by rewrite find_map_app, Hi. Qed.

Lemma get_confidentiality_append meta rest : Metadata.get_confidentiality meta = None →
  Metadata.get_confidentiality {| meta_core := meta_core meta ++ rest |}
  = Metadata.get_confidentiality {| meta_core := rest |}.
Proof.
  intros Hi. unfold Metadata.get_confidentiality in *. cbn [meta_core]. by rewrite find_map_app, Hi.
Qed.

(** What the linter says about the key of the data. *)
Definition announces session (read : ReadOption) (ms : list CoreMetadata) : Prop :=
  match (match read with
         | ReadInherit => None
         | ReadEveryone key => key
         | ReadSpecific h d => match TreeAuthorityPlugin.open_with_keys session h d with
                               | Some k => Some k
                               | None => TreeAuthorityPlugin.open_with_pairs session h d
                               end
         end) with
  | Some k => ms = [CoreConfidentiality {| conf_hash := EncryptKey.short_hash k;
                                           conf_cache := Some read |}]
  | None => ms = []
  end.

Lemma lint_announces t meta session tm code ms :
  TreeAuthorityPlugin.lint_confidentiality t meta session tm code = Ok ms →
  ∃ auth, TreeAuthorityPlugin.compute_auth t meta tm AfterStore = Ok auth
          ∧ announces session (ma_read auth) ms.
Proof.
  intros (auth & Ha%map_err_Ok_inv & (kh & Hkh & Hms)%bind_Ok_inv)%bind_Ok_inv.
  exists auth. split; [done|]. injection Hms as <-. unfold announces.
  destruct (ma_read auth) as [|key|h d].
  - by injection Hkh as <-.
  - injection Hkh as <-. by destruct key.
  - destruct (TreeAuthorityPlugin.open_with_keys session h d); [by injection Hkh as <-|].
    destruct (TreeAuthorityPlugin.open_with_pairs session h d); [by injection Hkh as <-|].
    destruct (Metadata.get_data_key meta); [done|]. by injection Hkh as <-.
Qed.

Lemma underlay_auth t meta session tm ms read :
  Metadata.get_confidentiality meta = None → announces session read ms →
  (ms = [] → ma_read <$> TreeAuthorityPlugin.compute_auth t meta tm AfterStore = Ok read) →
  let meta1 := {| meta_core := meta_core meta ++ ms |} in
  match Metadata.get_confidentiality meta1 ≫= conf_cache with
  | Some a => Ok a
  | None => ma_read <$> map_err TransformTrust
              (TreeAuthorityPlugin.compute_auth t meta1 tm AfterStore)
  end = Ok read.
Proof.
  intros Hc Hm Ha meta1. unfold meta1, announces in *. rewrite get_confidentiality_append by done.
  destruct (match read with ReadInherit => _ | _ => _ end); subst ms; [done|].
  rewrite app_nil_r. destruct meta as [core]. cbn [meta_core Metadata.get_confidentiality find_map].
  cbn. specialize (Ha eq_refl).
  destruct (TreeAuthorityPlugin.compute_auth _ _ _ _); [|done]. cbn in *. by injection Ha as ->.
Qed.

(** Data reads back as it was written.  Lint the metadata [meta] of an event, add what that
    gives to metadata [base] that carries no vector and no confidentiality yet, pass the
    data through [data_as_underlay], and forget the cache, as storing the event does: a
    reader whose tree gives the stored event the same read option, and whose first key of
    the option's hash opens the same derived key as the writer's, gets from
    [data_as_overlay] exactly the bytes that were written. *)
Lemma underlay_overlay (rnd : bytes) (t t' : TreeAuthorityPlugin) (meta base meta' : Metadata)
  (session reader : AteSession) (tm tm1 : TransactionMetadata) (code : string)
  (ms : list CoreMetadata) (data stored : bytes) (auth auth' : MetaAuthorization)
  (Hconf : Metadata.get_confidentiality base = None) (Hiv : Metadata.get_iv base = None)
  (Hlint : TreeAuthorityPlugin.lint_confidentiality t meta session tm code = Ok ms)
  (Hunder : TreeAuthorityPlugin.data_as_underlay rnd t data session tm1
              {| meta_core := meta_core base ++ ms |} = (Ok stored, meta'))
  (Hauth : TreeAuthorityPlugin.compute_auth t meta tm AfterStore = Ok auth)
  (Hauth1 : ms = [] →
     ma_read <$> TreeAuthorityPlugin.compute_auth t base tm1 AfterStore = Ok (ma_read auth))
  (Hauth' : TreeAuthorityPlugin.compute_auth t' (forget_cache meta')
              TransactionMetadata_default AfterStore = Ok auth')
  (Hread : ma_read auth' = ma_read auth)
  (Hkeys : ∀ h d, ma_read auth = ReadSpecific h d →
     TreeAuthorityPlugin.first_read_key reader h d
     = TreeAuthorityPlugin.first_read_key session h d) :
  TreeAuthorityPlugin.data_as_overlay t' (forget_cache meta') stored reader = Ok data.
Proof.
  destruct (lint_announces _ _ _ _ _ _ Hlint) as (auth0 & Ha0 & Hann).
  rewrite Hauth in Ha0. injection Ha0 as <-.
  unfold TreeAuthorityPlugin.data_as_underlay, st_mk in Hunder.
  rewrite (underlay_auth _ _ _ _ _ _ Hconf Hann Hauth1) in Hunder. cbn [mbind result_bind] in Hunder.
  unfold TreeAuthorityPlugin.data_as_overlay.
  rewrite get_confidentiality_forget, get_iv_forget.
  destruct (ma_read auth) as [|key|h d] eqn:Hr; cbn [TreeAuthorityPlugin.generate_encrypt_key] in Hunder.
  - done.
  - injection Hunder as <- <-. rewrite get_iv_append, get_confidentiality_append by done.
    unfold announces in Hann. destruct key as [k|]; subst ms; [|done].
    cbn [Metadata.get_confidentiality Metadata.get_iv meta_core find_map fmap option_fmap
      option_map conf_hash app].
    unfold TreeAuthorityPlugin.get_encrypt_key. cbn [conf_cache]. rewrite Hauth'. cbn.
    by rewrite Hread.
  - destruct (TreeAuthorityPlugin.first_read_key session h d) as [[k|]|] eqn:Hk; try done.
    cbn [fmap result_fmap] in Hunder.
    unfold announces in Hann. rewrite (lint_opens_first _ _ _ _ Hk) in Hann. subst ms.
    injection Hunder as <- Hm. unfold Metadata.push in Hm. cbn [meta_core] in Hm.
    rewrite <-app_assoc in Hm.
    rewrite <-Hm, get_iv_append, get_confidentiality_append by done.
    cbn [Metadata.get_confidentiality Metadata.get_iv meta_core find_map fmap option_fmap
      option_map conf_hash app].
    rewrite (get_encrypt_key_first _ _ _ _ reader auth' h d k); try done.
    + cbn. f_equal. apply decrypt_encrypt_with_iv.
    + rewrite <-Hm in Hauth'. exact Hauth'.
    + by rewrite Hkeys.
Qed.
End transformation.


(** ** The parent that an event declares *)

Section declared.
Context `{CryptoPrims}.
Implicit Types t : TreeAuthorityPlugin.

(** C37. Finding: the permission to overwrite a record that inherits is looked up under the parent
    that the new event declares, not under the parent on record.  Take any tree, a record in it that
    inherits from [guard], and a record [open] that everyone may write.  An unsigned event for the
    record that names the parent on record is refused, but any event for it that names [open] is
    allowed, signed or not; feeding it moves the record under [open], with the authorization that
    the event gives it. *)
Theorem declared_parent_overrides t (k : PrimaryKey) (guard open : MetaParent) (w : WriteOption) (header : EventHeader)
  (Hinherits : ma_write (default inherit_auth (ta_auth t !! k)) = WriteInherit)
  (Hrecord : ta_parents t !! k = Some guard)
  (Hguard : resolves_write t (parent_key guard) w) (Hclosed : w ≠ WriteEveryone)
  (Hopen : resolves_write t (parent_key open) WriteEveryone) (Hother : parent_key open ≠ k)
  (Hkey : Metadata.get_data_key (eh_meta header) = Some k)
  (Hparent : Metadata.get_parent (eh_meta header) = Some open)
  (Hdata : Metadata.get_tombstone (eh_meta header) = None) :
  (∀ conv, TreeAuthorityPlugin.validate t header conv = Ok Allow)
  ∧ (let t' := TreeAuthorityPlugin.feed_tree header t in
     ta_parents t' !! k = Some open
     ∧ ta_auth t' !! k = Some (default inherit_auth (Metadata.get_authorization (eh_meta header))))
  ∧ ∀ honest, Metadata.get_data_key (eh_meta honest) = Some k → Metadata.get_parent (eh_meta honest) = Some guard →
      is_Some (raw_data_hash (eh_raw honest)) →
      SignaturePlugin.get_verified_signatures (ta_signature_plugin t) (raw_event_hash (eh_raw honest)) = None →
      TreeAuthorityPlugin.validate t honest None = Err NoSignatures.
Proof.
  split; [|split].
  - intros conv. unfold TreeAuthorityPlugin.validate. case_match; [done|].
    pose proof (compute_auth_declared t _ k open _ Hkey Hparent Hinherits Hopen) as Hc.
    destruct (TreeAuthorityPlugin.compute_auth _ _ _ _) as [auth|]; [|done]. injection Hc as Hc. cbn. by rewrite decide_True.
  - unfold TreeAuthorityPlugin.feed_tree. rewrite Hdata, Hkey, Hparent, decide_True by done. cbn. by rewrite !lookup_insert_eq.
  - intros honest Hk Hp [hash Hh] Hnone. unfold TreeAuthorityPlugin.validate.
    rewrite bool_decide_false, andb_false_r by (by rewrite Hh).
    pose proof (compute_auth_declared t _ k guard _ Hk Hp Hinherits Hguard) as Hc.
    destruct (TreeAuthorityPlugin.compute_auth _ _ _ _) as [auth|]; [|done]. injection Hc as Hc. cbn.
    by rewrite decide_False, Hnone by congruence.
Qed.
End declared.

(** ** Concrete inputs *)

#[local] Existing Instance toy_prims.
#[local] Existing Instance toy_kem.

Definition in_record (k p : Z) : list CoreMetadata :=
  [CoreData (PrimaryKey.new k);
   CoreParent {| mp_vec := {| mc_parent_id := PrimaryKey.new p; mc_collection_id := 0 |} |}].

Definition write_auth (w : WriteOption) : CoreMetadata :=
  CoreAuthorization {| ma_read := ReadEveryone None; ma_write := w |}.

Definition sample_event (core : list CoreMetadata) : EventHeader := sample_header sample_hash core.

(** A chain whose root key is the session's: record 1 belongs to that key, record 2 to
    everyone, and record 3 is a child of record 1 that inherits. *)
Definition rooted_tree : TreeAuthorityPlugin :=
  TreeAuthorityPlugin.set_root_keys [PrivateSignKey.as_public_key sample_key]
    TreeAuthorityPlugin.new.

Definition guarded_tree : TreeAuthorityPlugin :=
  foldl (λ t header, TreeAuthorityPlugin.feed_tree header t) rooted_tree
    [sample_event [CoreData (PrimaryKey.new 1);
                   write_auth (WriteSpecific (PrivateSignKey.hash sample_key))];
     sample_event [CoreData (PrimaryKey.new 2); write_auth WriteEveryone];
     sample_event (in_record 3 1)].

(** The child of the guarded record is moved under the open one. *)
Lemma declared_parent_overrides_witness :
  (∀ conv, TreeAuthorityPlugin.validate guarded_tree (sample_event (in_record 3 2)) conv = Ok Allow)
  ∧ parent_key <$> ta_parents (TreeAuthorityPlugin.feed_tree (sample_event (in_record 3 2)) guarded_tree) !! PrimaryKey.new 3
    = Some (PrimaryKey.new 2).
Proof.
  assert (∀ p, p = PrimaryKey.new 1 ∨ p = PrimaryKey.new 2 →
    ancestry guarded_tree TransactionMetadata_default p [p]
    ∧ is_Some (TreeAuthorityPlugin.lookup_auth guarded_tree TransactionMetadata_default p)) as Ha.
  { intros p [->| ->]; (split; [constructor; vm_compute; reflexivity|]); eexists; vm_compute; reflexivity. }
  assert (∀ p w, p = PrimaryKey.new 1 ∨ p = PrimaryKey.new 2 →
    first_write (ma_write <$> ancestors_auth guarded_tree TransactionMetadata_default [p]) (ta_root guarded_tree) = w →
    resolves_write guarded_tree p w) as Hr.
  { intros p w Hp Hw. destruct (Ha p Hp) as [H1 H2]. exists [p]. split; [exact H1|]. split; [|exact Hw].
    by intros b ->%list_elem_of_singleton. }
  destruct (declared_parent_overrides guarded_tree (PrimaryKey.new 3)
    {| mp_vec := {| mc_parent_id := PrimaryKey.new 1; mc_collection_id := 0 |} |}
    {| mp_vec := {| mc_parent_id := PrimaryKey.new 2; mc_collection_id := 0 |} |}
    (WriteSpecific (PrivateSignKey.hash sample_key)) (sample_event (in_record 3 2))) as (Hv & [Hp _] & _).
  - vm_compute. reflexivity.
  - vm_compute. reflexivity.
  - apply Hr; [by left|vm_compute; reflexivity].
  - discriminate.
  - apply Hr; [by right|vm_compute; reflexivity].
  - vm_compute. discriminate.
  - reflexivity.
  - reflexivity.
  - reflexivity.
  - split; [exact Hv|]. by rewrite Hp.
Defined.

(** Three events on a chain that everyone may write: record 1, record 2 under record 1,
    and record 1 again, now under record 2. *)
Definition cycle_events : list EventHeader :=
  [sample_event [CoreData (PrimaryKey.new 1)];
   sample_event (in_record 2 1);
   sample_event (in_record 1 2)].

Definition cycle_tree : TreeAuthorityPlugin :=
  foldl (λ t header, TreeAuthorityPlugin.feed_tree header t) TreeAuthorityPlugin.new cycle_events.

(** Finding: parents may form a cycle, and then the walk of [compute_auth] never ends.
    Each of three events is allowed when it arrives; after they are fed, no number of turns
    resolves the permissions of a record under record 2. *)
Theorem parent_cycle_diverges :
  (∀ n header, cycle_events !! n = Some header →
     TreeAuthorityPlugin.validate
       (foldl (λ t header, TreeAuthorityPlugin.feed_tree header t) TreeAuthorityPlugin.new
          (take n cycle_events)) header None = Ok Allow)
  ∧ ∀ fuel, TreeAuthorityPlugin.resolve fuel cycle_tree TransactionMetadata_default
      (Some (PrimaryKey.new 2)) ReadInherit WriteInherit = Err TrustDiverged.
Proof.
  split.
  - intros [|[|[|n]]] header Hn; [injection Hn as <-; vm_compute; reflexivity..|done].
  - assert (∀ fuel a b,
      TreeAuthorityPlugin.lookup_auth cycle_tree TransactionMetadata_default a = Some inherit_auth →
      TreeAuthorityPlugin.lookup_auth cycle_tree TransactionMetadata_default b = Some inherit_auth →
      TreeAuthorityPlugin.next_parent cycle_tree TransactionMetadata_default a = Some b →
      TreeAuthorityPlugin.next_parent cycle_tree TransactionMetadata_default b = Some a →
      TreeAuthorityPlugin.resolve fuel cycle_tree TransactionMetadata_default (Some a)
        ReadInherit WriteInherit = Err TrustDiverged) as Hloop.
    { induction fuel as [|fuel IH]; intros a b Ha Hb Hab Hba; [done|].
      cbn [TreeAuthorityPlugin.resolve]. rewrite decide_True by tauto. rewrite Ha, Hab.
      exact (IH b a Hb Ha Hba Hab). }
    intros fuel. apply (Hloop fuel _ (PrimaryKey.new 1)); vm_compute; reflexivity.
Qed.

Lemma compute_auth_nearest_witness :
  ∃ auth, TreeAuthorityPlugin.compute_auth guarded_tree {| meta_core := in_record 3 1 |}
            TransactionMetadata_default AfterStore = Ok auth
    ∧ ma_write auth = WriteSpecific (PrivateSignKey.hash sample_key).
Proof.
  pose proof (compute_auth_nearest guarded_tree TransactionMetadata_default
    {| meta_core := in_record 3 1 |} AfterStore (PrimaryKey.new 3) [PrimaryKey.new 1]
    ltac:(reflexivity) ltac:(constructor; vm_compute; reflexivity)) as Hn.
  destruct (TreeAuthorityPlugin.compute_auth _ _ _ _) as [auth|e] eqn:Ha;
    [|vm_compute in Ha; discriminate Ha].
  exists auth. split; [reflexivity|]. rewrite Hn. vm_compute. reflexivity.
Defined.

Lemma accepted_is_authorised_witness :
  authorised (fed_by [sample_proof])
    (TreeAuthorityPlugin.rebuild [sample_proof] (rooted_tree, None)).1
    (TreeAuthorityPlugin.rebuild [sample_proof] (rooted_tree, None)).2
    (sample_event [CoreSignWith {| sw_keys := [PrivateSignKey.hash sample_key] |}]).
Proof.
  apply (accepted_is_authorised [sample_proof] rooted_tree None); try (vm_compute; reflexivity).
  - intros c Hc. discriminate Hc.
  - intros c Hc. vm_compute in Hc. discriminate Hc.
Defined.

Definition committed_core : list CoreMetadata :=
  sent_core (Metadata.for_data (PrimaryKey.new 7))
    [CoreSignWith {| sw_keys := [PrivateSignKey.hash sample_key] |}] [].

Lemma linted_event_accepted_witness :
  let data := {| ew_meta := {| meta_core := committed_core |}; ew_data_bytes := BytesNone;
                 ew_format := {| mf_meta := Json; mf_data := Json |} |} in
  ∃ metas, TreeAuthorityPlugin.metadata_lint_many rooted_tree
             [{| li_data := data; li_header := sample_event committed_core |}] sample_session None
           = (Ok metas, None)
    ∧ ∀ proof_header, meta_core (eh_meta proof_header) = metas →
        ∃ u' conv_u', TreeAuthorityPlugin.feed proof_header (rooted_tree, None)
                      = (Ok (), (u', conv_u'))
          ∧ TreeAuthorityPlugin.validate u' (sample_event committed_core) conv_u' = Ok Allow.
Proof.
  intros data.
  apply (linted_event_accepted rooted_tree rooted_tree (Metadata.for_data (PrimaryKey.new 7))
           sample_session "record" [CoreSignWith {| sw_keys := [PrivateSignKey.hash sample_key] |}]
           []); try (vm_compute; reflexivity).
  - intros auth sk Hk. unfold session_key in Hk. cbn [sample_session ss_write_keys List.find] in Hk.
    destruct (bool_decide _); [|discriminate Hk]. injection Hk as <-. reflexivity.
  - split; [reflexivity | split; reflexivity].
  - intros auth sk pk _ Hpk. discriminate Hpk.
  - auto.
Defined.

(** A record readable with one key of the session. *)
Definition reading_session : AteSession :=
  {| ss_identity := "carol"; ss_write_keys := []; ss_read_keys := [toy_key x2a];
     ss_private_read_keys := [] |}.

Definition secret_meta : Metadata :=
  {| meta_core := [CoreData (PrimaryKey.new 5);
       CoreAuthorization {| ma_read := ReadSpecific (EncryptKey.hash (toy_key x2a))
                              (DerivedEncryptKey.reverse [x01] (toy_key x2a) (toy_key x0c));
                            ma_write := WriteEveryone |}] |}.
