(* ===== verification/Compact.v ===== *)
(** * Compactors

    lib/src/compact: the compactors that vote on which events of a chain's history a
    compaction keeps, and the loop of lib/src/chain/compact.rs that feeds them the history
    until their votes settle.  The loop is proved to end, and the events that hold the
    current value of a record are proved to be kept. *)

From S2P Require Import Prelude LogApi Crypto Codec Secure Meta Event Index.

(** ** Votes *)

Inductive EventRelevance : Type := ForceKeep | Keep | Abstained | Drop | ForceDrop.

#[global] Instance EventRelevance_eq_dec : EqDecision EventRelevance.
Proof. solve_decision. Defined.

Record UniqueEvent : Type := { ue_key : PrimaryKey; ue_auth : option MetaAuthorization }.

#[global] Instance MetaAuthorization_eq_dec : EqDecision MetaAuthorization.
Proof. solve_decision. Defined.
#[global] Instance UniqueEvent_eq_dec : EqDecision UniqueEvent.
Proof. solve_decision. Defined.

(** ** The compactors *)

(** The hash set [already] is a list: its elements are only looked up. *)
Record RemoveDuplicatesCompactor : Type := {
  rd_keep : gset AteHash;
  rd_drop : gset AteHash;
  rd_already : list UniqueEvent;
  rd_parent_override : gset PrimaryKey;
}.

Record TombstoneCompactor : Type := {
  tc_ignored : gset AteHash;
  tc_tombstoned : gset PrimaryKey;
}.

Record SignatureCompactor : Type := {
  sc_sigs : gset AteHash;
  sc_sigs_already : gset AteHash;
  sc_sign_with : gset AteHash;
  sc_signed_events : gset AteHash;
}.

Record PublicKeyCompactor : Type := { pc_sign_with : gset AteHash }.

Record CutOffCompactor : Type := { cc_cut_off : ChainTimestamp }.

Module RemoveDuplicatesCompactor.
Definition default : RemoveDuplicatesCompactor :=
  {| rd_keep := ∅; rd_drop := ∅; rd_already := []; rd_parent_override := ∅ |}.

Definition relevance (c : RemoveDuplicatesCompactor) (header : EventHeader) : EventRelevance :=
  if bool_decide (raw_event_hash (eh_raw header) ∈ rd_keep c) then Keep
  else if bool_decide (raw_event_hash (eh_raw header) ∈ rd_drop c) then Drop
  else match Metadata.get_data_key (eh_meta header) with Some _ => Keep | None => Abstained end.

Definition feed (c : RemoveDuplicatesCompactor) (header : EventHeader)
    : RemoveDuplicatesCompactor :=
  match Metadata.get_data_key (eh_meta header) with
  | None => c
  | Some key =>
      let over := match Metadata.get_parent (eh_meta header) with
                  | Some parent => rd_parent_override c ∪ {[mc_parent_id (mp_vec parent)]}
                  | None => rd_parent_override c
                  end in
      let unique := {| ue_key := key; ue_auth := Metadata.get_authorization (eh_meta header) |} in
      let '(keep, already) :=
        if negb (bool_decide (unique ∈ rd_already c)) then (true, unique :: rd_already c)
        else if bool_decide (key ∈ over) then (true, rd_already c)
        else (false, rd_already c) in
      let h := raw_event_hash (eh_raw header) in
      {| rd_keep := if (keep : bool) then rd_keep c ∪ {[h]} else rd_keep c;
         rd_drop := if keep then rd_drop c else rd_drop c ∪ {[h]};
         rd_already := already;
         rd_parent_override := over ∖ {[key]} |}
  end.
End RemoveDuplicatesCompactor.

Module TombstoneCompactor.
Definition default : TombstoneCompactor := {| tc_ignored := ∅; tc_tombstoned := ∅ |}.

Definition relevance (c : TombstoneCompactor) (header : EventHeader) : EventRelevance :=
  match Metadata.get_data_key (eh_meta header) with
  | None => Abstained
  | Some key =>
      if bool_decide (raw_event_hash (eh_raw header) ∈ tc_ignored c) then Abstained
      else if bool_decide (key ∈ tc_tombstoned c) then ForceDrop else Abstained
  end.

Definition feed (c : TombstoneCompactor) (header : EventHeader) : TombstoneCompactor :=
  match Metadata.get_tombstone (eh_meta header) with
  | Some key => {| tc_ignored := tc_ignored c; tc_tombstoned := tc_tombstoned c ∪ {[key]} |}
  | None =>
      match Metadata.get_data_key (eh_meta header) with
      | Some key =>
          if bool_decide (key ∈ tc_tombstoned c) then c
          else {| tc_ignored := tc_ignored c ∪ {[raw_event_hash (eh_raw header)]};
                  tc_tombstoned := tc_tombstoned c |}
      | None => c
      end
  end.
End TombstoneCompactor.

Module SignatureCompactor.
Definition default : SignatureCompactor :=
  {| sc_sigs := ∅; sc_sigs_already := ∅; sc_sign_with := ∅; sc_signed_events := ∅ |}.

Definition relevance (c : SignatureCompactor) (header : EventHeader) : EventRelevance :=
  match Metadata.get_signature (eh_meta header) with
  | Some sig =>
      if bool_decide (raw_event_hash (eh_raw header) ∈ sc_sigs c) then ForceKeep
      else if existsb (λ h, bool_decide (h ∈ sc_signed_events c)) (sig_hashes sig) then ForceKeep
      else Abstained
  | None => Abstained
  end.

Definition feed (c : SignatureCompactor) (header : EventHeader) (keep : bool)
    : SignatureCompactor :=
  let h := raw_event_hash (eh_raw header) in
  let signed_events := if keep then sc_signed_events c ∪ {[h]} else sc_signed_events c ∖ {[h]} in
  let sign_with := match keep, Metadata.get_sign_with (eh_meta header) with
                   | true, Some sw => sc_sign_with c ∪ list_to_set (sw_keys sw)
                   | _, _ => sc_sign_with c
                   end in
  let '(sigs_already, sigs) :=
    match Metadata.get_signature (eh_meta header) with
    | Some sig =>
        if bool_decide (sig_public_key_hash sig ∈ sign_with)
           && negb (bool_decide (sig_public_key_hash sig ∈ sc_sigs_already c))
        then (sc_sigs_already c ∪ {[sig_public_key_hash sig]}, sc_sigs c ∪ {[h]})
        else (sc_sigs_already c, sc_sigs c)
    | None => (sc_sigs_already c, sc_sigs c)
    end in
  {| sc_sigs := sigs; sc_sigs_already := sigs_already; sc_sign_with := sign_with;
     sc_signed_events := signed_events |}.
End SignatureCompactor.

Module PublicKeyCompactor.
Section ops.
Context `{CryptoPrims}.

Definition default : PublicKeyCompactor := {| pc_sign_with := ∅ |}.

Definition relevance (c : PublicKeyCompactor) (header : EventHeader) : EventRelevance :=
  match Metadata.get_public_key (eh_meta header) with
  | Some pk => if bool_decide (PublicSignKey.hash pk ∈ pc_sign_with c) then ForceKeep else Abstained
  | None => Abstained
  end.

Definition feed (c : PublicKeyCompactor) (header : EventHeader) (keep : bool)
    : PublicKeyCompactor :=
  if keep then
    let sw := match Metadata.get_sign_with (eh_meta header) with
              | Some sw => pc_sign_with c ∪ list_to_set (sw_keys sw)
              | None => pc_sign_with c
              end in
    let sw := match Metadata.get_signature (eh_meta header) with
              | Some sig => sw ∪ {[sig_public_key_hash sig]}
              | None => sw
              end in
    {| pc_sign_with := sw |}
  else c.
End ops.
End PublicKeyCompactor.

Module CutOffCompactor.
Definition new (after : ChainTimestamp) : CutOffCompactor := {| cc_cut_off := after |}.

Definition relevance (c : CutOffCompactor) (header : EventHeader) : EventRelevance :=
  match Metadata.get_timestamp (eh_meta header) with
  | Some timestamp =>
      if negb (ChainTimestamp.lt timestamp (cc_cut_off c)) then ForceKeep else Abstained
  | None => Abstained
  end.
End CutOffCompactor.

(** [Box<dyn EventCompactor>]: the implementations of the trait. *)
Inductive EventCompactor : Type :=
  | RemoveDuplicates (c : RemoveDuplicatesCompactor)
  | Tombstones (c : TombstoneCompactor)
  | Signatures (c : SignatureCompactor)
  | PublicKeys (c : PublicKeyCompactor)
  | CutOff (c : CutOffCompactor)
  | Indecisive.

Module EventCompactor.
Section ops.
Context `{CryptoPrims}.

Definition relevance (c : EventCompactor) (header : EventHeader) : EventRelevance :=
  match c with
  | RemoveDuplicates c => RemoveDuplicatesCompactor.relevance c header
  | Tombstones c => TombstoneCompactor.relevance c header
  | Signatures c => SignatureCompactor.relevance c header
  | PublicKeys c => PublicKeyCompactor.relevance c header
  | CutOff c => CutOffCompactor.relevance c header
  | Indecisive => Abstained
  end.

Definition feed (header : EventHeader) (keep : bool) (c : EventCompactor) : EventCompactor :=
  match c with
  | RemoveDuplicates c => RemoveDuplicates (RemoveDuplicatesCompactor.feed c header)
  | Tombstones c => Tombstones (TombstoneCompactor.feed c header)
  | Signatures c => Signatures (SignatureCompactor.feed c header keep)
  | PublicKeys c => PublicKeys (PublicKeyCompactor.feed c header keep)
  | CutOff c => CutOff c
  | Indecisive => Indecisive
  end.

(** A compactor as it starts a compaction; [None] for one that is made anew. *)
Definition clone_compactor (c : EventCompactor) : option EventCompactor :=
  match c with
  | RemoveDuplicates _ => Some (RemoveDuplicates RemoveDuplicatesCompactor.default)
  | Tombstones _ => Some (Tombstones TombstoneCompactor.default)
  | Signatures _ => Some (Signatures SignatureCompactor.default)
  | PublicKeys _ => Some (PublicKeys PublicKeyCompactor.default)
  | CutOff _ => None
  | Indecisive => Some Indecisive
  end.

Definition compute_relevance (compactors : list EventCompactor) (header : EventHeader) : bool :=
  let votes := (λ c, relevance c header) <$> compactors in
  let is_force_keep := bool_decide (ForceKeep ∈ votes) in
  let is_keep := bool_decide (Keep ∈ votes) in
  let is_force_drop := bool_decide (ForceDrop ∈ votes) in
  if is_force_keep then true else if is_force_drop then false else is_keep.

(** ** The loop of the compaction *)

(** One event goes to all compactors. *)
Definition feed_event (e : EventHeader * bool) (cs : list EventCompactor) : list EventCompactor :=
  feed e.1 e.2 <$> cs.

(** One turn: the events are fed from the last to the first, then every flag is set from
    the votes. *)
Definition feed_all (headers : list (EventHeader * bool)) (cs : list EventCompactor)
    : list EventCompactor := foldr feed_event cs headers.

Definition update_flags (cs : list EventCompactor) (headers : list (EventHeader * bool))
    : list (EventHeader * bool) :=
  (λ e : EventHeader * bool, (e.1, compute_relevance cs e.1)) <$> headers.

(** The turns until no flag changes; [None] when they run out. *)
Fixpoint settle (fuel : nat) (headers : list (EventHeader * bool)) (cs : list EventCompactor)
    : option (list (EventHeader * bool) * list EventCompactor) :=
  match fuel with
  | O => None
  | S fuel =>
      let cs := feed_all headers cs in
      let headers' := update_flags cs headers in
      if bool_decide (headers'.*2 = headers.*2) then Some (headers', cs)
      else settle fuel headers' cs
  end.

(** Step 1 to step 3: the compactors of the chain, reset, and the cut-off. *)
Definition fresh_compactors (cs : list EventCompactor) (cut_off : ChainTimestamp)
    : list EventCompactor :=
  omap clone_compactor cs ++ [CutOff (CutOffCompactor.new cut_off)].

Definition start_flags (headers : list EventHeader) : list (EventHeader * bool) :=
  (λ h, (h, false)) <$> headers.

(** One turn for each flag that may rise, and one that changes nothing. *)
Definition settle_fuel (headers : list EventHeader) : nat := length headers + 1.

Definition settled (headers : list EventHeader) (cs : list EventCompactor)
    (cut_off : ChainTimestamp) : option (list (EventHeader * bool) * list EventCompactor) :=
  settle (settle_fuel headers) (start_flags headers) (fresh_compactors cs cut_off).
End ops.
End EventCompactor.

(** ** The votes only move towards keeping *)

Section votes.
Context `{CryptoPrims}.
Implicit Types (l : list (EventHeader * bool)) (c : EventCompactor) (h : EventHeader).

(** One compactor through one turn. *)
Definition run_compactor l c : EventCompactor :=
  foldr (λ e, EventCompactor.feed e.1 e.2) c l.

Lemma feed_all_run l cs : EventCompactor.feed_all l cs = run_compactor l <$> cs.
Proof.
  induction l as [|e l IH]; [by rewrite list_fmap_id|].
  cbn [EventCompactor.feed_all foldr]. unfold EventCompactor.feed_all in IH. rewrite IH.
  unfold EventCompactor.feed_event. by rewrite <-list_fmap_compose.
Qed.

(** From [c] to [c'] the vote on [h] keeps what it kept and drops by force nothing new. *)
Definition vote_rises c c' h : Prop :=
  (EventCompactor.relevance c h = ForceKeep → EventCompactor.relevance c' h = ForceKeep)
  ∧ (EventCompactor.relevance c h = Keep → EventCompactor.relevance c' h = Keep)
  ∧ (EventCompactor.relevance c' h = ForceDrop → EventCompactor.relevance c h = ForceDrop).

Lemma vote_rises_refl c h : vote_rises c c h.
Proof. by split. Qed.

Lemma compute_relevance_rises cs cs' h : Forall2 (λ c c', vote_rises c c' h) cs cs' →
  EventCompactor.compute_relevance cs h = true → EventCompactor.compute_relevance cs' h = true.
Proof.
  intros Hall. unfold EventCompactor.compute_relevance.
  assert (∀ v, (∀ c c', vote_rises c c' h → EventCompactor.relevance c h = v →
            EventCompactor.relevance c' h = v) →
    v ∈ ((λ c, EventCompactor.relevance c h) <$> cs) →
    v ∈ ((λ c, EventCompactor.relevance c h) <$> cs')) as Hup.
  { intros v Hv (c & -> & Hc)%list_elem_of_fmap.
    destruct (Forall2_elem_l _ _ _ _ Hall Hc) as (c' & Hc' & Hr).
    apply list_elem_of_fmap. exists c'. split; [|done]. symmetry. by apply (Hv c c'). }
  assert (ForceDrop ∈ ((λ c, EventCompactor.relevance c h) <$> cs') →
    ForceDrop ∈ ((λ c, EventCompactor.relevance c h) <$> cs)) as Hdown.
  { intros (c' & Hv & Hc')%list_elem_of_fmap.
    destruct (Forall2_elem_r _ _ _ _ Hall Hc') as (c & Hc & Hr).
    apply list_elem_of_fmap. exists c. split; [|done]. symmetry. by apply Hr. }
  pose proof (Hup ForceKeep ltac:(intros ?? (Hv & _ & _); exact Hv)) as Hfk.
  pose proof (Hup Keep ltac:(intros ?? (_ & Hv & _); exact Hv)) as Hk.
  repeat case_bool_decide; tauto.
Qed.

(** ** Removing duplicates *)

Lemma run_duplicates l (c : RemoveDuplicatesCompactor) :
  ∃ c' : RemoveDuplicatesCompactor, run_compactor l (RemoveDuplicates c) = RemoveDuplicates c'
    ∧ rd_keep c ⊆ rd_keep c' ∧ rd_drop c ⊆ rd_drop c'
    ∧ ∀ e, e ∈ l → is_Some (Metadata.get_data_key (eh_meta e.1)) →
        raw_event_hash (eh_raw e.1) ∈ rd_keep c' ∪ rd_drop c'.
Proof.
  induction l as [|e l IH]; [exists c; set_solver|].
  destruct IH as (c1 & E & Hk & Hd & Hall). cbn [run_compactor foldr].
  change (foldr _ _ l) with (run_compactor l (RemoveDuplicates c)). rewrite E.
  cbn [EventCompactor.feed]. eexists. split; [done|].
  unfold RemoveDuplicatesCompactor.feed.
  destruct (Metadata.get_data_key (eh_meta e.1)) as [key|] eqn:Hkey.
  - assert (∀ (b : bool) (h : AteHash) (s t : gset AteHash),
      s ⊆ (if b then s ∪ {[h]} else s) ∧ t ⊆ (if b then t else t ∪ {[h]})
      ∧ h ∈ (if b then s ∪ {[h]} else s) ∪ (if b then t else t ∪ {[h]})) as Hset.
    { intros []; set_solver. }
    destruct (if negb _ then _ else _) as [keep already]. cbn [rd_keep rd_drop].
    destruct (Hset keep (raw_event_hash (eh_raw e.1)) (rd_keep c1) (rd_drop c1)) as (? & ? & ?).
    split; [set_solver|]. split; [set_solver|].
    intros e' [->|He']%elem_of_cons Hs; [done|]. specialize (Hall e' He' Hs). set_solver.
  - split; [done|]. split; [done|]. intros e' [->|He']%elem_of_cons Hs; [|by apply Hall].
    rewrite Hkey in Hs. by destruct Hs.
Qed.

Lemma duplicates_rise l l' (c : RemoveDuplicatesCompactor) h : l.*1 = l'.*1 → h ∈ l.*1 →
  vote_rises (run_compactor l (RemoveDuplicates c))
    (run_compactor l' (run_compactor l (RemoveDuplicates c))) h.
Proof.
  intros _ (e & -> & He)%list_elem_of_fmap.
  destruct (run_duplicates l c) as (c1 & -> & _ & _ & Hall).
  destruct (run_duplicates l' c1) as (c2 & -> & Hk & _ & _).
  cbn [EventCompactor.relevance]. unfold vote_rises, RemoveDuplicatesCompactor.relevance.
  cbn [EventCompactor.relevance]. unfold RemoveDuplicatesCompactor.relevance.
  specialize (Hall e He). repeat case_bool_decide; try (split; [|split]; done || set_solver);
    destruct (Metadata.get_data_key (eh_meta e.1)); split; try done; split; try done;
    intros _; exfalso; specialize (Hall ltac:(eauto)); set_solver.
Qed.

(** ** Tombstones *)

Lemma tombstone_feed_mono (c : TombstoneCompactor) h :
  tc_ignored c ⊆ tc_ignored (TombstoneCompactor.feed c h)
  ∧ tc_tombstoned c ⊆ tc_tombstoned (TombstoneCompactor.feed c h).
Proof. unfold TombstoneCompactor.feed. repeat case_match; set_solver. Qed.

(** A state that feeding [h] does not change. *)
Lemma tombstone_fixed (c c' : TombstoneCompactor) h :
  tc_ignored (TombstoneCompactor.feed c h) ⊆ tc_ignored c' →
  tc_tombstoned c ⊆ tc_tombstoned c' →
  tc_tombstoned (TombstoneCompactor.feed c h) ⊆ tc_tombstoned c' →
  TombstoneCompactor.feed c' h = c'.
Proof.
  destruct c as [ig tb], c' as [ig' tb']. unfold TombstoneCompactor.feed.
  destruct (Metadata.get_tombstone (eh_meta h)) as [key|]; cbn.
  - intros _ _ Ht. f_equal. set_solver.
  - destruct (Metadata.get_data_key (eh_meta h)) as [key|]; [|done].
    cbn. intros Hi Ht _.
    destruct (decide (key ∈ tb')) as [Hin|Hout]; [by rewrite bool_decide_eq_true_2|].
    rewrite bool_decide_eq_false_2 by done. f_equal.
    rewrite bool_decide_eq_false_2 in Hi by set_solver. cbn in Hi. set_solver.
Qed.

Lemma run_tombstones l (c : TombstoneCompactor) :
  ∃ c' : TombstoneCompactor, run_compactor l (Tombstones c) = Tombstones c'
    ∧ tc_ignored c ⊆ tc_ignored c' ∧ tc_tombstoned c ⊆ tc_tombstoned c'
    ∧ ∀ h, h ∈ l.*1 → TombstoneCompactor.feed c' h = c'.
Proof.
  induction l as [|e l IH]; [exists c; set_solver|].
  destruct IH as (c1 & E & Hi & Ht & Hall). cbn [run_compactor foldr].
  change (foldr _ _ l) with (run_compactor l (Tombstones c)). rewrite E.
  cbn [EventCompactor.feed]. eexists. split; [done|].
  destruct (tombstone_feed_mono c1 e.1) as [Hi1 Ht1].
  split; [set_solver|]. split; [set_solver|].
  intros h [->|Hh]%elem_of_cons; [by apply (tombstone_fixed c1)|].
  apply (tombstone_fixed c1); [|done|]; by rewrite (Hall h Hh).
Qed.

Lemma tombstones_rise l l' (c : TombstoneCompactor) h : l.*1 = l'.*1 →
  vote_rises (run_compactor l (Tombstones c))
    (run_compactor l' (run_compactor l (Tombstones c))) h.
Proof.
  intros Hl. destruct (run_tombstones l c) as (c1 & -> & _ & _ & Hall). rewrite Hl in Hall.
  assert (run_compactor l' (Tombstones c1) = Tombstones c1) as ->; [|apply vote_rises_refl].
  clear Hl. induction l' as [|e l' IH]; [done|]. cbn [run_compactor foldr].
  change (foldr _ _ l') with (run_compactor l' (Tombstones c1)).
  rewrite IH by (intros h' ?; apply Hall; by right). cbn. by rewrite Hall by left.
Qed.

(** ** Signatures and public keys *)

(** The same events, with no flag lowered. *)
Definition flags_rise l l' : Prop :=
  Forall2 (λ e e' : EventHeader * bool, e.1 = e'.1 ∧ (e.2 = true → e'.2 = true)) l l'.

Lemma flags_rise_headers l l' : flags_rise l l' → l.*1 = l'.*1.
Proof. induction 1 as [|e e' l l' [He _] _ IH]; cbn; congruence. Qed.

(** The flag of the first event of a hash, which is fed last. *)
Definition first_flag (hash : AteHash) l : option bool :=
  find_map (λ e, if decide (raw_event_hash (eh_raw e.1) = hash) then Some e.2 else None) l.

Lemma first_flag_rises hash l l' : flags_rise l l' →
  match first_flag hash l with
  | Some true => first_flag hash l' = Some true
  | Some false => True
  | None => first_flag hash l' = None
  end.
Proof.
  induction 1 as [|[h b] [h' b'] l l' [He Hb] _ IH]; [done|]. cbn in *. subst h'.
  case_decide; [|exact IH]. destruct b; [by rewrite Hb|done].
Qed.

Lemma run_signatures l (c : SignatureCompactor) :
  ∃ c' : SignatureCompactor, run_compactor l (Signatures c) = Signatures c'
    ∧ sc_sigs c ⊆ sc_sigs c'
    ∧ ∀ hash, hash ∈ sc_signed_events c'
        ↔ match first_flag hash l with Some b => b = true | None => hash ∈ sc_signed_events c end.
Proof.
  induction l as [|e l IH]; [by exists c|].
  destruct IH as (c1 & E & Hs & Hall). cbn [run_compactor foldr].
  change (foldr _ _ l) with (run_compactor l (Signatures c)). rewrite E.
  cbn [EventCompactor.feed]. eexists. split; [done|]. unfold SignatureCompactor.feed.
  destruct (match Metadata.get_signature (eh_meta e.1) with Some _ => _ | None => _ end)
    as [already sigs] eqn:Hm. cbn [sc_sigs sc_signed_events]. split.
  - destruct (Metadata.get_signature (eh_meta e.1)); [|by simplify_eq].
    destruct (_ && _); simplify_eq; set_solver.
  - intros hash. cbn [first_flag find_map]. destruct e as [h b]. cbn [fst snd].
    change (find_map _ l) with (first_flag hash l). specialize (Hall hash).
    case_decide as Hh; destruct b; set_solver.
Qed.

Lemma run_public_keys l (c : PublicKeyCompactor) :
  ∃ c' : PublicKeyCompactor, run_compactor l (PublicKeys c) = PublicKeys c'
    ∧ pc_sign_with c ⊆ pc_sign_with c'.
Proof.
  induction l as [|e l IH]; [by exists c|].
  destruct IH as (c1 & E & Hs). cbn [run_compactor foldr].
  change (foldr _ _ l) with (run_compactor l (PublicKeys c)). rewrite E.
  cbn [EventCompactor.feed]. eexists. split; [done|]. unfold PublicKeyCompactor.feed.
  destruct e.2; [|done]. cbn. repeat case_match; set_solver.
Qed.

Lemma existsb_in_mono (s s' : gset AteHash) (hs : list AteHash) :
  (∀ x, x ∈ s → x ∈ s') → existsb (λ x, bool_decide (x ∈ s)) hs = true →
  existsb (λ x, bool_decide (x ∈ s')) hs = true.
Proof.
  intros Hsub (x & Hin & Hx%bool_decide_eq_true)%existsb_exists. apply existsb_exists.
  exists x. rewrite bool_decide_eq_true_2 by auto. done.
Qed.

Lemma signatures_rise l l' (c : SignatureCompactor) h : flags_rise l l' →
  vote_rises (run_compactor l (Signatures c))
    (run_compactor l' (run_compactor l (Signatures c))) h.
Proof.
  intros Hf. destruct (run_signatures l c) as (c1 & -> & _ & H1).
  destruct (run_signatures l' c1) as (c2 & -> & Hs & H2).
  assert (∀ x, x ∈ sc_signed_events c1 → x ∈ sc_signed_events c2) as Hsub.
  { intros x Hx. apply H2. pose proof (first_flag_rises x _ _ Hf) as Hx'. pose proof Hx as Hx1.
    rewrite H1 in Hx1. destruct (first_flag x l) as [[]|]; [by rewrite Hx'|done|by rewrite Hx']. }
  unfold vote_rises. cbn [EventCompactor.relevance]. unfold SignatureCompactor.relevance.
  destruct (Metadata.get_signature (eh_meta h)) as [sig|]; [|done].
  pose proof (existsb_in_mono _ _ (sig_hashes sig) Hsub) as Hex.
  case_bool_decide; [rewrite bool_decide_eq_true_2 by set_solver; done|].
  destruct (existsb _ (sig_hashes sig)); [rewrite Hex by done|];
    case_bool_decide; try done. by destruct (existsb _ _).
Qed.

Lemma public_keys_rise l l' (c : PublicKeyCompactor) h :
  vote_rises (run_compactor l (PublicKeys c))
    (run_compactor l' (run_compactor l (PublicKeys c))) h.
Proof.
  destruct (run_public_keys l c) as (c1 & -> & _).
  destruct (run_public_keys l' c1) as (c2 & -> & Hs).
  unfold vote_rises. cbn [EventCompactor.relevance]. unfold PublicKeyCompactor.relevance.
  destruct (Metadata.get_public_key (eh_meta h)); [|done].
  repeat case_bool_decide; done || set_solver.
Qed.

Lemma run_constant l c : (∀ e b, EventCompactor.feed e b c = c) → run_compactor l c = c.
Proof.
  intros Hc. induction l as [|e l IH]; [done|]. cbn [run_compactor foldr].
  change (foldr _ _ l) with (run_compactor l c). by rewrite IH.
Qed.

(** Feeding the events once more, with no flag lowered, moves no vote away from keeping. *)
Lemma turn_rises l l' c h : flags_rise l l' → h ∈ l.*1 →
  vote_rises (run_compactor l c) (run_compactor l' (run_compactor l c)) h.
Proof.
  intros Hf Hh. pose proof (flags_rise_headers _ _ Hf) as Hl. destruct c.
  - by apply duplicates_rise.
  - by apply tombstones_rise.
  - by apply signatures_rise.
  - by apply public_keys_rise.
  - rewrite !run_constant by done. apply vote_rises_refl.
  - rewrite !run_constant by done. apply vote_rises_refl.
Qed.

(** ** The loop ends *)

Lemma update_flags_headers cs l : (EventCompactor.update_flags cs l).*1 = l.*1.
Proof. unfold EventCompactor.update_flags. by rewrite <-list_fmap_compose. Qed.

(** The next turn lowers no flag. *)
Definition ready l cs : Prop :=
  flags_rise l (EventCompactor.update_flags (EventCompactor.feed_all l cs) l).

Lemma ready_start headers cs : ready (EventCompactor.start_flags headers) cs.
Proof.
  unfold ready, EventCompactor.update_flags, EventCompactor.start_flags.
  generalize (EventCompactor.feed_all ((λ h, (h, false)) <$> headers) cs). intros cs'.
  induction headers as [|h hs IH]; cbn; constructor; done.
Qed.

Lemma ready_step l cs : ready l cs →
  let cs1 := EventCompactor.feed_all l cs in ready (EventCompactor.update_flags cs1 l) cs1.
Proof.
  intros Hr cs1. unfold ready in *. fold cs1 in Hr.
  set (l1 := EventCompactor.update_flags cs1 l) in *.
  apply Forall2_same_length_lookup_2; [unfold EventCompactor.update_flags; by rewrite length_fmap|].
  intros i [h b] [h' b'] Hi Hi'. unfold EventCompactor.update_flags at 1 in Hi'.
  rewrite list_lookup_fmap, Hi in Hi'. injection Hi' as <- <-. cbn. split; [done|].
  intros ->. unfold l1, EventCompactor.update_flags in Hi. rewrite list_lookup_fmap in Hi.
  destruct (l !! i) as [[h0 b0]|] eqn:Hl; [|done]. injection Hi as -> Hb.
  apply (compute_relevance_rises cs1); [|done].
  rewrite (feed_all_run l1). unfold cs1. rewrite feed_all_run.
  apply Forall2_fmap_r, Forall_Forall2_diag, Forall_forall.
  intros ? (c & -> & _)%list_elem_of_fmap.
  apply turn_rises; [done|]. apply list_elem_of_fmap. exists (h, b0). split; [done|].
  by eapply list_elem_of_lookup_2.
Qed.

Definition unset l : nat := length (List.filter (λ e, negb e.2) l).

Lemma unset_decreases l l' : flags_rise l l' → l'.*2 ≠ l.*2 → (unset l' < unset l)%nat.
Proof.
  intros Hf. unfold unset. assert (∀ l l', flags_rise l l' →
    (length (List.filter (λ e, negb e.2) l') ≤ length (List.filter (λ e, negb e.2) l))%nat) as Hle.
  { induction 1 as [|[h b] [h' b'] m m' [_ Hb] _ IH]; [done|]. cbn in *.
    destruct b, b'; cbn in *; lia || by specialize (Hb eq_refl). }
  induction Hf as [|[h b] [h' b'] m m' [_ Hb] Hm IH]; [done|]. cbn in *. intros Hne.
  specialize (Hle _ _ Hm).
  destruct b, b'; cbn in *; try lia; try (by specialize (Hb eq_refl));
    assert (m'.*2 ≠ m.*2) as Hne' by congruence; specialize (IH Hne'); lia.
Qed.

Lemma settle_some fuel l cs : ready l cs → (unset l < fuel)%nat →
  is_Some (EventCompactor.settle fuel l cs).
Proof.
  revert l cs. induction fuel as [|fuel IH]; intros l cs Hr Hu; [lia|].
  cbn [EventCompactor.settle]. case_bool_decide as Hch; [by eauto|].
  apply IH; [by apply ready_step|]. pose proof (unset_decreases _ _ Hr Hch). lia.
Qed.
End votes.

(** ** What a compaction keeps *)

Section view.
Context `{CryptoPrims}.
Implicit Types (hs : list EventHeader) (l : list (EventHeader * bool)) (e t : EventHeader).

(** The loop's result: the compactors after one or more turns over the events, and the
    flags they give. *)
Lemma settle_result fuel l cs l' cs' : EventCompactor.settle fuel l cs = Some (l', cs') →
  l'.*1 = l.*1 ∧ l' = EventCompactor.update_flags cs' l'
  ∧ ∃ ls, Forall (λ m, m.*1 = l.*1) ls
      ∧ cs' = foldl (λ cs m, EventCompactor.feed_all m cs) (EventCompactor.feed_all l cs) ls.
Proof.
  revert l cs. induction fuel as [|fuel IH]; intros l cs; [done|].
  cbn [EventCompactor.settle]. case_bool_decide as Hch.
  - intros [= <- <-]. split; [apply update_flags_headers|]. split; [|by exists []].
    unfold EventCompactor.update_flags. by rewrite <-list_fmap_compose.
  - intros (Hh & Hu & ls & Hls & Hcs)%IH. rewrite update_flags_headers in Hh, Hls.
    split; [done|]. split; [done|].
    exists (EventCompactor.update_flags (EventCompactor.feed_all l cs) l :: ls).
    split; [|done]. constructor; [apply update_flags_headers | done].
Qed.

Lemma feed_turns_run ls cs :
  foldl (λ cs m, EventCompactor.feed_all m cs) cs ls
  = (λ c, foldl (λ c m, run_compactor m c) c ls) <$> cs.
Proof.
  revert cs. induction ls as [|m ls IH]; intros cs; cbn; [by rewrite list_fmap_id|].
  by rewrite IH, feed_all_run, <-list_fmap_compose.
Qed.

Lemma turns_duplicates ls (c : RemoveDuplicatesCompactor) :
  ∃ c' : RemoveDuplicatesCompactor,
    foldl (λ c m, run_compactor m c) (RemoveDuplicates c) ls = RemoveDuplicates c'
    ∧ rd_keep c ⊆ rd_keep c'.
Proof.
  revert c. induction ls as [|m ls IH]; intros c; [by exists c|]. cbn [foldl].
  destruct (run_duplicates m c) as (c1 & -> & Hk & _).
  destruct (IH c1) as (c2 & E & ?). exists c2. split; [done|]. set_solver.
Qed.

Lemma turns_tombstones hs ls (c : TombstoneCompactor) :
  (∀ h, h ∈ hs → TombstoneCompactor.feed c h = c) → Forall (λ m, m.*1 = hs) ls →
  foldl (λ c m, run_compactor m c) (Tombstones c) ls = Tombstones c.
Proof.
  intros Hc. induction 1 as [|m ls <- _ IH]; [done|]. cbn [foldl].
  assert (run_compactor m (Tombstones c) = Tombstones c) as ->; [|done].
  clear IH. induction m as [|x m IHm]; [done|]. cbn [run_compactor foldr].
  change (foldr _ _ m) with (run_compactor m (Tombstones c)).
  rewrite IHm by (intros h ?; apply Hc; by right). cbn. by rewrite Hc by left.
Qed.

(** *** The first turn *)

Lemma run_app l1 l2 c : run_compactor (l1 ++ l2) c = run_compactor l1 (run_compactor l2 c).
Proof. apply foldr_app. Qed.

Lemma run_already l (c c' : RemoveDuplicatesCompactor) u :
  run_compactor l (RemoveDuplicates c) = RemoveDuplicates c' → u ∈ rd_already c' →
  u ∈ rd_already c ∨ ∃ e, e ∈ l.*1 ∧ Metadata.get_data_key (eh_meta e) = Some (ue_key u).
Proof.
  revert c'. induction l as [|x l IH]; intros c' E Hu; [left; by injection E as ->|].
  cbn [run_compactor foldr] in E. change (foldr _ _ l) with (run_compactor l (RemoveDuplicates c)) in E.
  destruct (run_duplicates l c) as (c1 & E1 & _). rewrite E1 in E, IH. injection E as <-.
  assert (u ∈ rd_already c1 ∨ Metadata.get_data_key (eh_meta x.1) = Some (ue_key u)) as Hor.
  { unfold RemoveDuplicatesCompactor.feed in Hu.
    destruct (Metadata.get_data_key (eh_meta x.1)) as [key|]; [|by left].
    destruct (negb _); [|by left; destruct (bool_decide _)].
    cbn in Hu. apply elem_of_cons in Hu as [->|?]; [by right | by left]. }
  destruct Hor as [Hu1|Hk].
  - destruct (IH c1 eq_refl Hu1) as [?|(e & ? & ?)]; [by left|]. right. exists e. set_solver.
  - right. exists x.1. split; [left | done].
Qed.

(** The last event of a key is kept by the duplicates compactor. *)
Lemma first_turn_keeps l1 x l2 key :
  Metadata.get_data_key (eh_meta x.1) = Some key →
  (∀ e, e ∈ l2.*1 → Metadata.get_data_key (eh_meta e) ≠ Some key) →
  ∃ c' : RemoveDuplicatesCompactor,
    run_compactor (l1 ++ x :: l2) (RemoveDuplicates RemoveDuplicatesCompactor.default)
    = RemoveDuplicates c' ∧ raw_event_hash (eh_raw x.1) ∈ rd_keep c'.
Proof.
  intros Hk Hno. rewrite run_app. cbn [run_compactor foldr].
  change (foldr _ (RemoveDuplicates _) l2)
    with (run_compactor l2 (RemoveDuplicates RemoveDuplicatesCompactor.default)).
  destruct (run_duplicates l2 RemoveDuplicatesCompactor.default) as (c1 & E & _). rewrite E.
  cbn [EventCompactor.feed].
  assert (raw_event_hash (eh_raw x.1) ∈ rd_keep (RemoveDuplicatesCompactor.feed c1 x.1)) as Hin.
  { unfold RemoveDuplicatesCompactor.feed. rewrite Hk. rewrite bool_decide_eq_false_2.
    - cbn. set_solver.
    - intros [Hu|(e & He & Hu)]%(run_already _ _ _ _ E); [by apply elem_of_nil in Hu|].
      by apply (Hno e). }
  destruct (run_duplicates l1 (RemoveDuplicatesCompactor.feed c1 x.1)) as (c2 & E2 & Hs & _).
  exists c2. split; [exact E2|]. set_solver.
Qed.

Lemma run_tombstoned l (c c' : TombstoneCompactor) key :
  run_compactor l (Tombstones c) = Tombstones c' →
  key ∈ tc_tombstoned c'
  ↔ key ∈ tc_tombstoned c ∨ ∃ e, e ∈ l.*1 ∧ Metadata.get_tombstone (eh_meta e) = Some key.
Proof.
  revert c'. induction l as [|x l IH]; intros c' E.
  { injection E as <-. split; [by left|]. intros [?|(e & ?%elem_of_nil & _)]; done. }
  cbn [run_compactor foldr] in E. change (foldr _ _ l) with (run_compactor l (Tombstones c)) in E.
  destruct (run_tombstones l c) as (c1 & E1 & _). rewrite E1 in E, IH. injection E as <-.
  specialize (IH c1 eq_refl). unfold TombstoneCompactor.feed.
  assert (∀ P : EventHeader → Prop,
    (∃ e, e ∈ (x :: l).*1 ∧ P e) ↔ P x.1 ∨ ∃ e, e ∈ l.*1 ∧ P e) as Hcons.
  { intros P. cbn. setoid_rewrite elem_of_cons. naive_solver. }
  rewrite Hcons. destruct (Metadata.get_tombstone (eh_meta x.1)) as [k|]; cbn.
  - rewrite elem_of_union, elem_of_singleton, IH. naive_solver.
  - destruct (Metadata.get_data_key (eh_meta x.1)) as [k|];
      [destruct (bool_decide (k ∈ tc_tombstoned c1))|]; cbn; rewrite IH; naive_solver.
Qed.

(** What is spared from the tombstones: events with no later tombstone of their key. *)
Definition spared_first (hash : AteHash) (x : EventHeader) hs : Prop :=
  raw_event_hash (eh_raw x) = hash ∧ Metadata.get_tombstone (eh_meta x) = None
  ∧ ∃ key, Metadata.get_data_key (eh_meta x) = Some key
      ∧ ∀ e, e ∈ hs → Metadata.get_tombstone (eh_meta e) ≠ Some key.

Definition spared (hash : AteHash) hs : Prop :=
  ∃ hs1 x hs2, hs = hs1 ++ x :: hs2 ∧ spared_first hash x hs2.

Lemma spared_cons hash (x : EventHeader) hs : spared hash (x :: hs) ↔ spared_first hash x hs ∨ spared hash hs.
Proof.
  split.
  - intros ([|y l1] & z & l2 & E & Hs); injection E as -> ->; [by left|].
    right. by exists l1, z, l2.
  - intros [Hs|(l1 & z & l2 & -> & Hs)]; [by exists [], x, hs | by exists (x :: l1), z, l2].
Qed.

Lemma run_ignored l (c' : TombstoneCompactor) hash :
  run_compactor l (Tombstones TombstoneCompactor.default) = Tombstones c' →
  hash ∈ tc_ignored c' ↔ spared hash l.*1.
Proof.
  revert c'. induction l as [|x l IH]; intros c' E.
  { injection E as <-. split; [set_solver|]. intros ([] & ? & ? & ? & _); done. }
  cbn [run_compactor foldr] in E.
  change (foldr _ _ l) with (run_compactor l (Tombstones TombstoneCompactor.default)) in E.
  destruct (run_tombstones l TombstoneCompactor.default) as (c1 & E1 & _).
  pose proof (λ key, run_tombstoned l _ _ key E1) as Htb. rewrite E1 in E, IH. injection E as <-.
  specialize (IH c1 eq_refl). cbn [fmap list_fmap]. rewrite spared_cons.
  unfold TombstoneCompactor.feed, spared_first.
  destruct (Metadata.get_tombstone (eh_meta x.1)) as [k|]; cbn [tc_ignored].
  { rewrite IH. unfold spared. naive_solver. }
  destruct (Metadata.get_data_key (eh_meta x.1)) as [key|]; [|rewrite IH; unfold spared; naive_solver].
  specialize (Htb key). case_bool_decide as Hk; cbn [tc_ignored].
  - rewrite IH. split; [by right|]. intros [(_ & _ & key' & [= <-] & Hno)|?]; [|done].
    exfalso. apply Htb in Hk as [Hk|(e & He & Hek)]; [set_solver|]. by apply (Hno e).
  - rewrite elem_of_union, elem_of_singleton, IH. split; [|naive_solver].
    intros [?| ->]; [by right|]. left. split; [done|]. split; [done|]. exists key. split; [done|].
    intros e He Hek. apply Hk, Htb. by eauto.
Qed.

(** A compactor stays of its kind. *)
Definition same_kind (c c' : EventCompactor) : Prop :=
  match c, c' with
  | RemoveDuplicates _, RemoveDuplicates _ | Tombstones _, Tombstones _
  | Signatures _, Signatures _ | PublicKeys _, PublicKeys _ | CutOff _, CutOff _
  | Indecisive, Indecisive => True
  | _, _ => False
  end.

Lemma run_kind m c0 c : same_kind c0 (run_compactor m c) ↔ same_kind c0 c.
Proof.
  induction m as [|x m IH]; [done|]. rewrite <-IH. cbn [run_compactor foldr].
  change (foldr _ c m) with (run_compactor m c). by destruct (run_compactor m c).
Qed.

Lemma turns_kind c0 c ms :
  same_kind c0 (foldl (λ c m, run_compactor m c) c ms) ↔ same_kind c0 c.
Proof.
  revert c. induction ms as [|m ms IH]; intros c; [done|]. cbn [foldl]. by rewrite IH, run_kind.
Qed.

(** *** Histories *)

(** A history as the chain keeps it: no event twice; an event names at most one record,
    which it writes with data or removes; the events that carry signatures and public keys
    name none; and later events of a record have later timestamps. *)
Record history_ok hs : Prop := {
  ho_hashes : NoDup ((λ e, raw_event_hash (eh_raw e)) <$> hs);
  ho_keys : ∀ e k, e ∈ hs → touches k e = true ↔ Metadata.get_data_key (eh_meta e) = Some k;
  ho_plain : ∀ e, e ∈ hs → is_Some (Metadata.get_data_key (eh_meta e)) →
    Metadata.get_signature (eh_meta e) = None ∧ Metadata.get_public_key (eh_meta e) = None;
  ho_times : ∀ hs1 e hs2 t ts, hs = hs1 ++ e :: hs2 → t ∈ hs2 →
    Metadata.get_data_key (eh_meta t) = Metadata.get_data_key (eh_meta e) →
    is_Some (Metadata.get_data_key (eh_meta e)) →
    Metadata.get_timestamp (eh_meta e) = Some ts →
    ∃ ts', Metadata.get_timestamp (eh_meta t) = Some ts'
      ∧ time_since_epoch_ms ts ≤ time_since_epoch_ms ts';
}.

Lemma history_ok_unique hs hs1 e hs2 hs1' e' hs2' : history_ok hs →
  hs = hs1 ++ e :: hs2 → hs = hs1' ++ e' :: hs2' →
  raw_event_hash (eh_raw e) = raw_event_hash (eh_raw e') → e = e' ∧ hs2 = hs2'.
Proof.
  intros Hok Hs Hs' Hh.
  assert (hs !! length hs1 = Some e) as Hi by (rewrite Hs; by apply list_lookup_middle).
  assert (hs !! length hs1' = Some e') as Hi' by (rewrite Hs'; by apply list_lookup_middle).
  assert (length hs1 = length hs1') as Hl.
  { apply (NoDup_lookup _ _ _ (raw_event_hash (eh_raw e)) (ho_hashes _ Hok));
      rewrite list_lookup_fmap; [by rewrite Hi | by rewrite Hi', Hh]. }
  rewrite Hs in Hs'. apply app_inj_1 in Hs' as [_ E]; [|done]. by injection E.
Qed.

Lemma removes_tombstone k e : removes_key k e = true ↔ Metadata.get_tombstone (eh_meta e) = Some k.
Proof. unfold removes_key. apply bool_decide_eq_true. Qed.

Lemma history_tombstone hs e k : history_ok hs → e ∈ hs →
  Metadata.get_tombstone (eh_meta e) = Some k → Metadata.get_data_key (eh_meta e) = Some k.
Proof.
  intros Hok He Ht. apply (ho_keys _ Hok e k He). unfold touches.
  by rewrite (proj2 (removes_tombstone k e) Ht).
Qed.

(** *** The votes after the loop *)

Section votes.
Variable hs : list EventHeader.
Variable ls : list (list (EventHeader * bool)).
Hypothesis Hok : history_ok hs.
Hypothesis Hls : Forall (λ m, m.*1 = (EventCompactor.start_flags hs).*1) ls.

(** A compactor after all turns. *)
Definition turned (c : EventCompactor) : EventCompactor :=
  foldl (λ c m, run_compactor m c) (run_compactor (EventCompactor.start_flags hs) c) ls.

Lemma start_headers : (EventCompactor.start_flags hs).*1 = hs.
Proof. unfold EventCompactor.start_flags. rewrite <-list_fmap_compose. apply list_fmap_id. Qed.

Lemma turned_tombstones : ∃ c : TombstoneCompactor,
  turned (Tombstones TombstoneCompactor.default) = Tombstones c
  ∧ run_compactor (EventCompactor.start_flags hs) (Tombstones TombstoneCompactor.default)
    = Tombstones c.
Proof.
  unfold turned. destruct (run_tombstones (EventCompactor.start_flags hs) TombstoneCompactor.default)
    as (c & E & _ & _ & Hfix). exists c. rewrite E. split; [|done].
  by eapply turns_tombstones.
Qed.

Lemma tombstone_vote e hs1 hs2 k : hs = hs1 ++ e :: hs2 →
  Metadata.get_data_key (eh_meta e) = Some k →
  EventCompactor.relevance (turned (Tombstones TombstoneCompactor.default)) e
  = if bool_decide (Exists (λ t, Metadata.get_tombstone (eh_meta t) = Some k) (e :: hs2))
    then ForceDrop else Abstained.
Proof.
  intros Hs Hk. destruct turned_tombstones as (c & -> & E).
  pose proof (run_ignored _ _ (raw_event_hash (eh_raw e)) E) as Hig.
  pose proof (run_tombstoned _ _ _ k E) as Htb. rewrite start_headers in Hig, Htb.
  cbn [EventCompactor.relevance]. unfold TombstoneCompactor.relevance. rewrite Hk.
  assert (e ∈ hs) as He by set_solver.
  assert (spared (raw_event_hash (eh_raw e)) hs
    ↔ ¬ Exists (λ t, Metadata.get_tombstone (eh_meta t) = Some k) (e :: hs2)) as Hsp.
  { rewrite Exists_cons, Exists_exists. split.
    - intros (hs1' & x & hs2' & Hs' & Hh & Hnt & key & Hkey & Hno) Hex.
      destruct (history_ok_unique _ _ _ _ _ _ _ Hok Hs Hs' (eq_sym Hh)) as [<- <-].
      assert (key = k) as -> by congruence.
      destruct Hex as [?|(t & ? & ?)]; [congruence | by apply (Hno t)].
    - intros Hno. exists hs1, e, hs2. split; [done|]. split; [done|].
      destruct (Metadata.get_tombstone (eh_meta e)) as [k'|] eqn:Ht.
      + exfalso. apply Hno. left. pose proof (history_tombstone _ _ _ Hok He Ht). congruence.
      + split; [done|]. exists k. split; [done|]. intros t Ht' Hk'. apply Hno. right. by eauto. }
  rewrite Hsp in Hig.
  destruct (decide (Exists (λ t, Metadata.get_tombstone (eh_meta t) = Some k) (e :: hs2))) as [Hex|Hex].
  - rewrite (bool_decide_eq_true_2 _ Hex), bool_decide_eq_false_2 by tauto.
    rewrite bool_decide_eq_true_2; [done|]. apply Htb. right.
    apply Exists_exists in Hex as (t & Ht & ?). exists t. split; [|done].
    rewrite Hs. apply elem_of_app. by right.
  - rewrite (bool_decide_eq_false_2 _ Hex), bool_decide_eq_true_2 by tauto. done.
Qed.

Lemma duplicates_vote e hs1 hs2 k : hs = hs1 ++ e :: hs2 →
  Metadata.get_data_key (eh_meta e) = Some k →
  (∀ t, t ∈ hs2 → Metadata.get_data_key (eh_meta t) ≠ Some k) →
  EventCompactor.relevance (turned (RemoveDuplicates RemoveDuplicatesCompactor.default)) e = Keep.
Proof.
  intros Hs Hk Hno. unfold turned.
  assert (EventCompactor.start_flags hs
    = EventCompactor.start_flags hs1 ++ (e, false) :: EventCompactor.start_flags hs2) as ->.
  { rewrite Hs. unfold EventCompactor.start_flags. by rewrite fmap_app. }
  destruct (first_turn_keeps (EventCompactor.start_flags hs1) (e, false)
    (EventCompactor.start_flags hs2) k Hk) as (c & -> & Hc).
  { intros t. unfold EventCompactor.start_flags. rewrite <-list_fmap_compose, list_fmap_id.
    apply Hno. }
  destruct (turns_duplicates ls c) as (c' & -> & Hsub). cbn [EventCompactor.relevance].
  unfold RemoveDuplicatesCompactor.relevance. by rewrite bool_decide_eq_true_2 by set_solver.
Qed.

(** Only the cut-off forces an event that names a record to be kept, and only tombstones
    force it to be dropped. *)
Lemma other_votes c e : e ∈ hs → is_Some (Metadata.get_data_key (eh_meta e)) →
  (EventCompactor.relevance (turned c) e = ForceKeep → ∃ cut, c = CutOff cut)
  ∧ (EventCompactor.relevance (turned c) e = ForceDrop → ∃ tc, c = Tombstones tc).
Proof.
  intros He Hk. destruct (ho_plain _ Hok e He Hk) as [Hsig Hpk].
  assert (same_kind c (turned c)) as Hkind.
  { unfold turned. rewrite turns_kind, run_kind. by destruct c. }
  destruct c as [d|d|d|d|d|], (turned _) as [d'|d'|d'|d'|d'|]; try done; clear Hkind;
    cbn [EventCompactor.relevance];
    unfold RemoveDuplicatesCompactor.relevance, TombstoneCompactor.relevance,
      SignatureCompactor.relevance, PublicKeyCompactor.relevance, CutOffCompactor.relevance;
    rewrite ?Hsig, ?Hpk;
    split; intros Hv; try (by eauto); exfalso; revert Hv;
    repeat first [case_bool_decide | case_match]; done.
Qed.
End votes.

(** The events a compaction copies. *)
Definition kept l : list EventHeader := (List.filter snd l).*1.

Lemma kept_filter cs' l : l = EventCompactor.update_flags cs' l →
  kept l = List.filter (EventCompactor.compute_relevance cs') l.*1.
Proof.
  intros Hl. unfold kept.
  assert (∀ m : list (EventHeader * bool),
    (List.filter snd (EventCompactor.update_flags cs' m)).*1
    = List.filter (EventCompactor.compute_relevance cs') m.*1) as Hm.
  { induction m as [|x m IH]; [done|]. cbn.
    destruct (EventCompactor.compute_relevance cs' x.1); cbn; by rewrite <-IH. }
  rewrite Hl at 1. apply Hm.
Qed.

Lemma settled_votes hs cs cut_off l cs' :
  EventCompactor.settled hs cs cut_off = Some (l, cs') →
  ∃ ls, Forall (λ m, m.*1 = (EventCompactor.start_flags hs).*1) ls
    ∧ kept l = List.filter (EventCompactor.compute_relevance
                 (turned hs ls <$> EventCompactor.fresh_compactors cs cut_off)) hs.
Proof.
  intros (Hh & Hu & ls & Hls & Hcs)%settle_result. exists ls. split; [done|].
  rewrite (kept_filter _ _ Hu), Hh, start_headers.
  assert (cs' = turned hs ls <$> EventCompactor.fresh_compactors cs cut_off) as <-; [|done].
  rewrite Hcs, feed_turns_run, feed_all_run, <-list_fmap_compose. done.
Qed.

Lemma fresh_elem cs cut_off c :
  c ∈ EventCompactor.fresh_compactors cs cut_off →
  match c with
  | RemoveDuplicates d => d = RemoveDuplicatesCompactor.default
  | Tombstones tc => tc = TombstoneCompactor.default
  | CutOff cut => cut = CutOffCompactor.new cut_off
  | _ => True
  end.
Proof.
  unfold EventCompactor.fresh_compactors.
  intros [(c0 & _ & Hc)%list_elem_of_omap| ->%list_elem_of_singleton]%elem_of_app; [|done].
  destruct c0; by simplify_eq/=.
Qed.

Lemma elem_of_votes (cs : list EventCompactor) (v : EventRelevance) e (f : EventCompactor → EventCompactor) :
  v ∈ ((λ c, EventCompactor.relevance c e) <$> (f <$> cs))
  ↔ ∃ c, c ∈ cs ∧ EventCompactor.relevance (f c) e = v.
Proof. rewrite <-list_fmap_compose, list_elem_of_fmap. naive_solver. Qed.

Section flags.
Variable hs : list EventHeader.
Variable ls : list (list (EventHeader * bool)).
Variable cs : list EventCompactor.
Variable cut_off : ChainTimestamp.
Hypothesis Hok : history_ok hs.
Hypothesis Hls : Forall (λ m, m.*1 = (EventCompactor.start_flags hs).*1) ls.

Local Abbreviation final := (turned hs ls <$> EventCompactor.fresh_compactors cs cut_off).

(** The last event of a record, when it is not a tombstone, is kept. *)
Lemma last_write_kept e hs1 hs2 k d : RemoveDuplicates d ∈ cs → hs = hs1 ++ e :: hs2 →
  Metadata.get_data_key (eh_meta e) = Some k → Metadata.get_tombstone (eh_meta e) = None →
  (∀ t, t ∈ hs2 → Metadata.get_data_key (eh_meta t) ≠ Some k) →
  EventCompactor.compute_relevance final e = true.
Proof.
  intros Hd Hs Hk Hnt Hno. unfold EventCompactor.compute_relevance.
  assert (e ∈ hs) as He by set_solver.
  case_bool_decide; [done|]. rewrite bool_decide_eq_false_2, bool_decide_eq_true_2; [done|..].
  - apply elem_of_votes. exists (RemoveDuplicates RemoveDuplicatesCompactor.default).
    split; [|by eapply duplicates_vote]. apply elem_of_app. left.
    apply list_elem_of_omap. by eexists.
  - intros (c & Hc & Hv)%elem_of_votes.
    destruct (other_votes hs ls Hok c e He ltac:(eauto)) as [_ Ht].
    destruct (Ht Hv) as [tc ->]. apply fresh_elem in Hc as ->.
    rewrite (tombstone_vote hs ls Hok Hls e hs1 hs2 k Hs Hk) in Hv.
    case_bool_decide as Hex; [|done].
    apply Exists_cons in Hex as [?|(t & Ht' & Htk)%Exists_exists]; [congruence|].
    apply (Hno t Ht'). eapply history_tombstone; [done| |done]. set_solver.
Qed.

(** An event that a later tombstone removes is kept only with the tombstone. *)
Lemma dead_kept_with e hs1 hs2 t k tc : Tombstones tc ∈ cs → hs = hs1 ++ e :: hs2 → t ∈ hs2 →
  Metadata.get_data_key (eh_meta e) = Some k → Metadata.get_tombstone (eh_meta t) = Some k →
  EventCompactor.compute_relevance final e = true →
  EventCompactor.compute_relevance final t = true.
Proof.
  intros Htc Hs Ht Hk Htk. assert (e ∈ hs ∧ t ∈ hs) as [He Hth] by set_solver.
  unfold EventCompactor.compute_relevance. rewrite (bool_decide_eq_true_2 (ForceDrop ∈ _)).
  - case_bool_decide as Hfk; [|done]. intros _. rewrite bool_decide_eq_true_2; [done|].
    apply elem_of_votes in Hfk as (c & Hc & Hv).
    destruct (other_votes hs ls Hok c e He ltac:(eauto)) as [Hcut _].
    destruct (Hcut Hv) as [cut ->]. apply elem_of_votes. exists (CutOff cut). split; [done|].
    unfold turned in *.
    assert (∀ ms, foldl (λ c m, run_compactor m c) (CutOff cut) ms = CutOff cut) as Hconst.
    { induction ms as [|m ms IH]; [done|]. cbn [foldl]. by rewrite run_constant. }
    rewrite run_constant, Hconst in * by done. cbn in *. unfold CutOffCompactor.relevance in *.
    destruct (Metadata.get_timestamp (eh_meta e)) as [ts|] eqn:Hts; [|done].
    destruct (ho_times _ Hok _ _ _ _ _ Hs Ht ltac:(rewrite Hk; by eapply history_tombstone)
      ltac:(eauto) Hts) as (ts' & -> & Hle).
    unfold ChainTimestamp.lt in *. repeat case_bool_decide; try done; lia.
  - apply elem_of_votes. exists (Tombstones TombstoneCompactor.default). split.
    + apply elem_of_app. left. apply list_elem_of_omap. by eexists.
    + rewrite (tombstone_vote hs ls Hok Hls e hs1 hs2 k Hs Hk).
      rewrite bool_decide_eq_true_2; [done|]. apply Exists_exists. exists t. set_solver.
Qed.
End flags.

(** ** Theorems *)

Lemma settled_total (headers : list EventHeader) (cs : list EventCompactor)
  (cut_off : ChainTimestamp) :
  ∃ l cs', EventCompactor.settled headers cs cut_off = Some (l, cs')
    ∧ l.*1 = headers ∧ l = EventCompactor.update_flags cs' l.
Proof.
  destruct (settle_some (EventCompactor.settle_fuel headers)
    (EventCompactor.start_flags headers) (EventCompactor.fresh_compactors cs cut_off))
    as [[l cs'] Hs].
  - apply ready_start.
  - unfold EventCompactor.settle_fuel, unset, EventCompactor.start_flags.
    rewrite <-(length_fmap (λ h, (h, false)) headers).
    pose proof (List.filter_length_le (λ e : EventHeader * bool, negb e.2)
      ((λ h, (h, false)) <$> headers)). lia.
  - exists l, cs'. destruct (settle_result _ _ _ _ _ Hs) as (Hl & Hu & _).
    rewrite start_headers in Hl. done.
Qed.

(** The loop of a compaction ends: for any history, any compactors and any cut-off it
    settles within one turn more than there are events, because from the first turn on no
    flag is ever lowered.  What it returns are the same events in the same order, each
    flagged as the compactors vote. *)
Theorem compaction_settles (headers : list EventHeader) (cs : list EventCompactor)
  (cut_off : ChainTimestamp) :
  ∃ l cs', EventCompactor.settled headers cs cut_off = Some (l, cs')
    ∧ l.*1 = headers ∧ l = EventCompactor.update_flags cs' l.
Proof. exact (settled_total headers cs cut_off). Qed.

Lemma settled_view (hs : list EventHeader) (cs : list EventCompactor)
  (cut_off : ChainTimestamp) (l : list (EventHeader * bool)) (cs' : list EventCompactor)
  (d : RemoveDuplicatesCompactor) (tc : TombstoneCompactor) (k : PrimaryKey)
  (Hok : history_ok hs) (Hd : RemoveDuplicates d ∈ cs) (Htc : Tombstones tc ∈ cs)
  (Hset : EventCompactor.settled hs cs cut_off = Some (l, cs')) :
  let view evts := (λ leaf, (leaf_record leaf, leaf_updated leaf))
                     <$> BinaryTreeIndexer.lookup_primary (index_of evts) k in
  view (kept l) = view hs.
Proof.
  intros view. unfold view, BinaryTreeIndexer.lookup_primary. rewrite !primary_last.
  destruct (settled_votes _ _ _ _ _ Hset) as (ls & Hls & ->).
  set (P := EventCompactor.compute_relevance _).
  destruct (last (List.filter (touches k) hs)) as [e|] eqn:Hlast.
  2: { apply last_None in Hlast. by rewrite filter_filter, Hlast. }
  apply last_filter_Some in Hlast as (hs1 & hs2 & Hs & Hte & Hno).
  assert (e ∈ hs) as He by (rewrite Hs; set_solver).
  pose proof (proj1 (ho_keys _ Hok e k He) Hte) as Hk.
  assert (P e = true → last (List.filter (touches k) (List.filter P hs)) = Some e) as Hkept.
  { intros HP. rewrite filter_filter, Hs, List.filter_app. cbn. rewrite Hte, Hno.
    rewrite List.filter_app. cbn. rewrite HP. apply last_snoc. }
  destruct (removes_key k e) eqn:Hr.
  - destruct (P e) eqn:HP; [by rewrite Hkept, Hr|].
    destruct (last _) as [e'|] eqn:Hl'; [|done].
    destruct (removes_key k e') eqn:Hr'; [done|]. exfalso.
    apply last_filter_Some in Hl' as (l1 & l2 & Hl & Hte' & _).
    assert (e' ∈ List.filter P hs) as He' by (rewrite Hl; set_solver).
    apply list_elem_of_In, filter_In in He' as [He'%list_elem_of_In HP'].
    rewrite Hs in He'. apply elem_of_app in He' as [He'|[->|He']%elem_of_cons].
    + apply list_elem_of_split in He' as (m1 & m2 & ->).
      rewrite <-app_assoc in Hs. cbn in Hs.
      pose proof (proj1 (ho_keys _ Hok e' k ltac:(rewrite Hs; set_solver)) Hte') as Hk'.
      enough (P e = true) by congruence.
      apply (dead_kept_with hs ls cs cut_off Hok Hls e' m1 (m2 ++ e :: hs2) e k tc Htc Hs); try done;
        [set_solver|by apply removes_tombstone].
    + congruence.
    + by rewrite (proj1 (filter_nil_iff _ _) Hno e' He') in Hte'.
  - rewrite Hkept, Hr; [done|].
    apply (last_write_kept hs ls cs cut_off Hok Hls e hs1 hs2 k d Hd Hs Hk).
    + destruct (Metadata.get_tombstone (eh_meta e)) as [k'|] eqn:Ht; [|done].
      pose proof (history_tombstone _ _ _ Hok He Ht) as Hk'. rewrite Hk in Hk'.
      injection Hk' as <-. apply removes_tombstone in Ht. congruence.
    + intros t Ht Htk. assert (t ∈ hs) as Hth by (rewrite Hs; set_solver).
      apply (ho_keys _ Hok t k Hth) in Htk.
      by rewrite (proj1 (filter_nil_iff _ _) Hno t Ht) in Htk.
Qed.

(** A compaction does not change what a record holds.  On a well-formed history, with
    compactors that include the removal of duplicates and of tombstones (as the defaults
    do), looking a record up in the index of the kept events finds the same event, written
    at the same time, as in the index of the whole history, and nothing where the record
    was deleted; this for every cut-off. *)
Theorem compaction_keeps_view (hs : list EventHeader) (cs : list EventCompactor)
  (cut_off : ChainTimestamp) (l : list (EventHeader * bool)) (cs' : list EventCompactor)
  (d : RemoveDuplicatesCompactor) (tc : TombstoneCompactor) (k : PrimaryKey)
  (Hok : history_ok hs) (Hd : RemoveDuplicates d ∈ cs) (Htc : Tombstones tc ∈ cs)
  (Hset : EventCompactor.settled hs cs cut_off = Some (l, cs')) :
  let view evts := (λ leaf, (leaf_record leaf, leaf_updated leaf))
                     <$> BinaryTreeIndexer.lookup_primary (index_of evts) k in
  view (kept l) = view hs.
Proof. exact (settled_view hs cs cut_off l cs' d tc k Hok Hd Htc Hset). Qed.
End view.


(** ** Concrete inputs *)

#[local] Existing Instance toy_prims.

(** [ChainBuilder::with_defaults]. *)
Definition default_compactors : list EventCompactor :=
  [PublicKeys PublicKeyCompactor.default; Signatures SignatureCompactor.default;
   RemoveDuplicates RemoveDuplicatesCompactor.default; Tombstones TombstoneCompactor.default].

Definition timed (n : byte) (ms : Z) (data : option AteHash) (core : list CoreMetadata)
    : EventHeader :=
  {| eh_raw := {| raw_meta_hash := {| hash_val := [n] |}; raw_meta_bytes := [];
                  raw_data_hash := data; raw_data_size := 0;
                  raw_event_hash := {| hash_val := [n] |};
                  raw_format := {| mf_meta := Json; mf_data := Json |} |};
     eh_meta := {| meta_core := CoreTimestamp (ChainTimestamp.from ms) :: core |} |}.

Definition some_data : option AteHash := Some {| hash_val := [x2a] |}.

(** Record 1 is written twice; record 2 is written and deleted. *)
Definition sample_history : list EventHeader :=
  [timed x01 10 some_data [CoreData (PrimaryKey.new 1)];
   timed x02 20 some_data [CoreData (PrimaryKey.new 2)];
   timed x03 30 some_data [CoreData (PrimaryKey.new 1)];
   timed x04 40 None [CoreTombstone (PrimaryKey.new 2)]].

Local Notation sample_settled :=
  (EventCompactor.settled sample_history default_compactors (ChainTimestamp.from 100)).

Lemma sample_history_ok : history_ok sample_history.
Proof.
  split.
  - apply (bool_decide_unpack _). vm_compute. exact I.
  - intros e k He. unfold touches, removes_key, writes_key.
    repeat (apply elem_of_cons in He as [->|He]; [cbn; repeat case_bool_decide; naive_solver|]).
    by apply elem_of_nil in He.
  - intros e He _. repeat (apply elem_of_cons in He as [->|He]; [done|]).
    by apply elem_of_nil in He.
  - intros hs1 e hs2 t ts Hs Ht Hk _ Hts.
    do 4 (destruct hs1 as [|? hs1]; [injection Hs as <- <-|injection Hs as _ Hs];
      [injection Hts as <-;
       repeat (apply elem_of_cons in Ht as [->|Ht]; [eexists; split; [done|]; cbn; lia|]);
       by apply elem_of_nil in Ht|]).
    by destruct hs1.
Qed.

Lemma sample_settled_kept :
  match sample_settled with
  | Some (l, _) => (λ e, raw_event_hash (eh_raw e)) <$> kept l = [{| hash_val := [x03] |}]
      ∧ leaf_created <$> BinaryTreeIndexer.lookup_primary (index_of (kept l)) (PrimaryKey.new 1)
        = Some 30
  | None => False
  end.
Proof. vm_compute. split; reflexivity. Qed.

Lemma compaction_keeps_view_witness :
  ∃ l cs', sample_settled = Some (l, cs')
    ∧ (λ e, raw_event_hash (eh_raw e)) <$> kept l = [{| hash_val := [x03] |}]
    ∧ (λ leaf, (leaf_record leaf, leaf_updated leaf))
        <$> BinaryTreeIndexer.lookup_primary (index_of (kept l)) (PrimaryKey.new 1)
      = (λ leaf, (leaf_record leaf, leaf_updated leaf))
        <$> BinaryTreeIndexer.lookup_primary (index_of sample_history) (PrimaryKey.new 1).
Proof.
  pose proof sample_settled_kept as Hk.
  destruct sample_settled as [[l cs']|] eqn:Hs; [|destruct Hk].
  exists l, cs'. split; [reflexivity|]. split; [apply Hk|].
  apply (compaction_keeps_view sample_history default_compactors (ChainTimestamp.from 100) l cs'
           RemoveDuplicatesCompactor.default TombstoneCompactor.default (PrimaryKey.new 1)).
  - exact sample_history_ok.
  - do 2 right. left.
  - do 3 right. left.
  - exact Hs.
Defined.

(** Finding: a compaction forgets when a record was created.  The index takes the
    creation time of a record from the first event that wrote it; compaction drops that
    event and keeps the last, so the record looks as if it was created when it was last
    written. *)
Theorem compaction_forgets_created :
  ∃ l cs', sample_settled = Some (l, cs')
    ∧ leaf_created <$> BinaryTreeIndexer.lookup_primary (index_of sample_history) (PrimaryKey.new 1)
      = Some 10
    ∧ leaf_created <$> BinaryTreeIndexer.lookup_primary (index_of (kept l)) (PrimaryKey.new 1)
      = Some 30.
Proof.
  pose proof sample_settled_kept as Hk.
  destruct sample_settled as [[l cs']|] eqn:Hs; [|destruct Hk].
  exists l, cs'. split; [done|]. split; [vm_compute; reflexivity|apply Hk].
Qed.
