(* ===== verification/Plugins.v ===== *)
(** * Plugins

    The parts a chain is composed of behind its traits: the timestamp enforcer of
    lib/src/time/enforcer.rs, the anti-replay plugin of lib/src/anti_replay.rs, the
    validators of lib/src/validator.rs, the linters of lib/src/lint.rs, the transformers
    of lib/src/transform.rs and the indexers of lib/src/index.rs; the traits themselves
    ([EventPlugin], [EventValidator], ...) as sums of their implementations; and
    [ChainProtectedSync] of lib/src/chain/protected_sync.rs and lib/src/multi.rs, which
    asks all of them in turn.

    The clock the enforcer reads is an argument [now] of the operations, and so are the
    texts errors display as. *)

From S2P Require Import Prelude LogApi Crypto Codec Secure Meta Time Event Index Signature Tree.

(** ** The timestamp enforcer *)

(** [te_cursor] in nanoseconds. *)
Record TimestampEnforcer : Type := { te_cursor : Z; te_keeper : TimeKeeper }.

(** [Duration::from_millis]. *)
Definition ms_duration (t : ChainTimestamp) : Z := time_since_epoch_ms t * 1000000.

Module TimestampEnforcer.
Definition new (keeper : TimeKeeper) (tolerance_ms : Z) : TimestampEnforcer :=
  {| te_cursor := tolerance_ms * 1000000; te_keeper := keeper |}.

Definition metadata_lint_event (te : TimestampEnforcer) (now : option Z) (meta : Metadata)
    : result LintErrorKind (list CoreMetadata) :=
  match Metadata.get_timestamp meta with
  | Some _ => Ok []
  | None =>
      t ← map_err LintTime (TimeKeeper.current_timestamp (te_keeper te) now);
      Ok [CoreTimestamp t]
  end.

Definition feed (te : TimestampEnforcer) (header : EventHeader) : TimestampEnforcer :=
  match Metadata.get_timestamp (eh_meta header) with
  | Some time =>
      if decide (te_cursor te < ms_duration time)
      then {| te_cursor := ms_duration time; te_keeper := te_keeper te |} else te
  | None => te
  end.

Definition reset (te : TimestampEnforcer) : TimestampEnforcer :=
  {| te_cursor := tk_tolerance (te_keeper te); te_keeper := te_keeper te |}.

Definition validate (te : TimestampEnforcer) (now : option Z) (header : EventHeader)
    : result ValidationErrorKind ValidationResult :=
  match Metadata.get_timestamp (eh_meta header) with
  | None =>
      if Metadata.needs_signature (eh_meta header)
      then Err (ValidationTrust (TrustTime NoTimestamp)) else Ok Abstain
  | Some time =>
      if TimeKeeper.has_converged (te_keeper te) then
        current ← map_err ValidationTime
                    (TimeKeeper.current_timestamp_as_duration (te_keeper te) now);
        let timestamp := ms_duration time in
        let max_timestamp := current + tk_tolerance (te_keeper te) in
        if decide (max_timestamp < timestamp)
        then Err (ValidationTrust (TrustTime (OutOfBounds (te_cursor te) timestamp)))
        else Ok Abstain
      else Ok Abstain
  end.
End TimestampEnforcer.

(** ** Replays *)

Record AntiReplayPlugin : Type := { ar_seen : gset AteHash }.

Module AntiReplayPlugin.
Definition new : AntiReplayPlugin := {| ar_seen := ∅ |}.

Definition push (p : AntiReplayPlugin) (hash : AteHash) : AntiReplayPlugin :=
  {| ar_seen := ar_seen p ∪ {[hash]} |}.

Definition feed (p : AntiReplayPlugin) (header : EventHeader) : AntiReplayPlugin :=
  push p (raw_event_hash (eh_raw header)).

Definition reset (p : AntiReplayPlugin) : AntiReplayPlugin := {| ar_seen := ∅ |}.

Definition validate (p : AntiReplayPlugin) (header : EventHeader)
    : result ValidationErrorKind ValidationResult :=
  if decide (raw_event_hash (eh_raw header) ∈ ar_seen p) then Ok Deny else Ok Abstain.

(** [Loader::relevance_check]: was the event seen before? *)
Definition relevance_check `{CryptoPrims} `{MetaSerializer} (e : EventWeakData)
    (p : AntiReplayPlugin) : bool * AntiReplayPlugin :=
  match EventWeakData.as_header_raw e with
  | Ok a => (bool_decide (raw_event_hash a ∈ ar_seen p), push p (raw_event_hash a))
  | Err _ => (false, p)
  end.
End AntiReplayPlugin.

(** ** Compression *)

(** The snappy frame format of the [snap] crate: decoding what was encoded gives it back.
    [None] is an I/O error of the decoder. *)
Class SnapFrames : Type := {
  snap_encode : bytes → bytes;
  snap_decode : bytes → option bytes;
  snap_round_trip : ∀ bs, snap_decode (snap_encode bs) = Some bs;
}.

(** ** Plugins *)

(** [Box<dyn EventPlugin>]. *)
Inductive EventPlugin : Type :=
  | AntiReplay (p : AntiReplayPlugin)
  | Timestamps (p : TimestampEnforcer)
  | TreeAuthority (p : TreeAuthorityPlugin)
  | SignaturesPlugin (p : SignaturePlugin).

Module EventPlugin.
Section ops.
Context `{CryptoPrims} `{KemPrims}.

Definition feed (header : EventHeader)
    : st (EventPlugin * option ConversationSession) SinkErrorKind unit :=
  st_mk (λ '(p, conv),
    match p with
    | AntiReplay p => (Ok (), (AntiReplay (AntiReplayPlugin.feed p header), conv))
    | Timestamps p => (Ok (), (Timestamps (TimestampEnforcer.feed p header), conv))
    | TreeAuthority p =>
        let '(r, (p, conv)) := TreeAuthorityPlugin.feed header (p, conv) in
        (r, (TreeAuthority p, conv))
    | SignaturesPlugin p =>
        let '(r, (p, conv)) := SignaturePlugin.feed header (p, conv) in
        (r, (SignaturesPlugin p, conv))
    end).

Definition reset (p : EventPlugin) : EventPlugin :=
  match p with
  | AntiReplay p => AntiReplay (AntiReplayPlugin.reset p)
  | Timestamps p => Timestamps (TimestampEnforcer.reset p)
  | TreeAuthority p => TreeAuthority (TreeAuthorityPlugin.reset p)
  | SignaturesPlugin p => SignaturesPlugin (SignaturePlugin.reset p)
  end.

(** An event that does not feed is passed over. *)
Definition rebuild (headers : list EventHeader)
    (s : EventPlugin * option ConversationSession) : EventPlugin * option ConversationSession :=
  match fst s with
  | TreeAuthority p =>
      let '(p, conv) := TreeAuthorityPlugin.rebuild headers (p, snd s) in (TreeAuthority p, conv)
  | p => foldl (λ s header, (feed header s).2) (reset p, snd s) headers
  end.

Definition validate (p : EventPlugin) (now : option Z) (header : EventHeader)
    (conv : option ConversationSession) : result ValidationErrorKind ValidationResult :=
  match p with
  | AntiReplay p => AntiReplayPlugin.validate p header
  | Timestamps p => TimestampEnforcer.validate p now header
  | TreeAuthority p => TreeAuthorityPlugin.validate p header conv
  | SignaturesPlugin _ => Ok Abstain
  end.

Definition validator_name (p : EventPlugin) : string :=
  match p with
  | AntiReplay _ => "anti-reply-validator"
  | Timestamps _ => "timestamp-validator"
  | TreeAuthority _ => "tree-authority-validator"
  | SignaturesPlugin _ => "signature-validator"
  end.

Definition set_integrity_mode (mode : TrustMode) (p : EventPlugin) : EventPlugin :=
  match p with
  | TreeAuthority p => TreeAuthority (TreeAuthorityPlugin.set_integrity_mode mode p)
  | SignaturesPlugin p => SignaturesPlugin (SignaturePlugin.set_integrity_mode mode p)
  | p => p
  end.

Definition metadata_lint_many (p : EventPlugin) (raw : list LintData) (session : AteSession)
    : st (option ConversationSession) LintErrorKind (list CoreMetadata) :=
  match p with
  | TreeAuthority p => TreeAuthorityPlugin.metadata_lint_many p raw session
  | SignaturesPlugin p => SignaturePlugin.metadata_lint_many p raw session
  | _ => mret []
  end.

Definition metadata_lint_event (p : EventPlugin) (now : option Z) (meta : Metadata)
    (session : AteSession) (tm : TransactionMetadata) (type_code : string)
    : result LintErrorKind (list CoreMetadata) :=
  match p with
  | Timestamps p => TimestampEnforcer.metadata_lint_event p now meta
  | TreeAuthority p => TreeAuthorityPlugin.metadata_lint_event p meta session tm type_code
  | _ => Ok []
  end.

Definition data_as_underlay (rnd : bytes) (p : EventPlugin) (with_ : bytes)
    (session : AteSession) (tm : TransactionMetadata) : st Metadata TransformErrorKind bytes :=
  match p with
  | TreeAuthority p => TreeAuthorityPlugin.data_as_underlay rnd p with_ session tm
  | _ => mret with_
  end.

Definition data_as_overlay (p : EventPlugin) (meta : Metadata) (with_ : bytes)
    (session : AteSession) : result TransformErrorKind bytes :=
  match p with
  | TreeAuthority p => TreeAuthorityPlugin.data_as_overlay p meta with_ session
  | _ => Ok with_
  end.
End ops.
End EventPlugin.

(** ** Validators, linters, transformers, indexers *)

(** [Box<dyn EventValidator>]. *)
Inductive EventValidator : Type :=
  | RubberStampValidator
  | StaticSignatureValidator (pk : PublicSignKey)
  | PluginValidator (p : EventPlugin).

(** [Box<dyn EventMetadataLinter>]. *)
Inductive EventMetadataLinter : Type :=
  | EventAuthorLinter
  | PluginLinter (p : EventPlugin).

(** [Box<dyn EventDataTransformer>]. *)
Inductive EventDataTransformer : Type :=
  | CompressorWithSnapTransformer
  | StaticEncryptionTransformer (key : EncryptKey)
  | PluginTransformer (p : EventPlugin).

(** [Box<dyn EventIndexer>]. *)
Inductive EventIndexer : Type :=
  | UselessIndexer
  | TimestampIndexer (p : TimestampEnforcer).

Section ops.
Context `{CryptoPrims} `{KemPrims} `{SnapFrames}.

Definition validator_validate (v : EventValidator) (now : option Z) (header : EventHeader)
    (conv : option ConversationSession) : result ValidationErrorKind ValidationResult :=
  match v with
  | RubberStampValidator | StaticSignatureValidator _ => Ok Allow
  | PluginValidator p => EventPlugin.validate p now header conv
  end.

Definition validator_name (v : EventValidator) : string :=
  match v with
  | RubberStampValidator => "rubber-stamp-validator"
  | StaticSignatureValidator _ => "static-signature-validator"
  | PluginValidator p => EventPlugin.validator_name p
  end.

Definition validator_set_integrity_mode (mode : TrustMode) (v : EventValidator)
    : EventValidator :=
  match v with
  | PluginValidator p => PluginValidator (EventPlugin.set_integrity_mode mode p)
  | v => v
  end.

Definition linter_lint_many (l : EventMetadataLinter) (raw : list LintData)
    (session : AteSession) : st (option ConversationSession) LintErrorKind (list CoreMetadata) :=
  match l with
  | EventAuthorLinter => mret []
  | PluginLinter p => EventPlugin.metadata_lint_many p raw session
  end.

Definition linter_lint_event (l : EventMetadataLinter) (now : option Z) (meta : Metadata)
    (session : AteSession) (tm : TransactionMetadata) (type_code : string)
    : result LintErrorKind (list CoreMetadata) :=
  match l with
  | EventAuthorLinter => Ok [CoreAuthor (ss_identity session)]
  | PluginLinter p => EventPlugin.metadata_lint_event p now meta session tm type_code
  end.

Definition transformer_underlay (rnd : bytes) (t : EventDataTransformer) (with_ : bytes)
    (session : AteSession) (tm : TransactionMetadata) : st Metadata TransformErrorKind bytes :=
  match t with
  | CompressorWithSnapTransformer => mret (snap_encode with_)
  | StaticEncryptionTransformer key => st_mk (λ meta,
      let '(iv, meta) := Metadata.generate_iv rnd meta in
      (Ok (EncryptKey.encrypt_with_iv key iv with_), meta))
  | PluginTransformer p => EventPlugin.data_as_underlay rnd p with_ session tm
  end.

Definition transformer_overlay (t : EventDataTransformer) (meta : Metadata) (with_ : bytes)
    (session : AteSession) : result TransformErrorKind bytes :=
  match t with
  | CompressorWithSnapTransformer =>
      match snap_decode with_ with
      | Some bs => Ok bs
      | None => Err (TransformIO (SecureIo Other))
      end
  | StaticEncryptionTransformer key =>
      match Metadata.get_iv meta with
      | Some iv => Ok (EncryptKey.decrypt key iv with_)
      | None => Err NoIvPresent
      end
  | PluginTransformer p => EventPlugin.data_as_overlay p meta with_ session
  end.

Definition indexer_feed (i : EventIndexer) (header : EventHeader) : EventIndexer :=
  match i with
  | UselessIndexer => UselessIndexer
  | TimestampIndexer p => TimestampIndexer (TimestampEnforcer.feed p header)
  end.
End ops.

(** ** What a chain asks of them *)

(** [ChainProtectedSync], without the sniffers and services, which only listen. *)
Record ChainProtectedSync : Type := {
  cs_integrity : TrustMode;
  cs_default_session : AteSession;
  cs_plugins : list EventPlugin;
  cs_indexers : list EventIndexer;
  cs_linters : list EventMetadataLinter;
  cs_transformers : list EventDataTransformer;
  cs_validators : list EventValidator;
}.

(** The variables of [validate_event]. *)
Record Tally : Type := { ty_deny_reason : string; ty_is_deny : bool; ty_is_allow : bool }.

Definition no_votes : Tally := {| ty_deny_reason := EmptyString; ty_is_deny := false; ty_is_allow := false |}.

Module ChainProtectedSync.
Section ops.
Context `{CryptoPrims} `{KemPrims} `{SnapFrames}.
(** [ValidationError::to_string]. *)
Variable display : ValidationErrorKind → string.

Definition with_plugins (s : ChainProtectedSync) (ps : list EventPlugin) : ChainProtectedSync :=
  {| cs_integrity := cs_integrity s; cs_default_session := cs_default_session s;
     cs_plugins := ps; cs_indexers := cs_indexers s; cs_linters := cs_linters s;
     cs_transformers := cs_transformers s; cs_validators := cs_validators s |}.

Definition with_indexers (s : ChainProtectedSync) (is_ : list EventIndexer) : ChainProtectedSync :=
  {| cs_integrity := cs_integrity s; cs_default_session := cs_default_session s;
     cs_plugins := cs_plugins s; cs_indexers := is_; cs_linters := cs_linters s;
     cs_transformers := cs_transformers s; cs_validators := cs_validators s |}.

Definition deny (reason : string) (t : Tally) : Tally :=
  {| ty_deny_reason := if decide (ty_deny_reason t = EmptyString) then reason
                       else (ty_deny_reason t +:+ " + " +:+ reason)%string;
     ty_is_deny := true; ty_is_allow := ty_is_allow t |}.

(** One vote, of a validator of the given name. *)
Definition count_vote (t : Tally) (vote : string * result ValidationErrorKind ValidationResult)
    : Tally :=
  match vote.2 with
  | Ok Deny => deny ("denied by validator(" +:+ vote.1 +:+ ")")%string t
  | Ok Allow => {| ty_deny_reason := ty_deny_reason t; ty_is_deny := ty_is_deny t;
                   ty_is_allow := true |}
  | Ok Abstain => t
  | Err (Denied reason) => deny reason t
  | Err Detached => {| ty_deny_reason := ty_deny_reason t; ty_is_deny := true;
                       ty_is_allow := ty_is_allow t |}
  | Err AllAbstained => t
  | Err NoSignatures => deny "no signatures" t
  | Err (ValidationMany errors) => foldl (λ t err, deny (display err) t) t errors
  | Err err => deny (display err) t
  end.

(** The votes of the validators, then of the plugins. *)
Definition votes (s : ChainProtectedSync) (now : option Z) (header : EventHeader)
    (conv : option ConversationSession)
    : list (string * result ValidationErrorKind ValidationResult) :=
  ((λ v, (validator_name v, validator_validate v now header conv)) <$> cs_validators s)
  ++ ((λ p, (EventPlugin.validator_name p, EventPlugin.validate p now header conv))
        <$> cs_plugins s).

Definition validate_event (s : ChainProtectedSync) (now : option Z) (header : EventHeader)
    (conv : option ConversationSession) : result ValidationErrorKind ValidationResult :=
  let t := foldl count_vote no_votes (votes s now header conv) in
  if ty_is_deny t then Err (Denied (ty_deny_reason t))
  else if negb (ty_is_allow t) then Err AllAbstained
  else Ok Allow.

Definition set_integrity_mode (mode : TrustMode) (s : ChainProtectedSync) : ChainProtectedSync :=
  {| cs_integrity := mode; cs_default_session := cs_default_session s;
     cs_plugins := EventPlugin.set_integrity_mode mode <$> cs_plugins s;
     cs_indexers := cs_indexers s; cs_linters := cs_linters s;
     cs_transformers := cs_transformers s;
     cs_validators := validator_set_integrity_mode mode <$> cs_validators s |}.

(** The loop over the plugins with [?]: the first that fails ends it; it and the ones
    before it have been fed. *)
Fixpoint feed_plugins (header : EventHeader) (ps : list EventPlugin)
    (conv : option ConversationSession)
    : result SinkErrorKind unit * (list EventPlugin * option ConversationSession) :=
  match ps with
  | [] => (Ok (), ([], conv))
  | p :: ps =>
      let '(r, (p, conv)) := EventPlugin.feed header (p, conv) in
      match r with
      | Err e => (Err e, (p :: ps, conv))
      | Ok _ => let '(r, (ps, conv)) := feed_plugins header ps conv in (r, (p :: ps, conv))
      end
  end.

(** The loops over the linters and the plugins. *)
Fixpoint lint_many_all (cs : list (st (option ConversationSession) LintErrorKind (list CoreMetadata)))
    : st (option ConversationSession) LintErrorKind (list CoreMetadata) :=
  match cs with
  | [] => mret []
  | c :: cs => ms ← c; rest ← lint_many_all cs; mret (ms ++ rest)
  end.

Definition metadata_lint_many (s : ChainProtectedSync) (lints : list LintData)
    (session : AteSession) : st (option ConversationSession) LintErrorKind (list CoreMetadata) :=
  lint_many_all
    (((λ l, linter_lint_many l lints session) <$> cs_linters s)
     ++ ((λ p, EventPlugin.metadata_lint_many p lints session) <$> cs_plugins s)).

Fixpoint lint_event_all (rs : list (result LintErrorKind (list CoreMetadata)))
    : result LintErrorKind (list CoreMetadata) :=
  match rs with
  | [] => Ok []
  | r :: rs => ms ← r; rest ← lint_event_all rs; Ok (ms ++ rest)
  end.

Definition metadata_lint_event (s : ChainProtectedSync) (now : option Z) (meta : Metadata)
    (session : AteSession) (tm : TransactionMetadata) (type_code : string)
    : result LintErrorKind (list CoreMetadata) :=
  lint_event_all
    (((λ l, linter_lint_event l now meta session tm type_code) <$> cs_linters s)
     ++ ((λ p, EventPlugin.metadata_lint_event p now meta session tm type_code)
           <$> cs_plugins s)).

Fixpoint underlay_all (layers : list (bytes → st Metadata TransformErrorKind bytes)) (data : bytes)
    : st Metadata TransformErrorKind bytes :=
  match layers with
  | [] => mret data
  | f :: layers => data ← f data; underlay_all layers data
  end.

(** [rnds] are the draws of the random generator, one for each layer. *)
Definition data_as_underlay (rnds : nat → bytes) (s : ChainProtectedSync) (data : bytes)
    (session : AteSession) (tm : TransactionMetadata) : st Metadata TransformErrorKind bytes :=
  underlay_all
    (imap (λ i t d, transformer_underlay (rnds i) t d session tm) (cs_transformers s)
     ++ imap (λ i p d, EventPlugin.data_as_underlay (rnds (length (cs_transformers s) + i)%nat)
                         p d session tm) (cs_plugins s)) data.

Fixpoint overlay_all (layers : list (bytes → result TransformErrorKind bytes)) (data : bytes)
    : result TransformErrorKind bytes :=
  match layers with
  | [] => Ok data
  | f :: layers => data ← f data; overlay_all layers data
  end.

Definition data_as_overlay (s : ChainProtectedSync) (meta : Metadata) (data : bytes)
    (session : AteSession) : result TransformErrorKind bytes :=
  overlay_all
    (((λ p d, EventPlugin.data_as_overlay p meta d session) <$> rev (cs_plugins s))
     ++ ((λ t d, transformer_overlay t meta d session) <$> rev (cs_transformers s))) data.
End ops.
End ChainProtectedSync.

(** ** How the votes are counted *)

Section theorems.
Context `{CryptoPrims} `{KemPrims} `{SnapFrames}.
Variable display : ValidationErrorKind → string.
Implicit Types (s : ChainProtectedSync) (h : EventHeader).

(** A vote against an event. *)
Definition denies (vote : result ValidationErrorKind ValidationResult) : bool :=
  match vote with
  | Ok Deny => true
  | Ok _ | Err AllAbstained | Err (ValidationMany []) => false
  | Err _ => true
  end.

Definition allows (vote : result ValidationErrorKind ValidationResult) : bool :=
  match vote with Ok Allow => true | _ => false end.

Lemma deny_many (errors : list ValidationErrorKind) (t : Tally) :
  let t' := foldl (λ t err, ChainProtectedSync.deny (display err) t) t errors in
  ty_is_deny t' = ty_is_deny t || negb (bool_decide (errors = []))
  ∧ ty_is_allow t' = ty_is_allow t.
Proof.
  cbn zeta. revert t. induction errors as [|e es IH]; intros t.
  - cbn. by rewrite orb_false_r.
  - cbn [foldl]. destruct (IH (ChainProtectedSync.deny (display e) t)) as [-> ->].
    by rewrite (bool_decide_eq_false_2 (e :: es = [])), orb_true_r by done.
Qed.

Lemma count_vote_tally (t : Tally) vote :
  ty_is_deny (ChainProtectedSync.count_vote display t vote) = ty_is_deny t || denies vote.2
  ∧ ty_is_allow (ChainProtectedSync.count_vote display t vote) = ty_is_allow t || allows vote.2.
Proof.
  destruct vote as [name [[| |]|e]]; cbn; rewrite ?orb_true_r, ?orb_false_r; try done.
  destruct e as [| | | |[|e es]| |]; cbn; rewrite ?orb_true_r, ?orb_false_r; try done.
  by destruct (deny_many es (ChainProtectedSync.deny (display e) t)) as [-> ->].
Qed.

Lemma count_votes_tally votes (t : Tally) :
  let t' := foldl (ChainProtectedSync.count_vote display) t votes in
  ty_is_deny t' = ty_is_deny t || existsb (λ v, denies v.2) votes
  ∧ ty_is_allow t' = ty_is_allow t || existsb (λ v, allows v.2) votes.
Proof.
  cbn zeta. revert t. induction votes as [|v vs IH]; intros t; cbn.
  { by rewrite !orb_false_r. }
  destruct (IH (ChainProtectedSync.count_vote display t v)) as [-> ->].
  destruct (count_vote_tally t v) as [-> ->]. by rewrite !orb_assoc.
Qed.

(** An event is valid when somebody allows it and nobody denies it. *)
Lemma validate_event_Ok s now h conv r :
  ChainProtectedSync.validate_event display s now h conv = Ok r ↔
  r = Allow
  ∧ existsb (λ v, denies v.2) (ChainProtectedSync.votes s now h conv) = false
  ∧ existsb (λ v, allows v.2) (ChainProtectedSync.votes s now h conv) = true.
Proof.
  unfold ChainProtectedSync.validate_event.
  destruct (count_votes_tally (ChainProtectedSync.votes s now h conv) no_votes) as [-> ->].
  cbn [no_votes ty_is_deny ty_is_allow orb].
  destruct (existsb _ _); [by split; [|intros (_ & ? & _)]|].
  destruct (existsb _ _); cbn; [|by split; [|intros (_ & _ & ?)]].
  split; [by intros [= <-]|by intros [-> _]].
Qed.

(** The plugins of a chain as [ChainBuilder::with_defaults] and [Chain::new_ext] set it up. *)
Definition default_chain s (ar : AntiReplayPlugin) (te : TimestampEnforcer)
    (t : TreeAuthorityPlugin) : Prop :=
  cs_validators s = [] ∧ cs_plugins s = [AntiReplay ar; Timestamps te; TreeAuthority t].

(** The time an event claims is not beyond the tolerance, as far as this node can tell. *)
Definition timely (te : TimestampEnforcer) (now : option Z) h : Prop :=
  match Metadata.get_timestamp (eh_meta h) with
  | None => Metadata.needs_signature (eh_meta h) = false
  | Some time =>
      TimeKeeper.has_converged (te_keeper te) = false
      ∨ ∃ current, TimeKeeper.current_timestamp_as_duration (te_keeper te) now = Ok current
          ∧ ms_duration time ≤ current + tk_tolerance (te_keeper te)
  end.

Lemma timestamp_vote te now h :
  let vote := TimestampEnforcer.validate te now h in
  allows vote = false ∧ (denies vote = false ↔ timely te now h).
Proof.
  cbn zeta. unfold TimestampEnforcer.validate, timely.
  destruct (Metadata.get_timestamp _) as [time|].
  2: { by destruct (Metadata.needs_signature _). }
  destruct (TimeKeeper.has_converged _).
  2: { split; [done|]. cbn. split; [by left|done]. }
  destruct (TimeKeeper.current_timestamp_as_duration _ _) as [cur|e]; cbn.
  - case_decide; cbn; (split; [done|]); split; try done.
    + intros [?|(c & [= <-] & ?)]; [done|lia].
    + intros _. right. exists cur. split; [done|lia].
  - split; [done|]. split; [done|]. intros [?|(c & ? & ?)]; done.
Qed.

Lemma tree_vote t h conv :
  let vote := TreeAuthorityPlugin.validate t h conv in
  denies vote = false ∧ allows vote = true ↔ vote = Ok Allow.
Proof.
  cbn zeta. split; [|by intros ->]. intros [_ Ha].
  by destruct (TreeAuthorityPlugin.validate t h conv) as [[]|].
Qed.

(** C30. What a chain with the default plugins admits: exactly the events it has not seen
    before, whose time is not beyond the tolerance, and that the tree of authorities
    allows. *)
Theorem default_chain_admits s ar te t now h conv (Hs : default_chain s ar te t) :
  ChainProtectedSync.validate_event display s now h conv = Ok Allow ↔
  raw_event_hash (eh_raw h) ∉ ar_seen ar ∧ timely te now h
  ∧ TreeAuthorityPlugin.validate t h conv = Ok Allow.
Proof.
  destruct Hs as [Hv Hp]. rewrite validate_event_Ok. unfold ChainProtectedSync.votes.
  rewrite Hv, Hp. cbn [fmap list_fmap app existsb snd EventPlugin.validate].
  destruct (timestamp_vote te now h) as [-> <-]. rewrite <-tree_vote.
  unfold AntiReplayPlugin.validate. rewrite !orb_false_r.
  case_decide; cbn [denies allows orb]; [split; [by intros (_ & ? & _)|by intros []]|].
  rewrite orb_false_iff. split; [by intros (_ & [? ?] & ?)|by intros (_ & ? & ? & ?)].
Qed.

(** *** Data *)

Lemma underlay_app (ls ks : list (bytes → st Metadata TransformErrorKind bytes)) data :
  ∀ meta, ChainProtectedSync.underlay_all (ls ++ ks) data meta
  = (ChainProtectedSync.underlay_all ls data ≫= ChainProtectedSync.underlay_all ks) meta.
Proof.
  revert data. induction ls as [|f ls IH]; intros data meta; [done|].
  cbn [app ChainProtectedSync.underlay_all]. unfold mbind, st_bind.
  destruct (f data meta) as [[d|e] meta']; [apply IH | done].
Qed.

Lemma overlay_app (ls ks : list (bytes → result TransformErrorKind bytes)) data :
  ChainProtectedSync.overlay_all (ls ++ ks) data
  = ChainProtectedSync.overlay_all ls data ≫= ChainProtectedSync.overlay_all ks.
Proof.
  revert data. induction ls as [|f ls IH]; intros data; [done|].
  cbn [app ChainProtectedSync.overlay_all]. destruct (f data) as [d|e]; [apply IH | done].
Qed.

(** Compressing any number of times, and decompressing as often. *)
Lemma underlay_snap (rnds : nat → bytes) (ts : list EventDataTransformer) session tm data meta :
  Forall (λ t, t = CompressorWithSnapTransformer) ts →
  ChainProtectedSync.underlay_all
    (imap (λ i t d, transformer_underlay (rnds i) t d session tm) ts) data meta
  = (Ok (Nat.iter (length ts) snap_encode data), meta).
Proof.
  intros Hts. revert rnds data. induction Hts as [|t ts -> Hts IH]; intros rnds data; [done|].
  cbn [imap ChainProtectedSync.underlay_all length].
  erewrite st_bind_Ok by done. rewrite Nat.iter_succ_r. apply (IH (rnds ∘ S)).
Qed.

Lemma overlay_snap (ts : list EventDataTransformer) meta session data :
  Forall (λ t, t = CompressorWithSnapTransformer) ts →
  ChainProtectedSync.overlay_all ((λ t d, transformer_overlay t meta d session) <$> ts)
    (Nat.iter (length ts) snap_encode data) = Ok data.
Proof.
  induction 1 as [|t ts -> Hts IH]; [done|].
  cbn [fmap list_fmap length Nat.iter ChainProtectedSync.overlay_all transformer_overlay].
  rewrite Nat.iter_succ, snap_round_trip. exact IH.
Qed.

(** All the layers: the event was linted as [meta], and is stored with [base] and what the
    tree of authorities added. *)
Lemma layers_read_back (rnds : nat → bytes) s s' ar ar' te te' t t' (meta base meta' : Metadata)
  (session reader : AteSession) (tm tm1 : TransactionMetadata) (code : string)
  (ms : list CoreMetadata) (data stored : bytes) (auth auth' : MetaAuthorization) :
  default_chain s ar te t → default_chain s' ar' te' t' →
  Forall (λ t, t = CompressorWithSnapTransformer) (cs_transformers s) →
  cs_transformers s' = cs_transformers s →
  Metadata.get_confidentiality base = None → Metadata.get_iv base = None →
  TreeAuthorityPlugin.lint_confidentiality t meta session tm code = Ok ms →
  ChainProtectedSync.data_as_underlay rnds s data session tm1
    {| meta_core := meta_core base ++ ms |} = (Ok stored, meta') →
  TreeAuthorityPlugin.compute_auth t meta tm AfterStore = Ok auth →
  (ms = [] → ma_read <$> TreeAuthorityPlugin.compute_auth t base tm1 AfterStore = Ok (ma_read auth)) →
  TreeAuthorityPlugin.compute_auth t' (forget_cache meta') TransactionMetadata_default AfterStore
  = Ok auth' →
  ma_read auth' = ma_read auth →
  (∀ hash d, ma_read auth = ReadSpecific hash d →
     TreeAuthorityPlugin.first_read_key reader hash d
     = TreeAuthorityPlugin.first_read_key session hash d) →
  ChainProtectedSync.data_as_overlay s' (forget_cache meta') stored reader = Ok data.
Proof.
  intros [_ Hp] [_ Hp'] Hsnap Hsame Hconf Hiv Hlint Hunder Hauth Hauth1 Hauth' Hread Hkeys.
  unfold ChainProtectedSync.data_as_underlay in Hunder. rewrite underlay_app, Hp in Hunder.
  erewrite st_bind_Ok in Hunder by by apply underlay_snap.
  cbn [imap EventPlugin.data_as_underlay ChainProtectedSync.underlay_all] in Hunder.
  erewrite !st_bind_Ok in Hunder by done.
  unfold mbind, st_bind, compose in Hunder. cbn [EventPlugin.data_as_underlay] in Hunder.
  destruct (TreeAuthorityPlugin.data_as_underlay _ t _ session tm1 _) as [[d|e] m] eqn:E; [|done].
  injection Hunder as -> ->.
  pose proof (underlay_overlay _ t t' _ _ _ session reader tm tm1 code ms _ _ _ _
                Hconf Hiv Hlint E Hauth Hauth1 Hauth' Hread Hkeys) as Hover.
  unfold ChainProtectedSync.data_as_overlay. rewrite overlay_app, Hp', Hsame.
  cbn [rev app fmap list_fmap EventPlugin.data_as_overlay ChainProtectedSync.overlay_all].
  rewrite Hover. cbn [mbind result_bind].
  rewrite <- (length_rev (cs_transformers s)). by apply overlay_snap, Forall_rev.
Qed.

(** Data reads back as it was written, through all the layers of a chain with the
    default plugins and any number of compressors.  Lint an event that carries no vector
    and no confidentiality yet, pass its data down through [data_as_underlay], and forget
    the cache, as storing the event does: a reader whose tree gives the stored event the
    same read option, and whose first key of the option's hash opens the same derived key
    as the writer's, gets from [data_as_overlay] exactly the bytes that were written. *)
Theorem data_reads_back (rnds : nat → bytes) s s' ar ar' te te' t t' (meta meta' : Metadata)
  (session reader : AteSession) (tm : TransactionMetadata) (code : string)
  (ms : list CoreMetadata) (data stored : bytes) (auth auth' : MetaAuthorization)
  (Hs : default_chain s ar te t) (Hs' : default_chain s' ar' te' t')
  (Hsnap : Forall (λ t, t = CompressorWithSnapTransformer) (cs_transformers s))
  (Hsame : cs_transformers s' = cs_transformers s)
  (Hconf : Metadata.get_confidentiality meta = None) (Hiv : Metadata.get_iv meta = None)
  (Hlint : TreeAuthorityPlugin.lint_confidentiality t meta session tm code = Ok ms)
  (Hunder : ChainProtectedSync.data_as_underlay rnds s data session tm
              {| meta_core := meta_core meta ++ ms |} = (Ok stored, meta'))
  (Hauth : TreeAuthorityPlugin.compute_auth t meta tm AfterStore = Ok auth)
  (Hauth' : TreeAuthorityPlugin.compute_auth t' (forget_cache meta')
              TransactionMetadata_default AfterStore = Ok auth')
  (Hread : ma_read auth' = ma_read auth)
  (Hkeys : ∀ hash d, ma_read auth = ReadSpecific hash d →
     TreeAuthorityPlugin.first_read_key reader hash d
     = TreeAuthorityPlugin.first_read_key session hash d) :
  ChainProtectedSync.data_as_overlay s' (forget_cache meta') stored reader = Ok data.
Proof.
  eapply (layers_read_back _ s s' _ _ _ _ t t' meta meta); try done. intros _. by rewrite Hauth.
Qed.
End theorems.

(** ** Concrete inputs *)

#[local] Existing Instance toy_prims.
#[local] Existing Instance toy_kem.

(** A frame of one byte. *)
Definition toy_unframe (bs : bytes) : option bytes :=
  match bs with _ :: bs => Some bs | [] => None end.

#[local] Program Instance toy_snap : SnapFrames := {
  snap_encode bs := xff :: bs;
  snap_decode := toy_unframe;
}.
Next Obligation. done. Qed.

Definition sample_enforcer : TimestampEnforcer :=
  TimestampEnforcer.new (TimeKeeper.new None 40000) 40000.

Definition sample_sync (transformers : list EventDataTransformer) : ChainProtectedSync :=
  {| cs_integrity := Distributed; cs_default_session := sample_session;
     cs_plugins := [AntiReplay AntiReplayPlugin.new; Timestamps sample_enforcer;
                    TreeAuthority TreeAuthorityPlugin.new];
     cs_indexers := []; cs_linters := []; cs_transformers := transformers;
     cs_validators := [] |}.

Lemma sample_sync_default transformers :
  default_chain (sample_sync transformers) AntiReplayPlugin.new sample_enforcer
    TreeAuthorityPlugin.new.
Proof. split; reflexivity. Qed.

(** A record written five seconds into the epoch. *)
Definition dated_event : EventHeader :=
  sample_header sample_hash [CoreData (PrimaryKey.new 5); CoreTimestamp (ChainTimestamp.from 5000)].

Lemma default_chain_admits_witness :
  ChainProtectedSync.validate_event (λ _, EmptyString) (sample_sync []) (Some 5000000000)
    dated_event None = Ok Allow.
Proof.
  apply (default_chain_admits (λ _, EmptyString) (sample_sync []) AntiReplayPlugin.new
           sample_enforcer TreeAuthorityPlugin.new (Some 5000000000) dated_event None
           (sample_sync_default [])).
  split; [|split].
  - apply not_elem_of_empty.
  - right. exists 5000000000. split; [reflexivity|]. vm_compute. discriminate.
  - vm_compute. reflexivity.
Defined.

Definition secret_lint : list CoreMetadata :=
  default [] (result_ok (TreeAuthorityPlugin.lint_confidentiality TreeAuthorityPlugin.new
    secret_meta reading_session TransactionMetadata_default "secret")).

Definition secret_stored : result TransformErrorKind bytes * Metadata :=
  ChainProtectedSync.data_as_underlay (λ _, [x09]) (sample_sync [CompressorWithSnapTransformer])
    [x61; x62] reading_session TransactionMetadata_default
    {| meta_core := meta_core secret_meta ++ secret_lint |}.

Lemma data_reads_back_witness :
  default [] (result_ok secret_stored.1) ≠ xff :: [x61; x62]
  ∧ ChainProtectedSync.data_as_overlay (sample_sync [CompressorWithSnapTransformer])
      (forget_cache secret_stored.2) (default [] (result_ok secret_stored.1)) reading_session
    = Ok [x61; x62].
Proof.
  split; [vm_compute; discriminate|].
  destruct (TreeAuthorityPlugin.compute_auth TreeAuthorityPlugin.new secret_meta
              TransactionMetadata_default AfterStore) as [auth|e] eqn:Ha;
    [|vm_compute in Ha; discriminate Ha].
  apply (data_reads_back (λ _, [x09]) _ _ _ _ _ _ _ _ secret_meta _ reading_session
           reading_session TransactionMetadata_default "secret" secret_lint [x61; x62] _ auth auth
           (sample_sync_default [CompressorWithSnapTransformer])
           (sample_sync_default [CompressorWithSnapTransformer])).
  - repeat constructor.
  - reflexivity.
  - reflexivity.
  - reflexivity.
  - vm_compute; reflexivity.
  - vm_compute; reflexivity.
  - exact Ha.
  - vm_compute; vm_compute in Ha; exact Ha.
  - reflexivity.
  - reflexivity.
Defined.
