(* ===== verification/Chain.v ===== *)
(** * The chain of trust

    lib/src/trust and lib/src/chain: the timeline of a chain, its history in the order of
    the events' timestamps and the index of its records; the chain over a redo log;
    [ChainProtectedAsync], which feeds it with events that its plugins validate; how a
    chain is opened from the events of its log, and how it is compacted while events go on
    arriving.  Everything here is proved for any log file that keeps [LogFileSpec]. *)

From S2P Require Import Prelude LogApi Crypto Codec Secure Meta Time Event Index LogFile MemDb RedoLog Signature Tree Compact Plugins.

(** ** The timeline *)

(** The multimap [history] is a list in the order of its iteration: by timestamp, and in
    the order of insertion under one timestamp. *)
Record ChainTimeline : Type := {
  ct_history : list (ChainTimestamp * EventHeaderRaw);
  ct_pointers : BinaryTreeIndexer;
  ct_compactors : list EventCompactor;
}.

(** [BTreeMultiMap::insert]. *)
Fixpoint history_insert {A : Type} (t : ChainTimestamp) (x : A) (l : list (ChainTimestamp * A))
    : list (ChainTimestamp * A) :=
  match l with
  | [] => [(t, x)]
  | (t', x') :: l' =>
      if ChainTimestamp.lt t t' then (t, x) :: l else (t', x') :: history_insert t x l'
  end.

Module ChainTimeline.
Definition new (compactors : list EventCompactor) : ChainTimeline :=
  {| ct_history := []; ct_pointers := BinaryTreeIndexer.default; ct_compactors := compactors |}.

Definition lookup_primary (tl : ChainTimeline) (key : PrimaryKey) : option EventLeaf :=
  BinaryTreeIndexer.lookup_primary (ct_pointers tl) key.

Definition lookup_parent (tl : ChainTimeline) (key : PrimaryKey) : option MetaParent :=
  BinaryTreeIndexer.lookup_parent (ct_pointers tl) key.

Definition lookup_secondary (tl : ChainTimeline) (key : MetaCollection)
    : option (list EventLeaf) := BinaryTreeIndexer.lookup_secondary (ct_pointers tl) key.

Definition lookup_secondary_raw (tl : ChainTimeline) (key : MetaCollection)
    : option (list PrimaryKey) := BinaryTreeIndexer.lookup_secondary_raw (ct_pointers tl) key.

Definition roots_raw (tl : ChainTimeline) : list PrimaryKey :=
  BinaryTreeIndexer.roots_raw (ct_pointers tl).

Definition start (tl : ChainTimeline) : ChainTimestamp :=
  match ct_history tl with a :: _ => a.1 | [] => ChainTimestamp.from 0 end.

Definition end_ (tl : ChainTimeline) : ChainTimestamp :=
  match last (ct_history tl) with Some a => a.1 | None => ChainTimestamp.from 0 end.

(** The timestamp an event is filed under. *)
Definition timestamp_of (tl : ChainTimeline) (header : EventHeader) : ChainTimestamp :=
  match Metadata.get_timestamp (eh_meta header) with Some a => a | None => end_ tl end.

Definition add_history (tl : ChainTimeline) (header : EventHeader) : ChainTimeline :=
  {| ct_history := if Metadata.include_in_history (eh_meta header)
                   then history_insert (timestamp_of tl header) (eh_raw header) (ct_history tl)
                   else ct_history tl;
     ct_pointers := BinaryTreeIndexer.feed (ct_pointers tl) header;
     ct_compactors := ct_compactors tl |}.
End ChainTimeline.

(** ** The chain over a log *)

(** [co_chain_size] is the metric of that name. *)
Record ChainOfTrust (L : Type) : Type := {
  co_key : string;
  co_timeline : ChainTimeline;
  co_redo : RedoLog L;
  co_chain_size : Z;
}.
Arguments co_key {L} c.
Arguments co_timeline {L} c.
Arguments co_redo {L} c.
Arguments co_chain_size {L} c.

Record LoadWeakResult : Type := {
  lw_lookup : LogLookup;
  lw_header : EventHeaderRaw;
  lw_data : EventWeakData;
  lw_leaf : EventLeaf;
}.

Module ChainOfTrust.
Section ops.
Context {W L : Type} `{CryptoPrims} `{MetaSerializer} `{LogFile W L}.

Definition with_redo (c : ChainOfTrust L) (r : RedoLog L) : ChainOfTrust L :=
  {| co_key := co_key c; co_timeline := co_timeline c; co_redo := r;
     co_chain_size := co_chain_size c |}.

Definition with_timeline (c : ChainOfTrust L) (tl : ChainTimeline) : ChainOfTrust L :=
  {| co_key := co_key c; co_timeline := tl; co_redo := co_redo c;
     co_chain_size := co_chain_size c |}.

Definition on_redo {E A} (f : st (W * RedoLog L) E A) : st (W * ChainOfTrust L) E A :=
  on_log co_redo with_redo f.

Definition load (leaf : EventLeaf) : st (W * ChainOfTrust L) LoadErrorKind LoadWeakResult :=
  data ← on_redo (RedoLog.load (leaf_record leaf));
  mret {| lw_lookup := ld_lookup data; lw_header := ld_header data; lw_data := ld_data data;
          lw_leaf := leaf |}.

Fixpoint load_many (leafs : list EventLeaf)
    : st (W * ChainOfTrust L) LoadErrorKind (list LoadWeakResult) :=
  match leafs with
  | [] => mret []
  | leaf :: leafs => d ← load leaf; rest ← load_many leafs; mret (d :: rest)
  end.

Definition prime (records : list (AteHash * option bytes)) (c : ChainOfTrust L) : ChainOfTrust L :=
  with_redo c (RedoLog.prime records (co_redo c)).

Definition lookup_primary (c : ChainOfTrust L) (key : PrimaryKey) : option EventLeaf :=
  ChainTimeline.lookup_primary (co_timeline c) key.

Definition flush : st (W * ChainOfTrust L) SerializationErrorKind unit := on_redo RedoLog.flush.

Definition destroy : st (W * ChainOfTrust L) SerializationErrorKind unit :=
  on_redo RedoLog.destroy.

Definition add_history (header : EventHeader) (c : ChainOfTrust L) : ChainOfTrust L :=
  {| co_key := co_key c; co_timeline := ChainTimeline.add_history (co_timeline c) header;
     co_redo := co_redo c;
     co_chain_size := wrap_u64 (co_chain_size c
                        + Z.of_nat (length (raw_meta_bytes (eh_raw header)))
                        + raw_data_size (eh_raw header)) |}.
End ops.
End ChainOfTrust.

(** ** Feeding a chain *)

(** [ChainProtectedAsync], without its listeners. *)
Record ChainProtectedAsync (L : Type) : Type := {
  ca_chain : ChainOfTrust L;
  ca_default_format : MessageFormat;
  ca_disable_new_roots : bool;
  ca_sync_tolerance : Z;
  ca_is_shutdown : bool;
  ca_integrity : TrustMode;
}.
Arguments ca_chain {L} c.
Arguments ca_default_format {L} c.
Arguments ca_disable_new_roots {L} c.
Arguments ca_sync_tolerance {L} c.
Arguments ca_is_shutdown {L} c.
Arguments ca_integrity {L} c.

(** [CommitErrorKind], the kinds feeding raises. *)
Inductive CommitErrorKind : Type :=
  | CommitValidation (e : ValidationErrorKind)
  | CommitSink (e : SinkErrorKind)
  | CommitSerialization (e : SerializationErrorKind).

Record ProcessError : Type := {
  pe_sink_errors : list SinkErrorKind;
  pe_validation_errors : list ValidationErrorKind;
}.

Definition ProcessError_default : ProcessError :=
  {| pe_sink_errors := []; pe_validation_errors := [] |}.

Definition has_errors (e : ProcessError) : bool :=
  negb (bool_decide (pe_sink_errors e = [])) || negb (bool_decide (pe_validation_errors e = [])).

(** What feeding shares: the parts behind the synchronous lock, and the conversation. *)
Definition SyncState : Type := ChainProtectedSync * option ConversationSession.

Module ChainProtectedAsync.
Section ops.
Context {W L : Type} `{CryptoPrims} `{KemPrims} `{MetaSerializer} `{LogFile W L}.
Variable display : ValidationErrorKind → string.

Definition with_chain (a : ChainProtectedAsync L) (c : ChainOfTrust L) : ChainProtectedAsync L :=
  {| ca_chain := c; ca_default_format := ca_default_format a;
     ca_disable_new_roots := ca_disable_new_roots a; ca_sync_tolerance := ca_sync_tolerance a;
     ca_is_shutdown := ca_is_shutdown a; ca_integrity := ca_integrity a |}.

Definition set_integrity_mode (mode : TrustMode) (a : ChainProtectedAsync L)
    : ChainProtectedAsync L :=
  {| ca_chain := ca_chain a; ca_default_format := ca_default_format a;
     ca_disable_new_roots := ca_disable_new_roots a; ca_sync_tolerance := ca_sync_tolerance a;
     ca_is_shutdown := ca_is_shutdown a; ca_integrity := mode |}.

Definition on_chain {E A} (f : st (W * ChainOfTrust L) E A) : st (W * ChainProtectedAsync L) E A :=
  on_log ca_chain with_chain f.

(** The indexers and plugins take an event in. *)
Definition feed_sync (header : EventHeader) : st SyncState SinkErrorKind unit :=
  st_mk (λ '(s, conv),
    let s := ChainProtectedSync.with_indexers s ((λ i, indexer_feed i header) <$> cs_indexers s) in
    let '(r, (ps, conv)) := ChainProtectedSync.feed_plugins header (cs_plugins s) conv in
    (r, (ChainProtectedSync.with_plugins s ps, conv))).

(** The first loop of [feed_async_internal]: the events that validate, with their
    headers, and the errors of the others.  The clock shows [now]. *)
Fixpoint validate_all (now : option Z) (evts : list EventWeakData)
    : st SyncState CommitErrorKind
        (list (EventWeakData * EventHeader) * list ValidationErrorKind) :=
  match evts with
  | [] => mret ([], [])
  | evt :: evts => st_mk (λ '(s, conv),
      match EventWeakData.as_header evt with
      | Err e => (Err (CommitSerialization e), (s, conv))
      | Ok header =>
          match ChainProtectedSync.validate_event display s now header conv with
          | Err err =>
              (rest ← validate_all now evts; mret (fst rest, err :: snd rest)) (s, conv)
          | Ok _ =>
              (_ ← st_map_err CommitSink (feed_sync header);
               rest ← validate_all now evts; mret ((evt, header) :: fst rest, snd rest)) (s, conv)
          end
      end)
  end.

(** The header as the timeline files it. *)
Definition filed (mode : TrustMode) (header : EventHeader) : EventHeader :=
  if TrustMode.is_centralized mode
  then {| eh_raw := eh_raw header;
          eh_meta := Metadata.strip_public_keys (Metadata.strip_signatures (eh_meta header)) |}
  else header.

(** The second loop. *)
Fixpoint store (validated : list (EventWeakData * EventHeader))
    : st (W * ChainProtectedAsync L) CommitErrorKind unit :=
  match validated with
  | [] => mret ()
  | (evt, header) :: validated => st_mk (λ '(w, a),
      let header := filed (ca_integrity a) header in
      if EventHeader.is_empty header then store validated (w, a)
      else
        (_ ← st_map_err CommitSerialization (on_chain (ChainOfTrust.on_redo (RedoLog.write evt)));
         _ ← st_mk (λ '(w, a),
               (Ok (), (w, with_chain a (ChainOfTrust.add_history header (ca_chain a)))));
         store validated) (w, a))
  end.

Definition raise (errors : list ValidationErrorKind) : result CommitErrorKind unit :=
  match errors with
  | [] => Ok ()
  | [err] => Err (CommitValidation err)
  | errors => Err (CommitValidation (ValidationMany errors))
  end.

Definition feed_async_internal (now : option Z) (evts : list EventWeakData)
    : st (W * ChainProtectedAsync L * SyncState) CommitErrorKind unit :=
  st_mk (λ '(w, a, s),
    let '(r, s) := validate_all now evts s in
    match r with
    | Err e => (Err e, (w, a, s))
    | Ok (validated, errors) =>
        let '(r, (w, a)) := store validated (w, a) in
        match r with
        | Err e => (Err e, (w, a, s))
        | Ok _ => (raise errors, (w, a, s))
        end
    end).

Definition feed_meta_data (now : option Z) (meta : Metadata)
    : st (W * ChainProtectedAsync L * SyncState) CommitErrorKind unit :=
  feed_async_internal now
    [{| ew_meta := meta; ew_data_bytes := BytesNone;
        ew_format := {| mf_meta := Json; mf_data := Json |} |}].

(** *** Loading *)

(** Every plugin is fed, whatever the others say. *)
Fixpoint feed_all_plugins (header : EventHeader) (ps : list EventPlugin)
    (conv : option ConversationSession)
    : list SinkErrorKind * (list EventPlugin * option ConversationSession) :=
  match ps with
  | [] => ([], ([], conv))
  | p :: ps =>
      let '(r, (p, conv)) := EventPlugin.feed header (p, conv) in
      let '(errs, (ps, conv)) := feed_all_plugins header ps conv in
      (match r with Err e => e :: errs | Ok _ => errs end, (p :: ps, conv))
  end.

(** One turn of the loop of [process]. *)
Definition process_one (now : option Z) (st0 : ProcessError * (ChainProtectedAsync L * SyncState))
    (header : EventHeader) : ProcessError * (ChainProtectedAsync L * SyncState) :=
  let '(ret, (a, (s, conv))) := st0 in
  let verrs := match ChainProtectedSync.validate_event display s now header conv with
               | Err err => [err]
               | Ok _ => []
               end in
  let s := ChainProtectedSync.with_indexers s ((λ i, indexer_feed i header) <$> cs_indexers s) in
  let '(serrs, (ps, conv)) := feed_all_plugins header (cs_plugins s) conv in
  ({| pe_sink_errors := pe_sink_errors ret ++ serrs;
      pe_validation_errors := pe_validation_errors ret ++ verrs |},
   (with_chain a (ChainOfTrust.add_history header (ca_chain a)),
    (ChainProtectedSync.with_plugins s ps, conv))).

Definition process (now : option Z) (headers : list EventHeader)
    : st (ChainProtectedAsync L * SyncState) ProcessError unit :=
  st_mk (λ s0,
    let '(ret, s1) := foldl (process_one now) (ProcessError_default, s0) headers in
    (if has_errors ret then Err ret else Ok (), s1)).

(** *** Ranges of the history *)

(** [lo] and [hi] decide the bounds. *)
Definition range (lo hi : ChainTimestamp → bool) (a : ChainProtectedAsync L)
    : list (ChainTimestamp * EventHeaderRaw) :=
  List.filter (λ e, lo e.1 && hi e.1) (ct_history (co_timeline (ca_chain a))).

Fixpoint dedup_times (l : list ChainTimestamp) : list ChainTimestamp :=
  match l with
  | [] => []
  | t :: l' => match l' with
               | t' :: _ => if decide (t = t') then dedup_times l' else t :: dedup_times l'
               | [] => [t]
               end
  end.

Definition range_keys (lo hi : ChainTimestamp → bool) (a : ChainProtectedAsync L)
    : list ChainTimestamp := dedup_times (range lo hi a).*1.

Definition range_values (lo hi : ChainTimestamp → bool) (a : ChainProtectedAsync L)
    : list EventHeaderRaw := (range lo hi a).*2.
End ops.
End ChainProtectedAsync.

(** ** Building and opening a chain *)

Inductive ConfiguredFor : Type :=
  | Raw | Barebone | SmallestSize | BestPerformance | BestCompatibility | Balanced | BestSecurity.

#[global] Instance ConfiguredFor_eq_dec : EqDecision ConfiguredFor.
Proof. solve_decision. Defined.

Module ConfiguredFor.
Definition ntp_tolerance (c : ConfiguredFor) : Z :=
  match c with BestPerformance => 60000 | BestSecurity => 30000 | _ => 40000 end.

Definition from_str (s : string) : option ConfiguredFor :=
  if decide (s = "raw"%string) then Some Raw
  else if decide (s = "barebone"%string) then Some Barebone
  else if decide (s = "best_performance"%string) then Some BestPerformance
  else if decide (s = "performance"%string) then Some BestPerformance
  else if decide (s = "speed"%string) then Some BestPerformance
  else if decide (s = "best_compatibility"%string) then Some BestCompatibility
  else if decide (s = "compatibility"%string) then Some BestCompatibility
  else if decide (s = "balanced"%string) then Some Balanced
  else if decide (s = "best_security"%string) then Some BestSecurity
  else if decide (s = "security"%string) then Some BestSecurity
  else None.

(** [ConfAte::configured_for]: the format of the log it selects. *)
Definition log_format (c : ConfiguredFor) : MessageFormat :=
  match c with
  | BestPerformance => {| mf_meta := Bincode; mf_data := Bincode |}
  | BestCompatibility => {| mf_meta := Json; mf_data := Json |}
  | _ => {| mf_meta := Bincode; mf_data := Json |}
  end.
End ConfiguredFor.

(** [ChainBuilder], the parts that make up the chain.  [cb_worker] is the NTP worker of the
    configuration. *)
Record ChainBuilder : Type := {
  cb_configured_for : ConfiguredFor;
  cb_worker : option NtpWorker;
  cb_log_format : MessageFormat;
  cb_sync_tolerance : Z;
  cb_validators : list EventValidator;
  cb_compactors : list EventCompactor;
  cb_linters : list EventMetadataLinter;
  cb_transformers : list EventDataTransformer;
  cb_indexers : list EventIndexer;
  cb_plugins : list EventPlugin;
  cb_tree : option TreeAuthorityPlugin;
  cb_session : AteSession;
  cb_load_integrity : TrustMode;
  cb_idle_integrity : TrustMode;
}.

Module ChainBuilder.
Section ops.
Context `{CryptoPrims} `{KemPrims}.

(** The builder with other parts. *)
Definition with_parts (b : ChainBuilder) (validators : list EventValidator)
    (compactors : list EventCompactor) (transformers : list EventDataTransformer)
    (plugins : list EventPlugin) (tree : option TreeAuthorityPlugin) : ChainBuilder :=
  {| cb_configured_for := cb_configured_for b; cb_worker := cb_worker b;
     cb_log_format := cb_log_format b; cb_sync_tolerance := cb_sync_tolerance b;
     cb_validators := validators; cb_compactors := compactors; cb_linters := cb_linters b;
     cb_transformers := transformers; cb_indexers := cb_indexers b; cb_plugins := plugins;
     cb_tree := tree; cb_session := cb_session b; cb_load_integrity := cb_load_integrity b;
     cb_idle_integrity := cb_idle_integrity b |}.

Definition without_defaults (b : ChainBuilder) : ChainBuilder :=
  {| cb_configured_for := cb_configured_for b; cb_worker := cb_worker b;
     cb_log_format := cb_log_format b; cb_sync_tolerance := cb_sync_tolerance b;
     cb_validators := []; cb_compactors := []; cb_linters := []; cb_transformers := [];
     cb_indexers := []; cb_plugins := []; cb_tree := None; cb_session := cb_session b;
     cb_load_integrity := cb_load_integrity b; cb_idle_integrity := cb_idle_integrity b |}.

Definition with_defaults (b : ChainBuilder) : ChainBuilder :=
  let b := without_defaults b in
  if decide (cb_configured_for b = Raw) then b
  else
    let compactors := [PublicKeys PublicKeyCompactor.default; Signatures SignatureCompactor.default;
                       RemoveDuplicates RemoveDuplicatesCompactor.default;
                       Tombstones TombstoneCompactor.default] in
    let plugins := [AntiReplay AntiReplayPlugin.new] in
    let transformers := if decide (cb_configured_for b = SmallestSize)
                        then [CompressorWithSnapTransformer] else [] in
    if decide (cb_configured_for b = Barebone)
    then with_parts b [RubberStampValidator] compactors transformers plugins None
    else
      let tolerance := ConfiguredFor.ntp_tolerance (cb_configured_for b) in
      with_parts b [] compactors transformers
        (plugins ++ [Timestamps (TimestampEnforcer.new
                       (TimeKeeper.new (cb_worker b) tolerance) tolerance)])
        (Some TreeAuthorityPlugin.new).

Definition new (configured_for : ConfiguredFor) (worker : option NtpWorker)
    (log_format : MessageFormat) (sync_tolerance : Z) (session : AteSession) : ChainBuilder :=
  with_defaults
    {| cb_configured_for := configured_for; cb_worker := worker;
       cb_log_format := log_format;
       cb_sync_tolerance := sync_tolerance; cb_validators := []; cb_compactors := [];
       cb_linters := []; cb_transformers := []; cb_indexers := []; cb_plugins := [];
       cb_tree := None; cb_session := session; cb_load_integrity := Centralized Client;
       cb_idle_integrity := Distributed |}.

Definition add_validator (v : EventValidator) (b : ChainBuilder) : ChainBuilder :=
  with_parts b (cb_validators b ++ [v]) (cb_compactors b) (cb_transformers b) (cb_plugins b)
    (cb_tree b).

Definition add_compactor (c : EventCompactor) (b : ChainBuilder) : ChainBuilder :=
  with_parts b (cb_validators b) (cb_compactors b ++ [c]) (cb_transformers b) (cb_plugins b)
    (cb_tree b).

Definition add_data_transformer (t : EventDataTransformer) (b : ChainBuilder) : ChainBuilder :=
  with_parts b (cb_validators b) (cb_compactors b) (cb_transformers b ++ [t]) (cb_plugins b)
    (cb_tree b).

Definition add_plugin (p : EventPlugin) (b : ChainBuilder) : ChainBuilder :=
  with_parts b (cb_validators b) (cb_compactors b) (cb_transformers b) (cb_plugins b ++ [p])
    (cb_tree b).

Definition add_root_public_key (key : PublicSignKey) (b : ChainBuilder) : ChainBuilder :=
  with_parts b (cb_validators b) (cb_compactors b) (cb_transformers b) (cb_plugins b)
    (TreeAuthorityPlugin.add_root_public_key key <$> cb_tree b).
End ops.
End ChainBuilder.

(** [ChainCreationErrorKind], the kinds opening raises. *)
Inductive ChainCreationErrorKind : Type :=
  | CreationSerialization (e : SerializationErrorKind)
  | CreationProcess (e : ProcessError).

Module Chain.
Section open.
Context {W L : Type} `{CryptoPrims} `{KemPrims} `{MetaSerializer} `{LogFile W L}.
Variable display : ValidationErrorKind → string.

Definition as_headers (raws : list EventHeaderRaw) : result SerializationErrorKind (list EventHeader) :=
  foldr (λ raw r, h ← EventHeaderRaw.as_header raw; hs ← r; Ok (h :: hs)) (Ok []) raws.

(** [Chain::new_ext], once the log is open: [redo_log] is the log, [loaded] the headers of
    the events that were read from it.  The workers it starts are not modelled, and the
    compaction it may run is [compact]. *)
Definition new_ext (now : option Z) (b : ChainBuilder) (key : string)
    (allow_process_errors : bool) (load_integrity idle_integrity : TrustMode)
    (redo_log : RedoLog L) (loaded : list EventHeaderRaw)
    : result ChainCreationErrorKind (ChainProtectedAsync L * ChainProtectedSync) :=
  headers ← map_err CreationSerialization (as_headers loaded);
  let chain := {| co_key := key; co_redo := redo_log;
                  co_timeline := ChainTimeline.new (cb_compactors b); co_chain_size := 0 |} in
  let inside_sync := ChainProtectedSync.set_integrity_mode load_integrity
    {| cs_integrity := load_integrity; cs_default_session := cb_session b;
       cs_plugins := cb_plugins b
                     ++ match cb_tree b with Some t => [TreeAuthority t] | None => [] end;
       cs_indexers := cb_indexers b; cs_linters := cb_linters b;
       cs_transformers := cb_transformers b; cs_validators := cb_validators b |} in
  let inside_async := {| ca_chain := chain; ca_default_format := cb_log_format b;
                         ca_disable_new_roots := false;
                         ca_sync_tolerance := cb_sync_tolerance b; ca_is_shutdown := false;
                         ca_integrity := load_integrity |} in
  let conversation :=
    {| cv_id := None; cv_weaken_validation := TrustMode.is_centralized load_integrity;
       cv_signatures := ∅ |} in
  let '(r, (inside_async, (inside_sync, _))) :=
    ChainProtectedAsync.process display now headers
      (inside_async, (inside_sync, Some conversation)) in
  match r with
  | Err e => if allow_process_errors
             then Ok (inside_async, ChainProtectedSync.set_integrity_mode idle_integrity inside_sync)
             else Err (CreationProcess e)
  | Ok _ => Ok (inside_async, ChainProtectedSync.set_integrity_mode idle_integrity inside_sync)
  end.
End open.
End Chain.

(** ** Compacting a chain *)

Record ChainHeader : Type := { ch_cut_off : ChainTimestamp }.

(** The JSON serialization of chain headers: what was serialized deserializes, for a cut-off
    of its width, and stays within what the header of a log can hold. *)
Class ChainHeaderJson : Type := {
  header_serialize : ChainHeader → bytes;
  header_deserialize : bytes → result SerializationErrorKind ChainHeader;
  header_round_trip : ∀ h, 0 ≤ time_since_epoch_ms (ch_cut_off h) ≤ u64_max →
    header_deserialize (header_serialize h) = Ok h;
  header_small : ∀ h, Z.of_nat (length (header_serialize h)) ≤ u32_max;
}.

(** [CompactErrorKind], the kinds compacting raises.  [CompactPanic] is the overflow of the
    last timestamp, [CompactDiverged] marks the bound on the loop of step 3. *)
Inductive CompactErrorKind : Type :=
  | CompactTime (e : TimeErrorKind)
  | CompactSerialization (e : SerializationErrorKind)
  | CompactLoad (e : LoadErrorKind)
  | CompactPanic
  | CompactDiverged.

Module Compaction.
Section ops.
Context {W L : Type} `{CryptoPrims} `{KemPrims} `{MetaSerializer} `{LogFile W L}.
Context `{ChainHeaderJson}.
Variable display : ValidationErrorKind → string.

Definition read_chain_header (r : RedoLog L) : result SerializationErrorKind ChainHeader :=
  match RedoLog.header u32_max r with
  | [] => Ok {| ch_cut_off := ChainTimestamp.from 0 |}
  | bs => header_deserialize bs
  end.

Definition tmax (a b : ChainTimestamp) : ChainTimestamp := if ChainTimestamp.lt b a then a else b.
Definition tmin (a b : ChainTimestamp) : ChainTimestamp := if ChainTimestamp.lt b a then b else a.

(** The cut-off, under a read lock.  [ca_sync_tolerance] is in milliseconds. *)
Definition compute_cut_off (keeper : TimeKeeper) (now : option Z) (a : ChainProtectedAsync L)
    : result CompactErrorKind ChainTimestamp :=
  header ← map_err CompactSerialization (read_chain_header (co_redo (ca_chain a)));
  let min_cut_off := ch_cut_off header in
  current ← map_err CompactTime (TimeKeeper.current_timestamp keeper now);
  let max_cut_off :=
    ChainTimestamp.from (wrap_u64 (time_since_epoch_ms current - ca_sync_tolerance a)) in
  let end0 := ChainTimeline.end_ (co_timeline (ca_chain a)) in
  let end1 := if ChainTimestamp.lt (ChainTimestamp.from 0) end0
              then ChainTimestamp.inc end0 else Some end0 in
  match end1 with
  | Some e => Ok (tmax min_cut_off (tmin max_cut_off e))
  | None => Err CompactPanic
  end.

Definition on_redo {E A} (f : st (W * RedoLog L) E A) : st (W * ChainProtectedAsync L) E A :=
  ChainProtectedAsync.on_chain (ChainOfTrust.on_redo f).

(** The start of the flip, under a write lock. *)
Definition begin (cut_off : ChainTimestamp)
    : st (W * ChainProtectedAsync L) CompactErrorKind (FlippedLogFile L) :=
  flip ← st_map_err CompactSerialization
           (on_redo (RedoLog.begin_flip (header_serialize {| ch_cut_off := cut_off |})));
  _ ← st_map_err CompactSerialization (on_redo RedoLog.flush);
  mret flip.

(** Step 0: the headers of the history that decode. *)
Definition headers_of (tl : ChainTimeline) : list EventHeader :=
  omap (λ e, result_ok (EventHeaderRaw.as_header e.2)) (ct_history tl).

(** Step 5: the kept events that validate, one after the other, by plugins that start
    anew. *)
Definition revalidate_one (now : option Z)
    (acc : list EventHeader * SyncState) (header : EventHeader)
    : list EventHeader * SyncState :=
  let '(ok, (s, conv)) := acc in
  match ChainProtectedSync.validate_event display s now header conv with
  | Ok _ =>
      let '(_, (ps, conv)) :=
        ChainProtectedAsync.feed_all_plugins header (cs_plugins s) conv in
      (ok ++ [header], (ChainProtectedSync.with_plugins s ps, conv))
  | Err _ => (ok, (s, conv))
  end.

(** [AteSessionUser::default]. *)
Definition nobody : AteSession :=
  {| ss_identity := "nobody@nowhere.com"; ss_write_keys := []; ss_read_keys := [];
     ss_private_read_keys := [] |}.

Definition fake_sync (s : ChainProtectedSync) : ChainProtectedSync :=
  {| cs_integrity := cs_integrity s; cs_default_session := nobody;
     cs_plugins := EventPlugin.reset <$> cs_plugins s; cs_indexers := []; cs_linters := [];
     cs_transformers := []; cs_validators := cs_validators s |}.

Definition weak_conversation : ConversationSession :=
  {| cv_id := None; cv_weaken_validation := true; cv_signatures := ∅ |}.

Definition revalidate (now : option Z) (s : ChainProtectedSync) (headers : list EventHeader)
    : list EventHeader :=
  (foldl (revalidate_one now) ([], (fake_sync s, Some weak_conversation)) headers).1.

(** Step 6: the events that are kept are copied to the new log and filed in the new
    timeline. *)
Fixpoint copy_all (headers : list EventHeader)
    : st (W * (ChainProtectedAsync L * (FlippedLogFile L * ChainTimeline))) LoadErrorKind unit :=
  match headers with
  | [] => mret ()
  | header :: headers => st_mk (λ '(w, (a, (flip, tl))),
      let flip := {| fl_log_file := fl_log_file flip;
                     fl_event_summary := fl_event_summary flip ++ [eh_raw header] |} in
      let c := ca_chain a in
      let '(r, (w, (redo, flip))) :=
        FlippedLogFile.copy_event (raw_event_hash (eh_raw header)) (w, (co_redo c, flip)) in
      let a := ChainProtectedAsync.with_chain a (ChainOfTrust.with_redo c redo) in
      match r with
      | Err e => (Err e, (w, (a, (flip, tl))))
      | Ok _ => copy_all headers (w, (a, (flip, ChainTimeline.add_history tl header)))
      end)
  end.

(** The events a compaction keeps, and the compactors after the vote; [None] when the turns
    of step 3 run out. *)
Definition choose (now : option Z) (cut_off : ChainTimestamp) (a : ChainProtectedAsync L)
    (s : ChainProtectedSync) : option (list EventHeader * list EventCompactor) :=
  let tl := co_timeline (ca_chain a) in
  '(l, cs) ← EventCompactor.settled (headers_of tl) (ct_compactors tl) cut_off;
  Some (revalidate now s (kept l), cs).

(** The middle of [compact_ext], under a read lock that keeps writers out. *)
Definition build (now : option Z) (cut_off : ChainTimestamp) (flip : FlippedLogFile L)
    (s : ChainProtectedSync)
    : st (W * ChainProtectedAsync L) CompactErrorKind (FlippedLogFile L * ChainTimeline) :=
  st_mk (λ '(w, a),
    match choose now cut_off a s with
    | None => (Err CompactDiverged, (w, a))
    | Some (headers, cs) =>
        let '(r, (w, (a, (flip, tl)))) :=
          copy_all headers (w, (a, (flip, ChainTimeline.new cs))) in
        (match r with Err e => Err (CompactLoad e) | Ok _ => Ok (flip, tl) end, (w, a))
    end).

(** The plugins are rebuilt one after the other; the conversation goes along. *)
Fixpoint rebuild_plugins (headers : list EventHeader) (ps : list EventPlugin)
    (conv : option ConversationSession) : list EventPlugin :=
  match ps with
  | [] => []
  | p :: ps => let '(p, conv) := EventPlugin.rebuild headers (p, conv) in
               p :: rebuild_plugins headers ps conv
  end.

(** The end of [compact_ext], under a write lock. *)
Definition finish (flip : FlippedLogFile L) (tl : ChainTimeline)
    : st (W * ChainProtectedAsync L * ChainProtectedSync) CompactErrorKind unit :=
  st_mk (λ '(w, a, s),
    let c := ca_chain a in
    let '(r, (w, redo, tl)) :=
      RedoLog.finish_flip flip (λ _ h tl, ChainTimeline.add_history tl h) (w, co_redo c, tl) in
    let c := ChainOfTrust.with_redo c redo in
    let a := ChainProtectedAsync.with_chain a c in
    match r with
    | Err e => (Err (CompactSerialization e), (w, a, s))
    | Ok new_events =>
        match Chain.as_headers new_events with
        | Err e => (Err (CompactSerialization e), (w, a, s))
        | Ok headers =>
            let a := ChainProtectedAsync.with_chain a (ChainOfTrust.with_timeline c tl) in
            let s := ChainProtectedSync.with_plugins s
                       (rebuild_plugins headers (cs_plugins s) (Some ConversationSession.default)) in
            let '(r, (w, a)) := ChainProtectedAsync.on_chain ChainOfTrust.flush (w, a) in
            (map_err CompactSerialization r, (w, a, s))
        end
    end).

(** [compact_ext].  Each of its phases runs under a lock, and between them other tasks may
    feed the chain: [early] are the batches that arrive between the cut-off and the flip, [before]
    those that arrive before the events are chosen, [after] those before the flip is finished.  [clock] are the readings of the
    clock. *)
Definition feed_batches (clock : nat → option Z) (batches : list (list EventWeakData))
    (st0 : W * ChainProtectedAsync L * SyncState) : W * ChainProtectedAsync L * SyncState :=
  foldl (λ st0 batch,
    (ChainProtectedAsync.feed_async_internal display (clock 1%nat) batch st0).2) st0 batches.

Definition compact_ext (keeper : TimeKeeper) (clock : nat → option Z)
    (early before after : list (list EventWeakData))
    : st (W * ChainProtectedAsync L * SyncState) CompactErrorKind unit :=
  st_mk (λ '(w, a, s),
    match compute_cut_off keeper (clock 0%nat) a with
    | Err e => (Err e, (w, a, s))
    | Ok cut_off =>
        let '(w, a, s) := feed_batches clock early (w, a, s) in
        let '(r, (w, a)) := begin cut_off (w, a) in
        match r with
        | Err e => (Err e, (w, a, s))
        | Ok flip =>
            let '(w, a, s) := feed_batches clock before (w, a, s) in
            let '(r, (w, a)) := build (clock 2%nat) cut_off flip s.1 (w, a) in
            match r with
            | Err e => (Err e, (w, a, s))
            | Ok (flip, tl) =>
                let '(w, a, s) := feed_batches clock after (w, a, s) in
                let '(r, (w, a, sy)) := finish flip tl (w, a, s.1) in
                (r, (w, a, (sy, s.2)))
            end
        end
    end).
End ops.
End Compaction.
