(* ===== verification/ChainSpec.v ===== *)
(** * What a chain promises

    The theorems on lib/src/chain and lib/src/trust: feeding a chain keeps its log and its
    index in step, so that looking a record up and loading it gives the event that last
    wrote it; and opening the log again gives the same chain.  Compaction is in
    CompactSpec.v. *)

From S2P Require Import Prelude LogApi Crypto Codec Secure Meta Time Event Index Signature Tree Compact Plugins LogFile MemDb RedoLog Chain.

(** ** What the index reads of an event *)

(** Signatures and public keys, which a centralized chain strips, and the cache of the
    confidentiality, which is not serialized, make no difference to the timeline. *)
Definition is_proof (c : CoreMetadata) : bool :=
  match c with CoreSignature _ | CorePublicKey _ => true | _ => false end.

Definition essence (m : Metadata) : list CoreMetadata :=
  List.filter (λ c, negb (is_proof c)) (meta_core (forget_cache m)).

Lemma find_map_essence {B} (f : CoreMetadata → option B) m :
  (∀ c, f (forget_cache_core c) = f c) → (∀ c, is_proof c = true → f c = None) →
  find_map f (essence m) = find_map f (meta_core m).
Proof.
  intros Hf Hp. rewrite <- (find_map_forget_cache f m Hf). unfold essence.
  induction (meta_core (forget_cache m)) as [|c core IH]; [done|]. cbn.
  destruct (is_proof c) eqn:Hc; cbn; [by rewrite (Hp c Hc)|]. by rewrite IH.
Qed.

Lemma existsb_essence (f : CoreMetadata → bool) m :
  (∀ c, f (forget_cache_core c) = f c) → (∀ c, is_proof c = true → f c = false) →
  existsb f (essence m) = existsb f (meta_core m).
Proof.
  intros Hf Hp. unfold essence. destruct m as [core]. cbn.
  induction core as [|c core IH]; [done|]. cbn. rewrite <- IH, <- Hf.
  destruct (is_proof (forget_cache_core c)) eqn:Hc; cbn; [by rewrite (Hp _ Hc)|done].
Qed.

(** Two headers of the same event. *)
Definition same_event (h h' : EventHeader) : Prop :=
  eh_raw h = eh_raw h' ∧ essence (eh_meta h) = essence (eh_meta h').

Lemma same_find_map {B} (f : CoreMetadata → option B) h h' : same_event h h' →
  (∀ c, f (forget_cache_core c) = f c) → (∀ c, is_proof c = true → f c = None) →
  find_map f (meta_core (eh_meta h)) = find_map f (meta_core (eh_meta h')).
Proof. intros [_ He] ? ?. rewrite <- !find_map_essence by done. by rewrite He. Qed.

Ltac same_query :=
  intros Hsame; apply (same_find_map _ _ _ Hsame); intros []; done.

Lemma same_tombstone h h' : same_event h h' →
  Metadata.get_tombstone (eh_meta h) = Metadata.get_tombstone (eh_meta h').
Proof. same_query. Qed.

Lemma same_data_key h h' : same_event h h' →
  Metadata.get_data_key (eh_meta h) = Metadata.get_data_key (eh_meta h').
Proof. same_query. Qed.

Lemma same_timestamp h h' : same_event h h' →
  Metadata.get_timestamp (eh_meta h) = Metadata.get_timestamp (eh_meta h').
Proof. same_query. Qed.

Lemma same_upload h h' : same_event h h' →
  Metadata.get_delayed_upload (eh_meta h) = Metadata.get_delayed_upload (eh_meta h').
Proof. same_query. Qed.

Lemma same_in_history h h' : same_event h h' →
  Metadata.include_in_history (eh_meta h) = Metadata.include_in_history (eh_meta h').
Proof. intros Hs. unfold Metadata.include_in_history. by rewrite (same_upload h h'). Qed.

Lemma same_removes k h h' : same_event h h' → removes_key k h = removes_key k h'.
Proof. intros Hs. unfold removes_key. by rewrite (same_tombstone h h'). Qed.

Lemma same_writes k h h' : same_event h h' → writes_key k h = writes_key k h'.
Proof.
  intros Hs. unfold writes_key. rewrite (same_tombstone h h' Hs), (proj1 Hs).
  destruct (Metadata.get_tombstone _); [done|]. destruct (raw_data_hash _); [|done].
  rewrite <- !existsb_essence by by intros []. by rewrite (proj2 Hs).
Qed.

Lemma same_touches k h h' : same_event h h' → touches k h = touches k h'.
Proof. intros Hs. unfold touches. by rewrite (same_removes k h h'), (same_writes k h h'). Qed.

Lemma essence_filter (p : CoreMetadata → bool) m :
  (∀ c, p (forget_cache_core c) = p c) → (∀ c, p c = false → is_proof c = true) →
  essence {| meta_core := List.filter p (meta_core m) |} = essence m.
Proof.
  intros Hp Hq. unfold essence. destruct m as [core]. cbn.
  induction core as [|c core IH]; [done|]. cbn. destruct (p c) eqn:Hc; cbn.
  - destruct (is_proof _); cbn; by rewrite IH.
  - rewrite <- Hp in Hc. by rewrite (Hq _ Hc).
Qed.

Lemma filed_same mode h : same_event (ChainProtectedAsync.filed mode h) h.
Proof.
  unfold ChainProtectedAsync.filed. destruct (TrustMode.is_centralized mode); [|done].
  split; [done|]. cbn [eh_meta]. unfold Metadata.strip_public_keys, Metadata.strip_signatures.
  rewrite !essence_filter; try done; by intros [].
Qed.

(** ** The abstract chain: a list of events *)

Section abstract.
Context `{CryptoPrims} `{MetaSerializer}.
Implicit Types (e : EventWeakData) (h : EventHeader) (k : PrimaryKey).

Definition removes_record k e : bool :=
  bool_decide (Metadata.get_tombstone (ew_meta e) = Some k).

Definition writes_record k e : bool :=
  match Metadata.get_tombstone (ew_meta e) with
  | Some _ => false
  | None => MessageBytes.is_some (ew_data_bytes e)
            && existsb (λ c, match c with CoreData k' => bool_decide (k' = k) | _ => false end)
                 (meta_core (ew_meta e))
  end.

Definition touches_record k e : bool := removes_record k e || writes_record k e.

(** The event a record has its value from: the last that wrote it, unless it was removed
    since. *)
Definition current k (stored : list EventWeakData) : option EventWeakData :=
  match last (List.filter (touches_record k) stored) with
  | Some e => if removes_record k e then None else Some e
  | None => None
  end.

(** A header the timeline may have filed for an event. *)
Definition header_of e h : Prop :=
  ∃ h0, EventWeakData.as_header e = Ok h0 ∧ same_event h h0.

Lemma as_header_Ok e h : EventWeakData.as_header e = Ok h →
  EventWeakData.as_header_raw e = Ok (eh_raw h) ∧ eh_meta h = ew_meta e.
Proof. unfold EventWeakData.as_header. intros (raw & ? & [= <-])%bind_Ok_inv. done. Qed.

Lemma header_touches k e h : header_of e h →
  removes_key k h = removes_record k e ∧ writes_key k h = writes_record k e
  ∧ touches k h = touches_record k e.
Proof.
  intros (h0 & [Hr Hm]%as_header_Ok & Hs).
  assert (removes_key k h = removes_record k e) as Hrem.
  { rewrite (same_removes k h h0 Hs). unfold removes_key, removes_record. by rewrite Hm. }
  assert (writes_key k h = writes_record k e) as Hwr.
  { rewrite (same_writes k h h0 Hs). unfold writes_key, writes_record.
    apply as_header_raw_inv in Hr as (_ & _ & -> & _). rewrite Hm.
    destruct (Metadata.get_tombstone _); [done|]. unfold EventWeakData.data_hash.
    by destruct (ew_data_bytes e). }
  split; [done|]. split; [done|]. unfold touches, touches_record. by rewrite Hrem, Hwr.
Qed.

Lemma header_hash e h : header_of e h → hash_of e = Some (EventHeader.hash h).
Proof.
  intros (h0 & [Hr _]%as_header_Ok & [He _]). unfold hash_of, EventHeader.hash.
  by rewrite Hr, He.
Qed.

Lemma header_of_filed e h mode : EventWeakData.as_header e = Ok h →
  header_of e (ChainProtectedAsync.filed mode h).
Proof. intros Hh. exists h. split; [done|]. apply filed_same. Qed.

(** The header decoded from the log. *)
Lemma header_of_decoded e raw : EventWeakData.as_header_raw e = Ok raw →
  ∃ h, EventHeaderRaw.as_header raw = Ok h ∧ header_of e h ∧ eh_raw h = raw.
Proof.
  intros Hr. pose proof Hr as (Hs & _ & _ & _ & Hf & _)%as_header_raw_inv.
  exists {| eh_raw := raw; eh_meta := forget_cache (ew_meta e) |}. split; [|split; [|done]].
  - unfold EventHeaderRaw.as_header. rewrite Hf. by rewrite (meta_round_trip _ _ _ Hs).
  - exists {| eh_raw := raw; eh_meta := ew_meta e |}. split.
    + unfold EventWeakData.as_header. by rewrite Hr.
    + split; [done|]. cbn [eh_meta]. unfold essence. by rewrite forget_cache_idem.
Qed.

(** What the index of the headers of a list of events finds. *)
Lemma index_current k stored hs : Forall2 header_of stored hs →
  match current k stored with
  | Some e => ∃ leaf, BinaryTreeIndexer.lookup_primary (index_of hs) k = Some leaf
                      ∧ hash_of e = Some (leaf_record leaf)
  | None => BinaryTreeIndexer.lookup_primary (index_of hs) k = None
  end.
Proof.
  intros Hall. pose proof (primary_last hs k) as Hp. unfold current, BinaryTreeIndexer.lookup_primary.
  pose proof (Forall2_last _ _ _ (Forall2_filter _ (touches_record k) (touches k) _ _
    ltac:(intros e h He; symmetry; by apply header_touches) Hall)) as Hl.
  destruct (last (List.filter (touches_record k) stored)) as [e|],
    (last (List.filter (touches k) hs)) as [h|]; try done.
  - destruct (header_touches k e h Hl) as (Hr & _ & _). rewrite Hr in Hp.
    destruct (removes_record k e); destruct (ix_primary (index_of hs) !! k) as [leaf|]; try done.
    exists leaf. split; [done|]. cbn in Hp. rewrite (header_hash e h Hl). congruence.
  - by destruct (ix_primary (index_of hs) !! k).
Qed.
End abstract.

(** ** The chain and its log *)

Section chain.
Context {W L : Type} `{CryptoPrims} `{KemPrims} `{MetaSerializer}.
Context `{!LogFile W L} `{!LogFileSpec W L}.
Variable display : ValidationErrorKind → string.
(** The events in play, by hash: no two of them collide. *)
Variable U : AteHash → option EventWeakData.
Implicit Types (e : EventWeakData) (h : EventHeader) (k : PrimaryKey) (a : ChainProtectedAsync L)
  (w : W) (stored : list EventWeakData) (s : SyncState).

Definition redo_of a : RedoLog L := co_redo (ca_chain a).
Definition log_of a : L := rl_log_file (redo_of a).
Definition timeline_of a : ChainTimeline := co_timeline (ca_chain a).

(** The log has the event, under its hash. *)
Definition in_log w (l : L) e : Prop :=
  ∃ hash, hash_of e = Some hash ∧ contents w l hash = Some (forget_event e).

(** The chain holds the events [stored]: they are in its log, and its timeline was built
    from their headers. *)
Record chain_state stored w a : Prop := {
  st_log : lf_inv w (log_of a);
  st_agrees : agrees U w (log_of a);
  st_in_play : Forall (in_play U) stored;
  st_stored : Forall (in_log w (log_of a)) stored;
  st_timeline : ∃ cs hs, timeline_of a = foldl ChainTimeline.add_history (ChainTimeline.new cs) hs
                         ∧ Forall2 header_of stored hs;
}.

Lemma timeline_pointers hs tl :
  ct_pointers (foldl ChainTimeline.add_history tl hs)
  = foldl BinaryTreeIndexer.feed (ct_pointers tl) hs.
Proof. revert tl. induction hs as [|h hs IH]; intros tl; [done|]. cbn. by rewrite IH. Qed.

Lemma state_current stored w a k : chain_state stored w a →
  match current k stored with
  | Some e => ∃ leaf, ChainOfTrust.lookup_primary (ca_chain a) k = Some leaf
                      ∧ hash_of e = Some (leaf_record leaf)
  | None => ChainOfTrust.lookup_primary (ca_chain a) k = None
  end.
Proof.
  intros [_ _ _ _ (cs & hs & Htl & Hhs)]. pose proof (index_current k _ _ Hhs) as Hc.
  unfold ChainOfTrust.lookup_primary, ChainTimeline.lookup_primary. fold (timeline_of a).
  rewrite Htl, timeline_pointers. exact Hc.
Qed.

Lemma current_elem k stored e : current k stored = Some e → e ∈ stored.
Proof.
  unfold current. destruct (last _) as [e'|] eqn:El; [|done].
  apply last_filter_Some in El as (l1 & l2 & -> & _ & _).
  destruct (removes_record k e'); [done|]. intros [= <-]. set_solver.
Qed.

(** *** Writing *)

(** The writes of a batch. *)
Fixpoint write_all (es : list EventWeakData) : st (W * RedoLog L) SerializationErrorKind unit :=
  match es with
  | [] => mret ()
  | e :: es => _ ← RedoLog.write e; write_all es
  end.

Definition brings (es : list EventWeakData) (hash : AteHash) : Prop := hash ∈ omap hash_of es.

#[local] Instance brings_dec es hash : Decision (brings es hash).
Proof. unfold brings. apply _. Defined.

Lemma brings_cons e es hash x : hash_of e = Some hash → brings (e :: es) x ↔ x = hash ∨ brings es x.
Proof. intros Hh. unfold brings. cbn. rewrite Hh. apply elem_of_cons. Qed.

Lemma redo_write_ok w (r : RedoLog L) e : lf_inv w (rl_log_file r) → agrees U w (rl_log_file r) → in_play U e →
  ∃ lk w' r' hash, RedoLog.write e (w, r) = (Ok lk, (w', r')) ∧ hash_of e = Some hash
    ∧ lf_inv w' (rl_log_file r') ∧ agrees U w' (rl_log_file r')
    ∧ rl_flip r' = (λ d, d ++ [e]) <$> rl_flip r ∧ rl_log_path r' = rl_log_path r
    ∧ ∀ x, contents w' (rl_log_file r') x
            = if decide (x = hash) then U hash else contents w (rl_log_file r) x.
Proof.
  intros Hinv Hag He.
  destruct (write_in_play U w (rl_log_file r) e Hinv He Hag)
    as (hash & lk & w' & l' & Hh & E & Hinv' & _ & Hag' & Hc).
  unfold RedoLog.write, st_mk, RedoLog.on_log_file, on_log.
  destruct (rl_flip r) as [d|] eqn:Hf; cbn; rewrite E; eexists lk, w', _, hash;
    (split; [reflexivity|]); cbn; rewrite ?Hf; done.
Qed.

Lemma write_all_ok es : ∀ w (r : RedoLog L),
  lf_inv w (rl_log_file r) → agrees U w (rl_log_file r) → Forall (in_play U) es →
  ∃ w' r', write_all es (w, r) = (Ok (), (w', r'))
    ∧ lf_inv w' (rl_log_file r') ∧ agrees U w' (rl_log_file r')
    ∧ rl_flip r' = (λ d, d ++ es) <$> rl_flip r ∧ rl_log_path r' = rl_log_path r
    ∧ ∀ hash, contents w' (rl_log_file r') hash
              = if decide (brings es hash) then U hash else contents w (rl_log_file r) hash.
Proof.
  induction es as [|e es IH]; intros w r Hinv Hag Hes.
  - exists w, r. split; [done|]. do 2 (split; [done|]). split.
    { destruct (rl_flip r); cbn; by rewrite ?app_nil_r. }
    split; [done|]. intros hash. rewrite decide_False; [done|]. apply not_elem_of_nil.
  - inversion Hes as [|? ? He Hrest]; subst.
    destruct (redo_write_ok w r e Hinv Hag He)
      as (lk & w1 & r1 & hash & E & Hh & Hinv1 & Hag1 & Hf1 & Hp1 & Hc1).
    destruct (IH w1 r1 Hinv1 Hag1 Hrest) as (w2 & r2 & E2 & Hinv2 & Hag2 & Hf2 & Hp2 & Hc2).
    exists w2, r2. cbn [write_all]. split; [by rewrite (st_bind_Ok _ _ _ _ _ E)|].
    do 2 (split; [done|]). split.
    { rewrite Hf2, Hf1. destruct (rl_flip r); cbn; [|done]. by rewrite <- app_assoc. }
    split; [congruence|]. intros x. rewrite Hc2, Hc1.
    pose proof (brings_cons e es hash x Hh) as Hb.
    destruct (decide (brings es x)), (decide (x = hash)), (decide (brings (e :: es) x));
      naive_solver.
Qed.

(** The events of a batch that are stored, and the headers that are filed for them. *)
Definition worth_storing (mode : TrustMode) (v : EventWeakData * EventHeader) : bool :=
  negb (EventHeader.is_empty (ChainProtectedAsync.filed mode v.2)).

Definition stored_of (mode : TrustMode) (v : list (EventWeakData * EventHeader))
    : list EventWeakData := (List.filter (worth_storing mode) v).*1.

Definition filed_of (mode : TrustMode) (v : list (EventWeakData * EventHeader))
    : list EventHeader := ChainProtectedAsync.filed mode <$> (List.filter (worth_storing mode) v).*2.

Definition file_all (hs : list EventHeader) (c : ChainOfTrust L) : ChainOfTrust L :=
  foldl (λ c h, ChainOfTrust.add_history h c) c hs.

Lemma file_all_redo hs c : co_redo (file_all hs c) = co_redo c.
Proof. revert c. induction hs as [|h hs IH]; intros c; [done|]. exact (IH _). Qed.

Lemma file_all_timeline hs c :
  co_timeline (file_all hs c) = foldl ChainTimeline.add_history (co_timeline c) hs.
Proof. revert c. induction hs as [|h hs IH]; intros c; [done|]. exact (IH _). Qed.

(** The second loop of a feed is its writes, with the timeline kept up. *)
Lemma store_writes v : ∀ w a w' r',
  write_all (stored_of (ca_integrity a) v) (w, redo_of a) = (Ok (), (w', r')) →
  ChainProtectedAsync.store v (w, a)
  = (Ok (), (w', ChainProtectedAsync.with_chain a
                   (file_all (filed_of (ca_integrity a) v)
                      (ChainOfTrust.with_redo (ca_chain a) r')))).
Proof.
  induction v as [|[e hd] v IH]; intros w a w' r'.
  - cbn. intros [= <- <-]. by destruct a as [[]].
  - unfold stored_of, filed_of, worth_storing.
    cbn [List.filter ChainProtectedAsync.store snd]. unfold st_mk at 1.
    destruct (EventHeader.is_empty _) eqn:Hempty; cbn [negb]; [apply IH|].
    cbn [fmap list_fmap fst snd write_all]. unfold mbind at 1, st_bind at 1.
    destruct (RedoLog.write e (w, redo_of a)) as [[lk|err] [w1 r1]] eqn:E; [|done].
    intros Hrest. unfold mbind, st_bind.
    unfold st_map_err, ChainProtectedAsync.on_chain, ChainOfTrust.on_redo, on_log.
    fold (redo_of a). rewrite E. cbn [map_err]. unfold st_mk.
    specialize (IH w1 (ChainProtectedAsync.with_chain a
      (ChainOfTrust.add_history (ChainProtectedAsync.filed (ca_integrity a) hd)
         (ChainOfTrust.with_redo (ca_chain a) r1))) w' r' Hrest).
    etrans; [exact IH|]. done.
Qed.
(** Headers that go with their events. *)
Definition headed (v : EventWeakData * EventHeader) : Prop :=
  EventWeakData.as_header v.1 = Ok v.2.

Lemma in_play_hashed e : in_play U e → ∃ hash, hash_of e = Some hash ∧ U hash = Some (forget_event e).
Proof. intros (raw & hash & _ & _ & ? & ? & _)%in_play_hash. eauto. Qed.

(** Events stay in a log that grows by events in play. *)
Lemma in_log_grows es w l w' l' e :
  (∀ hash, contents w' l' hash = if decide (brings es hash) then U hash else contents w l hash) →
  in_play U e → in_log w l e ∨ e ∈ es → in_log w' l' e.
Proof.
  intros Hc (hash & Hh & HU)%in_play_hashed Hor. exists hash. split; [done|]. rewrite Hc.
  case_decide as Hb; [done|]. destruct Hor as [(x & Hx & Hcx)|Hin]; [congruence|].
  destruct Hb. apply list_elem_of_omap. eauto.
Qed.

Lemma filed_headers mode v : Forall headed v → Forall2 header_of (stored_of mode v) (filed_of mode v).
Proof.
  unfold stored_of, filed_of.
  induction 1 as [|[e hd] v Hhd Hv IH]; [constructor|]. cbn.
  destruct (worth_storing mode (e, hd)); [|done]. cbn. constructor; [|done].
  by apply header_of_filed.
Qed.

Lemma stored_of_forall (P : EventWeakData → Prop) mode v :
  Forall P v.*1 → Forall P (stored_of mode v).
Proof.
  unfold stored_of. induction v as [|[e hd] v IH]; [done|]. cbn. intros [Hp Hv]%Forall_cons.
  destruct (worth_storing mode (e, hd)); [|by apply IH]. constructor; [done|by apply IH].
Qed.

(** The state after the writes and the filing of a batch. *)
Lemma state_grows stored w a es hs w' r' :
  chain_state stored w a → Forall (in_play U) es → Forall2 header_of es hs →
  lf_inv w' (rl_log_file r') → agrees U w' (rl_log_file r') →
  (∀ hash, contents w' (rl_log_file r') hash
           = if decide (brings es hash) then U hash else contents w (log_of a) hash) →
  chain_state (stored ++ es) w'
    (ChainProtectedAsync.with_chain a (file_all hs (ChainOfTrust.with_redo (ca_chain a) r'))).
Proof.
  intros [Hl Hag Hp Hin (cs & hs0 & Htl & Hhs)] Hes Hhes Hl' Hag' Hc.
  assert (log_of (ChainProtectedAsync.with_chain a
            (file_all hs (ChainOfTrust.with_redo (ca_chain a) r'))) = rl_log_file r') as Hlog.
  { unfold log_of, redo_of. cbn [ca_chain ChainProtectedAsync.with_chain].
    by rewrite file_all_redo. }
  split; rewrite ?Hlog; try done.
  - by apply Forall_app.
  - apply Forall_app. rewrite !Forall_forall in *. split; intros e He.
    + eapply in_log_grows; [exact Hc|by apply Hp|left; by apply Hin].
    + eapply in_log_grows; [exact Hc|by apply Hes|by right].
  - exists cs, (hs0 ++ hs). split; [|by apply Forall2_app].
    unfold timeline_of. cbn [ca_chain ChainProtectedAsync.with_chain].
    rewrite file_all_timeline. cbn [co_timeline ChainOfTrust.with_redo].
    fold (timeline_of a). by rewrite Htl, foldl_app.
Qed.

Lemma store_ok stored w a v : chain_state stored w a →
  Forall (in_play U) v.*1 → Forall headed v →
  ∃ w' a', ChainProtectedAsync.store v (w, a) = (Ok (), (w', a'))
    ∧ chain_state (stored ++ stored_of (ca_integrity a) v) w' a'
    ∧ ca_integrity a' = ca_integrity a
    ∧ rl_flip (redo_of a') = (λ d, d ++ stored_of (ca_integrity a) v) <$> rl_flip (redo_of a).
Proof.
  intros Hst Hp Hv. pose proof Hst as [Hl Hag _ _ _].
  pose proof (stored_of_forall _ (ca_integrity a) v Hp) as Hes.
  destruct (write_all_ok _ w (redo_of a) Hl Hag Hes) as (w' & r' & E & Hl' & Hag' & Hf & _ & Hc).
  eexists w', _. split; [by apply store_writes|]. split; [|split].
  - apply state_grows with w; try done. by apply filed_headers.
  - done.
  - unfold redo_of. cbn [ca_chain ChainProtectedAsync.with_chain]. by rewrite file_all_redo.
Qed.

(** *** Admission *)

(** Which events of a batch are admitted: some of them, in order, with their headers, and
    all of them when there are no errors. *)
Lemma validate_all_sublist now evts : ∀ s v errs s',
  ChainProtectedAsync.validate_all display now evts s = (Ok (v, errs), s') →
  v.*1 `sublist_of` evts ∧ Forall headed v ∧ (errs = [] → v.*1 = evts).
Proof.
  induction evts as [|e evts IH]; intros [sy conv] v errs s'.
  { cbn. intros [= <- <- _]. split; [constructor|]. split; [constructor|done]. }
  cbn [ChainProtectedAsync.validate_all]. unfold st_mk at 1.
  destruct (EventWeakData.as_header e) as [hd|err] eqn:Ehd; [|done].
  destruct (ChainProtectedSync.validate_event _ _ _ _ _) as [res|err]; unfold mbind, st_bind.
  - unfold st_map_err at 1. destruct (ChainProtectedAsync.feed_sync hd (sy, conv)) as [[[]|x] s1]; [|done].
    cbn [map_err].
    destruct (ChainProtectedAsync.validate_all display now evts s1) as [[[v1 errs1]|x] s2] eqn:E; [|done].
    intros [= <- <- <-]. destruct (IH _ _ _ _ E) as (Hsub & Hh & Hall). cbn.
    split; [by constructor|]. split; [by constructor|]. intros He. f_equal. by apply Hall.
  - destruct (ChainProtectedAsync.validate_all display now evts (sy, conv)) as [[[v1 errs1]|x] s2] eqn:E; [|done].
    intros [= <- <- <-]. destruct (IH _ _ _ _ E) as (Hsub & Hh & Hall). cbn.
    split; [by constructor|]. by split.
Qed.

(** A batch that is fed. *)
Lemma feed_ok stored w a s now (evts : list EventWeakData) :
  chain_state stored w a → Forall (in_play U) evts →
  let '(r, (w', a', s')) := ChainProtectedAsync.feed_async_internal display now evts (w, a, s) in
  match ChainProtectedAsync.validate_all display now evts s with
  | (Err err, s1) => r = Err err ∧ w' = w ∧ a' = a ∧ s' = s1
  | (Ok (v, errs), s1) =>
      r = ChainProtectedAsync.raise errs ∧ s' = s1
      ∧ v.*1 `sublist_of` evts ∧ (errs = [] → v.*1 = evts)
      ∧ chain_state (stored ++ stored_of (ca_integrity a) v) w' a'
  end.
Proof.
  intros Hst Hplay. unfold ChainProtectedAsync.feed_async_internal, st_mk.
  destruct (ChainProtectedAsync.validate_all display now evts s) as [[[v errs]|err] s1] eqn:E; [|done].
  destruct (validate_all_sublist _ _ _ _ _ _ E) as (Hsub & Hh & Hall).
  destruct (store_ok stored w a v Hst) as (w' & a' & -> & Hst' & _); [|done|done].
  rewrite Forall_forall in *. intros e He. apply Hplay. by apply (elem_of_sublist _ _ _ He).
Qed.

(** What loading an event gives. *)
Lemma load_stored stored w a e leaf : chain_state stored w a → e ∈ stored →
  hash_of e = Some (leaf_record leaf) →
  ∃ d w' c',
    ChainOfTrust.load leaf (w, ca_chain a)
      = (Ok {| lw_lookup := ld_lookup d; lw_header := ld_header d; lw_data := ld_data d;
               lw_leaf := leaf |}, (w', c'))
    ∧ loaded (leaf_record leaf) (forget_event e) d ∧ co_timeline c' = timeline_of a
    ∧ chain_state stored w' (ChainProtectedAsync.with_chain a c').
Proof.
  intros [Hl Hag Hp Hin Htl] He Hhash. pose proof Hin as Hin'. rewrite Forall_forall in Hin'.
  destruct (Hin' e He) as (hash & Hh & Hc).
  assert (hash = leaf_record leaf) as -> by congruence.
  destruct (lf_load_ok w (log_of a) _ _ Hl Hc) as (d & w' & l' & E & Hd & Hl' & _ & Hsame).
  eexists d, w', _. split.
  { unfold ChainOfTrust.load, mbind, st_bind, ChainOfTrust.on_redo, on_log, RedoLog.load,
      RedoLog.on_log_file, on_log.
    fold (redo_of a). fold (log_of a). rewrite E. reflexivity. }
  split; [done|]. split; [done|]. split; try done.
  - intros x ex. cbn. rewrite Hsame. apply Hag.
  - eapply Forall_impl; [exact Hin|]. intros e' (x & ? & ?). exists x. split; [done|].
    cbn. by rewrite Hsame.
Qed.

(** What loading a record gives. *)
Lemma load_current stored w a k e : chain_state stored w a → current k stored = Some e →
  ∃ leaf d w' c',
    ChainOfTrust.lookup_primary (ca_chain a) k = Some leaf
    ∧ ChainOfTrust.load leaf (w, ca_chain a)
      = (Ok {| lw_lookup := ld_lookup d; lw_header := ld_header d; lw_data := ld_data d;
               lw_leaf := leaf |}, (w', c'))
    ∧ loaded (leaf_record leaf) (forget_event e) d ∧ co_timeline c' = timeline_of a
    ∧ chain_state stored w' (ChainProtectedAsync.with_chain a c').
Proof.
  intros Hst Ec. pose proof (state_current stored w a k Hst) as Hk. rewrite Ec in Hk.
  destruct Hk as (leaf & Hleaf & Hhash). exists leaf.
  destruct (load_stored stored w a e leaf Hst (current_elem _ _ _ Ec) Hhash)
    as (d & w' & c' & ?). eauto 7.
Qed.

(** C4. Feeding keeps the chain's log and index in step.  A batch of events in play on a
    chain in a good state: when admission stops on an error, nothing is stored and the
    error is returned; otherwise every admitted event that is more than signatures is
    written to the log and filed, the errors of the others are returned, and the chain
    then holds the events it held and those. *)
Theorem feed_keeps_state stored w a s now (evts : list EventWeakData)
  (Hst : chain_state stored w a) (Hplay : Forall (in_play U) evts) :
  let '(r, (w', a', s')) := ChainProtectedAsync.feed_async_internal display now evts (w, a, s) in
  match ChainProtectedAsync.validate_all display now evts s with
  | (Err err, s1) => r = Err err ∧ w' = w ∧ a' = a ∧ s' = s1
  | (Ok (v, errs), s1) =>
      r = ChainProtectedAsync.raise errs ∧ s' = s1
      ∧ v.*1 `sublist_of` evts ∧ (errs = [] → v.*1 = evts)
      ∧ chain_state (stored ++ stored_of (ca_integrity a) v) w' a'
  end.
Proof. by apply feed_ok. Qed.

(** C5. A chain serves the current value of every record.  On a chain in a good state, a
    record that was never written or was removed since is not found; any other is found,
    and loading what is found gives back the event that last wrote it, up to the cache
    that is not stored; the chain is in the same state after. *)
Theorem chain_serves_current stored w a k (Hst : chain_state stored w a) :
  match current k stored with
  | None => ChainOfTrust.lookup_primary (ca_chain a) k = None
  | Some e => ∃ leaf d w' c',
      ChainOfTrust.lookup_primary (ca_chain a) k = Some leaf
      ∧ ChainOfTrust.load leaf (w, ca_chain a) = (Ok d, (w', c'))
      ∧ forget_event (lw_data d) = forget_event e ∧ lw_leaf d = leaf
      ∧ chain_state stored w' (ChainProtectedAsync.with_chain a c')
  end.
Proof.
  pose proof (state_current stored w a k Hst) as Hk.
  destruct (current k stored) as [e|] eqn:Ec; [|done].
  destruct (load_current _ _ _ _ _ Hst Ec) as (leaf & d & w' & c' & Hl & E & (_ & Hd & _) & _ & Hst').
  eexists leaf, _, w', c'. split; [done|]. split; [exact E|]. done.
Qed.

(** *** Opening *)

Lemma process_files now hs : ∀ (ret : ProcessError) a s,
  (foldl (ChainProtectedAsync.process_one display now) (ret, (a, s)) hs).2.1
  = ChainProtectedAsync.with_chain a (file_all hs (ca_chain a)).
Proof.
  induction hs as [|hd hs IH]; intros ret a [sy conv]; [by destruct a|].
  cbn [foldl]. unfold ChainProtectedAsync.process_one at 2.
  destruct (ChainProtectedAsync.feed_all_plugins _ _ _) as [errs [ps conv']].
  by rewrite IH.
Qed.

Lemma as_headers_ok (es : list EventWeakData) (raws : list EventHeaderRaw) :
  Forall2 (λ e raw, EventWeakData.as_header_raw e = Ok raw) es raws →
  ∃ hs, Chain.as_headers raws = Ok hs ∧ Forall2 header_of es hs.
Proof.
  induction 1 as [|e raw es raws He Hes IH]; [by exists []|].
  destruct IH as (hs & Ehs & Hhs). destruct (header_of_decoded e raw He) as (hd & Ehd & Hhd & _).
  exists (hd :: hs). cbn. rewrite Ehd. cbn.
  unfold Chain.as_headers in Ehs. rewrite Ehs. split; [done | by constructor].
Qed.

(** C6. Opening a log again gives the chain that wrote it.  When the events that were read
    from the log are those of [stored] and the log holds them, a chain that tolerates
    errors opens, whatever the validators say of the events, and is in the state of
    holding them; its synchronous half works in the idle mode, its asynchronous half in
    the mode of loading. *)
Theorem reopen_keeps_state stored w (redo : RedoLog L) now (b : ChainBuilder) (key : string)
  (load idle : TrustMode) (loaded : list EventHeaderRaw)
  (Hlog : lf_inv w (rl_log_file redo)) (Hag : agrees U w (rl_log_file redo))
  (Hplay : Forall (in_play U) stored) (Hin : Forall (in_log w (rl_log_file redo)) stored)
  (Hread : Forall2 (λ e raw, EventWeakData.as_header_raw e = Ok raw) stored loaded) :
  ∃ a sy, Chain.new_ext display now b key true load idle redo loaded = Ok (a, sy)
    ∧ chain_state stored w a ∧ ca_integrity a = load ∧ cs_integrity sy = idle.
Proof.
  destruct (as_headers_ok _ _ Hread) as (hs & Ehs & Hhs).
  unfold Chain.new_ext. rewrite Ehs. cbn [map_err mbind result_bind].
  unfold ChainProtectedAsync.process, st_mk.
  match goal with |- context [foldl ?f ?x hs] =>
    destruct (foldl f x hs) as [ret' [a1 [sy1 conv1]]] eqn:E;
    pose proof (eq_trans (f_equal (λ y, y.2.1) (eq_sym E))
                  (process_files now hs x.1 x.2.1 x.2.2)) as Hf end.
  cbn [fst snd] in Hf. subst a1.
  destruct (has_errors ret'); eexists _, _; (split; [reflexivity|]); (split; [|done]).
  all: split; [..|exists (cb_compactors b), hs; split; [|done]].
  all: unfold log_of, redo_of, timeline_of; cbn [ca_chain ChainProtectedAsync.with_chain];
    rewrite ?file_all_redo, ?file_all_timeline; done.
Qed.
End chain.

(** ** Concrete inputs, on the in-memory log *)

#[local] Existing Instance toy_prims.
#[local] Existing Instance toy_kem.
#[local] Existing Instance toy_serializer.

Definition dated (ms : Z) (c : CoreMetadata) (data : MessageBytes) : EventWeakData :=
  {| ew_meta := {| meta_core := [CoreTimestamp (ChainTimestamp.from ms); c] |};
     ew_data_bytes := data; ew_format := json_format |}.

(** Record 1 is written twice, record 2 once, and then record 2 is removed. *)
Definition first_write : EventWeakData := dated 1000 (CoreData (PrimaryKey.new 1)) (BytesSome [x01]).
Definition second_write : EventWeakData := dated 2000 (CoreData (PrimaryKey.new 1)) (BytesSome [x02]).
Definition other_write : EventWeakData := dated 3000 (CoreData (PrimaryKey.new 2)) (BytesSome [x03]).
Definition removal : EventWeakData := dated 4000 (CoreTombstone (PrimaryKey.new 2)) BytesNone.

Definition four_events : list EventWeakData := [first_write; second_write; other_write; removal].

Definition four_universe (h : AteHash) : option EventWeakData :=
  find_map (λ e, if decide (hash_of e = Some h) then Some e else None) four_events.

Lemma four_in_play : Forall (in_play (W := unit) (L := LogFileMemDb) four_universe) four_events.
Proof.
  repeat constructor; try (intros raw [= <-]; reflexivity).
  all: eexists; split; [reflexivity|vm_compute; reflexivity].
Qed.

Definition empty_chain (mode : TrustMode) : ChainProtectedAsync LogFileMemDb :=
  {| ca_chain := {| co_key := "sample"; co_timeline := ChainTimeline.new default_compactors;
                    co_redo := {| rl_log_path := None; rl_flip := None;
                                  rl_log_file := LogFileMemDb.new [] |};
                    co_chain_size := 0 |};
     ca_default_format := json_format; ca_disable_new_roots := false; ca_sync_tolerance := 30000;
     ca_is_shutdown := false; ca_integrity := mode |}.

Lemma empty_state U mode : chain_state U [] () (empty_chain mode).
Proof.
  split; [| |constructor|constructor|by exists default_compactors, []].
  - intros h lk. simpl. by rewrite lookup_empty.
  - intros h e. simpl. unfold memdb_contents. simpl. by rewrite lookup_empty.
Qed.

Definition no_display (e : ValidationErrorKind) : string := EmptyString.

Definition five_seconds : option Z := Some 5000000000.

(** The default chain admits the first two. *)
Lemma two_admitted :
  match ChainProtectedAsync.validate_all no_display five_seconds [first_write; second_write]
          (sample_sync [], None) with
  | (Ok (v, errs), _) => stored_of Distributed v = [first_write; second_write] ∧ errs = []
  | (Err _, _) => False
  end.
Proof. vm_compute. done. Qed.

Lemma feed_keeps_state_witness :
  let '(r, (w, a, _)) := ChainProtectedAsync.feed_async_internal no_display five_seconds
    [first_write; second_write] ((), empty_chain Distributed, (sample_sync [], None)) in
  r = Ok () ∧ chain_state four_universe [first_write; second_write] w a.
Proof.
  pose proof (feed_keeps_state no_display four_universe [] () (empty_chain Distributed)
    (sample_sync [], None) five_seconds [first_write; second_write] (empty_state _ _)) as Hf.
  destruct (ChainProtectedAsync.feed_async_internal _ _ _ _) as [r [[w a] s]].
  pose proof two_admitted as Ha.
  destruct (ChainProtectedAsync.validate_all no_display five_seconds [first_write; second_write]
    (sample_sync [], None)) as [[[v errs]|err] s1]; [|destruct Ha].
  destruct Ha as [Hv ->]. destruct Hf as (-> & _ & _ & _ & Hst).
  - exact (Forall_take _ 2 _ four_in_play).
  - split; [reflexivity|]. cbn [ca_integrity empty_chain] in Hst. rewrite Hv in Hst. exact Hst.
Defined.

(** The chain that was fed the first two. *)
Definition with_header (e : EventWeakData) : option (EventWeakData * EventHeader) :=
  (λ h, (e, h)) <$> result_ok (EventWeakData.as_header e).

Definition two_chain : ChainProtectedAsync LogFileMemDb :=
  (ChainProtectedAsync.store (omap with_header [first_write; second_write])
     ((), empty_chain Distributed)).2.2.

Lemma two_state_in U : Forall (in_play (W := unit) (L := LogFileMemDb) U) [first_write; second_write] →
  chain_state U [first_write; second_write] () two_chain.
Proof.
  intros HU. destruct (store_ok U [] () (empty_chain Distributed)
    (omap with_header [first_write; second_write]) (empty_state _ _)) as (w & a & E & Hst & _).
  - exact HU.
  - by repeat constructor.
  - unfold two_chain. rewrite E. by destruct w.
Qed.

Lemma two_state : chain_state four_universe [first_write; second_write] () two_chain.
Proof. apply two_state_in. exact (Forall_take _ 2 _ four_in_play). Qed.

Lemma chain_serves_current_witness :
  ∃ leaf d w c, ChainOfTrust.lookup_primary (ca_chain two_chain) (PrimaryKey.new 1) = Some leaf
    ∧ ChainOfTrust.load leaf ((), ca_chain two_chain) = (Ok d, (w, c))
    ∧ forget_event (lw_data d) = second_write.
Proof.
  pose proof (chain_serves_current four_universe _ () two_chain (PrimaryKey.new 1) two_state) as Hc.
  destruct (current (PrimaryKey.new 1) [first_write; second_write]) as [e|] eqn:E;
    vm_compute in E; [|discriminate E].
  destruct Hc as (leaf & d & w & c & Hl & Hd & He & _ & _). exists leaf, d, w, c.
  split; [exact Hl|]. split; [exact Hd|]. rewrite He. injection E as <-. reflexivity.
Defined.

Definition sample_builder : ChainBuilder :=
  ChainBuilder.new Balanced None json_format 30000 sample_session.

Lemma reopen_keeps_state_witness :
  ∃ a sy, Chain.new_ext no_display five_seconds sample_builder "sample" true (Centralized Server)
            Distributed (redo_of two_chain)
            (omap (λ e, result_ok (EventWeakData.as_header_raw e)) [first_write; second_write])
          = Ok (a, sy)
    ∧ chain_state four_universe [first_write; second_write] () a
    ∧ ca_integrity a = Centralized Server ∧ cs_integrity sy = Distributed.
Proof.
  apply (reopen_keeps_state no_display four_universe [first_write; second_write] ()
    (redo_of two_chain)); try apply two_state.
  repeat constructor.
Defined.
