(* ===== verification/CompactSpec.v ===== *)
(** * Compaction of a running chain

    The theorem on [compact_ext] of lib/src/chain/compact.rs as a whole: what the compactors
    keep, the flip of the redo log, the new timeline, and the batches that other tasks feed
    while the compaction runs, together keep the current event of every record. *)

From stdpp Require Import sorting.
From S2P Require Import Prelude LogApi Crypto Codec Secure Meta Time Event Index Signature Tree Compact Plugins LogFile MemDb RedoLog Chain ChainSpec.

(** ** The order of the history *)

Section history.
Context {A : Type}.
Implicit Types (t : ChainTimestamp) (x : A) (l : list (ChainTimestamp * A)).

Definition not_after t t' : Prop := time_since_epoch_ms t ≤ time_since_epoch_ms t'.

Definition chronological l : Prop := StronglySorted (λ e e', not_after e.1 e'.1) l.

Lemma lt_not_after t t' : ChainTimestamp.lt t t' = false ↔ not_after t' t.
Proof. unfold ChainTimestamp.lt, not_after. rewrite bool_decide_eq_false. lia. Qed.

Lemma insert_perm t x l : history_insert t x l ≡ₚ (t, x) :: l.
Proof.
  induction l as [|[t' x'] l IH]; [done|]. cbn.
  destruct (ChainTimestamp.lt t t'); [done|]. rewrite IH. apply Permutation_swap.
Qed.

Lemma insert_chronological t x l : chronological l → chronological (history_insert t x l).
Proof.
  unfold chronological. induction 1 as [|[t' x'] l Hl IH Hall]; cbn; [repeat constructor|].
  destruct (ChainTimestamp.lt t t') eqn:Hlt.
  - constructor; [by constructor|]. unfold ChainTimestamp.lt in Hlt.
    apply bool_decide_eq_true in Hlt. constructor; [unfold not_after; cbn; lia|].
    eapply Forall_impl; [exact Hall|]. unfold not_after. cbn. lia.
  - constructor; [done|]. apply lt_not_after in Hlt.
    rewrite insert_perm. by constructor.
Qed.

(** An element that is not earlier than the ones with a property comes after them. *)
Lemma insert_filter (P : A → bool) t x l : chronological l →
  (∀ e, e ∈ l → P e.2 = true → not_after e.1 t) →
  List.filter (λ e, P e.2) (history_insert t x l)
  = List.filter (λ e, P e.2) l ++ (if P x then [(t, x)] else []).
Proof.
  unfold chronological. induction 1 as [|[t' x'] l Hl IH Hall]; intros Hbefore; cbn [history_insert]; [done|].
  destruct (ChainTimestamp.lt t t') eqn:Hlt.
  - assert (List.filter (λ e, P e.2) ((t', x') :: l) = []) as Hnil.
    { apply filter_nil_iff. intros e He. destruct (P e.2) eqn:Hp; [|done].
      specialize (Hbefore e He Hp). unfold ChainTimestamp.lt in Hlt.
      apply bool_decide_eq_true in Hlt. unfold not_after in *. exfalso.
      apply elem_of_cons in He as [->|He]; [cbn in *; lia|].
      rewrite Forall_forall in Hall. specialize (Hall e He). cbn in Hall. lia. }
    cbn [List.filter snd] in Hnil |- *. rewrite Hnil. by destruct (P x).
  - cbn [List.filter snd]. rewrite IH; [by destruct (P x')|]. intros e He. apply Hbefore. by right.
Qed.

Lemma insert_filter_none (P : A → bool) t x l : P x = false →
  List.filter (λ e, P e.2) (history_insert t x l) = List.filter (λ e, P e.2) l.
Proof.
  intros Hx. induction l as [|[t' x'] l IH]; cbn; [by rewrite Hx|].
  destruct (ChainTimestamp.lt t t'); cbn; [by rewrite Hx|]. by rewrite IH.
Qed.
End history.

(** *** The timeline *)

Definition timeline_wf (tl : ChainTimeline) : Prop :=
  chronological (ct_history tl)
  ∧ ∀ t raw, (t, raw) ∈ ct_history tl →
      not_after (ChainTimeline.start tl) t ∧ not_after t (ChainTimeline.end_ tl).

Lemma chronological_bounds (tl : ChainTimeline) : chronological (ct_history tl) → timeline_wf tl.
Proof.
  intros Hc. split; [done|]. intros t raw Hin. unfold ChainTimeline.start, ChainTimeline.end_.
  unfold chronological in Hc. split.
  - destruct (ct_history tl) as [|[t0 raw0] l]; [by apply elem_of_nil in Hin|]. cbn.
    apply StronglySorted_inv in Hc as [_ Hall]. rewrite Forall_forall in Hall.
    apply elem_of_cons in Hin as [[= -> ->]|Hin]; [unfold not_after; lia|exact (Hall _ Hin)].
  - destruct (ct_history tl) as [|x l] eqn:E using rev_ind; [by apply elem_of_nil in Hin|].
    rewrite last_snoc. apply elem_of_app in Hin as [Hin| <-%list_elem_of_singleton]; [|unfold not_after; cbn; lia].
    assert (not_after (t, raw).1 x.1); [|done].
    eapply (StronglySorted_app_1_elem_of (λ e e', not_after e.1 e'.1) l [x]); [done..|].
    by apply list_elem_of_singleton.
Qed.

Lemma add_history_chronological tl h : chronological (ct_history tl) →
  chronological (ct_history (ChainTimeline.add_history tl h)).
Proof.
  intros Hc. unfold ChainTimeline.add_history. cbn [ct_history].
  destruct (Metadata.include_in_history _); [by apply insert_chronological|done].
Qed.

(** The timeline is well formed.  Whatever events are added, in whatever order and with
    whatever timestamps, the history is in the order of the timestamps, [start] and [end]
    bound it, and it has every event that belongs to the history, once for each time it
    was added, under its own timestamp when it has one. *)
Theorem timeline_well_formed (cs : list EventCompactor) (hs : list EventHeader) :
  let tl := foldl ChainTimeline.add_history (ChainTimeline.new cs) hs in
  timeline_wf tl
  ∧ (ct_history tl).*2 ≡ₚ eh_raw <$> List.filter (λ h, Metadata.include_in_history (eh_meta h)) hs
  ∧ ∀ h t, h ∈ hs → Metadata.include_in_history (eh_meta h) = true →
      Metadata.get_timestamp (eh_meta h) = Some t → (t, eh_raw h) ∈ ct_history tl.
Proof.
  intros tl. assert (chronological (ct_history tl)
    ∧ (ct_history tl).*2 ≡ₚ eh_raw <$> List.filter (λ h, Metadata.include_in_history (eh_meta h)) hs
    ∧ ∀ h t, h ∈ hs → Metadata.include_in_history (eh_meta h) = true →
        Metadata.get_timestamp (eh_meta h) = Some t → (t, eh_raw h) ∈ ct_history tl) as (Hc & Hp & Ht);
    [|split; [by apply chronological_bounds|done]].
  unfold tl. induction hs as [|h hs IH] using rev_ind.
  { split; [constructor|]. split; [done|]. by intros h t ?%elem_of_nil. }
  destruct (IH) as (Hc & Hp & Ht). rewrite foldl_app. cbn [foldl].
  split; [by apply add_history_chronological|].
  unfold ChainTimeline.add_history. cbn [ct_history].
  rewrite List.filter_app, fmap_app. cbn [List.filter]. split.
  - destruct (Metadata.include_in_history (eh_meta h)); [|by rewrite app_nil_r].
    rewrite insert_perm. cbn. rewrite Hp. apply Permutation_cons_append.
  - intros x t [Hx| ->%list_elem_of_singleton]%elem_of_app Hi Hts.
    + destruct (Metadata.include_in_history (eh_meta h)); [|by apply Ht].
      rewrite insert_perm. right. by apply Ht.
    + rewrite Hi, insert_perm. unfold ChainTimeline.timestamp_of. rewrite Hts. left.
Qed.

(** ** The chronicle of a list of events *)

Section chronicle.
Context `{CryptoPrims} `{MetaSerializer}.
Implicit Types (e : EventWeakData) (stored : list EventWeakData) (h : EventHeader) (k : PrimaryKey).

Definition time_of e : option ChainTimestamp := Metadata.get_timestamp (ew_meta e).

(** The history a timeline keeps, with the events themselves. *)
Definition file_event (l : list (ChainTimestamp * EventWeakData)) e
    : list (ChainTimestamp * EventWeakData) :=
  if Metadata.include_in_history (ew_meta e) then
    history_insert
      (match time_of e with
       | Some t => t
       | None => match last l with Some a => a.1 | None => ChainTimestamp.from 0 end
       end) e l
  else l.

Definition chronicle stored : list (ChainTimestamp * EventWeakData) := foldl file_event [] stored.

Definition entry_of (x : ChainTimestamp * EventWeakData) (y : ChainTimestamp * EventHeaderRaw)
    : Prop := x.1 = y.1 ∧ EventWeakData.as_header_raw x.2 = Ok y.2.

Lemma insert_entries t e raw l l' : EventWeakData.as_header_raw e = Ok raw →
  Forall2 entry_of l l' → Forall2 entry_of (history_insert t e l) (history_insert t raw l').
Proof.
  intros He. induction 1 as [|[t1 e1] [t2 raw2] l l' [Ht Hraw] Hl IH]; cbn in *.
  - by repeat constructor.
  - subst t2. destruct (ChainTimestamp.lt t t1); by repeat constructor.
Qed.

Lemma header_of_meta e h : header_of e h →
  EventWeakData.as_header_raw e = Ok (eh_raw h)
  ∧ Metadata.get_timestamp (eh_meta h) = time_of e
  ∧ Metadata.include_in_history (eh_meta h) = Metadata.include_in_history (ew_meta e).
Proof.
  intros (h0 & [Hr Hm]%as_header_Ok & Hs). unfold time_of. rewrite (proj1 Hs), <- Hm.
  split; [done|]. split; [by apply same_timestamp|by apply same_in_history].
Qed.

Lemma timeline_chronicle cs stored hs : Forall2 header_of stored hs →
  Forall2 entry_of (chronicle stored)
    (ct_history (foldl ChainTimeline.add_history (ChainTimeline.new cs) hs)).
Proof.
  unfold chronicle. intros Hall.
  assert (Forall2 entry_of [] (ct_history (ChainTimeline.new cs))) as H0' by constructor.
  revert H0'. generalize (ChainTimeline.new cs) as tl.
  generalize (@nil (ChainTimestamp * EventWeakData)) as l.
  induction Hall as [|e h stored hs He Hall IH]; intros l tl Hl; [done|]. cbn [foldl].
  apply IH. destruct (header_of_meta e h He) as (Hraw & Ht & Hin).
  unfold file_event, ChainTimeline.add_history. cbn [ct_history]. rewrite Hin.
  destruct (Metadata.include_in_history (ew_meta e)); [|exact Hl].
  unfold ChainTimeline.timestamp_of, ChainTimeline.end_. rewrite Ht.
  pose proof (Forall2_last _ _ _ Hl) as Hlast.
  destruct (time_of e); [by apply insert_entries|].
  destruct (last l) as [[t1 e1]|], (last (ct_history tl)) as [[t2 raw2]|]; [|done..|].
  - destruct Hlast as [Ht12 _]. cbn in Ht12 |- *. subst t2. by apply insert_entries.
  - by apply insert_entries.
Qed.

Lemma chronicle_snoc stored e : chronicle (stored ++ [e]) = file_event (chronicle stored) e.
Proof. unfold chronicle. by rewrite foldl_app. Qed.

Lemma chronicle_sorted stored : chronological (chronicle stored).
Proof.
  induction stored as [|e stored IH] using rev_ind; [constructor|]. rewrite chronicle_snoc.
  unfold file_event. destruct (Metadata.include_in_history _); [|done].
  by apply insert_chronological.
Qed.

(** The history has the events that are included in it, once each. *)
Lemma chronicle_perm stored :
  (chronicle stored).*2 ≡ₚ List.filter (λ e, Metadata.include_in_history (ew_meta e)) stored.
Proof.
  induction stored as [|e stored IH] using rev_ind; [done|].
  rewrite chronicle_snoc, List.filter_app. cbn. unfold file_event.
  destruct (Metadata.include_in_history _); [|by rewrite app_nil_r].
  rewrite insert_perm. cbn. rewrite IH. apply Permutation_cons_append.
Qed.

Lemma chronicle_times stored t e : (t, e) ∈ chronicle stored → ∀ t', time_of e = Some t' → t = t'.
Proof.
  induction stored as [|e0 stored IH] using rev_ind; [by intros ?%elem_of_nil|].
  rewrite chronicle_snoc. unfold file_event.
  destruct (Metadata.include_in_history _); [|done]. rewrite insert_perm.
  intros [[= -> ->]|Hin]%elem_of_cons; [|by apply IH]. intros t' Ht'. by rewrite Ht'.
Qed.

(** The events that touch a record arrive with times, in the order of the times. *)
Definition in_order k stored : Prop :=
  ∀ l1 e l2 e', stored = l1 ++ e :: l2 → e' ∈ l2 →
    touches_record k e = true → touches_record k e' = true →
    ∃ t t', time_of e = Some t ∧ time_of e' = Some t' ∧ not_after t t'.

Lemma in_order_snoc k stored e : in_order k (stored ++ [e]) → in_order k stored.
Proof.
  intros Ho l1 x l2 y -> Hy. apply (Ho l1 x (l2 ++ [e]) y); [by rewrite <- app_assoc|].
  apply elem_of_app. by left.
Qed.

Lemma chronicle_filter k stored : in_order k stored →
  (∀ e, e ∈ stored → touches_record k e = true → Metadata.include_in_history (ew_meta e) = true) →
  List.filter (touches_record k) (chronicle stored).*2 = List.filter (touches_record k) stored.
Proof.
  assert (∀ l : list (ChainTimestamp * EventWeakData), List.filter (touches_record k) l.*2
    = (List.filter (λ x, touches_record k x.2) l).*2) as Hf.
  { induction l as [|[t e] l IH]; [done|]. cbn. destruct (touches_record k e); cbn; by rewrite IH. }
  induction stored as [|e stored IH] using rev_ind; [done|]. intros Ho Hincl.
  assert (List.filter (touches_record k) (chronicle stored).*2
          = List.filter (touches_record k) stored) as IH'.
  { apply IH; [by eapply in_order_snoc|]. intros x Hx. apply Hincl. set_solver. }
  rewrite chronicle_snoc, List.filter_app. cbn. unfold file_event.
  destruct (touches_record k e) eqn:Ht.
  - rewrite (Hincl e) by (set_solver || done). rewrite Hf, insert_filter.
    + rewrite Ht, fmap_app, <- Hf, IH'. done.
    + apply chronicle_sorted.
    + intros [t1 e1] Hin Ht1. cbn in Ht1 |- *.
      assert (e1 ∈ stored) as Hin1.
      { apply (list_elem_of_fmap_2 snd) in Hin. rewrite chronicle_perm in Hin.
        apply list_elem_of_In, filter_In in Hin as [?%list_elem_of_In _]. done. }
      apply list_elem_of_split in Hin1 as (l1 & l2 & ->).
      destruct (Ho l1 e1 (l2 ++ [e]) e) as (t & t' & Hte & Hte' & Hle); [by rewrite <- app_assoc|set_solver|done|done|].
      rewrite Hte'. by rewrite (chronicle_times _ _ _ Hin t Hte).
  - destruct (Metadata.include_in_history _); [|by rewrite app_nil_r].
    by rewrite app_nil_r, <- IH', !Hf, insert_filter_none.
Qed.

(** ** What the compactors see *)

(** The header that step 0 decodes. *)
Definition decoded e h : Prop :=
  EventWeakData.as_header_raw e = Ok (eh_raw h) ∧ eh_meta h = forget_cache (ew_meta e).

Lemma decoded_header e h : decoded e h → header_of e h.
Proof.
  intros [Hr Hm]. destruct (header_of_decoded e _ Hr) as (h' & Hd & Hh & Hraw).
  assert (h' = h) as ->; [|done]. destruct h, h'. cbn in *. subst.
  pose proof Hr as (Hs & _ & _ & _ & Hf & _)%as_header_raw_inv.
  unfold EventHeaderRaw.as_header in Hd. rewrite Hf, (meta_round_trip _ _ _ Hs) in Hd.
  cbn in Hd. by injection Hd as <-.
Qed.

Lemma decoded_hash e h : decoded e h → hash_of e = Some (raw_event_hash (eh_raw h)).
Proof. intros Hd%decoded_header. by apply header_hash. Qed.

Lemma headers_decoded l (tl : ChainTimeline) : Forall2 entry_of l (ct_history tl) →
  Forall2 decoded l.*2 (Compaction.headers_of tl).
Proof.
  unfold Compaction.headers_of. induction 1 as [|[t e] [t' raw] l l' [_ Hraw] Hl IH]; [constructor|].
  cbn in *. pose proof Hraw as (Hs & _ & _ & _ & Hf & _)%as_header_raw_inv.
  unfold EventHeaderRaw.as_header. rewrite Hf, (meta_round_trip _ _ _ Hs). cbn.
  by constructor.
Qed.

(** Events as a compaction takes them: no two with one hash, each about the record it names,
    without signatures or keys of their own, dated and part of the history. *)
Record regular stored : Prop := {
  cp_hashes : NoDup (hash_of <$> stored);
  cp_keys : ∀ e k, e ∈ stored →
    touches_record k e = true ↔ Metadata.get_data_key (ew_meta e) = Some k;
  cp_plain : ∀ e, e ∈ stored → is_Some (Metadata.get_data_key (ew_meta e)) →
    Metadata.get_signature (ew_meta e) = None ∧ Metadata.get_public_key (ew_meta e) = None;
  cp_timed : ∀ e, e ∈ stored → is_Some (Metadata.get_data_key (ew_meta e)) →
    is_Some (time_of e) ∧ Metadata.include_in_history (ew_meta e) = true;
}.

(** Events that also arrived in the order of their dates, for every record. *)
Record compactable stored : Prop := {
  cp_regular : regular stored;
  cp_order : ∀ k, in_order k stored;
}.

Lemma in_order_sublist k l l' : l `sublist_of` l' → in_order k l' → in_order k l.
Proof.
  intros Hsub Ho l1 e l2 e' -> He' Ht Ht'.
  apply sublist_app_l in Hsub as (m1 & m2 & -> & _ & Hsub).
  apply sublist_cons_l in Hsub as (m3 & m4 & -> & Hsub).
  eapply (Ho (m1 ++ m3) e m4 e'); [by rewrite <- app_assoc| |done|done].
  by apply (elem_of_sublist _ _ _ He').
Qed.

Lemma compactable_sublist l l' : l `sublist_of` l' → compactable l' → compactable l.
Proof.
  intros Hsub [[Hh Hk Hp Ht] Ho]. assert (∀ e, e ∈ l → e ∈ l') as Hin by (intros e He; by apply (elem_of_sublist _ _ _ He)).
  split; [|intros k; by eapply in_order_sublist]. split; [|by eauto..].
  eapply sublist_NoDup; [exact Hh|]. by apply sublist_fmap.
Qed.

Lemma chronicle_elem stored e : e ∈ (chronicle stored).*2 → e ∈ stored.
Proof. rewrite chronicle_perm, !list_elem_of_In, filter_In. by intros []. Qed.

Lemma chronicle_hashes stored : NoDup (hash_of <$> stored) → NoDup (hash_of <$> (chronicle stored).*2).
Proof.
  intros Hnd. rewrite chronicle_perm. eapply sublist_NoDup; [exact Hnd|].
  apply sublist_fmap, sublist_filter.
Qed.

Lemma chronicle_pair stored l1 e l2 e' : (chronicle stored).*2 = l1 ++ e :: l2 → e' ∈ l2 →
  ∃ t t', (t, e) ∈ chronicle stored ∧ (t', e') ∈ chronicle stored ∧ not_after t t'.
Proof.
  intros (c1 & c2 & -> & Hc2 & Hc)%fmap_app_inv He'.
  symmetry in Hc2. apply fmap_cons_inv in Hc2 as ([t x] & c3 & -> & -> & ->).
  apply list_elem_of_fmap in He' as ([t' x'] & -> & Hin').
  exists t, t'. rewrite Hc. split; [set_solver|]. split; [set_solver|].
  pose proof (chronicle_sorted stored) as Hs. rewrite Hc in Hs.
  apply StronglySorted_app_1_r in Hs. apply StronglySorted_inv in Hs as [_ Hall].
  rewrite Forall_forall in Hall. exact (Hall _ Hin').
Qed.

Lemma regular_history stored hs : regular stored →
  Forall2 decoded (chronicle stored).*2 hs → history_ok hs.
Proof.
  intros [Hh Hk Hp Ht] Hdec. split.
  - apply (NoDup_fmap_1 Some). rewrite <- list_fmap_compose.
    erewrite <- (Forall2_fmap_eq decoded hash_of); [by apply chronicle_hashes| |exact Hdec].
    intros e h He. by apply decoded_hash.
  - intros h k Hin. destruct (Forall2_elem_r _ _ _ _ Hdec Hin) as (e & He & Hd).
    destruct (header_touches k e h (decoded_header _ _ Hd)) as (_ & _ & ->).
    rewrite (proj2 Hd), get_data_key_forget. apply Hk. by apply chronicle_elem.
  - intros h Hin. destruct (Forall2_elem_r _ _ _ _ Hdec Hin) as (e & He & Hd).
    rewrite (proj2 Hd), get_data_key_forget. intros Hkey.
    destruct (Hp e (chronicle_elem _ _ He) Hkey) as [<- <-].
    unfold Metadata.get_signature, Metadata.get_public_key.
    rewrite !find_map_forget_cache by by intros []. done.
  - intros hs1 h hs2 h' ts -> Hin' Hkeys Hkey Hts.
    apply Forall2_app_inv_r in Hdec as (l1 & l2' & _ & Hdec2 & Hsplit).
    inversion Hdec2 as [|e ? l2 ? Hd Hdec3]; subst.
    destruct (Forall2_elem_r _ _ _ _ Hdec3 Hin') as (e' & He' & Hd').
    destruct (chronicle_pair stored l1 e l2 e' Hsplit He') as (t & t' & Hin & Hinc & Hle).
    destruct (header_of_meta e h (decoded_header _ _ Hd)) as (_ & Hte & _).
    destruct (header_of_meta e' h' (decoded_header _ _ Hd')) as (_ & Hte' & _).
    rewrite (proj2 Hd), (proj2 Hd'), !get_data_key_forget in Hkeys.
    rewrite (proj2 Hd), get_data_key_forget in Hkey.
    destruct (Ht e') as [[ts' Hts'] _]; [|by rewrite Hkeys|].
    { apply chronicle_elem. rewrite Hsplit. set_solver. }
    exists ts'. rewrite Hte'. split; [done|]. rewrite Hte in Hts.
    by rewrite <- (chronicle_times _ _ _ Hin ts Hts), <- (chronicle_times _ _ _ Hinc ts' Hts').
Qed.

(** The headers step 0 reads off the history of the events [stored]. *)
Definition decode e : option EventHeader :=
  raw ← result_ok (EventWeakData.as_header_raw e); result_ok (EventHeaderRaw.as_header raw).

Definition headers_at stored : list EventHeader := omap decode (chronicle stored).*2.

Lemma timeline_headers cs stored hs : Forall2 header_of stored hs →
  let tl := foldl ChainTimeline.add_history (ChainTimeline.new cs) hs in
  Compaction.headers_of tl = headers_at stored
  ∧ Forall2 decoded (chronicle stored).*2 (headers_at stored).
Proof.
  intros Hall tl. pose proof (timeline_chronicle cs _ _ Hall) as He.
  assert (Compaction.headers_of tl = headers_at stored) as Heq.
  { unfold Compaction.headers_of, headers_at. fold tl in He.
    induction He as [|[t e] [t' raw] l l' [_ Hraw] Hl IH]; [done|]. cbn in *.
    unfold decode at 1. rewrite Hraw. cbn. by rewrite IH. }
  split; [done|]. rewrite <- Heq. by apply headers_decoded.
Qed.

Lemma decoded_headers es hs : Forall2 decoded es hs → Forall2 header_of es hs.
Proof. intros Hall. eapply Forall2_impl; [exact Hall|]. exact decoded_header. Qed.

(** The events behind the headers that a settled vote keeps: of every record they have the event
    that comes last in the history. *)
Lemma kept_current stored cs cut_off l cs' d tc : regular stored →
  Forall2 decoded (chronicle stored).*2 (headers_at stored) →
  RemoveDuplicates d ∈ cs → Tombstones tc ∈ cs →
  EventCompactor.settled (headers_at stored) cs cut_off = Some (l, cs') →
  ∃ es, es `sublist_of` (chronicle stored).*2 ∧ Forall2 decoded es (kept l)
    ∧ ∀ k, current k es = current k (chronicle stored).*2.
Proof.
  intros Hcp Hdec Hd Htc Hset. pose proof (regular_history _ _ Hcp Hdec) as Hok.
  destruct (settled_votes _ _ _ _ _ Hset) as (ls & _ & Hk).
  destruct (Forall2_sublist_r _ _ _ (kept l) Hdec) as (es & Hsub & Hes);
    [rewrite Hk; apply sublist_filter|].
  exists es. split; [done|]. split; [done|]. intros k.
  pose proof (settled_view _ _ _ _ _ d tc k Hok Hd Htc Hset) as Hv. cbv zeta beta in Hv.
  pose proof (index_current k _ _ (decoded_headers _ _ Hes)) as H1'.
  pose proof (index_current k _ _ (decoded_headers _ _ Hdec)) as H2'.
  destruct (current k es) as [e1|] eqn:E1, (current k (chronicle stored).*2) as [e2|] eqn:E2.
  2: { destruct H1' as (? & H1' & _). by rewrite H1', H2' in Hv. }
  2: { destruct H2' as (? & H2' & _). by rewrite H1', H2' in Hv. }
  2: done.
  destruct H1' as (? & H1' & ?), H2' as (? & H2' & ?). rewrite H1', H2' in Hv. f_equal.
  eapply (NoDup_fmap_elem hash_of (chronicle stored).*2).
  - apply chronicle_hashes, Hcp.
  - eapply elem_of_sublist; [by eapply current_elem|done].
  - by eapply current_elem.
  - cbn in Hv. congruence.
Qed.

(** When the events of a record arrived in the order of their dates, that is its current one. *)
Lemma chronicle_current k stored : regular stored → in_order k stored →
  current k (chronicle stored).*2 = current k stored.
Proof.
  intros Hcp Ho. unfold current. rewrite chronicle_filter; [done..|].
  intros e He Ht. apply (cp_timed _ Hcp e He). eexists. by apply (cp_keys _ Hcp e k He).
Qed.

(** What comes later decides. *)
Lemma current_app k l1 l2 : current k (l1 ++ l2)
  = if existsb (touches_record k) l2 then current k l2 else current k l1.
Proof.
  unfold current. rewrite List.filter_app.
  destruct (existsb (touches_record k) l2) eqn:Hex.
  - destruct (List.filter (touches_record k) l2) as [|e m] eqn:Ef.
    + apply existsb_exists in Hex as (e & He & Ht).
      assert (e ∈ List.filter (touches_record k) l2) as Hin by by apply list_elem_of_In, filter_In.
      rewrite Ef in Hin. by apply elem_of_nil in Hin.
    + by rewrite last_app_cons.
  - replace (List.filter (touches_record k) l2) with (@nil EventWeakData); [by rewrite app_nil_r|].
    symmetry. apply filter_nil_iff. intros e He. destruct (touches_record k e) eqn:Ht; [|done].
    assert (existsb (touches_record k) l2 = true); [|congruence].
    apply existsb_exists. exists e. split; [by apply list_elem_of_In|done].
Qed.
End chronicle.

(** ** The phases of a compaction *)

Section compaction.
Context {W L : Type} `{CryptoPrims} `{KemPrims} `{MetaSerializer} `{!LogFile W L} `{!LogFileSpec W L}.
Context `{ChainHeaderJson}.
Variable display : ValidationErrorKind → string.
Variable U : AteHash → option EventWeakData.
Implicit Types (e : EventWeakData) (h : EventHeader) (k : PrimaryKey) (a : ChainProtectedAsync L)
  (w : W) (r : RedoLog L) (f : FlippedLogFile L) (stored es : list EventWeakData) (s : SyncState).

(** The events that batches add to a chain, and the synchronous half after them. *)
Fixpoint fed (mode : TrustMode) (now : option Z) (batches : list (list EventWeakData)) s
    : list EventWeakData * SyncState :=
  match batches with
  | [] => ([], s)
  | batch :: batches =>
      match ChainProtectedAsync.validate_all display now batch s with
      | (Ok (v, _), s) =>
          let '(es, s) := fed mode now batches s in (stored_of mode v ++ es, s)
      | (Err _, s) => fed mode now batches s
      end
  end.

(** What the chain is made of but for its redo log. *)
Definition same_chain a a' : Prop :=
  ca_integrity a' = ca_integrity a
  ∧ ct_compactors (timeline_of a') = ct_compactors (timeline_of a).

Lemma same_chain_trans a1 a2 a3 : same_chain a1 a2 → same_chain a2 a3 → same_chain a1 a3.
Proof. unfold same_chain. intuition congruence. Qed.

Lemma timeline_compactors hs tl :
  ct_compactors (foldl ChainTimeline.add_history tl hs) = ct_compactors tl.
Proof. revert tl. induction hs as [|h hs IH]; intros tl; [done|]. cbn. by rewrite IH. Qed.

Definition on_log_of a r : ChainProtectedAsync L :=
  ChainProtectedAsync.with_chain a (ChainOfTrust.with_redo (ca_chain a) r).

(** A flip leaves the chain it runs beside in its state. *)
Lemma flip_state stored w a ops w' r' f : chain_state U stored w a →
  flip_inv U (contents w (log_of a)) ops (w', (r', f)) →
  chain_state U stored w' (on_log_of a r').
Proof.
  intros [Hl Hag Hp Hin Htl] (Il & _ & _ & Ag & Hhist & _). split; try done.
  eapply Forall_impl; [exact Hin|]. intros e (hash & Hh & Hc). exists hash.
  split; [done|]. by apply Hhist.
Qed.

Lemma flip_rebase hist ops w r f : flip_inv U hist ops (w, (r, f)) →
  flip_inv U (contents w (rl_log_file r)) ops (w, (r, f)).
Proof. unfold flip_inv. naive_solver. Qed.

(** What is kept by writing to the redo log is kept by feeding batches.  [J es w r] says it of the
    log after the events [es] were written. *)
Section keeps.
Variable J : list EventWeakData → W → RedoLog L → Prop.
Hypothesis Hwrite : ∀ es e w r lk w' r', J es w r → in_play U e → RedoLog.write e (w, r) = (Ok lk, (w', r')) →
  J (es ++ [e]) w' r'.

Lemma write_all_keeps es : ∀ es0 w r w' r', J es0 w r → Forall (in_play U) es →
  write_all es (w, r) = (Ok (), (w', r')) → J (es0 ++ es) w' r'.
Proof.
  induction es as [|e es IH]; intros es0 w r w' r' HJ Hes; [intros [= <- <-]; by rewrite app_nil_r|].
  apply Forall_cons in Hes as [He Hes]. cbn [write_all]. unfold mbind, st_bind.
  destruct (RedoLog.write e (w, r)) as [[lk|] [w1 r1]] eqn:E; [|done]. intros Hw.
  rewrite cons_middle, app_assoc. by eapply IH; [eapply Hwrite|..].
Qed.

(** A batch that is stored. *)
Lemma async_store_keeps stored es0 w a v : chain_state U stored w a → J es0 w (redo_of a) →
  Forall (in_play U) v.*1 → Forall headed v →
  ∃ w' a', ChainProtectedAsync.store v (w, a) = (Ok (), (w', a'))
    ∧ chain_state U (stored ++ stored_of (ca_integrity a) v) w' a' ∧ same_chain a a'
    ∧ J (es0 ++ stored_of (ca_integrity a) v) w' (redo_of a').
Proof.
  intros Hst HJ Hp Hv. destruct (store_ok U stored w a v Hst Hp Hv) as (w' & a' & E & Hst' & _).
  pose proof Hst as [Hl Hag _ _ _]. pose proof (stored_of_forall _ (ca_integrity a) v Hp) as Hes.
  destruct (write_all_ok U _ w (redo_of a) Hl Hag Hes) as (w1 & r1 & Ew & _).
  rewrite (store_writes v _ _ _ _ Ew) in E. injection E as <- <-.
  eexists _, _. split; [by apply store_writes|]. split; [done|]. split.
  - split; [done|]. unfold timeline_of. cbn [ca_chain ChainProtectedAsync.with_chain].
    by rewrite file_all_timeline, timeline_compactors.
  - unfold redo_of. cbn [ca_chain ChainProtectedAsync.with_chain]. rewrite file_all_redo.
    by eapply write_all_keeps.
Qed.

Lemma feed_batches_keeps clock batches : ∀ stored es0 w a s,
  chain_state U stored w a → J es0 w (redo_of a) → Forall (Forall (in_play U)) batches →
  let '(es, s') := fed (ca_integrity a) (clock 1%nat) batches s in
  ∃ w' a', Compaction.feed_batches display clock batches (w, a, s) = (w', a', s')
    ∧ chain_state U (stored ++ es) w' a' ∧ same_chain a a' ∧ J (es0 ++ es) w' (redo_of a').
Proof.
  unfold Compaction.feed_batches.
  induction batches as [|batch batches IH]; intros stored es0 w a s Hst HJ Hplay; cbn [fed].
  - exists w, a. rewrite !app_nil_r. done.
  - inversion Hplay as [|? ? Hb Hrest]; subst. cbn [foldl].
    unfold ChainProtectedAsync.feed_async_internal at 2, st_mk.
    destruct (ChainProtectedAsync.validate_all display (clock 1%nat) batch s) as [[[v errs]|err] s1] eqn:E.
    2: { cbn [snd]. by apply IH. }
    destruct (validate_all_sublist _ _ _ _ _ _ _ E) as (Hsub & Hh & _).
    destruct (async_store_keeps stored es0 w a v Hst HJ) as (w1 & a1 & -> & Hst1 & Hsame & HJ1); [|done|].
    { rewrite Forall_forall in *. intros e He. apply Hb. by apply (elem_of_sublist _ _ _ He). }
    cbn [snd]. specialize (IH _ _ w1 a1 s1 Hst1 HJ1 Hrest). rewrite (proj1 Hsame) in IH.
    destruct (fed (ca_integrity a) (clock 1%nat) batches s1) as [es s2].
    destruct IH as (w2 & a2 & E2 & Hst2 & Hsame2 & HJ2). exists w2, a2. split; [done|].
    rewrite !app_assoc in *. split; [done|]. split; [by eapply same_chain_trans|done].
Qed.
End keeps.

(** Batches that arrive while a flip is on are deferred in it. *)
Lemma feed_batches_flip clock hist f batches stored ops w a s :
  chain_state U stored w a → flip_inv U hist ops (w, (redo_of a, f)) →
  Forall (Forall (in_play U)) batches →
  let '(es, s') := fed (ca_integrity a) (clock 1%nat) batches s in
  ∃ w' a', Compaction.feed_batches display clock batches (w, a, s) = (w', a', s')
    ∧ chain_state U (stored ++ es) w' a' ∧ same_chain a a'
    ∧ flip_inv U hist (ops ++ (OpWrite <$> es)) (w', (redo_of a', f)).
Proof.
  intros Hst Hf Hplay. apply (feed_batches_keeps (λ es w r, flip_inv U hist (ops ++ (OpWrite <$> es)) (w, (r, f))))
    with (es0 := []); [|done|by rewrite app_nil_r|done].
  intros es e w0 r0 lk w' r' HJ He Hw.
  destruct (flip_op_ok U hist _ (OpWrite e) (w0, (r0, f)) HJ He) as (s1 & E & Hf1).
  cbn [flip_op] in E. rewrite Hw in E. injection E as <-. by rewrite fmap_app, app_assoc.
Qed.

(** Batches that arrive before leave the log ready for a flip. *)
Definition ready w r : Prop := can_flip w (rl_log_file r) ∧ rl_flip r = None.

Lemma feed_batches_ready clock batches stored w a s :
  chain_state U stored w a → ready w (redo_of a) → Forall (Forall (in_play U)) batches →
  let '(es, s') := fed (ca_integrity a) (clock 1%nat) batches s in
  ∃ w' a', Compaction.feed_batches display clock batches (w, a, s) = (w', a', s')
    ∧ chain_state U (stored ++ es) w' a' ∧ same_chain a a' ∧ ready w' (redo_of a').
Proof.
  intros Hst Hr Hplay. apply (feed_batches_keeps (λ _, ready)) with (es0 := []); [|done..].
  intros _ e w0 r0 lk w' r' [Hcan Hidle] _. unfold RedoLog.write, st_mk. rewrite Hidle.
  unfold RedoLog.on_log_file, on_log. destruct (lf_write e (w0, rl_log_file r0)) as [[x|] [w1 l1]] eqn:E; [|done].
  intros [= _ <- <-]. split; [by eapply lf_write_can_flip|done].
Qed.

Lemma begin_ok stored w a cut_off : chain_state U stored w a → ready w (redo_of a) →
  ∃ f w1 r1, Compaction.begin cut_off (w, a) = (Ok f, (w1, on_log_of a r1))
    ∧ fl_event_summary f = [] ∧ flip_inv U (contents w (log_of a)) [] (w1, (r1, f)).
Proof.
  intros [Hl Hag _ _ _] [Hcan Hidle].
  destruct (begin_flip_ok U w (redo_of a) (header_serialize {| ch_cut_off := cut_off |})
    Hl Hcan (header_small _) Hidle Hag) as (f & w1 & r1 & E1 & _ & Hsum & Hf & _).
  destruct (flip_flush U _ _ _ _ _ Hf) as (w2 & r2 & E2 & _ & Hf2 & _).
  exists f, w2, r2. split; [|done]. unfold Compaction.begin.
  erewrite st_bind_Ok.
  2: { unfold st_map_err, Compaction.on_redo, ChainProtectedAsync.on_chain, ChainOfTrust.on_redo, on_log.
       fold (redo_of a). by rewrite E1. }
  erewrite st_bind_Ok.
  2: { unfold st_map_err, Compaction.on_redo, ChainProtectedAsync.on_chain, ChainOfTrust.on_redo, on_log.
       cbn [ca_chain ChainProtectedAsync.with_chain co_redo ChainOfTrust.with_redo]. by rewrite E2. }
  reflexivity.
Qed.

(** Copying events of the history succeeds and files them. *)
Lemma copy_all_ok hist hs : ∀ es ops w a f tl,
  flip_inv U hist ops (w, (redo_of a, f)) → Forall2 header_of es hs → Forall (in_play U) es →
  Forall (λ e, ∃ hash, hash_of e = Some hash ∧ hist hash = Some (forget_event e)) es →
  ∃ w' r' f', Compaction.copy_all hs (w, (a, (f, tl)))
      = (Ok (), (w', (on_log_of a r', (f', foldl ChainTimeline.add_history tl hs))))
    ∧ fl_event_summary f' = fl_event_summary f ++ (eh_raw <$> hs)
    ∧ flip_inv U hist (ops ++ ((λ h, OpCopy (EventHeader.hash h)) <$> hs)) (w', (r', f')).
Proof.
  induction hs as [|h hs IH]; intros es ops w a f tl Hf Hes Hp Hin.
  - exists w, (redo_of a), f. rewrite !app_nil_r. split; [|done]. by destruct a as [[]].
  - inversion Hes as [|e ? es' ? He Hes']; subst.
    apply Forall_cons in Hp as [Hpe Hp], Hin as [(hash & Hh & Hc) Hin].
    rewrite (header_hash e h He) in Hh. injection Hh as Hh.
    pose (f0 := {| fl_log_file := fl_log_file f;
                   fl_event_summary := fl_event_summary f ++ [eh_raw h] |}).
    destruct (flip_op_ok U hist ops (OpCopy (EventHeader.hash h)) (w, (redo_of a, f0)) Hf)
      as ([w1 [r1 f1]] & E & Hf1).
    { exists (forget_event e). rewrite Hh. split; [done|]. apply storable_forget, Hpe. }
    cbn [flip_op] in E.
    destruct (FlippedLogFile.copy_event (EventHeader.hash h) (w, (redo_of a, f0)))
      as [[lk|] [w2 [r2 f2]]] eqn:Ec; [|done]. injection E as -> -> ->.
    destruct (IH es' _ w1 (on_log_of a r1) f1 (ChainTimeline.add_history tl h) Hf1 Hes' Hp Hin)
      as (w' & r' & f' & E' & Hsum & Hf').
    exists w', r', f'. split; [|split].
    + cbn [Compaction.copy_all]. unfold st_mk. fold f0. fold (redo_of a) (EventHeader.hash h).
      rewrite Ec. exact E'.
    + rewrite Hsum, fmap_cons. assert (fl_event_summary f1 = fl_event_summary f0) as ->.
      { revert Ec. unfold FlippedLogFile.copy_event, st_mk.
        destruct (lf_copy_event _ _) as [? [? [? ?]]]. by intros [= _ _ _ <-]. }
      unfold f0. cbn. by rewrite <- app_assoc.
    + by rewrite <- app_assoc in Hf'.
Qed.

(** The middle: the chosen events are in the new log and the new timeline. *)
Lemma build_ok stored ops w a f sy now cut_off l cs hs es : chain_state U stored w a →
  flip_inv U (contents w (log_of a)) ops (w, (redo_of a, f)) → fl_event_summary f = [] →
  EventCompactor.settled (Compaction.headers_of (timeline_of a)) (ct_compactors (timeline_of a))
    cut_off = Some (l, cs) →
  Compaction.revalidate display now sy (kept l) = hs →
  Forall2 header_of es hs → (∀ e, e ∈ es → e ∈ stored) →
  ∃ w' r' f', Compaction.build display now cut_off f sy (w, a)
      = (Ok (f', foldl ChainTimeline.add_history (ChainTimeline.new cs) hs),
         (w', on_log_of a r'))
    ∧ fl_event_summary f' = eh_raw <$> hs
    ∧ flip_inv U (contents w (log_of a)) (ops ++ ((λ h, OpCopy (EventHeader.hash h)) <$> hs))
        (w', (r', f')).
Proof.
  intros [_ _ Hp Hin _] Hf Hsum Hset Hval Hes Hsub. rewrite Forall_forall in Hp, Hin.
  destruct (copy_all_ok (contents w (log_of a)) hs es ops w a f (ChainTimeline.new cs) Hf Hes)
    as (w' & r' & f' & E & Hs' & Hf').
  { apply Forall_forall. auto. }
  { apply Forall_forall. intros e He. by apply Hin, Hsub. }
  exists w', r', f'. rewrite Hsum in Hs'. split; [|done].
  unfold Compaction.build, st_mk, Compaction.choose. fold (timeline_of a). rewrite Hset.
  cbn [mbind option_bind]. by rewrite Hval, E.
Qed.

Lemma brought_in_log (ops : list FlipOp) es w l : Forall (in_play U) es →
  (∀ e hash, e ∈ es → hash_of e = Some hash → hash ∈ omap op_brings ops) →
  (∀ hash, contents w l hash = if decide (hash ∈ omap op_brings ops) then U hash else None) →
  Forall (in_log w l) es.
Proof.
  rewrite !Forall_forall. intros Hp Hb Hc e He.
  destruct (in_play_hashed U e (Hp e He)) as (hash & Hh & HU). exists hash. split; [done|].
  rewrite Hc, decide_True; [done|]. by eapply Hb.
Qed.

(** The end: the new log is in place, with the events that were copied and those that
    arrived meanwhile, and the timeline has both. *)
Lemma finish_ok hist (ops : list FlipOp) w a f cs hs es sy : flip_inv U hist ops (w, (redo_of a, f)) →
  fl_event_summary f = eh_raw <$> hs → Forall2 header_of es hs → Forall (in_play U) es →
  Forall (in_play U) (deferred_of ops) →
  (∀ e hash, e ∈ es → hash_of e = Some hash → hash ∈ omap op_brings ops) →
  ∃ w' a' sy', Compaction.finish f (foldl ChainTimeline.add_history (ChainTimeline.new cs) hs)
      (w, a, sy) = (Ok (), (w', a', sy'))
    ∧ chain_state U (es ++ deferred_of ops) w' a' ∧ rl_flip (redo_of a') = None.
Proof.
  intros Hf Hsum Hes Hp Hdef Hb.
  set (tl := foldl ChainTimeline.add_history (ChainTimeline.new cs) hs).
  destruct (finish_flip_ok U (λ _ h tl, ChainTimeline.add_history tl h) tl hist ops w (redo_of a) f Hf Hdef)
    as (w1 & r1 & tl1 & E1 & Hidle & _ & Hl1 & Hc1).
  destruct (finish_flip_calls ChainTimeline.add_history _ _ _ _ (deferred_of ops) _ _ _ _ ltac:(apply Hf) E1)
    as (hs2 & Hhs2 & ->).
  assert (Forall2 header_of (deferred_of ops) hs2) as Hh2.
  { eapply Forall2_impl; [exact Hhs2|]. intros e h He. by exists h. }
  destruct (as_headers_ok (es ++ deferred_of ops) (fl_event_summary f
    ++ omap (λ e, result_ok (EventWeakData.as_header_raw e)) (deferred_of ops))) as (hs3 & E3 & _).
  { rewrite Hsum. apply Forall2_app.
    - clear -Hes. induction Hes as [|e h es hs He Hes IH]; [constructor|]. cbn.
      constructor; [apply (header_of_meta e h He)|done].
    - clear -Hhs2. induction Hhs2 as [|e h es hs He Hes IH]; [constructor|]. cbn.
      apply as_header_Ok in He as [He _]. rewrite He. by constructor. }
  destruct (lf_flush_ok w1 (rl_log_file r1) Hl1) as (w2 & l2 & E2 & Hl2 & _ & Hc2).
  eexists w2, _, _. split.
  { unfold Compaction.finish, st_mk. fold (redo_of a). rewrite E1, E3.
    unfold ChainProtectedAsync.on_chain, ChainOfTrust.flush, ChainOfTrust.on_redo, RedoLog.flush,
      RedoLog.on_log_file, on_log.
    cbn [ca_chain ChainProtectedAsync.with_chain co_redo ChainOfTrust.with_redo ChainOfTrust.with_timeline].
    rewrite E2. reflexivity. }
  assert (∀ x, contents w2 l2 x = if decide (x ∈ omap op_brings ops) then U x else None) as Hc
    by (intros x; by rewrite Hc2, Hc1).
  split; [|exact Hidle]. split; cbn.
  - exact Hl2.
  - intros x e. cbn. rewrite Hc. by case_decide.
  - by apply Forall_app.
  - apply Forall_app. split; [by eapply brought_in_log|]. eapply (brought_in_log ops); [done| |done].
    intros e x He Hx. apply (proj2 (brings_elem U ops x)). left. apply list_elem_of_omap. eauto.
  - exists cs, (hs ++ hs2). rewrite foldl_app. split; [done|by apply Forall2_app].
Qed.

Lemma deferred_of_writes es : deferred_of (OpWrite <$> es) = es.
Proof. unfold deferred_of. induction es as [|e es IH]; [done|]. cbn. by rewrite IH. Qed.

(** What a compaction does to the redo log: the writes of two spells of feeding, and the
    copies between them. *)
Definition compact_ops es1 (hs : list EventHeader) es2 : list FlipOp :=
  ((OpWrite <$> es1) ++ ((λ h, OpCopy (EventHeader.hash h)) <$> hs)) ++ (OpWrite <$> es2).

Lemma compact_ops_deferred es1 hs es2 : deferred_of (compact_ops es1 hs es2) = es1 ++ es2.
Proof.
  unfold compact_ops, deferred_of. rewrite !omap_app.
  fold (deferred_of (OpWrite <$> es1)) (deferred_of (OpWrite <$> es2)).
  rewrite !deferred_of_writes. f_equal.
  assert (omap (λ op, match op with OpWrite e => Some e | _ => None end)
    ((λ h, OpCopy (EventHeader.hash h)) <$> hs) = []) as ->; [by induction hs|].
  by rewrite app_nil_r.
Qed.

Lemma compact_ops_brings es1 hs es2 es e hash : Forall2 header_of es hs → e ∈ es →
  hash_of e = Some hash → hash ∈ omap op_brings (compact_ops es1 hs es2).
Proof.
  intros Hes He Hh. unfold compact_ops. rewrite !omap_app, !elem_of_app. left. right.
  destruct (Forall2_elem_l _ _ _ _ Hes He) as (h & Hin & Hhd).
  rewrite (header_hash e h Hhd) in Hh. injection Hh as <-.
  apply list_elem_of_omap. exists (OpCopy (EventHeader.hash h)). split; [|done].
  by apply (list_elem_of_fmap_2 (λ h, OpCopy (EventHeader.hash h))).
Qed.

(** The choice of the events to keep. *)
Lemma chosen stored w a (cs0 : list EventCompactor) cut_off d tc : chain_state U stored w a →
  regular stored → RemoveDuplicates d ∈ cs0 → Tombstones tc ∈ cs0 →
  ∃ l cs es, EventCompactor.settled (headers_at stored) cs0 cut_off = Some (l, cs)
    ∧ Compaction.headers_of (timeline_of a) = headers_at stored
    ∧ es `sublist_of` (chronicle stored).*2 ∧ Forall2 header_of es (kept l)
    ∧ (∀ e, e ∈ es → e ∈ stored) ∧ ∀ k, current k es = current k (chronicle stored).*2.
Proof.
  intros [_ _ _ _ (cs1 & hs & Htl & Hhs)] Hcp Hd Htc.
  destruct (timeline_headers cs1 _ _ Hhs) as [Hheads Hdec]. rewrite <- Htl in Hheads.
  destruct (settled_total (headers_at stored) cs0 cut_off) as (l & cs & Hset & _).
  destruct (kept_current _ _ _ _ _ d tc Hcp Hdec Hd Htc Hset)
    as (es & Hsub & Hes%decoded_headers & Hcur).
  exists l, cs, es. do 4 (split; [done|]). split; [|done].
  intros e He. by apply chronicle_elem, (elem_of_sublist _ _ _ He).
Qed.

(** Events that are filed again after those that were kept. *)
Lemma current_refiled k stored es es1 es2 : current k es = current k (chronicle (stored ++ es1)).*2 →
  (current k (chronicle (stored ++ es1)).*2 = current k (stored ++ es1) ∨ existsb (touches_record k) (es1 ++ es2) = true →
   current k (es ++ es1 ++ es2) = current k (stored ++ es1 ++ es2))
  ∧ (existsb (touches_record k) (es1 ++ es2) = false →
     current k (es ++ es1 ++ es2) = current k (chronicle (stored ++ es1)).*2).
Proof.
  intros Hcur. rewrite (current_app k stored (es1 ++ es2)), (current_app k es (es1 ++ es2)).
  destruct (existsb (touches_record k) (es1 ++ es2)) eqn:Ht; [done|]. split; [|done].
  intros [Heq|]; [|done]. rewrite existsb_app in Ht. apply orb_false_iff in Ht as [Ht _].
  by rewrite Hcur, Heq, current_app, Ht.
Qed.

(** From the flip on. *)
Lemma compact_flip stored w a s (clock : nat → option Z) (before after : list (list EventWeakData)) cut_off d tc :
  chain_state U stored w a → ready w (redo_of a) →
  RemoveDuplicates d ∈ ct_compactors (timeline_of a) → Tombstones tc ∈ ct_compactors (timeline_of a) →
  Forall (Forall (in_play U)) before → Forall (Forall (in_play U)) after →
  let '(es1, s1) := fed (ca_integrity a) (clock 1%nat) before s in
  let '(es2, s2) := fed (ca_integrity a) (clock 1%nat) after s1 in
  regular (stored ++ es1) →
  (∀ l cs, EventCompactor.settled (headers_at (stored ++ es1)) (ct_compactors (timeline_of a)) cut_off = Some (l, cs) →
    Compaction.revalidate display (clock 2%nat) s1.1 (kept l) = kept l) →
  ∃ f w1 a1 w2 a2 f' tl w3 a3 w4 a4 w' a' sy es,
    Compaction.begin cut_off (w, a) = (Ok f, (w1, a1))
    ∧ Compaction.feed_batches display clock before (w1, a1, s) = (w2, a2, s1)
    ∧ Compaction.build display (clock 2%nat) cut_off f s1.1 (w2, a2) = (Ok (f', tl), (w3, a3))
    ∧ Compaction.feed_batches display clock after (w3, a3, s1) = (w4, a4, s2)
    ∧ Compaction.finish f' tl (w4, a4, s2.1) = (Ok (), (w', a', sy))
    ∧ es `sublist_of` (chronicle (stored ++ es1)).*2
    ∧ chain_state U (es ++ es1 ++ es2) w' a' ∧ rl_flip (redo_of a') = None
    ∧ ∀ k, current k es = current k (chronicle (stored ++ es1)).*2.
Proof.
  intros Hst Hready Hd Htc Hbefore Hafter.
  destruct (begin_ok stored w a cut_off Hst Hready) as (f & w1 & r1 & E1 & Hsum & Hf1).
  pose proof (feed_batches_flip clock _ f before stored [] w1 (on_log_of a r1) s
    (flip_state _ _ _ _ _ _ _ Hst Hf1) Hf1 Hbefore) as HF1.
  cbn [ca_integrity on_log_of ChainProtectedAsync.with_chain] in HF1.
  destruct (fed (ca_integrity a) (clock 1%nat) before s) as [es1 s1].
  destruct HF1 as (w2 & a2 & E2 & Hst2 & Hsame2 & Hf2). apply flip_rebase in Hf2.
  destruct Hsame2 as [Hmode2 Hcs2].
  destruct (fed (ca_integrity a) (clock 1%nat) after s1) as [es2 s2] eqn:Efed. intros Hcp Hvalid.
  destruct (chosen _ _ _ _ cut_off d tc Hst2 Hcp Hd Htc)
    as (l & cs & es & Hset & Hheads & Hsub & Hes & Hin & Hcur).
  destruct (build_ok (stored ++ es1) _ w2 a2 f s1.1 (clock 2%nat) cut_off l cs (kept l) es Hst2 Hf2 Hsum)
    as (w3 & r3 & f3 & E3 & Hsum3 & Hf3); [by rewrite Hheads, Hcs2|by eapply Hvalid|done|done|].
  pose proof (feed_batches_flip clock _ f3 after _ _ w3 (on_log_of a2 r3) s1
    (flip_state _ _ _ _ _ _ _ Hst2 Hf3) Hf3 Hafter) as HF2.
  cbn [ca_integrity on_log_of ChainProtectedAsync.with_chain] in HF2, Hmode2.
  rewrite Hmode2, Efed in HF2. destruct HF2 as (w4 & a4 & E4 & Hst4 & _ & Hf4).
  rewrite app_nil_l in Hf4. fold (compact_ops es1 (kept l) es2) in Hf4.
  pose proof (st_in_play _ _ _ _ Hst4) as ((Hp0 & Hp1)%Forall_app & Hp2)%Forall_app.
  destruct (finish_ok _ _ w4 a4 f3 cs (kept l) es s2.1 Hf4 Hsum3 Hes)
    as (w5 & a5 & sy5 & E5 & Hst5 & Hidle5).
  { apply Forall_forall. intros e He. apply Hin, elem_of_app in He.
    rewrite Forall_forall in Hp0, Hp1. naive_solver. }
  { rewrite compact_ops_deferred. by apply Forall_app. }
  { intros e hash. by apply compact_ops_brings. }
  rewrite compact_ops_deferred in Hst5. eexists f, w1, _, w2, a2, f3, _, w3, _, w4, a4, w5, a5, _, es.
  by repeat (split; [first [exact E1|exact E2|exact E3|exact E4|exact E5|done]|]).
Qed.

(** C3. Compaction keeps the current event of every record whose events arrived in the order of
    their dates.  Compact a chain that holds [stored], with batches of events arriving from other
    tasks after the cut-off is computed, before the events to keep are chosen and before the flip
    is finished, [es0], [es1] and [es2] being what they add.  The chain has the compactors for
    duplicates and tombstones, the events of records are dated and carry no signatures of their
    own, and the kept ones validate again.  Then every phase succeeds; the chain holds events of the
    history and all that arrived since the flip began, and its flip is over.  A record that one of
    these touches, or whose events are in the order of their dates, has the event it would have
    without the compaction; any other has the event with the latest date. *)
Theorem compaction_keeps_current stored w a s (keeper : TimeKeeper) (clock : nat → option Z)
  (early before after : list (list EventWeakData)) (cut_off : ChainTimestamp)
  (d : RemoveDuplicatesCompactor) (tc : TombstoneCompactor)
  (Hst : chain_state U stored w a) (Hready : ready w (redo_of a))
  (Hcut : Compaction.compute_cut_off keeper (clock 0%nat) a = Ok cut_off)
  (Hd : RemoveDuplicates d ∈ ct_compactors (timeline_of a))
  (Htc : Tombstones tc ∈ ct_compactors (timeline_of a))
  (Hearly : Forall (Forall (in_play U)) early)
  (Hbefore : Forall (Forall (in_play U)) before) (Hafter : Forall (Forall (in_play U)) after) :
  let '(es0, s0) := fed (ca_integrity a) (clock 1%nat) early s in
  let '(es1, s1) := fed (ca_integrity a) (clock 1%nat) before s0 in
  let '(es2, s2) := fed (ca_integrity a) (clock 1%nat) after s1 in
  let history := (stored ++ es0) ++ es1 in
  ∀ (Hreg : regular history)
    (Hvalid : ∀ l cs, EventCompactor.settled (headers_at history)
                        (ct_compactors (timeline_of a)) cut_off = Some (l, cs) →
              Compaction.revalidate display (clock 2%nat) s1.1 (kept l) = kept l),
  ∃ w' a' s' es, Compaction.compact_ext display keeper clock early before after (w, a, s)
                 = (Ok (), (w', a', s'))
    ∧ es `sublist_of` (chronicle history).*2
    ∧ chain_state U (es ++ es1 ++ es2) w' a' ∧ rl_flip (redo_of a') = None
    ∧ ∀ k, (in_order k history ∨ existsb (touches_record k) (es1 ++ es2) = true →
            current k (es ++ es1 ++ es2) = current k (history ++ es2))
           ∧ (existsb (touches_record k) (es1 ++ es2) = false →
              current k (es ++ es1 ++ es2) = current k (chronicle history).*2).
Proof.
  pose proof (feed_batches_ready clock early stored w a s Hst Hready Hearly) as H0'.
  destruct (fed (ca_integrity a) (clock 1%nat) early s) as [es0 s0].
  destruct H0' as (w0 & a0 & E0 & Hst0 & [Hmode Hcs] & Hready0).
  rewrite <- Hcs in Hd, Htc.
  pose proof (compact_flip (stored ++ es0) w0 a0 s0 clock before after cut_off d tc Hst0 Hready0 Hd Htc Hbefore Hafter) as HF.
  rewrite Hmode, Hcs in HF. destruct (fed _ _ before s0) as [es1 s1], (fed _ _ after s1) as [es2 s2].
  intros history Hreg Hvalid.
  destruct (HF Hreg Hvalid) as (f & w1 & a1 & w2 & a2 & f' & tl & w3 & a3 & w4 & a4 & w' & a' & s' & es
    & E1 & E2 & E3 & E4 & E5 & Hsub & Hst' & Hidle & Hcur).
  exists w', a', (s', s2.2), es. split; [unfold Compaction.compact_ext, st_mk; by rewrite Hcut, E0, E1, E2, E3, E4, E5|].
  do 3 (split; [done|]). intros k. change (history ++ es2) with (((stored ++ es0) ++ es1) ++ es2).
  rewrite <- (app_assoc (stored ++ es0)).
  destruct (current_refiled k (stored ++ es0) es es1 es2 (Hcur k)) as [Ho Ht]. split; [|exact Ht].
  intros [Hk|Hk]; apply Ho; [left; by apply chronicle_current|by right].
Qed.
End compaction.

(** ** Concrete inputs, on the in-memory log *)

#[local] Existing Instance toy_prims.
#[local] Existing Instance toy_kem.
#[local] Existing Instance toy_serializer.

#[local] Program Instance toy_header : ChainHeaderJson := {
  header_serialize h := to_be 8 (time_since_epoch_ms (ch_cut_off h));
  header_deserialize bs := Ok {| ch_cut_off := ChainTimestamp.from (from_be bs) |};
}.
Next Obligation.
  intros [[t]] Ht. cbn [ch_cut_off time_since_epoch_ms] in *. unfold u64_max in Ht.
  by rewrite from_be_to_be by (simpl; lia).
Qed.
Next Obligation. intros h. by apply Z.leb_le. Qed.

Definition sample_keeper : TimeKeeper := TimeKeeper.new None 40000.
Definition sample_clock (n : nat) : option Z := five_seconds.

(** The write to record 2 arrives before the events are chosen, its removal after. *)
Definition two_sync : SyncState := (sample_sync [], None).

Lemma sample_run :
  let '(es1, s1) := fed no_display Distributed five_seconds [[other_write]] two_sync in
  es1 = [other_write]
  ∧ (fed no_display Distributed five_seconds [[removal]] s1).1 = [removal]
  ∧ match EventCompactor.settled (headers_at [first_write; second_write; other_write])
            default_compactors (ChainTimestamp.from 2001) with
    | Some (l, _) => Compaction.revalidate no_display five_seconds s1.1 (kept l) = kept l
                     ∧ length (kept l) = 2%nat
    | None => False
    end.
Proof. vm_compute. done. Qed.

Lemma three_compactable : compactable [first_write; second_write; other_write].
Proof.
  split; [split|].
  - apply (bool_decide_unpack _). vm_compute. exact I.
  - intros e k He. unfold touches_record, removes_record, writes_record.
    repeat (apply elem_of_cons in He as [->|He]; [cbn; repeat case_bool_decide; naive_solver|]).
    by apply elem_of_nil in He.
  - intros e He _. repeat (apply elem_of_cons in He as [->|He]; [done|]). by apply elem_of_nil in He.
  - intros e He _. repeat (apply elem_of_cons in He as [->|He]; [by split; [eexists|]|]).
    by apply elem_of_nil in He.
  - intros k l1 e l2 e' Hs He' _ _.
    do 3 (destruct l1 as [|? l1]; [injection Hs as <- <-|injection Hs as _ Hs];
      [repeat (apply elem_of_cons in He' as [->|He'];
         [by eexists _, _; split; [reflexivity|split; [reflexivity|]]|]);
       by apply elem_of_nil in He'|]).
    by destruct l1.
Qed.

(** A write that arrives after one with a later date is the current event of its record until a
    compaction files the events again, by their dates. *)
Lemma late_write_loses :
  current (PrimaryKey.new 1) [second_write; first_write] = Some first_write
  ∧ current (PrimaryKey.new 1) (chronicle [second_write; first_write]).*2 = Some second_write.
Proof. split; vm_compute; reflexivity. Qed.

Lemma compaction_keeps_current_witness :
  ∃ w a s es, Compaction.compact_ext no_display sample_keeper sample_clock [] [[other_write]] [[removal]]
                ((), two_chain, two_sync) = (Ok (), (w, a, s))
    ∧ chain_state four_universe (es ++ [other_write] ++ [removal]) w a
    ∧ current (PrimaryKey.new 1) (es ++ [other_write] ++ [removal]) = Some second_write
    ∧ current (PrimaryKey.new 2) (es ++ [other_write] ++ [removal]) = None.
Proof.
  pose proof (compaction_keeps_current no_display four_universe [first_write; second_write] ()
    two_chain two_sync sample_keeper sample_clock [] [[other_write]] [[removal]]
    (ChainTimestamp.from 2001) RemoveDuplicatesCompactor.default TombstoneCompactor.default
    two_state (conj I eq_refl)) as Hc.
  pose proof sample_run as Hrun. change (ca_integrity two_chain) with Distributed in Hc.
  unfold sample_clock in Hc. change (fed no_display Distributed five_seconds [] two_sync) with (@nil EventWeakData, two_sync) in Hc.
  cbv beta iota zeta in Hc.
  destruct (fed no_display Distributed five_seconds [[other_write]] two_sync) as [es1 s1].
  destruct Hrun as (-> & Hes2 & Hval).
  destruct (fed no_display Distributed five_seconds [[removal]] s1) as [es2 s2].
  cbn [fst] in Hes2. subst es2.
  destruct Hc as (w & a & s & es & E & _ & Hst & _ & Hcur).
  - vm_compute. reflexivity.
  - vm_compute. do 2 right. left.
  - vm_compute. do 3 right. left.
  - constructor.
  - constructor; [|constructor]. exact (Forall_take _ 1 _ (Forall_drop _ 2 _ four_in_play)).
  - constructor; [|constructor]. exact (Forall_drop _ 3 _ four_in_play).
  - apply three_compactable.
  - intros l cs Hset. change (ct_compactors (timeline_of two_chain)) with default_compactors in Hset.
    cbn [app] in Hset. rewrite Hset in Hval. apply Hval.
  - exists w, a, s, es. split; [exact E|]. split; [exact Hst|].
    rewrite !(λ k, proj1 (Hcur k) (or_introl (cp_order _ three_compactable k))).
    split; vm_compute; reflexivity.
Defined.
