(* ===== verification/Replay.v ===== *)
(** * Replays

    What the anti-replay plugin of lib/src/anti_replay.rs gives a chain that is fed through
    lib/src/chain/protected_async.rs: no event is stored twice.  And what it does not give:
    a batch that fails on the way blocks the events it had admitted, and compaction lets
    go of the events it drops, which can then be fed once more. *)

From S2P Require Import Prelude LogApi Crypto Codec Secure Meta Time Event Index Signature Tree Compact Plugins LogFile MemDb RedoLog Chain ChainSpec CompactSpec.

Section guard.
Context `{CryptoPrims} `{KemPrims} `{MetaSerializer}.
Variable display : ValidationErrorKind → string.
Implicit Types (e : EventWeakData) (h : EventHeader) (ps : list EventPlugin) (x : AteHash)
  (s : SyncState).

(** One of the plugins is an anti-replay plugin. *)
Definition has_guard ps : Prop := ∃ p, AntiReplay p ∈ ps.

(** One that has seen the hash. *)
Definition seen ps x : Prop := ∃ p, AntiReplay p ∈ ps ∧ x ∈ ar_seen p.

Lemma seen_guard ps x : seen ps x → has_guard ps.
Proof. intros (p & ? & _). by exists p. Qed.

(** What was seen is denied. *)
Lemma seen_denied (sy : ChainProtectedSync) now h conv :
  seen (cs_plugins sy) (raw_event_hash (eh_raw h)) →
  ∃ err, ChainProtectedSync.validate_event display sy now h conv = Err err.
Proof.
  intros (p & Hp & Hx). destruct (ChainProtectedSync.validate_event _ _ _ _ _) as [r|err] eqn:E;
    [|by exists err].
  apply validate_event_Ok in E as (_ & Hd & _).
  assert (existsb (λ v, denies v.2) (ChainProtectedSync.votes sy now h conv) = true); [|congruence].
  apply existsb_exists. eexists. split.
  - unfold ChainProtectedSync.votes. apply list_elem_of_In, elem_of_app. right.
    apply (list_elem_of_fmap_2 _ _ _ Hp).
  - cbn. unfold AntiReplayPlugin.validate. by rewrite decide_True.
Qed.

Lemma feed_plugin_seen h p conv r p' conv' :
  EventPlugin.feed h (AntiReplay p, conv) = (r, (p', conv')) →
  p' = AntiReplay (AntiReplayPlugin.feed p h).
Proof. cbn. by intros [= _ <- _]. Qed.

(** Feeding the plugins forgets nothing, and once all of them took the event, it is
    seen. *)
Lemma feed_plugins_seen h ps : ∀ conv r ps' conv',
  ChainProtectedSync.feed_plugins h ps conv = (r, (ps', conv')) →
  (∀ p, AntiReplay p ∈ ps → ∃ p', AntiReplay p' ∈ ps' ∧ ar_seen p ⊆ ar_seen p'
        ∧ (r = Ok () → raw_event_hash (eh_raw h) ∈ ar_seen p')).
Proof.
  induction ps as [|q ps IH]; intros conv r ps' conv'; cbn [ChainProtectedSync.feed_plugins].
  { intros _ p Hp%elem_of_nil. done. }
  destruct (EventPlugin.feed h (q, conv)) as [r1 [q' conv1]] eqn:Eq.
  assert (∀ p, q = AntiReplay p → q' = AntiReplay (AntiReplayPlugin.feed p h)) as Hq.
  { intros p ->. by eapply feed_plugin_seen. }
  assert (∀ p, q = AntiReplay p → ∃ p', q' = AntiReplay p' ∧ ar_seen p ⊆ ar_seen p'
            ∧ raw_event_hash (eh_raw h) ∈ ar_seen p') as Hq'.
  { intros p Hp. exists (AntiReplayPlugin.feed p h). split; [by apply Hq|].
    unfold AntiReplayPlugin.feed, AntiReplayPlugin.push. cbn. set_solver. }
  destruct r1 as [[]|err].
  - destruct (ChainProtectedSync.feed_plugins h ps conv1) as [r2 [ps2 conv2]] eqn:E2.
    intros [= <- <- <-] p [Hp|Hp]%elem_of_cons.
    + destruct (Hq' p (eq_sym Hp)) as (p' & -> & ? & ?). exists p'. set_solver.
    + destruct (IH _ _ _ _ E2 p Hp) as (p' & ? & ? & ?). exists p'. set_solver.
  - intros [= <- <- <-] p [Hp|Hp]%elem_of_cons.
    + destruct (Hq' p (eq_sym Hp)) as (p' & -> & ? & ?). exists p'. set_solver.
    + exists p. set_solver.
Qed.

Lemma feed_sync_seen h s r s' : ChainProtectedAsync.feed_sync h s = (r, s') →
  (has_guard (cs_plugins s.1) → has_guard (cs_plugins s'.1))
  ∧ (∀ x, seen (cs_plugins s.1) x → seen (cs_plugins s'.1) x)
  ∧ (has_guard (cs_plugins s.1) → r = Ok () →
     seen (cs_plugins s'.1) (raw_event_hash (eh_raw h))).
Proof.
  destruct s as [sy conv]. unfold ChainProtectedAsync.feed_sync, st_mk.
  cbn [cs_plugins ChainProtectedSync.with_indexers].
  destruct (ChainProtectedSync.feed_plugins h (cs_plugins sy) conv) as [r1 [ps conv1]] eqn:E.
  intros [= <- <-]. cbn [fst cs_plugins ChainProtectedSync.with_plugins].
  pose proof (feed_plugins_seen _ _ _ _ _ _ E) as Hf. split; [|split].
  - intros (p & Hp). destruct (Hf p Hp) as (p' & ? & _). by exists p'.
  - intros x (p & Hp & Hx). destruct (Hf p Hp) as (p' & ? & ? & _). exists p'. set_solver.
  - intros (p & Hp) Hr. destruct (Hf p Hp) as (p' & ? & _ & Hx). exists p'. auto.
Qed.

(** Admission: what was seen stays seen; what is admitted was not seen before, is seen
    after, and is admitted once. *)
Lemma validate_all_seen now evts : ∀ s r s', has_guard (cs_plugins s.1) →
  ChainProtectedAsync.validate_all display now evts s = (r, s') →
  has_guard (cs_plugins s'.1) ∧ (∀ x, seen (cs_plugins s.1) x → seen (cs_plugins s'.1) x)
  ∧ ∀ v errs, r = Ok (v, errs) → NoDup (hash_of <$> v.*1)
    ∧ ∀ e, e ∈ v.*1 → ∃ x, hash_of e = Some x ∧ ¬ seen (cs_plugins s.1) x
                           ∧ seen (cs_plugins s'.1) x.
Proof.
  induction evts as [|e evts IH]; intros s r s' Hg.
  { cbn. intros [= <- <-]. split; [done|]. split; [done|]. intros v errs [= <- <-].
    split; [constructor|]. intros e He. by apply elem_of_nil in He. }
  destruct s as [sy conv]. cbn [ChainProtectedAsync.validate_all]. unfold st_mk at 1.
  destruct (EventWeakData.as_header e) as [h|err] eqn:Eh; [|by intros [= <- <-]].
  assert (hash_of e = Some (raw_event_hash (eh_raw h))) as Hh.
  { apply as_header_Ok in Eh as [Hr _]. unfold hash_of. by rewrite Hr. }
  destruct (ChainProtectedSync.validate_event _ _ _ _ _) as [res|err] eqn:Ev; unfold mbind, st_bind.
  - assert (¬ seen (cs_plugins sy) (raw_event_hash (eh_raw h))) as Hnew.
    { intros (err & Herr)%(seen_denied sy now h conv). congruence. }
    unfold st_map_err at 1. destruct (ChainProtectedAsync.feed_sync h (sy, conv)) as [r1 s1] eqn:Ef.
    destruct (feed_sync_seen _ _ _ _ Ef) as (Hg1 & Hmono1 & Hx1). cbn [fst] in *.
    destruct r1 as [[]|err]; cbn [map_err]; [|intros [= <- <-]; naive_solver].
    destruct (ChainProtectedAsync.validate_all display now evts s1) as [r2 s2] eqn:Ea.
    destruct (IH s1 r2 s2 (Hg1 Hg) Ea) as (Hg2 & Hmono2 & Hv2).
    destruct r2 as [[v errs]|err]; [|intros [= <- <-]; naive_solver].
    intros [= <- <-]. split; [done|]. split; [by auto|]. intros v' errs' [= <- <-].
    destruct (Hv2 _ _ eq_refl) as [Hnd Hall]. cbn. split.
    + constructor; [|done]. intros (e' & He' & Hin)%list_elem_of_fmap.
      destruct (Hall e' Hin) as (x & Hx & Hns & _). apply Hns.
      rewrite Hh, Hx in He'. injection He' as <-. by apply Hx1.
    + intros e' [->|He']%elem_of_cons; [by eauto 6|].
      destruct (Hall e' He') as (x & ? & ? & ?). exists x. naive_solver.
  - destruct (ChainProtectedAsync.validate_all display now evts (sy, conv)) as [r2 s2] eqn:Ea.
    destruct (IH (sy, conv) r2 s2 Hg Ea) as (Hg2 & Hmono2 & Hv2).
    destruct r2 as [[v errs]|err2]; intros [= <- <-]; naive_solver.
Qed.
End guard.

Section replay.
Context {W L : Type} `{CryptoPrims} `{KemPrims} `{MetaSerializer}.
Context `{!LogFile W L} `{!LogFileSpec W L}.
Variable display : ValidationErrorKind → string.
Variable U : AteHash → option EventWeakData.
Implicit Types (e : EventWeakData) (a : ChainProtectedAsync L) (w : W)
  (stored es : list EventWeakData) (s : SyncState).

(** The events are stored once each, and a plugin has seen them all. *)
Record guarded stored s : Prop := {
  gd_once : NoDup (hash_of <$> stored);
  gd_guard : has_guard (cs_plugins s.1);
  gd_seen : ∀ e, e ∈ stored → ∃ x, hash_of e = Some x ∧ seen (cs_plugins s.1) x;
}.

(** Batches that are fed one after the other, each at its time, whatever comes of them. *)
Definition feed_log (batches : list (option Z * list EventWeakData))
    (st0 : W * ChainProtectedAsync L * SyncState) : W * ChainProtectedAsync L * SyncState :=
  foldl (λ st0 b, (ChainProtectedAsync.feed_async_internal display b.1 b.2 st0).2) st0 batches.

Lemma stored_of_sublist mode (v : list (EventWeakData * EventHeader)) :
  stored_of mode v `sublist_of` v.*1.
Proof. apply sublist_fmap, sublist_filter. Qed.

Lemma guarded_grows stored s now evts v errs s' mode : guarded stored s →
  ChainProtectedAsync.validate_all display now evts s = (Ok (v, errs), s') →
  guarded (stored ++ stored_of mode v) s'.
Proof.
  intros [Hnd Hg Hseen] Ha.
  destruct (validate_all_seen display now evts s _ s' Hg Ha) as (Hg' & Hmono & Hv).
  destruct (Hv _ _ eq_refl) as [Hnd' Hnew]. pose proof (stored_of_sublist mode v) as Hsub.
  split; [|done|].
  - rewrite fmap_app. apply NoDup_app. split; [done|]. split.
    + intros o (e & -> & He)%list_elem_of_fmap (e' & Heq & He')%list_elem_of_fmap.
      destruct (Hseen e He) as (x & Hx & Hs).
      destruct (Hnew e') as (x' & Hx' & Hns & _); [by apply (elem_of_sublist _ _ _ He')|].
      apply Hns. congruence.
    + eapply sublist_NoDup; [exact Hnd'|]. by apply sublist_fmap.
  - intros e [He|He]%elem_of_app; [destruct (Hseen e He) as (x & ? & ?); eauto|].
    destruct (Hnew e) as (x & ? & _ & ?); [by apply (elem_of_sublist _ _ _ He)|]. eauto.
Qed.

Lemma guarded_kept stored s now evts err s' : guarded stored s →
  ChainProtectedAsync.validate_all display now evts s = (Err err, s') → guarded stored s'.
Proof.
  intros [Hnd Hg Hseen] Ha.
  destruct (validate_all_seen display now evts s _ s' Hg Ha) as (Hg' & Hmono & _).
  split; [done..|]. intros e He. destruct (Hseen e He) as (x & ? & ?). eauto.
Qed.

(** C7. No event is stored twice.  Feed a chain with an anti-replay plugin any batches, at
    any times, with events repeated within a batch or across batches: the chain stays in
    step with its log, and every event it holds, it holds once. *)
Theorem no_event_twice stored w a s (batches : list (option Z * list EventWeakData))
  (Hst : chain_state U stored w a) (Hg : guarded stored s)
  (Hplay : Forall (λ b, Forall (in_play U) b.2) batches) :
  let '(w', a', s') := feed_log batches (w, a, s) in
  ∃ es, chain_state U (stored ++ es) w' a' ∧ guarded (stored ++ es) s'.
Proof.
  unfold feed_log. revert stored w a s Hst Hg.
  induction Hplay as [|[now evts] batches Hb Hrest IH]; intros stored w a s Hst Hg; cbn [foldl].
  { exists []. by rewrite app_nil_r. }
  unfold ChainProtectedAsync.feed_async_internal at 2, st_mk. cbn [fst snd] in *.
  destruct (ChainProtectedAsync.validate_all display now evts s) as [[[v errs]|err] s1] eqn:E.
  2: { cbn [snd]. apply IH; [done|]. by eapply guarded_kept. }
  destruct (validate_all_sublist _ _ _ _ _ _ _ E) as (Hsub & Hh & _).
  destruct (store_ok U stored w a v Hst) as (w' & a' & -> & Hst' & _); [|done|].
  { rewrite Forall_forall in *. intros e He. apply Hb. by apply (elem_of_sublist _ _ _ He). }
  cbn [snd]. specialize (IH _ w' a' s1 Hst' (guarded_grows _ _ _ _ _ _ _ _ Hg E)).
  destruct (foldl _ _ batches) as [[w2 a2] s2]. destruct IH as (es & ? & ?).
  exists (stored_of (ca_integrity a) v ++ es). by rewrite app_assoc.
Qed.

(** A batch that fails on the way blocks what it had admitted.  When a batch fails after
    its first event was admitted, nothing of the batch is stored; but feeding that event
    again, alone and at any time, is refused as a replay: the chain will not take it. *)
Theorem failed_batch_blocks_retry w a s now now' e es (h : EventHeader) (err : CommitErrorKind) s1
  (Hg : has_guard (cs_plugins s.1)) (Hh : EventWeakData.as_header e = Ok h)
  (Hvalid : ChainProtectedSync.validate_event display s.1 now h s.2 = Ok Allow)
  (Hfed : (ChainProtectedAsync.feed_sync h s).1 = Ok ())
  (Hfail : ChainProtectedAsync.validate_all display now (e :: es) s = (Err err, s1)) :
  ChainProtectedAsync.feed_async_internal display now (e :: es) (w, a, s) = (Err err, (w, a, s1))
  ∧ ∃ denied, ChainProtectedAsync.feed_async_internal display now' [e] (w, a, s1)
              = (Err (CommitValidation denied), (w, a, s1)).
Proof.
  split; [unfold ChainProtectedAsync.feed_async_internal, st_mk; by rewrite Hfail|].
  destruct s as [sy conv]. revert Hfail. cbn [ChainProtectedAsync.validate_all fst snd] in *.
  unfold st_mk at 1. rewrite Hh, Hvalid. unfold mbind, st_bind, st_map_err.
  destruct (ChainProtectedAsync.feed_sync h (sy, conv)) as [r s2] eqn:Ef. cbn in Hfed. subst r.
  destruct (feed_sync_seen _ _ _ _ Ef) as (Hg2 & _ & Hx). cbn [map_err].
  destruct (ChainProtectedAsync.validate_all display now es s2) as [r3 s3] eqn:Ea.
  destruct (validate_all_seen display now es s2 _ _ (Hg2 Hg) Ea) as (_ & Hmono & _).
  destruct r3 as [[v errs]|err3]; [done|]. intros [= -> ->].
  destruct s1 as [sy1 conv1].
  destruct (seen_denied display sy1 now' h conv1) as (d & Hd); [by apply Hmono, Hx|].
  exists d. unfold ChainProtectedAsync.feed_async_internal, st_mk.
  cbn [ChainProtectedAsync.validate_all]. unfold st_mk. rewrite Hh, Hd. reflexivity.
Qed.
End replay.

(** ** Concrete inputs, on the in-memory log *)

#[local] Existing Instance toy_prims.
#[local] Existing Instance toy_kem.
#[local] Existing Instance toy_serializer.
#[local] Existing Instance toy_header.

Lemma empty_guarded : guarded [] (sample_sync [], None).
Proof.
  split; [constructor| |by intros e He%elem_of_nil].
  exists AntiReplayPlugin.new. left.
Qed.

Lemma no_event_twice_witness :
  let '(w, a, _) := feed_log no_display
    [(five_seconds, [first_write; first_write]); (five_seconds, [second_write; first_write])]
    ((), empty_chain Distributed, (sample_sync [], None)) in
  ∃ es, chain_state four_universe es w a ∧ NoDup (hash_of <$> es).
Proof.
  pose proof (no_event_twice no_display four_universe [] () (empty_chain Distributed)
    (sample_sync [], None)
    [(five_seconds, [first_write; first_write]); (five_seconds, [second_write; first_write])]
    (empty_state _ _) empty_guarded) as Hn.
  destruct (feed_log _ _ _) as [[w a] s]. destruct Hn as (es & Hst & Hg).
  - pose proof four_in_play as Hp. unfold four_events in Hp. rewrite !Forall_cons in Hp.
    repeat constructor; apply Hp.
  - exists es. split; [exact Hst|]. apply Hg.
Defined.

(** An event that does not serialize. *)
Definition unserializable : EventWeakData := dated 2000 (CoreAuthor "someone") BytesNone.

Lemma unserializable_fails :
  ∃ err, (ChainProtectedAsync.validate_all no_display five_seconds [first_write; unserializable]
            (sample_sync [], None)).1 = Err err.
Proof. eexists. vm_compute. reflexivity. Qed.

Lemma first_admitted : match EventWeakData.as_header first_write with
  | Ok h => ChainProtectedSync.validate_event no_display (sample_sync []) five_seconds h None = Ok Allow
            ∧ (ChainProtectedAsync.feed_sync h (sample_sync [], None)).1 = Ok ()
  | Err _ => False
  end.
Proof. vm_compute. done. Qed.

Lemma failed_batch_blocks_retry_witness :
  ∃ s err denied,
    ChainProtectedAsync.feed_async_internal no_display five_seconds [first_write; unserializable]
      ((), empty_chain Distributed, (sample_sync [], None))
    = (Err err, ((), empty_chain Distributed, s))
    ∧ ChainProtectedAsync.feed_async_internal no_display five_seconds [first_write]
        ((), empty_chain Distributed, s)
      = (Err (CommitValidation denied), ((), empty_chain Distributed, s)).
Proof.
  destruct unserializable_fails as [err Herr].
  destruct (ChainProtectedAsync.validate_all no_display five_seconds [first_write; unserializable]
    (sample_sync [], None)) as [r s1] eqn:E. cbn [fst] in Herr. subst r.
  pose proof first_admitted as Ha.
  destruct (EventWeakData.as_header first_write) as [h|] eqn:Eh; [|destruct Ha].
  destruct (failed_batch_blocks_retry no_display () (empty_chain Distributed) (sample_sync [], None)
    five_seconds five_seconds first_write [unserializable] h err s1 (gd_guard _ _ empty_guarded)
    Eh (proj1 Ha) (proj2 Ha) E) as [H1 [denied H2]].
  exists s1, err, denied. split; [exact H1 | exact H2].
Defined.

(** A hundred seconds into the epoch. *)
Definition later : option Z := Some 100000000000.

(** A compaction lets go of the events it drops.  Record 1 is written twice; feeding the
    first write again is refused as a replay.  After a compaction, which drops the first
    write, the same event is admitted, and becomes the current value of the record. *)
Theorem compacted_event_replays :
  let feed := ChainProtectedAsync.feed_async_internal no_display later in
  let '(_, (w, a, s)) := feed [first_write; second_write]
                           ((), empty_chain Distributed, (sample_sync [], None)) in
  let '(refused, _) := feed [first_write] (w, a, s) in
  let '(compacted, st1) :=
    Compaction.compact_ext no_display sample_keeper (λ _, later) [] [] [] (w, a, s) in
  let '(replayed, (_, a2, _)) := feed [first_write] st1 in
  let value a := leaf_record <$> ChainOfTrust.lookup_primary (ca_chain a) (PrimaryKey.new 1) in
  (∃ d, refused = Err (CommitValidation d)) ∧ value a = hash_of second_write
  ∧ compacted = Ok () ∧ replayed = Ok () ∧ value a2 = hash_of first_write
  ∧ hash_of first_write ≠ hash_of second_write.
Proof. vm_compute. split_and!; try done; eauto. Qed.
