(* ===== verification/Pipe.v ===== *)
(** * Pipes

    lib/src/pipe.rs, lib/src/chain/inbox_pipe.rs and the worker of lib/src/chain/workers.rs:
    how a transaction reaches a chain, how the data of a record is fetched through a pipe,
    and how records are locked.  A pipe is a record of operations on the state it shares
    with the others; the pipe of a chain is the inbox alone, or a second pipe (a session
    with another node) put before the inbox. *)

From S2P Require Import Prelude LogApi Crypto Codec Secure Meta Time Event Index Signature Tree Compact Plugins LogFile MemDb RedoLog Chain ChainSpec.

(** ** Transactions *)

Inductive TransactionScope : Type := ScopeNone | ScopeLocal | ScopeFull.

#[global] Instance TransactionScope_eq_dec : EqDecision TransactionScope.
Proof. solve_decision. Defined.

(** The conversation of a transaction is part of the state it is fed to. *)
Record Transaction : Type := {
  tr_scope : TransactionScope;
  tr_transmit : bool;
  tr_events : list EventWeakData;
  tr_timeout : Z;
}.

Module Transaction.
Definition from_events (events : list EventWeakData) (scope : TransactionScope)
    (transmit : bool) (timeout : Z) : Transaction :=
  {| tr_scope := scope; tr_transmit := transmit; tr_events := events; tr_timeout := timeout |}.
End Transaction.

(** [LoadErrorKind], the kinds that loading through a chain raises. *)
Inductive ReadErrorKind : Type :=
  | ReadLog (e : LoadErrorKind)
  | ReadMissingData
  | ReadDisconnected.

(** A commit that panics: a full transaction whose flush fails. *)
Inductive FeedErrorKind : Type :=
  | FeedCommit (e : CommitErrorKind)
  | FeedPanic.

(** ** The trait *)

Record EventPipe (S : Type) : Type := {
  ep_is_connected : S → bool;
  ep_feed : Transaction → st S FeedErrorKind unit;
  ep_load_many : list AteHash → st S ReadErrorKind (list (option bytes));
  ep_prime : list (AteHash * option bytes) → st S FeedErrorKind unit;
  ep_try_lock : PrimaryKey → st S FeedErrorKind bool;
  ep_unlock : PrimaryKey → st S FeedErrorKind unit;
  ep_unlock_local : PrimaryKey → st S FeedErrorKind unit;
}.
Arguments ep_is_connected {S} e s.
Arguments ep_feed {S} e t s.
Arguments ep_load_many {S} e leafs s.
Arguments ep_prime {S} e records s.
Arguments ep_try_lock {S} e key s.
Arguments ep_unlock {S} e key s.
Arguments ep_unlock_local {S} e key s.

Module NullPipe.
Section ops.
Context {S : Type}.

Definition new : EventPipe S := {|
  ep_is_connected _ := true;
  ep_feed _ := mret ();
  ep_load_many leafs := mret ((λ _, None) <$> leafs);
  ep_prime _ := mret ();
  ep_try_lock _ := mret false;
  ep_unlock _ := mret ();
  ep_unlock_local _ := mret ();
|}.
End ops.
End NullPipe.

Module DuelPipe.
Section ops.
Context {S : Type}.
Variables first second : EventPipe S.

(** Both are fed, one after the other; the error of the first comes first. *)
Definition feed (work : Transaction) : st S FeedErrorKind unit :=
  st_mk (λ s,
    let '(r1, s) := ep_feed first work s in
    let '(r2, s) := ep_feed second work s in
    (_ ← r1; _ ← r2; Ok (), s)).

(** What both answered, item by item: data before the absence of data. *)
Fixpoint merge (xs ys : list (option bytes)) : list (option bytes) :=
  match xs, ys with
  | [], [] => []
  | Some a :: xs, _ :: ys => Some a :: merge xs ys
  | None :: xs, y :: ys => y :: merge xs ys
  | xs, [] => xs
  | [], ys => ys
  end.

Definition load_many (leafs : list AteHash) : st S ReadErrorKind (list (option bytes)) :=
  st_mk (λ s,
    let '(r1, s) := ep_load_many first leafs s in
    let '(r2, s) := ep_load_many second leafs s in
    (match r1, r2 with
     | Ok xs, Ok ys => Ok (merge xs ys)
     | Ok xs, Err _ => Ok xs
     | Err _, Ok ys => Ok ys
     | Err e, Err _ => Err e
     end, s)).

Definition prime (records : list (AteHash * option bytes)) : st S FeedErrorKind unit :=
  st_mk (λ s,
    let '(r1, s) := ep_prime first records s in
    let '(r2, s) := ep_prime second records s in
    (_ ← r1; _ ← r2; Ok (), s)).

(** The second is asked when the first has not given the lock. *)
Definition try_lock (key : PrimaryKey) : st S FeedErrorKind bool :=
  a ← ep_try_lock first key;
  if (a : bool) then mret true else ep_try_lock second key.

Definition unlock (key : PrimaryKey) : st S FeedErrorKind unit :=
  _ ← ep_unlock first key; ep_unlock second key.

Definition unlock_local (key : PrimaryKey) : st S FeedErrorKind unit :=
  _ ← ep_unlock_local first key; ep_unlock_local second key.

Definition new : EventPipe S := {|
  ep_is_connected s := ep_is_connected first s && ep_is_connected second s;
  ep_feed := feed;
  ep_load_many := load_many;
  ep_prime := prime;
  ep_try_lock := try_lock;
  ep_unlock := unlock;
  ep_unlock_local := unlock_local;
|}.
End ops.
End DuelPipe.

(** ** A chain and its inbox *)

(** What the parts of an open chain share.  [nd_decache] are the messages that were sent
    to invalidate caches, [nd_log_size] is the size the compaction worker watches. *)
Record Node (W L : Type) : Type := {
  nd_world : W;
  nd_async : ChainProtectedAsync L;
  nd_sync : SyncState;
  nd_locks : gset PrimaryKey;
  nd_decache : list (list PrimaryKey);
  nd_log_size : Z;
}.
Arguments nd_world {W L} n.
Arguments nd_async {W L} n.
Arguments nd_sync {W L} n.
Arguments nd_locks {W L} n.
Arguments nd_decache {W L} n.
Arguments nd_log_size {W L} n.

Module Node.
Section ops.
Context {W L : Type}.

Definition with_chain (n : Node W L) (w : W) (a : ChainProtectedAsync L) : Node W L :=
  {| nd_world := w; nd_async := a; nd_sync := nd_sync n; nd_locks := nd_locks n;
     nd_decache := nd_decache n; nd_log_size := nd_log_size n |}.

Definition with_sync (n : Node W L) (s : SyncState) : Node W L :=
  {| nd_world := nd_world n; nd_async := nd_async n; nd_sync := s; nd_locks := nd_locks n;
     nd_decache := nd_decache n; nd_log_size := nd_log_size n |}.

Definition with_locks (n : Node W L) (locks : gset PrimaryKey) : Node W L :=
  {| nd_world := nd_world n; nd_async := nd_async n; nd_sync := nd_sync n; nd_locks := locks;
     nd_decache := nd_decache n; nd_log_size := nd_log_size n |}.

Definition with_decache (n : Node W L) (d : list (list PrimaryKey)) : Node W L :=
  {| nd_world := nd_world n; nd_async := nd_async n; nd_sync := nd_sync n;
     nd_locks := nd_locks n; nd_decache := d; nd_log_size := nd_log_size n |}.

Definition with_log_size (n : Node W L) (z : Z) : Node W L :=
  {| nd_world := nd_world n; nd_async := nd_async n; nd_sync := nd_sync n;
     nd_locks := nd_locks n; nd_decache := nd_decache n; nd_log_size := z |}.
End ops.
End Node.

Module InboxPipe.
Section ops.
Context {W L : Type} `{CryptoPrims} `{KemPrims} `{MetaSerializer} `{LogFile W L}.
Variable display : ValidationErrorKind → string.
(** The reading of the clock. *)
Variable now : option Z.

Definition on_async {E A} (f : st (W * ChainProtectedAsync L) E A) : st (Node W L) E A :=
  st_mk (λ n,
    let '(r, (w, a)) := f (nd_world n, nd_async n) in (r, Node.with_chain n w a)).

(** [ChainWorkProcessor::process], without the listeners and services it notifies.  A
    transaction that is not full is flushed late, and what comes of it is ignored. *)
Definition process (work : Transaction) : st (Node W L) FeedErrorKind unit :=
  st_mk (λ n,
    let '(r, (w, a, s)) :=
      ChainProtectedAsync.feed_async_internal display now (tr_events work)
        (nd_world n, nd_async n, nd_sync n) in
    let n := Node.with_sync (Node.with_chain n w a) s in
    match r with
    | Err e => (Err (FeedCommit e), n)
    | Ok _ =>
        let n := Node.with_log_size n (RedoLog.size (co_redo (ca_chain a))) in
        let '(r, n) := on_async (ChainProtectedAsync.on_chain ChainOfTrust.flush) n in
        match tr_scope work, r with
        | ScopeFull, Err _ => (Err FeedPanic, n)
        | _, _ => (Ok (), n)
        end
    end).

Definition feed (work : Transaction) : st (Node W L) FeedErrorKind unit :=
  let decache := omap (λ a, Metadata.get_data_key (ew_meta a)) (tr_events work) in
  _ ← process work;
  st_mk (λ n, (Ok (), Node.with_decache n (nd_decache n ++ [decache]))).

Definition strong_bytes (b : MessageBytes) : result ReadErrorKind (option bytes) :=
  match b with
  | BytesSome a => Ok (Some a)
  | BytesLazySome _ => Err ReadMissingData
  | BytesNone => Ok None
  end.

Fixpoint all_strong (l : list LoadWeakResult) : result ReadErrorKind (list (option bytes)) :=
  match l with
  | [] => Ok []
  | d :: l => a ← strong_bytes (ew_data_bytes (lw_data d)); rest ← all_strong l; Ok (a :: rest)
  end.

Definition load_many (leafs : list AteHash) : st (Node W L) ReadErrorKind (list (option bytes)) :=
  data ← st_map_err ReadLog (on_async (ChainProtectedAsync.on_chain (ChainOfTrust.load_many
           ((λ r, {| leaf_record := r; leaf_created := 0; leaf_updated := 0 |}) <$> leafs))));
  st_mk (λ n, (all_strong data, n)).

Definition prime (records : list (AteHash * option bytes)) : st (Node W L) FeedErrorKind unit :=
  st_mk (λ n,
    (Ok (), Node.with_chain n (nd_world n)
       (ChainProtectedAsync.with_chain (nd_async n)
          (ChainOfTrust.prime records (ca_chain (nd_async n)))))).

Definition try_lock (key : PrimaryKey) : st (Node W L) FeedErrorKind bool :=
  st_mk (λ n,
    if decide (key ∈ nd_locks n) then (Ok false, n)
    else (Ok true, Node.with_locks n ({[key]} ∪ nd_locks n))).

Definition unlock (key : PrimaryKey) : st (Node W L) FeedErrorKind unit :=
  st_mk (λ n, (Ok (), Node.with_locks n (nd_locks n ∖ {[key]}))).

Definition new : EventPipe (Node W L) := {|
  ep_is_connected _ := true;
  ep_feed := feed;
  ep_load_many := load_many;
  ep_prime := prime;
  ep_try_lock := try_lock;
  ep_unlock := unlock;
  ep_unlock_local := unlock;
|}.
End ops.
End InboxPipe.
