(* ===== verification/Dio.v ===== *)
(** * The data layer

    lib/src/dio: records as typed rows ([Dio], [DioMut], [Dao], [DaoMut]), the changes a
    transaction gathers until it is committed, how a commit turns them into events of the
    chain, and the cache a reader keeps of what it loaded.  The type of the records is any
    type that serializes.  A chain is a [Node] reached through a pipe. *)

From S2P Require Import Prelude LogApi Crypto Codec Secure Meta Time Event Index Signature Tree Compact Plugins LogFile MemDb RedoLog Chain ChainSpec Pipe.

(** serde on the type of a record, and its name. *)
Class DataSerializer (D : Type) : Type := {
  data_serialize : SerializationFormat → D → result SerializationErrorKind bytes;
  data_deserialize : SerializationFormat → bytes → result SerializationErrorKind D;
  data_type_name : string;
  data_round_trip : ∀ f x bs, data_serialize f x = Ok bs → data_deserialize f bs = Ok x;
}.

(** [SerializationErrorKind], the kinds that rows raise. *)
Inductive RowErrorKind : Type :=
  | RowSerde (e : SerializationErrorKind)
  | RowNoPrimaryKey
  | RowNoData
  | RowStillLocked (key : PrimaryKey)
  | RowAlreadyDeleted (key : PrimaryKey).

(** [LoadErrorKind], the kinds that loading a record raises. *)
Inductive DioLoadErrorKind : Type :=
  | DioRead (e : ReadErrorKind)
  | DioSerialization (e : RowErrorKind)
  | DioTransformation (e : TransformErrorKind)
  | NotFound (key : PrimaryKey)
  | ObjectStillLocked (key : PrimaryKey)
  | AlreadyDeleted (key : PrimaryKey)
  | NoPrimaryKey.

(** [CommitErrorKind], the kinds that committing a transaction raises. *)
Inductive DioCommitErrorKind : Type :=
  | DioFeed (e : FeedErrorKind)
  | DioTime (e : TimeErrorKind)
  | DioLint (e : LintErrorKind)
  | DioCommitTransform (e : TransformErrorKind)
  | DioCommitSerialization (e : SerializationErrorKind)
  | NewRootsAreDisabled.

(** ** Rows *)

Record RowHeader : Type := {
  rwh_key : PrimaryKey;
  rwh_parent : option MetaParent;
  rwh_auth : MetaAuthorization;
}.

(** The hash set [collections] is a list: it is only handed on. *)
Record Row (D : Type) : Type := {
  row_key : PrimaryKey;
  row_type_name : string;
  row_created : Z;
  row_updated : Z;
  row_format : MessageFormat;
  row_data : D;
  row_collections : list MetaCollection;
  row_extra_meta : list CoreMetadata;
  row_is_new : bool;
}.
Arguments row_key {D} r.
Arguments row_type_name {D} r.
Arguments row_created {D} r.
Arguments row_updated {D} r.
Arguments row_format {D} r.
Arguments row_data {D} r.
Arguments row_collections {D} r.
Arguments row_extra_meta {D} r.
Arguments row_is_new {D} r.

Record RowData : Type := {
  rdt_key : PrimaryKey;
  rdt_type_name : string;
  rdt_format : MessageFormat;
  rdt_data_hash : AteHash;
  rdt_data : bytes;
  rdt_collections : list MetaCollection;
  rdt_created : Z;
  rdt_updated : Z;
  rdt_extra_meta : list CoreMetadata;
  rdt_parent : option MetaParent;
  rdt_auth : MetaAuthorization;
  rdt_is_new : bool;
}.

Module Row.
Section ops.
Context {D : Type} `{CryptoPrims} `{DataSerializer D}.

Definition from_event (evt : EventStrongData) (created updated : Z)
    : result RowErrorKind (RowHeader * Row D) :=
  match Metadata.get_data_key (es_meta evt) with
  | None => Err RowNoPrimaryKey
  | Some key =>
      match es_data_bytes evt with
      | None => Err RowNoData
      | Some data =>
          let auth := default inherit_auth (Metadata.get_authorization (es_meta evt)) in
          x ← map_err RowSerde (data_deserialize (mf_data (es_format evt)) data);
          Ok ({| rwh_key := key; rwh_parent := Metadata.get_parent (es_meta evt);
                 rwh_auth := auth |},
              {| row_key := key; row_type_name := data_type_name; row_created := created;
                 row_updated := updated; row_format := es_format evt; row_data := x;
                 row_collections := Metadata.get_collections (es_meta evt);
                 row_extra_meta := []; row_is_new := false |})
      end
  end.

Definition from_row_data (row : RowData) : result RowErrorKind (RowHeader * Row D) :=
  x ← map_err RowSerde (data_deserialize (mf_data (rdt_format row)) (rdt_data row));
  Ok ({| rwh_key := rdt_key row; rwh_parent := rdt_parent row; rwh_auth := rdt_auth row |},
      {| row_key := rdt_key row; row_type_name := rdt_type_name row;
         row_created := rdt_created row; row_updated := rdt_updated row;
         row_format := rdt_format row; row_data := x; row_collections := rdt_collections row;
         row_extra_meta := rdt_extra_meta row; row_is_new := false |}).

Definition as_row_data (row : Row D) (header : RowHeader) : result RowErrorKind RowData :=
  data ← map_err RowSerde (data_serialize (mf_data (row_format row)) (row_data row));
  Ok {| rdt_key := row_key row; rdt_type_name := row_type_name row;
        rdt_format := row_format row; rdt_data_hash := AteHash.from_bytes data;
        rdt_data := data; rdt_collections := row_collections row;
        rdt_created := row_created row; rdt_updated := row_updated row;
        rdt_extra_meta := row_extra_meta row; rdt_parent := rwh_parent header;
        rdt_auth := rwh_auth header; rdt_is_new := row_is_new row |}.
End ops.
End Row.

(** ** What a transaction gathers *)

Record DioMutState : Type := {
  dm_store_ordered : list RowHeader;
  dm_store_secondary : gmap MetaCollection (list PrimaryKey);
  dm_rows : gmap PrimaryKey RowData;
  dm_locked : gset PrimaryKey;
  dm_deleted : gset PrimaryKey;
  dm_pipe_unlock : gset PrimaryKey;
  dm_auto_cancel : bool;
}.

Module DioMutState.
Definition new : DioMutState :=
  {| dm_store_ordered := []; dm_store_secondary := ∅; dm_rows := ∅; dm_locked := ∅;
     dm_deleted := ∅; dm_pipe_unlock := ∅; dm_auto_cancel := true |}.

Definition clear (m : DioMutState) : DioMutState :=
  {| dm_store_ordered := []; dm_store_secondary := ∅; dm_rows := ∅; dm_locked := ∅;
     dm_deleted := ∅; dm_pipe_unlock := ∅; dm_auto_cancel := dm_auto_cancel m |}.

(** A key is listed under its parent's collection, once. *)
Definition list_under (parent : option MetaParent) (key : PrimaryKey)
    (sec : gmap MetaCollection (list PrimaryKey)) : gmap MetaCollection (list PrimaryKey) :=
  match parent with
  | None => sec
  | Some p =>
      let keys := default [] (sec !! mp_vec p) in
      if decide (key ∈ keys) then sec else <[mp_vec p := keys ++ [key]]> sec
  end.

(** The last header is replaced when it is of the same row; [true] when the row has to be
    saved as well. *)
Definition dirty_header (header : RowHeader) (m : DioMutState) : bool * DioMutState :=
  let same := match last (dm_store_ordered m) with
              | Some row => bool_decide (rwh_key row = rwh_key header)
              | None => false
              end in
  (negb same,
   {| dm_store_ordered := (if same then removelast (dm_store_ordered m)
                           else dm_store_ordered m) ++ [header];
      dm_store_secondary := list_under (rwh_parent header) (rwh_key header) (dm_store_secondary m);
      dm_rows := dm_rows m; dm_locked := dm_locked m; dm_deleted := dm_deleted m;
      dm_pipe_unlock := dm_pipe_unlock m; dm_auto_cancel := dm_auto_cancel m |}).

(** [false] when the data is what it was. *)
Definition dirty_row (row : RowData) (m : DioMutState) : bool * DioMutState :=
  let same := match dm_rows m !! rdt_key row with
              | Some existing => bool_decide (rdt_data_hash existing = rdt_data_hash row)
              | None => false
              end in
  (negb same,
   {| dm_store_ordered := dm_store_ordered m;
      dm_store_secondary := list_under (rdt_parent row) (rdt_key row) (dm_store_secondary m);
      dm_rows := <[rdt_key row := row]> (dm_rows m); dm_locked := dm_locked m;
      dm_deleted := dm_deleted m; dm_pipe_unlock := dm_pipe_unlock m;
      dm_auto_cancel := dm_auto_cancel m |}).

Definition with_locked (m : DioMutState) (locked : gset PrimaryKey) : DioMutState :=
  {| dm_store_ordered := dm_store_ordered m; dm_store_secondary := dm_store_secondary m;
     dm_rows := dm_rows m; dm_locked := locked; dm_deleted := dm_deleted m;
     dm_pipe_unlock := dm_pipe_unlock m; dm_auto_cancel := dm_auto_cancel m |}.

Definition lock (key : PrimaryKey) (m : DioMutState) : DioMutState :=
  with_locked m (dm_locked m ∪ {[key]}).

Definition unlock (key : PrimaryKey) (m : DioMutState) : DioMutState :=
  with_locked m (dm_locked m ∖ {[key]}).

Definition is_locked (key : PrimaryKey) (m : DioMutState) : bool := bool_decide (key ∈ dm_locked m).

Definition unlock_later (key : PrimaryKey) (m : DioMutState) : DioMutState :=
  {| dm_store_ordered := dm_store_ordered m; dm_store_secondary := dm_store_secondary m;
     dm_rows := dm_rows m; dm_locked := dm_locked m; dm_deleted := dm_deleted m;
     dm_pipe_unlock := dm_pipe_unlock m ∪ {[key]}; dm_auto_cancel := dm_auto_cancel m |}.

(** [retain] keeps the elements its closure holds of. *)
Definition add_deleted (key : PrimaryKey) (parent : option MetaParent) (m : DioMutState)
    : DioMutState :=
  let m := lock key m in
  {| dm_store_ordered := dm_store_ordered m;
     dm_store_secondary :=
       match parent with
       | Some tree => alter (List.filter (λ x, bool_decide (x = key))) (mp_vec tree)
                        (dm_store_secondary m)
       | None => dm_store_secondary m
       end;
     dm_rows := delete key (dm_rows m); dm_locked := dm_locked m;
     dm_deleted := dm_deleted m ∪ {[key]}; dm_pipe_unlock := dm_pipe_unlock m;
     dm_auto_cancel := dm_auto_cancel m |}.

Definition forget_header (key : PrimaryKey) (m : DioMutState) : DioMutState :=
  {| dm_store_ordered := List.filter (λ a, negb (bool_decide (rwh_key a = key))) (dm_store_ordered m);
     dm_store_secondary := dm_store_secondary m; dm_rows := dm_rows m; dm_locked := dm_locked m;
     dm_deleted := dm_deleted m; dm_pipe_unlock := dm_pipe_unlock m;
     dm_auto_cancel := dm_auto_cancel m |}.

Definition has_uncommitted (m : DioMutState) : bool :=
  negb (bool_decide (dm_store_ordered m = []) && bool_decide (dm_deleted m = ∅)).
End DioMutState.

(** ** Records that can be changed *)

Inductive DaoMutLock : Type := Unlocked | Locked | LockedThenDelete.

#[global] Instance DaoMutLock_eq_dec : EqDecision DaoMutLock.
Proof. solve_decision. Defined.

(** [Dao] is the header and the row; [DaoMut] has its lock as well.  The transaction it
    belongs to is the state the operations work on. *)
Record DaoMut (D : Type) : Type := {
  dao_header : RowHeader;
  dao_row : Row D;
  dao_lock : DaoMutLock;
}.
Arguments dao_header {D} d.
Arguments dao_row {D} d.
Arguments dao_lock {D} d.

Module DaoMut.
Section ops.
Context {D : Type} `{CryptoPrims} `{DataSerializer D}.

Definition new (dao : RowHeader * Row D) : DaoMut D :=
  {| dao_header := fst dao; dao_row := snd dao; dao_lock := Unlocked |}.

Definition key (dao : DaoMut D) : PrimaryKey := row_key (dao_row dao).

Definition with_header (dao : DaoMut D) (h : RowHeader) : DaoMut D :=
  {| dao_header := h; dao_row := dao_row dao; dao_lock := dao_lock dao |}.

Definition with_data (dao : DaoMut D) (x : D) : DaoMut D :=
  {| dao_header := dao_header dao;
     dao_row := {| row_key := row_key (dao_row dao); row_type_name := row_type_name (dao_row dao);
                   row_created := row_created (dao_row dao);
                   row_updated := row_updated (dao_row dao);
                   row_format := row_format (dao_row dao); row_data := x;
                   row_collections := row_collections (dao_row dao);
                   row_extra_meta := row_extra_meta (dao_row dao);
                   row_is_new := row_is_new (dao_row dao) |};
     dao_lock := dao_lock dao |}.

Definition save_row (dao : DaoMut D) : st DioMutState RowErrorKind bool :=
  st_mk (λ m,
    match Row.as_row_data (dao_row dao) (dao_header dao) with
    | Err e => (Err e, m)
    | Ok row => let '(b, m) := DioMutState.dirty_row row m in (Ok b, m)
    end).

Definition commit (header_changed data_changed : bool) (dao : DaoMut D)
    : st DioMutState RowErrorKind unit :=
  st_mk (λ m,
    let m := DioMutState.unlock (key dao) m in
    match dao_lock dao with
    | LockedThenDelete =>
        (Ok (), DioMutState.add_deleted (key dao) (rwh_parent (dao_header dao))
                  (DioMutState.unlock_later (key dao) m))
    | lock =>
        let m := if decide (lock = Locked) then DioMutState.unlock_later (key dao) m else m in
        (wrote_data ← (if data_changed then save_row dao else mret false);
         if header_changed || (wrote_data : bool) then
           save ← st_mk (λ m, let '(b, m) := DioMutState.dirty_header (dao_header dao) m in (Ok b, m));
           if (save : bool) && negb wrote_data then _ ← save_row dao; mret () else mret ()
         else mret ()) m
    end).

Definition auth_set (auth : MetaAuthorization) (dao : DaoMut D)
    : st DioMutState RowErrorKind (DaoMut D) :=
  let dao := with_header dao {| rwh_key := rwh_key (dao_header dao);
                                rwh_parent := rwh_parent (dao_header dao); rwh_auth := auth |} in
  _ ← commit true false dao; mret dao.

Definition set_parent (parent : option MetaParent) (dao : DaoMut D)
    : st DioMutState RowErrorKind (DaoMut D) :=
  let dao := with_header dao {| rwh_key := rwh_key (dao_header dao); rwh_parent := parent;
                                rwh_auth := rwh_auth (dao_header dao) |} in
  _ ← commit true false dao; mret dao.

Definition detach (dao : DaoMut D) : st DioMutState RowErrorKind (DaoMut D) := set_parent None dao.

Definition attach_ext (parent : PrimaryKey) (collection_id : Z) (dao : DaoMut D)
    : st DioMutState RowErrorKind (DaoMut D) :=
  set_parent (Some {| mp_vec := {| mc_parent_id := parent; mc_collection_id := collection_id |} |})
    dao.

Definition add_extra_metadata (meta : CoreMetadata) (dao : DaoMut D)
    : st DioMutState RowErrorKind (DaoMut D) :=
  let r := dao_row dao in
  let dao := {| dao_header := dao_header dao;
                dao_row := {| row_key := row_key r; row_type_name := row_type_name r;
                              row_created := row_created r; row_updated := row_updated r;
                              row_format := row_format r; row_data := row_data r;
                              row_collections := row_collections r;
                              row_extra_meta := row_extra_meta r ++ [meta];
                              row_is_new := row_is_new r |};
                dao_lock := dao_lock dao |} in
  _ ← commit true true dao; mret dao.

Definition delete (dao : DaoMut D) : st DioMutState RowErrorKind unit :=
  st_mk (λ m, (Ok (), DioMutState.add_deleted (key dao) (rwh_parent (dao_header dao)) m)).

(** [as_mut]: the row is put with the others, unless it is there or does not serialize. *)
Definition as_mut (dao : DaoMut D) (m : DioMutState) : DioMutState :=
  match dm_rows m !! key dao, Row.as_row_data (dao_row dao) (dao_header dao) with
  | None, Ok row =>
      {| dm_store_ordered := dm_store_ordered m; dm_store_secondary := dm_store_secondary m;
         dm_rows := <[key dao := row]> (dm_rows m); dm_locked := dm_locked m;
         dm_deleted := dm_deleted m; dm_pipe_unlock := dm_pipe_unlock m;
         dm_auto_cancel := dm_auto_cancel m |}
  | _, _ => m
  end.

(** Changing the data through the guard of [as_mut], which commits when it is dropped. *)
Definition modify (f : D → D) (dao : DaoMut D) : st DioMutState RowErrorKind (DaoMut D) :=
  st_mk (λ m,
    let dao' := with_data dao (f (row_data (dao_row dao))) in
    (_ ← commit false true dao'; mret dao') (as_mut dao m)).

Context {S : Type}.
Variable pipe : EventPipe S.

Definition with_lock (dao : DaoMut D) (lock : DaoMutLock) : DaoMut D :=
  {| dao_header := dao_header dao; dao_row := dao_row dao; dao_lock := lock |}.

Definition try_lock_ext (new_state : DaoMutLock) (dao : DaoMut D)
    : st S FeedErrorKind (bool * DaoMut D) :=
  if decide (dao_lock dao = Unlocked) then
    got ← ep_try_lock pipe (key dao);
    mret (if (got : bool) then (true, with_lock dao new_state) else (false, dao))
  else mret (true, dao).

Definition unlock (dao : DaoMut D) : st S FeedErrorKind (bool * DaoMut D) :=
  if decide (dao_lock dao = Locked) then
    _ ← ep_unlock pipe (key dao); mret (true, with_lock dao Unlocked)
  else mret (false, dao).
End ops.
End DaoMut.

(** ** Reading *)

Record LoadStrongResult : Type := {
  ls_lookup : LogLookup;
  ls_header : EventHeaderRaw;
  ls_data : EventStrongData;
  ls_leaf : EventLeaf;
}.

(** [dio_cursor] counts the messages of the decache channel that were received. *)
Record Dio : Type := {
  dio_cache_load : gmap PrimaryKey (EventStrongData * EventLeaf);
  dio_session : AteSession;
  dio_keeper : TimeKeeper;
  dio_log_format : option MessageFormat;
  dio_record_type_name : bool;
  dio_cursor : nat;
}.

Module ChainMultiUser.
Section ops.
Context {W L : Type} `{CryptoPrims} `{KemPrims} `{MetaSerializer} `{LogFile W L}.
Variable pipe : EventPipe (Node W L).

Definition load_weak (leaf : EventLeaf) : st (Node W L) ReadErrorKind LoadWeakResult :=
  st_map_err ReadLog (InboxPipe.on_async (ChainProtectedAsync.on_chain (ChainOfTrust.load leaf))).

Definition strong_result (ret : LoadWeakResult) (data : option bytes) : LoadStrongResult :=
  {| ls_lookup := lw_lookup ret; ls_header := lw_header ret;
     ls_data := {| es_meta := ew_meta (lw_data ret); es_data_bytes := data;
                   es_format := ew_format (lw_data ret) |};
     ls_leaf := lw_leaf ret |}.

(** The data of an event that is kept elsewhere comes through the pipe. *)
Definition strong (data : MessageBytes) : st (Node W L) ReadErrorKind (option bytes) :=
  match data with
  | BytesSome a => mret (Some a)
  | BytesNone => mret None
  | BytesLazySome l =>
      data ← ep_load_many pipe [ld_record l];
      st_mk (λ n, (match (data : list (option bytes)) with
                   | Some a :: _ => Ok (Some a)
                   | None :: _ => Err ReadMissingData
                   | [] => Err ReadDisconnected
                   end, n))
  end.

Definition load (leaf : EventLeaf) : st (Node W L) ReadErrorKind LoadStrongResult :=
  ret ← load_weak leaf;
  data ← strong (ew_data_bytes (lw_data ret));
  mret (strong_result ret data).

Fixpoint fill (data : list LoadWeakResult) (other : list (option bytes))
    : result ReadErrorKind (list LoadStrongResult) :=
  match data with
  | [] => Ok []
  | ret :: data =>
      d ← match ew_data_bytes (lw_data ret), other with
          | BytesSome a, _ => Ok (Some a)
          | BytesNone, _ => Ok None
          | BytesLazySome _, Some a :: _ => Ok (Some a)
          | BytesLazySome _, None :: _ => Err ReadMissingData
          | BytesLazySome _, [] => Err ReadDisconnected
          end;
      rest ← fill data (tail other);
      Ok (strong_result ret d :: rest)
  end.

Definition load_many (leafs : list EventLeaf) : st (Node W L) ReadErrorKind (list LoadStrongResult) :=
  data ← st_map_err ReadLog
           (InboxPipe.on_async (ChainProtectedAsync.on_chain (ChainOfTrust.load_many leafs)));
  let lazy := existsb (λ r, MessageBytes.is_lazy (ew_data_bytes (lw_data r)))
                (data : list LoadWeakResult) in
  other ← (if lazy then ep_load_many pipe (leaf_record <$> leafs) else mret []);
  st_mk (λ n, (fill data other, n)).

Definition lookup_primary (key : PrimaryKey) (n : Node W L) : option EventLeaf :=
  ChainOfTrust.lookup_primary (ca_chain (nd_async n)) key.

Definition lookup_parent (key : PrimaryKey) (n : Node W L) : option MetaParent :=
  ChainTimeline.lookup_parent (co_timeline (ca_chain (nd_async n))) key.

Definition lookup_secondary_raw (key : MetaCollection) (n : Node W L) : option (list PrimaryKey) :=
  ChainTimeline.lookup_secondary_raw (co_timeline (ca_chain (nd_async n))) key.

Definition roots_raw (n : Node W L) : list PrimaryKey :=
  ChainTimeline.roots_raw (co_timeline (ca_chain (nd_async n))).
End ops.
End ChainMultiUser.

Module Dio.
Section ops.
Context {W L D : Type} `{CryptoPrims} `{KemPrims} `{MetaSerializer} `{SnapFrames} `{LogFile W L}.
Context `{DataSerializer D}.
Variable pipe : EventPipe (Node W L).

Definition with_cache (d : Dio) (c : gmap PrimaryKey (EventStrongData * EventLeaf)) : Dio :=
  {| dio_cache_load := c; dio_session := dio_session d; dio_keeper := dio_keeper d;
     dio_log_format := dio_log_format d; dio_record_type_name := dio_record_type_name d;
     dio_cursor := dio_cursor d |}.

Definition on_node {E A X} (f : st (Node W L) E A) : st (Node W L * X) E A :=
  st_mk (λ '(n, d), let '(r, n) := f n in (r, (n, d))).

Definition row_of (evt : EventStrongData) (leaf : EventLeaf)
    : result DioLoadErrorKind (RowHeader * Row D) :=
  map_err DioSerialization (Row.from_event evt (leaf_created leaf) (leaf_updated leaf)).

Definition overlay (n : Node W L) (meta : Metadata) (data : bytes) (session : AteSession)
    : result TransformErrorKind bytes :=
  ChainProtectedSync.data_as_overlay (fst (nd_sync n)) meta data session.

(** [load] takes one lock after the other and holds none of them in between: those of the cache, of
    the index, of the log, of the plugins, and of the cache again.  One definition for each; other
    tasks may run between them ([DioSpec]). *)
Definition look_up (key : PrimaryKey) : st (Node W L * Dio) DioLoadErrorKind EventLeaf :=
  st_mk (λ '(n, d),
    match ChainMultiUser.lookup_primary key n with
    | None => (Err (NotFound key), (n, d))
    | Some leaf => (Ok leaf, (n, d))
    end).

Definition fetch (leaf : EventLeaf)
    : st (Node W L * Dio) DioLoadErrorKind (EventStrongData * EventHeader) :=
  evt ← st_map_err DioRead (on_node (ChainMultiUser.load pipe leaf));
  header ← st_mk (λ s, (map_err (λ e, DioSerialization (RowSerde e))
                          (EventHeaderRaw.as_header (ls_header evt)), s));
  mret (ls_data evt, header).

Definition overlay_event (data : EventStrongData) (header : EventHeader)
    : st (Node W L * Dio) DioLoadErrorKind EventStrongData :=
  st_mk (λ '(n, d),
    (bytes ← match es_data_bytes data with
             | Some bs => b ← map_err DioTransformation
                                (overlay n (eh_meta header) bs (dio_session d)); Ok (Some b)
             | None => Ok None
             end;
     Ok {| es_meta := es_meta data; es_data_bytes := bytes; es_format := es_format data |}, (n, d))).

Definition cache_event (data : EventStrongData) (header : EventHeader) (leaf : EventLeaf)
    : st (Node W L * Dio) DioLoadErrorKind (RowHeader * Row D) :=
  st_mk (λ '(n, d),
    match Metadata.get_data_key (eh_meta header) with
    | Some key =>
        match row_of data leaf with
        | Ok row => (Ok row, (n, with_cache d (<[key := (data, leaf)]> (dio_cache_load d))))
        | Err e => (Err e, (n, d))
        end
    | None => (Err NoPrimaryKey, (n, d))
    end).

Definition load_from_event (data : EventStrongData) (header : EventHeader) (leaf : EventLeaf)
    : st (Node W L * Dio) DioLoadErrorKind (RowHeader * Row D) :=
  data ← overlay_event data header; cache_event data header leaf.

Definition load_from_entry (leaf : EventLeaf)
    : st (Node W L * Dio) DioLoadErrorKind (RowHeader * Row D) :=
  evt ← fetch leaf; load_from_event (fst evt) (snd evt) leaf.

Definition load (key : PrimaryKey) : st (Node W L * Dio) DioLoadErrorKind (RowHeader * Row D) :=
  st_mk (λ '(n, d),
    match dio_cache_load d !! key with
    | Some (evt, leaf) => (row_of evt leaf, (n, d))
    | None => (leaf ← look_up key; load_from_entry leaf) (n, d)
    end).

Definition exists_ (key : PrimaryKey) (s : Node W L * Dio) : bool :=
  let '(n, d) := s in
  match dio_cache_load d !! key with
  | Some _ => true
  | None => match ChainMultiUser.lookup_primary key n with Some _ => true | None => false end
  end.

Definition children_keys (parent_id : PrimaryKey) (collection_id : Z) (n : Node W L)
    : list PrimaryKey :=
  default [] (ChainMultiUser.lookup_secondary_raw
                {| mc_parent_id := parent_id; mc_collection_id := collection_id |} n).

(** [None] for a row that is passed over. *)
Definition process_load_row (n : Node W L) (session : AteSession) (evt : LoadStrongResult)
    (meta : Metadata) (allow_missing_keys allow_serialization_error : bool)
    : result DioLoadErrorKind (option (RowHeader * Row D * EventStrongData)) :=
  match es_data_bytes (ls_data evt) with
  | None => Ok None
  | Some bs =>
      match overlay n meta bs session with
      | Err (MissingReadKey h) =>
          if allow_missing_keys then Ok None else Err (DioTransformation (MissingReadKey h))
      | Err e => Err (DioTransformation e)
      | Ok b =>
          let data := {| es_meta := es_meta (ls_data evt); es_data_bytes := Some b;
                         es_format := es_format (ls_data evt) |} in
          match Row.from_event data (leaf_created (ls_leaf evt)) (leaf_updated (ls_leaf evt)) with
          | Ok row => Ok (Some (row, data))
          | Err e => if allow_serialization_error then Ok None else Err (DioSerialization e)
          end
      end
  end.

(** The first loop of [load_many_ext]: rows of the cache, and leaves to load. *)
Fixpoint find_cached (keys : list PrimaryKey) (n : Node W L) (d : Dio)
    : result DioLoadErrorKind (list (RowHeader * Row D) * list EventLeaf) :=
  match keys with
  | [] => Ok ([], [])
  | key :: keys =>
      match dio_cache_load d !! key with
      | Some (evt, leaf) =>
          row ← row_of evt leaf;
          rest ← find_cached keys n d; Ok (row :: fst rest, snd rest)
      | None =>
          rest ← find_cached keys n d;
          Ok (fst rest, option_list (ChainMultiUser.lookup_primary key n) ++ snd rest)
      end
  end.

(** The second: the events that were loaded. *)
Fixpoint process_loaded (allow_missing_keys allow_serialization_error : bool)
    (evts : list LoadStrongResult) : st (Node W L * Dio) DioLoadErrorKind (list (RowHeader * Row D)) :=
  match evts with
  | [] => mret []
  | evt :: evts => st_mk (λ '(n, d),
      match EventHeaderRaw.as_header (ls_header evt) with
      | Err e => (Err (DioSerialization (RowSerde e)), (n, d))
      | Ok header =>
          match Metadata.get_data_key (eh_meta header) with
          | None => process_loaded allow_missing_keys allow_serialization_error evts (n, d)
          | Some key =>
              match (match dio_cache_load d !! key with
                     | Some (evt, leaf) => row ← row_of evt leaf; Ok [row]
                     | None => Ok []
                     end) with
              | Err e => (Err e, (n, d))
              | Ok cached =>
                  match process_load_row n (dio_session d) evt (eh_meta header)
                          allow_missing_keys allow_serialization_error with
                  | Err e => (Err e, (n, d))
                  | Ok None =>
                      (rest ← process_loaded allow_missing_keys allow_serialization_error evts;
                       mret (cached ++ rest)) (n, d)
                  | Ok (Some (row, data)) =>
                      (rest ← process_loaded allow_missing_keys allow_serialization_error evts;
                       mret (cached ++ row :: rest))
                        (n, with_cache d (<[row_key (snd row) := (data, ls_leaf evt)]>
                                            (dio_cache_load d)))
                  end
              end
          end
      end)
  end.

Definition load_many_ext (keys : list PrimaryKey)
    (allow_missing_keys allow_serialization_error : bool)
    : st (Node W L * Dio) DioLoadErrorKind (list (RowHeader * Row D)) :=
  found ← st_mk (λ '(n, d), (find_cached keys n d, (n, d)));
  evts ← st_map_err DioRead (on_node (ChainMultiUser.load_many pipe (snd found)));
  rows ← process_loaded allow_missing_keys allow_serialization_error evts;
  mret (fst found ++ rows).

Definition children_ext (parent_id : PrimaryKey) (collection_id : Z)
    (allow_missing_keys allow_serialization_error : bool)
    : st (Node W L * Dio) DioLoadErrorKind (list (RowHeader * Row D)) :=
  st_mk (λ '(n, d),
    load_many_ext (children_keys parent_id collection_id n) allow_missing_keys
      allow_serialization_error (n, d)).

(** *** Invalidation *)

(** How far behind a receiver of the decache channel may be before it loses messages. *)
Variable capacity : nat.

Definition forget (keys : list PrimaryKey) (d : Dio) : Dio :=
  with_cache d (foldl (λ c key, delete key c) (dio_cache_load d) keys).

Definition with_cursor (d : Dio) (c : nat) : Dio :=
  {| dio_cache_load := dio_cache_load d; dio_session := dio_session d;
     dio_keeper := dio_keeper d; dio_log_format := dio_log_format d;
     dio_record_type_name := dio_record_type_name d; dio_cursor := c |}.

(** One message: a receiver that lags behind goes on with the oldest that is kept. *)
Definition decache_step (n : Node W L) (d : Dio) : Dio :=
  let sent := length (nd_decache n) in
  if decide (sent ≤ dio_cursor d)%nat then d
  else if decide (capacity < sent - dio_cursor d)%nat then with_cursor d (sent - capacity)
  else match nd_decache n !! dio_cursor d with
       | Some keys => with_cursor (forget keys d) (S (dio_cursor d))
       | None => d
       end.

(** The task of [run_decache] until it has to wait. *)
Definition run_decache (n : Node W L) (d : Dio) : Dio :=
  Nat.iter (S (length (nd_decache n))) (decache_step n) d.
End ops.
End Dio.

(** ** Transactions *)

Module DioMut.
Section ops.
Context {W L D : Type} `{CryptoPrims} `{KemPrims} `{MetaSerializer} `{SnapFrames} `{LogFile W L}.
Context `{DataSerializer D}.
Variable pipe : EventPipe (Node W L).
(** The order in which a hash set of keys is gone through. *)
Variable order : gset PrimaryKey → list PrimaryKey.

Definition default_format (n : Node W L) : MessageFormat := ca_default_format (nd_async n).

(** [generated] is the key the generator gives. *)
Definition store_with_format (data : D) (key : option PrimaryKey) (format : option MessageFormat)
    (generated : PrimaryKey) (n : Node W L) : st DioMutState RowErrorKind (DaoMut D) :=
  let format := match format with Some a => a | None => default_format n end in
  let key := match key with Some k => k | None => generated end in
  let dao := DaoMut.new
    ({| rwh_key := key; rwh_parent := None; rwh_auth := inherit_auth |},
     {| row_key := key; row_type_name := data_type_name; row_created := 0; row_updated := 0;
        row_format := format; row_data := data; row_collections := []; row_extra_meta := [];
        row_is_new := true |}) in
  _ ← DaoMut.commit true true dao; mret dao.

Definition store (data : D) (generated : PrimaryKey) (n : Node W L) (d : Dio)
    : st DioMutState RowErrorKind (DaoMut D) :=
  store_with_format data None (dio_log_format d) generated n.

Definition delete (key : PrimaryKey) (n : Node W L) : st DioMutState RowErrorKind unit :=
  st_mk (λ m,
    if DioMutState.is_locked key m then (Err (RowStillLocked key), m)
    else if decide (key ∈ dm_deleted m) then (Err (RowAlreadyDeleted key), m)
    else (Ok (), DioMutState.add_deleted key (ChainMultiUser.lookup_parent key n)
                   (DioMutState.forget_header key m))).

Definition cancel (m : DioMutState) : DioMutState := DioMutState.clear m.

(** *** Committing *)

(** The metadata of a row before the linters see it. *)
Definition row_meta (n : Node W L) (d : Dio) (now : option Z) (header : RowHeader) (row : RowData)
    : result DioCommitErrorKind Metadata :=
  t ← map_err DioTime (TimeKeeper.current_timestamp (dio_keeper d) now);
  let core := [CoreData (rdt_key row); CoreTimestamp t]
              ++ (if MetaAuthorization.is_relevant (rwh_auth header)
                  then [CoreAuthorization (rwh_auth header)] else []) in
  parent ← match rwh_parent header with
           | Some p => Ok [CoreParent p]
           | None => if ca_disable_new_roots (nd_async n) && rdt_is_new row
                     then Err NewRootsAreDisabled else Ok []
           end;
  let meta := {| meta_core := core ++ parent ++ rdt_extra_meta row |} in
  Ok (if dio_record_type_name d && bool_decide (Metadata.get_type_name meta = None)
      then Metadata.push meta (CoreType {| mt_type_name := rdt_type_name row |}) else meta).

(** What the transaction knows of a row that was linted. *)
Definition note_row (meta : Metadata) (tm : TransactionMetadata) : TransactionMetadata :=
  match Metadata.get_data_key meta with
  | None => tm
  | Some key =>
      {| tm_auth := <[key := default inherit_auth (Metadata.get_authorization meta)]> (tm_auth tm);
         tm_parents := match Metadata.get_parent meta with
                       | Some p => if decide (mc_parent_id (mp_vec p) = key) then tm_parents tm
                                   else <[key := p]> (tm_parents tm)
                       | None => tm_parents tm
                       end |}
  end.

Definition row_event (rnds : nat → bytes) (n : Node W L) (d : Dio) (now : option Z)
    (tm : TransactionMetadata) (header : RowHeader) (row : RowData)
    : result DioCommitErrorKind (EventWeakData * TransactionMetadata) :=
  let sync := fst (nd_sync n) in
  meta ← row_meta n d now header row;
  extra ← map_err DioLint (ChainProtectedSync.metadata_lint_event sync now meta (dio_session d) tm
                             (rdt_type_name row));
  let meta := {| meta_core := meta_core meta ++ extra |} in
  let tm := note_row meta tm in
  let '(r, meta) := ChainProtectedSync.data_as_underlay rnds sync (rdt_data row) (dio_session d) tm
                      meta in
  data ← map_err DioCommitTransform r;
  Ok ({| ew_meta := meta; ew_data_bytes := BytesSome data; ew_format := rdt_format row |}, tm).

(** [clock] and [rnds] give the readings of the clock and the draws of the generator, by
    how many are to come. *)
Fixpoint row_events (clock : nat → option Z) (rnds : nat → nat → bytes) (n : Node W L) (d : Dio)
    (tm : TransactionMetadata) (rows : list (RowHeader * RowData))
    : result DioCommitErrorKind (list EventWeakData * TransactionMetadata) :=
  match rows with
  | [] => Ok ([], tm)
  | (header, row) :: rows =>
      evt ← row_event (rnds (length rows)) n d (clock (length rows)) tm header row;
      rest ← row_events clock rnds n d (snd evt) rows;
      Ok (fst evt :: fst rest, snd rest)
  end.

Definition tombstone_event (now : option Z) (n : Node W L) (d : Dio) (tm : TransactionMetadata)
    (format : MessageFormat) (key : PrimaryKey) : result DioCommitErrorKind EventWeakData :=
  t ← map_err DioTime (TimeKeeper.current_timestamp (dio_keeper d) now);
  let core := [CoreTimestamp t;
               CoreAuthorization {| ma_read := ReadEveryone None; ma_write := WriteNobody |}]
              ++ match ChainMultiUser.lookup_parent key n with
                 | Some p => [CoreParent p]
                 | None => []
                 end in
  let meta := Metadata.add_tombstone {| meta_core := core |} key in
  extra ← map_err DioLint (ChainProtectedSync.metadata_lint_event (fst (nd_sync n)) now meta
                             (dio_session d) tm "[unknown]");
  Ok {| ew_meta := {| meta_core := meta_core meta ++ extra |}; ew_data_bytes := BytesNone;
        ew_format := format |}.

Fixpoint tombstone_events (clock : nat → option Z) (n : Node W L) (d : Dio)
    (tm : TransactionMetadata) (format : MessageFormat) (keys : list PrimaryKey)
    : result DioCommitErrorKind (list EventWeakData) :=
  match keys with
  | [] => Ok []
  | key :: keys =>
      evt ← tombstone_event (clock (length keys)) n d tm format key;
      rest ← tombstone_events clock n d tm format keys; Ok (evt :: rest)
  end.

Fixpoint lint_data (evts : list EventWeakData) : result DioCommitErrorKind (list LintData) :=
  match evts with
  | [] => Ok []
  | evt :: evts =>
      h ← map_err DioCommitSerialization (EventWeakData.as_header evt);
      rest ← lint_data evts; Ok ({| li_data := evt; li_header := h |} :: rest)
  end.

(** The rows of a transaction, in the order they were made dirty, and its tombstones. *)
Definition dirty_rows (m : DioMutState) : list (RowHeader * RowData) :=
  omap (λ h, if decide (rwh_key h ∈ dm_deleted m) then None
             else (λ row, (h, row)) <$> (dm_rows m !! rwh_key h)) (dm_store_ordered m).

(** The events of the transaction but for the signatures. *)
Definition record_events (clock : nat → option Z) (rnds : nat → nat → bytes) (n : Node W L)
    (d : Dio) (m : DioMutState) : result DioCommitErrorKind (list EventWeakData) :=
  let format := match dio_log_format d with Some a => a | None => default_format n end in
  let deleted := order (dm_deleted m) in
  stored ← row_events (λ i, clock (i + length deleted)%nat) rnds n d TransactionMetadata_default
             (dirty_rows m);
  removed ← tombstone_events clock n d (snd stored) format deleted;
  Ok (fst stored ++ removed).

(** The events, and the conversation after the signing. *)
Definition sign_events (n : Node W L) (d : Dio) (evts : list EventWeakData)
    : result DioCommitErrorKind (list EventWeakData) * option ConversationSession :=
  let format := match dio_log_format d with Some a => a | None => default_format n end in
  match lint_data evts with
  | Err e => (Err e, snd (nd_sync n))
  | Ok lints =>
      let '(r, conv) := ChainProtectedSync.metadata_lint_many (fst (nd_sync n)) lints
                          (dio_session d) (snd (nd_sync n)) in
      (match r with
       | Err e => Err (DioLint e)
       | Ok [] => Ok evts
       | Ok meta => Ok ({| ew_meta := {| meta_core := meta |}; ew_data_bytes := BytesNone;
                           ew_format := format |} :: evts)
       end, conv)
  end.

Fixpoint unlock_all (keys : list PrimaryKey) (n : Node W L) : Node W L :=
  match keys with
  | [] => n
  | key :: keys => unlock_all keys (ep_unlock pipe key n).2
  end.

(** The changes are taken out of the transaction before anything can fail. *)
Definition commit_ext (clock : nat → option Z) (rnds : nat → nat → bytes)
    (scope : TransactionScope) (timeout : Z)
    : st (Node W L * Dio * DioMutState) DioCommitErrorKind unit :=
  st_mk (λ '(n, d, m),
    if negb (DioMutState.has_uncommitted m) then (Ok (), (n, d, m))
    else
      let m' := DioMutState.clear m in
      match record_events clock rnds n d m with
      | Err e => (Err e, (n, d, m'))
      | Ok evts =>
          let '(r, conv) := sign_events n d evts in
          let n := Node.with_sync n (fst (nd_sync n), conv) in
          match r with
          | Err e => (Err e, (n, d, m'))
          | Ok evts =>
              let '(r, n) := ep_feed pipe (Transaction.from_events evts scope true timeout) n in
              match r with
              | Err e => (Err (DioFeed e), (n, d, m'))
              | Ok _ => (Ok (), (unlock_all (order (dm_pipe_unlock m)) n, d, m'))
              end
          end
      end).

(** *** Reading within a transaction *)

Definition load (key : PrimaryKey)
    : st (Node W L * Dio * DioMutState) DioLoadErrorKind (DaoMut D) :=
  st_mk (λ '(n, d, m),
    if DioMutState.is_locked key m then (Err (ObjectStillLocked key), (n, d, m))
    else if decide (key ∈ dm_deleted m) then (Err (AlreadyDeleted key), (n, d, m))
    else match dm_rows m !! key with
         | Some row =>
             (dao ← map_err DioSerialization (Row.from_row_data row); Ok (DaoMut.new dao), (n, d, m))
         | None =>
             let '(r, (n, d)) := Dio.load pipe key (n, d) in
             (dao ← r; Ok (DaoMut.new dao), (n, d, m))
         end).

Definition try_load (key : PrimaryKey)
    : st (Node W L * Dio * DioMutState) DioLoadErrorKind (option (DaoMut D)) :=
  st_mk (λ s,
    match load key s with
    | (Ok a, s) => (Ok (Some a), s)
    | (Err (NotFound _), s) => (Ok None, s)
    | (Err e, s) => (Err e, s)
    end).

Definition exists_ (key : PrimaryKey) (s : Node W L * Dio * DioMutState) : bool :=
  let '(n, d, m) := s in
  if decide (key ∈ dm_deleted m) then false
  else match dm_rows m !! key with Some _ => true | None => Dio.exists_ key (n, d) end.

Definition root_keys (n : Node W L) (m : DioMutState) : list PrimaryKey :=
  let ret := List.filter (λ k, bool_decide (k ∈ dm_deleted m)) (ChainMultiUser.roots_raw n) in
  let new_roots := List.filter (λ a, bool_decide (rwh_parent a = None)) (dm_store_ordered m) in
  ret ++ List.filter (λ k, negb (bool_decide (k ∈ ret)) && negb (bool_decide (k ∈ dm_deleted m)))
           (rwh_key <$> new_roots).

Fixpoint delete_keys (keys : list PrimaryKey) (n : Node W L) : st DioMutState RowErrorKind unit :=
  match keys with
  | [] => mret ()
  | key :: keys => _ ← delete key n; delete_keys keys n
  end.

Definition delete_all_roots (n : Node W L) : st DioMutState RowErrorKind unit :=
  st_mk (λ m, delete_keys (root_keys n m) n m).

(** The rows of the transaction that are listed under a collection and were not loaded. *)
Fixpoint own_children (already : list PrimaryKey) (keys : list PrimaryKey) (m : DioMutState)
    : result DioLoadErrorKind (list (DaoMut D)) :=
  match keys with
  | [] => Ok []
  | key :: keys =>
      if bool_decide (key ∈ already) || bool_decide (key ∈ dm_deleted m)
      then own_children already keys m
      else if DioMutState.is_locked key m then Err (ObjectStillLocked key)
      else match dm_rows m !! key with
           | None => own_children already keys m
           | Some row =>
               dao ← map_err DioSerialization (Row.from_row_data row);
               rest ← own_children (rdt_key row :: already) keys m;
               Ok (DaoMut.new dao :: rest)
           end
  end.

(** The first loop of [load_many_ext]: rows of the transaction and of the cache, and leaves
    to load. *)
Fixpoint find_rows (keys : list PrimaryKey) (n : Node W L) (d : Dio) (m : DioMutState)
    : result DioLoadErrorKind (list (RowHeader * Row D) * list EventLeaf) :=
  match keys with
  | [] => Ok ([], [])
  | key :: keys =>
      if DioMutState.is_locked key m then Err (ObjectStillLocked key)
      else if decide (key ∈ dm_deleted m) then find_rows keys n d m
      else match dm_rows m !! key with
           | Some row =>
               dao ← map_err DioSerialization (Row.from_row_data row);
               rest ← find_rows keys n d m; Ok (dao :: fst rest, snd rest)
           | None =>
               match dio_cache_load d !! key with
               | Some (evt, leaf) =>
                   dao ← Dio.row_of evt leaf;
                   rest ← find_rows keys n d m; Ok (dao :: fst rest, snd rest)
               | None =>
                   rest ← find_rows keys n d m;
                   Ok (fst rest, option_list (ChainMultiUser.lookup_primary key n) ++ snd rest)
               end
           end
  end.

(** The second: an event whose row the transaction has gives way to the row. *)
Fixpoint process_rows (allow_missing_keys allow_serialization_error : bool)
    (evts : list LoadStrongResult) (m : DioMutState)
    : st (Node W L * Dio) DioLoadErrorKind (list (RowHeader * Row D)) :=
  match evts with
  | [] => mret []
  | evt :: evts => st_mk (λ '(n, d),
      match EventHeaderRaw.as_header (ls_header evt) with
      | Err e => (Err (DioSerialization (RowSerde e)), (n, d))
      | Ok header =>
          match Metadata.get_data_key (eh_meta header) with
          | None => process_rows allow_missing_keys allow_serialization_error evts m (n, d)
          | Some key =>
              if DioMutState.is_locked key m then (Err (ObjectStillLocked key), (n, d))
              else if decide (key ∈ dm_deleted m)
              then process_rows allow_missing_keys allow_serialization_error evts m (n, d)
              else match dm_rows m !! key with
                   | Some row =>
                       match Row.from_row_data row with
                       | Err e => (Err (DioSerialization e), (n, d))
                       | Ok dao =>
                           (rest ← process_rows allow_missing_keys allow_serialization_error evts m;
                            mret (dao :: rest)) (n, d)
                       end
                   | None =>
                       (here ← Dio.process_loaded allow_missing_keys allow_serialization_error [evt];
                        rest ← process_rows allow_missing_keys allow_serialization_error evts m;
                        mret (here ++ rest)) (n, d)
                   end
          end
      end)
  end.

Definition load_many_ext (keys : list PrimaryKey)
    (allow_missing_keys allow_serialization_error : bool)
    : st (Node W L * Dio * DioMutState) DioLoadErrorKind (list (DaoMut D)) :=
  st_mk (λ '(n, d, m),
    let '(r, (n, d)) :=
      (found ← st_mk (λ '(n, d), (find_rows keys n d m, (n, d)));
       evts ← st_map_err DioRead (Dio.on_node (ChainMultiUser.load_many pipe (snd found)));
       rows ← process_rows allow_missing_keys allow_serialization_error evts m;
       mret (DaoMut.new <$> (fst found ++ rows))) (n, d) in
    (r, (n, d, m))).

(** What is loaded, and then the transaction's own of [keys]. *)
Definition with_own (loaded : list PrimaryKey) (keys : list PrimaryKey)
    (allow_missing_keys allow_serialization_error : bool)
    : st (Node W L * Dio * DioMutState) DioLoadErrorKind (list (DaoMut D)) :=
  ret ← load_many_ext loaded allow_missing_keys allow_serialization_error;
  st_mk (λ '(n, d, m),
    (own ← own_children (DaoMut.key <$> (ret : list (DaoMut D))) keys m; Ok (ret ++ own), (n, d, m))).

Definition children_ext (parent_id : PrimaryKey) (collection_id : Z)
    (allow_missing_keys allow_serialization_error : bool)
    : st (Node W L * Dio * DioMutState) DioLoadErrorKind (list (DaoMut D)) :=
  st_mk (λ '(n, d, m),
    let collection := {| mc_parent_id := parent_id; mc_collection_id := collection_id |} in
    match ChainMultiUser.lookup_secondary_raw collection n with
    | None => (Ok [], (n, d, m))
    | Some keys => with_own keys (default [] (dm_store_secondary m !! collection))
                     allow_missing_keys allow_serialization_error (n, d, m)
    end).

Definition roots_ext (allow_missing_keys allow_serialization_error : bool)
    : st (Node W L * Dio * DioMutState) DioLoadErrorKind (list (DaoMut D)) :=
  st_mk (λ '(n, d, m),
    with_own (ChainMultiUser.roots_raw n)
      (rwh_key <$> List.filter (λ a, bool_decide (rwh_parent a = None)) (dm_store_ordered m))
      allow_missing_keys allow_serialization_error (n, d, m)).
End ops.
End DioMut.
