(* ===== verification/DioSpec.v ===== *)
(** * What the data layer promises

    The theorems on lib/src/dio over a chain reached through its inbox: what a commit
    makes of the changes a transaction gathered, what a transaction reads of its own
    changes, and that the cache of a reader follows the chain.  The last part records
    where the code does less than it means to. *)

From S2P Require Import Prelude LogApi Crypto Codec Secure Meta Time Event Index Signature Tree Compact Plugins LogFile MemDb RedoLog Chain ChainSpec CompactSpec Pipe Dio.

(** ** The records an event names *)

Definition names_record (c : CoreMetadata) : bool :=
  match c with CoreData _ | CoreTombstone _ => true | _ => false end.

Definition named (core : list CoreMetadata) : list CoreMetadata := List.filter names_record core.

Lemma named_app l1 l2 : named (l1 ++ l2) = named l1 ++ named l2.
Proof. apply List.filter_app. Qed.

Lemma named_cons c core : named (c :: core) = (if names_record c then [c] else []) ++ named core.
Proof. unfold named. cbn. by destruct (names_record c). Qed.

Lemma named_nil core : Forall (λ c, names_record c = false) core → named core = [].
Proof. induction 1 as [|c core Hc _ IH]; [done|]. cbn. by rewrite Hc. Qed.

Lemma named_keep (p : CoreMetadata → bool) core : (∀ c, names_record c = true → p c = true) →
  named (List.filter p core) = named core.
Proof.
  intros Hp. induction core as [|c core IH]; [done|]. unfold named in *. cbn.
  specialize (Hp c). destruct (names_record c) eqn:E.
  - rewrite Hp by done. cbn. by rewrite E, IH.
  - destruct (p c); cbn; by rewrite ?E.
Qed.

(** A query that looks only at what names a record. *)
Lemma find_map_named {B} (f : CoreMetadata → option B) core :
  (∀ c, names_record c = false → f c = None) → find_map f core = find_map f (named core).
Proof.
  intros Hf. induction core as [|c core IH]; [done|]. unfold named in *. cbn.
  destruct (names_record c) eqn:E; cbn; [by rewrite IH|]. by rewrite Hf.
Qed.

Lemma existsb_named (f : CoreMetadata → bool) core :
  (∀ c, names_record c = false → f c = false) → existsb f core = existsb f (named core).
Proof.
  intros Hf. induction core as [|c core IH]; [done|]. unfold named in *. cbn.
  destruct (names_record c) eqn:E; cbn; [by rewrite IH|]. by rewrite Hf.
Qed.

Lemma tombstone_named m : Metadata.get_tombstone m
  = find_map (λ c, match c with CoreTombstone k => Some k | _ => None end) (named (meta_core m)).
Proof. apply find_map_named. by intros []. Qed.

Lemma data_key_named m : Metadata.get_data_key m
  = find_map (λ c, match c with CoreData k | CoreTombstone k => Some k | _ => None end)
      (named (meta_core m)).
Proof. apply find_map_named. by intros []. Qed.

Section named.
Context `{CryptoPrims} `{MetaSerializer}.
Implicit Types (e : EventWeakData) (k : PrimaryKey).

(** An event that writes one record, one that removes one, and one that does neither. *)
Definition writes_one k e : Prop :=
  named (meta_core (ew_meta e)) = [CoreData k] ∧ MessageBytes.is_some (ew_data_bytes e) = true.
Definition removes_one k e : Prop := named (meta_core (ew_meta e)) = [CoreTombstone k].
Definition names_none e : Prop := named (meta_core (ew_meta e)) = [].

Lemma writes_one_touches k k' e : writes_one k e →
  touches_record k' e = bool_decide (k = k') ∧ removes_record k' e = false
  ∧ Metadata.get_data_key (ew_meta e) = Some k.
Proof.
  intros [Hn Hd]. unfold touches_record, removes_record, writes_record.
  rewrite tombstone_named, data_key_named, existsb_named, Hn by by intros [].
  cbn. by rewrite Hd, orb_false_r.
Qed.

Lemma removes_one_touches k k' e : removes_one k e →
  touches_record k' e = bool_decide (k = k') ∧ removes_record k' e = bool_decide (k = k')
  ∧ Metadata.get_data_key (ew_meta e) = Some k.
Proof.
  intros Hn. unfold touches_record, removes_record, writes_record.
  rewrite tombstone_named, data_key_named, Hn. cbn. rewrite orb_false_r.
  split; [|split]; [| |done]; apply bool_decide_ext; naive_solver.
Qed.

Lemma names_none_touches k e : names_none e → touches_record k e = false.
Proof.
  intros Hn. unfold touches_record, removes_record, writes_record.
  rewrite tombstone_named, existsb_named, Hn by by intros []. cbn. by rewrite andb_false_r.
Qed.

(** What names a record is stored. *)
Lemma named_worth_storing mode v : headed v → ¬ names_none v.1 → worth_storing mode v = true.
Proof.
  intros Hh Hn. destruct v as [e h]. unfold headed in Hh. cbn in *.
  apply as_header_Ok in Hh as [_ Hm]. unfold worth_storing, EventHeader.is_empty. cbn.
  assert (named (meta_core (eh_meta (ChainProtectedAsync.filed mode h))) = named (meta_core (eh_meta h)))
    as Hs.
  { unfold ChainProtectedAsync.filed. destruct (TrustMode.is_centralized mode); [|done]. cbn.
    unfold Metadata.strip_public_keys, Metadata.strip_signatures. cbn.
    by rewrite !named_keep by by intros []. }
  unfold Metadata.is_empty. destruct (meta_core _) eqn:E; [|done].
  exfalso. apply Hn. unfold names_none. by rewrite <- Hm, <- Hs.
Qed.

Lemma stored_touches k mode v : Forall headed v →
  List.filter (touches_record k) (stored_of mode v) = List.filter (touches_record k) v.*1.
Proof.
  unfold stored_of. induction 1 as [|[e h] v Hh _ IH]; [done|]. cbn.
  destruct (worth_storing mode (e, h)) eqn:Hw; cbn; rewrite IH; [done|].
  destruct (touches_record k e) eqn:Ht; [|done]. exfalso.
  rewrite named_worth_storing in Hw; [done|done|].
  intros Hn. by rewrite (names_none_touches k e Hn) in Ht.
Qed.

End named.

(** ** What linting and encrypting add names no record *)

Section quiet.
Context `{CryptoPrims} `{KemPrims} `{SnapFrames} `{MetaSerializer}.

Lemma tree_lint_named t meta session tm code ms :
  TreeAuthorityPlugin.metadata_lint_event t meta session tm code = Ok ms → named ms = [].
Proof.
  unfold TreeAuthorityPlugin.metadata_lint_event.
  intros (ms1 & Hr1 & (ms2 & Hr2 & [= <-])%bind_Ok_inv)%bind_Ok_inv. rewrite named_app.
  assert (named ms1 = []) as ->.
  { revert Hr1. unfold TreeAuthorityPlugin.lint_sign_with.
    intros (auth & _ & Hw)%bind_Ok_inv. repeat case_match; simplify_eq/=; done. }
  revert Hr2. unfold TreeAuthorityPlugin.lint_confidentiality.
  intros (auth & _ & (kh & _ & [= <-])%bind_Ok_inv)%bind_Ok_inv. by destruct kh.
Qed.

Lemma plugin_lint_named p now meta session tm code ms :
  EventPlugin.metadata_lint_event p now meta session tm code = Ok ms → named ms = [].
Proof.
  destruct p; cbn; try by intros [= <-].
  - unfold TimestampEnforcer.metadata_lint_event.
    destruct (Metadata.get_timestamp meta); [by intros [= <-]|].
    by intros (t & _ & [= <-])%bind_Ok_inv.
  - apply tree_lint_named.
Qed.

Lemma lint_event_all_named rs : ∀ ms, Forall (λ r, ∀ ms, r = Ok ms → named ms = []) rs →
  ChainProtectedSync.lint_event_all rs = Ok ms → named ms = [].
Proof.
  induction rs as [|r rs IH]; intros ms; cbn; [by intros _ [= <-]|].
  intros [Hr Hrs]%Forall_cons (ms1 & Hr1 & (ms2 & Hr2 & [= <-])%bind_Ok_inv)%bind_Ok_inv.
  by rewrite named_app, (Hr _ Hr1), (IH _ Hrs Hr2).
Qed.

Lemma lint_event_named s now meta session tm code ms :
  ChainProtectedSync.metadata_lint_event s now meta session tm code = Ok ms → named ms = [].
Proof.
  apply lint_event_all_named. apply Forall_app. split; apply Forall_fmap, Forall_true; cbn.
  - intros [|p] ms'; cbn; [by intros [= <-]|apply plugin_lint_named].
  - intros p ms'. apply plugin_lint_named.
Qed.

Lemma sign_all_named p raw session auths : ∀ conv ms conv',
  SignaturePlugin.sign_all p raw session auths conv = (Ok ms, conv') → named ms = [].
Proof.
  induction auths as [|auth auths IH]; intros conv ms conv'; cbn; [by intros [= <- _]|].
  unfold st_mk. destruct (SignaturePlugin.sign_one _ _ _ _ _) as [ms1|] eqn:E1; [|done].
  unfold mbind, st_bind. destruct (SignaturePlugin.sign_all _ _ _ _ _) as [[ms2|] c2] eqn:E2; [|done].
  intros [= <- _]. rewrite named_app, (IH _ _ _ E2), app_nil_r. revert E1.
  unfold SignaturePlugin.sign_one. destruct (List.find _ _); [|done].
  intros (sig & _ & [= <-])%bind_Ok_inv. by destruct (negb _ || _).
Qed.

Lemma plugin_lint_many_named p raw session conv ms conv' :
  EventPlugin.metadata_lint_many p raw session conv = (Ok ms, conv') → named ms = [].
Proof.
  destruct p; cbn; try by intros [= <- _]; unfold TreeAuthorityPlugin.metadata_lint_many.
  all: unfold SignaturePlugin.metadata_lint_many; destruct raw; [by intros [= <- _]|apply sign_all_named].
Qed.

Lemma lint_many_all_named cs : ∀ conv ms conv',
  Forall (λ c : st _ _ _, ∀ conv ms conv', c conv = (Ok ms, conv') → named ms = []) cs →
  ChainProtectedSync.lint_many_all cs conv = (Ok ms, conv') → named ms = [].
Proof.
  induction cs as [|c cs IH]; intros conv ms conv'; cbn; [by intros _ [= <- _]|].
  intros [Hc Hcs]%Forall_cons. unfold mbind, st_bind.
  destruct (c conv) as [[ms1|] c1] eqn:E1; [|done].
  destruct (ChainProtectedSync.lint_many_all cs c1) as [[ms2|] c2] eqn:E2; [|done].
  intros [= <- _]. by rewrite named_app, (Hc _ _ _ E1), (IH _ _ _ Hcs E2).
Qed.

Lemma lint_many_named s lints session conv ms conv' :
  ChainProtectedSync.metadata_lint_many s lints session conv = (Ok ms, conv') → named ms = [].
Proof.
  apply lint_many_all_named. apply Forall_app. split; apply Forall_fmap, Forall_true; cbn.
  - intros [|p] ???; [by intros [= <- _]|apply plugin_lint_many_named].
  - intros p ???. apply plugin_lint_many_named.
Qed.

(** A layer that leaves what names a record alone. *)
Definition keeps_named (f : bytes → st Metadata TransformErrorKind bytes) : Prop :=
  ∀ data meta, named (meta_core (f data meta).2) = named (meta_core meta).

Lemma plugin_underlay_named rnd p session tm :
  keeps_named (λ data, EventPlugin.data_as_underlay rnd p data session tm).
Proof.
  intros data meta. destruct p; try done. cbn. unfold TreeAuthorityPlugin.data_as_underlay, st_mk.
  destruct (mbind _ _) as [[[iv key]|]|]; try done. cbn. by rewrite named_app, app_nil_r.
Qed.

Lemma underlay_all_named layers : Forall keeps_named layers →
  keeps_named (ChainProtectedSync.underlay_all layers).
Proof.
  induction 1 as [|f layers Hf _ IH]; intros data meta; [done|]. cbn. unfold mbind, st_bind.
  pose proof (Hf data meta) as Hd. destruct (f data meta) as [[data1|] meta1]; [|done].
  cbn in Hd. by rewrite IH.
Qed.

Lemma underlay_named rnds s session tm :
  keeps_named (λ data, ChainProtectedSync.data_as_underlay rnds s data session tm).
Proof.
  intros data. apply underlay_all_named. apply Forall_app. split.
  - apply Forall_lookup_2. intros i f (t & _ & ->)%list_lookup_imap_Some data' meta.
    destruct t; [done| |apply plugin_underlay_named]. cbn. unfold st_mk. cbn.
    rewrite named_app, app_nil_r. apply named_keep. by intros [].
  - apply Forall_lookup_2. intros i f (p & _ & ->)%list_lookup_imap_Some.
    apply plugin_underlay_named.
Qed.
End quiet.

(** ** Committing a transaction *)

(** The rows are kept under their keys, and the metadata a caller added to them names no
    record. *)
Definition tidy (m : DioMutState) : Prop :=
  map_Forall (λ k row, rdt_key row = k ∧ named (rdt_extra_meta row) = []) (dm_rows m).

(** What a transaction last made of a record. *)
Definition last_row (k : PrimaryKey) (m : DioMutState) : option (RowHeader * RowData) :=
  last (List.filter (λ hr, bool_decide (rdt_key hr.2 = k)) (DioMut.dirty_rows m)).

Section commit.
Context {W L : Type} `{CryptoPrims} `{KemPrims} `{MetaSerializer} `{SnapFrames}.
Context `{!LogFile W L} `{!LogFileSpec W L}.
Variable order : gset PrimaryKey → list PrimaryKey.
Implicit Types (n : Node W L) (d : Dio) (e : EventWeakData) (h : RowHeader) (row : RowData)
  (m : DioMutState) (k : PrimaryKey).

(** The event is what a commit makes of the row. *)
Definition event_of_row n d h row e : Prop :=
  ∃ rnds now tm tm', DioMut.row_event rnds n d now tm h row = Ok (e, tm').

Lemma row_meta_named n d now h row meta : DioMut.row_meta n d now h row = Ok meta →
  named (rdt_extra_meta row) = [] → named (meta_core meta) = [CoreData (rdt_key row)].
Proof.
  unfold DioMut.row_meta. intros (t & _ & (parent & Hp & [= <-])%bind_Ok_inv)%bind_Ok_inv Hx.
  assert (named parent = []) as Hpn by (repeat case_match; by simplify_eq/=).
  assert (named (if MetaAuthorization.is_relevant (rwh_auth h)
                 then [CoreAuthorization (rwh_auth h)] else []) = []) as Ha
    by by destruct (MetaAuthorization.is_relevant _).
  destruct (dio_record_type_name d && _); cbn [meta_core Metadata.push];
    rewrite ?named_app, !named_cons, !named_app, Hpn, Hx, Ha; done.
Qed.

Lemma row_event_writes n d h row e :
  event_of_row n d h row e → named (rdt_extra_meta row) = [] →
  writes_one (rdt_key row) e ∧ ew_format e = rdt_format row.
Proof.
  intros (rnds & now & tm & tm' & Hev) Hx. revert Hev. unfold DioMut.row_event.
  intros (meta & Hm & (extra & He & Hev)%bind_Ok_inv)%bind_Ok_inv.
  apply map_err_Ok_inv, lint_event_named in He. apply row_meta_named in Hm; [|done].
  destruct (ChainProtectedSync.data_as_underlay _ _ _ _ _ _) as [r meta'] eqn:Eu.
  apply bind_Ok_inv in Hev as (data & _ & [= <- _]).
  split; [|done]. split; [|done]. cbn.
  pose proof (underlay_named rnds (nd_sync n).1 (dio_session d)
    (DioMut.note_row {| meta_core := meta_core meta ++ extra |} tm) (rdt_data row)
    {| meta_core := meta_core meta ++ extra |}) as Hu.
  cbv beta in Hu. rewrite Eu in Hu. cbn in Hu. by rewrite Hu, named_app, He, Hm.
Qed.

Lemma row_events_spec clock rnds n d rows : ∀ tm es tm',
  DioMut.row_events clock rnds n d tm rows = Ok (es, tm') →
  Forall2 (λ hr e, event_of_row n d hr.1 hr.2 e) rows es.
Proof.
  induction rows as [|[h row] rows IH]; intros tm es tm'; cbn; [by intros [= <- _]|].
  intros ([e tm1] & He & ([es1 tm2] & Hes & [= <- _])%bind_Ok_inv)%bind_Ok_inv.
  constructor; [by repeat eexists|by eapply IH].
Qed.

Lemma tombstone_event_removes now n d tm format key e :
  DioMut.tombstone_event now n d tm format key = Ok e → removes_one key e.
Proof.
  unfold DioMut.tombstone_event.
  intros (t & _ & (extra & He & [= <-])%bind_Ok_inv)%bind_Ok_inv.
  apply map_err_Ok_inv, lint_event_named in He. unfold removes_one. cbn.
  rewrite !named_app, He. by destruct (ChainMultiUser.lookup_parent _ _).
Qed.

Lemma tombstone_events_spec clock n d tm format keys : ∀ es,
  DioMut.tombstone_events clock n d tm format keys = Ok es → Forall2 removes_one keys es.
Proof.
  induction keys as [|key keys IH]; intros es; cbn; [by intros [= <-]|].
  intros (e & He & (es1 & Hes & [= <-])%bind_Ok_inv)%bind_Ok_inv.
  constructor; [by eapply tombstone_event_removes|by apply IH].
Qed.

Lemma sign_events_spec n d es evts : (DioMut.sign_events n d es).1 = Ok evts →
  ∃ proofs, evts = proofs ++ es ∧ Forall names_none proofs.
Proof.
  unfold DioMut.sign_events. destruct (DioMut.lint_data es) as [lints|]; [|done].
  destruct (ChainProtectedSync.metadata_lint_many _ _ _ _) as [[[|c ms]|err] conv] eqn:E;
    [|  |done]; cbn; intros [= <-]; [by exists []|].
  eexists [_]. split; [reflexivity|]. constructor; [|done].
  unfold names_none. cbn [ew_meta meta_core]. by eapply lint_many_named.
Qed.

(** *** What the events make of a record *)

Lemma current_proofs k stored proofs es : Forall names_none proofs →
  current k (stored ++ proofs ++ es) = current k (stored ++ es).
Proof.
  intros Hp. unfold current. rewrite !List.filter_app.
  replace (List.filter (touches_record k) proofs) with (@nil EventWeakData); [done|].
  symmetry. apply filter_nil_iff. rewrite Forall_forall in Hp. intros e He.
  by apply names_none_touches, Hp.
Qed.

Lemma current_tombstones k stored keys es : Forall2 removes_one keys es →
  current k (stored ++ es) = if decide (k ∈ keys) then None else current k stored.
Proof.
  intros Hes. revert stored. induction Hes as [|key e keys es He _ IH]; intros stored.
  { by rewrite app_nil_r. }
  rewrite cons_middle, app_assoc, IH. destruct (decide (k ∈ keys)) as [Hk|Hk].
  { rewrite decide_True by set_solver. done. }
  rewrite current_app. cbn. destruct (removes_one_touches key k e He) as (Ht & Hr & _).
  unfold current. cbn. rewrite Ht, orb_false_r. destruct (decide (key = k)) as [->|Hne].
  - rewrite bool_decide_true by done. cbn. rewrite Hr, bool_decide_true by done.
    rewrite decide_True by set_solver. done.
  - rewrite bool_decide_false by done. rewrite decide_False by set_solver. done.
Qed.

Lemma current_rows (R : RowHeader * RowData → EventWeakData → Prop) k stored rows es :
  (∀ hr e, R hr e → writes_one (rdt_key hr.2) e) → Forall2 R rows es →
  match last (List.filter (λ hr, bool_decide (rdt_key hr.2 = k)) rows) with
  | Some hr => ∃ e, R hr e ∧ current k (stored ++ es) = Some e
  | None => current k (stored ++ es) = current k stored
  end.
Proof.
  intros HR Hes.
  assert (Forall2 R (List.filter (λ hr, bool_decide (rdt_key hr.2 = k)) rows)
            (List.filter (touches_record k) es)) as Hf.
  { apply Forall2_filter; [|done]. intros hr e He.
    by destruct (writes_one_touches _ k e (HR _ _ He)) as (-> & _). }
  pose proof (Forall2_last _ _ _ Hf) as Hl. unfold current. rewrite List.filter_app, last_app.
  destruct (last (List.filter (λ hr, _) rows)) as [hr|];
    destruct (last (List.filter (touches_record k) es)) as [e|]; try done.
  exists e. split; [done|]. by destruct (writes_one_touches _ k e (HR _ _ Hl)) as (_ & -> & _).
Qed.

(** *** Through the inbox *)

Variable display : ValidationErrorKind → string.
Variable U : AteHash → option EventWeakData.

Definition holds (stored : list EventWeakData) n : Prop :=
  chain_state U stored (nd_world n) (nd_async n).

Lemma flush_ok stored w a : chain_state U stored w a →
  ∃ w' a', ChainProtectedAsync.on_chain ChainOfTrust.flush (w, a) = (Ok (), (w', a'))
    ∧ chain_state U stored w' a' ∧ timeline_of a' = timeline_of a.
Proof.
  intros [Hl Hag Hp Hin Htl].
  destruct (lf_flush_ok w (log_of a) Hl) as (w' & l' & E & Hl' & _ & Hc).
  eexists w', _. split.
  { unfold ChainProtectedAsync.on_chain, ChainOfTrust.flush, ChainOfTrust.on_redo, on_log,
      RedoLog.flush, RedoLog.on_log_file, on_log.
    fold (redo_of a). fold (log_of a). rewrite E. reflexivity. }
  split; [|done]. split; try done.
  - intros x ex. cbn. rewrite Hc. apply Hag.
  - eapply Forall_impl; [exact Hin|]. intros e' (x & ? & ?). exists x. split; [done|].
    cbn. by rewrite Hc.
Qed.

(** What the chain holds then touches each record as the events that were fed do. *)
Lemma inbox_feed_touches now stored work n n' :
  holds stored n → Forall (in_play U) (tr_events work) →
  InboxPipe.feed display now work n = (Ok (), n') →
  ∃ stored', holds stored' n'
    ∧ (∀ k, List.filter (touches_record k) stored'
            = List.filter (touches_record k) (stored ++ tr_events work))
    ∧ (∀ P : EventWeakData → Prop, Forall P stored → Forall P (tr_events work) → Forall P stored')
    ∧ nd_locks n' = nd_locks n
    ∧ nd_decache n' = nd_decache n ++ [omap (λ e, Metadata.get_data_key (ew_meta e)) (tr_events work)]
    ∧ stored ⊆ stored'.
Proof.
  intros Hst Hplay. unfold InboxPipe.feed, mbind, st_bind, InboxPipe.process, st_mk.
  pose proof (feed_ok display U stored _ _ (nd_sync n) now (tr_events work) Hst Hplay) as Hf.
  destruct (ChainProtectedAsync.feed_async_internal _ _ _ _) as [r [[w a] s]].
  destruct (ChainProtectedAsync.validate_all _ _ _ _) as [[[v errs]|err] s1] eqn:Ev;
    [|by destruct Hf as (-> & _)].
  destruct Hf as (-> & -> & _ & Hall & Hst').
  destruct (validate_all_sublist _ _ _ _ _ _ _ Ev) as (_ & Hh & _).
  destruct errs as [|err [|]]; [|done|done]. cbn [ChainProtectedAsync.raise].
  destruct (flush_ok _ _ _ Hst') as (w2 & a2 & Efl & Hst2 & _).
  unfold InboxPipe.on_async, st_mk. cbn [Node.with_log_size Node.with_sync Node.with_chain nd_world nd_async].
  rewrite Efl. intros Hn.
  assert (n' = Node.with_decache
    (Node.with_chain (Node.with_log_size (Node.with_sync (Node.with_chain n w a) s1)
       (RedoLog.size (co_redo (ca_chain a)))) w2 a2)
    (nd_decache n ++ [omap (λ e, Metadata.get_data_key (ew_meta e)) (tr_events work)])) as ->.
  { by destruct (tr_scope work); simplify_eq/=. }
  eexists. split; [exact Hst2|]. specialize (Hall eq_refl). rewrite <- Hall.
  split; [intros k; by rewrite !List.filter_app, stored_touches|]. split; [|split; [done|split; [done|set_solver]]].
  intros P Hs Hv. apply Forall_app. split; [done|by apply stored_of_forall].
Qed.

Lemma inbox_feed_ok now stored work n n' :
  holds stored n → Forall (in_play U) (tr_events work) →
  InboxPipe.feed display now work n = (Ok (), n') →
  ∃ stored', holds stored' n'
    ∧ (∀ k, current k stored' = current k (stored ++ tr_events work))
    ∧ (∀ P : EventWeakData → Prop, Forall P stored → Forall P (tr_events work) → Forall P stored')
    ∧ nd_locks n' = nd_locks n
    ∧ nd_decache n' = nd_decache n ++ [omap (λ e, Metadata.get_data_key (ew_meta e)) (tr_events work)]
    ∧ stored ⊆ stored'.
Proof.
  intros Hst Hplay Hf. destruct (inbox_feed_touches now stored work n n' Hst Hplay Hf)
    as (stored' & Hst' & Ht & Hrest). exists stored'. split; [done|]. split; [|done].
  intros k. unfold current. by rewrite Ht.
Qed.

Lemma unlock_all_ok now keys : ∀ n,
  let n' := DioMut.unlock_all (InboxPipe.new display now) keys n in
  nd_world n' = nd_world n ∧ nd_async n' = nd_async n
  ∧ nd_locks n' = nd_locks n ∖ list_to_set keys.
Proof.
  induction keys as [|key keys IH]; intros n; cbn; [split; [done|split; [done|set_solver]]|].
  destruct (IH (Node.with_locks n (nd_locks n ∖ {[key]}))) as (-> & -> & ->). cbn.
  split; [done|]. split; [done|]. set_solver.
Qed.

(** The events of a transaction, record by record. *)
Lemma record_events_current clock rnds n d m es k stored :
  tidy m → (∀ s, order s ≡ₚ elements s) →
  DioMut.record_events order clock rnds n d m = Ok es →
  if decide (k ∈ dm_deleted m) then current k (stored ++ es) = None
  else match last_row k m with
       | Some (h, row) => ∃ e, event_of_row n d h row e ∧ current k (stored ++ es) = Some e
       | None => current k (stored ++ es) = current k stored
       end.
Proof.
  intros Htidy Horder. unfold DioMut.record_events.
  intros ([rows tm] & Hr & (tombs & Ht & [= <-])%bind_Ok_inv)%bind_Ok_inv. cbn in *.
  apply row_events_spec in Hr. apply tombstone_events_spec in Ht.
  rewrite app_assoc, (current_tombstones _ _ _ _ Ht).
  assert (k ∈ order (dm_deleted m) ↔ k ∈ dm_deleted m) as Hk
    by by rewrite (Horder _), elem_of_elements.
  destruct (decide (k ∈ dm_deleted m)); [by rewrite decide_True by tauto|].
  rewrite decide_False by tauto.
  assert (Forall (λ hr : RowHeader * RowData, named (rdt_extra_meta hr.2) = []) (DioMut.dirty_rows m))
    as Hx.
  { apply Forall_forall. intros [h row] (h' & _ & Hrow)%list_elem_of_omap. case_decide; [done|].
    apply fmap_Some in Hrow as (row' & Hl & [= -> ->]). by apply Htidy in Hl as [_ ?]. }
  pose proof (current_rows (λ hr e, event_of_row n d hr.1 hr.2 e ∧ named (rdt_extra_meta hr.2) = [])
                k stored (DioMut.dirty_rows m) rows) as Hc.
  unfold last_row. ospecialize* Hc.
  { intros hr e [He Hn]. by destruct (row_event_writes _ _ _ _ _ He Hn). }
  { apply Forall2_same_length_lookup_2; [by eapply Forall2_length|].
    intros i hr e Hi He. split; [exact (Forall2_lookup_lr _ _ _ _ _ _ Hr Hi He)|].
    exact (Forall_lookup_1 _ _ _ _ Hx Hi). }
  destruct (last (List.filter _ _)) as [[h row]|]; [|done].
  destruct Hc as (e & [He _] & Hcur). by exists e.
Qed.

(** C8. A commit that succeeds takes effect, and nothing else changes.  Take a transaction
    with changes, whose rows are under their keys, on a chain that holds [stored], with the
    events it makes in play.  When [commit_ext] returns [Ok], the transaction is empty, and
    on the chain every record that was deleted is gone, every record that was changed has
    as its current event the one made of its last row, and every other record has the event
    it had; the locks that waited for the commit are released, and only those. *)
Theorem commit_takes_effect stored now clock rnds scope timeout n d m n' d' m'
  (Hst : holds stored n) (Htidy : tidy m) (Horder : ∀ s, order s ≡ₚ elements s)
  (Hchanged : DioMutState.has_uncommitted m = true)
  (Hplay : ∀ es evts, DioMut.record_events order clock rnds n d m = Ok es →
     (DioMut.sign_events n d es).1 = Ok evts → Forall (in_play U) evts)
  (Hcommit : DioMut.commit_ext (InboxPipe.new display now) order clock rnds scope timeout (n, d, m)
             = (Ok (), (n', d', m'))) :
  m' = DioMutState.clear m ∧ DioMutState.has_uncommitted m' = false
  ∧ nd_locks n' = nd_locks n ∖ dm_pipe_unlock m
  ∧ ∃ stored', holds stored' n' ∧ ∀ k,
      if decide (k ∈ dm_deleted m) then current k stored' = None
      else match last_row k m with
           | Some (h, row) => ∃ e, event_of_row n d h row e ∧ current k stored' = Some e
           | None => current k stored' = current k stored
           end.
Proof.
  revert Hcommit. unfold DioMut.commit_ext, st_mk. rewrite Hchanged. cbn [negb].
  destruct (DioMut.record_events _ _ _ _ _ _) as [es|err] eqn:Ees; [|done].
  destruct (DioMut.sign_events n d es) as [[evts|err] conv] eqn:Esg; [|done].
  specialize (Hplay es evts eq_refl). rewrite Esg in Hplay. specialize (Hplay eq_refl).
  destruct (sign_events_spec n d es evts) as (proofs & -> & Hproofs); [by rewrite Esg|].
  cbn [ep_feed InboxPipe.new].
  destruct (InboxPipe.feed _ _ _ _) as [[[]|err] n1] eqn:Ef; [|done].
  apply (inbox_feed_ok now stored) in Ef as (stored' & Hst' & Hcur & _ & Hlk & _); [|done|done].
  intros [= <- <- <-].
  destruct (unlock_all_ok now (order (dm_pipe_unlock m)) n1) as (Hw & Ha & Hl).
  split; [done|]. split; [done|]. split.
  { rewrite Hl, Hlk. cbn. apply set_eq. intros k.
    rewrite !elem_of_difference, elem_of_list_to_set, (Horder _), elem_of_elements. done. }
  exists stored'. split; [unfold holds; by rewrite Hw, Ha|]. intros k.
  pose proof (record_events_current clock rnds n d m es k stored Htidy Horder Ees) as Hk.
  rewrite (Hcur k). cbn [tr_events Transaction.from_events].
  by rewrite current_proofs by done.
Qed.

Lemma inbox_feed_locks now work n : nd_locks (InboxPipe.feed display now work n).2 = nd_locks n.
Proof.
  unfold InboxPipe.feed, mbind, st_bind, InboxPipe.process, InboxPipe.on_async, st_mk.
  destruct (ChainProtectedAsync.feed_async_internal _ _ _ _) as [[[]|err] [[w a] s]]; [|done].
  destruct (ChainProtectedAsync.on_chain _ _) as [r [w' a']].
  by destruct (tr_scope work), r.
Qed.

(** The log and the index are as they were. *)
Definition chain_unchanged n n' : Prop := nd_world n' = nd_world n ∧ nd_async n' = nd_async n.

(** C40. A commit that fails has thrown the changes away.  Whatever the error, the
    transaction is empty after it, and no lock that waited for the commit is released; and
    when the error comes before the feeding, the chain is as it was, so that the changes
    are neither on the chain nor in the transaction. *)
Theorem failed_commit_loses_changes now clock rnds scope timeout n d m n' d' m' err
  (Hcommit : DioMut.commit_ext (InboxPipe.new display now) order clock rnds scope timeout (n, d, m)
             = (Err err, (n', d', m'))) :
  m' = DioMutState.clear m ∧ d' = d ∧ nd_locks n' = nd_locks n
  ∧ ((∃ e : FeedErrorKind, err = DioFeed e) ∨ chain_unchanged n n').
Proof.
  revert Hcommit. unfold DioMut.commit_ext, chain_unchanged, st_mk.
  destruct (negb _); [done|].
  destruct (DioMut.record_events _ _ _ _ _ _) as [es|err1]; [|intros [= <- <- <- <-]; by eauto 7].
  destruct (DioMut.sign_events n d es) as [[evts|err1] conv]; [|intros [= <- <- <- <-]; by eauto 7].
  cbn [ep_feed InboxPipe.new].
  pose proof (inbox_feed_locks now (Transaction.from_events evts scope true timeout)
    (Node.with_sync n ((nd_sync n).1, conv))) as Hl.
  destruct (InboxPipe.feed _ _ _ _) as [[[]|err1] n1]; [done|].
  intros [= <- <- <- <-]. by eauto 7.
Qed.
End commit.

(** ** What a transaction holds *)

Section transaction.
Context {D : Type} `{CryptoPrims} `{DataSerializer D}.
Implicit Types (m : DioMutState) (dao : DaoMut D) (k : PrimaryKey).

(** The header and the row of a record are of one key, and the metadata a caller added
    names no record. *)
Definition consistent dao : Prop :=
  rwh_key (dao_header dao) = DaoMut.key dao ∧ named (row_extra_meta (dao_row dao)) = [].

(** One operation of a transaction that succeeds. *)
Inductive change : DioMutState → DioMutState → Prop :=
  | change_commit hc dc dao m m' : consistent dao →
      DaoMut.commit hc dc dao m = (Ok (), m') → change m m'
  | change_delete dao m m' : DaoMut.delete dao m = (Ok (), m') → change m m'
  | change_delete_key {W L} (n : Node W L) k m m' :
      DioMut.delete k n m = (Ok (), m') → change m m'
  | change_as_mut dao m : consistent dao → change m (DaoMut.as_mut dao m)
  | change_lock k m : change m (DioMutState.lock k m)
  | change_cancel m : change m (DioMut.cancel m).

(** Every header that is to be committed has its row, or its record is deleted. *)
Definition covered m : Prop :=
  ∀ h, h ∈ dm_store_ordered m → rwh_key h ∈ dm_deleted m ∨ is_Some (dm_rows m !! rwh_key h).

Definition listed_once m : Prop := map_Forall (λ _ keys, NoDup keys) (dm_store_secondary m).

(** All of it, but for the row of one record. *)
Definition almost_ok (P : PrimaryKey → Prop) m : Prop :=
  tidy m ∧ listed_once m
  ∧ ∀ h, h ∈ dm_store_ordered m →
      P (rwh_key h) ∨ rwh_key h ∈ dm_deleted m ∨ is_Some (dm_rows m !! rwh_key h).

Definition transaction_ok m : Prop := tidy m ∧ covered m ∧ listed_once m.

Lemma almost_all (P : PrimaryKey → Prop) m :
  (∀ k, P k → k ∈ dm_deleted m ∨ is_Some (dm_rows m !! k)) → almost_ok P m ↔ transaction_ok m.
Proof. unfold almost_ok, transaction_ok, covered. naive_solver. Qed.

Lemma list_under_once parent key sec : map_Forall (λ _ keys, NoDup keys) sec →
  map_Forall (λ (_ : MetaCollection) (keys : list PrimaryKey), NoDup keys)
    (DioMutState.list_under parent key sec).
Proof.
  intros Hs. destruct parent as [p|]; [|done]. cbn. case_decide; [done|].
  apply map_Forall_insert_2; [|done]. apply NoDup_app. split; [|split].
  - destruct (sec !! mp_vec p) as [l|] eqn:E; [by eapply Hs|constructor].
  - set_solver.
  - apply NoDup_singleton.
Qed.

Lemma dirty_row_ok row m : named (rdt_extra_meta row) = [] →
  almost_ok (eq (rdt_key row)) m → transaction_ok (DioMutState.dirty_row row m).2.
Proof.
  intros Hx (Ht & Hl & Hc). split; [|split]; cbn.
  - by apply map_Forall_insert_2.
  - intros h Hh. cbn. destruct (decide (rdt_key row = rwh_key h)) as [<-|].
    + right. rewrite lookup_insert_eq. by eexists.
    + rewrite lookup_insert_ne by done. by destruct (Hc h Hh).
  - by apply list_under_once.
Qed.

Lemma removelast_elem {A} (x : A) l : x ∈ removelast l → x ∈ l.
Proof.
  induction l as [|y [|z l] IH]; [done|cbn; set_solver|].
  intros [->|Hx]%elem_of_cons; [by left|right; by apply IH].
Qed.

(** A header of the record that was last made dirty replaces the one it had. *)
Lemma dirty_header_ok h m : transaction_ok m →
  let '(save, m') := DioMutState.dirty_header h m in
  almost_ok (eq (rwh_key h)) m' ∧ dm_rows m' = dm_rows m ∧ (save = false → transaction_ok m').
Proof.
  intros (Ht & Hc & Hl). cbn.
  assert (almost_ok (eq (rwh_key h)) (DioMutState.dirty_header h m).2) as Ha.
  { split; [done|]. split; [by apply list_under_once|]. cbn.
    intros h' [Hh|Hh%list_elem_of_singleton]%elem_of_app; [right|left; by subst].
    apply Hc. case_match; [by apply removelast_elem|done]. }
  split; [done|]. split; [done|]. intros Hs. revert Ha. rewrite almost_all; [done|].
  intros k <-. cbn. destruct (last (dm_store_ordered m)) as [h0|] eqn:El; [|done].
  cbn in Hs. case_bool_decide as Hk; [|done]. rewrite <- Hk. apply Hc.
  apply last_Some in El as (l & ->). set_solver.
Qed.

Lemma as_row_data_inv (r : Row D) h row : Row.as_row_data r h = Ok row →
  rdt_key row = row_key r ∧ rdt_extra_meta row = row_extra_meta r
  ∧ rdt_parent row = rwh_parent h ∧ rdt_auth row = rwh_auth h
  ∧ Row.from_row_data row
    = Ok ({| rwh_key := row_key r; rwh_parent := rwh_parent h; rwh_auth := rwh_auth h |},
          {| row_key := row_key r; row_type_name := row_type_name r; row_created := row_created r;
             row_updated := row_updated r; row_format := row_format r; row_data := row_data r;
             row_collections := row_collections r; row_extra_meta := row_extra_meta r;
             row_is_new := false |}).
Proof.
  unfold Row.as_row_data. intros (data & Hd%map_err_Ok_inv & [= <-])%bind_Ok_inv.
  unfold Row.from_row_data. cbn. by rewrite (data_round_trip _ _ _ Hd).
Qed.

Lemma save_row_ok dao m : consistent dao → almost_ok (eq (DaoMut.key dao)) m →
  match DaoMut.save_row dao m with
  | (Ok _, m') => transaction_ok m' ∧ dm_rows m' !! DaoMut.key dao
                                       = result_ok (Row.as_row_data (dao_row dao) (dao_header dao))
                  ∧ dm_locked m' = dm_locked m ∧ dm_deleted m' = dm_deleted m
  | (Err _, m') => m' = m
  end.
Proof.
  intros [_ Hx] Ha. unfold DaoMut.save_row, st_mk.
  destruct (Row.as_row_data _ _) as [row|] eqn:Er; [|done].
  apply as_row_data_inv in Er as (Hk & Hm & _). unfold DaoMut.key in *. rewrite <- Hm in Hx.
  rewrite <- Hk in *. split; [by apply (dirty_row_ok row)|]. cbn. by rewrite lookup_insert_eq.
Qed.

Lemma almost_ok_any P m : transaction_ok m → almost_ok P m.
Proof. unfold almost_ok, transaction_ok, covered. naive_solver. Qed.

(** Only these parts of the state matter. *)
Lemma transaction_ok_same m m' :
  dm_store_ordered m' = dm_store_ordered m → dm_rows m' = dm_rows m →
  dm_deleted m' = dm_deleted m → dm_store_secondary m' = dm_store_secondary m →
  transaction_ok m → transaction_ok m'.
Proof.
  intros Ho Hr Hd Hs. unfold transaction_ok, tidy, covered, listed_once. by rewrite Ho, Hr, Hd, Hs.
Qed.

Lemma add_deleted_ok k parent m : transaction_ok m → transaction_ok (DioMutState.add_deleted k parent m).
Proof.
  intros (Ht & Hc & Hl). split; [|split]; cbn.
  - by apply map_Forall_delete.
  - intros h Hh. cbn. destruct (decide (k = rwh_key h)) as [->|]; [left; set_solver|].
    rewrite lookup_delete_ne by done. destruct (Hc h Hh); [left; set_solver|by right].
  - destruct parent as [p|]; [|done]. intros c keys. cbn. intros Hk.
    destruct (decide (c = mp_vec p)) as [->|].
    + rewrite lookup_alter_eq in Hk. apply fmap_Some in Hk as (keys' & Hk & ->).
      apply NoDup_ListNoDup, List.NoDup_filter, NoDup_ListNoDup. by eapply Hl.
    + rewrite lookup_alter_ne in Hk by done. by eapply Hl.
Qed.

Lemma forget_header_ok k m : transaction_ok m → transaction_ok (DioMutState.forget_header k m).
Proof.
  intros (Ht & Hc & Hl). split; [done|]. split; [|done]. intros h Hh. apply Hc. cbn in Hh.
  apply list_elem_of_In, filter_In in Hh as [Hh _]. by apply list_elem_of_In.
Qed.

(** The end of [DaoMut.commit]: the header is made dirty, and the row saved with it unless
    it has been. *)
Lemma commit_header_ok (wrote : bool) dao m m' : consistent dao → transaction_ok m →
  (save ← st_mk (λ m, let '(b, m) := DioMutState.dirty_header (dao_header dao) m in (Ok b, m));
   if (save : bool) && negb wrote then _ ← DaoMut.save_row dao; mret () else mret ()) m
  = (Ok (), m') →
  (wrote = true → is_Some (dm_rows m !! DaoMut.key dao)) →
  transaction_ok m' ∧ dm_deleted m' = dm_deleted m ∧ dm_locked m' = dm_locked m
  ∧ dm_rows m' !! DaoMut.key dao
    = (if (DioMutState.dirty_header (dao_header dao) m).1 && negb wrote
       then result_ok (Row.as_row_data (dao_row dao) (dao_header dao)) else dm_rows m !! DaoMut.key dao).
Proof.
  intros Hcon Hok Hrun Hrow. pose proof (dirty_header_ok (dao_header dao) m Hok) as Hh.
  revert Hrun. unfold mbind at 1, st_bind, st_mk.
  destruct (DioMutState.dirty_header _ _) as [save m2] eqn:Eh.
  destruct Hh as (Ha & Hr & Hs). destruct Hcon as [Hk Hx].
  assert (dm_deleted m2 = dm_deleted m ∧ dm_locked m2 = dm_locked m) as [Hd Hlk]
    by by injection Eh as <- <-.
  rewrite Hk in Ha. cbn [fst]. destruct (save && negb wrote) eqn:Esave.
  - pose proof (save_row_ok dao m2 (conj Hk Hx) Ha) as Hsv. unfold mbind, st_bind.
    destruct (DaoMut.save_row dao m2) as [[b|] m3]; [|done]. intros [= <-].
    destruct Hsv as (? & ? & ? & ?). split; [done|]. split; [congruence|]. split; [congruence|done].
  - intros [= <-]. split; [|by rewrite Hr; auto].
    destruct save; [|by apply Hs]. destruct wrote; [|done].
    apply (almost_all (eq (DaoMut.key dao))); [|done]. intros k <-. right. rewrite Hr. by apply Hrow.
Qed.

(** Whether a change of the header or of the data of a record reaches its row: a change of the
    header alone does not when the record is the one that was made dirty last. *)
Definition reaches_row (hc dc : bool) dao m : Prop :=
  dc = true ∨ hc = true ∧ rwh_key <$> last (dm_store_ordered m) ≠ Some (DaoMut.key dao).

(** What [DaoMut.commit] does to a record that is not to be deleted. *)
Lemma commit_ok hc dc dao m m' : consistent dao → dao_lock dao ≠ LockedThenDelete →
  transaction_ok m → DaoMut.commit hc dc dao m = (Ok (), m') →
  transaction_ok m' ∧ dm_deleted m' = dm_deleted m
  ∧ dm_locked m' = dm_locked m ∖ {[DaoMut.key dao]}
  ∧ (reaches_row hc dc dao m → dm_rows m' !! DaoMut.key dao
                 = result_ok (Row.as_row_data (dao_row dao) (dao_header dao))).
Proof.
  intros Hcon Hlock Hok Hrun.
  assert (∃ m1, transaction_ok m1 ∧ dm_deleted m1 = dm_deleted m
    ∧ dm_locked m1 = dm_locked m ∖ {[DaoMut.key dao]} ∧ dm_store_ordered m1 = dm_store_ordered m
    ∧ (wrote_data ← (if dc then DaoMut.save_row dao else mret false);
       if hc || (wrote_data : bool) then
         save ← st_mk (λ m, let '(b, m) := DioMutState.dirty_header (dao_header dao) m in (Ok b, m));
         if (save : bool) && negb wrote_data then _ ← DaoMut.save_row dao; mret () else mret ()
       else mret ()) m1 = (Ok (), m')) as (m1 & Hok1 & <- & <- & Hord & Hrun1).
  { revert Hrun. unfold DaoMut.commit, st_mk. destruct (dao_lock dao); try done; intros Hrun;
      (eexists; split; [|split; [|split; [|split; [|exact Hrun]]]]); try done; by eapply transaction_ok_same. }
  unfold reaches_row. rewrite <- Hord. clear m Hord Hrun Hok. revert Hrun1. unfold mbind at 1, st_bind. destruct dc.
  - pose proof (save_row_ok dao m1 Hcon (almost_ok_any _ _ Hok1)) as Hsv.
    destruct (DaoMut.save_row dao m1) as [[wrote|] m2] eqn:Esv; [|done].
    destruct Hsv as (Hok2 & Hr2 & <- & <-). destruct (hc || wrote).
    + intros Hrun. destruct (commit_header_ok wrote dao m2 m' Hcon Hok2 Hrun) as (? & ? & ? & Hr).
      { intros _. rewrite Hr2. revert Esv. unfold DaoMut.save_row, st_mk.
        destruct (Row.as_row_data _ _); [by eexists|done]. }
      split; [done|]. split; [done|]. split; [done|]. intros _. rewrite Hr, Hr2. by case_match.
    + intros [= <-]. done.
  - cbn. destruct hc; cbn; [|intros [= <-]; do 3 (split; [done|]); by intros [|[]]].
    intros Hrun. destruct (commit_header_ok false dao m1 m' Hcon Hok1 Hrun) as (? & ? & ? & Hr); [done|].
    do 3 (split; [done|]). intros [|[_ Hlast]]; [done|]. rewrite Hr. unfold DioMutState.dirty_header. cbn.
    destruct Hcon as [Hk _]. destruct (last (dm_store_ordered m1)) as [h|]; [|done]. cbn in Hlast.
    by rewrite bool_decide_false by congruence.
Qed.

(** A change that reaches the row has made a row of it. *)
Lemma commit_row_ok hc dc dao m m' : consistent dao → dao_lock dao ≠ LockedThenDelete → reaches_row hc dc dao m →
  DaoMut.commit hc dc dao m = (Ok (), m') → is_Some (result_ok (Row.as_row_data (dao_row dao) (dao_header dao))).
Proof.
  intros [Hk _] Hlock Hr. destruct (Row.as_row_data _ _) as [row|e] eqn:E; [by eexists|]. intros Hcommit. exfalso.
  assert (∀ m, DaoMut.save_row dao m = (Err e, m)) as Hs by (intros m0; unfold DaoMut.save_row, st_mk; by rewrite E).
  revert Hcommit. unfold DaoMut.commit, mbind, st_bind, st_mk.
  destruct Hr as [->|[-> Hlast]]; [destruct (dao_lock dao); by rewrite ?Hs|].
  destruct dc; [destruct (dao_lock dao); by rewrite ?Hs|].
  assert (∀ m1, dm_store_ordered m1 = dm_store_ordered m → (DioMutState.dirty_header (dao_header dao) m1).1 = true) as Hd.
  { intros m1 Ho. unfold DioMutState.dirty_header. rewrite Ho. cbn. destruct (last (dm_store_ordered m)) as [h|]; [|done].
    cbn in Hlast. by rewrite bool_decide_false by congruence. }
  cbn [mret st_ret orb]. destruct (dao_lock dao); try done;
    match goal with |- context [DioMutState.dirty_header _ ?m1] => specialize (Hd m1 eq_refl);
      destruct (DioMutState.dirty_header (dao_header dao) m1) as [b m2] end;
    cbn in Hd; subst b; cbn; by rewrite Hs.
Qed.

(** What a transaction holds is fit to be committed.  Start empty and make any changes
    that succeed: the rows are under their keys and name no other record, every header
    that was made dirty has its row or its record is deleted, so that the commit leaves
    none out, and no key is listed twice in a collection. *)
Theorem transaction_invariant m (Hreach : rtc change DioMutState.new m) : transaction_ok m.
Proof.
  remember DioMutState.new as m0 eqn:E.
  assert (transaction_ok m0) as Hok.
  { subst. split; [done|]. split; [|done]. intros h Hh. by apply elem_of_nil in Hh. }
  clear E. induction Hreach as [|m0 m1 m2 Hstep _ IH]; [done|]. apply IH.
  clear IH m2. destruct Hstep as
    [hc dc dao m m' Hcon Hc | dao m m' Hd | W L n k m m' Hd | dao m [Hk Hx] | k m | m].
  - destruct (dao_lock dao) eqn:El; [| |]; try (by eapply commit_ok; [done|rewrite El|done|done]).
    revert Hc. unfold DaoMut.commit, st_mk. rewrite El. intros [= <-].
    apply add_deleted_ok. by eapply transaction_ok_same.
  - injection Hd as <-. by apply add_deleted_ok.
  - revert Hd. unfold DioMut.delete, st_mk. repeat case_match; try done. intros [= <-].
    by apply add_deleted_ok, forget_header_ok.
  - unfold DaoMut.as_mut. destruct (dm_rows m !! _) eqn:El; [done|].
    destruct (Row.as_row_data _ _) as [row|] eqn:Er; [|done].
    apply as_row_data_inv in Er as (Hk' & Hm & _). destruct Hok as (Ht & Hc & Hl).
    split; [|split; [|done]].
    + apply map_Forall_insert_2; [|done]. split; [done|congruence].
    + intros h Hh. cbn. destruct (Hc h Hh) as [?|[r Hr]]; [by left|right].
      destruct (decide (DaoMut.key dao = rwh_key h)) as [->|]; [rewrite lookup_insert_eq|
        rewrite lookup_insert_ne by done]; by eexists.
  - by eapply transaction_ok_same.
  - split; [done|]. split; [|done]. intros h Hh. by apply elem_of_nil in Hh.
Qed.
End transaction.

Section own.
Context {W L D : Type} `{CryptoPrims} `{KemPrims} `{MetaSerializer} `{SnapFrames} `{!LogFile W L}.
Context `{!DataSerializer D}.
Variable pipe : EventPipe (Node W L).
Implicit Types (n : Node W L) (d : Dio) (m : DioMutState) (dao : DaoMut D).

(** C11. A transaction reads its own writes.  After the data of a record has been changed, or its
    parent or its authorization while another record was made dirty in between, loading the record
    within the transaction gives the new data, parent and authorization, whatever the chain and the
    cache have, and it exists; after the record has been deleted it does not exist and does not
    load. *)
Theorem transaction_reads_own_writes n d m hc dc dao m'
  (Hcon : consistent dao) (Hlock : dao_lock dao ≠ LockedThenDelete) (Hok : transaction_ok m)
  (Hnot : DaoMut.key dao ∉ dm_deleted m) (Hsaved : reaches_row hc dc dao m)
  (Hcommit : DaoMut.commit hc dc dao m = (Ok (), m')) :
  DioMut.exists_ (DaoMut.key dao) (n, d, m') = true
  ∧ (∃ dao', DioMut.load pipe (DaoMut.key dao) (n, d, m') = (Ok dao', (n, d, m'))
             ∧ row_data (dao_row dao') = row_data (dao_row dao)
             ∧ row_format (dao_row dao') = row_format (dao_row dao)
             ∧ dao_header dao' = dao_header dao ∧ dao_lock dao' = Unlocked)
  ∧ (∀ m'', DaoMut.delete dao m' = (Ok (), m'') →
       DioMut.exists_ (DaoMut.key dao) (n, d, m'') = false
       ∧ DioMut.load pipe (D := D) (DaoMut.key dao) (n, d, m'')
         = (Err (ObjectStillLocked (DaoMut.key dao)), (n, d, m''))).
Proof.
  destruct (commit_ok _ _ _ _ _ Hcon Hlock Hok Hcommit) as (_ & Hd & Hl & Hrow).
  specialize (Hrow Hsaved). rewrite <- Hd in Hnot.
  assert (is_Some (result_ok (Row.as_row_data (dao_row dao) (dao_header dao)))) as [row Er]
    by by eapply commit_row_ok.
  rewrite Er in Hrow. destruct (Row.as_row_data _ _) as [row'|] eqn:E; [|done]. injection Er as ->.
  apply as_row_data_inv in E as (_ & _ & _ & _ & Hfrom). unfold DioMut.exists_, DioMut.load, st_mk.
  split; [by rewrite decide_False, Hrow by done|]. split.
  - unfold DioMutState.is_locked. rewrite bool_decide_false by (rewrite Hl; set_solver).
    rewrite decide_False, Hrow, Hfrom by done. eexists. split; [done|]. cbn.
    destruct Hcon as [Hk _]. destruct (dao_header dao). cbn in *. by subst.
  - intros m'' [= <-]. unfold DioMutState.is_locked. cbn.
    rewrite decide_True, bool_decide_true by set_solver. done.
Qed.
End own.

(** ** Reading through a cache *)

Section reading.
Context {W L D : Type} `{CryptoPrims} `{KemPrims} `{MetaSerializer} `{SnapFrames}.
Context `{!LogFile W L} `{!LogFileSpec W L} `{!DataSerializer D}.
Variable display : ValidationErrorKind → string.
Variable now : option Z.
Variable U : AteHash → option EventWeakData.
Implicit Types (n : Node W L) (d : Dio) (e : EventWeakData) (k : PrimaryKey)
  (stored : list EventWeakData).

(** An event is of one record, and has its data with it. *)
Definition plain e : Prop :=
  MessageBytes.is_lazy (ew_data_bytes e) = false
  ∧ ∀ k, touches_record k e = true → Metadata.get_data_key (ew_meta e) = Some k.

(** The event as the caller of the data layer sees it. *)
Definition read_as (sync : ChainProtectedSync) (session : AteSession) e (evt : EventStrongData) : Prop :=
  ∃ raw b, ew_data_bytes e = BytesSome raw
    ∧ ChainProtectedSync.data_as_overlay sync (forget_cache (ew_meta e)) raw session = Ok b
    ∧ forget_cache (es_meta evt) = forget_cache (ew_meta e)
    ∧ es_data_bytes evt = Some b ∧ es_format evt = ew_format e.

(** Loading touches nothing but the log. *)
Definition same_but_log n n' : Prop :=
  nd_sync n' = nd_sync n ∧ nd_locks n' = nd_locks n ∧ nd_decache n' = nd_decache n
  ∧ timeline_of (nd_async n') = timeline_of (nd_async n).

Lemma current_plain k stored e : Forall plain stored → current k stored = Some e →
  ∃ raw, ew_data_bytes e = BytesSome raw ∧ Metadata.get_data_key (ew_meta e) = Some k.
Proof.
  intros Hp Hc. pose proof (current_elem _ _ _ Hc) as He. rewrite Forall_forall in Hp.
  destruct (Hp e He) as [Hl Hk]. revert Hc. unfold current.
  destruct (last _) as [e'|] eqn:El; [|done].
  apply last_filter_Some in El as (l1 & l2 & _ & Ht & _).
  destruct (removes_record k e') eqn:Hr; [done|]. intros [= ->].
  specialize (Hk k Ht). revert Ht. unfold touches_record. rewrite Hr. cbn. unfold writes_record.
  destruct (Metadata.get_tombstone _); [done|]. intros [Hs _]%andb_prop.
  destruct (ew_data_bytes e); [by eexists|done|done].
Qed.

Lemma load_strong n leaf raw w' c' lw :
  ChainOfTrust.load leaf (nd_world n, ca_chain (nd_async n)) = (Ok lw, (w', c')) →
  ew_data_bytes (lw_data lw) = BytesSome raw →
  ChainMultiUser.load (InboxPipe.new display now) leaf n
  = (Ok (ChainMultiUser.strong_result lw (Some raw)),
     Node.with_chain n w' (ChainProtectedAsync.with_chain (nd_async n) c')).
Proof.
  intros E Hraw. unfold ChainMultiUser.load, ChainMultiUser.load_weak, mbind, st_bind, st_map_err,
    InboxPipe.on_async, ChainProtectedAsync.on_chain, on_log, st_mk.
  rewrite E. cbn [map_err]. by rewrite Hraw.
Qed.

(** What reading an event off the log gives. *)
Definition fetched e (data : EventStrongData) (header : EventHeader) : Prop :=
  ∃ raw, ew_data_bytes e = BytesSome raw ∧ es_data_bytes data = Some raw
    ∧ forget_cache (es_meta data) = forget_cache (ew_meta e) ∧ es_format data = ew_format e
    ∧ eh_meta header = forget_cache (ew_meta e).

Lemma fetch_stored stored n d leaf e raw : holds U stored n → e ∈ stored →
  hash_of e = Some (leaf_record leaf) → ew_data_bytes e = BytesSome raw →
  ∃ data header n', Dio.fetch (InboxPipe.new display now) leaf (n, d) = (Ok (data, header), (n', d))
    ∧ holds U stored n' ∧ same_but_log n n' ∧ fetched e data header.
Proof.
  intros Hst He Hhash Hraw.
  destruct (load_stored U stored _ _ e leaf Hst He Hhash) as (ld & w' & c' & E & Hld & Htl & Hst').
  destruct Hld as (_ & Hev & Hf & _ & _ & _ & (m & Hm & Hfm) & _).
  pose proof (f_equal ew_meta Hev) as Hemeta. pose proof (f_equal ew_data_bytes Hev) as Hedata.
  pose proof (f_equal ew_format Hev) as Hefmt. cbn in Hemeta, Hedata, Hefmt, Hf, Hm, Hfm.
  eexists _, _, (Node.with_chain n w' (ChainProtectedAsync.with_chain (nd_async n) c')). split; [|split; [done|split; [done|]]].
  - unfold Dio.fetch. erewrite st_bind_Ok; [|apply (st_map_err_run _ _ _ _ (Ok _)); unfold Dio.on_node, st_mk;
      rewrite (load_strong n leaf raw _ _ _ E) by (cbn; congruence); reflexivity].
    cbn [ls_header ls_data ChainMultiUser.strong_result lw_header lw_data].
    unfold EventHeaderRaw.as_header. rewrite Hf, Hm. unfold mbind at 1, st_bind, st_mk. cbn [mbind result_bind map_err].
    reflexivity.
  - exists raw. cbn. rewrite <- (meta_deserialize_forget _ _ _ Hm), Hfm. done.
Qed.

Lemma load_uncached stored n d k : holds U stored n → Forall plain stored →
  dio_cache_load d !! k = None →
  match current k stored with
  | None => Dio.load (D := D) (InboxPipe.new display now) k (n, d) = (Err (NotFound k), (n, d))
  | Some e => ∃ raw leaf n' meta,
      ew_data_bytes e = BytesSome raw ∧ forget_cache meta = forget_cache (ew_meta e)
      ∧ holds U stored n' ∧ same_but_log n n'
      ∧ Dio.load (D := D) (InboxPipe.new display now) k (n, d)
        = match Dio.overlay n (forget_cache (ew_meta e)) raw (dio_session d) with
          | Err x => (Err (DioTransformation x), (n', d))
          | Ok b =>
              let evt := {| es_meta := meta; es_data_bytes := Some b; es_format := ew_format e |} in
              match Dio.row_of evt leaf with
              | Err x => (Err x, (n', d))
              | Ok row => (Ok row, (n', Dio.with_cache d (<[k := (evt, leaf)]> (dio_cache_load d))))
              end
          end
  end.
Proof.
  intros Hst Hp Hcache. pose proof (state_current U stored _ _ k Hst) as Hk.
  unfold Dio.load, st_mk. rewrite Hcache. destruct (current k stored) as [e|] eqn:Ec.
  2: { apply st_bind_Err. unfold Dio.look_up, st_mk, ChainMultiUser.lookup_primary. by rewrite Hk. }
  destruct Hk as (leaf & Hl & Hhash).
  destruct (current_plain _ _ _ Hp Ec) as (raw & Hraw & Hkey).
  destruct (fetch_stored stored n d leaf e raw Hst (current_elem _ _ _ Ec) Hhash Hraw)
    as (data & header & n' & E & Hst' & Hsame & (raw' & Hraw' & Hdata & Hmeta & Hfmt & Hhead)).
  assert (raw' = raw) as -> by congruence.
  exists raw, leaf, n', (es_meta data). do 4 (split; [done|]).
  rewrite (st_bind_Ok (Dio.look_up k) _ (n, d) (n, d) leaf)
    by (unfold Dio.look_up, st_mk, ChainMultiUser.lookup_primary; by rewrite Hl).
  unfold Dio.load_from_entry. rewrite (st_bind_Ok _ _ _ _ _ E). cbn [fst snd].
  unfold Dio.load_from_event, Dio.overlay_event, Dio.cache_event, mbind, st_bind, st_mk.
  rewrite Hdata, Hhead, get_data_key_forget, Hkey, Hfmt.
  assert (Dio.overlay n' = Dio.overlay n) as -> by (unfold Dio.overlay; by rewrite (proj1 Hsame)).
  destruct (Dio.overlay n _ _ _) as [b|]; [|done]. cbn. by destruct (Dio.row_of _ _).
Qed.

(** *** Reading back what was committed *)

(** What the linters of a chain with the default plugins add: the part of the tree of
    authorities that concerns reading comes last. *)
Lemma default_lint s ar te t time meta session tm code ms :
  default_chain s ar te t → Forall (λ l, l = EventAuthorLinter) (cs_linters s) →
  ChainProtectedSync.metadata_lint_event s time meta session tm code = Ok ms →
  ∃ pre conf, ms = pre ++ conf
    ∧ TreeAuthorityPlugin.lint_confidentiality t meta session tm code = Ok conf
    ∧ Metadata.get_confidentiality {| meta_core := pre |} = None
    ∧ Metadata.get_iv {| meta_core := pre |} = None.
Proof.
  intros [_ Hp] Hl. unfold ChainProtectedSync.metadata_lint_event. rewrite Hp. clear Hp.
  revert ms. induction Hl as [|l ls -> _ IH]; intros ms; cbn.
  - intros (r0 & Hr0 & [= <-])%bind_Ok_inv.
    apply bind_Ok_inv in Hr0 as (ts & Hts & (r1 & (r2 & Hr2 & [= <-])%bind_Ok_inv & [= <-])%bind_Ok_inv).
    revert Hr2. unfold TreeAuthorityPlugin.metadata_lint_event.
    intros (sw & Hsw & (conf & Hconf & [= <-])%bind_Ok_inv)%bind_Ok_inv.
    exists (ts ++ sw), conf. rewrite app_nil_r, app_assoc. split; [done|]. split; [done|].
    assert (Forall (λ c, match c with CoreTimestamp _ | CoreSignWith _ => True | _ => False end)
              (ts ++ sw)) as Hcs.
    { apply Forall_app. split.
      - revert Hts. unfold TimestampEnforcer.metadata_lint_event.
        destruct (Metadata.get_timestamp meta); [by intros [= <-]|].
        intros (x & _ & [= <-])%bind_Ok_inv. by repeat constructor.
      - revert Hsw. unfold TreeAuthorityPlugin.lint_sign_with.
        intros (auth & _ & Hw)%bind_Ok_inv. repeat case_match; simplify_eq; by repeat constructor. }
    rewrite Forall_forall in Hcs. unfold Metadata.get_confidentiality, Metadata.get_iv.
    split; apply find_map_None; intros c Hc%Hcs; by destruct c.
  - intros (rest & Hrest & [= <-])%bind_Ok_inv.
    destruct (IH _ Hrest) as (pre & conf & -> & ? & ? & ?). by exists (CoreAuthor (ss_identity session) :: pre), conf.
Qed.

(** C10. What is committed is what is read.  Take the event a commit made of a row, on a chain
    with the default plugins, and let it be current on the same chain later or on another
    one.  When the tree of authorities gives the row one read option while it is linted,
    encrypted and read, and the reader's first key of that option is the writer's, loading
    the record succeeds, and gives the data the row was saved with. *)
Theorem committed_row_reads_back stored n n2 d d2 h row (x : D) e rnds time tm tm' meta extra
  ar ar' te te' t t' auth auth'
  (Hchain : default_chain (nd_sync n).1 ar te t) (Hchain2 : default_chain (nd_sync n2).1 ar' te' t')
  (Hlinters : Forall (λ l, l = EventAuthorLinter) (cs_linters (nd_sync n).1))
  (Hsnap : Forall (λ t, t = CompressorWithSnapTransformer) (cs_transformers (nd_sync n).1))
  (Hsame : cs_transformers (nd_sync n2).1 = cs_transformers (nd_sync n).1)
  (Hmeta : DioMut.row_meta n d time h row = Ok meta)
  (Hconf : Metadata.get_confidentiality meta = None) (Hiv : Metadata.get_iv meta = None)
  (Hlint : ChainProtectedSync.metadata_lint_event (nd_sync n).1 time meta (dio_session d) tm
             (rdt_type_name row) = Ok extra)
  (Hrow : DioMut.row_event rnds n d time tm h row = Ok (e, tm'))
  (Hauth : TreeAuthorityPlugin.compute_auth t meta tm AfterStore = Ok auth)
  (Hauth1 : ma_read <$> TreeAuthorityPlugin.compute_auth t
              {| meta_core := meta_core meta ++ extra |} tm' AfterStore = Ok (ma_read auth))
  (Hauth2 : TreeAuthorityPlugin.compute_auth t' (forget_cache (ew_meta e))
              TransactionMetadata_default AfterStore = Ok auth')
  (Hread : ma_read auth' = ma_read auth)
  (Hkeys : ∀ hash derived, ma_read auth = ReadSpecific hash derived →
     TreeAuthorityPlugin.first_read_key (dio_session d2) hash derived
     = TreeAuthorityPlugin.first_read_key (dio_session d) hash derived)
  (Hst : holds U stored n2) (Hplain : Forall plain stored)
  (Hcur : current (rdt_key row) stored = Some e) (Hmiss : dio_cache_load d2 !! rdt_key row = None)
  (Hdata : data_deserialize (mf_data (rdt_format row)) (rdt_data row) = Ok x) :
  ∃ h' r s', Dio.load (InboxPipe.new display now) (rdt_key row) (n2, d2) = (Ok (h', r), s')
    ∧ rwh_key h' = rdt_key row ∧ row_key r = rdt_key row ∧ row_data r = x.
Proof.
  pose proof (load_uncached stored n2 d2 _ Hst Hplain Hmiss) as Hl. rewrite Hcur in Hl.
  destruct Hl as (raw & leaf & n' & meta2 & Hraw & Hmeta2 & _ & _ & Hl).
  destruct (current_plain _ _ _ Hplain Hcur) as (_ & _ & Hkey).
  destruct (default_lint _ _ _ _ _ _ _ _ _ _ Hchain Hlinters Hlint) as (pre & conf & -> & Hlc & Hpc & Hpi).
  revert Hrow. unfold DioMut.row_event. rewrite Hmeta. cbn [mbind result_bind]. rewrite Hlint.
  cbn [mbind result_bind map_err].
  destruct (ChainProtectedSync.data_as_underlay _ _ _ _ _ _) as [[data|err] meta3] eqn:Eu; [|done].
  cbn. intros [= <- <-]. cbn [ew_data_bytes ew_meta ew_format] in Hraw, Hauth2, Hmeta2, Hkey, Hl. injection Hraw as ->.
  rewrite app_assoc in Eu.
  assert (Dio.overlay n2 (forget_cache meta3) raw (dio_session d2) = Ok (rdt_data row)) as Hover.
  { refine (layers_read_back rnds _ _ ar ar' te te' t t' meta
              {| meta_core := meta_core meta ++ pre |} _ _ _ tm _ _ conf _ _ auth auth'
              Hchain Hchain2 Hsnap Hsame _ _ Hlc Eu Hauth _ Hauth2 Hread Hkeys).
    - by rewrite get_confidentiality_append.
    - by rewrite get_iv_append.
    - intros ->. rewrite !app_nil_r in *. exact Hauth1. }
  rewrite Hover in Hl. unfold Dio.row_of, Row.from_event in Hl.
  cbn [es_meta es_data_bytes es_format] in Hl.
  rewrite <- (get_data_key_forget meta2), Hmeta2, get_data_key_forget, Hkey, Hdata in Hl.
  do 3 eexists. split; [exact Hl|done].
Qed.

(** *** The cache *)

(** How many messages the channel keeps for a receiver. *)
Variable capacity : nat.

Definition fresh stored d k (evt : EventStrongData) : Prop :=
  ∃ e sync, current k stored = Some e ∧ read_as sync (dio_session d) e evt.

(** The invalidations that were sent and not received. *)
Definition pending n d : list PrimaryKey := mjoin (drop (dio_cursor d) (nd_decache n)).

(** What is in the cache is current, or its invalidation is on its way. *)
Record reading_ok stored n d : Prop := {
  rd_holds : holds U stored n;
  rd_plain : Forall plain stored;
  rd_cursor : (dio_cursor d ≤ length (nd_decache n) ≤ dio_cursor d + capacity)%nat;
  rd_cache : ∀ k evt leaf, dio_cache_load d !! k = Some (evt, leaf) →
    fresh stored d k evt ∨ k ∈ pending n d;
}.

(** A load that is on its way: the key it is of, and what it has come to. *)
Inductive Loading : Type :=
  | ToLookUp (k : PrimaryKey)
  | ToFetch (k : PrimaryKey) (leaf : EventLeaf)
  | ToOverlay (k : PrimaryKey) (data : EventStrongData) (header : EventHeader) (leaf : EventLeaf)
  | ToCache (k : PrimaryKey) (data : EventStrongData) (header : EventHeader) (leaf : EventLeaf).

(** What it does under its next lock; it ends with a row or an error. *)
Definition advance (l : Loading) : st (Node W L * Dio) DioLoadErrorKind (option Loading) :=
  match l with
  | ToLookUp k => leaf ← Dio.look_up k; mret (Some (ToFetch k leaf))
  | ToFetch k leaf =>
      evt ← Dio.fetch (InboxPipe.new display now) leaf; mret (Some (ToOverlay k evt.1 evt.2 leaf))
  | ToOverlay k data header leaf =>
      data ← Dio.overlay_event data header; mret (Some (ToCache k data header leaf))
  | ToCache k data header leaf => _ ← Dio.cache_event (D := D) data header leaf; mret None
  end.

(** The record whose entry of the index it has seen. *)
Definition seen (l : Loading) : option PrimaryKey :=
  match l with ToLookUp _ => None | ToFetch k _ | ToOverlay k _ _ _ | ToCache k _ _ _ => Some k end.

(** A reader misses a record in its cache and sets out to load it; a load goes on to its next lock;
    a batch is admitted, from anyone, while the channel has room; a message of the channel is
    received, which names no record that a load has looked up and not yet cached. *)
Inductive read_step : Node W L * Dio * list Loading → Node W L * Dio * list Loading → Prop :=
  | step_start k n d ls : dio_cache_load d !! k = None → read_step (n, d, ls) (n, d, ToLookUp k :: ls)
  | step_load l n d ls1 ls2 r n' d' :
      advance l (n, d) = (r, (n', d')) →
      read_step (n, d, ls1 ++ l :: ls2) (n', d', ls1 ++ option_list (default None (result_ok r)) ++ ls2)
  | step_feed time work n d n' ls :
      Forall (in_play U) (tr_events work) → Forall plain (tr_events work) →
      (length (nd_decache n) < dio_cursor d + capacity)%nat →
      InboxPipe.feed display time work n = (Ok (), n') → read_step (n, d, ls) (n', d, ls)
  | step_decache n d ls :
      (∀ keys l k, nd_decache n !! dio_cursor d = Some keys → l ∈ ls → seen l = Some k → k ∉ keys) →
      read_step (n, d, ls) (n, Dio.decache_step capacity n d, ls).

Lemma forget_lookup keys d k : dio_cache_load (Dio.forget keys d) !! k
  = if decide (k ∈ keys) then None else dio_cache_load d !! k.
Proof.
  unfold Dio.forget. cbn. generalize (dio_cache_load d) as c.
  induction keys as [|key keys IH]; intros c; [done|]. cbn. rewrite IH.
  destruct (decide (k ∈ keys)); [by rewrite decide_True by set_solver|].
  destruct (decide (k = key)) as [->|].
  - rewrite decide_True by set_solver. by rewrite lookup_delete_eq.
  - rewrite decide_False by set_solver. by rewrite lookup_delete_ne.
Qed.

(** An event is the current one of its record, or the record has an invalidation on its way. *)
Definition timely stored n d k e : Prop := current k stored = Some e ∨ k ∈ pending n d.

(** What a load has in hand is of an event of the chain that is timely. *)
Definition loading_ok stored n d (l : Loading) : Prop :=
  match l with
  | ToLookUp _ => True
  | ToFetch k leaf => ∃ e raw, e ∈ stored ∧ hash_of e = Some (leaf_record leaf) ∧ ew_data_bytes e = BytesSome raw
      ∧ Metadata.get_data_key (ew_meta e) = Some k ∧ timely stored n d k e
  | ToOverlay k data header leaf => ∃ e, fetched e data header
      ∧ Metadata.get_data_key (ew_meta e) = Some k ∧ timely stored n d k e
  | ToCache k data header leaf => ∃ e sync, read_as sync (dio_session d) e data
      ∧ Metadata.get_data_key (eh_meta header) = Some k ∧ timely stored n d k e
  end.

Definition readers_ok stored (s : Node W L * Dio * list Loading) : Prop :=
  reading_ok stored s.1.1 s.1.2 ∧ Forall (loading_ok stored s.1.1 s.1.2) s.2.

Lemma loading_ok_mono stored stored' n n' d d' l : dio_session d' = dio_session d → stored ⊆ stored' →
  (∀ k e, seen l = Some k → timely stored n d k e → timely stored' n' d' k e) →
  loading_ok stored n d l → loading_ok stored' n' d' l.
Proof.
  intros Hs Hsub Ht. destruct l as [k|k leaf|k data header leaf|k data header leaf]; cbn in *; [done| | |].
  - intros (e & raw & He & Hh & Hraw & Hk & Hc). exists e, raw. repeat (split; [by eauto|]). by eauto.
  - intros (e & Hf & Hk & Hc). exists e. repeat (split; [by eauto|]). by eauto.
  - intros (e & sync & Hr & Hk & Hc). rewrite Hs. exists e, sync. repeat (split; [by eauto|]). by eauto.
Qed.

(** The next lock of a load leaves everything in order, and so is what it has then. *)
Lemma advance_ok stored n d l r n' d' : reading_ok stored n d → loading_ok stored n d l →
  advance l (n, d) = (r, (n', d')) →
  reading_ok stored n' d' ∧ dio_session d' = dio_session d
  ∧ (∀ k e, timely stored n d k e → timely stored n' d' k e)
  ∧ Forall (loading_ok stored n' d') (option_list (default None (result_ok r))).
Proof.
  intros Hok Hl. pose proof Hok as [Hh Hp Hcur Hc]. unfold advance, mbind, st_bind.
  destruct l as [k|k leaf|k data header leaf|k data header leaf]; cbn in Hl.
  - unfold Dio.look_up, st_mk, ChainMultiUser.lookup_primary. pose proof (state_current U stored _ _ k Hh) as Hk.
    destruct (current k stored) as [e|] eqn:Ec; [|rewrite Hk; intros [= <- <- <-]; do 3 (split; [done|]); constructor].
    destruct Hk as (leaf & -> & Hhash). intros [= <- <- <-]. do 3 (split; [done|]). constructor; [|constructor].
    destruct (current_plain _ _ _ Hp Ec) as (raw & Hraw & Hkey). exists e, raw.
    split; [by eapply current_elem|]. repeat (split; [done|]). by left.
  - destruct Hl as (e & raw & He & Hhash & Hraw & Hk & Ht).
    destruct (fetch_stored stored n d leaf e raw Hh He Hhash Hraw) as (data & header & n1 & -> & Hh1 & (_ & _ & Hd & _) & Hf).
    intros [= <- <- <-].
    assert (∀ k e, timely stored n d k e → timely stored n1 d k e) as Htl by (unfold timely, pending; by rewrite Hd).
    split; [|split; [done|split; [done|]]].
    + split; [done|done|by rewrite Hd|]. unfold pending. by rewrite Hd.
    + constructor; [|constructor]. exists e. auto.
  - destruct Hl as (e & (raw & Hraw & Hdata & Hmeta & Hfmt & Hhead) & Hk & Ht).
    unfold Dio.overlay_event, st_mk. rewrite Hdata, Hhead. unfold Dio.overlay.
    destruct (ChainProtectedSync.data_as_overlay _ _ _ _) as [b|] eqn:Eo; cbn; intros [= <- <- <-];
      (do 3 (split; [done|])); [|constructor]. constructor; [|constructor].
    exists e, (nd_sync n).1. split; [|by rewrite Hhead, get_data_key_forget]. by exists raw, b.
  - destruct Hl as (e & sync & Hr & Hk & Ht). unfold Dio.cache_event, st_mk. rewrite Hk.
    destruct (Dio.row_of data leaf); cbn; intros [= <- <- <-]; (split; [|do 2 (split; [done|]); constructor]); [|done].
    split; [done..|]. cbn. intros k' evt' leaf' [[<- [= <- <-]]|[Hne Hk']]%lookup_insert_Some; [|exact (Hc _ _ _ Hk')].
    destruct Ht as [Ht|Ht]; [left; by exists e, sync|by right].
Qed.

Lemma feed_keeps_ok stored time work n d n' : reading_ok stored n d →
  Forall (in_play U) (tr_events work) → Forall plain (tr_events work) →
  (length (nd_decache n) < dio_cursor d + capacity)%nat →
  InboxPipe.feed display time work n = (Ok (), n') →
  ∃ stored', reading_ok stored' n' d ∧ stored ⊆ stored' ∧ ∀ k e, timely stored n d k e → timely stored' n' d k e.
Proof.
  intros [Hh Hp Hcur Hc] Hplay Hplain Hroom Hfeed.
  destruct (inbox_feed_ok display U time stored work n n' Hh Hplay Hfeed)
    as (stored' & Hh' & Hk & Hall & _ & Hd & Hsub).
  assert (∀ k e, timely stored n d k e → timely stored' n' d k e) as Ht.
  { intros k e. unfold timely, pending. rewrite Hd, drop_app_le, join_app by lia.
    intros [He|Hpend]; [|right; apply elem_of_app; by left].
    destruct (existsb (touches_record k) (tr_events work)) eqn:Ht.
    - right. apply elem_of_app. right. cbn. rewrite app_nil_r.
      apply existsb_exists in Ht as (e' & He' & Ht). apply list_elem_of_In in He'.
      rewrite Forall_forall in Hplain. apply list_elem_of_omap. exists e'. split; [done|]. by apply Hplain.
    - left. by rewrite Hk, current_app, Ht. }
  exists stored'. split; [|split; [|exact Ht]].
  - split; [done|by apply Hall|rewrite Hd, length_app; cbn; lia|].
    intros k evt leaf Hl. destruct (Hc k evt leaf Hl) as [(e & sync & He & Hr)|Hpend].
    + destruct (Ht k e) as [He'|]; [by left|left; by exists e, sync|by right].
    + right. unfold pending in *. rewrite Hd, drop_app_le, join_app by lia. apply elem_of_app. by left.
  - exact Hsub.
Qed.

(** A message that is received: what it does not name is as timely as it was. *)
Lemma decache_keeps_ok stored n d : reading_ok stored n d →
  reading_ok stored n (Dio.decache_step capacity n d)
  ∧ dio_session (Dio.decache_step capacity n d) = dio_session d
  ∧ ∀ k e, (∀ keys, nd_decache n !! dio_cursor d = Some keys → k ∉ keys) →
      timely stored n d k e → timely stored n (Dio.decache_step capacity n d) k e.
Proof.
  intros [Hh Hp Hcur Hc]. unfold Dio.decache_step.
  case_decide; [done|]. case_decide; [lia|].
  destruct (nd_decache n !! dio_cursor d) as [keys|] eqn:Ek; [|done].
  split; [|split; [done|]].
  - split; [done..| |]; [cbn; lia|].
    intros k evt leaf Hl. change (dio_cache_load (Dio.forget keys d) !! k = Some (evt, leaf)) in Hl.
    rewrite forget_lookup in Hl. case_decide; [done|].
    destruct (Hc k evt leaf Hl) as [|Hpend]; [by left|right]. revert Hpend. unfold pending. cbn.
    rewrite (drop_S _ _ _ Ek). cbn. set_solver.
  - intros k e Hk [He|Hpend]; [by left|right]. specialize (Hk keys eq_refl). revert Hpend. unfold pending. cbn.
    rewrite (drop_S _ _ _ Ek). cbn. set_solver.
Qed.

Lemma step_keeps_ok s0 s : read_step s0 s → ∀ stored, readers_ok stored s0 → ∃ stored', readers_ok stored' s.
Proof.
  destruct 1 as [k n d ls _|l n d ls1 ls2 r n' d' E|time work n d n' ls Hplay Hplain Hroom E|n d ls Hfree];
    intros stored [Hok Hls]; cbn [fst snd] in *.
  - exists stored. split; [done|]. by constructor.
  - exists stored. apply Forall_app in Hls as [H1' [Hl H2']%Forall_cons].
    destruct (advance_ok _ _ _ _ _ _ _ Hok Hl E) as (Hok' & Hs & Ht & Hnew).
    assert (∀ ls, Forall (loading_ok stored n d) ls → Forall (loading_ok stored n' d') ls) as Hmono.
    { intros ls Hall. eapply Forall_impl; [exact Hall|]. intros l'. apply loading_ok_mono; [done|done|]. intros k e _. apply Ht. }
    split; [done|]. cbn. rewrite !Forall_app. auto.
  - destruct (feed_keeps_ok _ _ _ _ _ _ Hok Hplay Hplain Hroom E) as (stored' & Hok' & Hsub & Ht).
    exists stored'. split; [done|]. eapply Forall_impl; [exact Hls|]. intros l. apply loading_ok_mono; [done|done|].
    intros k e _. apply Ht.
  - exists stored. destruct (decache_keeps_ok _ _ _ Hok) as (Hok' & Hs & Ht). split; [done|].
    rewrite Forall_forall in Hls |- *. cbn. intros l Hl. eapply loading_ok_mono; [exact Hs|done| |by apply Hls].
    intros k e Hk. apply Ht. intros keys Hkeys. by eapply Hfree.
Qed.

Lemma steps_keep_ok s0 s : rtc read_step s0 s → ∀ stored, readers_ok stored s0 → ∃ stored', readers_ok stored' s.
Proof.
  induction 1 as [|s0 s1 s Hstep _ IH]; intros stored Hok; [by exists stored|].
  destruct (step_keeps_ok _ _ Hstep stored Hok) as (stored1 & Hok1). by eapply IH.
Qed.

(** C9. The cache of a reader follows the chain.  Loads run lock by lock, any number at a time, with
    batches that are admitted and messages that are received in between, in whatever order.  The
    channel does not overflow, batches are admitted without an error, and no message is received
    about a record between the lookup of a load of it and its caching.  Then a reader that has
    received every message never sees an old event.  A record that is not on the chain is not found;
    any other gives the row of the event that last wrote it, whether it comes from the cache or from
    the log, unless the reader can not decrypt that event. *)
Theorem cache_follows_chain stored n0 d0 n d ls
  (Hstart : reading_ok stored n0 d0) (Hsteps : rtc read_step (n0, d0, []) (n, d, ls))
  (Hreceived : dio_cursor d = length (nd_decache n)) :
  ∃ stored', holds U stored' n ∧ ∀ k,
    let r := (Dio.load (D := D) (InboxPipe.new display now) k (n, d)).1 in
    match current k stored' with
    | None => r = Err (NotFound k)
    | Some e =>
        (∃ evt leaf sync, read_as sync (dio_session d) e evt ∧ r = Dio.row_of evt leaf)
        ∨ (∃ raw x, ew_data_bytes e = BytesSome raw ∧ r = Err (DioTransformation x)
             ∧ Dio.overlay n (forget_cache (ew_meta e)) raw (dio_session d) = Err x)
    end.
Proof.
  destruct (steps_keep_ok _ _ Hsteps stored (conj Hstart (Forall_nil_2 _))) as (stored' & Hok & _).
  cbn [fst snd] in Hok. exists stored'. split; [apply Hok|]. intros k. cbv zeta.
  destruct Hok as [Hh Hp _ Hc]. cbn [fst snd] in Hh, Hp, Hc.
  destruct (dio_cache_load d !! k) as [[evt leaf]|] eqn:Ek.
  - destruct (Hc k evt leaf Ek) as [(e & sync & -> & Hr)|Hpend].
    + left. exists evt, leaf, sync. split; [done|]. unfold Dio.load, st_mk. by rewrite Ek.
    + exfalso. revert Hpend. unfold pending. rewrite Hreceived, drop_all. apply not_elem_of_nil.
  - pose proof (load_uncached stored' n d k Hh Hp Ek) as Hl.
    destruct (current k stored') as [e|]; [|by rewrite Hl].
    destruct Hl as (raw & leaf & n1 & meta & Hraw & Hmeta & _ & _ & Hl). rewrite Hl.
    destruct (Dio.overlay n _ _ _) as [b|x] eqn:Eo; [left|right; by exists raw, x].
    eexists {| es_meta := meta; es_data_bytes := Some b; es_format := ew_format e |}, leaf, _.
    split; [by exists raw, b|]. cbn. by destruct (Dio.row_of _ _).
Qed.
End reading.

(** ** Concrete inputs, on the in-memory log *)

#[local] Existing Instance toy_prims.
#[local] Existing Instance toy_kem.
#[local] Existing Instance toy_serializer.
#[local] Existing Instance toy_snap.

(** Records that are bytes. *)
#[local] Program Instance toy_data : DataSerializer bytes := {
  data_serialize _ bs := Ok bs;
  data_deserialize _ bs := Ok bs;
  data_type_name := "bytes";
}.
Next Obligation. by intros f x bs [= ->]. Qed.

(** The chain that has record 1, which is locked. *)
Definition sample_node : Node unit LogFileMemDb :=
  {| nd_world := (); nd_async := two_chain; nd_sync := (sample_sync [], None);
     nd_locks := {[PrimaryKey.new 1]}; nd_decache := []; nd_log_size := 0 |}.

Definition sample_dio : Dio :=
  {| dio_cache_load := ∅; dio_session := sample_session; dio_keeper := sample_keeper;
     dio_log_format := None; dio_record_type_name := false; dio_cursor := 0 |}.

Definition sample_dao (key : PrimaryKey) (parent : option MetaParent) (data : bytes) : DaoMut bytes :=
  DaoMut.new
    ({| rwh_key := key; rwh_parent := parent; rwh_auth := inherit_auth |},
     {| row_key := key; row_type_name := "bytes"; row_created := 0; row_updated := 0;
        row_format := json_format; row_data := data; row_collections := []; row_extra_meta := [];
        row_is_new := true |}).

(** A transaction that writes record 3 and removes record 1. *)
Definition sample_written : DioMutState :=
  (DaoMut.commit true true (sample_dao (PrimaryKey.new 3) None [x07]) DioMutState.new).2.

Definition sample_changes : DioMutState :=
  (DioMut.delete (PrimaryKey.new 1) sample_node
     (DioMutState.unlock_later (PrimaryKey.new 1) sample_written)).2.

Definition sample_draws (i j : nat) : bytes := [].

Definition sample_records : list EventWeakData :=
  default [] (result_ok (DioMut.record_events elements sample_clock sample_draws sample_node
    sample_dio sample_changes)).

(** Its events. *)
Definition sample_write : EventWeakData :=
  {| ew_meta := {| meta_core := [CoreData (PrimaryKey.new 3); CoreTimestamp (ChainTimestamp.from 5000)] |};
     ew_data_bytes := BytesSome [x07]; ew_format := json_format |}.

Definition sample_removal : EventWeakData :=
  {| ew_meta := {| meta_core :=
       [CoreTimestamp (ChainTimestamp.from 5000);
        CoreAuthorization {| ma_read := ReadEveryone None; ma_write := WriteNobody |};
        CoreTombstone (PrimaryKey.new 1)] |};
     ew_data_bytes := BytesNone; ew_format := json_format |}.

Lemma sample_records_are : sample_records = [sample_write; sample_removal].
Proof. vm_compute. reflexivity. Qed.

Definition universe (es : list EventWeakData) (h : AteHash) : option EventWeakData :=
  find_map (λ e, if decide (hash_of e = Some h) then Some (forget_event e) else None) es.

Definition sample_universe : AteHash → option EventWeakData :=
  universe [first_write; second_write; sample_write; sample_removal].

Definition sample_commit : result DioCommitErrorKind unit * (Node unit LogFileMemDb * Dio * DioMutState) :=
  DioMut.commit_ext (InboxPipe.new no_display five_seconds) elements sample_clock sample_draws
    ScopeFull 30000 (sample_node, sample_dio, sample_changes).

Lemma sample_record_events :
  DioMut.record_events elements sample_clock sample_draws sample_node sample_dio sample_changes
  = Ok sample_records
  ∧ (DioMut.sign_events sample_node sample_dio sample_records).1 = Ok sample_records
  ∧ sample_commit.1 = Ok ().
Proof. vm_compute. done. Qed.

Lemma changes_in_play : Forall (in_play (W := unit) (L := LogFileMemDb) sample_universe)
  [first_write; second_write; sample_write; sample_removal].
Proof.
  repeat constructor; try (intros raw [= <-]; reflexivity).
  all: eexists; split; [reflexivity|vm_compute; reflexivity].
Qed.

Lemma sample_holds : holds sample_universe [first_write; second_write] sample_node.
Proof. apply two_state_in. exact (Forall_take _ 2 _ changes_in_play). Qed.

Definition sample_row : RowData :=
  {| rdt_key := PrimaryKey.new 3; rdt_type_name := "bytes"; rdt_format := json_format;
     rdt_data_hash := AteHash.from_bytes [x07]; rdt_data := [x07]; rdt_collections := [];
     rdt_created := 0; rdt_updated := 0; rdt_extra_meta := []; rdt_parent := None;
     rdt_auth := inherit_auth; rdt_is_new := true |}.

Definition sample_row_header : RowHeader :=
  {| rwh_key := PrimaryKey.new 3; rwh_parent := None; rwh_auth := inherit_auth |}.

Lemma sample_last_row :
  last_row (PrimaryKey.new 3) sample_changes = Some (sample_row_header, sample_row).
Proof. reflexivity. Qed.

Lemma sample_deleted :
  bool_decide (PrimaryKey.new 1 ∈ dm_deleted sample_changes) = true
  ∧ bool_decide (PrimaryKey.new 3 ∈ dm_deleted sample_changes) = false.
Proof. vm_compute. done. Qed.

Lemma sample_tidy : tidy sample_changes.
Proof. apply map_Forall_to_list. by repeat constructor. Qed.

Lemma commit_takes_effect_witness :
  ∃ n d m stored, sample_commit = (Ok (), (n, d, m))
    ∧ nd_locks n = {[PrimaryKey.new 1]} ∖ dm_pipe_unlock sample_changes
    ∧ holds sample_universe stored n ∧ current (PrimaryKey.new 1) stored = None
    ∧ ∃ e, current (PrimaryKey.new 3) stored = Some e ∧ ew_format e = json_format.
Proof.
  destruct sample_record_events as (Hr & Hs & Hc).
  destruct sample_commit as [r [[n d] m]] eqn:E. cbn in Hc. subst r.
  destruct (commit_takes_effect elements no_display sample_universe [first_write; second_write]
    five_seconds sample_clock sample_draws ScopeFull 30000 sample_node sample_dio sample_changes n d m
    sample_holds) as (_ & _ & Hl & stored & Hst & Hk).
  - exact sample_tidy.
  - done.
  - reflexivity.
  - intros es evts. rewrite Hr. intros [= <-]. rewrite Hs. intros [= <-].
    rewrite sample_records_are. exact (Forall_drop _ 2 _ changes_in_play).
  - exact E.
  - exists n, d, m, stored. split; [done|]. split; [exact Hl|]. split; [exact Hst|].
    pose proof (Hk (PrimaryKey.new 1)) as H1. pose proof (Hk (PrimaryKey.new 3)) as H3.
    destruct sample_deleted as [Hd1 Hd3].
    rewrite decide_True in H1 by exact (bool_decide_eq_true_1 _ Hd1).
    rewrite decide_False in H3 by exact (bool_decide_eq_false_1 _ Hd3).
    split; [exact H1|]. rewrite sample_last_row in H3. destruct H3 as (e & He & Hcur).
    exists e. split; [exact Hcur|]. by destruct (row_event_writes _ _ _ _ _ He eq_refl).
Defined.

(** The same chain, on which new roots are refused. *)
Definition rootless_node : Node unit LogFileMemDb :=
  Node.with_chain sample_node ()
    {| ca_chain := ca_chain two_chain; ca_default_format := json_format;
       ca_disable_new_roots := true; ca_sync_tolerance := 30000; ca_is_shutdown := false;
       ca_integrity := Distributed |}.

Definition refused_commit : result DioCommitErrorKind unit * (Node unit LogFileMemDb * Dio * DioMutState) :=
  DioMut.commit_ext (InboxPipe.new no_display five_seconds) elements sample_clock sample_draws
    ScopeFull 30000 (rootless_node, sample_dio, sample_changes).

Lemma refused : refused_commit.1 = Err NewRootsAreDisabled.
Proof. vm_compute. reflexivity. Qed.

Lemma failed_commit_loses_changes_witness :
  ∃ n d m, refused_commit = (Err NewRootsAreDisabled, (n, d, m))
    ∧ m = DioMutState.clear sample_changes ∧ nd_locks n = {[PrimaryKey.new 1]}
    ∧ nd_async n = nd_async rootless_node.
Proof.
  pose proof refused as Hr. destruct refused_commit as [r [[n d] m]] eqn:E. cbn in Hr. subst r.
  destruct (failed_commit_loses_changes elements no_display five_seconds sample_clock sample_draws
    ScopeFull 30000 rootless_node sample_dio sample_changes n d m NewRootsAreDisabled E)
    as (Hm & _ & Hl & [[e He]|[_ Ha]]); [discriminate He|].
  exists n, d, m. by repeat split.
Defined.

Lemma sample_dao_consistent key parent data : consistent (sample_dao key parent data).
Proof. done. Qed.

Lemma transaction_invariant_witness : transaction_ok sample_written.
Proof.
  apply (transaction_invariant (D := bytes)). eapply rtc_once.
  by eapply (change_commit true true (sample_dao (PrimaryKey.new 3) None [x07])).
Defined.

Lemma new_ok : transaction_ok DioMutState.new.
Proof. split; [done|]. split; [|done]. intros h Hh. by apply elem_of_nil in Hh. Qed.

Lemma transaction_reads_own_writes_witness :
  ∃ dao', DioMut.load (InboxPipe.new no_display five_seconds) (PrimaryKey.new 3)
            (sample_node, sample_dio, sample_written)
          = (Ok dao', (sample_node, sample_dio, sample_written))
          ∧ row_data (dao_row dao') = [x07].
Proof.
  destruct (transaction_reads_own_writes (InboxPipe.new no_display five_seconds) sample_node sample_dio
    DioMutState.new true true (sample_dao (PrimaryKey.new 3) None [x07]) sample_written)
    as (_ & (dao' & Hl & Hd & _) & _); try done; [apply new_ok|by left|].
  by exists dao'.
Defined.

(** The transaction as it is fed by someone else, and a reader that has loaded record 1. *)
Definition sample_work : Transaction :=
  Transaction.from_events [sample_write; sample_removal] ScopeFull true 30000.

Definition reader_loaded : Node unit LogFileMemDb * Dio :=
  (Dio.load (D := bytes) (InboxPipe.new no_display five_seconds) (PrimaryKey.new 1)
     (sample_node, sample_dio)).2.

Lemma sample_plain : Forall plain [first_write; second_write; sample_write; sample_removal].
Proof.
  repeat constructor; intros k; unfold touches_record, removes_record, writes_record; cbn;
    repeat case_bool_decide; naive_solver.
Qed.

Lemma sample_reading : reading_ok sample_universe 1000 [first_write; second_write] sample_node sample_dio.
Proof.
  split; [exact sample_holds|exact (Forall_take _ 2 _ sample_plain)|cbn; lia|].
  intros k evt leaf. cbn. by rewrite lookup_empty.
Qed.

(** A load goes to its next lock. *)
Definition go (s : Node unit LogFileMemDb * Dio * option Loading) : Node unit LogFileMemDb * Dio * option Loading :=
  match s with
  | (n, d, Some l) =>
      let '(r, (n, d)) := advance (D := bytes) no_display five_seconds l (n, d) in
      (n, d, default None (result_ok r))
  | (n, d, None) => s
  end.

Abbreviation sample_step := (read_step (D := bytes) no_display five_seconds sample_universe 1000).

Lemma go_steps n d l : rtc sample_step (n, d, option_list l) (let '(n, d, l) := go (n, d, l) in (n, d, option_list l)).
Proof.
  destruct l as [l|]; [|constructor]. cbn [go]. destruct (advance _ _ _ _) as [r [n' d']] eqn:E. apply rtc_once.
  pose proof (step_load (D := bytes) no_display five_seconds sample_universe 1000 l n d [] [] r n' d' E) as Hs.
  by rewrite app_nil_r in Hs.
Qed.

(** The record is looked up; the transaction that removes it is admitted; the load goes on to the
    cache, with the event it has looked up; and the reader is told. *)
Definition looked_up := go (sample_node, sample_dio, Some (ToLookUp (PrimaryKey.new 1))).
Definition removed_node : Node unit LogFileMemDb :=
  (InboxPipe.feed no_display five_seconds sample_work looked_up.1.1).2.
Definition late_loaded := go (go (go (removed_node, looked_up.1.2, looked_up.2))).
Definition late_told : Dio := Dio.decache_step 1000 late_loaded.1.1 late_loaded.1.2.

Lemma late_run :
  (InboxPipe.feed no_display five_seconds sample_work looked_up.1.1).1 = Ok ()
  ∧ length (nd_decache looked_up.1.1) = 0%nat ∧ dio_cursor looked_up.1.2 = 0%nat
  ∧ dio_cursor late_told = 1%nat ∧ length (nd_decache late_loaded.1.1) = 1%nat
  ∧ late_loaded.2 = None ∧ is_Some (dio_cache_load late_loaded.1.2 !! PrimaryKey.new 1).
Proof. vm_compute. repeat split; try done. by eexists. Qed.

Lemma cache_follows_chain_witness :
  ∃ stored, holds sample_universe stored late_loaded.1.1 ∧ ∀ k,
    let r := (Dio.load (D := bytes) (InboxPipe.new no_display five_seconds) k
                (late_loaded.1.1, late_told)).1 in
    match current k stored with
    | None => r = Err (NotFound k)
    | Some e =>
        (∃ evt leaf sync, read_as sync (dio_session late_told) e evt ∧ r = Dio.row_of evt leaf)
        ∨ (∃ raw x, ew_data_bytes e = BytesSome raw ∧ r = Err (DioTransformation x)
             ∧ Dio.overlay late_loaded.1.1 (forget_cache (ew_meta e)) raw (dio_session late_told)
               = Err x)
    end.
Proof.
  destruct late_run as (Hf & Hl & Hc0 & Hc & Hn & Hdone & _).
  apply (cache_follows_chain (D := bytes) no_display five_seconds sample_universe 1000
    [first_write; second_write] sample_node sample_dio late_loaded.1.1 late_told [] sample_reading).
  - apply (rtc_l _ _ (sample_node, sample_dio, [ToLookUp (PrimaryKey.new 1)])); [by apply step_start|].
    pose proof (go_steps sample_node sample_dio (Some (ToLookUp (PrimaryKey.new 1)))) as Hgo. fold looked_up in Hgo.
    destruct looked_up as [[n1 d1] l1] eqn:E1. etrans; [exact Hgo|]. clear Hgo. cbn [fst snd] in *.
    apply (rtc_l _ _ (removed_node, d1, option_list l1)).
    { eapply (step_feed _ _ _ _ five_seconds sample_work).
      - exact (Forall_drop _ 2 _ changes_in_play).
      - exact (Forall_drop _ 2 _ sample_plain).
      - rewrite Hl, Hc0. lia.
      - unfold removed_node. rewrite E1. cbn [fst] in *.
        destruct (InboxPipe.feed _ _ _ _) as [r n2]. cbn in *. by subst. }
    unfold late_told, late_loaded in *. rewrite E1 in *. cbn [fst snd] in *.
    pose proof (go_steps removed_node d1 l1) as H1. destruct (go (removed_node, d1, l1)) as [[n2 d2] l2].
    pose proof (go_steps n2 d2 l2) as H2. destruct (go (n2, d2, l2)) as [[n3 d3] l3].
    pose proof (go_steps n3 d3 l3) as H3. destruct (go (n3, d3, l3)) as [[n4 d4] l4]. cbn [fst snd] in *. subst l4.
    etrans; [exact H1|]. etrans; [exact H2|]. etrans; [exact H3|].
    apply rtc_once, step_decache. intros keys l k _ []%elem_of_nil.
  - by rewrite Hc, Hn.
Defined.

(** The chain after the transaction, as another node sees it. *)
Definition fed_node : Node unit LogFileMemDb :=
  Node.with_sync (InboxPipe.feed no_display five_seconds sample_work sample_node).2
    (sample_sync [], None).

Definition sample_auth : MetaAuthorization :=
  default inherit_auth (result_ok (TreeAuthorityPlugin.compute_auth TreeAuthorityPlugin.new
    (ew_meta sample_write) TransactionMetadata_default AfterStore)).

Lemma sample_row_event :
  DioMut.row_meta sample_node sample_dio five_seconds sample_row_header sample_row
    = Ok (ew_meta sample_write)
  ∧ ChainProtectedSync.metadata_lint_event (sample_sync []) five_seconds (ew_meta sample_write)
      sample_session TransactionMetadata_default "bytes" = Ok []
  ∧ DioMut.row_event (sample_draws 0) sample_node sample_dio five_seconds
      TransactionMetadata_default sample_row_header sample_row
    = Ok (sample_write, DioMut.note_row (ew_meta sample_write) TransactionMetadata_default)
  ∧ TreeAuthorityPlugin.compute_auth TreeAuthorityPlugin.new (ew_meta sample_write)
      TransactionMetadata_default AfterStore = Ok sample_auth
  ∧ ma_read <$> TreeAuthorityPlugin.compute_auth TreeAuthorityPlugin.new (ew_meta sample_write)
      (DioMut.note_row (ew_meta sample_write) TransactionMetadata_default) AfterStore
    = Ok (ma_read sample_auth)
  ∧ (InboxPipe.feed no_display five_seconds sample_work sample_node).1 = Ok ()
  ∧ current (PrimaryKey.new 3) [first_write; second_write; sample_write; sample_removal]
    = Some sample_write.
Proof. vm_compute. done. Qed.

Lemma committed_row_reads_back_witness :
  ∃ h r s, Dio.load (InboxPipe.new no_display five_seconds) (PrimaryKey.new 3) (fed_node, sample_dio)
           = (Ok (h, r), s)
    ∧ rwh_key h = PrimaryKey.new 3 ∧ row_key r = PrimaryKey.new 3 ∧ row_data r = [x07].
Proof.
  destruct sample_row_event as (Hm & Hl & He & Ha & Ha1 & Hf & Hc).
  destruct (InboxPipe.feed no_display five_seconds sample_work sample_node) as [r n2] eqn:E.
  cbn in Hf. subst r.
  destruct (inbox_feed_ok no_display sample_universe five_seconds _ sample_work _ _ sample_holds
    (Forall_drop _ 2 _ changes_in_play) E) as (stored & Hst & Hcur & Hall & _).
  assert (holds sample_universe stored fed_node) as Hst' by (unfold fed_node; by rewrite E).
  refine (committed_row_reads_back no_display five_seconds sample_universe stored sample_node fed_node
    sample_dio sample_dio sample_row_header sample_row [x07] sample_write (sample_draws 0) five_seconds
    TransactionMetadata_default _ _ [] _ _ _ _ _ _ sample_auth sample_auth
    (sample_sync_default []) (sample_sync_default []) _ _ eq_refl Hm eq_refl eq_refl Hl He Ha Ha1 Ha
    eq_refl _ Hst' _ _ _ eq_refl).
  - constructor.
  - constructor.
  - intros. reflexivity.
  - exact (Hall plain (Forall_take _ 2 _ sample_plain) (Forall_drop _ 2 _ sample_plain)).
  - rewrite Hcur. exact Hc.
  - reflexivity.
Defined.

(** ** Where the code does less than it means to *)

(** A batch that writes record 1 and then repeats itself: the first event is stored, the
    second is refused as seen before. *)
Definition third_write : EventWeakData := dated 3000 (CoreData (PrimaryKey.new 1)) (BytesSome [x05]).

Definition partial_feed : result FeedErrorKind unit * Node unit LogFileMemDb :=
  InboxPipe.feed no_display five_seconds
    (Transaction.from_events [third_write; third_write] ScopeFull true 30000) reader_loaded.1.

Definition read_one (d : Dio) : option bytes :=
  (λ hr, row_data hr.2) <$> result_ok (Dio.load (D := bytes) (InboxPipe.new no_display five_seconds)
                              (PrimaryKey.new 1) (partial_feed.2, d)).1.

(** A batch that is stored in part is not announced.  A reader has record 1 in its cache;
    a batch whose second event is refused returns an error, but its first event is on the
    chain.  No invalidation is sent: the reader has nothing to receive and goes on reading
    the old data, where a new reader reads the new. *)
Theorem partial_batch_leaves_stale_cache :
  is_ok partial_feed.1 = false ∧ nd_decache partial_feed.2 = []
  ∧ Dio.run_decache 1000 partial_feed.2 reader_loaded.2 = reader_loaded.2
  ∧ read_one reader_loaded.2 = Some [x02] ∧ read_one sample_dio = Some [x05].
Proof. vm_compute. done. Qed.

(** A message that is received between the lookup of a load and its caching is lost on it.  Record 1
    is looked up, the transaction that removes it is admitted and announced, the reader receives
    the message, and then the load puts the event it has read into the cache.  The reader has
    nothing left to receive and goes on reading the record, which a new reader does not find. *)
Definition early_told : Dio := Dio.decache_step 1000 removed_node looked_up.1.2.
Definition stale_reader := go (go (go (removed_node, early_told, looked_up.2))).

Theorem decache_race_leaves_stale_cache :
  dio_cursor stale_reader.1.2 = length (nd_decache stale_reader.1.1)
  ∧ Dio.run_decache 1000 stale_reader.1.1 stale_reader.1.2 = stale_reader.1.2
  ∧ is_ok (Dio.load (D := bytes) (InboxPipe.new no_display five_seconds) (PrimaryKey.new 1) stale_reader.1).1 = true
  ∧ (Dio.load (D := bytes) (InboxPipe.new no_display five_seconds) (PrimaryKey.new 1) (stale_reader.1.1, sample_dio)).1
    = Err (NotFound (PrimaryKey.new 1)).
Proof. vm_compute. done. Qed.

(** A record is stored, and then attached to a parent; it is loaded again within the
    transaction, and its data is changed through what was loaded. *)
Definition sample_parent : MetaParent :=
  {| mp_vec := {| mc_parent_id := PrimaryKey.new 1; mc_collection_id := 1 |} |}.

Definition attached : DioMutState :=
  (DaoMut.attach_ext (PrimaryKey.new 1) 1 (sample_dao (PrimaryKey.new 3) None [x07]) sample_written).2.

Definition reloaded : option (DaoMut bytes) :=
  result_ok (DioMut.load (InboxPipe.new no_display five_seconds) (PrimaryKey.new 3)
               (sample_node, sample_dio, attached)).1.

Definition parents_to_commit (m : DioMutState) : list (option MetaParent) :=
  (λ hr, rwh_parent hr.1) <$> DioMut.dirty_rows m.

(** Attaching a record that was just stored does not last.  The commit would attach it,
    but loading it within the transaction gives the parent it had before, because only the
    header was replaced and not the row; and changing the data of what was loaded makes
    the commit leave it detached. *)
Theorem attach_is_undone :
  parents_to_commit attached = [Some sample_parent]
  ∧ (rwh_parent ∘ dao_header) <$> reloaded = Some None
  ∧ (λ dao, parents_to_commit (DaoMut.modify (λ _, [x08]) dao attached).2) <$> reloaded
    = Some [None].
Proof. vm_compute. done. Qed.

(** [delete_all_roots] deletes nothing: a transaction without changes finds no root to
    delete, whatever roots the chain has, because the filter keeps the deleted keys. *)
Lemma delete_all_roots_keeps_all {W L} (n : Node W L) m :
  DioMutState.has_uncommitted m = false → DioMut.delete_all_roots n m = (Ok (), m).
Proof.
  unfold DioMutState.has_uncommitted. intros Hn%negb_false_iff. apply andb_prop in Hn as [Ho Hd].
  apply bool_decide_eq_true in Ho, Hd. unfold DioMut.delete_all_roots, st_mk, DioMut.root_keys.
  rewrite Ho, Hd. cbn [fmap list_fmap List.filter app].
  replace (List.filter _ (ChainMultiUser.roots_raw n)) with (@nil PrimaryKey); [done|].
  symmetry. apply filter_nil_iff. intros k _. by rewrite bool_decide_false by set_solver.
Qed.

(** Children that are new in a transaction are not listed when their parent has none on the
    chain: the search returns before it comes to them. *)
Lemma first_children_hidden {W L D} `{CryptoPrims} `{KemPrims} `{MetaSerializer} `{SnapFrames}
    `{!LogFile W L} `{!DataSerializer D} (pipe : EventPipe (Node W L)) n d m parent_id id b1 b2 :
  ChainMultiUser.lookup_secondary_raw {| mc_parent_id := parent_id; mc_collection_id := id |} n = None →
  DioMut.children_ext (D := D) pipe parent_id id b1 b2 (n, d, m) = (Ok [], (n, d, m)).
Proof. intros Hn. unfold DioMut.children_ext, st_mk. by rewrite Hn. Qed.

(** Deleting a record from a collection forgets the others that the transaction put there,
    and not the record. *)
Lemma delete_forgets_siblings k p keys m : dm_store_secondary m !! mp_vec p = Some keys → k ∉ keys →
  dm_store_secondary (DioMutState.add_deleted k (Some p) m) !! mp_vec p = Some [].
Proof.
  intros Hk Hn. cbn. rewrite lookup_alter_eq, Hk. cbn. f_equal. apply filter_nil_iff.
  intros x Hx. rewrite bool_decide_false by naive_solver. done.
Qed.
