(* ===== verification/Mesh.v ===== *)
(** * The mesh

    lib/src/mesh: how a chain is shared between a server and its clients.  The table that
    tells which server a chain is on, the messages, the streaming of a chain's history, the
    server's handling of the packets of its clients, and the session through which a client
    feeds, locks and loads at the server and takes in what the server sends.  A connection
    is a pair of queues of messages; a wait for an answer is the answer, or that it did not
    come. *)

From Stdlib Require Import Ascii.
From S2P Require Import Prelude LogApi Crypto Codec Secure Meta Time Event Index Signature Tree Compact Plugins LogFile MemDb RedoLog Chain ChainSpec Pipe Dio.

(** ** Which server a chain is on *)

(** The bytes of an ASCII string. *)
Definition str_bytes (s : string) : bytes := String.list_byte_of_string s.

(** The hash is kept with the name, and is not serialized. *)
Record ChainKey : Type := { ck_name : string; ck_hash : option AteHash }.

Module ChainKey.
Section ops.
Context `{CryptoPrims}.

Fixpoint trim_slashes (s : string) : string :=
  match s with
  | String c rest => if decide (c = "/"%char) then trim_slashes rest else s
  | EmptyString => EmptyString
  end.

Definition new (val : string) : ChainKey :=
  let val := trim_slashes val in
  {| ck_name := val; ck_hash := Some (AteHash.from_bytes (str_bytes val)) |}.

Definition with_name (k : ChainKey) (val : string) : ChainKey :=
  {| ck_name := val; ck_hash := ck_hash k |}.

Definition hash (k : ChainKey) : AteHash :=
  match ck_hash k with Some a => a | None => AteHash.from_bytes (str_bytes (ck_name k)) end.

(** What serializing a key and reading it again gives. *)
Definition reread (k : ChainKey) : ChainKey := {| ck_name := ck_name k; ck_hash := None |}.
End ops.
End ChainKey.

Inductive IpAddr : Type := V4 (octets : bytes) | V6 (octets : bytes).

#[global] Instance IpAddr_eq_dec : EqDecision IpAddr.
Proof. solve_decision. Defined.

Module IpAddr.
Definition octets (a : IpAddr) : bytes := match a with V4 o | V6 o => o end.

Definition is_loopback (a : IpAddr) : bool :=
  match a with
  | V4 o => bool_decide (head o = Some x7f)
  | V6 o => bool_decide (o = replicate 15 x00 ++ [x01])
  end.

Definition is_unspecified (a : IpAddr) : bool := forallb (λ b, bool_decide (b = x00)) (octets a).
End IpAddr.

Record MeshAddress : Type := { ma_host : IpAddr; ma_port : Z }.

#[global] Instance MeshAddress_eq_dec : EqDecision MeshAddress.
Proof. solve_decision. Defined.

Record MeshHashTable : Type := {
  mh_address_lookup : list MeshAddress;
  mh_hash_table : list (AteHash * nat);
}.

Module MeshHashTable.
Section ops.
Context `{CryptoPrims}.

Definition address_hash (a : MeshAddress) : AteHash :=
  AteHash.from_bytes_twice (IpAddr.octets (ma_host a)) (to_be 2 (ma_port a)).

Definition hash_le (a b : AteHash) : bool := bytes_leb (hash_val a) (hash_val b).

(** [BTreeMap::insert]: the entries are in the order of their keys. *)
Fixpoint insert (k : AteHash) (v : nat) (l : list (AteHash * nat)) : list (AteHash * nat) :=
  match l with
  | [] => [(k, v)]
  | (k', v') :: l' =>
      if decide (k = k') then (k, v) :: l'
      else if hash_le k k' then (k, v) :: l else (k', v') :: insert k v l'
  end.

Fixpoint number (i : nat) (addrs : list MeshAddress) (t : list (AteHash * nat))
    : list (AteHash * nat) :=
  match addrs with
  | [] => t
  | a :: addrs => number (S i) addrs (insert (address_hash a) i t)
  end.

Definition new (roots : list MeshAddress) : MeshHashTable :=
  {| mh_address_lookup := roots; mh_hash_table := number 0 roots [] |}.

(** The loop of [lookup]. *)
Fixpoint search (hash : AteHash) (pointer : option nat) (l : list (AteHash * nat)) : option nat :=
  match l with
  | [] => pointer
  | (k, v) :: l =>
      if negb (hash_le k hash) then match pointer with Some a => Some a | None => Some v end
      else search hash (Some v) l
  end.

Definition lookup (t : MeshHashTable) (key : ChainKey) : option (MeshAddress * nat) :=
  match search (ChainKey.hash key) None (mh_hash_table t) with
  | Some a =>
      let index := (a mod length (mh_address_lookup t))%nat in
      (λ addr, (addr, index)) <$> (mh_address_lookup t !! index)
  | None => None
  end.

Definition matches (addr test : MeshAddress) : bool :=
  if IpAddr.is_loopback (ma_host test) && bool_decide (ma_port test = ma_port addr)
  then IpAddr.is_loopback (ma_host addr) || IpAddr.is_unspecified (ma_host addr)
  else bool_decide (test = addr).

Fixpoint derive_from (n : nat) (addrs : list MeshAddress) (addr : MeshAddress) : option nat :=
  match addrs with
  | [] => None
  | test :: addrs => if matches addr test then Some n else derive_from (S n) addrs addr
  end.

Definition derive_id (t : MeshHashTable) (addr : MeshAddress) : option nat :=
  derive_from 0 (mh_address_lookup t) addr.

(** [None] is [RequiredExplicitNodeId]. *)
Definition compute_node_id (t : MeshHashTable) (force_node_id : option nat) : option nat :=
  match force_node_id with
  | Some a => Some a
  | None => head (omap (derive_id t) (mh_address_lookup t))
  end.
End ops.
End MeshHashTable.

(** ** Messages *)

Inductive RecoveryMode : Type := Async | ReadOnlyAsync | ReadOnlySync | Sync.

Module RecoveryMode.
Definition should_go_readonly (m : RecoveryMode) : bool :=
  match m with ReadOnlyAsync | ReadOnlySync => true | _ => false end.

Definition should_error_out (m : RecoveryMode) : bool :=
  match m with Async => false | _ => true end.

Definition is_sync (m : RecoveryMode) : bool :=
  match m with Sync | ReadOnlySync => true | _ => false end.

Definition is_meta_sync (m : RecoveryMode) : bool :=
  match m with Async => false | _ => true end.

Definition from_str (s : string) : option RecoveryMode :=
  if decide (s = "async"%string) then Some Async
  else if decide (s = "readonly-async"%string) then Some ReadOnlyAsync
  else if decide (s = "readonly-sync"%string) then Some ReadOnlySync
  else if decide (s = "sync"%string) then Some Sync
  else None.
End RecoveryMode.

Record MessageEvent : Type := {
  me_meta : Metadata;
  me_data : LogData;
  me_format : MessageFormat;
}.

Module MessageEvent.
Section ops.
Context `{CryptoPrims}.

Definition convert_to (evts : list EventWeakData) : list MessageEvent :=
  (λ evt, {| me_meta := ew_meta evt;
             me_data := match ew_data_bytes evt with
                        | BytesSome d => LogSome d
                        | BytesLazySome l => LogLazySome l
                        | BytesNone => LogNone
                        end;
             me_format := ew_format evt |}) <$> evts.

Definition convert_from_single (evt : MessageEvent) : EventWeakData :=
  {| ew_meta := me_meta evt; ew_data_bytes := message_bytes (me_data evt);
     ew_format := me_format evt |}.

Definition convert_from (evts : list MessageEvent) : list EventWeakData :=
  convert_from_single <$> evts.

Definition data_hash (evt : MessageEvent) : option AteHash :=
  match me_data evt with
  | LogSome d => Some (AteHash.from_bytes d)
  | LogLazySome l => Some (ld_hash l)
  | LogNone => None
  end.
End ops.
End MessageEvent.

Inductive FatalTerminate : Type :=
  | NotYetSubscribed
  | ChainNotFound
  | NotThisRoot
  | RootRedirect (expected actual : nat)
  | RootDenied (reason : string)
  | OtherFatal (err : string).

Inductive Message : Type :=
  | Noop
  | Subscribe (chain_key : ChainKey) (from : ChainTimestamp) (allow_redirect omit_data : bool)
  | HumanMessage (message : string)
  | ReadOnly
  | Lock (key : PrimaryKey)
  | Unlock (key : PrimaryKey)
  | LockResult (key : PrimaryKey) (is_locked : bool)
  | NewConversation (conversation_id : AteHash)
  | StartOfHistory (size : nat) (from to : option ChainTimestamp) (integrity : TrustMode)
      (root_keys : list PublicSignKey)
  | Events (commit : option Z) (evts : list MessageEvent)
  | EndOfHistory
  | Confirmed (id : Z)
  | CommitError (id : Z) (err : string)
  | Fatal (why : FatalTerminate)
  | SecuredWith (session : AteSession)
  | LoadMany (id : Z) (leafs : list AteHash)
  | LoadManyResult (id : Z) (data : list (option bytes))
  | LoadManyFailed (id : Z) (err : string).

Module Message.
(** What serializing an event and reading it again gives: the cache in the metadata is
    gone. *)
Definition reread_event (evt : MessageEvent) : MessageEvent :=
  {| me_meta := forget_cache (me_meta evt); me_data := me_data evt; me_format := me_format evt |}.

Definition reread (m : Message) : Message :=
  match m with
  | Subscribe key from redirect omit => Subscribe (ChainKey.reread key) from redirect omit
  | Events commit evts => Events commit (reread_event <$> evts)
  | m => m
  end.
End Message.

(** ** Streaming the history *)

Inductive Bound : Type :=
  | Unbounded
  | Included (t : ChainTimestamp)
  | Excluded (t : ChainTimestamp).

Module Bound.
Definition above (b : Bound) (t : ChainTimestamp) : bool :=
  match b with
  | Unbounded => true
  | Included a => negb (ChainTimestamp.lt t a)
  | Excluded a => ChainTimestamp.lt a t
  end.

Definition below (b : Bound) (t : ChainTimestamp) : bool :=
  match b with
  | Unbounded => true
  | Included a => negb (ChainTimestamp.lt a t)
  | Excluded a => ChainTimestamp.lt t a
  end.

Definition time (b : Bound) : option ChainTimestamp :=
  match b with Unbounded => None | Included a | Excluded a => Some a end.
End Bound.

Inductive StreamErrorKind : Type :=
  | StreamRead (e : ReadErrorKind)
  | StreamFuel.

(** At most so many events and bytes are sent at a time. *)
Definition max_events : nat := Z.to_nat 5000.
Definition max_send : Z := 512 * 1024.

Module Streaming.
Section ops.
Context {W L : Type} `{CryptoPrims} `{KemPrims} `{MetaSerializer} `{LogFile W L}.
Variable pipe : EventPipe (Node W L).

Definition event_size (h : EventHeaderRaw) : Z :=
  Z.of_nat (length (raw_meta_bytes h)) + raw_data_size h.

(** The inner loop: the leafs of a batch, how far it got, and the bytes it is worth.  [start]
    is the time of the last event, [skip] how many events of that time have been taken. *)
Fixpoint fill_batch (items : list (ChainTimestamp * EventHeaderRaw)) (start : ChainTimestamp)
    (skip : nat) (amount : Z) : list EventLeaf * (ChainTimestamp * nat * Z) :=
  match items with
  | [] => ([], (start, skip, amount))
  | (k, v) :: items =>
      let skip := if decide (k = start) then S skip else 1%nat in
      let leaf := {| leaf_record := raw_event_hash v; leaf_created := 0; leaf_updated := 0 |} in
      let amount := amount + event_size v in
      if decide (max_send < amount) then ([leaf], (k, skip, amount))
      else let '(leafs, s) := fill_batch items k skip amount in (leaf :: leafs, s)
  end.

Definition to_message (strip_signatures : bool) (strip_data : Z) (evt : LoadStrongResult)
    : MessageEvent :=
  {| me_meta := if strip_signatures then Metadata.strip_signatures (es_meta (ls_data evt))
                else es_meta (ls_data evt);
     me_data := match es_data_bytes (ls_data evt) with
                | Some a =>
                    if decide (Z.of_nat (length a) ≤ strip_data) then LogSome a
                    else LogLazySome {| ld_record := leaf_record (ls_leaf evt);
                                        ld_hash := AteHash.from_bytes a;
                                        ld_len := Z.of_nat (length a) |}
                | None => LogNone
                end;
     me_format := raw_format (ls_header evt) |}.

(** The outer loop.  The lock on the chain is released between the batches; [other] is what
    is done to the chain meanwhile. *)
Fixpoint stream_loop (fuel : nat) (other : nat → Node W L → Node W L) (hi : Bound)
    (strip_signatures : bool) (strip_data : Z) (start : ChainTimestamp) (skip : nat)
    : st (Node W L * list Message) StreamErrorKind unit :=
  match fuel with
  | O => st_fail StreamFuel
  | S fuel => st_mk (λ '(n, out),
      let items := take max_events (drop skip
        (ChainProtectedAsync.range (Bound.above (Included start)) (Bound.below hi) (nd_async n))) in
      let '(leafs, (start, skip, amount)) := fill_batch items start skip 0 in
      if decide (amount ≤ 0) then (Ok (), (n, out))
      else
        match ChainMultiUser.load_many pipe leafs n with
        | (Err e, n) => (Err (StreamRead e), (n, out))
        | (Ok evts, n) =>
            stream_loop fuel other hi strip_signatures strip_data start skip
              (other fuel n, out ++ [Events None (to_message strip_signatures strip_data <$> evts)])
        end)
  end.

Definition stream_events (fuel : nat) (other : nat → Node W L → Node W L) (lo hi : Bound)
    (strip_signatures : bool) (strip_data : Z)
    : st (Node W L * list Message) StreamErrorKind unit :=
  st_mk (λ '(n, out),
    let start := match lo with
                 | Unbounded => fst <$> head (ct_history (co_timeline (ca_chain (nd_async n))))
                 | Included a => Some a
                 | Excluded a => Some (ChainTimestamp.from (time_since_epoch_ms a + 1))
                 end in
    match start with
    | None => (Ok (), (n, out))
    | Some start =>
        stream_loop fuel other hi strip_signatures strip_data start 0 (n, out)
    end).

Definition root_keys (s : ChainProtectedSync) : list PublicSignKey :=
  mjoin ((λ p, match p with TreeAuthority t => TreeAuthorityPlugin.root_keys t | _ => [] end)
           <$> cs_plugins s).

Definition send (m : Message) : st (Node W L * list Message) StreamErrorKind unit :=
  st_mk (λ '(n, out), (Ok (), (n, out ++ [m]))).

Definition stream_history_range (fuel : nat) (other : nat → Node W L → Node W L) (lo hi : Bound)
    (strip_signatures : bool) (strip_data : Z)
    : st (Node W L * list Message) StreamErrorKind unit :=
  st_mk (λ '(n, out),
    let sync := fst (nd_sync n) in
    let size := length (ChainProtectedAsync.range (Bound.above lo) (Bound.below hi) (nd_async n)) in
    (_ ← send (StartOfHistory size (Bound.time lo) (Bound.time hi)
                 (TrustMode.as_client (cs_integrity sync)) (root_keys sync));
     _ ← (if decide (0 < size)%nat
          then stream_events fuel other lo hi strip_signatures strip_data else mret ());
     send EndOfHistory) (n, out)).

(** [stream_empty_history]. *)
Definition stream_empty_history (to : option ChainTimestamp)
    : st (Node W L * list Message) StreamErrorKind unit :=
  st_mk (λ '(n, out),
    let sync := fst (nd_sync n) in
    (Ok (), (n, out ++ [StartOfHistory 0 None to (cs_integrity sync) (root_keys sync);
                        EndOfHistory]))).
End ops.
End Streaming.

(** ** The server *)

(** What a server keeps of a connection.  [sc_relay] is the server its packets are handed on
    to. *)
Record SessionContext : Type := {
  sc_subscribed : bool;
  sc_locks : gset PrimaryKey;
  sc_conversation : ConversationSession;
  sc_relay : option nat;
}.

(** [CommsErrorKind], the kinds the handlers raise. *)
Inductive ServerErrorKind : Type :=
  | NotYetSubscribedErr
  | FeedFailed (e : FeedErrorKind)
  | LockFailed (e : FeedErrorKind)
  | StreamFailed (e : StreamErrorKind)
  | FatalErr (err : string).

(** Does the loop that reads the packets of a connection end on the error? *)
Definition ends_connection (e : ServerErrorKind) : bool :=
  match e with NotYetSubscribedErr | FatalErr _ => true | _ => false end.

(** A chain on a server: its node, the connections and the group of those that get what is
    broadcast, what was sent to each of them, what was handed on for them, and the throttle. *)
Record Server (W L : Type) : Type := {
  sv_node : Node W L;
  sv_contexts : gmap Z SessionContext;
  sv_group : gset Z;
  sv_out : gmap Z (list Message);
  sv_relayed : gmap Z (list Message);
  sv_delete_only : bool;
}.
Arguments sv_node {W L} s.
Arguments sv_contexts {W L} s.
Arguments sv_group {W L} s.
Arguments sv_out {W L} s.
Arguments sv_relayed {W L} s.
Arguments sv_delete_only {W L} s.

Module SessionContext.
Definition default : SessionContext :=
  {| sc_subscribed := false; sc_locks := ∅; sc_conversation := ConversationSession.default;
     sc_relay := None |}.

Definition with_subscribed (c : SessionContext) (b : bool) : SessionContext :=
  {| sc_subscribed := b; sc_locks := sc_locks c; sc_conversation := sc_conversation c;
     sc_relay := sc_relay c |}.

Definition with_locks (c : SessionContext) (l : gset PrimaryKey) : SessionContext :=
  {| sc_subscribed := sc_subscribed c; sc_locks := l; sc_conversation := sc_conversation c;
     sc_relay := sc_relay c |}.

Definition with_conversation (c : SessionContext) (v : ConversationSession) : SessionContext :=
  {| sc_subscribed := sc_subscribed c; sc_locks := sc_locks c; sc_conversation := v;
     sc_relay := sc_relay c |}.

Definition with_relay (c : SessionContext) (r : option nat) : SessionContext :=
  {| sc_subscribed := sc_subscribed c; sc_locks := sc_locks c;
     sc_conversation := sc_conversation c; sc_relay := r |}.
End SessionContext.

(** What opening the chain of a subscription came to. *)
Inductive OpenResult : Type :=
  | Opened (integrity : TrustMode) (secured_with : option AteSession)
      (message_of_the_day : option string)
  | OpenNotThisRoot
  | OpenFailed (err : string).

(** One message more for a connection. *)
Definition enqueue (c : Z) (m : Message) (q : gmap Z (list Message)) : gmap Z (list Message) :=
  <[c := default [] (q !! c) ++ [m]]> q.

Module MeshRoot.
Section ops.
Context {W L : Type} `{CryptoPrims} `{KemPrims} `{MetaSerializer} `{SnapFrames} `{LogFile W L}.
Variable display : ValidationErrorKind → string.
Variable now : option Z.
Variable show_load : ReadErrorKind → string.
Implicit Types (s : Server W L) (c : Z).

Definition with_node s (n : Node W L) : Server W L :=
  {| sv_node := n; sv_contexts := sv_contexts s; sv_group := sv_group s; sv_out := sv_out s;
     sv_relayed := sv_relayed s; sv_delete_only := sv_delete_only s |}.

Definition with_contexts s (cs : gmap Z SessionContext) : Server W L :=
  {| sv_node := sv_node s; sv_contexts := cs; sv_group := sv_group s; sv_out := sv_out s;
     sv_relayed := sv_relayed s; sv_delete_only := sv_delete_only s |}.

Definition with_group s (g : gset Z) : Server W L :=
  {| sv_node := sv_node s; sv_contexts := sv_contexts s; sv_group := g; sv_out := sv_out s;
     sv_relayed := sv_relayed s; sv_delete_only := sv_delete_only s |}.

Definition with_out s (out : gmap Z (list Message)) : Server W L :=
  {| sv_node := sv_node s; sv_contexts := sv_contexts s; sv_group := sv_group s; sv_out := out;
     sv_relayed := sv_relayed s; sv_delete_only := sv_delete_only s |}.

Definition with_relayed s (r : gmap Z (list Message)) : Server W L :=
  {| sv_node := sv_node s; sv_contexts := sv_contexts s; sv_group := sv_group s;
     sv_out := sv_out s; sv_relayed := r; sv_delete_only := sv_delete_only s |}.

Definition context s c : SessionContext := default SessionContext.default (sv_contexts s !! c).

Definition set_context s c (ctx : SessionContext) : Server W L :=
  with_contexts s (<[c := ctx]> (sv_contexts s)).

Definition reply c (m : Message) s : Server W L := with_out s (enqueue c m (sv_out s)).

(** [TxGroup::send]: to the members of the group but for one. *)
Definition group_send (skip : option Z) (m : Message) s : Server W L :=
  with_out s (set_fold (λ c q, if decide (Some c = skip) then q else enqueue c m q) (sv_out s)
                (sv_group s)).

(** *** The pipe of a chain on a server *)

Definition on_inbox {E A} (f : st (Node W L) E A) : st (Server W L) E A :=
  st_mk (λ s, let '(r, n) := f (sv_node s) in (r, with_node s n)).

Definition inbox : EventPipe (Server W L) :=
  let p := InboxPipe.new display now in
  {| ep_is_connected s := ep_is_connected p (sv_node s);
     ep_feed work := on_inbox (ep_feed p work);
     ep_load_many leafs := on_inbox (ep_load_many p leafs);
     ep_prime records := on_inbox (ep_prime p records);
     ep_try_lock key := on_inbox (ep_try_lock p key);
     ep_unlock key := on_inbox (ep_unlock p key);
     ep_unlock_local key := on_inbox (ep_unlock_local p key) |}.

(** [ServerPipe]: what is to be transmitted goes to the group; the next pipe is null. *)
Definition server_pipe : EventPipe (Server W L) :=
  let next := NullPipe.new in
  {| ep_is_connected s := true;
     ep_feed work := st_mk (λ s,
       let s := if tr_transmit work
                then group_send None (Events None (MessageEvent.convert_to (tr_events work))) s
                else s in
       ep_feed next work s);
     ep_load_many := ep_load_many next;
     ep_prime := ep_prime next;
     ep_try_lock := ep_try_lock next;
     ep_unlock := ep_unlock next;
     ep_unlock_local := ep_unlock_local next |}.

Definition pipe : EventPipe (Server W L) := DuelPipe.new server_pipe inbox.

(** *** The packets of a connection *)

(** A handler that needs the chain of the connection. *)
Definition subscribed {A} c (f : st (Server W L) ServerErrorKind A)
    : st (Server W L) ServerErrorKind A :=
  st_mk (λ s,
    if sc_subscribed (context s c) then f s
    else (Err NotYetSubscribedErr, reply c (Fatal NotYetSubscribed) s)).

(** Feeding in the conversation of the connection. *)
Definition feed_as c (work : Transaction) : st (Server W L) FeedErrorKind unit :=
  st_mk (λ s,
    let conv := snd (nd_sync (sv_node s)) in
    let s := with_node s (Node.with_sync (sv_node s)
               (fst (nd_sync (sv_node s)), Some (sc_conversation (context s c)))) in
    let '(r, s) := ep_feed pipe work s in
    let s := set_context s c (SessionContext.with_conversation (context s c)
               (default ConversationSession.default (snd (nd_sync (sv_node s))))) in
    (r, with_node s (Node.with_sync (sv_node s) (fst (nd_sync (sv_node s)), conv)))).

Definition inbox_event c (commit : option Z) (evts : list MessageEvent)
    : st (Server W L) ServerErrorKind unit :=
  subscribed c (st_mk (λ s,
    let work := {| tr_scope := ScopeNone; tr_transmit := false;
                   tr_events := MessageEvent.convert_from evts; tr_timeout := 30000 |} in
    match feed_as c work s with
    | (Err e, s) => (Err (FeedFailed e), s)
    | (Ok _, s) =>
        let s := match commit with Some id => reply c (Confirmed id) s | None => s end in
        (Ok (), group_send (Some c) (Events commit evts) s)
    end)).

(** The lock is noted with the connection whether it was given or not. *)
Definition inbox_lock c (key : PrimaryKey) : st (Server W L) ServerErrorKind unit :=
  subscribed c (
    is_locked ← st_map_err LockFailed (ep_try_lock pipe key);
    st_mk (λ s,
      let ctx := context s c in
      let s := set_context s c (SessionContext.with_locks ctx (sc_locks ctx ∪ {[key]})) in
      (Ok (), reply c (LockResult key is_locked) s))).

Definition inbox_unlock c (key : PrimaryKey) : st (Server W L) ServerErrorKind unit :=
  subscribed c (st_mk (λ s,
    let ctx := context s c in
    let s := set_context s c (SessionContext.with_locks ctx (sc_locks ctx ∖ {[key]})) in
    st_map_err LockFailed (ep_unlock pipe key) s)).

Definition inbox_load_many c (id : Z) (leafs : list AteHash)
    : st (Server W L) ServerErrorKind unit :=
  subscribed c (st_mk (λ s,
    let '(r, s) := ep_load_many pipe leafs s in
    (Ok (), reply c (match r with
                     | Ok d => LoadManyResult id d
                     | Err e => LoadManyFailed id (show_load e)
                     end) s))).

Definition inbox_unsubscribe c s : Server W L :=
  set_context s c (SessionContext.with_subscribed (context s c) false).

Definition usize_max : Z := 2 ^ 64 - 1.

(** The streaming of a subscription, into the queue of the connection. *)
Definition stream_to c (fuel : nat) (other : nat → Node W L → Node W L) (from : ChainTimestamp)
    (strip_signatures : bool) (strip_data : Z) : st (Server W L) ServerErrorKind unit :=
  st_mk (λ s,
    let '(r, (n, out)) :=
      Streaming.stream_history_range (InboxPipe.new display now) fuel other (Included from)
        Unbounded strip_signatures strip_data (sv_node s, default [] (sv_out s !! c)) in
    (map_err StreamFailed r, with_out (with_node s n) (<[c := out]> (sv_out s)))).

(** [conv_id] is the identifier that is drawn, [table] and [node_id] tell which chains are on
    this server, and [opened] is what opening the chain comes to. *)
Definition inbox_subscribe c (conv_id : AteHash) (table : MeshHashTable) (node_id : nat)
    (opened : OpenResult) (fuel : nat) (other : nat → Node W L → Node W L)
    (chain_key : ChainKey) (from : ChainTimestamp) (redirect omit_data : bool)
    : st (Server W L) ServerErrorKind unit :=
  st_mk (λ s,
    let ctx := context s c in
    let conv := ConversationSession.clear (sc_conversation ctx) in
    let s := set_context s c (SessionContext.with_conversation ctx
      {| cv_id := Some conv_id; cv_weaken_validation := cv_weaken_validation conv;
         cv_signatures := cv_signatures conv |}) in
    let s := reply c (NewConversation conv_id) s in
    match MeshHashTable.lookup table chain_key with
    | None => (Ok (), reply c (Fatal NotThisRoot) s)
    | Some (_, id) =>
        if decide (node_id ≠ id) then
          (Ok (), if redirect
                  then set_context s c (SessionContext.with_relay (context s c) (Some id))
                  else reply c (Fatal (RootRedirect node_id id)) s)
        else
          match opened with
          | OpenNotThisRoot => (Ok (), reply c (Fatal NotThisRoot) s)
          | OpenFailed err => (Err (FatalErr err), reply c (Fatal (OtherFatal err)) s)
          | Opened integrity secured_with message_of_the_day =>
              let s := match secured_with with
                       | Some session => reply c (SecuredWith session) s
                       | None => s
                       end in
              let s := with_group s ({[c]} ∪ sv_group s) in
              let s := match message_of_the_day with
                       | Some m => reply c (HumanMessage m) s
                       | None => s
                       end in
              let s := set_context s c (SessionContext.with_subscribed (context s c) true) in
              stream_to c fuel other from (TrustMode.is_centralized integrity)
                (if omit_data then 64 else usize_max) s
          end
    end).

Definition has_data (evt : MessageEvent) : bool :=
  match me_data evt with LogNone => false | _ => true end.

Definition inbox_packet c (conv_id : AteHash) (table : MeshHashTable) (node_id : nat)
    (opened : OpenResult) (fuel : nat) (other : nat → Node W L → Node W L) (msg : Message)
    : st (Server W L) ServerErrorKind unit :=
  st_mk (λ s,
    match sc_relay (context s c) with
    | Some _ => (Ok (), with_relayed s (enqueue c msg (sv_relayed s)))
    | None =>
        match msg with
        | Subscribe chain_key from redirect omit_data =>
            inbox_subscribe c conv_id table node_id opened fuel other chain_key from redirect
              omit_data s
        | Events commit evts =>
            if sv_delete_only s && existsb has_data evts then (Ok (), reply c ReadOnly s)
            else inbox_event c commit evts s
        | Lock key => inbox_lock c key s
        | Unlock key => inbox_unlock c key s
        | LoadMany id leafs => inbox_load_many c id leafs s
        | _ => (Ok (), s)
        end
    end).

(** The connection is gone: its locks are released. *)
Definition disconnected c s : Server W L :=
  let ctx := context s c in
  let s := if sc_subscribed ctx
           then set_fold (λ key s, (ep_unlock_local pipe key s).2) s (sc_locks ctx) else s in
  with_group (with_contexts s (delete c (sv_contexts s))) (sv_group s ∖ {[c]}).
End ops.
End MeshRoot.
