(* ===== verification/MeshClient.v ===== *)
(** * The client of a chain

    lib/src/mesh/session.rs, recoverable_session_pipe.rs, active_session_pipe.rs and
    lock_request.rs: the session through which a client feeds, locks and loads at the
    server of a chain, and takes in what the server sends.  The messages to and from the
    server are two queues.  The guard of the active pipe is part of the state: an operation
    that needs it while it is held waits, and one that waits for a guard of its own never
    returns ([Blocked]).  What happens while an operation waits for the server is an
    argument of the operation. *)

From S2P Require Import Prelude LogApi Crypto Codec Secure Meta Time Event Index Signature Tree Compact Plugins LogFile MemDb RedoLog Chain ChainSpec Pipe Dio Mesh.

(** ** Requests for locks *)

Record LockRequest : Type := { lr_needed : Z; lr_positive : Z; lr_negative : Z }.

Module LockRequest.
(** The request, what was sent to the one who waits, and whether the vote is finished. *)
Definition entropy (r : LockRequest) (result : bool) : LockRequest * option bool * bool :=
  let r := if result
           then {| lr_needed := lr_needed r; lr_positive := lr_positive r + 1;
                   lr_negative := lr_negative r |}
           else {| lr_needed := lr_needed r; lr_positive := lr_positive r;
                   lr_negative := lr_negative r + 1 |} in
  if decide (lr_needed r ≤ lr_positive r) then (r, Some true, true)
  else if decide (lr_needed r ≤ lr_positive r + lr_negative r) then (r, Some false, true)
  else (r, None, false).

(** What is sent when the request is cancelled. *)
Definition cancel : bool := false.
End LockRequest.

(** ** The state of a client *)

Inductive CommsErrorKind : Type := CommsDisconnected | CommsReadOnly | CommsTimeout.

(** The kinds of [CommitErrorKind] and [LoadErrorKind] the session raises.  [Blocked] is a
    task that waits for a guard it holds. *)
Inductive MeshErrorKind : Type :=
  | MeshComms (e : CommsErrorKind)
  | MeshLock (e : CommsErrorKind)
  | MeshAborted
  | MeshReadOnly
  | MeshTimeout
  | MeshRoot (err : string)
  | MeshFeed (e : FeedErrorKind)
  | MeshRead (e : ReadErrorKind)
  | MeshLoadFailed (err : string)
  | MeshStream (e : StreamErrorKind)
  | Blocked.

(** The kinds of [CommsErrorKind] a handler of the session raises. *)
Inductive SessionErrorKind : Type :=
  | SessionDisconnected
  | SessionSend
  | SessionFeed (e : MeshErrorKind).

Inductive ConnectionStatusChange : Type := StatusDisconnected | StatusReadOnly.

(** The two fields of [ActiveSessionPipe] that change. *)
Record ActivePipe : Type := { ap_connected : bool; ap_likely_read_only : bool }.

(** What the active pipe and [MeshSession] share.  A request stands in its table until it is
    answered; [ms_commit] tells whether the one who made it still waits. *)
Record MeshSession : Type := {
  ms_commit : gmap Z bool;
  ms_lock_requests : gmap PrimaryKey LockRequest;
  ms_load_requests : gmap Z (list AteHash);
  ms_inbound : ConversationSession;
  ms_outbound : ConversationSession;
}.

(** The answers in the channels of those who wait. *)
Record Answers : Type := {
  an_commit : gmap Z (result MeshErrorKind Z);
  an_lock : gmap PrimaryKey bool;
  an_load : gmap Z (result MeshErrorKind (list (option bytes)));
}.

Record Client (W L : Type) : Type := {
  cl_node : Node W L;
  cl_mode : RecoveryMode;
  cl_active : option ActivePipe;
  cl_held : bool;
  cl_session : MeshSession;
  cl_answers : Answers;
  cl_loader : option AntiReplayPlugin;
  cl_notified : list (result FatalTerminate unit);
  cl_status : list ConnectionStatusChange;
  cl_in : list Message;
  cl_out : list Message;
}.
Arguments cl_node {W L} c.
Arguments cl_mode {W L} c.
Arguments cl_active {W L} c.
Arguments cl_held {W L} c.
Arguments cl_session {W L} c.
Arguments cl_answers {W L} c.
Arguments cl_loader {W L} c.
Arguments cl_notified {W L} c.
Arguments cl_status {W L} c.
Arguments cl_in {W L} c.
Arguments cl_out {W L} c.

Definition no_answers : Answers := {| an_commit := ∅; an_lock := ∅; an_load := ∅ |}.

Module MeshSession.
(** The session of a new active pipe. *)
Definition new : MeshSession :=
  {| ms_commit := ∅; ms_lock_requests := ∅; ms_load_requests := ∅;
     ms_inbound := ConversationSession.default; ms_outbound := ConversationSession.default |}.

Definition with_commit (m : MeshSession) (c : gmap Z bool) : MeshSession :=
  {| ms_commit := c; ms_lock_requests := ms_lock_requests m;
     ms_load_requests := ms_load_requests m; ms_inbound := ms_inbound m;
     ms_outbound := ms_outbound m |}.

Definition with_lock_requests (m : MeshSession) (l : gmap PrimaryKey LockRequest) : MeshSession :=
  {| ms_commit := ms_commit m; ms_lock_requests := l; ms_load_requests := ms_load_requests m;
     ms_inbound := ms_inbound m; ms_outbound := ms_outbound m |}.

Definition with_load_requests (m : MeshSession) (l : gmap Z (list AteHash)) : MeshSession :=
  {| ms_commit := ms_commit m; ms_lock_requests := ms_lock_requests m; ms_load_requests := l;
     ms_inbound := ms_inbound m; ms_outbound := ms_outbound m |}.

Definition with_conversations (m : MeshSession) (i o : ConversationSession) : MeshSession :=
  {| ms_commit := ms_commit m; ms_lock_requests := ms_lock_requests m;
     ms_load_requests := ms_load_requests m; ms_inbound := i; ms_outbound := o |}.
End MeshSession.

Module Client.
Section ops.
Context {W L : Type}.

Definition with_node (c : Client W L) (x : Node W L) : Client W L :=
  {| cl_node := x; cl_mode := cl_mode c; cl_active := cl_active c; cl_held := cl_held c;
     cl_session := cl_session c; cl_answers := cl_answers c; cl_loader := cl_loader c;
     cl_notified := cl_notified c; cl_status := cl_status c; cl_in := cl_in c; cl_out :=
     cl_out c |}.

Definition with_active (c : Client W L) (x : option ActivePipe) : Client W L :=
  {| cl_node := cl_node c; cl_mode := cl_mode c; cl_active := x; cl_held := cl_held c;
     cl_session := cl_session c; cl_answers := cl_answers c; cl_loader := cl_loader c;
     cl_notified := cl_notified c; cl_status := cl_status c; cl_in := cl_in c; cl_out :=
     cl_out c |}.

Definition with_held (c : Client W L) (x : bool) : Client W L :=
  {| cl_node := cl_node c; cl_mode := cl_mode c; cl_active := cl_active c; cl_held := x;
     cl_session := cl_session c; cl_answers := cl_answers c; cl_loader := cl_loader c;
     cl_notified := cl_notified c; cl_status := cl_status c; cl_in := cl_in c; cl_out :=
     cl_out c |}.

Definition with_session (c : Client W L) (x : MeshSession) : Client W L :=
  {| cl_node := cl_node c; cl_mode := cl_mode c; cl_active := cl_active c; cl_held := cl_held
     c; cl_session := x; cl_answers := cl_answers c; cl_loader := cl_loader c; cl_notified :=
     cl_notified c; cl_status := cl_status c; cl_in := cl_in c; cl_out := cl_out c |}.

Definition with_answers (c : Client W L) (x : Answers) : Client W L :=
  {| cl_node := cl_node c; cl_mode := cl_mode c; cl_active := cl_active c; cl_held := cl_held
     c; cl_session := cl_session c; cl_answers := x; cl_loader := cl_loader c; cl_notified :=
     cl_notified c; cl_status := cl_status c; cl_in := cl_in c; cl_out := cl_out c |}.

Definition with_loader (c : Client W L) (x : option AntiReplayPlugin) : Client W L :=
  {| cl_node := cl_node c; cl_mode := cl_mode c; cl_active := cl_active c; cl_held := cl_held
     c; cl_session := cl_session c; cl_answers := cl_answers c; cl_loader := x; cl_notified :=
     cl_notified c; cl_status := cl_status c; cl_in := cl_in c; cl_out := cl_out c |}.

Definition with_notified (c : Client W L) (x : list (result FatalTerminate unit)) : Client W L :=
  {| cl_node := cl_node c; cl_mode := cl_mode c; cl_active := cl_active c; cl_held := cl_held
     c; cl_session := cl_session c; cl_answers := cl_answers c; cl_loader := cl_loader c;
     cl_notified := x; cl_status := cl_status c; cl_in := cl_in c; cl_out := cl_out c |}.

Definition with_status (c : Client W L) (x : list ConnectionStatusChange) : Client W L :=
  {| cl_node := cl_node c; cl_mode := cl_mode c; cl_active := cl_active c; cl_held := cl_held
     c; cl_session := cl_session c; cl_answers := cl_answers c; cl_loader := cl_loader c;
     cl_notified := cl_notified c; cl_status := x; cl_in := cl_in c; cl_out := cl_out c |}.

Definition with_in (c : Client W L) (x : list Message) : Client W L :=
  {| cl_node := cl_node c; cl_mode := cl_mode c; cl_active := cl_active c; cl_held := cl_held
     c; cl_session := cl_session c; cl_answers := cl_answers c; cl_loader := cl_loader c;
     cl_notified := cl_notified c; cl_status := cl_status c; cl_in := x; cl_out := cl_out c
     |}.

Definition with_out (c : Client W L) (x : list Message) : Client W L :=
  {| cl_node := cl_node c; cl_mode := cl_mode c; cl_active := cl_active c; cl_held := cl_held
     c; cl_session := cl_session c; cl_answers := cl_answers c; cl_loader := cl_loader c;
     cl_notified := cl_notified c; cl_status := cl_status c; cl_in := cl_in c; cl_out := x |}.

Definition send (m : Message) (c : Client W L) : Client W L := with_out c (cl_out c ++ [m]).

Definition notify (r : result FatalTerminate unit) (c : Client W L) : Client W L :=
  with_notified c (cl_notified c ++ [r]).
End ops.
End Client.

(** ** The pipe to the server *)

Module SessionPipe.
Section ops.
Context {W L : Type} `{CryptoPrims} `{KemPrims} `{MetaSerializer} `{LogFile W L}.
Variable display : ValidationErrorKind → string.
Variable now : option Z.
Implicit Types (c : Client W L).

(** The next pipe is the inbox of the chain. *)
Definition next {E A} (wrap : E → MeshErrorKind) (f : st (Node W L) E A)
    : st (Client W L) MeshErrorKind A :=
  st_mk (λ c, let '(r, n) := f (cl_node c) in (map_err wrap r, Client.with_node c n)).

(** [self.active.write().await], for as long as [f] runs. *)
Definition with_guard {A} (f : st (Client W L) MeshErrorKind A)
    : st (Client W L) MeshErrorKind A :=
  st_mk (λ c,
    if cl_held c then (Err Blocked, c)
    else
      match f (Client.with_held c true) with
      | (Err Blocked, c) => (Err Blocked, c)
      | (r, c) => (r, Client.with_held c false)
      end).

Definition set_likely_read_only (b : bool) c : Client W L :=
  Client.with_active c
    ((λ a, {| ap_connected := ap_connected a; ap_likely_read_only := b |}) <$> cl_active c).

Definition mark_connected c : Client W L :=
  Client.with_active c
    ((λ a, {| ap_connected := true; ap_likely_read_only := ap_likely_read_only a |})
       <$> cl_active c).

Definition is_connected c : bool :=
  match cl_active c with Some a => ap_connected a | None => false end.

Definition on_read_only c : Client W L := set_likely_read_only true c.

(** While the server is away everything has to be signed. *)
Definition set_integrity (mode : TrustMode) (n : Node W L) : Node W L :=
  Node.with_sync (Node.with_chain n (nd_world n)
      (ChainProtectedAsync.set_integrity_mode mode (nd_async n)))
    (ChainProtectedSync.set_integrity_mode mode (fst (nd_sync n)), snd (nd_sync n)).

Definition on_disconnect c : Client W L :=
  match cl_active c with
  | Some _ => Client.with_node c (set_integrity Distributed (cl_node c))
  | None => c
  end.

(** *** Feeding *)

(** Without the active pipe: an error, or nothing to do at the server. *)
Definition offline {A} (a : A) : st (Client W L) MeshErrorKind A :=
  st_mk (λ c,
    (if RecoveryMode.should_error_out (cl_mode c) then Err (MeshComms CommsDisconnected)
     else if RecoveryMode.should_go_readonly (cl_mode c) then Err (MeshComms CommsReadOnly)
     else Ok a, c)).

(** [ActiveSessionPipe::feed_internal]; [id] is the number drawn for the commit. *)
Definition feed_internal (id : Z) (trans : Transaction)
    : st (Client W L) MeshErrorKind (option Z) :=
  st_mk (λ c,
    let evts := MessageEvent.convert_to (tr_events trans) in
    if decide (tr_scope trans = ScopeFull) then
      let m := cl_session c in
      let c := Client.with_session c (MeshSession.with_commit m (<[id := true]> (ms_commit m))) in
      (Ok (Some id), Client.send (Events (Some id) evts) c)
    else (Ok None, Client.send (Events None evts) c)).

(** [ActiveSessionPipe::feed]: the transaction, whose scope may have changed, and the commit
    to wait for. *)
Definition active_feed (id : Z) (pipe : ActivePipe) (trans : Transaction)
    : st (Client W L) MeshErrorKind (Transaction * option Z) :=
  st_mk (λ c,
    if tr_transmit trans then
      let trans := if ap_likely_read_only pipe && RecoveryMode.should_go_readonly (cl_mode c)
                   then {| tr_scope := ScopeFull; tr_transmit := tr_transmit trans;
                           tr_events := tr_events trans; tr_timeout := tr_timeout trans |}
                   else trans in
      (if ap_connected pipe then
         receiver ← feed_internal id trans; mret (trans, receiver)
       else offline (trans, None)) c
    else (Ok (trans, None), c)).

(** [RecoverableSessionPipe::feed]; [wait] is the wait for a commit. *)
Definition feed_with (wait : Z → st (Client W L) MeshErrorKind unit) (id : Z) (work : Transaction)
    : st (Client W L) MeshErrorKind unit :=
  r ← with_guard (st_mk (λ c,
        match cl_active c with
        | Some pipe => active_feed id pipe work c
        | None => offline (work, None) c
        end));
  _ ← match snd r with Some id => wait id | None => mret () end;
  next MeshFeed (ep_feed (InboxPipe.new display now) (fst r)).

(** The wait for a commit.  The guard is not held. *)
Definition wait_commit (meanwhile : Client W L → Client W L) (id : Z)
    : st (Client W L) MeshErrorKind unit :=
  st_mk (λ c,
    let c := meanwhile c in
    let an := cl_answers c in
    match an_commit an !! id with
    | Some r =>
        let c := Client.with_answers c
          {| an_commit := delete id (an_commit an); an_lock := an_lock an; an_load := an_load an |} in
        (_ ← with_guard (st_mk (λ c, (Ok (), set_likely_read_only false c)));
         st_mk (λ c, (_ ← r; Ok (), c))) c
    | None =>
        let m := cl_session c in
        match ms_commit m !! id with
        | Some _ => (Err MeshTimeout, Client.with_session c
                       (MeshSession.with_commit m (<[id := false]> (ms_commit m))))
        | None => (Err MeshAborted, c)
        end
    end).

Definition feed (meanwhile : Client W L → Client W L) (id : Z) (work : Transaction)
    : st (Client W L) MeshErrorKind unit :=
  feed_with (wait_commit meanwhile) id work.

(** *** Locking *)

Definition with_lock_answers (an : Answers) (l : gmap PrimaryKey bool) : Answers :=
  {| an_commit := an_commit an; an_lock := l; an_load := an_load an |}.

(** [ActiveSessionPipe::try_lock].  The guard is held during the wait. *)
Definition active_try_lock (meanwhile : Client W L → Client W L) (pipe : ActivePipe)
    (key : PrimaryKey) : st (Client W L) MeshErrorKind bool :=
  st_mk (λ c,
    if negb (ap_connected pipe) then (Err (MeshLock CommsDisconnected), c)
    else
      let m := cl_session c in
      let c := Client.with_session c (MeshSession.with_lock_requests m
        (<[key := {| lr_needed := 1; lr_positive := 0; lr_negative := 0 |}]>
           (ms_lock_requests m))) in
      let c := Client.with_answers c
        (with_lock_answers (cl_answers c) (delete key (an_lock (cl_answers c)))) in
      let c := meanwhile (Client.send (Lock key) c) in
      match an_lock (cl_answers c) !! key with
      | Some b =>
          (Ok b, Client.with_answers (set_likely_read_only false c)
             (with_lock_answers (cl_answers c) (delete key (an_lock (cl_answers c)))))
      | None =>
          let m := cl_session c in
          (Err (MeshLock CommsTimeout), Client.with_session c
             (MeshSession.with_lock_requests m (delete key (ms_lock_requests m))))
      end).

(** [RecoverableSessionPipe::try_lock]: first here, then at the server. *)
Definition try_lock (meanwhile : Client W L → Client W L) (key : PrimaryKey)
    : st (Client W L) MeshErrorKind bool :=
  with_guard (st_mk (λ c,
    match cl_active c with
    | None => (Ok false, c)
    | Some pipe =>
        (local ← next MeshFeed (ep_try_lock (InboxPipe.new display now) key);
         if (local : bool) then active_try_lock meanwhile pipe key else mret false) c
    end)).

Definition active_unlock (pipe : ActivePipe) (key : PrimaryKey)
    : st (Client W L) MeshErrorKind unit :=
  st_mk (λ c,
    if negb (ap_connected pipe) then (Err (MeshComms CommsDisconnected), c)
    else (Ok (), Client.send (Unlock key) c)).

Definition unlock (key : PrimaryKey) : st (Client W L) MeshErrorKind unit :=
  _ ← next MeshFeed (ep_unlock (InboxPipe.new display now) key);
  with_guard (st_mk (λ c,
    match cl_active c with
    | Some pipe => active_unlock pipe key c
    | None => offline () c
    end)).

Definition unlock_local (key : PrimaryKey) : st (Client W L) MeshErrorKind unit :=
  next MeshFeed (ep_unlock_local (InboxPipe.new display now) key).

(** *** Loading *)

Definition with_load_answers (an : Answers)
    (l : gmap Z (result MeshErrorKind (list (option bytes)))) : Answers :=
  {| an_commit := an_commit an; an_lock := an_lock an; an_load := l |}.

(** [ActiveSessionPipe::load_many].  The guard is held during the wait. *)
Definition active_load_many (meanwhile : Client W L → Client W L) (id : Z) (leafs : list AteHash)
    : st (Client W L) MeshErrorKind (list (option bytes)) :=
  st_mk (λ c,
    let m := cl_session c in
    let c := Client.with_session c
      (MeshSession.with_load_requests m (<[id := leafs]> (ms_load_requests m))) in
    let c := meanwhile (Client.send (LoadMany id leafs) c) in
    match an_load (cl_answers c) !! id with
    | Some r =>
        (r, Client.with_answers (set_likely_read_only false c)
           (with_load_answers (cl_answers c) (delete id (an_load (cl_answers c)))))
    | None =>
        let m := cl_session c in
        (match ms_load_requests m !! id with
         | Some _ => Err MeshTimeout
         | None => Err (MeshRead ReadDisconnected)
         end,
         Client.with_session c
           (MeshSession.with_load_requests m (delete id (ms_load_requests m))))
    end).

Definition load_many (meanwhile : Client W L → Client W L) (id : Z) (leafs : list AteHash)
    : st (Client W L) MeshErrorKind (list (option bytes)) :=
  st_mk (λ c,
    match next MeshRead (ep_load_many (InboxPipe.new display now) leafs) c with
    | (Err (MeshRead ReadMissingData), c) | (Err (MeshRead ReadDisconnected), c) =>
        with_guard (st_mk (λ c,
          match cl_active c with
          | Some _ => active_load_many meanwhile id leafs c
          | None => (Err (MeshRead ReadDisconnected), c)
          end)) c
    | r => r
    end).

(** What is primed is not handed on. *)
Definition prime (records : list (AteHash * option bytes)) : st (Client W L) MeshErrorKind unit :=
  mret ().
End ops.
End SessionPipe.

(** ** What the server sends *)

Module AteSessionUser.
(** [append] of the properties of another, for sessions without a broker. *)
Definition append (s t : AteSession) : AteSession :=
  {| ss_identity := ss_identity s;
     ss_write_keys := ss_write_keys s ++ ss_write_keys t;
     ss_read_keys := ss_read_keys s ++ ss_read_keys t;
     ss_private_read_keys := ss_private_read_keys s ++ ss_private_read_keys t |}.
End AteSessionUser.

Module SessionInbox.
Section ops.
Context {W L : Type} `{CryptoPrims} `{KemPrims} `{MetaSerializer} `{LogFile W L}.
Variable display : ValidationErrorKind → string.
Variable now : option Z.
Implicit Types (c : Client W L).

(** The loop that asks the loader: the events that were not seen. *)
Fixpoint relevant (l : AntiReplayPlugin) (evts : list EventWeakData)
    : list EventWeakData * AntiReplayPlugin :=
  match evts with
  | [] => ([], l)
  | e :: evts =>
      let '(seen, l) := AntiReplayPlugin.relevance_check e l in
      let '(rest, l) := relevant l evts in
      (if seen then rest else e :: rest, l)
  end.

(** A transaction in the conversation of what comes in. *)
Definition feed_inbound (work : Transaction) : st (Client W L) MeshErrorKind unit :=
  st_mk (λ c,
    let conv := snd (nd_sync (cl_node c)) in
    let c := Client.with_node c (Node.with_sync (cl_node c)
               (fst (nd_sync (cl_node c)), Some (ms_inbound (cl_session c)))) in
    let '(r, c) := SessionPipe.feed_with display now (λ _, mret ()) 0 work c in
    let c := Client.with_session c (MeshSession.with_conversations (cl_session c)
      (default ConversationSession.default (snd (nd_sync (cl_node c))))
      (ms_outbound (cl_session c))) in
    (r, Client.with_node c (Node.with_sync (cl_node c) (fst (nd_sync (cl_node c)), conv)))).

Definition inbox_events (evts : list MessageEvent) : st (Client W L) SessionErrorKind unit :=
  st_mk (λ c,
    let feed_me := MessageEvent.convert_from evts in
    let '(feed_me, c) :=
      match cl_loader c with
      | Some l => let '(evts, l) := relevant l feed_me in (evts, Client.with_loader c (Some l))
      | None => (feed_me, c)
      end in
    st_map_err SessionFeed (feed_inbound
      {| tr_scope := ScopeLocal; tr_transmit := false; tr_events := feed_me;
         tr_timeout := 30000 |}) c).

(** The answer to a commit; sending it fails when nobody waits for it. *)
Definition answer_commit (id : Z) (r : result MeshErrorKind Z)
    : st (Client W L) SessionErrorKind unit :=
  st_mk (λ c,
    let m := cl_session c in
    match ms_commit m !! id with
    | None => (Ok (), c)
    | Some waiting =>
        let c := Client.with_session c (MeshSession.with_commit m (delete id (ms_commit m))) in
        if (waiting : bool) then
          let an := cl_answers c in
          (Ok (), Client.with_answers c
             {| an_commit := <[id := r]> (an_commit an); an_lock := an_lock an;
                an_load := an_load an |})
        else (Err SessionSend, c)
    end).

Definition inbox_confirmed (id : Z) : st (Client W L) SessionErrorKind unit :=
  answer_commit id (Ok id).

Definition inbox_commit_error (id : Z) (err : string) : st (Client W L) SessionErrorKind unit :=
  answer_commit id (Err (MeshRoot err)).

Definition inbox_lock_result (key : PrimaryKey) (is_locked : bool) c : Client W L :=
  let m := cl_session c in
  match ms_lock_requests m !! key with
  | None => c
  | Some r =>
      let '(r, sent, finished) := LockRequest.entropy r is_locked in
      let c := match sent with
               | Some b => Client.with_answers c (SessionPipe.with_lock_answers (cl_answers c)
                             (<[key := b]> (an_lock (cl_answers c))))
               | None => c
               end in
      Client.with_session c (MeshSession.with_lock_requests m
        (if (finished : bool) then delete key (ms_lock_requests m)
         else <[key := r]> (ms_lock_requests m)))
  end.

(** The request that is answered is taken from the table. *)
Definition inbox_load_result (id : Z) (r : result MeshErrorKind (list (option bytes))) c
    : Client W L :=
  let m := cl_session c in
  match ms_load_requests m !! id with
  | None => c
  | Some records =>
      let c := Client.with_session c
        (MeshSession.with_load_requests m (delete id (ms_load_requests m))) in
      let c := match r with
               | Ok data => (SessionPipe.prime (zip records data) c).2
               | Err _ => c
               end in
      Client.with_answers c (SessionPipe.with_load_answers (cl_answers c)
        (<[id := r]> (an_load (cl_answers c))))
  end.

(** *** Events that were written while the server was away *)

Definition feed_meta_data (meta : Metadata) : st (Client W L) SessionErrorKind unit :=
  st_mk (λ c,
    let n := cl_node c in
    let '(r, (w, a, s)) := ChainProtectedAsync.feed_meta_data display now meta
      (nd_world n, nd_async n, (fst (nd_sync n), None)) in
    (map_err (λ e, SessionFeed (MeshFeed (FeedCommit e))) r,
     Client.with_node c (Node.with_sync (Node.with_chain n w a) (fst s, snd (nd_sync n))))).

Definition keys_from (t : ChainTimestamp) (n : Node W L) : list ChainTimestamp :=
  ChainProtectedAsync.range_keys (Bound.above (Included t)) (Bound.below Unbounded) (nd_async n).

Definition upload (complete : bool) (from to : ChainTimestamp) : Metadata :=
  {| meta_core :=
       [CoreDelayedUpload {| du_complete := complete; du_from := from; du_to := to |}] |}.

Definition record_delayed_upload (pivot : ChainTimestamp) : st (Client W L) SessionErrorKind unit :=
  st_mk (λ c,
    match head (keys_from pivot (cl_node c)) with
    | None => (Ok (), c)
    | Some from =>
        match BinaryTreeIndexer.get_delayed_upload
                (ct_pointers (co_timeline (ca_chain (nd_async (cl_node c))))) from with
        | Some _ => (Ok (), c)
        | None =>
            match last (keys_from from (cl_node c)) with
            | Some to => feed_meta_data (upload false from to) c
            | None => (Ok (), c)
            end
        end
    end).

Definition complete_delayed_upload (from to : ChainTimestamp)
    : st (Client W L) SessionErrorKind unit := feed_meta_data (upload true from to).

(** *** The messages *)

Definition set_root_keys (keys : list PublicSignKey) (p : EventPlugin) : EventPlugin :=
  match p with
  | TreeAuthority t => TreeAuthority (TreeAuthorityPlugin.set_root_keys keys t)
  | p => p
  end.

Definition inbox_start_of_history (to : option ChainTimestamp) (root_keys : list PublicSignKey)
    (integrity : TrustMode) : st (Client W L) SessionErrorKind unit :=
  st_mk (λ c,
    let '(sync, conv) := nd_sync (cl_node c) in
    let sync := ChainProtectedSync.set_integrity_mode integrity sync in
    let sync := ChainProtectedSync.with_plugins sync (set_root_keys root_keys <$> cs_plugins sync) in
    let c := Client.with_node c (Node.with_sync (cl_node c) (sync, conv)) in
    (_ ← match to with
         | Some to =>
             st_mk (λ c, match keys_from to (cl_node c) !! 1%nat with
                         | Some next => record_delayed_upload next c
                         | None => (Ok (), c)
                         end)
         | None => mret ()
         end;
     st_mk (λ c, (Ok (), match cl_loader c with Some _ => Client.notify (Ok ()) c | None => c end)))
      c).

Definition inbox_end_of_history c : Client W L :=
  match cl_loader c with
  | Some _ => Client.notify (Ok ()) (Client.with_loader c None)
  | None => c
  end.

Definition inbox_secure_with (session : AteSession) c : Client W L :=
  let '(s, conv) := nd_sync (cl_node c) in
  Client.with_node c (Node.with_sync (cl_node c)
    ({| cs_integrity := cs_integrity s;
        cs_default_session := AteSessionUser.append (cs_default_session s) session;
        cs_plugins := cs_plugins s; cs_indexers := cs_indexers s; cs_linters := cs_linters s;
        cs_transformers := cs_transformers s; cs_validators := cs_validators s |}, conv)).

Definition renew (id : AteHash) (v : ConversationSession) : ConversationSession :=
  let v := ConversationSession.clear v in
  {| cv_id := Some id; cv_weaken_validation := cv_weaken_validation v;
     cv_signatures := cv_signatures v |}.

Definition inbox_new_conversation (id : AteHash) c : Client W L :=
  let m := cl_session c in
  Client.with_session c
    (MeshSession.with_conversations m (renew id (ms_inbound m)) (renew id (ms_outbound m))).

(** Everybody who waits for a commit is told. *)
Definition cancel_commits (reason : MeshErrorKind) c : Client W L :=
  let m := cl_session c in
  let an := cl_answers c in
  let reason := match reason with MeshReadOnly => MeshReadOnly | _ => MeshAborted end in
  Client.with_session
    (Client.with_answers c
       {| an_commit := map_fold (λ id waiting q, if (waiting : bool) then <[id := Err reason]> q else q)
                         (an_commit an) (ms_commit m);
          an_lock := an_lock an; an_load := an_load an |})
    (MeshSession.with_commit m ∅).

Definition cancel_locks c : Client W L :=
  let m := cl_session c in
  let an := cl_answers c in
  Client.with_session
    (Client.with_answers c (SessionPipe.with_lock_answers an
       (map_fold (λ key _ q, <[key := LockRequest.cancel]> q) (an_lock an) (ms_lock_requests m))))
    (MeshSession.with_lock_requests m ∅).

Definition inbox_packet (msg : Message) : st (Client W L) SessionErrorKind unit :=
  st_mk (λ c,
    match msg with
    | StartOfHistory _ _ to integrity root_keys => inbox_start_of_history to root_keys integrity c
    | ReadOnly =>
        let c := cancel_commits MeshReadOnly c in
        (Ok (), Client.with_status c (cl_status c ++ [StatusReadOnly]))
    | Events commit evts =>
        let '(r, c) := match commit with Some id => inbox_confirmed id c | None => (Ok (), c) end in
        (_ ← inbox_events evts; st_mk (λ c, (r, c))) c
    | Confirmed id => inbox_confirmed id c
    | CommitError id err => inbox_commit_error id err c
    | LockResult key is_locked => (Ok (), inbox_lock_result key is_locked c)
    | LoadManyResult id data => (Ok (), inbox_load_result id (Ok data) c)
    | LoadManyFailed id err => (Ok (), inbox_load_result id (Err (MeshLoadFailed err)) c)
    | EndOfHistory => (Ok (), inbox_end_of_history c)
    | SecuredWith session => (Ok (), inbox_secure_with session c)
    | NewConversation id => (Ok (), inbox_new_conversation id c)
    | Fatal fatal =>
        (Err SessionDisconnected,
         match cl_loader c with
         | Some _ => Client.notify (Err fatal) (Client.with_loader c None)
         | None => c
         end)
    | _ => (Ok (), c)
    end).

(** [MeshSessionProcessor::shutdown]. *)
Definition shutdown c : Client W L :=
  let c := cancel_locks (cancel_commits MeshAborted c) in
  Client.with_status c (cl_status c ++ [StatusDisconnected]).

(** Does the loop that reads the packets end on the error? *)
Definition ends_session (e : SessionErrorKind) : bool :=
  match e with SessionDisconnected | SessionSend => true | SessionFeed _ => false end.

(** What is left to do of a packet whose handler waits for the guard. *)
Definition left_over (m : Message) : Message :=
  match m with Events _ evts => Events None evts | m => m end.

(** The loop that reads the packets, for [n] of them.  A handler that waits for the guard
    holds the loop up. *)
Fixpoint process_inbox (n : nat) c : Client W L :=
  match n, cl_in c with
  | S n, m :: ms =>
      match inbox_packet m (Client.with_in c ms) with
      | (Err (SessionFeed Blocked), c') =>
          Client.with_loader (Client.with_in c' (left_over m :: ms)) (cl_loader c)
      | (Err e, c) => if ends_session e
                      then Client.with_loader (Client.with_in (shutdown c) []) None
                      else process_inbox n c
      | (Ok _, c) => process_inbox n c
      end
  | _, _ => c
  end.
End ops.
End SessionInbox.

(** ** Connecting *)

Inductive ConnectErrorKind : Type :=
  | ConnectHeader (e : SerializationErrorKind)
  | ServerRejected (why : FatalTerminate)
  | ServerGone
  | ConnectUpload (e : SessionErrorKind)
  | ConnectPending.

Module Connect.
Section ops.
Context {W L : Type} `{CryptoPrims} `{KemPrims} `{MetaSerializer} `{LogFile W L}.
Context `{ChainHeaderJson}.
Variable display : ValidationErrorKind → string.
Variable now : option Z.
Implicit Types (c : Client W L).

(** Where the subscription starts: before the end of what is here by the tolerance, and not
    before the cut-off. *)
Definition subscribe_from (a : ChainProtectedAsync L)
    : result SerializationErrorKind ChainTimestamp :=
  let tolerance_ms := ca_sync_tolerance a in
  let ret := ChainTimeline.end_ (co_timeline (ca_chain a)) in
  let ret := if decide (tolerance_ms < time_since_epoch_ms ret)
             then ChainTimestamp.from (time_since_epoch_ms ret - tolerance_ms) else ret in
  header ← Compaction.read_chain_header (co_redo (ca_chain a));
  Ok (if ChainTimestamp.lt ret (ch_cut_off header) then ch_cut_off header else ret).

(** The events that are here. *)
Definition anti_replay (n : Node W L) : AntiReplayPlugin :=
  foldl (λ p e, AntiReplayPlugin.push p (raw_event_hash (snd e))) AntiReplayPlugin.new
    (ct_history (co_timeline (ca_chain (nd_async n)))).

Definition create_active_pipe (key : ChainKey) (lazy_data : bool) (loader : AntiReplayPlugin)
    : st (Client W L) ConnectErrorKind ActivePipe :=
  st_mk (λ c,
    let c := Client.with_session c MeshSession.new in
    let c := Client.with_answers c no_answers in
    let c := Client.with_notified (Client.with_loader c (Some loader)) [] in
    match subscribe_from (nd_async (cl_node c)) with
    | Err e => (Err (ConnectHeader e), c)
    | Ok from =>
        (Ok {| ap_connected := false; ap_likely_read_only := false |},
         Client.send (Subscribe key from true lazy_data) c)
    end).

(** The events of an upload, without the last, with the guard held; and then an empty
    transaction through the pipe, to see that they have arrived. *)
Definition send_upload (meanwhile : Client W L → Client W L) (fuel : nat)
    (other : nat → Node W L → Node W L) (id : Z) (d : MetaDelayedUpload)
    : st (Client W L) MeshErrorKind (result SessionErrorKind unit) :=
  SessionPipe.with_guard (st_mk (λ c,
    match cl_active c with
    | None => (Ok (Ok ()), c)
    | Some _ =>
        let '(r, (n, out)) := Streaming.stream_history_range (InboxPipe.new display now) fuel other
          (Included (du_from d)) (Excluded (du_to d)) false MeshRoot.usize_max
          (cl_node c, cl_out c) in
        let c := Client.with_out (Client.with_node c n) out in
        match r with
        | Err (StreamRead ReadMissingData) | Err (StreamRead ReadDisconnected) => (Err Blocked, c)
        | Err e => (Err (MeshStream e), c)
        | Ok _ =>
            match SessionPipe.feed display now meanwhile id
                    (Transaction.from_events [] ScopeFull true 30000) c with
            | (Ok _, c) =>
                let '(r, c) := SessionInbox.complete_delayed_upload display now
                                 (du_from d) (du_to d) c in
                (Ok r, c)
            | (Err Blocked, c) => (Err Blocked, c)
            | (Err _, c) => (Ok (Ok ()), c)
            end
        end
    end)).

Fixpoint send_uploads (meanwhile : Client W L → Client W L) (fuel : nat)
    (other : nat → Node W L → Node W L) (id : Z) (ds : list MetaDelayedUpload)
    : st (Client W L) ConnectErrorKind unit :=
  match ds with
  | [] => mret ()
  | d :: ds =>
      r ← st_map_err (λ e, ConnectUpload (SessionFeed e)) (send_upload meanwhile fuel other id d);
      _ ← st_mk (λ c, (map_err ConnectUpload r, c));
      send_uploads meanwhile fuel other id ds
  end.

(** The part of [connect] before it waits for the server. *)
Definition open (key : ChainKey) (lazy_data : bool) : st (Client W L) ConnectErrorKind unit :=
  st_mk (λ c,
    match create_active_pipe key lazy_data (anti_replay (cl_node c))
            (Client.with_active c None) with
    | (Err e, c) => (Err e, c)
    | (Ok pipe, c) => (Ok (), Client.with_active c (Some pipe))
    end).

(** The part after: both ends of the history have been seen. *)
Definition finish (meanwhile : Client W L → Client W L) (fuel : nat)
    (other : nat → Node W L → Node W L) (id : Z) : st (Client W L) ConnectErrorKind unit :=
  st_mk (λ c,
    match cl_notified c with
    | Err why :: _ | Ok _ :: Err why :: _ => (Err (ServerRejected why), c)
    | Ok _ :: Ok _ :: _ =>
        (_ ← send_uploads meanwhile fuel other id (BinaryTreeIndexer.get_pending_uploads
               (ct_pointers (co_timeline (ca_chain (nd_async (cl_node c))))));
         st_mk (λ c, (Ok (), SessionPipe.mark_connected c))) c
    | _ => (Err (match cl_loader c with Some _ => ConnectPending | None => ServerGone end), c)
    end).

(** [RecoverableSessionPipe::connect]; [loading] is what happens until the history is here. *)
Definition connect (key : ChainKey) (lazy_data : bool) (loading : Client W L → Client W L)
    (meanwhile : Client W L → Client W L) (fuel : nat) (other : nat → Node W L → Node W L)
    (id : Z) : st (Client W L) ConnectErrorKind unit :=
  _ ← open key lazy_data;
  _ ← st_mk (λ c, (Ok (), loading c));
  finish meanwhile fuel other id.

(** The wait between two attempts to reconnect, in seconds. *)
Definition next_backoff (exp_backoff : Z) : Z :=
  let b := exp_backoff * 2 + 4 in if decide (60 < b) then 60 else b.
End ops.
End Connect.
