(* ===== verification/MeshSpec.v ===== *)
(** * What the mesh promises

    The theorems on lib/src/mesh: the streaming of a chain's history sends the events of the
    range and ends; a client that subscribes has, when the history is in, the records of the
    server; and what one client writes reaches the others.  Locks are in MeshLocks.v. *)

From stdpp Require Import sorting.
From S2P Require Import Prelude LogApi Crypto Codec Secure Meta Time Event Index Signature Tree Compact Plugins LogFile MemDb RedoLog Chain ChainSpec CompactSpec Pipe Dio DioSpec Mesh MeshClient.

(** ** Where the streaming is *)

Section position.
Context {A : Type}.
Implicit Types (l p q : list (ChainTimestamp * A)) (t start : ChainTimestamp) (skip : nat).

(** What is not before [start]. *)
Definition since start l : list (ChainTimestamp * A) :=
  List.filter (λ x, Bound.above (Included start) x.1) l.

(** Of the list [l], all but [q] is done: what is done of the time [start] are [skip]
    elements. *)
Definition at_position l start skip q : Prop :=
  ∃ p, since start l = p ++ q ∧ length p = skip ∧ Forall (λ x, x.1 = start) p.

Lemma position_drop l start skip q : at_position l start skip q → drop skip (since start l) = q.
Proof. intros (p & -> & <- & _). apply drop_app_length. Qed.

Lemma above_included t t' : Bound.above (Included t) t' = true ↔ not_after t t'.
Proof. unfold Bound.above. rewrite negb_true_iff. apply lt_not_after. Qed.

Lemma chronological_filter (P : ChainTimestamp * A → bool) l :
  chronological l → chronological (List.filter P l).
Proof.
  unfold chronological. induction 1 as [|y l Hl IH Hall]; cbn [List.filter]; [constructor|].
  destruct (P y); [|done]. constructor; [done|].
  rewrite Forall_forall in *. intros z Hz. apply Hall.
  by apply list_elem_of_In, filter_In, proj1, list_elem_of_In in Hz.
Qed.

Lemma since_all t l : Forall (λ x, not_after t x.1) l → since t l = l.
Proof.
  intros Hall. apply List.forallb_filter_id, forallb_forall. intros x Hx%list_elem_of_In.
  rewrite Forall_forall in Hall. by apply above_included, Hall.
Qed.

Lemma since_since start t l : not_after start t → since t (since start l) = since t l.
Proof.
  intros Hle. unfold since. induction l as [|y l IH]; [done|]. cbn [List.filter].
  destruct (Bound.above (Included start) y.1) eqn:Hs; cbn [List.filter]; rewrite IH; [done|].
  destruct (Bound.above (Included t) y.1) eqn:Ht; [|done].
  apply above_included in Ht. apply not_true_iff_false in Hs. destruct Hs.
  apply above_included. unfold not_after in *. lia.
Qed.

Lemma position_step l start skip x q : chronological l → at_position l start skip (x :: q) →
  at_position l x.1 (if decide (x.1 = start) then S skip else 1%nat) q.
Proof.
  intros Hl (p & Hf & Hlen & Hp). destruct x as [t a]; cbn.
  destruct (decide (t = start)) as [->|Hne].
  { exists (p ++ [(start, a)]). rewrite Hf, <- app_assoc, length_app, Forall_app. cbn.
    split; [done|]. split; [lia|]. split; [done|by repeat constructor]. }
  assert (not_after start t) as Hst.
  { assert ((t, a) ∈ since start l) as Hin by (rewrite Hf; set_solver).
    apply list_elem_of_In, filter_In in Hin as [_ Hin]. by apply above_included. }
  exists [(t, a)]. split; [|split; [done|by repeat constructor]].
  rewrite <- (since_since start t) by done. rewrite Hf. unfold since. rewrite List.filter_app.
  rewrite (proj2 (filter_nil_iff _ p)); cbn [app].
  - change (since t ((t, a) :: q) = (t, a) :: q). apply since_all.
    pose proof (chronological_filter _ _ Hl : chronological (since start l)) as Hs.
    rewrite Hf in Hs. apply StronglySorted_app_1_r, StronglySorted_inv in Hs as [_ Hall].
    constructor; [unfold not_after; cbn; lia|done].
  - intros y Hy. rewrite Forall_forall in Hp. rewrite (Hp y Hy).
    apply not_true_iff_false. rewrite above_included. intros Hle. destruct Hne.
    unfold not_after in *. destruct t, start. cbn in *. f_equal. lia.
Qed.
End position.

(** ** Streaming *)

Section streaming.
Context {W L : Type} `{CryptoPrims} `{KemPrims} `{MetaSerializer}.
Context `{!LogFile W L} `{!LogFileSpec W L}.
Variable pipe : EventPipe (Node W L).
Variable U : AteHash → option EventWeakData.
Implicit Types (e : EventWeakData) (stored : list EventWeakData) (n : Node W L) (lo hi : Bound)
  (raws : list (ChainTimestamp * EventHeaderRaw)).

Definition leaf_of (raw : EventHeaderRaw) : EventLeaf :=
  {| leaf_record := raw_event_hash raw; leaf_created := 0; leaf_updated := 0 |}.

(** The bytes that events are worth. *)
Definition sizes (raws : list EventHeaderRaw) : Z := foldr (λ raw a, Streaming.event_size raw + a) 0 raws.

(** A batch is a part of what there is, not empty when there is something, ends where the next
    begins, and without its last event is within the bytes of a send. *)
Lemma fill_batch_spec l : chronological l → ∀ raws start skip amount rest,
  at_position l start skip (raws ++ rest) →
  Forall (λ x, 0 < Streaming.event_size x.2) raws →
  ∃ b raws' start' skip' amount',
    Streaming.fill_batch raws start skip amount = (leaf_of <$> b.*2, (start', skip', amount'))
    ∧ raws = b ++ raws' ∧ at_position l start' skip' (raws' ++ rest)
    ∧ (raws = [] → amount' = amount) ∧ (raws ≠ [] → b ≠ [] ∧ amount < amount')
    ∧ (amount ≤ max_send → amount + sizes (removelast b.*2) ≤ max_send).
Proof.
  intros Hl. induction raws as [|[t raw] raws IH]; intros start skip amount rest Hat Hpos.
  { exists [], [], start, skip, amount. cbn. repeat split; try done. lia. }
  apply Forall_cons in Hpos as [Hx Hpos]. cbn [snd] in Hx. cbn [app] in Hat.
  apply (position_step l start skip (t, raw) _ Hl) in Hat. cbn [fst] in Hat.
  cbn [Streaming.fill_batch]. destruct (decide (max_send < _)) as [Hmax|Hmax].
  { eexists [(t, raw)], raws, t, _, _. split; [reflexivity|]. split; [done|]. split; [exact Hat|].
    split; [done|]. split; [split; [done|]|cbn]; unfold Streaming.event_size in *; lia. }
  destruct (IH t _ (amount + Streaming.event_size raw) rest Hat Hpos)
    as (b & raws' & start' & skip' & amount' & E & -> & Hat' & Hnil & Hcons & Hsize).
  rewrite E. eexists ((t, raw) :: b), raws', start', skip', amount'.
  split; [reflexivity|]. split; [done|]. split; [done|]. split; [done|]. split.
  - split; [done|]. destruct (decide (b ++ raws' = [])) as [Hn|Hn]; [rewrite Hnil by done|destruct (Hcons Hn)]; lia.
  - intros Ha. specialize (Hsize ltac:(lia)). destruct b as [|x b]; [cbn; lia|].
    change (removelast ((t, raw) :: x :: b).*2) with (raw :: removelast (x :: b).*2). cbn [sizes foldr].
    change (foldr _ 0 ?l) with (sizes l). lia.
Qed.

(** What is loaded for an event. *)
Definition loads_as e (d : LoadWeakResult) : Prop :=
  forget_event (lw_data d) = forget_event e ∧ raw_format (lw_header d) = ew_format e
  ∧ hash_of e = Some (leaf_record (lw_leaf d)).

Lemma chain_load_many stored es leafs : Forall2 (λ e leaf, hash_of e = Some (leaf_record leaf)) es leafs →
  ∀ w (a : ChainProtectedAsync L), chain_state U stored w a → Forall (λ e, e ∈ stored) es →
  ∃ ds w' c', ChainOfTrust.load_many leafs (w, ca_chain a) = (Ok ds, (w', c'))
    ∧ Forall2 loads_as es ds ∧ co_timeline c' = timeline_of a
    ∧ chain_state U stored w' (ChainProtectedAsync.with_chain a c').
Proof.
  induction 1 as [|e leaf es leafs He Hes IH]; intros w a Hst Hin.
  { exists [], w, (ca_chain a). split; [done|]. split; [constructor|]. split; [done|]. by destruct a. }
  apply Forall_cons in Hin as [He' Hin].
  destruct (load_stored U stored w a e leaf Hst He' He) as (d & w1 & c1 & E & Hd & Ht & Hst1).
  destruct (IH w1 _ Hst1 Hin) as (ds & w2 & c2 & E2 & Hds & Ht2 & Hst2).
  eexists (_ :: ds), w2, c2. split.
  { cbn [ChainOfTrust.load_many]. rewrite (st_bind_Ok _ _ _ _ _ E). cbn in E2.
    by rewrite (st_bind_Ok _ _ _ _ _ E2). }
  split; [|split; [by rewrite Ht2|by destruct a]]. constructor; [|done].
  destruct Hd as (_ & ? & ? & _). done.
Qed.

(** What is loaded when nothing is kept elsewhere. *)
Definition loads_strong e (d : LoadStrongResult) : Prop :=
  forget_cache (es_meta (ls_data d)) = forget_cache (ew_meta e)
  ∧ es_data_bytes (ls_data d) = MessageBytes.as_option (ew_data_bytes e)
  ∧ raw_format (ls_header d) = ew_format e ∧ hash_of e = Some (leaf_record (ls_leaf d)).

Definition kept_here e : Prop := MessageBytes.is_lazy (ew_data_bytes e) = false.

Lemma multi_load_many stored es leafs n : holds U stored n → Forall (λ e, e ∈ stored) es →
  Forall kept_here es → Forall2 (λ e leaf, hash_of e = Some (leaf_record leaf)) es leafs →
  ∃ ds w' c', ChainMultiUser.load_many pipe leafs n
              = (Ok ds, Node.with_chain n w' (ChainProtectedAsync.with_chain (nd_async n) c'))
    ∧ Forall2 loads_strong es ds ∧ co_timeline c' = timeline_of (nd_async n)
    ∧ holds U stored (Node.with_chain n w' (ChainProtectedAsync.with_chain (nd_async n) c')).
Proof.
  intros Hst Hin Hhere Hl.
  destruct (chain_load_many stored es leafs Hl _ _ Hst Hin) as (ds & w' & c' & E & Hds & Ht & Hst').
  assert (Forall (λ d, MessageBytes.is_lazy (ew_data_bytes (lw_data d)) = false) ds) as Hd.
  { clear -Hds Hhere. induction Hds as [|e d es ds (Hf & _) _ IH]; [constructor|].
    apply Forall_cons in Hhere as [He ?]. constructor; [|by apply IH].
    by rewrite (f_equal ew_data_bytes Hf : ew_data_bytes (lw_data d) = _). }
  assert (∃ xs, ChainMultiUser.fill ds [] = Ok xs ∧ Forall2 loads_strong es xs) as (xs & Ef & Hxs).
  { clear -Hds Hd. induction Hds as [|e d es ds (Hf & Hfm & Hh) _ IH]; [by exists []|].
    apply Forall_cons in Hd as [Hd Hrest]. destruct (IH Hrest) as (xs & Ef & Hxs).
    pose proof (f_equal ew_meta Hf) as Hm. pose proof (f_equal ew_data_bytes Hf) as Hb.
    cbn [ChainMultiUser.fill tail forget_event ew_meta ew_data_bytes] in *.
    destruct (ew_data_bytes (lw_data d)) eqn:Eb; try done; cbn; rewrite Ef; cbn;
      eexists; (split; [reflexivity|]); (constructor; [|done]);
      unfold loads_strong; cbn; by rewrite <- Hb. }
  exists xs, w', c'. split; [|done].
  unfold ChainMultiUser.load_many. unfold mbind at 1, st_bind at 1.
  unfold st_map_err at 1, InboxPipe.on_async at 1, st_mk at 1, ChainProtectedAsync.on_chain, on_log.
  rewrite E. cbn [map_err].
  assert (existsb (λ r, MessageBytes.is_lazy (ew_data_bytes (lw_data r))) ds = false) as ->.
  { apply not_true_iff_false. intros (d & Hd1 & Hd2)%existsb_exists.
    rewrite Forall_forall in Hd. rewrite Hd in Hd2; [done|by apply list_elem_of_In]. }
  change ((ChainMultiUser.fill ds [], Node.with_chain n w' (ChainProtectedAsync.with_chain (nd_async n) c'))
    = (Ok xs, Node.with_chain n w' (ChainProtectedAsync.with_chain (nd_async n) c'))). by rewrite Ef.
Qed.

(** The message for an event, as it arrives. *)
Definition message_of (strip_signatures : bool) (strip_data : Z) e : MessageEvent :=
  {| me_meta := if strip_signatures then Metadata.strip_signatures (forget_cache (ew_meta e))
                else forget_cache (ew_meta e);
     me_data := match ew_data_bytes e, hash_of e with
                | BytesSome a, Some h =>
                    if decide (Z.of_nat (length a) ≤ strip_data) then LogSome a
                    else LogLazySome {| ld_record := h; ld_hash := AteHash.from_bytes a;
                                        ld_len := Z.of_nat (length a) |}
                | _, _ => LogNone
                end;
     me_format := ew_format e |}.

Lemma strip_forget (m : Metadata) :
  forget_cache (Metadata.strip_signatures m) = Metadata.strip_signatures (forget_cache m).
Proof.
  unfold Metadata.strip_signatures, forget_cache. cbn. f_equal.
  induction (meta_core m) as [|c core IH]; [done|]. cbn. rewrite <- IH. by destruct c.
Qed.

Lemma sent_message ss sd e d : loads_strong e d → kept_here e →
  Message.reread_event (Streaming.to_message ss sd d) = message_of ss sd e.
Proof.
  intros (Hm & Hb & Hf & Hh) Hk. unfold Message.reread_event, Streaming.to_message, message_of.
  cbn [me_meta me_data me_format]. rewrite Hb, Hf, Hh. f_equal.
  - destruct ss; [|done]. by rewrite strip_forget, Hm.
  - unfold kept_here in Hk. by destruct (ew_data_bytes e).
Qed.

Lemma sent_messages ss sd es ds : Forall2 loads_strong es ds → Forall kept_here es →
  Message.reread_event <$> (Streaming.to_message ss sd <$> ds) = message_of ss sd <$> es.
Proof.
  induction 1 as [|e d es ds He _ IH]; intros Hk; [done|]. apply Forall_cons in Hk as [? ?].
  cbn. by rewrite IH, (sent_message ss sd e d).
Qed.

Lemma range_since start hi n :
  ChainProtectedAsync.range (Bound.above (Included start)) (Bound.below hi) (nd_async n)
  = since start (List.filter (λ x, Bound.below hi x.1) (ct_history (timeline_of (nd_async n)))).
Proof.
  unfold ChainProtectedAsync.range, since. fold (timeline_of (nd_async n)).
  induction (ct_history _) as [|x l IH]; [done|]. cbn [List.filter]. rewrite IH.
  destruct (Bound.below hi x.1); cbn [List.filter]; [by rewrite andb_true_r|by rewrite andb_false_r].
Qed.

(** Nothing else happens to the chain. *)
Definition idle (i : nat) n : Node W L := n.

Definition raw_of e (x : ChainTimestamp * EventHeaderRaw) : Prop :=
  EventWeakData.as_header_raw e = Ok x.2.

Lemma raw_of_leaf es raws : Forall2 raw_of es raws →
  Forall2 (λ e leaf, hash_of e = Some (leaf_record leaf)) es (leaf_of <$> raws.*2).
Proof.
  induction 1 as [|e x es raws He _ IH]; [constructor|]. constructor; [|done].
  unfold hash_of. by rewrite He.
Qed.

(** Events of which each is worth something. *)
Definition sized e : Prop :=
  ∀ raw, EventWeakData.as_header_raw e = Ok raw → 0 < Streaming.event_size raw.

(** What the headers of events are worth. *)
Definition worth es : Z :=
  sizes (omap (λ e, result_ok (EventWeakData.as_header_raw e)) es).

Lemma worth_raws es raws : Forall2 raw_of es raws → worth es = sizes raws.*2.
Proof.
  unfold worth. induction 1 as [|e x es raws He _ IH]; [done|]. cbn. unfold raw_of in He. rewrite He. cbn. f_equal. exact IH.
Qed.

(** Events that are sent in batches: each batch carries the messages of the next events, at least one
    and at most [max_events], and without its last event is within [max_send] bytes. *)
Definition in_batches ss sd es (batches : list (list MessageEvent)) : Prop :=
  ∃ chunks : list (list EventWeakData), mjoin chunks = es
    ∧ Forall2 (λ c b, Message.reread_event <$> b = message_of ss sd <$> c
                ∧ c ≠ [] ∧ (length c ≤ max_events)%nat ∧ worth (removelast c) ≤ max_send) chunks batches.

Lemma in_batches_join ss sd es batches : in_batches ss sd es batches →
  Message.reread_event <$> mjoin batches = message_of ss sd <$> es.
Proof.
  intros (chunks & <- & Hall). induction Hall as [|c b chunks batches (Hm & _) _ IH]; [done|].
  change (mjoin (?x :: ?l)) with (x ++ mjoin l). by rewrite !fmap_app, IH, Hm.
Qed.

Lemma stream_loop_spec stored hi ss sd : ∀ fuel n out start skip q es,
  holds U stored n → chronological (ct_history (timeline_of (nd_async n))) →
  at_position (List.filter (λ x, Bound.below hi x.1) (ct_history (timeline_of (nd_async n))))
    start skip q →
  Forall2 raw_of es q → Forall (λ e, e ∈ stored ∧ kept_here e ∧ sized e) es →
  (length q < fuel)%nat →
  ∃ w' c' batches,
    let n' := Node.with_chain n w' (ChainProtectedAsync.with_chain (nd_async n) c') in
    Streaming.stream_loop pipe fuel idle hi ss sd start skip (n, out)
      = (Ok (), (n', out ++ (Events None <$> batches)))
    ∧ holds U stored n' ∧ co_timeline c' = timeline_of (nd_async n)
    ∧ in_batches ss sd es batches.
Proof.
  induction fuel as [|fuel IH]; intros n out start skip q es Hst Hc Hat Hraw Hes Hlen; [lia|].
  cbn [Streaming.stream_loop]. unfold st_mk at 1. rewrite range_since, (position_drop _ _ _ _ Hat).
  assert (at_position (List.filter (λ x, Bound.below hi x.1) (ct_history (timeline_of (nd_async n))))
    start skip (take max_events q ++ drop max_events q)) as Hat' by by rewrite take_drop.
  assert (Forall (λ x, 0 < Streaming.event_size x.2) q) as Hpos.
  { clear -Hraw Hes. induction Hraw as [|e x es q He _ IH]; [constructor|].
    apply Forall_cons in Hes as [(_ & _ & Hs) ?]. constructor; [by apply Hs|by apply IH]. }
  destruct (fill_batch_spec _ (chronological_filter _ _ Hc) (take max_events q) start skip 0
    (drop max_events q) Hat') as (b & q' & start' & skip' & amount & -> & Hq & Hat1 & Hnil & Hcons & Hsize);
    [by apply Forall_take|].
  destruct (decide (q = [])) as [->|Hne].
  { rewrite Hnil by done. rewrite decide_True by lia. inversion Hraw; subst.
    exists (nd_world n), (ca_chain (nd_async n)), [].
    destruct n as [? [] ? ? ? ?]. cbn. rewrite app_nil_r. do 3 (split; [done|]). exists []. by split. }
  destruct Hcons as [Hb Hamount].
  { intros Ht. destruct Hne. by destruct q. }
  rewrite decide_False by lia. rewrite <- (take_drop max_events q), Hq, <- app_assoc in Hraw.
  apply Forall2_app_inv_r in Hraw as (es1 & es2 & Hr1 & Hr2 & ->).
  apply Forall_app in Hes as [He1 He2].
  destruct (multi_load_many stored es1 (leaf_of <$> b.*2) n Hst) as (ds & w1 & c1 & E & Hds & Ht1 & Hst1).
  { eapply Forall_impl; [exact He1|]. by intros e (? & _). }
  { eapply Forall_impl; [exact He1|]. by intros e (_ & ? & _). }
  { by apply raw_of_leaf. }
  rewrite E. unfold idle at 1.
  assert (length (take max_events q) = length b + length q')%nat as Hl by by rewrite Hq, length_app.
  assert (length b ≠ 0)%nat by by destruct b.
  destruct (IH _ (out ++ [Events None (Streaming.to_message ss sd <$> ds)]) start' skip'
    (q' ++ drop max_events q) es2 Hst1) as (w2 & c2 & batches & E2 & Hst2 & Ht2 & chunks & <- & Hchunks).
  { cbn. unfold timeline_of at 1. cbn. by rewrite Ht1. }
  { unfold timeline_of at 1. cbn. by rewrite Ht1. }
  { done. } { done. }
  { rewrite length_app, length_drop. rewrite length_take in Hl. lia. }
  exists w2, c2, ((Streaming.to_message ss sd <$> ds) :: batches).
  cbn zeta in *. split; [etrans; [exact E2|]; cbn; by rewrite <- app_assoc|].
  split; [done|]. split; [rewrite Ht2; unfold timeline_of; cbn; by rewrite Ht1|].
  exists (es1 :: chunks). split; [done|]. constructor; [|done].
  split; [apply sent_messages; [done|]; eapply Forall_impl; [exact He1|]; by intros e (_ & ? & _)|].
  pose proof (Forall2_length _ _ _ Hr1) as Hl1.
  split; [intros ->; by destruct b|]. split; [rewrite length_take in Hl; lia|].
  rewrite (worth_raws _ (removelast b)).
  - specialize (Hsize ltac:(unfold max_send; lia)). 
    rewrite !removelast_firstn_len, length_fmap, <- fmap_take in Hsize. by rewrite removelast_firstn_len.
  - rewrite !removelast_firstn_len, Hl1. by apply Forall2_take.
Qed.

(** The history of a chain is the chronicle of its events. *)
Lemma history_entries stored n : holds U stored n →
  Forall2 entry_of (chronicle stored) (ct_history (timeline_of (nd_async n)))
  ∧ chronological (ct_history (timeline_of (nd_async n))).
Proof.
  intros [_ _ _ _ (cs & hs & -> & Hhs)]. split; [by apply timeline_chronicle|].
  assert (chronological (ct_history (ChainTimeline.new cs))) as Hc by constructor.
  revert Hc. generalize (ChainTimeline.new cs). clear Hhs.
  induction hs as [|h hs IH]; intros tl Hc; [done|]. cbn. by apply IH, add_history_chronological.
Qed.

Definition within lo hi (t : ChainTimestamp) : bool := Bound.above lo t && Bound.below hi t.

(** The events of a range of the history, in its order. *)
Definition events_in lo hi stored : list EventWeakData :=
  (List.filter (λ x, within lo hi x.1) (chronicle stored)).*2.

Lemma range_entries stored lo hi n : holds U stored n →
  Forall2 raw_of (events_in lo hi stored)
    (ChainProtectedAsync.range (Bound.above lo) (Bound.below hi) (nd_async n)).
Proof.
  intros [He _]%history_entries. unfold ChainProtectedAsync.range, events_in.
  fold (timeline_of (nd_async n)).
  induction He as [|x y l l' [Ht Hr] _ IH]; [constructor|]. cbn [List.filter].
  unfold within at 1. rewrite <- Ht. destruct (_ && _); [|done]. by constructor.
Qed.

(** Where the streaming of a range starts. *)
Definition start_of lo (h : list (ChainTimestamp * EventHeaderRaw)) : option ChainTimestamp :=
  match lo with
  | Unbounded => fst <$> head h
  | Included a => Some a
  | Excluded a => Some (ChainTimestamp.from (time_since_epoch_ms a + 1))
  end.

Lemma start_position lo hi n : chronological (ct_history (timeline_of (nd_async n))) →
  ChainProtectedAsync.range (Bound.above lo) (Bound.below hi) (nd_async n) ≠ [] →
  ∃ start, start_of lo (ct_history (timeline_of (nd_async n))) = Some start
    ∧ ChainProtectedAsync.range (Bound.above (Included start)) (Bound.below hi) (nd_async n)
      = ChainProtectedAsync.range (Bound.above lo) (Bound.below hi) (nd_async n).
Proof.
  intros Hc Hne. destruct lo as [|a|a]; [|by eexists|].
  - unfold ChainProtectedAsync.range in *. fold (timeline_of (nd_async n)) in *.
    destruct (ct_history (timeline_of (nd_async n))) as [|[t raw] h]; [done|].
    exists t. split; [done|]. apply filter_ext_in. intros x Hx%list_elem_of_In.
    assert (not_after t x.1) as Hle%above_included; [|by rewrite Hle].
    apply StronglySorted_inv in Hc as [_ Hall]. rewrite Forall_forall in Hall.
    apply elem_of_cons in Hx as [->|Hx]; [unfold not_after; cbn; lia|exact (Hall x Hx)].
  - eexists. split; [done|]. apply filter_ext. intros [t raw]. cbn [fst]. f_equal.
    unfold Bound.above, ChainTimestamp.lt. cbn.
    destruct (bool_decide_reflect (time_since_epoch_ms t < time_since_epoch_ms a + 1)),
      (bool_decide_reflect (time_since_epoch_ms a < time_since_epoch_ms t)); cbn; done || lia.
Qed.

(** What is sent of a range. *)
Lemma stream_history_spec stored fuel n out lo hi ss sd :
  holds U stored n → Forall (λ e, kept_here e ∧ sized e) stored →
  (length (events_in lo hi stored) < fuel)%nat →
  ∃ w' c' batches,
    let n' := Node.with_chain n w' (ChainProtectedAsync.with_chain (nd_async n) c') in
    Streaming.stream_history_range pipe fuel idle lo hi ss sd (n, out)
      = (Ok (), (n', out ++ [StartOfHistory (length (events_in lo hi stored)) (Bound.time lo)
                               (Bound.time hi) (TrustMode.as_client (cs_integrity (fst (nd_sync n))))
                               (Streaming.root_keys (fst (nd_sync n)))]
                         ++ (Events None <$> batches) ++ [EndOfHistory]))
    ∧ holds U stored n' ∧ co_timeline c' = timeline_of (nd_async n)
    ∧ in_batches ss sd (events_in lo hi stored) batches.
Proof.
  intros Hst Hgood Hfuel. pose proof (range_entries stored lo hi n Hst) as Hr.
  destruct (history_entries stored n Hst) as [_ Hc].
  assert (Forall (λ e, e ∈ stored ∧ kept_here e ∧ sized e) (events_in lo hi stored)) as Hes.
  { apply Forall_forall. intros e He. rewrite Forall_forall in Hgood.
    assert (e ∈ stored) as Hin; [|by split; [|apply Hgood]].
    apply list_elem_of_fmap in He as ([t e'] & -> & Hin%list_elem_of_In).
    apply filter_In, proj1, list_elem_of_In in Hin. apply (list_elem_of_fmap_2 snd) in Hin.
    by apply chronicle_elem. }
  pose proof (Forall2_length _ _ _ Hr) as Hlen.
  unfold Streaming.stream_history_range, st_mk. rewrite <- Hlen.
  unfold mbind at 1, st_bind at 1, Streaming.send at 1, st_mk at 1.
  set (m := StartOfHistory _ _ _ _ _).
  destruct (decide (0 < length (events_in lo hi stored))%nat) as [Hpos|Hpos].
  - destruct (start_position lo hi n Hc) as (start & Hs & Hrange); [by intros Hn; rewrite Hn in Hlen; cbn in *; lia|].
    destruct (stream_loop_spec stored hi ss sd fuel n (out ++ [m]) start 0
      (ChainProtectedAsync.range (Bound.above lo) (Bound.below hi) (nd_async n)) (events_in lo hi stored))
      as (w' & c' & bs & E & Hst' & Ht & Hb); [done|done| |done|done|lia|].
    { exists []. rewrite <- range_since, Hrange. by repeat constructor. }
    exists w', c', bs. cbn zeta in *. split; [|done].
    unfold Streaming.stream_events, mbind, st_bind, Streaming.send, st_mk.
    fold (timeline_of (nd_async n)). unfold start_of in Hs. rewrite Hs, E.
    by rewrite <- !app_assoc.
  - exists (nd_world n), (ca_chain (nd_async n)), [].
    destruct (events_in lo hi stored) as [|]; [|cbn in Hpos; lia].
    destruct n as [? [] ? ? ? ?]. split; [by rewrite (app_assoc out [m])|].
    do 2 (split; [done|]). exists []. by split.
Qed.

(** C23. Streaming a range of the history sends the events of the range, each once and in
    the order of the history, and ends.  On a chain that nothing else changes meanwhile, whose
    events are kept in its log and have a size, [stream_history_range] returns [Ok] for any
    fuel above the number of events of the range.  What it sends is the start with that number,
    batches, and the end; the events of the range fall into as many parts as there are batches, and
    each batch carries the messages of its part, with signatures and large data stripped as asked.
    A part has an event and at most 5000, and but for its last event it is worth at most 512 KB.
    The chain holds what it held. *)
Theorem streaming_sends_range stored fuel n out lo hi ss sd
  (Hst : holds U stored n) (Hgood : Forall (λ e, kept_here e ∧ sized e) stored)
  (Hfuel : (length (events_in lo hi stored) < fuel)%nat) :
  ∃ n' batches chunks,
    Streaming.stream_history_range pipe fuel idle lo hi ss sd (n, out)
      = (Ok (), (n', out ++ [StartOfHistory (length (events_in lo hi stored)) (Bound.time lo)
                               (Bound.time hi) (TrustMode.as_client (cs_integrity (fst (nd_sync n))))
                               (Streaming.root_keys (fst (nd_sync n)))]
                         ++ (Events None <$> batches) ++ [EndOfHistory]))
    ∧ holds U stored n' ∧ nd_sync n' = nd_sync n ∧ nd_locks n' = nd_locks n
    ∧ mjoin chunks = events_in lo hi stored
    ∧ Forall2 (λ c b, Message.reread_event <$> b = message_of ss sd <$> c
                ∧ c ≠ [] ∧ (length c ≤ 5000)%nat ∧ worth (removelast c) ≤ 512 * 1024) chunks batches.
Proof.
  destruct (stream_history_spec stored fuel n out lo hi ss sd Hst Hgood Hfuel)
    as (w' & c' & batches & E & Hst' & _ & chunks & Hj & Hb).
  eexists _, batches, chunks. split; [exact E|]. do 4 (split; [done|]). exact Hb.
Qed.
End streaming.

(** ** Taking in what the server sends *)

Section replica.
Context {W L : Type} `{CryptoPrims} `{KemPrims} `{MetaSerializer}.
Context `{!LogFile W L} `{!LogFileSpec W L}.
Variable display : ValidationErrorKind → string.
Variable now : option Z.
Variable U : AteHash → option EventWeakData.
Implicit Types (e : EventWeakData) (es stored mine theirs : list EventWeakData)
  (c : Client W L) (k : PrimaryKey).

Lemma forget_touches k e : touches_record k (forget_event e) = touches_record k e
  ∧ removes_record k (forget_event e) = removes_record k e.
Proof.
  assert (removes_record k (forget_event e) = removes_record k e) as Hr.
  { unfold removes_record, Metadata.get_tombstone. cbn [ew_meta forget_event].
    by rewrite find_map_forget_cache by by intros []. }
  split; [|done]. unfold touches_record. rewrite Hr. f_equal.
  unfold writes_record, Metadata.get_tombstone. cbn [ew_meta ew_data_bytes forget_event].
  rewrite find_map_forget_cache by by intros []. destruct (find_map _ _); [done|]. f_equal.
  cbn. induction (meta_core (ew_meta e)) as [|x core IH]; [done|]. cbn. rewrite IH. by destruct x.
Qed.

Lemma forget_filter k es :
  List.filter (touches_record k) (forget_event <$> es)
  = forget_event <$> List.filter (touches_record k) es.
Proof.
  induction es as [|e es IH]; [done|]. cbn [fmap list_fmap List.filter].
  rewrite (proj1 (forget_touches k e)). destruct (touches_record k e); cbn; by rewrite <- IH.
Qed.

Lemma forget_hash e : hash_of (forget_event e) = hash_of e.
Proof. unfold hash_of. by rewrite as_header_raw_forget. Qed.

Lemma forget_idem e : forget_event (forget_event e) = forget_event e.
Proof. unfold forget_event. cbn. by rewrite forget_cache_idem. Qed.

Lemma forget_in_play e : in_play (W := W) (L := L) U e → in_play (W := W) (L := L) U (forget_event e).
Proof.
  intros (Hs & raw & Hr & HU). split; [by apply storable_forget|]. exists raw.
  by rewrite as_header_raw_forget, forget_idem.
Qed.

(** *** The events of a packet *)

Lemma feed_with_local wait id (work : Transaction) c c' : tr_transmit work = false →
  SessionPipe.feed_with display now wait id work c = (Ok (), c') →
  ∃ n', InboxPipe.feed display now work (cl_node c) = (Ok (), n') ∧ c' = Client.with_node c n'.
Proof.
  intros Ht. unfold SessionPipe.feed_with, SessionPipe.with_guard, mbind, st_bind, st_mk.
  destruct (cl_held c) eqn:Hh; [done|]. cbn [Client.with_held cl_active].
  assert (∀ c0 : Client W L, SessionPipe.next MeshFeed (ep_feed (InboxPipe.new display now) work)
            (Client.with_held (Client.with_held c true) false) = (Ok (), c0) →
          ∃ n', InboxPipe.feed display now work (cl_node c) = (Ok (), n') ∧ c0 = Client.with_node c n')
    as Hnext.
  { intros c0. unfold SessionPipe.next, st_mk. cbn [ep_feed InboxPipe.new cl_node Client.with_held].
    destruct (InboxPipe.feed _ _ _ _) as [[[]|err] n']; [|done]. intros [= <-].
    exists n'. split; [done|]. destruct c. cbn in *. by subst. }
  destruct (cl_active c) as [pipe|].
  - unfold SessionPipe.active_feed, st_mk. rewrite Ht. cbn. apply Hnext.
  - unfold SessionPipe.offline, st_mk. cbn [cl_mode Client.with_held].
    destruct (cl_mode c); cbn; [apply Hnext|done..].
Qed.

(** What of a packet is fed, and the loader after it. *)
Definition fed_of (l : option AntiReplayPlugin) es : list EventWeakData * option AntiReplayPlugin :=
  match l with
  | Some l => let '(fed, l) := SessionInbox.relevant l es in (fed, Some l)
  | None => (es, None)
  end.

Lemma relevant_incl l es : ∀ e, e ∈ (SessionInbox.relevant l es).1 → e ∈ es.
Proof.
  revert l. induction es as [|e es IH]; intros l x; [done|]. cbn.
  destruct (AntiReplayPlugin.relevance_check e l) as [seen l1]. specialize (IH l1 x).
  destruct (SessionInbox.relevant l1 es) as [rest l2]. destruct seen; set_solver.
Qed.

Lemma fed_incl l es e : e ∈ (fed_of l es).1 → e ∈ es.
Proof.
  destruct l as [l|]; [|done]. cbn. pose proof (relevant_incl l es e) as Hr.
  by destruct (SessionInbox.relevant l es).
Qed.

(** What an operation of the session leaves alone. *)
Definition steady c c' : Prop :=
  cl_mode c' = cl_mode c ∧ cl_active c' = cl_active c ∧ cl_held c' = cl_held c
  ∧ cl_notified c' = cl_notified c ∧ cl_in c' = cl_in c ∧ cl_out c' = cl_out c.

(** A packet of events that is taken in. *)
Lemma inbox_events_ok mine c c' (evts : list MessageEvent) :
  holds U mine (cl_node c) → Forall (in_play (W := W) (L := L) U) (MessageEvent.convert_from evts) →
  SessionInbox.inbox_events display now evts c = (Ok (), c') →
  let fed := fed_of (cl_loader c) (MessageEvent.convert_from evts) in
  ∃ mine', holds U mine' (cl_node c') ∧ cl_loader c' = fed.2 ∧ steady c c'
    ∧ (∀ k, List.filter (touches_record k) mine' = List.filter (touches_record k) (mine ++ fed.1))
    ∧ (∀ P : EventWeakData → Prop, Forall P mine → Forall P (MessageEvent.convert_from evts) →
         Forall P mine').
Proof.
  intros Hst Hplay. unfold SessionInbox.inbox_events, st_mk.
  assert (∃ c1, (match cl_loader c with
      | Some l => let '(evts, l) := SessionInbox.relevant l (MessageEvent.convert_from evts) in
                  (evts, Client.with_loader c (Some l))
      | None => (MessageEvent.convert_from evts, c)
      end) = ((fed_of (cl_loader c) (MessageEvent.convert_from evts)).1, c1)
      ∧ cl_loader c1 = (fed_of (cl_loader c) (MessageEvent.convert_from evts)).2
      ∧ cl_node c1 = cl_node c ∧ steady c c1) as (c1 & -> & Hl & Hn & Hs1).
  { unfold fed_of. destruct (cl_loader c) eqn:El; [|by exists c].
    destruct (SessionInbox.relevant _ _). by eexists. }
  unfold st_map_err, SessionInbox.feed_inbound, st_mk. set (work := {| tr_scope := _ |}).
  match goal with |- context [SessionPipe.feed_with display now ?w 0 work ?c0] =>
    destruct (SessionPipe.feed_with display now w 0 work c0) as [[[]|err] c2] eqn:Ef end; [|done].
  apply feed_with_local in Ef as (n' & Ef & ->); [|done]. cbn [cl_node Client.with_node] in Ef.
  apply (inbox_feed_touches display U now mine) in Ef as (mine' & Hst' & Ht & HP & _).
  - intros [= <-]. exists mine'. cbn. split; [exact Hst'|]. split; [done|].
    split; [by unfold steady in *|]. split; [done|]. intros P Hm He. apply HP; [done|].
    rewrite Forall_forall in *. intros e Hin. by apply He, (fed_incl (cl_loader c)).
  - rewrite Hn. exact Hst.
  - rewrite Forall_forall in *. intros e He. by apply Hplay, (fed_incl (cl_loader c)).
Qed.

(** *** A run of packets *)

Inductive takes_in : list Message → Client W L → Client W L → Prop :=
  | takes_nothing c : takes_in [] c c
  | takes_packet m ms c c1 c2 :
      SessionInbox.inbox_packet display now m c = (Ok (), c1) → takes_in ms c1 c2 →
      takes_in (m :: ms) c c2.

Fixpoint take_all (ms : list Message) c : option (Client W L) :=
  match ms with
  | [] => Some c
  | m :: ms => match SessionInbox.inbox_packet display now m c with
               | (Ok _, c) => take_all ms c
               | (Err _, _) => None
               end
  end.

Lemma take_all_takes ms c c' : take_all ms c = Some c' → takes_in ms c c'.
Proof.
  revert c. induction ms as [|m ms IH]; intros c; cbn; [intros [= ->]; constructor|].
  destruct (SessionInbox.inbox_packet display now m c) as [[[]|err] c1] eqn:E; [|done].
  intros Ht. econstructor; [exact E|by apply IH].
Qed.

Lemma takes_in_app ms1 ms2 c c' : takes_in (ms1 ++ ms2) c c' →
  ∃ c1, takes_in ms1 c c1 ∧ takes_in ms2 c1 c'.
Proof.
  revert c. induction ms1 as [|m ms1 IH]; intros c Ht; [exists c; split; [constructor|done]|].
  inversion Ht as [|? ? ? c1 ? Hm Hrest]; subst. apply IH in Hrest as (c2 & ? & ?).
  exists c2. split; [by econstructor|done].
Qed.

Lemma takes_in_one m c c' : takes_in [m] c c' → SessionInbox.inbox_packet display now m c = (Ok (), c').
Proof. inversion 1 as [|? ? ? ? ? Hm Hrest]; subst. by inversion Hrest; subst. Qed.

Lemma fed_app l es1 es2 :
  fed_of l (es1 ++ es2)
  = ((fed_of l es1).1 ++ (fed_of (fed_of l es1).2 es2).1, (fed_of (fed_of l es1).2 es2).2).
Proof.
  destruct l as [l|]; [|done]. cbn. revert l. induction es1 as [|e es1 IH]; intros l; cbn.
  { by destruct (SessionInbox.relevant l es2). }
  destruct (AntiReplayPlugin.relevance_check e l) as [seen l1]. specialize (IH l1).
  destruct (SessionInbox.relevant l1 (es1 ++ es2)) as [r1 l2],
    (SessionInbox.relevant l1 es1) as [r3 l3]. cbn in *.
  destruct (SessionInbox.relevant l3 es2) as [r4 l4]. cbn in *.
  injection IH as -> ->. by destruct seen.
Qed.

Lemma steady_trans c1 c2 c3 : steady c1 c2 → steady c2 c3 → steady c1 c3.
Proof. unfold steady. naive_solver congruence. Qed.

Lemma takes_batches (batches : list (list MessageEvent)) : ∀ mine c c',
  holds U mine (cl_node c) →
  Forall (in_play (W := W) (L := L) U) (MessageEvent.convert_from (mjoin batches)) →
  takes_in (Events None <$> batches) c c' →
  let fed := fed_of (cl_loader c) (MessageEvent.convert_from (mjoin batches)) in
  ∃ mine', holds U mine' (cl_node c') ∧ cl_loader c' = fed.2 ∧ steady c c'
    ∧ ∀ k, List.filter (touches_record k) mine' = List.filter (touches_record k) (mine ++ fed.1).
Proof.
  induction batches as [|b batches IH]; intros mine c c' Hst Hplay Htake.
  { inversion Htake; subst. cbn. exists mine. split; [done|].
    split; [by destruct (cl_loader c')|]. split; [done|]. intros k.
    destruct (cl_loader c'); cbn; by rewrite app_nil_r. }
  change (mjoin (b :: batches)) with (b ++ mjoin batches) in *.
  unfold MessageEvent.convert_from in *. rewrite fmap_app in *. apply Forall_app in Hplay as [Hb Hrest].
  inversion Htake as [|? ? ? c1 ? Hm Hms]; subst.
  unfold SessionInbox.inbox_packet, st_mk, mbind, st_bind in Hm.
  destruct (SessionInbox.inbox_events display now b c) as [[[]|err] c2] eqn:Eb; [|done].
  injection Hm as ->. apply (inbox_events_ok mine) in Eb as (mine1 & Hst1 & Hl1 & Hs1 & Ht1 & _); [|done..].
  destruct (IH mine1 c1 c' Hst1 Hrest Hms) as (mine' & Hst' & Hl' & Hs' & Ht').
  exists mine'. split; [done|]. rewrite fed_app. cbn [fst snd].
  unfold MessageEvent.convert_from in *. rewrite <- Hl1.
  split; [done|]. split; [by eapply steady_trans|]. intros k.
  by rewrite Ht', !List.filter_app, Ht1, List.filter_app, <- app_assoc.
Qed.

(** The loader keeps back what was seen. *)
Definition unseen (l : AntiReplayPlugin) e : bool :=
  match hash_of e with Some h => bool_decide (h ∉ ar_seen l) | None => true end.

Lemma relevant_unseen l es : NoDup (hash_of <$> es) →
  (SessionInbox.relevant l es).1 = List.filter (unseen l) es.
Proof.
  revert l. induction es as [|e es IH]; intros l; [done|]. cbn [fmap list_fmap].
  intros [Hnew Hnd]%NoDup_cons. cbn [SessionInbox.relevant List.filter].
  assert (∀ l1, (∀ x, x ∈ es → unseen l1 x = unseen l x) →
    List.filter (unseen l1) es = List.filter (unseen l) es) as Hext.
  { intros l1 Hl1. apply filter_ext_in. intros x Hx%list_elem_of_In. by apply Hl1. }
  assert (unseen l e = negb (AntiReplayPlugin.relevance_check e l).1) as ->.
  { unfold unseen, hash_of, AntiReplayPlugin.relevance_check.
    destruct (EventWeakData.as_header_raw e); [|done]. apply bool_decide_not. }
  unfold AntiReplayPlugin.relevance_check.
  destruct (EventWeakData.as_header_raw e) as [raw|err] eqn:Er; cbn [fst].
  - specialize (IH (AntiReplayPlugin.push l (raw_event_hash raw)) Hnd).
    destruct (SessionInbox.relevant _ es) as [rest l2]. cbn [fst] in IH |- *. subst rest.
    rewrite Hext; [by destruct (bool_decide _)|].
    intros x Hx. unfold unseen, AntiReplayPlugin.push. cbn [ar_seen].
    destruct (hash_of x) as [h|] eqn:Eh; [|done]. apply bool_decide_ext.
    assert (h ≠ raw_event_hash raw); [|set_solver]. intros ->. destruct Hnew.
    apply list_elem_of_fmap. exists x. unfold hash_of at 1. by rewrite Er.
  - specialize (IH l Hnd). destruct (SessionInbox.relevant l es) as [rest l2]. cbn in *. by subst.
Qed.

Lemma filter_forget_unseen l es :
  List.filter (unseen l) (forget_event <$> es) = forget_event <$> List.filter (unseen l) es.
Proof.
  induction es as [|e es IH]; [done|]. cbn [fmap list_fmap List.filter].
  assert (unseen l (forget_event e) = unseen l e) as -> by (unfold unseen; by rewrite forget_hash).
  destruct (unseen l e); cbn; by rewrite <- IH.
Qed.

(** *** Catching up *)

(** The event comes through the stripping as it was. *)
Definition arrives_whole (ss : bool) (sd : Z) e : Prop :=
  MessageEvent.convert_from_single (message_of ss sd e) = forget_event e.

(** Is the event dated at or after [from]? *)
Definition dated_since (from : ChainTimestamp) e : bool :=
  match time_of e with Some t => Bound.above (Included from) t | None => false end.

Lemma filter_by_date {T : Type} (P Q D : EventWeakData → bool) (R : T → bool)
    (l : list (T * EventWeakData)) :
  (∀ x, x ∈ l → P x.2 = true → R x.1 = D x.2) →
  List.filter P (List.filter Q (List.filter (λ x, R x.1) l).*2)
  = List.filter (λ e, Q e && D e) (List.filter P l.*2).
Proof.
  induction l as [|x l IH]; intros Hl; [done|].
  assert (∀ y, y ∈ l → P y.2 = true → R y.1 = D y.2) as Hl'.
  { intros y Hy. apply Hl. by right. }
  pose proof (Hl x ltac:(by left)) as Hx. cbn [fmap list_fmap List.filter].
  destruct (R x.1) eqn:HR; cbn [fmap list_fmap List.filter];
    destruct (P x.2) eqn:HP; cbn [List.filter]; rewrite <- ?(IH Hl');
    try (rewrite <- (Hx eq_refl)); destruct (Q x.2) eqn:HQ; cbn [andb List.filter];
    rewrite ?HP; done.
Qed.

(** What of the server's events from [from] on is fed, for a record: the new ones. *)
Lemma fed_new k l from old new : compactable (old ++ new) →
  (∀ e, e ∈ old → touches_record k e = true → unseen l e && dated_since from e = false) →
  (∀ e, e ∈ new → touches_record k e = true → unseen l e && dated_since from e = true) →
  List.filter (touches_record k)
    (List.filter (unseen l) (events_in (Included from) Unbounded (old ++ new)))
  = List.filter (touches_record k) new.
Proof.
  intros Hgood Hold Hnew. unfold events_in.
  assert (∀ x, x ∈ chronicle (old ++ new) → touches_record k x.2 = true →
    within (Included from) Unbounded x.1 = dated_since from x.2) as Hw.
  { intros [t e] Hin Ht. cbn [fst snd] in *. unfold within, dated_since. rewrite andb_true_r.
    pose proof (list_elem_of_fmap_2 snd _ _ Hin) as He%chronicle_elem. cbn in He.
    apply (cp_keys _ (cp_regular _ Hgood) e k He) in Ht.
    destruct (cp_timed _ (cp_regular _ Hgood) e He ltac:(by eexists)) as [[t' Et] _]. rewrite Et.
    by rewrite (chronicle_times _ _ _ Hin t' Et). }
  rewrite (filter_by_date _ _ (dated_since from)) by exact Hw.
  rewrite chronicle_filter, !List.filter_app.
  - rewrite (proj2 (filter_nil_iff _ _)).
    + apply List.forallb_filter_id, forallb_forall.
      intros e [He%list_elem_of_In Ht]%filter_In. by apply Hnew.
    + intros e [He%list_elem_of_In Ht]%list_elem_of_In%filter_In. by apply Hold.
  - apply (cp_order _ Hgood).
  - intros e He Ht. apply (cp_keys _ (cp_regular _ Hgood) e k He) in Ht.
    by apply (cp_timed _ (cp_regular _ Hgood) e He ltac:(by eexists)).
Qed.
End replica.

(** ** A subscription *)

Section subscription.
Context {W L : Type} `{CryptoPrims} `{KemPrims} `{MetaSerializer} `{SnapFrames}.
Context `{!LogFile W L} `{!LogFileSpec W L} `{ChainHeaderJson}.
Variable display : ValidationErrorKind → string.
Variable now : option Z.
Variable show_load : ReadErrorKind → string.
Variable U : AteHash → option EventWeakData.
Implicit Types (s : Server W L) (c : Client W L) (e : EventWeakData) (k : PrimaryKey).

(** What a connection is sent before the history. *)
Definition greeting (conv_id : AteHash) (secured_with : option AteSession)
    (message_of_the_day : option string) : list Message :=
  [NewConversation conv_id]
  ++ match secured_with with Some session => [SecuredWith session] | None => [] end
  ++ match message_of_the_day with Some m => [HumanMessage m] | None => [] end.

Definition queue_of (conn : Z) s : list Message := default [] (sv_out s !! conn).

Lemma queue_reply conn m s : queue_of conn (MeshRoot.reply conn m s) = queue_of conn s ++ [m].
Proof. unfold queue_of. cbn. unfold enqueue. by rewrite lookup_insert_eq. Qed.

Definition strip_limit (omit_data : bool) : Z := if omit_data then 64 else MeshRoot.usize_max.

(** The server's part: the greeting, and the history from [from] on. *)
Lemma subscribe_sends stored conn conv_id table node_id integrity secured_with motd fuel key from
    redirect omit s addr :
  holds U stored (sv_node s) → Forall (λ e, kept_here e ∧ sized e) stored →
  (length (events_in (Included from) Unbounded stored) < fuel)%nat →
  sc_relay (MeshRoot.context s conn) = None → queue_of conn s = [] →
  MeshHashTable.lookup table key = Some (addr, node_id) →
  ∃ s' size mode keys batches,
    MeshRoot.inbox_packet display now show_load conn conv_id table node_id
      (Opened integrity secured_with motd) fuel idle (Subscribe key from redirect omit) s
      = (Ok (), s')
    ∧ queue_of conn s' = greeting conv_id secured_with motd
        ++ [StartOfHistory size (Some from) None mode keys] ++ (Events None <$> batches)
        ++ [EndOfHistory]
    ∧ holds U stored (sv_node s') ∧ conn ∈ sv_group s'
    ∧ Message.reread_event <$> mjoin batches
      = message_of (TrustMode.is_centralized integrity) (strip_limit omit)
        <$> events_in (Included from) Unbounded stored.
Proof.
  intros Hst Hgood Hfuel Hrelay Hq Hlook.
  unfold MeshRoot.inbox_packet, st_mk. rewrite Hrelay. unfold MeshRoot.inbox_subscribe, st_mk.
  rewrite Hlook, decide_False by tauto.
  match goal with |- context [MeshRoot.stream_to _ _ _ _ _ _ _ _ ?x] => set (s1 := x) end.
  assert (sv_node s1 = sv_node s ∧ conn ∈ sv_group s1
    ∧ queue_of conn s1 = greeting conv_id secured_with motd) as (Hn & Hg & Hq1).
  { unfold s1, greeting. destruct secured_with, motd; cbn -[queue_of MeshRoot.reply];
      (split; [done|]); (split; [set_solver|]);
      unfold queue_of in *; cbn; unfold enqueue; rewrite ?lookup_insert_eq; cbn;
      by rewrite Hq. }
  clearbody s1.
  destruct (stream_history_spec (InboxPipe.new display now) U stored fuel (sv_node s1)
    (queue_of conn s1) (Included from) Unbounded (TrustMode.is_centralized integrity)
    (strip_limit omit)) as (w' & c' & batches & E & Hst' & _ & Hm%in_batches_join); [by rewrite Hn|done|done|].
  unfold MeshRoot.stream_to, st_mk. fold (strip_limit omit). unfold queue_of in E. rewrite E.
  eexists _, _, _, _, batches. split; [reflexivity|]. split.
  { unfold queue_of at 1. cbn [sv_out MeshRoot.with_out MeshRoot.with_node].
    rewrite lookup_insert_eq. cbn [default from_option]. fold (queue_of conn s1). by rewrite Hq1. }
  split; [exact Hst'|]. by split.
Qed.

(** The chain of a client and its loader are as they were. *)
Definition undisturbed c c' : Prop :=
  nd_world (cl_node c') = nd_world (cl_node c) ∧ nd_async (cl_node c') = nd_async (cl_node c)
  ∧ cl_loader c' = cl_loader c ∧ cl_notified c' = cl_notified c.

Definition quiet (m : Message) : bool :=
  match m with NewConversation _ | SecuredWith _ | HumanMessage _ => true | _ => false end.

Lemma takes_quiet ms c c' : Forall (λ m, quiet m = true) ms → takes_in display now ms c c' →
  undisturbed c c'.
Proof.
  intros Hq Ht. induction Ht as [|m ms c c1 c2 Hm _ IH]; [done|].
  apply Forall_cons in Hq as [Hq Hms]. specialize (IH Hms).
  assert (undisturbed c c1) as Hc; [|unfold undisturbed in *; naive_solver congruence].
  unfold SessionInbox.inbox_packet, SessionInbox.inbox_secure_with, st_mk in Hm.
  destruct m; try done; [by injection Hm as <-..|].
  destruct (nd_sync _). by injection Hm as <-.
Qed.

Lemma greeting_quiet conv_id secured_with motd :
  Forall (λ m, quiet m = true) (greeting conv_id secured_with motd).
Proof. unfold greeting. destruct secured_with, motd; by repeat constructor. Qed.

Lemma takes_start size from mode keys c c' (l : AntiReplayPlugin) : cl_loader c = Some l →
  SessionInbox.inbox_packet display now (StartOfHistory size from None mode keys) c = (Ok (), c') →
  nd_world (cl_node c') = nd_world (cl_node c) ∧ nd_async (cl_node c') = nd_async (cl_node c)
  ∧ cl_loader c' = Some l ∧ cl_notified c' = cl_notified c ++ [Ok ()].
Proof.
  intros Hl. unfold SessionInbox.inbox_packet, SessionInbox.inbox_start_of_history, st_mk.
  destruct (nd_sync (cl_node c)) as [sync conv]. unfold mbind, st_bind. cbn. rewrite Hl.
  intros [= <-]. by cbn.
Qed.

Lemma anti_replay_seen mine (n : Node W L) h : holds U mine n →
  h ∈ ar_seen (Connect.anti_replay n) ↔ Some h ∈ hash_of <$> (chronicle mine).*2.
Proof.
  intros [He _]%history_entries. unfold Connect.anti_replay. fold (timeline_of (nd_async n)).
  assert (∀ p, h ∈ ar_seen (foldl (λ p x, AntiReplayPlugin.push p (raw_event_hash x.2)) p
                  (ct_history (timeline_of (nd_async n))))
    ↔ h ∈ ar_seen p ∨ Some h ∈ hash_of <$> (chronicle mine).*2) as Hgen; [|rewrite Hgen; set_solver].
  induction He as [|x y l l' [_ Hr] _ IH]; intros p; [set_solver|].
  cbn [foldl]. rewrite IH. cbn [AntiReplayPlugin.push ar_seen fmap list_fmap].
  rewrite elem_of_cons. unfold hash_of at 2. rewrite Hr. cbn. set_solver.
Qed.

(** [mine] are a client's events and [theirs] the server's: every record has the same event,
    and the server's events from [from] on are in the client's history. *)
Record replica (from : ChainTimestamp) (mine theirs : list EventWeakData) : Prop := {
  rp_current : ∀ k, forget_event <$> current k mine = forget_event <$> current k theirs;
  rp_has : ∀ e k, e ∈ theirs → touches_record k e = true → dated_since from e = true →
    hash_of e ∈ hash_of <$> (chronicle mine).*2;
}.

(** Events that were written since. *)
Definition news (from : ChainTimestamp) (mine new : list EventWeakData) : Prop :=
  ∀ e k, e ∈ new → touches_record k e = true →
    dated_since from e = true ∧ hash_of e ∉ hash_of <$> (chronicle mine).*2.

Lemma current_forget k es : forget_event <$> current k es
  = match last (forget_event <$> List.filter (touches_record k) es) with
    | Some e => if removes_record k e then None else Some e
    | None => None
    end.
Proof.
  unfold current. rewrite fmap_last. destruct (last _) as [e|]; [|done]. cbn.
  rewrite (proj2 (forget_touches k e)). by destruct (removes_record k e).
Qed.

Lemma same_hash e x : in_play (W := W) (L := L) U e → in_play (W := W) (L := L) U x →
  hash_of e = hash_of x → forget_event e = forget_event x.
Proof.
  intros (h & Hh & HU)%in_play_hashed (h' & Hh' & HU')%in_play_hashed He. congruence.
Qed.

Lemma in_chronicle e es : e ∈ es → Metadata.include_in_history (ew_meta e) = true →
  e ∈ (chronicle es).*2.
Proof. intros He Hi. rewrite chronicle_perm. apply list_elem_of_In, filter_In. by rewrite <- list_elem_of_In. Qed.

Lemma forget_included e : Metadata.include_in_history (ew_meta (forget_event e))
  = Metadata.include_in_history (ew_meta e).
Proof.
  unfold Metadata.include_in_history, Metadata.get_delayed_upload. cbn [ew_meta forget_event].
  by rewrite find_map_forget_cache by by intros [].
Qed.

Lemma replica_grows from mine old new mine' : compactable (old ++ new) → replica from mine old →
  Forall (in_play (W := W) (L := L) U) mine → Forall (in_play (W := W) (L := L) U) old →
  (∀ k, List.filter (touches_record k) mine'
        = List.filter (touches_record k) mine ++ (forget_event <$> List.filter (touches_record k) new)) →
  replica from mine' (old ++ new).
Proof.
  intros Hgood [Hcur Hhas] Hpm Hpo Hf. split.
  - intros k. specialize (Hcur k). rewrite !current_forget in *.
    rewrite Hf, List.filter_app, !fmap_app, !last_app, <- list_fmap_compose.
    rewrite (list_fmap_ext (forget_event ∘ forget_event) forget_event)
      by (intros i e _; apply forget_idem).
    by destruct (last (forget_event <$> List.filter (touches_record k) new)).
  - rewrite Forall_forall in Hpm, Hpo.
    intros e k [He|He]%elem_of_app Ht Hd.
    + apply (Hhas e k He Ht) in Hd as (x & Hx & Hxin)%list_elem_of_fmap. rewrite Hx.
      rewrite chronicle_perm in Hxin.
      apply list_elem_of_In, filter_In in Hxin as [Hxin%list_elem_of_In Hi].
      apply list_elem_of_fmap_2, in_chronicle; [|done].
      assert (x ∈ List.filter (touches_record k) mine') as [? _]%list_elem_of_In%filter_In;
        [|by apply list_elem_of_In].
      rewrite Hf. apply elem_of_app. left. apply list_elem_of_In, filter_In.
      split; [by apply list_elem_of_In|]. rewrite <- (proj1 (forget_touches k x)).
      rewrite <- (same_hash e x (Hpo e He) (Hpm x Hxin) Hx). by rewrite (proj1 (forget_touches k e)).
    + rewrite <- (forget_hash e). apply list_elem_of_fmap_2, in_chronicle.
      * assert (forget_event e ∈ List.filter (touches_record k) mine')
          as [? _]%list_elem_of_In%filter_In; [|by apply list_elem_of_In].
        rewrite Hf. apply elem_of_app. right. apply list_elem_of_fmap_2, list_elem_of_In, filter_In.
        by rewrite <- list_elem_of_In.
      * rewrite forget_included. assert (e ∈ old ++ new) as Hin' by set_solver.
        apply (cp_keys _ (cp_regular _ Hgood) e k Hin') in Ht. by apply (cp_timed _ (cp_regular _ Hgood) e Hin' ltac:(by eexists)).
Qed.

Lemma mjoin_fmap {A B : Type} (f : A → B) (ls : list (list A)) : mjoin (fmap f <$> ls) = f <$> mjoin ls.
Proof.
  induction ls as [|l ls IH]; [done|].
  change (mjoin (fmap f <$> (l :: ls))) with ((f <$> l) ++ mjoin (fmap f <$> ls)).
  by rewrite IH, <- fmap_app.
Qed.

Lemma received_events ss sd (batches : list (list MessageEvent)) es : Forall (arrives_whole ss sd) es →
  Message.reread_event <$> mjoin batches = message_of ss sd <$> es →
  MessageEvent.convert_from (mjoin (fmap Message.reread_event <$> batches)) = forget_event <$> es.
Proof.
  intros Hw Hm. rewrite mjoin_fmap, Hm. unfold MessageEvent.convert_from. clear Hm batches.
  induction Hw as [|e es He _ IH]; [done|]. cbn [fmap list_fmap]. rewrite He. by f_equal.
Qed.

(** The client's part: the history is in, and the client has what is new. *)
Lemma history_taken mine old new from ss sd c c' size mode keys (batches : list (list MessageEvent)) :
  holds U mine (cl_node c) → cl_loader c = Some (Connect.anti_replay (cl_node c)) →
  Forall (in_play (W := W) (L := L) U) (old ++ new) → compactable (old ++ new) →
  Forall (arrives_whole ss sd) (old ++ new) → replica from mine old → news from mine new →
  Message.reread_event <$> mjoin batches
    = message_of ss sd <$> events_in (Included from) Unbounded (old ++ new) →
  takes_in display now ([StartOfHistory size (Some from) None mode keys]
    ++ (Events None <$> (fmap Message.reread_event <$> batches)) ++ [EndOfHistory]) c c' →
  ∃ mine', holds U mine' (cl_node c') ∧ replica from mine' (old ++ new)
    ∧ cl_loader c' = None ∧ cl_notified c' = cl_notified c ++ [Ok (); Ok ()].
Proof.
  intros Hst Hl Hplay Hgood Hwhole Hrep Hnews Hm Htake.
  apply takes_in_app in Htake as (c1 & Hm1%takes_in_one & (c2 & Hm2 & Hm3%takes_in_one)%takes_in_app).
  destruct (takes_start _ _ _ _ _ _ _ Hl Hm1) as (Hw1 & Ha1 & Hl1 & Hn1).
  assert (∀ e, e ∈ events_in (Included from) Unbounded (old ++ new) → e ∈ old ++ new) as Hsub.
  { intros e ([t x] & -> & Hin%list_elem_of_In)%list_elem_of_fmap.
    apply filter_In, proj1, list_elem_of_In, (list_elem_of_fmap_2 snd), chronicle_elem in Hin. done. }
  assert (Forall (arrives_whole ss sd) (events_in (Included from) Unbounded (old ++ new))) as Hwh.
  { rewrite Forall_forall in *. auto. }
  pose proof (received_events ss sd batches _ Hwh Hm) as Hev.
  destruct (takes_batches display now U (fmap (M := list) Message.reread_event <$> batches) mine c1 c2)
    as (mine' & Hst' & Hl2 & Hs2 & Hf); [by unfold holds; rewrite Hw1, Ha1| |done|].
  { rewrite Hev. apply Forall_fmap, Forall_forall. intros e He. rewrite Forall_forall in Hplay.
    by apply forget_in_play, Hplay, Hsub. }
  rewrite Hl1, Hev in Hf, Hl2. cbn [fed_of] in Hf, Hl2.
  pose proof (relevant_unseen U (Connect.anti_replay (cl_node c))
    (forget_event <$> events_in (Included from) Unbounded (old ++ new))) as Hrel.
  destruct (SessionInbox.relevant _ _) as [fed l2]. cbn [fst snd] in Hf, Hl2, Hrel.
  destruct Hs2 as (_ & _ & _ & Hn2 & _).
  unfold SessionInbox.inbox_packet, SessionInbox.inbox_end_of_history, st_mk in Hm3.
  rewrite Hl2 in Hm3. injection Hm3 as <-. cbn.
  exists mine'. split; [done|]. split; [|split; [done|by rewrite Hn2, Hn1, <- app_assoc]].
  apply (replica_grows from mine); [done|done|by destruct Hst|by apply Forall_app in Hplay as []|].
  intros k. rewrite Hf, List.filter_app. f_equal. rewrite Hrel; [|].
  - rewrite filter_forget_unseen, forget_filter. f_equal. apply fed_new; [done|..].
    + intros e He Ht. unfold unseen. destruct (dated_since from e) eqn:Hd; [|by rewrite andb_false_r].
      pose proof (rp_has _ _ _ Hrep e k He Ht Hd) as Hin. rewrite andb_true_r.
      destruct (in_play_hashed U e) as (h & Hh & _).
      { rewrite Forall_forall in Hplay. apply Hplay. set_solver. }
      rewrite Hh in Hin |- *. apply bool_decide_eq_false. intros Hnot. apply Hnot.
      by apply (anti_replay_seen mine).
    + intros e He Ht. destruct (Hnews e k He Ht) as [-> Hnot]. rewrite andb_true_r. unfold unseen.
      destruct (hash_of e) as [h|]; [|done]. apply bool_decide_eq_true.
      by rewrite (anti_replay_seen mine).
  - rewrite <- list_fmap_compose. rewrite (list_fmap_ext (hash_of ∘ forget_event) hash_of)
      by (intros i e _; apply forget_hash).
    eapply sublist_NoDup; [apply (chronicle_hashes (old ++ new)), Hgood|].
    apply sublist_fmap, sublist_fmap, sublist_filter.
Qed.

Lemma events_in_length lo hi es : (length (events_in lo hi es) ≤ length es)%nat.
Proof.
  unfold events_in. rewrite length_fmap. etrans; [apply List.filter_length_le|].
  rewrite <- (length_fmap snd), chronicle_perm. apply List.filter_length_le.
Qed.

Definition pending_uploads c : list MetaDelayedUpload :=
  BinaryTreeIndexer.get_pending_uploads (ct_pointers (timeline_of (nd_async (cl_node c)))).

(** C21. A client that subscribes catches up with the server, when the events of each record
    arrived at the server in the order of their dates ([late_event_diverges] has the other case).
    Take a client that has, of every record, the event the server had, and on the server events
    that were written since, dated after the point the client subscribes from and not yet seen
    by it; every event arrives whole, what the server strips notwithstanding, and nothing else
    changes the server's chain while it streams.  Opening the session sends a subscription from
    that point; the server takes it and queues its answer, whatever the connection's session and
    message of the day; and when the client has taken every packet of it in, its chain has, of
    every record, the event that the server has now, the loader is gone, and connecting goes on
    to the end when no upload is pending.  The server sends to the client from then on. *)
Theorem subscription_catches_up mine old new conn conv_id table node_id integrity secured_with motd
  fuel key lazy s addr c from
  (Hmine : holds U mine (cl_node c)) (Htheirs : holds U (old ++ new) (sv_node s))
  (Hfrom : Connect.subscribe_from (nd_async (cl_node c)) = Ok from)
  (Hrep : replica from mine old) (Hnews : news from mine new) (Hgood : compactable (old ++ new))
  (Hwhole : Forall (λ e, kept_here e ∧ sized e
     ∧ arrives_whole (TrustMode.is_centralized integrity) (strip_limit lazy) e) (old ++ new))
  (Hfuel : (length (old ++ new) < fuel)%nat)
  (Hrelay : sc_relay (MeshRoot.context s conn) = None) (Hqueue : queue_of conn s = [])
  (Hlook : MeshHashTable.lookup table (ChainKey.reread key) = Some (addr, node_id)) :
  ∃ c1 s',
    Connect.open key lazy c = (Ok (), c1)
    ∧ cl_out c1 = cl_out c ++ [Subscribe key from true lazy]
    ∧ MeshRoot.inbox_packet display now show_load conn conv_id table node_id
        (Opened integrity secured_with motd) fuel idle
        (Message.reread (Subscribe key from true lazy)) s = (Ok (), s')
    ∧ holds U (old ++ new) (sv_node s') ∧ conn ∈ sv_group s'
    ∧ ∀ c', takes_in display now (Message.reread <$> queue_of conn s') c1 c' →
        cl_loader c' = None
        ∧ (pending_uploads c' = [] → ∀ meanwhile id,
             (Connect.finish display now meanwhile fuel idle id c').1 = Ok ())
        ∧ ∃ mine', holds U mine' (cl_node c') ∧ replica from mine' (old ++ new).
Proof.
  pose proof (events_in_length (Included from) Unbounded (old ++ new)) as Hlen.
  destruct (subscribe_sends (old ++ new) conn conv_id table node_id integrity secured_with motd fuel
    (ChainKey.reread key) from true lazy s addr Htheirs)
    as (s' & size & mode & keys & batches & Es & Hq & Hst' & Hg & Hm); [|lia|done..|].
  { eapply Forall_impl; [exact Hwhole|]. by intros e (? & ? & _). }
  unfold Connect.open, Connect.create_active_pipe, st_mk. cbn [cl_node Client.with_notified
    Client.with_loader Client.with_answers Client.with_session Client.with_active].
  rewrite Hfrom. eexists _, s'. do 5 (split; [done|]). intros c' Htake.
  rewrite Hq, fmap_app in Htake. apply takes_in_app in Htake as (c2 & Hgreet & Htake).
  apply takes_quiet in Hgreet as (Hw & Ha & Hl & Hn).
  2: { pose proof (greeting_quiet conv_id secured_with motd) as Hqt. apply Forall_fmap.
       eapply Forall_impl; [exact Hqt|]. by intros []. }
  cbn in Hw, Ha, Hl, Hn. rewrite !fmap_app, <- list_fmap_compose in Htake.
  assert (Connect.anti_replay (cl_node c2) = Connect.anti_replay (cl_node c)) as Har
    by (unfold Connect.anti_replay; by rewrite Ha).
  destruct (history_taken mine old new from (TrustMode.is_centralized integrity) (strip_limit lazy)
    c2 c' size mode keys batches) as (mine' & Hst2 & Hrep' & Hl' & Hn'); try done.
  - unfold holds. by rewrite Hw, Ha.
  - by rewrite Hl, Har.
  - by destruct Htheirs.
  - eapply Forall_impl; [exact Hwhole|]. by intros e (_ & _ & ?).
  - rewrite <- list_fmap_compose. exact Htake.
  - split; [done|]. split; [|by exists mine'].
    intros Hup meanwhile id. unfold Connect.finish, st_mk. rewrite Hn', Hn. cbn [app].
    unfold pending_uploads, timeline_of in Hup. rewrite Hup. reflexivity.
Qed.
End subscription.

(** ** What one client writes reaches the others *)

Section broadcast.
Context {W L : Type} `{CryptoPrims} `{KemPrims} `{MetaSerializer} `{SnapFrames}.
Context `{!LogFile W L} `{!LogFileSpec W L}.
Variable display : ValidationErrorKind → string.
Variable now now' : option Z.
Variable U : AteHash → option EventWeakData.
Implicit Types (s : Server W L) (c : Client W L) (e : EventWeakData) (k : PrimaryKey).

(** The queue of a connection after a message to the group. *)
Lemma queue_group conn skip m s :
  queue_of conn (MeshRoot.group_send skip m s)
  = if decide (conn ∈ sv_group s ∧ Some conn ≠ skip) then queue_of conn s ++ [m] else queue_of conn s.
Proof.
  unfold queue_of, MeshRoot.group_send. cbn [sv_out MeshRoot.with_out].
  pose (P := λ (q : gmap Z (list Message)) (X : gset Z), default [] (q !! conn)
    = if decide (conn ∈ X ∧ Some conn ≠ skip) then default [] (sv_out s !! conn) ++ [m]
      else default [] (sv_out s !! conn)).
  apply (set_fold_ind_L P); unfold P; clear P.
  { rewrite decide_False; [done|set_solver]. }
  intros x X q Hx Hq. destruct (decide (Some x = skip)) as [Heq|Hne].
  { rewrite Hq. apply decide_ext. rewrite elem_of_union, elem_of_singleton. naive_solver. }
  unfold enqueue. destruct (decide (x = conn)) as [->|Hxc].
  - rewrite lookup_insert_eq. cbn. rewrite Hq, decide_False, decide_True; [done|set_solver|tauto].
  - rewrite lookup_insert_ne, Hq by done. apply decide_ext. set_solver.
Qed.

(** A batch from a connection that the server takes. *)
Lemma inbox_event_ok theirs conn commit (evts : list MessageEvent) s s' :
  holds U theirs (sv_node s) → Forall (in_play (W := W) (L := L) U) (MessageEvent.convert_from evts) →
  MeshRoot.inbox_event display now conn commit evts s = (Ok (), s') →
  (∃ theirs', holds U theirs' (sv_node s')
     ∧ ∀ k, List.filter (touches_record k) theirs'
            = List.filter (touches_record k) (theirs ++ MessageEvent.convert_from evts))
  ∧ (∀ other, other ∈ sv_group s → other ≠ conn →
       queue_of other s' = queue_of other s ++ [Events commit evts])
  ∧ queue_of conn s' = queue_of conn s ++ match commit with Some id => [Confirmed id] | None => [] end.
Proof.
  intros Hst Hplay. unfold MeshRoot.inbox_event, MeshRoot.subscribed, st_mk.
  destruct (sc_subscribed _); [|done].
  unfold MeshRoot.feed_as, st_mk, MeshRoot.pipe, DuelPipe.new, DuelPipe.feed. cbn [ep_feed].
  unfold st_mk, MeshRoot.server_pipe, MeshRoot.inbox. cbn [ep_feed tr_transmit NullPipe.new].
  unfold mret, st_ret, MeshRoot.on_inbox, st_mk. cbn [ep_feed InboxPipe.new sv_node MeshRoot.with_node].
  set (work := {| tr_scope := _ |}).
  destruct (InboxPipe.feed display now work _) as [[[]|err] n'] eqn:Ef; [|done].
  apply (inbox_feed_touches display U now theirs) in Ef as (theirs' & Hst' & Ht & _); [|exact Hst|done].
  cbn. intros [= <-]. split.
  { exists theirs'. split; [|exact Ht]. by destruct commit. }
  assert (∀ s1, sv_group s1 = sv_group s → (∀ x, queue_of x s1 = queue_of x s) →
    let s2 := match commit with Some id => MeshRoot.reply conn (Confirmed id) s1 | None => s1 end in
    (∀ other, other ∈ sv_group s → other ≠ conn →
       queue_of other (MeshRoot.group_send (Some conn) (Events commit evts) s2)
       = queue_of other s ++ [Events commit evts])
    ∧ queue_of conn (MeshRoot.group_send (Some conn) (Events commit evts) s2)
      = queue_of conn s ++ match commit with Some id => [Confirmed id] | None => [] end) as Hq.
  { intros s1 Hg Hs s2. split.
    - intros other Hin Hne. rewrite queue_group, decide_True.
      + f_equal. rewrite <- Hs. unfold s2. destruct commit; [|done].
        unfold queue_of. cbn. unfold enqueue. by rewrite lookup_insert_ne.
      + split; [|congruence]. unfold s2. destruct commit; cbn; by rewrite Hg.
    - rewrite queue_group, decide_False by tauto. unfold s2. destruct commit; [|by rewrite Hs, app_nil_r].
      by rewrite queue_reply, Hs. }
  apply Hq; done.
Qed.

(** The same event for every record, up to the cache. *)
Definition agree (mine theirs : list EventWeakData) : Prop :=
  ∀ k, forget_event <$> current k mine = forget_event <$> current k theirs.

Lemma agree_grows mine theirs es mine' theirs' : agree mine theirs →
  (∀ k, List.filter (touches_record k) mine' = List.filter (touches_record k) (mine ++ (forget_event <$> es))) →
  (∀ k, List.filter (touches_record k) theirs' = List.filter (touches_record k) (theirs ++ es)) →
  agree mine' theirs'.
Proof.
  intros Ha Hm Ht k. specialize (Ha k). rewrite !current_forget in *.
  rewrite Hm, Ht, !List.filter_app, !fmap_app, !last_app, forget_filter, <- list_fmap_compose.
  rewrite (list_fmap_ext (forget_event ∘ forget_event) forget_event)
    by (intros i e _; apply forget_idem).
  by destruct (last (forget_event <$> List.filter (touches_record k) es)).
Qed.

Lemma reread_convert (evts : list MessageEvent) :
  MessageEvent.convert_from (Message.reread_event <$> evts)
  = forget_event <$> MessageEvent.convert_from evts.
Proof. unfold MessageEvent.convert_from. by rewrite <- !list_fmap_compose. Qed.

(** C22. What one client writes reaches the others.  When the server takes a batch of events
    from a connection, it confirms the commit to that connection and queues the batch for
    every other connection of the group; and when the session of one of them takes the packet
    in, and its chain had the events of the server for every record before, it has them
    after. *)
Theorem broadcast_keeps_agreement theirs mine conn other commit (evts : list MessageEvent) s s' c c'
  (Htheirs : holds U theirs (sv_node s)) (Hmine : holds U mine (cl_node c))
  (Hagree : agree mine theirs) (Hloaded : cl_loader c = None)
  (Hplay : Forall (in_play (W := W) (L := L) U) (MessageEvent.convert_from evts))
  (Hgroup : other ∈ sv_group s) (Hother : other ≠ conn)
  (Hserver : MeshRoot.inbox_event display now conn commit evts s = (Ok (), s'))
  (Htake : SessionInbox.inbox_packet display now' (Message.reread (Events commit evts)) c
           = (Ok (), c')) :
  queue_of conn s' = queue_of conn s ++ match commit with Some id => [Confirmed id] | None => [] end
  ∧ queue_of other s' = queue_of other s ++ [Events commit evts]
  ∧ ∃ mine' theirs', holds U theirs' (sv_node s') ∧ holds U mine' (cl_node c') ∧ agree mine' theirs'.
Proof.
  destruct (inbox_event_ok theirs conn commit evts s s' Htheirs Hplay Hserver)
    as ((theirs' & Hst' & Ht) & Hq & Hc).
  split; [done|]. split; [by apply Hq|]. cbn [Message.reread] in Htake.
  unfold SessionInbox.inbox_packet, st_mk, mbind, st_bind in Htake.
  assert (∃ r c1, match commit with
      | Some id => SessionInbox.inbox_confirmed id c
      | None => (Ok (), c)
      end = (r, c1) ∧ cl_node c1 = cl_node c ∧ cl_loader c1 = None) as (r & c1 & E & Hn & Hl).
  { destruct commit as [id|]; [|by eauto].
    unfold SessionInbox.inbox_confirmed, SessionInbox.answer_commit, st_mk.
    destruct (ms_commit _ !! id) as [[]|]; eauto. }
  rewrite E in Htake.
  destruct (SessionInbox.inbox_events _ _ _ c1) as [[[]|err] c2] eqn:Ee; [|done].
  injection Htake as _ ->.
  apply (inbox_events_ok display now' U mine) in Ee as (mine' & Hst2 & _ & _ & Hm & _).
  - exists mine', theirs'. split; [done|]. split; [done|].
    apply (agree_grows mine theirs (MessageEvent.convert_from evts)); [done| |done].
    intros k. rewrite Hm, Hl. cbn [fed_of fst]. by rewrite reread_convert.
  - by rewrite Hn.
  - rewrite reread_convert. apply Forall_fmap. eapply Forall_impl; [exact Hplay|].
    intros e. apply forget_in_play.
Qed.
End broadcast.
