(* ===== verification/MeshSamples.v ===== *)
(** * The mesh on concrete inputs

    Servers and clients on in-memory logs, to which the theorems on the mesh apply. *)

From S2P Require Import Prelude LogApi Crypto Codec Secure Meta Time Event Index Signature Tree Compact Plugins LogFile MemDb RedoLog Chain ChainSpec CompactSpec Pipe Dio DioSpec Mesh MeshClient MeshSpec.

(** ** Concrete inputs, on in-memory logs *)

#[local] Existing Instance toy_prims.
#[local] Existing Instance toy_kem.
#[local] Existing Instance toy_serializer.
#[local] Existing Instance toy_snap.
#[local] Existing Instance toy_header.

Definition node_with (a : ChainProtectedAsync LogFileMemDb) : Node unit LogFileMemDb :=
  {| nd_world := (); nd_async := a; nd_sync := (sample_sync [], None); nd_locks := ∅;
     nd_decache := []; nd_log_size := 0 |}.

(** A server, and connections 1 and 2 that have subscribed. *)
Definition server_with (n : Node unit LogFileMemDb) (conns : list Z) : Server unit LogFileMemDb :=
  {| sv_node := n;
     sv_contexts := list_to_map ((λ c, (c, SessionContext.with_subscribed SessionContext.default true))
                                   <$> conns);
     sv_group := list_to_set conns; sv_out := ∅; sv_relayed := ∅; sv_delete_only := false |}.

Definition client_in (mode : RecoveryMode) (n : Node unit LogFileMemDb) (active : option ActivePipe)
    : Client unit LogFileMemDb :=
  {| cl_node := n; cl_mode := mode; cl_active := active; cl_held := false;
     cl_session := MeshSession.new; cl_answers := no_answers; cl_loader := None;
     cl_notified := []; cl_status := []; cl_in := []; cl_out := [] |}.

Definition client_with (n : Node unit LogFileMemDb) (active : option ActivePipe)
    : Client unit LogFileMemDb := client_in ReadOnlyAsync n active.

Definition connected_pipe : ActivePipe := {| ap_connected := true; ap_likely_read_only := false |}.

Definition sample_table : MeshHashTable :=
  MeshHashTable.new [{| ma_host := V4 [x7f; x00; x00; x01]; ma_port := 5000 |}].

Definition sample_key : ChainKey := ChainKey.new "sample".
Definition no_show (e : ReadErrorKind) : string := EmptyString.
Definition sample_conv : AteHash := {| hash_val := [x07] |}.

Definition opened_sample : Client unit LogFileMemDb :=
  (Connect.open sample_key false (client_with (node_with (empty_chain Distributed)) None)).2.

Definition subscribed_sample : Server unit LogFileMemDb :=
  (MeshRoot.inbox_packet no_display five_seconds no_show 1 sample_conv sample_table 0%nat
     (Opened Distributed None (Some "welcome"%string)) 3 idle
     (Message.reread (Subscribe sample_key (ChainTimestamp.from 0) true false))
     (server_with (node_with two_chain) [])).2.

Definition caught_up : Client unit LogFileMemDb :=
  default opened_sample (take_all no_display five_seconds
    (Message.reread <$> queue_of 1 subscribed_sample) opened_sample).

Lemma some_default {A : Type} (o : option A) (d : A) :
  match o with Some _ => true | None => false end = true → o = Some (default d o).
Proof. by destruct o. Qed.

Lemma sample_taken :
  take_all no_display five_seconds (Message.reread <$> queue_of 1 subscribed_sample) opened_sample
  = Some caught_up.
Proof. apply some_default. vm_compute. reflexivity. Qed.

Lemma two_compactable : compactable [first_write; second_write].
Proof. apply (compactable_sublist _ [first_write; second_write; other_write]); [|apply three_compactable].
  by repeat constructor. Qed.

Ltac each_event H := repeat (apply elem_of_cons in H as [->|H]); [..|by apply elem_of_nil in H].

Lemma subscription_catches_up_witness :
  ∃ c mine, takes_in no_display five_seconds (Message.reread <$> queue_of 1 subscribed_sample)
              opened_sample c
    ∧ holds four_universe mine (cl_node c)
    ∧ forget_event <$> current (PrimaryKey.new 1) mine = Some second_write.
Proof.
  destruct (subscription_catches_up no_display five_seconds no_show four_universe [] []
    [first_write; second_write] 1 sample_conv sample_table 0%nat Distributed None
    (Some "welcome"%string) 3 sample_key false (server_with (node_with two_chain) [])
    {| ma_host := V4 [x7f; x00; x00; x01]; ma_port := 5000 |}
    (client_with (node_with (empty_chain Distributed)) None) (ChainTimestamp.from 0))
    as (c1 & s1 & Eo & _ & Es & _ & _ & Ht).
  - exact (empty_state _ _).
  - exact two_state.
  - vm_compute. reflexivity.
  - split; [done|]. by intros e k ?%elem_of_nil.
  - intros e k He _. split; [by each_event He|]. apply not_elem_of_nil.
  - exact two_compactable.
  - apply Forall_forall. intros e He.
    each_event He; (split; [done|]); (split; [intros raw [= <-]; vm_compute; done|]); vm_compute; done.
  - vm_compute. lia.
  - reflexivity.
  - reflexivity.
  - vm_compute. reflexivity.
  - assert (c1 = opened_sample) as -> by exact (eq_sym (f_equal snd Eo)).
    assert (s1 = subscribed_sample) as -> by exact (eq_sym (f_equal snd Es)).
    pose proof (take_all_takes _ _ _ _ _ sample_taken) as E.
    destruct (Ht caught_up E) as (_ & _ & mine & Hst & Hrep).
    exists caught_up, mine. split; [exact E|]. split; [exact Hst|].
    rewrite (rp_current _ _ _ Hrep). vm_compute. reflexivity.
Defined.

(** *** Streaming *)

Lemma two_good : Forall (λ e, kept_here e ∧ sized e) [first_write; second_write].
Proof. repeat constructor; intros raw [= <-]; vm_compute; done. Qed.

Lemma streaming_sends_range_witness :
  ∃ n batches,
    Streaming.stream_history_range (InboxPipe.new no_display five_seconds) 3 idle Unbounded Unbounded
      false MeshRoot.usize_max (node_with two_chain, [])
    = (Ok (), (n, [StartOfHistory 2 None None Distributed []] ++ (Events None <$> batches)
                  ++ [EndOfHistory]))
    ∧ Message.reread_event <$> mjoin batches
      = message_of false MeshRoot.usize_max <$> [first_write; second_write].
Proof.
  destruct (streaming_sends_range (InboxPipe.new no_display five_seconds) four_universe
    [first_write; second_write] 3 (node_with two_chain) [] Unbounded Unbounded false
    MeshRoot.usize_max two_state two_good ltac:(vm_compute; lia)) as (n & batches & chunks & E & _ & _ & _ & Hj & Hb).
  exists n, batches. split; [exact E|]. apply in_batches_join. exists chunks. split; [exact Hj|exact Hb].
Defined.

(** *** Broadcast *)

Definition told : list MessageEvent := MessageEvent.convert_to [other_write].

Definition telling : result ServerErrorKind unit * Server unit LogFileMemDb :=
  MeshRoot.inbox_event no_display five_seconds 1 (Some 7) told
    (server_with (node_with two_chain) [1; 2]).

Definition listener : Client unit LogFileMemDb :=
  client_with (node_with two_chain) (Some connected_pipe).

Definition listening : result SessionErrorKind unit * Client unit LogFileMemDb :=
  SessionInbox.inbox_packet no_display five_seconds (Message.reread (Events (Some 7) told)) listener.

Lemma told_both : telling.1 = Ok () ∧ listening.1 = Ok ().
Proof. vm_compute. done. Qed.

Lemma pair_of {A B : Type} (p : A * B) (a : A) : p.1 = a → p = (a, p.2).
Proof. by destruct p; intros <-. Qed.

Lemma broadcast_keeps_agreement_witness :
  queue_of 1 telling.2 = [Confirmed 7] ∧ queue_of 2 telling.2 = [Events (Some 7) told]
  ∧ ∃ mine theirs, holds four_universe theirs (sv_node telling.2)
      ∧ holds four_universe mine (cl_node listening.2) ∧ agree mine theirs.
Proof.
  destruct told_both as [Et%pair_of El%pair_of].
  exact (broadcast_keeps_agreement no_display five_seconds five_seconds four_universe
    [first_write; second_write] [first_write; second_write] 1 2 (Some 7) told
    (server_with (node_with two_chain) [1; 2]) telling.2 listener listening.2
    two_state two_state (λ k, eq_refl) eq_refl
    (Forall_take _ 1 _ (Forall_drop _ 2 _ four_in_play)) ltac:(vm_compute; done) ltac:(done) Et El).
Defined.

(** *** The order of arrival *)

(** A server that was fed the second write before the first. *)
Definition feed_to (e : EventWeakData) (n : Node unit LogFileMemDb) : Node unit LogFileMemDb :=
  (InboxPipe.feed no_display five_seconds (Transaction.from_events [e] ScopeFull false 30000) n).2.

Definition late_server : Server unit LogFileMemDb :=
  server_with (feed_to first_write (feed_to second_write (node_with (empty_chain Distributed)))) [].

Definition late_answer : Server unit LogFileMemDb :=
  (MeshRoot.inbox_packet no_display five_seconds no_show 1 sample_conv sample_table 0%nat
     (Opened Distributed None None) 3 idle
     (Message.reread (Subscribe sample_key (ChainTimestamp.from 0) true false)) late_server).2.

Definition value_of (k : PrimaryKey) (n : Node unit LogFileMemDb) : option AteHash :=
  leaf_record <$> ChainMultiUser.lookup_primary k n.

(** A client has the server's records only when the events of a record reached the
    server in the order of their dates.  The server files an event under its date, but takes
    the event that arrived last for the record's value; the history is streamed by date.  A
    server that was fed a write dated 2000 and then one dated 1000 has the write of 1000 for
    the record; a client that subscribes takes every packet in and has the write of 2000. *)
Theorem late_event_diverges :
  match take_all no_display five_seconds (Message.reread <$> queue_of 1 late_answer) opened_sample with
  | Some c => value_of (PrimaryKey.new 1) (sv_node late_answer) = hash_of first_write
              ∧ value_of (PrimaryKey.new 1) (cl_node c) = hash_of second_write
              ∧ hash_of first_write ≠ hash_of second_write
  | None => False
  end.
Proof. vm_compute. done. Qed.
