(* ===== verification/MeshLocks.v ===== *)
(** * Locks and waits of the mesh

    What a lock of a record is worth, on the server and through the session of a client, and
    where the session waits for what it holds up itself: the theorems on the locks of
    lib/src/mesh/server.rs, recoverable_session_pipe.rs and active_session_pipe.rs. *)

From S2P Require Import Prelude LogApi Crypto Codec Secure Meta Time Event Index Signature Tree Compact Plugins LogFile MemDb RedoLog Chain ChainSpec CompactSpec Pipe Dio DioSpec Mesh MeshClient MeshSpec MeshSamples.

(** ** The locks of a server *)

Section server.
Context {W L : Type} `{CryptoPrims} `{KemPrims} `{MetaSerializer} `{SnapFrames} `{!LogFile W L}.
Variable display : ValidationErrorKind → string.
Variable now : option Z.
Implicit Types (s : Server W L) (conn : Z) (key : PrimaryKey) (owner : gmap PrimaryKey Z).

Definition locks_of s : gset PrimaryKey := nd_locks (sv_node s).

Lemma pipe_try_lock key s :
  ep_try_lock (MeshRoot.pipe display now) key s
  = (Ok (bool_decide (key ∉ locks_of s)),
     MeshRoot.with_node s (Node.with_locks (sv_node s) ({[key]} ∪ locks_of s))).
Proof.
  unfold MeshRoot.pipe, DuelPipe.new, DuelPipe.try_lock, MeshRoot.server_pipe, MeshRoot.inbox.
  cbn [ep_try_lock NullPipe.new]. unfold mbind, st_bind, mret, st_ret.
  unfold MeshRoot.on_inbox, st_mk. cbn [ep_try_lock InboxPipe.new].
  unfold InboxPipe.try_lock, st_mk, locks_of. case_decide as Hk.
  - rewrite bool_decide_false by tauto. replace ({[key]} ∪ nd_locks (sv_node s)) with (nd_locks (sv_node s))
      by set_solver. by destruct s as [[]].
  - by rewrite bool_decide_true.
Qed.

Lemma pipe_unlock key s :
  ep_unlock (MeshRoot.pipe display now) key s
  = (Ok (), MeshRoot.with_node s (Node.with_locks (sv_node s) (locks_of s ∖ {[key]}))).
Proof. reflexivity. Qed.

Lemma pipe_unlock_local key s :
  ep_unlock_local (MeshRoot.pipe display now) key s
  = (Ok (), MeshRoot.with_node s (Node.with_locks (sv_node s) (locks_of s ∖ {[key]}))).
Proof. reflexivity. Qed.

(** What a request for a lock does. *)
Lemma inbox_lock_ok conn key s s' : MeshRoot.inbox_lock display now conn key s = (Ok (), s') →
  locks_of s' = {[key]} ∪ locks_of s
  ∧ queue_of conn s' = queue_of conn s ++ [LockResult key (bool_decide (key ∉ locks_of s))]
  ∧ sc_locks (MeshRoot.context s' conn) = sc_locks (MeshRoot.context s conn) ∪ {[key]}
  ∧ (∀ other, other ≠ conn → sc_locks (MeshRoot.context s' other) = sc_locks (MeshRoot.context s other)).
Proof.
  unfold MeshRoot.inbox_lock, MeshRoot.subscribed, st_mk. destruct (sc_subscribed _); [|done].
  unfold mbind, st_bind, st_map_err. rewrite pipe_try_lock. cbn [map_err]. intros [= <-].
  split; [done|]. split.
  { unfold queue_of. cbn. unfold enqueue. by rewrite lookup_insert_eq. }
  unfold MeshRoot.context. cbn. split; [by rewrite lookup_insert_eq|].
  intros other Hne. by rewrite lookup_insert_ne.
Qed.

Lemma inbox_unlock_ok conn key s s' : MeshRoot.inbox_unlock display now conn key s = (Ok (), s') →
  locks_of s' = locks_of s ∖ {[key]}.
Proof.
  unfold MeshRoot.inbox_unlock, MeshRoot.subscribed, st_mk. destruct (sc_subscribed _); [|done].
  unfold st_map_err. rewrite pipe_unlock. cbn. by intros [= <-].
Qed.

Lemma disconnected_locks conn s :
  locks_of (MeshRoot.disconnected display now conn s)
  = if sc_subscribed (MeshRoot.context s conn)
    then locks_of s ∖ sc_locks (MeshRoot.context s conn) else locks_of s.
Proof.
  unfold MeshRoot.disconnected. unfold locks_of at 1. cbn [sv_node MeshRoot.with_group MeshRoot.with_contexts].
  destruct (sc_subscribed _); [|done].
  pose (P := λ s' (X : gset PrimaryKey), nd_locks (sv_node s') = locks_of s ∖ X).
  apply (set_fold_ind_L P); unfold P; clear P; [set_solver|].
  intros key X s' Hx Hs'. rewrite pipe_unlock_local. cbn. unfold locks_of at 1. rewrite Hs'. set_solver.
Qed.

(** *** Who has which lock *)

(** [owner] are the locks that were given.  A connection releases what it was given; one that
    goes has asked for no lock that it was refused. *)
Inductive lock_step : Server W L * gmap PrimaryKey Z → Server W L * gmap PrimaryKey Z → Prop :=
  | step_given conn key s s' owner :
      MeshRoot.inbox_lock display now conn key s = (Ok (), s') →
      last (queue_of conn s') = Some (LockResult key true) →
      lock_step (s, owner) (s', <[key := conn]> owner)
  | step_refused conn key s s' owner :
      MeshRoot.inbox_lock display now conn key s = (Ok (), s') →
      last (queue_of conn s') = Some (LockResult key false) →
      lock_step (s, owner) (s', owner)
  | step_released conn key s s' owner :
      owner !! key = Some conn →
      MeshRoot.inbox_unlock display now conn key s = (Ok (), s') →
      lock_step (s, owner) (s', delete key owner)
  | step_gone conn s owner :
      sc_subscribed (MeshRoot.context s conn) = true →
      (∀ key, key ∈ sc_locks (MeshRoot.context s conn) ↔ owner !! key = Some conn) →
      lock_step (s, owner)
        (MeshRoot.disconnected display now conn s, filter (λ '(_, c), c ≠ conn) owner).

Definition in_table (x : Server W L * gmap PrimaryKey Z) : Prop := locks_of x.1 = dom x.2.

Lemma step_in_table x y : lock_step x y → in_table x → in_table y.
Proof.
  unfold in_table. intros [conn key s s' o Hl _|conn key s s' o Hl Hq|conn key s s' o _ Hu|conn s o Hsub Hl];
    cbn; intros Hs.
  - apply inbox_lock_ok in Hl as (-> & _). by rewrite Hs, dom_insert_L.
  - apply inbox_lock_ok in Hl as (Hlk & Hq' & _). rewrite Hq', last_snoc in Hq.
    injection Hq as Hk%bool_decide_eq_false. rewrite Hlk, Hs in *. apply dec_stable in Hk. set_solver.
  - apply inbox_unlock_ok in Hu as ->. by rewrite Hs, dom_delete_L.
  - rewrite disconnected_locks, Hsub, Hs. apply set_eq. intros key.
    rewrite elem_of_difference, Hl, !elem_of_dom. split.
    + intros [[c Hc] Hne]. exists c. apply map_lookup_filter_Some. split; [done|]. by intros ->.
    + intros [c [Hc Hne]%map_lookup_filter_Some]. split; [by exists c|]. congruence.
Qed.

(** C24. Locks are exclusive while no connection is refused.  However connections ask for
    locks, release the ones they were given and go, when no connection goes that has asked
    for a lock it was refused or does not have any more, the server's table has exactly the
    locks that were given and not released; so a lock is given only when nobody has it. *)
Theorem locks_exclusive s s' owner owner'
  (Hstart : locks_of s = dom owner) (Hrun : rtc lock_step (s, owner) (s', owner')) :
  locks_of s' = dom owner'
  ∧ ∀ conn key s2, MeshRoot.inbox_lock display now conn key s' = (Ok (), s2) →
      last (queue_of conn s2) = Some (LockResult key true) ↔ owner' !! key = None.
Proof.
  assert (locks_of s' = dom owner') as Hend.
  { change (in_table (s', owner')). assert (in_table (s, owner)) as Hin by exact Hstart.
    clear Hstart. induction Hrun as [|x y z Hxy _ IH]; eauto using step_in_table. }
  split; [done|]. intros conn key s2 Hl. apply inbox_lock_ok in Hl as (_ & -> & _).
  rewrite last_snoc. rewrite Hend, <- not_elem_of_dom. split.
  - intros [= Hk%bool_decide_eq_true]. done.
  - intros Hk. by rewrite bool_decide_true.
Qed.
End server.

(** ** The locks of a client *)

Section client.
Context {W L : Type} `{CryptoPrims} `{KemPrims} `{MetaSerializer} `{!LogFile W L}.
Variable display : ValidationErrorKind → string.
Variable now : option Z.
Implicit Types (c : Client W L) (key : PrimaryKey).

Definition local_locks c : gset PrimaryKey := nd_locks (cl_node c).

(** *** The loop that reads the packets leaves the locks alone *)

Lemma feed_with_locks id (work : Transaction) c : tr_transmit work = false →
  local_locks (SessionPipe.feed_with display now (λ _, mret ()) id work c).2 = local_locks c.
Proof.
  intros Ht. unfold SessionPipe.feed_with, SessionPipe.with_guard, mbind, st_bind, st_mk.
  destruct (cl_held c); [done|]. cbn [Client.with_held cl_active].
  assert (∀ c0, local_locks (SessionPipe.next MeshFeed (ep_feed (InboxPipe.new display now) work) c0).2
            = local_locks c0) as Hnext.
  { intros c0. unfold SessionPipe.next, st_mk, local_locks. cbn [ep_feed InboxPipe.new].
    pose proof (inbox_feed_locks display now work (cl_node c0)) as Hl.
    by destruct (InboxPipe.feed _ _ _ _). }
  destruct (cl_active c) as [pipe|].
  - unfold SessionPipe.active_feed, st_mk. rewrite Ht. cbn. by rewrite Hnext.
  - unfold SessionPipe.offline, st_mk. cbn [cl_mode Client.with_held].
    destruct (cl_mode c); cbn; [by rewrite Hnext|done..].
Qed.

Lemma feed_inbound_locks (work : Transaction) c : tr_transmit work = false →
  local_locks (SessionInbox.feed_inbound display now work c).2 = local_locks c.
Proof.
  intros Ht. unfold SessionInbox.feed_inbound, st_mk.
  match goal with |- context [SessionPipe.feed_with display now ?w 0 work ?c3] =>
    pose proof (feed_with_locks 0 work c3 Ht) as Hl;
    destruct (SessionPipe.feed_with display now w 0 work c3) as [r c4] end.
  unfold local_locks in *. cbn in *. by rewrite Hl.
Qed.

Lemma inbox_events_locks evts c :
  local_locks (SessionInbox.inbox_events display now evts c).2 = local_locks c.
Proof.
  unfold SessionInbox.inbox_events, st_mk.
  assert (∀ work c0, tr_transmit work = false → local_locks c0 = local_locks c →
    local_locks (st_map_err SessionFeed (SessionInbox.feed_inbound display now work) c0).2
    = local_locks c) as Hf.
  { intros work c0 Ht <-. rewrite <- (feed_inbound_locks work c0 Ht). unfold st_map_err.
    by destruct (SessionInbox.feed_inbound display now work c0). }
  destruct (cl_loader c) as [l|]; [destruct (SessionInbox.relevant l _)|]; by apply Hf.
Qed.

Lemma feed_meta_data_locks meta c :
  local_locks (SessionInbox.feed_meta_data display now meta c).2 = local_locks c.
Proof.
  unfold SessionInbox.feed_meta_data, st_mk.
  by destruct (ChainProtectedAsync.feed_meta_data _ _ _ _) as [r [[w a] s]].
Qed.

Lemma start_of_history_locks to keys mode c :
  local_locks (SessionInbox.inbox_start_of_history display now to keys mode c).2 = local_locks c.
Proof.
  unfold SessionInbox.inbox_start_of_history, st_mk. destruct (nd_sync _) as [sync conv].
  unfold mbind, st_bind, mret, st_ret.
  set (c1 := Client.with_node c _). assert (local_locks c1 = local_locks c) as Hc1 by done. clearbody c1.
  assert (∀ r c2, local_locks c2 = local_locks c →
    local_locks (match (r : result SessionErrorKind ()) with
      | Ok _ => (Ok (), match cl_loader c2 with Some _ => Client.notify (Ok ()) c2 | None => c2 end)
      | Err e => (Err e, c2) end : result SessionErrorKind () * Client W L).2 = local_locks c) as Hend.
  { intros [[]|e] c2 Hc2; [|done]. by destruct (cl_loader c2). }
  destruct to as [t|]; [|exact (Hend (Ok ()) c1 Hc1)].
  destruct (SessionInbox.keys_from t (cl_node c1) !! 1%nat) as [next|]; [|exact (Hend (Ok ()) c1 Hc1)].
  assert (local_locks (SessionInbox.record_delayed_upload display now next c1).2 = local_locks c) as Hr.
  { unfold SessionInbox.record_delayed_upload, st_mk. rewrite <- Hc1. destruct (head _); [|done].
    destruct (BinaryTreeIndexer.get_delayed_upload _ _); [done|].
    destruct (last _); [|done]. apply feed_meta_data_locks. }
  destruct (SessionInbox.record_delayed_upload display now next c1) as [r c2]. exact (Hend r c2 Hr).
Qed.

Lemma inbox_packet_locks m c :
  local_locks (SessionInbox.inbox_packet display now m c).2 = local_locks c.
Proof.
  assert (∀ id r, local_locks (SessionInbox.answer_commit id r c).2 = local_locks c) as Ha.
  { intros id r. unfold SessionInbox.answer_commit, st_mk. by destruct (ms_commit _ !! id) as [[]|]. }
  unfold SessionInbox.inbox_packet, st_mk. destruct m; try done; cbn [snd].
  - unfold SessionInbox.inbox_lock_result. destruct (ms_lock_requests _ !! key); [|done].
    destruct (LockRequest.entropy _ _) as [[r [b|]] f]; done.
  - apply start_of_history_locks.
  - destruct commit as [id|].
    + specialize (Ha id (Ok id)). unfold SessionInbox.inbox_confirmed.
      destruct (SessionInbox.answer_commit id (Ok id) c) as [r c1]. cbn in Ha.
      unfold mbind, st_bind. pose proof (inbox_events_locks evts c1) as He.
      destruct (SessionInbox.inbox_events display now evts c1) as [[[]|e] c2]; cbn in *; congruence.
    + unfold mbind, st_bind. pose proof (inbox_events_locks evts c) as He.
      by destruct (SessionInbox.inbox_events display now evts c) as [[[]|e] c2].
  - unfold SessionInbox.inbox_end_of_history. by destruct (cl_loader c).
  - apply Ha.
  - apply Ha.
  - by destruct (cl_loader c).
  - unfold SessionInbox.inbox_secure_with. by destruct (nd_sync _).
  - unfold SessionInbox.inbox_load_result. by destruct (ms_load_requests _ !! id).
  - unfold SessionInbox.inbox_load_result. by destruct (ms_load_requests _ !! id).
Qed.

Lemma process_inbox_locks n c : local_locks (SessionInbox.process_inbox display now n c) = local_locks c.
Proof.
  revert c. induction n as [|n IH]; intros c; [done|]. cbn. destruct (cl_in c) as [|m ms]; [done|].
  pose proof (inbox_packet_locks m (Client.with_in c ms)) as Hm.
  destruct (SessionInbox.inbox_packet _ _ _ _) as [[[]|e] c1]; cbn in Hm.
  - by rewrite IH.
  - destruct e as [| |[]]; cbn; rewrite ?IH; exact Hm.
Qed.

(** *** A lock that is not given *)

Lemma try_lock_taken meanwhile key c : cl_held c = false → key ∈ local_locks c →
  SessionPipe.try_lock display now meanwhile key c = (Ok false, c).
Proof.
  intros Hh Hk. unfold SessionPipe.try_lock, SessionPipe.with_guard, st_mk. rewrite Hh.
  cbn [cl_active Client.with_held].
  assert (Client.with_held (Client.with_held c true) false = c) as Hc by (destruct c; cbn in *; by subst).
  destruct (cl_active c); [|by rewrite Hc].
  unfold mbind, st_bind, SessionPipe.next, st_mk. cbn [ep_try_lock InboxPipe.new].
  unfold InboxPipe.try_lock, st_mk. cbn [cl_node Client.with_held]. rewrite decide_True by exact Hk.
  cbn. destruct c; cbn in *. by subst.
Qed.

Lemma try_lock_free meanwhile pipe key c : cl_held c = false → cl_active c = Some pipe →
  key ∉ local_locks c →
  ∃ c1, cl_held c1 = true ∧ local_locks c1 = {[key]} ∪ local_locks c
    ∧ cl_in c1 = cl_in c ∧ cl_out c1 = cl_out c ∧ cl_answers c1 = cl_answers c
    ∧ SessionPipe.try_lock display now meanwhile key c
      = match SessionPipe.active_try_lock meanwhile pipe key c1 with
        | (Err Blocked, c') => (Err Blocked, c')
        | (r, c') => (r, Client.with_held c' false)
        end.
Proof.
  intros Hh Ha Hk.
  exists (Client.with_node (Client.with_held c true)
            (Node.with_locks (cl_node c) ({[key]} ∪ local_locks c))).
  split; [done|]. split; [done|]. split; [done|]. split; [done|]. split; [done|].
  unfold SessionPipe.try_lock, SessionPipe.with_guard, st_mk. rewrite Hh.
  cbn [cl_active Client.with_held]. rewrite Ha.
  unfold mbind, st_bind, SessionPipe.next, st_mk. cbn [ep_try_lock InboxPipe.new].
  unfold InboxPipe.try_lock, st_mk. cbn [cl_node Client.with_held]. rewrite decide_False by exact Hk.
  reflexivity.
Qed.

(** A lock that the server does not give stays locked at the client.  A session that has
    an active pipe takes the lock of the record in its own table before it asks the server;
    whatever comes of it, a refusal, a timeout or a pipe that is not connected yet, and
    whatever packets are read meanwhile, the lock is still in the table after; and as long as
    it is there every attempt of this client to lock the record fails at once, without the
    server being asked. *)
Theorem refused_lock_is_kept n pipe key c r c'
  (Hheld : cl_held c = false) (Hactive : cl_active c = Some pipe) (Hfree : key ∉ local_locks c)
  (Hlock : SessionPipe.try_lock display now (SessionInbox.process_inbox display now n) key c = (r, c'))
  (Hnot : r ≠ Ok true) :
  key ∈ local_locks c' ∧ cl_held c' = false
  ∧ ∀ meanwhile c2, local_locks c2 = local_locks c' → cl_held c2 = false →
      SessionPipe.try_lock display now meanwhile key c2 = (Ok false, c2).
Proof.
  destruct (try_lock_free (SessionInbox.process_inbox display now n) pipe key c Hheld Hactive Hfree)
    as (c1 & _ & Hl1 & _ & _ & _ & Etry).
  assert (key ∈ local_locks c' ∧ cl_held c' = false) as [Hk Hh].
  { rewrite Hlock in Etry. clear Hlock Hnot. revert Etry.
    unfold SessionPipe.active_try_lock, st_mk. destruct (negb _).
    { intros [= -> ->]. unfold local_locks in *. cbn. rewrite Hl1. set_solver. }
    match goal with |- context [SessionInbox.process_inbox display now n ?c0] =>
      pose proof (process_inbox_locks n c0) as Hp; set (c2 := SessionInbox.process_inbox display now n c0) in * end.
    unfold local_locks in *. cbn in Hp. rewrite Hl1 in Hp.
    destruct (an_lock _ !! key); intros [= -> ->]; cbn; rewrite Hp; set_solver. }
  split; [done|]. split; [done|]. intros meanwhile c2 Hl Hh2. apply try_lock_taken; [done|].
  by rewrite Hl.
Qed.

(** *** A wait that holds itself up *)

Lemma events_wait commit evts c : cl_held c = true →
  ∃ c1, SessionInbox.inbox_packet display now (Events commit evts) c = (Err (SessionFeed Blocked), c1)
    ∧ an_lock (cl_answers c1) = an_lock (cl_answers c) ∧ cl_out c1 = cl_out c
    ∧ local_locks c1 = local_locks c.
Proof.
  intros Hh. unfold SessionInbox.inbox_packet, st_mk, mbind, st_bind.
  assert (∀ c0, cl_held c0 = true → ∃ c1,
    SessionInbox.inbox_events display now evts c0 = (Err (SessionFeed Blocked), c1)
    ∧ cl_answers c1 = cl_answers c0 ∧ cl_out c1 = cl_out c0 ∧ local_locks c1 = local_locks c0) as He.
  { intros c0 Hc0. unfold SessionInbox.inbox_events, st_mk, st_map_err, SessionInbox.feed_inbound,
      SessionPipe.feed_with, mbind, st_bind, SessionPipe.with_guard, st_mk.
    destruct (cl_loader c0) as [l|]; [destruct (SessionInbox.relevant l _)|];
      cbn [cl_held Client.with_node Client.with_loader]; rewrite Hc0; by eexists. }
  destruct commit as [id|].
  - unfold SessionInbox.inbox_confirmed, SessionInbox.answer_commit, st_mk.
    destruct (ms_commit _ !! id) as [[]|];
      match goal with |- context [SessionInbox.inbox_events display now evts ?c0] =>
        destruct (He c0 Hh) as (c1 & -> & Ha & Ho & Hl); exists c1; rewrite Ha, Ho, Hl; done end.
  - destruct (He c Hh) as (c1 & -> & Ha & Ho & Hl). exists c1. by rewrite Ha.
Qed.

(** A client that waits for a lock does not read the answer when events come first.
    [try_lock] holds the guard of the active pipe while it waits, and the loop that reads the
    packets needs that guard to feed events.  When the next packet has events, then whatever
    follows, the answer of the server included, and however long the wait, the lock times out,
    with the server asked, the packets after the events unread, and the record locked at the
    client. *)
Theorem lock_waits_behind_events n pipe key c commit evts ms
  (Hheld : cl_held c = false) (Hactive : cl_active c = Some pipe) (Hconn : ap_connected pipe = true)
  (Hfree : key ∉ local_locks c) (Hin : cl_in c = Events commit evts :: ms) :
  ∃ c', SessionPipe.try_lock display now (SessionInbox.process_inbox display now (S n)) key c
        = (Err (MeshLock CommsTimeout), c')
    ∧ cl_out c' = cl_out c ++ [Lock key] ∧ cl_in c' = Events None evts :: ms
    ∧ key ∈ local_locks c'.
Proof.
  destruct (try_lock_free (SessionInbox.process_inbox display now (S n)) pipe key c Hheld Hactive Hfree)
    as (c1 & Hh1 & Hl1 & Hi1 & Ho1 & Ha1 & ->).
  unfold SessionPipe.active_try_lock, st_mk. rewrite Hconn. cbn [negb].
  cbn [SessionInbox.process_inbox cl_in Client.send Client.with_out Client.with_answers Client.with_session].
  rewrite Hi1, Hin. match goal with |- context [SessionInbox.inbox_packet display now _ ?c0] =>
    destruct (events_wait commit evts c0 Hh1) as (c2 & -> & Ha2 & Ho2 & Hl2) end.
  cbn [cl_answers Client.with_loader Client.with_in]. rewrite Ha2. cbn. rewrite lookup_delete_eq.
  eexists. split; [reflexivity|]. cbn. rewrite Ho2. cbn. rewrite Ho1. split; [done|]. split; [done|].
  unfold local_locks in *. cbn in *. rewrite Hl2, Hl1. set_solver.
Qed.
End client.

(** ** Concrete inputs *)

#[local] Existing Instance toy_prims.
#[local] Existing Instance toy_kem.
#[local] Existing Instance toy_serializer.
#[local] Existing Instance toy_snap.

Definition key_one : PrimaryKey := PrimaryKey.new 1.

Definition ask (conn : Z) (s : Server unit LogFileMemDb) : Server unit LogFileMemDb :=
  (MeshRoot.inbox_lock no_display five_seconds conn key_one s).2.

Definition three_connections : Server unit LogFileMemDb := server_with (node_with two_chain) [1; 2; 3].

Lemma asked_one :
  (MeshRoot.inbox_lock no_display five_seconds 1 key_one three_connections).1 = Ok ()
  ∧ last (queue_of 1 (ask 1 three_connections)) = Some (LockResult key_one true).
Proof. vm_compute. done. Qed.

Lemma locks_exclusive_witness :
  locks_of (ask 1 three_connections) = {[key_one]}
  ∧ (MeshRoot.inbox_lock no_display five_seconds 2 key_one (ask 1 three_connections)).1 = Ok ()
  ∧ last (queue_of 2 (ask 2 (ask 1 three_connections))) ≠ Some (LockResult key_one true).
Proof.
  destruct asked_one as [E1%pair_of Hq].
  destruct (locks_exclusive no_display five_seconds three_connections (ask 1 three_connections)
    ∅ {[key_one := 1]}) as [Hd Hl].
  - reflexivity.
  - apply rtc_once. rewrite <- insert_empty. eapply step_given; [exact E1|exact Hq].
  - rewrite Hd. split; [apply dom_singleton_L|].
    assert ((MeshRoot.inbox_lock no_display five_seconds 2 key_one (ask 1 three_connections)).1 = Ok ())
      as E2 by (vm_compute; reflexivity).
    split; [exact E2|]. apply pair_of in E2. rewrite (Hl 2 key_one _ E2).
    by rewrite lookup_singleton_eq.
Defined.

(** A connection that goes releases the lock of another.  The server notes a lock with
    the connection that asks for it, whether it is given or not, and releases what is noted
    when the connection goes.  Connection 1 is given a lock; connection 2 asks for it, is
    refused, and goes; connection 3 asks, and is given the lock that connection 1 still has. *)
Theorem refused_connection_frees_lock :
  let s1 := ask 1 three_connections in
  let s2 := ask 2 s1 in
  let s3 := ask 3 (MeshRoot.disconnected no_display five_seconds 2 s2) in
  queue_of 1 s3 = [LockResult key_one true]
  ∧ queue_of 2 s2 = [LockResult key_one false]
  ∧ queue_of 3 s3 = [LockResult key_one true].
Proof. vm_compute. done. Qed.

(** A client with a packet of the server to read. *)
Definition waiting_client (ms : list Message) : Client unit LogFileMemDb :=
  Client.with_in (client_with (node_with two_chain) (Some connected_pipe)) ms.

Lemma refused_lock_is_kept_witness :
  let c := (SessionPipe.try_lock no_display five_seconds
              (SessionInbox.process_inbox no_display five_seconds 1) key_one
              (waiting_client [LockResult key_one false])).2 in
  (SessionPipe.try_lock no_display five_seconds (λ c, c) key_one c).1 = Ok false
  ∧ cl_out (SessionPipe.try_lock no_display five_seconds (λ c, c) key_one c).2 = [Lock key_one].
Proof.
  assert ((SessionPipe.try_lock no_display five_seconds
             (SessionInbox.process_inbox no_display five_seconds 1) key_one
             (waiting_client [LockResult key_one false])).1 = Ok false) as E%pair_of
    by (vm_compute; reflexivity).
  destruct (refused_lock_is_kept no_display five_seconds 1 connected_pipe key_one
    (waiting_client [LockResult key_one false]) (Ok false) _ eq_refl eq_refl
    ltac:(apply not_elem_of_empty) E ltac:(done)) as (_ & Hh & Hagain).
  intros c. rewrite (Hagain (λ c, c) c eq_refl Hh). split; [reflexivity|]. vm_compute. reflexivity.
Defined.

(** The server has given the lock; its answer is behind a packet of events. *)
Lemma lock_waits_behind_events_witness :
  ∃ c, SessionPipe.try_lock no_display five_seconds
         (SessionInbox.process_inbox no_display five_seconds 2) key_one
         (waiting_client [Events None told; LockResult key_one true])
       = (Err (MeshLock CommsTimeout), c)
    ∧ cl_in c = [Events None told; LockResult key_one true].
Proof.
  destruct (lock_waits_behind_events no_display five_seconds 1 connected_pipe key_one
    (waiting_client [Events None told; LockResult key_one true]) None told
    [LockResult key_one true] eq_refl eq_refl eq_refl ltac:(apply not_elem_of_empty) eq_refl)
    as (c & E & _ & Hi & _).
  exists c. split; [exact E|exact Hi].
Defined.
