(* ===== verification/MeshOffline.v ===== *)
(** * Writing while the server is away

    What becomes of the events that a client writes when it has no connection: the theorems on
    the delayed uploads of lib/src/mesh/session.rs and recoverable_session_pipe.rs. *)

From S2P Require Import Prelude LogApi Crypto Codec Secure Meta Time Event Index Signature Tree Compact Plugins LogFile MemDb RedoLog Chain ChainSpec CompactSpec Pipe Dio DioSpec Mesh MeshClient MeshSpec MeshSamples.

(** ** A pending upload *)

Section upload.
Context {W L : Type} `{CryptoPrims} `{KemPrims} `{MetaSerializer} `{!LogFile W L}.
Variable display : ValidationErrorKind → string.
Variable now : option Z.
Implicit Types (c : Client W L).

Lemma feed_held meanwhile id (work : Transaction) c : cl_held c = true →
  SessionPipe.feed display now meanwhile id work c = (Err Blocked, c).
Proof.
  intros Hh. unfold SessionPipe.feed, SessionPipe.feed_with, mbind, st_bind, SessionPipe.with_guard, st_mk.
  by rewrite Hh.
Qed.

(** A client with an upload to do never connects.  [connect] holds the guard of the
    active pipe while it streams the events of an upload, and then, still with the guard,
    feeds an empty transaction through the same pipe, which waits for the guard.  So when the
    history is in and an upload is pending, connecting does not return [Ok], whatever happens
    meanwhile: it stands still with the guard held, unless the streaming failed before. *)
Theorem pending_upload_blocks_connect meanwhile fuel other id c pipe d ds rest
  (Hloaded : cl_notified c = Ok () :: Ok () :: rest) (Hheld : cl_held c = false)
  (Hactive : cl_active c = Some pipe) (Hpending : pending_uploads c = d :: ds) :
  ∃ e c', Connect.finish display now meanwhile fuel other id c
          = (Err (ConnectUpload (SessionFeed e)), c')
    ∧ ((e = Blocked ∧ cl_held c' = true) ∨ ∃ e', e = MeshStream e').
Proof.
  unfold Connect.finish, st_mk. rewrite Hloaded.
  unfold pending_uploads, timeline_of in Hpending. rewrite Hpending. cbn [Connect.send_uploads].
  unfold mbind, st_bind, st_map_err, Connect.send_upload, SessionPipe.with_guard, st_mk.
  rewrite Hheld. cbn [cl_active Client.with_held]. rewrite Hactive.
  destruct (Streaming.stream_history_range _ _ _ _ _ _ _ _) as [r [n out]].
  destruct r as [[]|[[e| |]|]].
  - rewrite feed_held by done. eexists _, _. split; [reflexivity|]. by left.
  - eexists _, _. split; [reflexivity|]. eauto.
  - eexists _, _. split; [reflexivity|]. by left.
  - eexists _, _. split; [reflexivity|]. by left.
  - eexists _, _. split; [reflexivity|]. eauto.
Qed.
End upload.

(** ** The history a server sends has no end *)

Create HintDb endless.

Definition endless (m : Message) : Prop :=
  match m with StartOfHistory _ _ to _ _ => to = None | _ => True end.

Section endless.
Context {W L : Type} `{CryptoPrims} `{KemPrims} `{MetaSerializer} `{SnapFrames} `{!LogFile W L}.
Variable display : ValidationErrorKind → string.
Variable now : option Z.
Variable show_load : ReadErrorKind → string.
Implicit Types (s : Server W L) (conn : Z).

Lemma stream_loop_endless pipe hi ss sd other fuel : ∀ (n : Node W L) out start skip,
  Forall endless out →
  Forall endless (Streaming.stream_loop pipe fuel other hi ss sd start skip (n, out)).2.2.
Proof.
  induction fuel as [|fuel IH]; intros n out start skip Ho; [done|]. cbn [Streaming.stream_loop].
  unfold st_mk. destruct (Streaming.fill_batch _ _ _ _) as [leafs [[start' skip'] amount]].
  case_decide; [done|]. destruct (ChainMultiUser.load_many _ _ _) as [[evts|e] n']; [|done].
  apply IH, Forall_app. split; [done|by repeat constructor].
Qed.

Lemma stream_range_endless pipe lo ss sd other fuel (n : Node W L) out : Forall endless out →
  Forall endless (Streaming.stream_history_range pipe fuel other lo Unbounded ss sd (n, out)).2.2.
Proof.
  intros Ho. unfold Streaming.stream_history_range, Streaming.send, mbind, st_bind, st_mk.
  set (m := StartOfHistory _ _ _ _ _).
  assert (Forall endless (out ++ [m])) as Hm by (apply Forall_app; split; [done|by repeat constructor]).
  assert (∀ x : result StreamErrorKind () * (Node W L * list Message), Forall endless x.2.2 →
    Forall endless (let (r, s') := x in match r with
      | Ok _ => let '(n, out) := s' in (Ok (), (n, out ++ [EndOfHistory]))
      | Err e => (Err e, s') end : result StreamErrorKind () * _).2.2) as Hend.
  { intros [[[]|e] [n' out']] Hx; [|done]. apply Forall_app. split; [done|by repeat constructor]. }
  case_decide; [|exact (Hend (Ok (), (n, out ++ [m])) Hm)].
  apply Hend. unfold Streaming.stream_events, st_mk.
  destruct lo; [destruct (head _)|..]; cbn; first [done|by apply stream_loop_endless].
Qed.

Definition all_endless s : Prop := ∀ conn, Forall endless (queue_of conn s).

Lemma reply_endless conn m s : endless m → all_endless s → all_endless (MeshRoot.reply conn m s).
Proof.
  intros Hm Hs other. unfold queue_of. cbn. unfold enqueue.
  destruct (decide (other = conn)) as [->|Hne].
  - rewrite lookup_insert_eq. apply Forall_app. split; [apply Hs|by repeat constructor].
  - rewrite lookup_insert_ne by done. apply Hs.
Qed.

Lemma group_endless skip m s : endless m → all_endless s → all_endless (MeshRoot.group_send skip m s).
Proof.
  intros Hm Hs other. rewrite queue_group. case_decide; [|apply Hs].
  apply Forall_app. split; [apply Hs|by repeat constructor].
Qed.

Lemma same_out_endless s s' : sv_out s' = sv_out s → all_endless s → all_endless s'.
Proof. intros Ho Hs conn. unfold queue_of. rewrite Ho. apply Hs. Qed.

#[local] Hint Resolve reply_endless group_endless : endless.
#[local] Hint Extern 1 (endless _) => exact I : endless.

Lemma on_inbox_out {E A} (f : st (Node W L) E A) s : sv_out (MeshRoot.on_inbox f s).2 = sv_out s.
Proof. unfold MeshRoot.on_inbox, st_mk. by destruct (f _). Qed.

Lemma inbox_subscribe_endless conn conv_id table node_id opened fuel other key from redirect omit s :
  all_endless s →
  all_endless (MeshRoot.inbox_subscribe display now conn conv_id table node_id opened fuel other key
                 from redirect omit s).2.
Proof.
  intros Hs. unfold MeshRoot.inbox_subscribe, st_mk.
  set (s1 := MeshRoot.reply conn (NewConversation conv_id) _).
  assert (all_endless s1) as Hs1 by (apply reply_endless; [exact I|]; by apply (same_out_endless s)).
  clearbody s1. destruct (MeshHashTable.lookup table key) as [[addr id]|]; [|cbn; auto with endless].
  case_decide.
  { destruct redirect; cbn [snd]; [by apply (same_out_endless s1)|auto with endless]. }
  destruct opened as [integrity secured motd| |err]; [|cbn; auto with endless..].
  match goal with |- context [MeshRoot.stream_to _ _ _ _ _ _ _ _ ?x] => set (s2 := x) end.
  assert (all_endless s2) as Hs2.
  { unfold s2. match goal with |- all_endless (MeshRoot.set_context ?x _ _) =>
      apply (same_out_endless x); [done|] end.
    destruct motd; [apply reply_endless; [exact I|]|];
      match goal with |- all_endless (MeshRoot.with_group ?x _) => apply (same_out_endless x); [done|] end;
      destruct secured; auto with endless. }
  clearbody s2. unfold MeshRoot.stream_to, st_mk.
  pose proof (stream_range_endless (InboxPipe.new display now) (Included from)
    (TrustMode.is_centralized integrity) (if omit then 64 else MeshRoot.usize_max) other fuel
    (sv_node s2) (queue_of conn s2) (Hs2 conn)) as Hr. unfold queue_of in Hr.
  destruct (Streaming.stream_history_range _ _ _ _ _ _ _ _) as [r [n out]]. cbn in Hr |- *.
  intros x. unfold queue_of. cbn. destruct (decide (x = conn)) as [->|Hne].
  - by rewrite lookup_insert_eq.
  - rewrite lookup_insert_ne by done. apply Hs2.
Qed.

Lemma inbox_event_endless conn commit evts s : all_endless s →
  all_endless (MeshRoot.inbox_event display now conn commit evts s).2.
Proof.
  intros Hs. unfold MeshRoot.inbox_event, MeshRoot.subscribed, st_mk.
  destruct (sc_subscribed _); [|cbn; auto with endless].
  unfold MeshRoot.feed_as, st_mk, MeshRoot.pipe, DuelPipe.new, DuelPipe.feed. cbn [ep_feed].
  unfold st_mk, MeshRoot.server_pipe, MeshRoot.inbox. cbn [ep_feed tr_transmit NullPipe.new].
  unfold mret, st_ret, MeshRoot.on_inbox, st_mk. cbn [ep_feed InboxPipe.new].
  destruct (InboxPipe.feed _ _ _ _) as [[[]|e] n]; cbn [snd]; [|by apply (same_out_endless s)].
  cbn. apply group_endless; [exact I|].
  destruct commit; [apply reply_endless; [exact I|]|]; by apply (same_out_endless s).
Qed.

(** A server never tells a client where the history it sends ends.  Whatever packet of a
    connection a server deals with, and whatever the outcome, no start of a history it queues
    for anybody has an end point.  A client records what it wrote while the server was away,
    to be uploaded, only on a start of a history with an end point; so it does not. *)
Theorem history_has_no_end conn conv_id table node_id opened fuel other m s
  (Hs : all_endless s) :
  all_endless (MeshRoot.inbox_packet display now show_load conn conv_id table node_id opened fuel
                 other m s).2.
Proof.
  unfold MeshRoot.inbox_packet, st_mk.
  destruct (sc_relay _); [by apply (same_out_endless s)|].
  destruct m; try done.
  - by apply inbox_subscribe_endless.
  - unfold MeshRoot.inbox_lock, MeshRoot.subscribed, st_mk.
    destruct (sc_subscribed _); [|cbn; auto with endless].
    unfold mbind, st_bind, st_map_err, MeshRoot.pipe, DuelPipe.new, DuelPipe.try_lock,
      MeshRoot.server_pipe, MeshRoot.inbox, mbind, st_bind, mret, st_ret.
    cbn [ep_try_lock NullPipe.new InboxPipe.new]. cbn.
    unfold MeshRoot.on_inbox, InboxPipe.try_lock, st_mk.
    case_decide; cbn; (apply reply_endless; [exact I|]); by apply (same_out_endless s).
  - unfold MeshRoot.inbox_unlock, MeshRoot.subscribed, st_mk.
    destruct (sc_subscribed _); [|cbn; auto with endless]. by apply (same_out_endless s).
  - destruct (_ && _); [cbn; auto with endless|by apply inbox_event_endless].
  - unfold MeshRoot.inbox_load_many, MeshRoot.subscribed, st_mk.
    destruct (sc_subscribed _); [|cbn; auto with endless].
    unfold MeshRoot.pipe, DuelPipe.new, DuelPipe.load_many, MeshRoot.server_pipe, MeshRoot.inbox, st_mk.
    cbn [ep_load_many NullPipe.new InboxPipe.new]. unfold mret, st_ret.
    pose proof (on_inbox_out (InboxPipe.load_many leafs) s) as Ho.
    destruct (MeshRoot.on_inbox (InboxPipe.load_many leafs) s) as [r s']. cbn in Ho |- *.
    apply reply_endless; [by destruct r|]. by apply (same_out_endless s).
Qed.
End endless.

(** ** What a client writes without a connection *)

Section offline.
Context {W L : Type} `{CryptoPrims} `{KemPrims} `{MetaSerializer}.
Context `{!LogFile W L} `{!LogFileSpec W L} `{ChainHeaderJson}.
Variable display : ValidationErrorKind → string.
Variable now : option Z.
Variable U : AteHash → option EventWeakData.
Implicit Types (c : Client W L) (e : EventWeakData) (mine : list EventWeakData).

(** The event records no upload. *)
Definition ordinary e : Prop := Metadata.include_in_history (ew_meta e) = true.

Lemma feed_uploads ix h : Metadata.include_in_history (eh_meta h) = true →
  ix_uploads (BinaryTreeIndexer.feed ix h) = ix_uploads ix.
Proof.
  unfold Metadata.include_in_history, Metadata.get_delayed_upload, BinaryTreeIndexer.feed.
  destruct (Metadata.get_tombstone _) as [k|].
  { intros _. unfold BinaryTreeIndexer.feed_tombstone, BinaryTreeIndexer.remove_parent.
    repeat case_match; done. }
  revert ix. induction (meta_core (eh_meta h)) as [|x core IH]; intros ix Hi; [done|].
  cbn [foldl]. cbn [find_map] in Hi.
  rewrite IH by by destruct x. destruct x; try done; cbn.
  - unfold BinaryTreeIndexer.feed_data. repeat case_match; done.
  - unfold BinaryTreeIndexer.feed_parent, BinaryTreeIndexer.remove_parent. repeat case_match; done.
Qed.

Lemma ordinary_uploads mine c : holds U mine (cl_node c) → Forall ordinary mine →
  pending_uploads c = [].
Proof.
  intros [_ _ _ _ (cs & hs & Htl & Hhs)] Ho. unfold pending_uploads. rewrite Htl, timeline_pointers.
  cbn [ct_pointers ChainTimeline.new]. unfold BinaryTreeIndexer.get_pending_uploads.
  assert (∀ ix, ix_uploads (foldl BinaryTreeIndexer.feed ix hs) = ix_uploads ix) as ->; [|done].
  clear Htl. induction Hhs as [|e h mine hs He _ IH]; intros ix; [done|].
  apply Forall_cons in Ho as [Hoe Ho]. cbn [foldl]. rewrite (IH Ho). apply feed_uploads.
  destruct (header_of_meta e h He) as (_ & _ & ->). exact Hoe.
Qed.

(** A packet without an end point whose events record no upload. *)
Definition plain_packet (m : Message) : Prop :=
  match m with
  | Events _ evts => Forall (λ e, in_play (W := W) (L := L) U e ∧ ordinary e) (MessageEvent.convert_from evts)
  | m => endless m
  end.

(** What a client has of the records' events. *)
Definition keeps mine mine' : Prop := ∀ e k, e ∈ mine → touches_record k e = true → e ∈ mine'.

Lemma keeps_filter mine mine' es :
  (∀ k, List.filter (touches_record k) mine' = List.filter (touches_record k) (mine ++ es)) →
  keeps (mine ++ es) mine'.
Proof.
  intros Hf e k He Ht. assert (e ∈ List.filter (touches_record k) mine') as Hin.
  { rewrite Hf. apply list_elem_of_In, filter_In. by rewrite <- list_elem_of_In. }
  by apply list_elem_of_In, filter_In, proj1, list_elem_of_In in Hin.
Qed.

(** What such packets leave: nothing is sent, and no upload is recorded. *)
Definition harmless mine c c' : Prop :=
  cl_out c' = cl_out c
  ∧ ∃ mine', holds U mine' (cl_node c') ∧ Forall ordinary mine' ∧ keeps mine mine'.

Lemma harmless_same mine c c' : holds U mine (cl_node c) → Forall ordinary mine →
  cl_out c' = cl_out c → nd_world (cl_node c') = nd_world (cl_node c) →
  nd_async (cl_node c') = nd_async (cl_node c) → harmless mine c c'.
Proof.
  intros Hst Ho Hout Hw Ha. split; [done|]. exists mine. unfold holds. rewrite Hw, Ha.
  split; [done|]. split; [done|]. by intros e k ? _.
Qed.

Lemma answer_harmless id (r : result MeshErrorKind Z) c : 
  cl_out (SessionInbox.answer_commit id r c).2 = cl_out c
  ∧ cl_node (SessionInbox.answer_commit id r c).2 = cl_node c.
Proof. unfold SessionInbox.answer_commit, st_mk. by destruct (ms_commit _ !! id) as [[]|]. Qed.

Lemma events_harmless mine evts c c' : holds U mine (cl_node c) → Forall ordinary mine →
  Forall (λ e, in_play (W := W) (L := L) U e ∧ ordinary e) (MessageEvent.convert_from evts) →
  SessionInbox.inbox_events display now evts c = (Ok (), c') → harmless mine c c'.
Proof.
  intros Hst Ho He E. apply Forall_and in He as [Hp Hoe].
  apply (inbox_events_ok display now U mine) in E as (mine' & Hst' & _ & Hs & Hf & HP); [|done..].
  split; [apply Hs|]. exists mine'. split; [done|]. split; [by apply HP|].
  intros e k Hin. apply (keeps_filter _ _ _ Hf). by apply elem_of_app; left.
Qed.

Lemma packet_harmless mine m c c' : holds U mine (cl_node c) → Forall ordinary mine → plain_packet m →
  SessionInbox.inbox_packet display now m c = (Ok (), c') → harmless mine c c'.
Proof.
  intros Hst Ho Hm. unfold SessionInbox.inbox_packet, st_mk.
  destruct m; cbn in Hm; try (intros [= <-]; by apply harmless_same); try done.
  - intros [= <-]. unfold SessionInbox.inbox_lock_result.
    destruct (ms_lock_requests _ !! key); [|by apply harmless_same].
    destruct (LockRequest.entropy _ _) as [[r [b|]] f]; by apply harmless_same.
  - subst to. unfold SessionInbox.inbox_start_of_history, st_mk, mbind, st_bind.
    destruct (nd_sync _) as [sync conv]. cbn. intros [= <-].
    destruct (cl_loader c); by apply harmless_same.
  - unfold mbind, st_bind. destruct commit as [id|].
    + unfold SessionInbox.inbox_confirmed. destruct (answer_harmless id (Ok id) c) as [Hout Hn].
      destruct (SessionInbox.answer_commit id (Ok id) c) as [r c1]. cbn in Hout, Hn.
      destruct (SessionInbox.inbox_events display now evts c1) as [[[]|err] c2] eqn:E; [|done].
      intros [= _ <-]. apply (events_harmless mine) in E as [Ho2 Hrest]; [|by rewrite Hn|done..].
      split; [congruence|done].
    + destruct (SessionInbox.inbox_events display now evts c) as [[[]|err] c2] eqn:E; [|done].
      intros [= <-]. by apply (events_harmless mine) in E.
  - intros [= <-]. unfold SessionInbox.inbox_end_of_history.
    destruct (cl_loader c); by apply harmless_same.
  - intros E. destruct (answer_harmless id (Ok id) c) as [Hout Hn].
    unfold SessionInbox.inbox_confirmed in E. rewrite E in Hout, Hn. cbn in Hout, Hn.
    apply harmless_same; by rewrite ?Hn.
  - intros E. destruct (answer_harmless id (Err (MeshRoot err)) c) as [Hout Hn].
    unfold SessionInbox.inbox_commit_error in E. rewrite E in Hout, Hn. cbn in Hout, Hn.
    apply harmless_same; by rewrite ?Hn.
  - intros [= <-]. unfold SessionInbox.inbox_secure_with. destruct (nd_sync _).
    by apply harmless_same.
  - intros [= <-]. unfold SessionInbox.inbox_load_result.
    destruct (ms_load_requests _ !! id); by apply harmless_same.
  - intros [= <-]. unfold SessionInbox.inbox_load_result.
    destruct (ms_load_requests _ !! id); by apply harmless_same.
Qed.

Lemma takes_harmless ms c c' : takes_in display now ms c c' → ∀ mine,
  holds U mine (cl_node c) → Forall ordinary mine → Forall plain_packet ms → harmless mine c c'.
Proof.
  induction 1 as [|m ms c c1 c2 Hm _ IH]; intros mine Hst Ho Hms; [by apply harmless_same|].
  apply Forall_cons in Hms as [Hp Hms].
  destruct (packet_harmless mine m c c1 Hst Ho Hp Hm) as (Ho1 & mine1 & Hst1 & Hord1 & Hk1).
  destruct (IH mine1 Hst1 Hord1 Hms) as (Ho2 & mine2 & Hst2 & Hord2 & Hk2).
  split; [congruence|]. exists mine2. split; [done|]. split; [done|].
  intros e k He Ht. by apply (Hk2 e k), Ht; apply (Hk1 e k).
Qed.

(** What a client writes while it has no connection is never sent to the server.  Take a
    client in the recovery mode [Async] without an active pipe, and with no upload recorded,
    that feeds a transaction successfully; let it open a session, take in any packets of the
    kind a server sends (no history with an end point, no event that records an upload), and
    finish connecting.  All it has sent is the subscription; and its own chain still has every
    event of the transaction that touches a record. *)
Theorem offline_write_is_never_sent mine meanwhile id (work : Transaction) c c1 c2 c3 c4 key lazy
  ms meanwhile' fuel other id'
  (Hmode : cl_mode c = Async) (Hactive : cl_active c = None)
  (Hst : holds U mine (cl_node c)) (Hord : Forall ordinary mine)
  (Hwork : Forall (λ e, in_play (W := W) (L := L) U e ∧ ordinary e) (tr_events work))
  (Hfeed : SessionPipe.feed display now meanwhile id work c = (Ok (), c1))
  (Hopen : Connect.open key lazy c1 = (Ok (), c2))
  (Htake : takes_in display now ms c2 c3) (Hplain : Forall plain_packet ms)
  (Hfinish : Connect.finish display now meanwhile' fuel other id' c3 = (Ok (), c4)) :
  (∃ from, cl_out c4 = cl_out c ++ [Subscribe key from true lazy])
  ∧ ∃ mine', holds U mine' (cl_node c4) ∧ keeps (mine ++ tr_events work) mine'.
Proof.
  assert (∃ n1, InboxPipe.feed display now work (cl_node c) = (Ok (), n1)
    ∧ cl_node c1 = n1 ∧ cl_out c1 = cl_out c) as (n1 & Ef & Hn1 & Hout1).
  { revert Hfeed. unfold SessionPipe.feed, SessionPipe.feed_with, SessionPipe.with_guard, mbind, st_bind, st_mk.
    destruct (cl_held c); [done|]. cbn [cl_active Client.with_held]. rewrite Hactive.
    unfold SessionPipe.offline, st_mk. cbn [cl_mode Client.with_held]. rewrite Hmode. cbn.
    unfold SessionPipe.next, st_mk. cbn.
    destruct (InboxPipe.feed _ _ _ _) as [[[]|e] n1]; [|done]. intros [= <-]. by exists n1. }
  pose proof Hwork as [Hp Hoe]%Forall_and.
  destruct (inbox_feed_touches display U now mine work _ _ Hst Hp Ef) as (mine1 & Hst1 & Hf1 & HP1 & _).
  assert (cl_node c2 = cl_node c1 ∧ ∃ from, cl_out c2 = cl_out c1 ++ [Subscribe key from true lazy])
    as (Hn2 & from & Hout2).
  { revert Hopen. unfold Connect.open, Connect.create_active_pipe, st_mk. cbn.
    destruct (Connect.subscribe_from _) as [from|]; [|done]. intros [= <-]. cbn. by eauto. }
  destruct (takes_harmless ms c2 c3 Htake mine1) as (Hout3 & mine3 & Hst3 & Hord3 & Hk3);
    [by rewrite Hn2, Hn1|by apply HP1|done|].
  revert Hfinish. unfold Connect.finish, st_mk.
  pose proof (ordinary_uploads mine3 c3 Hst3 Hord3) as Hup. unfold pending_uploads, timeline_of in Hup.
  rewrite Hup. destruct (cl_notified c3) as [|[[]|why] [|[[]|why'] rest]]; try done.
  cbn. intros [= <-]. split; [exists from; cbn; by rewrite Hout3, Hout2, Hout1|].
  exists mine3. split; [exact Hst3|]. intros e k He Ht. apply (Hk3 e k); [|done].
  exact (keeps_filter _ _ _ Hf1 e k He Ht).
Qed.
End offline.

(** ** Concrete inputs *)

#[local] Existing Instance toy_prims.
#[local] Existing Instance toy_kem.
#[local] Existing Instance toy_serializer.
#[local] Existing Instance toy_snap.
#[local] Existing Instance toy_header.

(** A client whose chain has recorded an upload, when the history is in. *)
Definition some_upload : MetaDelayedUpload :=
  {| du_complete := false; du_from := ChainTimestamp.from 1000; du_to := ChainTimestamp.from 2000 |}.

Definition upload_chain : ChainProtectedAsync LogFileMemDb :=
  ChainProtectedAsync.with_chain two_chain (ChainOfTrust.with_timeline (ca_chain two_chain)
    {| ct_history := ct_history (timeline_of two_chain);
       ct_pointers := BinaryTreeIndexer.feed_upload (ct_pointers (timeline_of two_chain)) some_upload;
       ct_compactors := ct_compactors (timeline_of two_chain) |}).

Definition uploading : Client unit LogFileMemDb :=
  Client.with_notified (client_with (node_with upload_chain)
    (Some {| ap_connected := false; ap_likely_read_only := false |})) [Ok (); Ok ()].

Lemma pending_upload_blocks_connect_witness :
  ∃ e c, Connect.finish no_display five_seconds (λ c, c) 3 idle 7 uploading
         = (Err (ConnectUpload (SessionFeed e)), c)
    ∧ ((e = Blocked ∧ cl_held c = true) ∨ ∃ e', e = MeshStream e').
Proof.
  assert (pending_uploads uploading = [some_upload]) as Hp by (vm_compute; reflexivity).
  exact (pending_upload_blocks_connect no_display five_seconds (λ c, c) 3 idle 7 uploading _
    some_upload [] [] eq_refl eq_refl eq_refl Hp).
Defined.

Lemma history_has_no_end_witness : all_endless subscribed_sample ∧ length (queue_of 1 subscribed_sample) = 5%nat.
Proof.
  split; [|vm_compute; reflexivity]. unfold subscribed_sample. apply history_has_no_end.
  intros conn. constructor.
Defined.

(** A client without a connection writes, and connects. *)
Definition offline_work : Transaction := Transaction.from_events [other_write] ScopeLocal true 30000.

Definition written : result MeshErrorKind unit * Client unit LogFileMemDb :=
  SessionPipe.feed no_display five_seconds (λ c, c) 7 offline_work
    (client_in Async (node_with two_chain) None).

Definition reopened : result ConnectErrorKind unit * Client unit LogFileMemDb :=
  Connect.open sample_key false written.2.

Definition answered : Server unit LogFileMemDb :=
  (MeshRoot.inbox_packet no_display five_seconds no_show 1 sample_conv sample_table 0%nat
     (Opened Distributed None None) 3 idle
     (Message.reread (Subscribe sample_key (ChainTimestamp.from 3000) true false))
     (server_with (node_with two_chain) [])).2.

Definition answer : list Message := Message.reread <$> queue_of 1 answered.

Definition loaded_again : Client unit LogFileMemDb :=
  default reopened.2 (take_all no_display five_seconds answer reopened.2).

Definition finished : result ConnectErrorKind unit * Client unit LogFileMemDb :=
  Connect.finish no_display five_seconds (λ c, c) 3 idle 8 loaded_again.

Lemma offline_run : written.1 = Ok () ∧ reopened.1 = Ok ()
  ∧ match take_all no_display five_seconds answer reopened.2 with Some _ => true | None => false end = true
  ∧ finished.1 = Ok ()
  ∧ forallb (λ m, match m with
                  | StartOfHistory _ _ None _ _ | NewConversation _ | EndOfHistory => true
                  | _ => false
                  end) answer = true.
Proof. vm_compute. done. Qed.

Lemma reopened_is : reopened = Connect.open sample_key false written.2.
Proof. reflexivity. Qed.

Lemma offline_reopens : Connect.open sample_key false written.2 = (Ok (), reopened.2).
Proof. exact (eq_trans (eq_sym reopened_is) (pair_of reopened (Ok ()) (proj1 (proj2 offline_run)))). Qed.

Lemma offline_write_is_never_sent_witness :
  (∃ from, cl_out finished.2 = [Subscribe sample_key from true false])
  ∧ ∃ mine, holds four_universe mine (cl_node finished.2)
      ∧ keeps ([first_write; second_write] ++ [other_write]) mine.
Proof.
  destruct offline_run as (Ew%pair_of & _ & Et & Ef%pair_of & Ha).
  assert (take_all no_display five_seconds answer reopened.2 = Some loaded_again) as Et'
    by exact (some_default (take_all no_display five_seconds answer reopened.2) reopened.2 Et).
  refine (offline_write_is_never_sent no_display five_seconds four_universe
    [first_write; second_write] (λ c, c) 7 offline_work (client_in Async (node_with two_chain) None)
    written.2 reopened.2 loaded_again finished.2 sample_key false answer (λ c, c) 3 idle 8
    eq_refl eq_refl two_state _ _ Ew offline_reopens (take_all_takes _ _ _ _ _ Et') _ Ef).
  - by repeat constructor.
  - apply Forall_and. split; [exact (Forall_take _ 1 _ (Forall_drop _ 2 _ four_in_play))|].
    by repeat constructor.
  - apply Forall_forall. intros m Hm%list_elem_of_In. rewrite forallb_forall in Ha.
    specialize (Ha m Hm). by destruct m as [| | | | | | | |? ? [] ? ?| | | | | | | | |].
Defined.
