(* ===== verification/MeshTable.v ===== *)
(** * Which server a chain is on

    The theorems on the table of lib/src/mesh/core.rs: every chain is on exactly one server of
    the mesh, the one whose hash comes last before the chain's. *)

From stdpp Require Import sorting.
From S2P Require Import Prelude LogApi Crypto Codec Secure Meta Time Event Index Signature Tree Compact Plugins LogFile MemDb RedoLog Chain ChainSpec Pipe Dio Mesh.

(** ** The order of the hashes *)

Section order.
Implicit Types (xs ys zs : bytes) (a b c : AteHash).

Lemma leb_refl xs : bytes_leb xs xs = true.
Proof.
  induction xs as [|x xs IH]; [done|]. cbn. rewrite IH.
  rewrite (bool_decide_true (Z_of_byte x = Z_of_byte x)) by done. apply orb_true_r.
Qed.

Lemma leb_cons x xs y ys : bytes_leb (x :: xs) (y :: ys) = true ↔
  Z_of_byte x < Z_of_byte y ∨ (Z_of_byte x = Z_of_byte y ∧ bytes_leb xs ys = true).
Proof. cbn. by rewrite orb_true_iff, andb_true_iff, !bool_decide_eq_true. Qed.

Lemma leb_trans xs ys zs : bytes_leb xs ys = true → bytes_leb ys zs = true → bytes_leb xs zs = true.
Proof.
  revert ys zs. induction xs as [|x xs IH]; intros [|y ys] [|z zs]; try done.
  rewrite !leb_cons. intros [?|[? Hx]] [?|[? Hy]]; [left; lia..|]. right. split; [lia|by eapply IH].
Qed.

Lemma leb_total xs ys : bytes_leb xs ys = true ∨ bytes_leb ys xs = true.
Proof.
  revert ys. induction xs as [|x xs IH]; intros [|y ys]; [by left..|by right|].
  rewrite !leb_cons. destruct (Z.lt_total (Z_of_byte x) (Z_of_byte y)) as [?|[?|?]];
    [by left; left| |by right; left]. destruct (IH ys); [left|right]; by right.
Qed.

Lemma hash_le_trans a b c : MeshHashTable.hash_le a b = true → MeshHashTable.hash_le b c = true →
  MeshHashTable.hash_le a c = true.
Proof. apply leb_trans. Qed.

Lemma hash_le_total a b : MeshHashTable.hash_le a b = true ∨ MeshHashTable.hash_le b a = true.
Proof. apply leb_total. Qed.
End order.

(** ** The table *)

Section table.
Context `{CryptoPrims}.
Implicit Types (t : list (AteHash * nat)) (roots : list MeshAddress) (k h : AteHash) (v : nat).

Definition ordered t : Prop := StronglySorted (λ x y, MeshHashTable.hash_le x.1 y.1 = true) t.

Lemma insert_elem k v t x : x ∈ MeshHashTable.insert k v t → x = (k, v) ∨ x ∈ t.
Proof.
  induction t as [|[k' v'] t IH]; cbn; [set_solver|].
  repeat case_match; rewrite ?elem_of_cons; naive_solver.
Qed.

Lemma insert_keys k v t k0 : k0 ∈ (MeshHashTable.insert k v t).*1 ↔ k0 = k ∨ k0 ∈ t.*1.
Proof.
  induction t as [|[k' v'] t IH]; cbn; [set_solver|].
  case_decide as Hd; [subst; set_solver|]. destruct (MeshHashTable.hash_le k k'); cbn; set_solver.
Qed.

Lemma insert_ordered k v t : ordered t → ordered (MeshHashTable.insert k v t).
Proof.
  unfold ordered. induction 1 as [|[k' v'] t Ht IH Hall]; cbn; [repeat constructor|].
  case_decide as Hd; [subst; by constructor|].
  destruct (MeshHashTable.hash_le k k') eqn:Hle.
  - constructor; [by constructor|]. constructor; [done|].
    eapply Forall_impl; [exact Hall|]. intros x Hx. by apply (hash_le_trans _ k').
  - constructor; [done|]. apply Forall_forall. intros x [->|Hx]%insert_elem.
    + cbn. by destruct (hash_le_total k k'); [congruence|].
    + rewrite Forall_forall in Hall. by apply Hall.
Qed.

(** The entries are those of the servers. *)
Definition lists roots t : Prop :=
  ordered t
  ∧ (∀ k v, (k, v) ∈ t → ∃ a, roots !! v = Some a ∧ k = MeshHashTable.address_hash a)
  ∧ ∀ a, a ∈ roots → MeshHashTable.address_hash a ∈ t.*1.

Lemma number_lists todo : ∀ roots t, lists roots t →
  lists (roots ++ todo) (MeshHashTable.number (length roots) todo t).
Proof.
  induction todo as [|a todo IH]; intros roots t Hl; [by rewrite app_nil_r|].
  cbn [MeshHashTable.number]. rewrite cons_middle, app_assoc.
  replace (S (length roots)) with (length (roots ++ [a])) by (rewrite length_app; cbn; lia).
  apply IH. destruct Hl as (Ho & He & Hk). split; [by apply insert_ordered|]. split.
  - intros k v [[= -> ->]|Hin]%insert_elem.
    + exists a. split; [|done]. by rewrite lookup_app_r, Nat.sub_diag by lia.
    + destruct (He k v Hin) as (b & Hb & ->). exists b. split; [|done]. by apply lookup_app_l_Some.
  - intros b [Hb| ->%list_elem_of_singleton]%elem_of_app; apply insert_keys; [right; by apply Hk|by left].
Qed.

Lemma new_lists roots : lists roots (mh_hash_table (MeshHashTable.new roots)).
Proof.
  apply (number_lists roots [] []). split; [constructor|]. split; [by intros k v ?%elem_of_nil|].
  by intros a ?%elem_of_nil.
Qed.

(** What the search finds in an ordered table. *)
Lemma search_spec h t : ordered t → ∀ pointer,
  match MeshHashTable.search h pointer t with
  | None => pointer = None ∧ t = []
  | Some v =>
      (∃ k, (k, v) ∈ t ∧ MeshHashTable.hash_le k h = true
            ∧ ∀ k', k' ∈ t.*1 → MeshHashTable.hash_le k' h = true → MeshHashTable.hash_le k' k = true)
      ∨ (∀ k', k' ∈ t.*1 → MeshHashTable.hash_le k' h = false)
        ∧ match pointer with
          | Some v' => v' = v
          | None => ∃ k, (k, v) ∈ t ∧ ∀ k', k' ∈ t.*1 → MeshHashTable.hash_le k k' = true
          end
  end.
Proof.
  induction 1 as [|[k v] t Ht IH Hall]; intros pointer; cbn.
  { destruct pointer; [|done]. right. split; [by intros k' ?%elem_of_nil|done]. }
  rewrite Forall_forall in Hall.
  assert (∀ k', k' ∈ t.*1 → MeshHashTable.hash_le k k' = true) as Hmin.
  { intros k' ([k1 v1] & -> & Hin)%list_elem_of_fmap. exact (Hall _ Hin). }
  destruct (MeshHashTable.hash_le k h) eqn:Hk; cbn.
  - specialize (IH (Some v)). destruct (MeshHashTable.search h (Some v) t) as [v'|]; [|by destruct IH].
    left. destruct IH as [(k1 & Hin & Hle & Hmax)|[Hnone ->]].
    + exists k1. split; [by right|]. split; [done|]. intros k' [->|Hk']%elem_of_cons Hle'; [|by apply Hmax].
      apply Hmin, (list_elem_of_fmap_2 fst _ (k1, v')); done.
    + exists k. split; [by left|]. split; [done|]. intros k' [->|Hk']%elem_of_cons Hle'; [apply leb_refl|].
      by rewrite (Hnone k' Hk') in Hle'.
  - assert (∀ k', k' ∈ k :: t.*1 → MeshHashTable.hash_le k' h = false) as Hnone.
    { intros k' [->|Hk']%elem_of_cons; [done|]. apply not_true_iff_false. intros Hle.
      assert (MeshHashTable.hash_le k h = true) by (apply (hash_le_trans _ k'); [by apply Hmin|done]). congruence. }
    destruct pointer as [v'|]; right; (split; [exact Hnone|]); [done|].
    exists k. split; [by left|]. intros k' [->|Hk']%elem_of_cons; [apply leb_refl|by apply Hmin].
Qed.

(** C25. Every chain is on a server.  For a mesh of at least one server, the lookup of a chain
    finds a server and its number; it is the server with the greatest hash that is not above
    the hash of the chain, and the one with the least hash when all are above. *)
Theorem lookup_nearest roots (key : ChainKey) (Hroots : roots ≠ []) :
  ∃ addr i, MeshHashTable.lookup (MeshHashTable.new roots) key = Some (addr, i)
    ∧ roots !! i = Some addr
    ∧ ∀ a, a ∈ roots →
        if MeshHashTable.hash_le (MeshHashTable.address_hash addr) (ChainKey.hash key)
        then MeshHashTable.hash_le (MeshHashTable.address_hash a) (ChainKey.hash key) = true →
             MeshHashTable.hash_le (MeshHashTable.address_hash a) (MeshHashTable.address_hash addr) = true
        else MeshHashTable.hash_le (MeshHashTable.address_hash a) (ChainKey.hash key) = false
             ∧ MeshHashTable.hash_le (MeshHashTable.address_hash addr) (MeshHashTable.address_hash a) = true.
Proof.
  destruct (new_lists roots) as (Ho & He & Hk).
  pose proof (search_spec (ChainKey.hash key) _ Ho None) as Hs. unfold MeshHashTable.lookup.
  destruct (MeshHashTable.search _ None _) as [v|].
  2: { destruct Hs as [_ Hnil]. destruct roots as [|r roots]; [done|].
       specialize (Hk r ltac:(by left)). rewrite Hnil in Hk. by apply elem_of_nil in Hk. }
  assert (∀ k, (k, v) ∈ mh_hash_table (MeshHashTable.new roots) → ∃ a, roots !! v = Some a
    ∧ k = MeshHashTable.address_hash a
    ∧ (λ addr, (addr, (v mod length roots)%nat)) <$> (roots !! (v mod length roots)%nat) = Some (a, v))
    as Hfound.
  { intros k (a & Ha & ->)%He. exists a. split; [done|]. split; [done|].
    rewrite Nat.mod_small by by eapply lookup_lt_Some. by rewrite Ha. }
  cbn [MeshHashTable.new mh_address_lookup].
  destruct Hs as [(k & Hin & Hle & Hmax)|(Hnone & k & Hin & Hmin)];
    destruct (Hfound k Hin) as (a & Ha & -> & ->); exists a, v; (split; [done|]); (split; [done|]);
    intros b Hb; specialize (Hk b Hb).
  - rewrite Hle. by apply Hmax.
  - rewrite (Hnone (MeshHashTable.address_hash a)) by (by apply (list_elem_of_fmap_2 fst _ (_, v))).
    split; [by apply Hnone|by apply Hmin].
Qed.

(** A server that is not told its number takes itself for the first: it looks its addresses up
    among its addresses. *)
Lemma compute_node_id_first r roots :
  MeshHashTable.compute_node_id (MeshHashTable.new (r :: roots)) None = Some 0%nat.
Proof.
  cbn. unfold MeshHashTable.derive_id. cbn. unfold MeshHashTable.matches.
  destruct (IpAddr.is_loopback (ma_host r)) eqn:El; cbn.
  - by rewrite bool_decide_true.
  - by rewrite bool_decide_true.
Qed.

(** A key that is given another name is looked up by the hash of the old one, until it is sent. *)
Lemma renamed_key_hash (key : ChainKey) name : ck_hash key ≠ None →
  ChainKey.hash (ChainKey.with_name key name) = ChainKey.hash key
  ∧ ChainKey.hash (ChainKey.reread (ChainKey.with_name key name)) = AteHash.from_bytes (str_bytes name).
Proof. destruct key as [n [h|]]; done. Qed.
End table.

#[local] Existing Instance toy_prims.

Lemma lookup_nearest_witness :
  ∃ addr i, MeshHashTable.lookup (MeshHashTable.new
      [{| ma_host := V4 [x7f; x00; x00; x01]; ma_port := 5000 |};
       {| ma_host := V4 [x0a; x00; x00; x02]; ma_port := 5000 |}]) (ChainKey.new "sample")
    = Some (addr, i) ∧ (i < 2)%nat.
Proof.
  destruct (lookup_nearest [{| ma_host := V4 [x7f; x00; x00; x01]; ma_port := 5000 |};
    {| ma_host := V4 [x0a; x00; x00; x02]; ma_port := 5000 |}] (ChainKey.new "sample") ltac:(done))
    as (addr & i & E & Hi & _).
  exists addr, i. split; [exact E|]. exact (lookup_lt_Some _ _ _ Hi).
Defined.
