(* ===== verification/Session.v ===== *)
(** * Sessions

    lib/src/session: what a user brings along to read and write a chain.  A session of a user
    may be raised to a sudo session and put under a group; each has roles, and a role the
    properties that hold its keys and numbers.  [SessionApi] is the trait [AteSession].  What
    the plugins of a chain see of a session is the record [AteSession] of Signature.v;
    [as_session] gives it. *)

From S2P Require Import Prelude LogApi Crypto Codec Secure Meta Time Event Index Signature Tree.

(** ** Roles *)

Inductive AteRolePurpose : Type :=
  | Owner | Personal | Delegate | Contributor | Observer | Finance | WebServer | EdgeCompute
  | OtherPurpose (name : string).

#[global] Instance AteRolePurpose_eq_dec : EqDecision AteRolePurpose.
Proof. solve_decision. Defined.

Module AteRolePurpose.
(** [Display]. *)
Definition fmt (p : AteRolePurpose) : string :=
  match p with
  | Owner => "owner" | Personal => "personal" | Delegate => "delegate"
  | Contributor => "contributor" | Observer => "observer" | Finance => "finance"
  | WebServer => "www" | EdgeCompute => "edge" | OtherPurpose a => "other-" +:+ a
  end.

Definition from_str (s : string) : option AteRolePurpose :=
  if decide (s = "owner") then Some Owner
  else if decide (s = "personal") then Some Personal
  else if decide (s = "delegate") then Some Delegate
  else if decide (s = "contributor") then Some Contributor
  else if decide (s = "observer") then Some Observer
  else if decide (s = "finance") then Some Finance
  else if decide (s = "www") then Some WebServer
  else if decide (s = "edge") then Some EdgeCompute
  else if String.prefix "other-" s && bool_decide (6 < String.length s)%nat
  then Some (OtherPurpose (String.substring 6 (String.length s - 6) s))
  else None.
End AteRolePurpose.

Inductive AteSessionProperty : Type :=
  | PropNone
  | ReadKey (k : EncryptKey)
  | PrivateReadKey (k : PrivateEncryptKey)
  | PublicReadKey (k : PublicEncryptKey)
  | WriteKey (k : PrivateSignKey)
  | Uid (v : Z)
  | Gid (v : Z).

Module AteSessionProperty.
Definition read_key (p : AteSessionProperty) : option EncryptKey :=
  match p with ReadKey k => Some k | _ => None end.
Definition write_key (p : AteSessionProperty) : option PrivateSignKey :=
  match p with WriteKey k => Some k | _ => None end.
Definition public_read_key (p : AteSessionProperty) : option PublicEncryptKey :=
  match p with PublicReadKey k => Some k | _ => None end.
Definition private_read_key (p : AteSessionProperty) : option PrivateEncryptKey :=
  match p with PrivateReadKey k => Some k | _ => None end.
Definition uid_of (p : AteSessionProperty) : option Z :=
  match p with Uid v => Some v | _ => None end.
Definition gid_of (p : AteSessionProperty) : option Z :=
  match p with Gid v => Some v | _ => None end.
End AteSessionProperty.
Import AteSessionProperty.

Record AteGroupRole : Type := {
  gr_purpose : AteRolePurpose;
  gr_properties : list AteSessionProperty;
}.

Module AteGroupRole.
Implicit Types r : AteGroupRole.

Definition push (p : AteSessionProperty) r : AteGroupRole :=
  {| gr_purpose := gr_purpose r; gr_properties := gr_properties r ++ [p] |}.

Definition add_read_key (key : EncryptKey) r : AteGroupRole := push (ReadKey key) r.
Definition add_private_read_key (key : PrivateEncryptKey) r : AteGroupRole :=
  push (PrivateReadKey key) r.
Definition add_write_key (key : PrivateSignKey) r : AteGroupRole := push (WriteKey key) r.
Definition add_uid (uid : Z) r : AteGroupRole := push (Uid uid) r.
Definition add_gid (gid : Z) r : AteGroupRole := push (Gid gid) r.

Definition retain (keep : AteSessionProperty → bool) r : AteGroupRole :=
  {| gr_purpose := gr_purpose r; gr_properties := List.filter keep (gr_properties r) |}.

Definition clear_read_keys r : AteGroupRole :=
  retain (λ p, match p with ReadKey _ => false | _ => true end) r.
Definition clear_private_read_keys r : AteGroupRole :=
  retain (λ p, match p with PrivateReadKey _ => false | _ => true end) r.
Definition clear_write_keys r : AteGroupRole :=
  retain (λ p, match p with WriteKey _ => false | _ => true end) r.

Definition read_keys r : list EncryptKey := omap read_key (gr_properties r).
Definition write_keys r : list PrivateSignKey := omap write_key (gr_properties r).
Definition public_read_keys r : list PublicEncryptKey := omap public_read_key (gr_properties r).
Definition private_read_keys r : list PrivateEncryptKey := omap private_read_key (gr_properties r).
Definition uid r : option Z := find_map uid_of (gr_properties r).
Definition gid r : option Z := find_map gid_of (gr_properties r).
End AteGroupRole.

Record AteGroup : Type := {
  ag_name : string;
  ag_roles : list AteGroupRole;
  ag_broker_read : option PrivateEncryptKey;
  ag_broker_write : option PrivateSignKey;
}.

Module AteGroup.
Implicit Types (g : AteGroup) (purpose : AteRolePurpose).

Definition has_purpose purpose (r : AteGroupRole) : bool := bool_decide (gr_purpose r = purpose).

Definition get_role purpose g : option AteGroupRole :=
  head (List.filter (has_purpose purpose) (ag_roles g)).

(** The role is changed where it is first found; it is added before when it is missing. *)
Fixpoint alter_first purpose (f : AteGroupRole → AteGroupRole) (roles : list AteGroupRole)
    : list AteGroupRole :=
  match roles with
  | [] => []
  | r :: roles => if has_purpose purpose r then f r :: roles else r :: alter_first purpose f roles
  end.

Definition with_role purpose (f : AteGroupRole → AteGroupRole) g : AteGroup :=
  let roles := if existsb (has_purpose purpose) (ag_roles g) then ag_roles g
               else ag_roles g ++ [{| gr_purpose := purpose; gr_properties := [] |}] in
  {| ag_name := ag_name g; ag_roles := alter_first purpose f roles;
     ag_broker_read := ag_broker_read g; ag_broker_write := ag_broker_write g |}.

Definition get_or_create_role purpose g : AteGroup := with_role purpose id g.

Definition add_read_key purpose (key : EncryptKey) g : AteGroup :=
  with_role purpose (AteGroupRole.add_read_key key) g.
Definition add_private_read_key purpose (key : PrivateEncryptKey) g : AteGroup :=
  with_role purpose (AteGroupRole.add_private_read_key key) g.
Definition add_write_key purpose (key : PrivateSignKey) g : AteGroup :=
  with_role purpose (AteGroupRole.add_write_key key) g.

Definition properties g : list AteSessionProperty := ag_roles g ≫= gr_properties.

Definition read_keys g : list EncryptKey := omap read_key (properties g).
Definition write_keys g : list PrivateSignKey := omap write_key (properties g).
Definition public_read_keys g : list PublicEncryptKey := omap public_read_key (properties g).
Definition private_read_keys g : list PrivateEncryptKey := omap private_read_key (properties g).
End AteGroup.

(** ** Sessions *)

Record AteSessionUser : Type := {
  su_user : AteGroupRole;
  su_token : option EncryptedSecureData;
  su_identity : string;
  su_broker_read : option PrivateEncryptKey;
  su_broker_write : option PrivateSignKey;
}.

Record AteSessionSudo : Type := { sd_inner : AteSessionUser; sd_sudo : AteGroupRole }.

Inductive AteSessionInner : Type :=
  | InnerUser (s : AteSessionUser)
  | InnerSudo (s : AteSessionSudo)
  | InnerNothing.

Record AteSessionGroup : Type := { sg_inner : AteSessionInner; sg_group : AteGroup }.

Inductive AteSessionType : Type :=
  | SessionUser (s : AteSessionUser)
  | SessionSudo (s : AteSessionSudo)
  | SessionGroup (s : AteSessionGroup)
  | SessionNothing.

Inductive AteSessionKeyCategory : Type :=
  | UpperKeys | UserKeys | SudoKeys | GroupKeys | BrokerKeys | NonGroupKeys | AllKeys.

Module AteSessionKeyCategory.
Definition includes_user_keys (c : AteSessionKeyCategory) : bool :=
  match c with UserKeys | NonGroupKeys | AllKeys => true | _ => false end.
Definition includes_sudo_keys (c : AteSessionKeyCategory) : bool :=
  match c with SudoKeys | NonGroupKeys | AllKeys => true | _ => false end.
Definition includes_group_keys (c : AteSessionKeyCategory) : bool :=
  match c with GroupKeys | AllKeys => true | _ => false end.
Definition includes_broker_keys (c : AteSessionKeyCategory) : bool :=
  match c with BrokerKeys | AllKeys => true | _ => false end.
End AteSessionKeyCategory.
Import AteSessionKeyCategory.

(** [filter(|_| b)]. *)
Definition only {A} (b : bool) (l : list A) : list A := if b then l else [].

(** The trait [AteSession]. *)
Class SessionApi (S : Type) : Type := {
  se_role : AteRolePurpose → S → option AteGroupRole;
  se_read_keys : AteSessionKeyCategory → S → list EncryptKey;
  se_write_keys : AteSessionKeyCategory → S → list PrivateSignKey;
  se_public_read_keys : AteSessionKeyCategory → S → list PublicEncryptKey;
  se_private_read_keys : AteSessionKeyCategory → S → list PrivateEncryptKey;
  se_broker_read : S → option PrivateEncryptKey;
  se_broker_write : S → option PrivateSignKey;
  se_identity : S → string;
  se_user : S → AteSessionUser;
  se_uid : S → option Z;
  se_gid : S → option Z;
  se_properties : S → list AteSessionProperty;
  se_append : list AteSessionProperty → S → S;
  se_clone_inner : S → AteSessionInner;
}.

(** *** Of a user *)

Module AteSessionUser.
Implicit Types (s : AteSessionUser) (c : AteSessionKeyCategory).

Definition new : AteSessionUser :=
  {| su_user := {| gr_purpose := Personal; gr_properties := [] |}; su_token := None;
     su_identity := "nobody@nowhere.com"; su_broker_read := None; su_broker_write := None |}.

Definition with_user s (r : AteGroupRole) : AteSessionUser :=
  {| su_user := r; su_token := su_token s; su_identity := su_identity s;
     su_broker_read := su_broker_read s; su_broker_write := su_broker_write s |}.

Definition add_user_read_key (key : EncryptKey) s : AteSessionUser :=
  with_user s (AteGroupRole.add_read_key key (su_user s)).
Definition add_user_private_read_key (key : PrivateEncryptKey) s : AteSessionUser :=
  with_user s (AteGroupRole.add_private_read_key key (su_user s)).
Definition add_user_write_key (key : PrivateSignKey) s : AteSessionUser :=
  with_user s (AteGroupRole.add_write_key key (su_user s)).
Definition add_user_uid (uid : Z) s : AteSessionUser :=
  with_user s (AteGroupRole.add_uid uid (su_user s)).

Definition read_keys c s : list EncryptKey :=
  match c with
  | UpperKeys => AteGroupRole.read_keys (su_user s)
  | c => only (includes_user_keys c) (AteGroupRole.read_keys (su_user s))
  end.

Definition write_keys c s : list PrivateSignKey :=
  match c with
  | UpperKeys => AteGroupRole.write_keys (su_user s)
  | c => only (includes_user_keys c) (AteGroupRole.write_keys (su_user s))
         ++ only (includes_broker_keys c) (option_list (su_broker_write s))
  end.

Definition public_read_keys c s : list PublicEncryptKey :=
  match c with
  | UpperKeys => AteGroupRole.public_read_keys (su_user s)
  | c => only (includes_user_keys c) (AteGroupRole.public_read_keys (su_user s))
         ++ only (includes_broker_keys c)
              (PrivateEncryptKey.as_public_key <$> option_list (su_broker_read s))
  end.

Definition private_read_keys c s : list PrivateEncryptKey :=
  match c with
  | UpperKeys => AteGroupRole.private_read_keys (su_user s)
  | c => only (includes_user_keys c) (AteGroupRole.private_read_keys (su_user s))
         ++ only (includes_broker_keys c) (option_list (su_broker_read s))
  end.

Definition uid s : option Z := AteGroupRole.uid (su_user s).

Definition gid s : option Z :=
  match AteGroupRole.gid (su_user s) with Some gid => Some gid | None => uid s end.

Definition append (properties : list AteSessionProperty) s : AteSessionUser :=
  with_user s {| gr_purpose := gr_purpose (su_user s);
                 gr_properties := gr_properties (su_user s) ++ properties |}.

#[global] Instance api : SessionApi AteSessionUser := {
  se_role _ _ := None;
  se_read_keys := read_keys;
  se_write_keys := write_keys;
  se_public_read_keys := public_read_keys;
  se_private_read_keys := private_read_keys;
  se_broker_read := su_broker_read;
  se_broker_write := su_broker_write;
  se_identity := su_identity;
  se_user s := s;
  se_uid := uid;
  se_gid := gid;
  se_properties s := gr_properties (su_user s);
  se_append := append;
  se_clone_inner := InnerUser;
}.
End AteSessionUser.

(** *** With sudo *)

Module AteSessionSudo.
Implicit Types (s : AteSessionSudo) (c : AteSessionKeyCategory).

Definition new : AteSessionSudo :=
  {| sd_inner := AteSessionUser.new; sd_sudo := {| gr_purpose := Owner; gr_properties := [] |} |}.

Definition with_sudo s (r : AteGroupRole) : AteSessionSudo :=
  {| sd_inner := sd_inner s; sd_sudo := r |}.

Definition add_sudo_read_key (key : EncryptKey) s : AteSessionSudo :=
  with_sudo s (AteGroupRole.add_read_key key (sd_sudo s)).
Definition add_sudo_private_read_key (key : PrivateEncryptKey) s : AteSessionSudo :=
  with_sudo s (AteGroupRole.add_private_read_key key (sd_sudo s)).
Definition add_sudo_write_key (key : PrivateSignKey) s : AteSessionSudo :=
  with_sudo s (AteGroupRole.add_write_key key (sd_sudo s)).

Definition read_keys c s : list EncryptKey :=
  match c with
  | UpperKeys => AteGroupRole.read_keys (sd_sudo s)
  | c => se_read_keys c (sd_inner s) ++ only (includes_sudo_keys c) (AteGroupRole.read_keys (sd_sudo s))
  end.

(** The inner session lists the keys of the broker as well. *)
Definition write_keys c s : list PrivateSignKey :=
  match c with
  | UpperKeys => AteGroupRole.write_keys (sd_sudo s)
  | c => se_write_keys c (sd_inner s)
         ++ only (includes_sudo_keys c) (AteGroupRole.write_keys (sd_sudo s))
         ++ only (includes_broker_keys c) (option_list (se_broker_write (sd_inner s)))
  end.

Definition public_read_keys c s : list PublicEncryptKey :=
  match c with
  | UpperKeys => AteGroupRole.public_read_keys (sd_sudo s)
  | c => se_public_read_keys c (sd_inner s)
         ++ only (includes_sudo_keys c) (AteGroupRole.public_read_keys (sd_sudo s))
         ++ only (includes_broker_keys c)
              (PrivateEncryptKey.as_public_key <$> option_list (se_broker_read (sd_inner s)))
  end.

Definition private_read_keys c s : list PrivateEncryptKey :=
  match c with
  | UpperKeys => AteGroupRole.private_read_keys (sd_sudo s)
  | c => se_private_read_keys c (sd_inner s)
         ++ only (includes_sudo_keys c) (AteGroupRole.private_read_keys (sd_sudo s))
         ++ only (includes_broker_keys c) (option_list (se_broker_read (sd_inner s)))
  end.

Definition append (properties : list AteSessionProperty) s : AteSessionSudo :=
  {| sd_inner := se_append properties (sd_inner s); sd_sudo := sd_sudo s |}.

#[global] Instance api : SessionApi AteSessionSudo := {
  se_role _ _ := None;
  se_read_keys := read_keys;
  se_write_keys := write_keys;
  se_public_read_keys := public_read_keys;
  se_private_read_keys := private_read_keys;
  se_broker_read s := se_broker_read (sd_inner s);
  se_broker_write s := se_broker_write (sd_inner s);
  se_identity s := su_identity (sd_inner s);
  se_user s := se_user (sd_inner s);
  se_uid s := se_uid (sd_inner s);
  se_gid s := se_gid (sd_inner s);
  se_properties s := se_properties (sd_inner s) ++ gr_properties (sd_sudo s);
  se_append := append;
  se_clone_inner := InnerSudo;
}.
End AteSessionSudo.

(** *** Either of them, or nobody *)

Module AteSessionInner.
Implicit Types s : AteSessionInner.

(** What the session of a user or of sudo gives, and [none] without one. *)
Definition visit {A} (none : A) (f : ∀ S, SessionApi S → S → A) s : A :=
  match s with
  | InnerUser u => f AteSessionUser _ u
  | InnerSudo u => f AteSessionSudo _ u
  | InnerNothing => none
  end.

Definition append (properties : list AteSessionProperty) s : AteSessionInner :=
  match s with
  | InnerUser u => InnerUser (se_append properties u)
  | InnerSudo u => InnerSudo (se_append properties u)
  | InnerNothing => InnerNothing
  end.

#[global] Instance api : SessionApi AteSessionInner := {
  se_role p := visit None (λ S _, se_role p);
  se_read_keys c := visit [] (λ S _, se_read_keys c);
  se_write_keys c := visit [] (λ S _, se_write_keys c);
  se_public_read_keys c := visit [] (λ S _, se_public_read_keys c);
  se_private_read_keys c := visit [] (λ S _, se_private_read_keys c);
  se_broker_read := visit None (λ S _, se_broker_read);
  se_broker_write := visit None (λ S _, se_broker_write);
  se_identity := visit "nothing" (λ S _, se_identity);
  se_user := visit AteSessionUser.new (λ S _, se_user);
  se_uid := visit None (λ S _, se_uid);
  se_gid _ := None;
  se_properties := visit [] (λ S _, se_properties);
  se_append := append;
  se_clone_inner s := s;
}.
End AteSessionInner.

(** *** Under a group *)

Module AteSessionGroup.
Implicit Types (s : AteSessionGroup) (c : AteSessionKeyCategory) (purpose : AteRolePurpose).

Definition new (inner : AteSessionInner) (group : string) : AteSessionGroup :=
  {| sg_inner := inner;
     sg_group := {| ag_name := group; ag_roles := []; ag_broker_read := None;
                    ag_broker_write := None |} |}.

Definition with_group s (g : AteGroup) : AteSessionGroup :=
  {| sg_inner := sg_inner s; sg_group := g |}.

Definition get_group_role purpose s : option AteGroupRole := AteGroup.get_role purpose (sg_group s).

Definition get_or_create_group_role purpose s : AteSessionGroup :=
  with_group s (AteGroup.get_or_create_role purpose (sg_group s)).

Definition add_group_read_key purpose (key : EncryptKey) s : AteSessionGroup :=
  with_group s (AteGroup.with_role purpose (AteGroupRole.add_read_key key) (sg_group s)).
Definition add_group_private_read_key purpose (key : PrivateEncryptKey) s : AteSessionGroup :=
  with_group s (AteGroup.with_role purpose (AteGroupRole.add_private_read_key key) (sg_group s)).
Definition add_group_write_key purpose (key : PrivateSignKey) s : AteSessionGroup :=
  with_group s (AteGroup.with_role purpose (AteGroupRole.add_write_key key) (sg_group s)).
Definition add_group_gid purpose (gid : Z) s : AteSessionGroup :=
  with_group s (AteGroup.with_role purpose (AteGroupRole.add_gid gid) (sg_group s)).

Definition read_keys c s : list EncryptKey :=
  let group := ag_roles (sg_group s) ≫= AteGroupRole.read_keys in
  match c with
  | UpperKeys => group
  | c => se_read_keys c (sg_inner s) ++ only (includes_group_keys c) group
  end.

Definition write_keys c s : list PrivateSignKey :=
  let group := ag_roles (sg_group s) ≫= AteGroupRole.write_keys in
  match c with
  | UpperKeys => group
  | c => se_write_keys c (sg_inner s) ++ only (includes_group_keys c) group
         ++ only (includes_broker_keys c) (option_list (ag_broker_write (sg_group s)))
  end.

Definition public_read_keys c s : list PublicEncryptKey :=
  let group := ag_roles (sg_group s) ≫= AteGroupRole.public_read_keys in
  match c with
  | UpperKeys => group
  | c => se_public_read_keys c (sg_inner s) ++ only (includes_group_keys c) group
         ++ only (includes_broker_keys c)
              (PrivateEncryptKey.as_public_key <$> option_list (ag_broker_read (sg_group s)))
  end.

Definition private_read_keys c s : list PrivateEncryptKey :=
  let group := ag_roles (sg_group s) ≫= AteGroupRole.private_read_keys in
  match c with
  | UpperKeys => group
  | c => se_private_read_keys c (sg_inner s) ++ only (includes_group_keys c) group
         ++ only (includes_broker_keys c) (option_list (ag_broker_read (sg_group s)))
  end.

Definition gid s : option Z :=
  match find_map AteGroupRole.gid (ag_roles (sg_group s)) with
  | Some gid => Some gid
  | None => se_gid (sg_inner s)
  end.

Definition append (properties : list AteSessionProperty) s : AteSessionGroup :=
  {| sg_inner := se_append properties (sg_inner s); sg_group := sg_group s |}.

#[global] Instance api : SessionApi AteSessionGroup := {
  se_role := get_group_role;
  se_read_keys := read_keys;
  se_write_keys := write_keys;
  se_public_read_keys := public_read_keys;
  se_private_read_keys := private_read_keys;
  se_broker_read s := ag_broker_read (sg_group s);
  se_broker_write s := ag_broker_write (sg_group s);
  se_identity s := ag_name (sg_group s);
  se_user s := se_user (sg_inner s);
  se_uid s := se_uid (sg_inner s);
  se_gid := gid;
  se_properties s := se_properties (sg_inner s) ++ (ag_roles (sg_group s) ≫= gr_properties);
  se_append := append;
  se_clone_inner := sg_inner;
}.
End AteSessionGroup.

(** *** Any *)

Module AteSessionType.
Implicit Types s : AteSessionType.

Definition visit {A} (none : A) (f : ∀ S, SessionApi S → S → A) s : A :=
  match s with
  | SessionUser u => f AteSessionUser _ u
  | SessionSudo u => f AteSessionSudo _ u
  | SessionGroup u => f AteSessionGroup _ u
  | SessionNothing => none
  end.

Definition append (properties : list AteSessionProperty) s : AteSessionType :=
  match s with
  | SessionUser u => SessionUser (se_append properties u)
  | SessionSudo u => SessionSudo (se_append properties u)
  | SessionGroup u => SessionGroup (se_append properties u)
  | SessionNothing => SessionNothing
  end.

#[global] Instance api : SessionApi AteSessionType := {
  se_role p := visit None (λ S _, se_role p);
  se_read_keys c := visit [] (λ S _, se_read_keys c);
  se_write_keys c := visit [] (λ S _, se_write_keys c);
  se_public_read_keys c := visit [] (λ S _, se_public_read_keys c);
  se_private_read_keys c := visit [] (λ S _, se_private_read_keys c);
  se_broker_read := visit None (λ S _, se_broker_read);
  se_broker_write := visit None (λ S _, se_broker_write);
  se_identity := visit "nothing" (λ S _, se_identity);
  se_user := visit AteSessionUser.new (λ S _, se_user);
  se_uid := visit None (λ S _, se_uid);
  se_gid := visit None (λ S _, se_gid);
  se_properties := visit [] (λ S _, se_properties);
  se_append := append;
  se_clone_inner := visit InnerNothing (λ S _, se_clone_inner);
}.

(** [From<AteSessionInner>]. *)
Definition from_inner (s : AteSessionInner) : AteSessionType :=
  match s with
  | InnerUser u => SessionUser u
  | InnerSudo u => SessionSudo u
  | InnerNothing => SessionNothing
  end.
End AteSessionType.

(** The session as the plugins of a chain see it. *)
Definition as_session (s : AteSessionType) : AteSession :=
  {| ss_identity := se_identity s;
     ss_write_keys := se_write_keys AllKeys s;
     ss_read_keys := se_read_keys AllKeys s;
     ss_private_read_keys := se_private_read_keys AllKeys s |}.

(** ** What a session holds *)

(** The purpose of a role survives being printed and parsed, but for an empty other one. *)
Theorem purpose_round_trip p (Hp : p ≠ OtherPurpose EmptyString) :
  AteRolePurpose.from_str (AteRolePurpose.fmt p) = Some p.
Proof.
  destruct p as [| | | | | | | |name]; try reflexivity.
  destruct name as [|a name]; [done|]. unfold AteRolePurpose.from_str, AteRolePurpose.fmt.
  let t := eval cbv [String.append] in ("other-" +:+ String a name) in
    change ("other-" +:+ String a name) with t.
  do 8 (rewrite decide_False by (cbn; intros [=])).
  assert (∀ t, String.substring 0 (String.length t) t = t) as Hall.
  { induction t as [|b t IH]; [done|]. cbn. by rewrite IH. }
  rewrite bool_decide_true by (cbn; lia). cbn. by rewrite Hall.
Qed.

Lemma omap_bind {A B C} (f : B → option C) (g : A → list B) (l : list A) :
  omap f (l ≫= g) = l ≫= (λ x, omap f (g x)).
Proof. induction l as [|x l IH]; [done|]. cbn. by rewrite omap_app, IH. Qed.

(** The brokers of a session and of what is under it. *)
Definition broker_writes (s : AteSessionType) : list PrivateSignKey :=
  option_list (se_broker_write s) ++ option_list (se_broker_write (se_clone_inner s)).

Definition broker_reads (s : AteSessionType) : list PrivateEncryptKey :=
  option_list (se_broker_read s) ++ option_list (se_broker_read (se_clone_inner s)).

Ltac session_cases s := destruct s as [u|u|[[u|u|] g]|].

Ltac session_keys :=
  cbn; unfold AteSessionUser.read_keys, AteSessionSudo.read_keys, AteSessionGroup.read_keys,
    AteSessionUser.write_keys, AteSessionSudo.write_keys, AteSessionGroup.write_keys,
    AteSessionUser.private_read_keys, AteSessionSudo.private_read_keys,
    AteSessionGroup.private_read_keys, AteGroupRole.read_keys, AteGroupRole.write_keys,
    AteGroupRole.private_read_keys; cbn; rewrite ?omap_app, ?omap_bind.

(** A session holds the keys of its properties.  Asked for all keys it gives the read keys
    of its properties, in their order, and the write keys and private read keys of its
    properties and of its brokers; and what any other category gives is among them. *)
Theorem session_keys (s : AteSessionType) (c : AteSessionKeyCategory) :
  se_read_keys AllKeys s = omap read_key (se_properties s)
  ∧ (∀ k, k ∈ se_write_keys AllKeys s ↔ k ∈ omap write_key (se_properties s) ++ broker_writes s)
  ∧ (∀ k, k ∈ se_private_read_keys AllKeys s
          ↔ k ∈ omap private_read_key (se_properties s) ++ broker_reads s)
  ∧ se_read_keys c s ⊆ se_read_keys AllKeys s
  ∧ se_write_keys c s ⊆ se_write_keys AllKeys s
  ∧ se_private_read_keys c s ⊆ se_private_read_keys AllKeys s.
Proof.
  unfold broker_writes, broker_reads.
  split; [session_cases s; by session_keys|].
  do 2 (split; [intros k; session_cases s; session_keys; set_solver|]).
  destruct c; (split; [session_cases s; session_keys; set_solver|]);
    (split; session_cases s; session_keys; set_solver).
Qed.
