(* ===== verification/Trans.v ===== *)
(** * Transactions as their clients see them

    What wasmer-dfs (files/src) uses of lib/src/dio: reading through a [Dio], and changing
    records within the transactions ([DioMut]) begun on it.  [Trans] has the operations;
    [DioTrans] is the data layer itself, and [MemTrans] a plain store of records. *)

From S2P Require Import Prelude LogApi Crypto Codec Secure Meta Time Event Index Signature Tree Compact Plugins LogFile MemDb RedoLog Chain ChainSpec Pipe Dio.

(** ** The operations *)

(** [B] is what lies under the transactions (the chain and the reader's cache), [T] is one
    transaction. *)
Class Trans (B T : Type) : Type := {
  tr_begin : TransactionScope → T;
  tr_random : B → Z * B;
  tr_load_ro D `{DataSerializer D} : PrimaryKey → st B DioLoadErrorKind (RowHeader * Row D);
  tr_load D `{DataSerializer D} : PrimaryKey → st (B * T) DioLoadErrorKind (DaoMut D);
  tr_store D `{DataSerializer D} : option PrimaryKey → D → st (B * T) RowErrorKind (DaoMut D);
  tr_as_mut D `{DataSerializer D} : DaoMut D → B * T → B * T;
  tr_save D `{DataSerializer D} : bool → bool → DaoMut D → st (B * T) RowErrorKind unit;
  tr_delete : PrimaryKey → st (B * T) RowErrorKind unit;
  tr_dao_delete D `{DataSerializer D} : DaoMut D → st (B * T) RowErrorKind unit;
  tr_exists : PrimaryKey → B * T → bool;
  tr_children_ro D `{DataSerializer D} : PrimaryKey → Z → bool → bool →
    st B DioLoadErrorKind (list (RowHeader * Row D));
  tr_children D `{DataSerializer D} : PrimaryKey → Z → bool → bool →
    st (B * T) DioLoadErrorKind (list (DaoMut D));
  tr_commit : st (B * T) DioCommitErrorKind unit;
  tr_flush : st B IoErrorKind unit;
  tr_sync : st B DioCommitErrorKind unit;
  tr_disable_new_roots : B → B;
}.
Arguments tr_load_ro {B T _} D {_} key.
Arguments tr_load {B T _} D {_} key.
Arguments tr_store {B T _ D _} key data.
Arguments tr_as_mut {B T _ D _} dao s.
Arguments tr_save {B T _ D _} header_changed data_changed dao.
Arguments tr_dao_delete {B T _ D _} dao.
Arguments tr_children_ro {B T _} D {_} parent_id collection_id allow_missing allow_errors.
Arguments tr_children {B T _} D {_} parent_id collection_id allow_missing allow_errors.

Section clients.
Context {B T : Type} `{!Trans B T} {D : Type} `{!DataSerializer D}.

(** Changing a record through [as_mut]; the guard commits when it is dropped. *)
Definition tr_modify (f : D → D) (dao : DaoMut D) : st (B * T) RowErrorKind (DaoMut D) :=
  st_mk (λ s,
    let dao' := DaoMut.with_data dao (f (row_data (dao_row dao))) in
    (_ ← tr_save false true dao'; mret dao') (tr_as_mut dao s)).

Definition tr_set_parent (parent : option MetaParent) (dao : DaoMut D)
    : st (B * T) RowErrorKind (DaoMut D) :=
  let dao := DaoMut.with_header dao
    {| rwh_key := rwh_key (dao_header dao); rwh_parent := parent;
       rwh_auth := rwh_auth (dao_header dao) |} in
  _ ← tr_save true false dao; mret dao.

Definition tr_attach_ext (parent : PrimaryKey) (collection_id : Z) (dao : DaoMut D)
    : st (B * T) RowErrorKind (DaoMut D) :=
  tr_set_parent
    (Some {| mp_vec := {| mc_parent_id := parent; mc_collection_id := collection_id |} |}) dao.

Definition tr_auth_set (auth : MetaAuthorization) (dao : DaoMut D)
    : st (B * T) RowErrorKind (DaoMut D) :=
  let dao := DaoMut.with_header dao
    {| rwh_key := rwh_key (dao_header dao); rwh_parent := rwh_parent (dao_header dao);
       rwh_auth := auth |} in
  _ ← tr_save true false dao; mret dao.
End clients.

(** ** The data layer *)

Section dio.
Context {W L : Type} `{CryptoPrims} `{KemPrims} `{MetaSerializer} `{SnapFrames} `{!LogFile W L}.
Variable pipe : EventPipe (Node W L).
Variable order : gset PrimaryKey → list PrimaryKey.
Variable capacity : nat.
(** The random numbers, and the clock and the nonces of every commit. *)
Variable random : nat → Z.
Variable clock : nat → nat → option Z.
Variable rnds : nat → nat → nat → bytes.

Record DioStore : Type := { sto_node : Node W L; sto_dio : Dio; sto_drawn : nat }.
Record DioTx : Type := { tx_scope : TransactionScope; tx_state : DioMutState }.

Definition on_dio {E A} (f : st (Node W L * Dio) E A) : st DioStore E A :=
  st_mk (λ b,
    let '(r, (n, d)) := f (sto_node b, sto_dio b) in
    (r, {| sto_node := n; sto_dio := d; sto_drawn := sto_drawn b |})).

Definition on_dio_mut {E A} (f : st (Node W L * Dio * DioMutState) E A)
    : st (DioStore * DioTx) E A :=
  st_mk (λ '(b, t),
    let '(r, (n, d, m)) := f (sto_node b, sto_dio b, tx_state t) in
    (r, ({| sto_node := n; sto_dio := d; sto_drawn := sto_drawn b |},
         {| tx_scope := tx_scope t; tx_state := m |}))).

Definition on_state {E A} (f : st DioMutState E A) : st (DioStore * DioTx) E A :=
  st_mk (λ '(b, t),
    let '(r, m) := f (tx_state t) in (r, (b, {| tx_scope := tx_scope t; tx_state := m |}))).

Definition draw (b : DioStore) : Z * DioStore :=
  (random (sto_drawn b),
   {| sto_node := sto_node b; sto_dio := sto_dio b; sto_drawn := S (sto_drawn b) |}).

(** The task that runs [run_decache] has received what a commit announces before the client
    goes on. *)
Definition decached (b : DioStore) : DioStore :=
  {| sto_node := sto_node b; sto_dio := Dio.run_decache capacity (sto_node b) (sto_dio b);
     sto_drawn := S (sto_drawn b) |}.

Definition on_node {E A} (f : st (Node W L) E A) : st DioStore E A :=
  st_mk (λ b,
    let '(r, n) := f (sto_node b) in
    (r, {| sto_node := n; sto_dio := sto_dio b; sto_drawn := sto_drawn b |})).

(** [Chain::flush]; the log has the errors of the file only. *)
Definition flush : st DioStore IoErrorKind unit :=
  st_map_err (λ e, match e with IO k => k | _ => Other end)
    (on_node (InboxPipe.on_async (ChainProtectedAsync.on_chain ChainOfTrust.flush))).

(** [Chain::sync]: a transaction without events. *)
Definition sync : st DioStore DioCommitErrorKind unit :=
  st_map_err DioFeed (on_node (ep_feed pipe (Transaction.from_events [] ScopeFull true 30000))).

Definition disable_new_roots (a : ChainProtectedAsync L) : ChainProtectedAsync L :=
  {| ca_chain := ca_chain a; ca_default_format := ca_default_format a;
     ca_disable_new_roots := true; ca_sync_tolerance := ca_sync_tolerance a;
     ca_is_shutdown := ca_is_shutdown a; ca_integrity := ca_integrity a |}.

#[global] Instance DioTrans : Trans DioStore DioTx := {
  tr_begin scope := {| tx_scope := scope; tx_state := DioMutState.new |};
  tr_random := draw;
  tr_load_ro D _ key := on_dio (Dio.load (D := D) pipe key);
  tr_load D _ key := on_dio_mut (DioMut.load (D := D) pipe key);
  tr_store D _ key data := st_mk (λ '(b, t),
    let '(z, b) := draw b in
    on_state (DioMut.store_with_format data key (dio_log_format (sto_dio b)) (PrimaryKey.new z)
                (sto_node b)) (b, t));
  tr_as_mut D _ dao s :=
    (fst s, {| tx_scope := tx_scope (snd s); tx_state := DaoMut.as_mut dao (tx_state (snd s)) |});
  tr_save D _ header_changed data_changed dao :=
    on_state (DaoMut.commit header_changed data_changed dao);
  tr_delete key := st_mk (λ '(b, t), on_state (DioMut.delete key (sto_node b)) (b, t));
  tr_dao_delete D _ dao := on_state (DaoMut.delete dao);
  tr_exists key s :=
    DioMut.exists_ key (sto_node (fst s), sto_dio (fst s), tx_state (snd s));
  tr_children_ro D _ parent_id collection_id missing errors :=
    on_dio (Dio.children_ext (D := D) pipe parent_id collection_id missing errors);
  tr_children D _ parent_id collection_id missing errors :=
    on_dio_mut (DioMut.children_ext (D := D) pipe parent_id collection_id missing errors);
  tr_commit := st_mk (λ '(b, t),
    let '(r, (b, t)) := on_dio_mut (DioMut.commit_ext pipe order (clock (sto_drawn b))
                          (rnds (sto_drawn b)) (tx_scope t) 30000) (b, t) in
    (r, (decached b, t)));
  tr_flush := flush;
  tr_sync := st_mk (λ b, let '(r, b) := sync b in (r, decached b));
  tr_disable_new_roots b :=
    {| sto_node := Node.with_chain (sto_node b) (nd_world (sto_node b))
                     (disable_new_roots (nd_async (sto_node b)));
       sto_dio := sto_dio b; sto_drawn := sto_drawn b |};
}.
End dio.

(** ** A plain store *)

(** The records, and in a transaction what was put over them; [None] for one that was
    deleted. *)
Record MemStore : Type := { mem_rows : gmap PrimaryKey RowData; mem_next : Z }.
Abbreviation MemTx := (gmap PrimaryKey (option RowData)).

Module MemTrans.
Section ops.
Context `{CryptoPrims}.
Implicit Types (b : MemStore) (t : MemTx) (k : PrimaryKey).

Definition visible (b : MemStore) (t : MemTx) (k : PrimaryKey) : option RowData :=
  match t !! k with Some r => r | None => mem_rows b !! k end.

Definition rows_of (b : MemStore) (t : MemTx) : gmap PrimaryKey RowData :=
  omap id t ∪ filter (λ '(k, _), t !! k = None) (mem_rows b).

Definition load {D} `{DataSerializer D} k b t : result DioLoadErrorKind (RowHeader * Row D) :=
  match visible b t k with
  | Some row => map_err DioSerialization (Row.from_row_data row)
  | None => Err (NotFound k)
  end.

Definition children {D} `{DataSerializer D} (parent_id : PrimaryKey) (collection_id : Z) b t
    : result DioLoadErrorKind (list (RowHeader * Row D)) :=
  let here (row : RowData) := bool_decide (rdt_parent row = Some {| mp_vec :=
    {| mc_parent_id := parent_id; mc_collection_id := collection_id |} |}) in
  mapM (λ row, map_err DioSerialization (Row.from_row_data row))
    (List.filter here (snd <$> map_to_list (rows_of b t))).

(** The first key above the one a row is under. *)
Definition above (parent : option MetaParent) : Z :=
  match parent with Some p => pk_key (mc_parent_id (mp_vec p)) + 1 | None => 0 end.

(** New keys are above all that are named. *)
Definition put {D} `{DataSerializer D} (dao : DaoMut D) : st (MemStore * MemTx) RowErrorKind unit :=
  st_mk (λ '(b, t),
    match Row.as_row_data (dao_row dao) (dao_header dao) with
    | Ok row =>
        (Ok (), ({| mem_rows := mem_rows b; mem_next := Z.max (mem_next b) (above (rdt_parent row)) |},
                 <[DaoMut.key dao := Some row]> t))
    | Err e => (Err e, (b, t))
    end).

Definition store {D} `{DataSerializer D} (key : option PrimaryKey) (data : D)
    : st (MemStore * MemTx) RowErrorKind (DaoMut D) :=
  st_mk (λ '(b, t),
    let key := default (PrimaryKey.new (mem_next b)) key in
    let dao := DaoMut.new
      ({| rwh_key := key; rwh_parent := None; rwh_auth := inherit_auth |},
       {| row_key := key; row_type_name := data_type_name; row_created := 0; row_updated := 0;
          row_format := {| mf_meta := Json; mf_data := Json |}; row_data := data;
          row_collections := []; row_extra_meta := []; row_is_new := true |}) in
    (_ ← put dao; mret dao) ({| mem_rows := mem_rows b; mem_next := mem_next b + 1 |}, t)).

#[global] Instance mem_trans : Trans MemStore MemTx := {
  tr_begin _ := ∅;
  tr_random b := (Z.max 1 (mem_next b), {| mem_rows := mem_rows b; mem_next := mem_next b + 1 |});
  tr_load_ro D _ key := st_mk (λ b, (load key b ∅, b));
  tr_load D _ key := st_mk (λ '(b, t), (dao ← load key b t; Ok (DaoMut.new dao), (b, t)));
  tr_store D _ := store;
  tr_as_mut D _ dao s :=
    match snd s !! DaoMut.key dao with Some _ => s | None => (put dao s).2 end;
  tr_save D _ header_changed data_changed dao :=
    if header_changed || data_changed then put dao else mret ();
  tr_delete key := st_mk (λ '(b, t), (Ok (), (b, <[key := None]> t)));
  tr_dao_delete D _ dao := st_mk (λ '(b, t), (Ok (), (b, <[DaoMut.key dao := None]> t)));
  tr_exists key s := match visible (fst s) (snd s) key with Some _ => true | None => false end;
  tr_children_ro D _ parent_id collection_id _ _ :=
    st_mk (λ b, (children parent_id collection_id b ∅, b));
  tr_children D _ parent_id collection_id _ _ := st_mk (λ '(b, t),
    (daos ← children parent_id collection_id b t; Ok (map DaoMut.new daos), (b, t)));
  tr_commit := st_mk (λ '(b, t),
    (Ok (), ({| mem_rows := rows_of b t; mem_next := mem_next b |}, ∅)));
  tr_flush := mret ();
  tr_sync := mret ();
  tr_disable_new_roots b := b;
}.
End ops.
End MemTrans.
