(* ===== verification/TransSpec.v ===== *)
(** * What transactions promise

    [TransSpec] is what a client of a few records relies on when it is alone on the chain, and
    [TreeSpec] what a client that walks through collections relies on.  A client that only
    changes some of the records of a tree leaves the others alone: [framed] makes the first of
    the second.  The plain store keeps the promises: [mem_tree]. *)

From S2P Require Import Prelude LogApi Crypto Codec Secure Meta Time Event Index Signature Tree Compact Plugins LogFile MemDb RedoLog Chain ChainSpec Pipe Dio Trans.

(** serde never fails on the type. *)
Class TotalData (D : Type) `{DataSerializer D} : Prop :=
  data_total : ∀ f (x : D), ∃ bs, data_serialize f x = Ok bs.

(** A record as it is handed out: under its key, not locked, with its data. *)
Definition dao_of {D} (k : PrimaryKey) (x : D) (dao : DaoMut D) : Prop :=
  DaoMut.key dao = k ∧ rwh_key (dao_header dao) = k ∧ dao_lock dao = Unlocked
  ∧ row_data (dao_row dao) = x.

(** The collection [id] of a record. *)
Definition collection (k : PrimaryKey) (id : Z) : MetaCollection :=
  {| mc_parent_id := k; mc_collection_id := id |}.
Definition in_collection (c : MetaCollection) : option MetaParent := Some {| mp_vec := c |}.

(** ** A few records *)

(** [ts_sees s k x]: within the transaction the record [k] has the data [x].  [ts_ready s]:
    the chain takes what is committed.  [ts_durable s]: a transaction begun now sees the same.
    [ts_home k p]: the record [k] may be in the collection [p]. *)
Class TransSpec (B T : Type) `{Trans B T} : Type := {
  ts_sees D `{DataSerializer D} : B * T → PrimaryKey → D → Prop;
  ts_ready : B * T → Prop;
  ts_durable : B * T → Prop;
  ts_home : PrimaryKey → option MetaParent → Prop;
  ts_dao {D} (k : PrimaryKey) (x : D) (dao : DaoMut D) : Prop :=
    dao_of k x dao ∧ ts_home k (rwh_parent (dao_header dao));
  ts_same (s s' : B * T) : Prop :=
    ∀ D `{DataSerializer D} k (x : D), ts_sees D s k x ↔ ts_sees D s' k x;
  ts_updates D `{DataSerializer D} (s s' : B * T) (k : PrimaryKey) (x : D) : Prop :=
    ts_sees D s' k x
    ∧ ∀ D' `{DataSerializer D'} k' (y : D'), k' ≠ k → ts_sees D' s k' y ↔ ts_sees D' s' k' y;
  ts_begin s scope : ts_durable s →
    ts_ready (fst s, tr_begin scope) ∧ ts_durable (fst s, tr_begin scope)
    ∧ ts_same s (fst s, tr_begin scope);
  ts_sees_one D `{DataSerializer D} s k (x y : D) : ts_sees D s k x → ts_sees D s k y → x = y;
  ts_load D `{DataSerializer D} s k (x : D) : ts_ready s → ts_sees D s k x →
    ∃ dao s', tr_load D k s = (Ok dao, s') ∧ ts_dao k x dao ∧ ts_ready s' ∧ ts_same s s'
      ∧ (ts_durable s → ts_durable s');
  ts_load_ro D `{DataSerializer D} s k (x : D) : ts_ready s → ts_durable s → ts_sees D s k x →
    ∃ dao b', tr_load_ro D k (fst s) = (Ok dao, b') ∧ row_key (snd dao) = k ∧ row_data (snd dao) = x
      ∧ ts_ready (b', snd s) ∧ ts_same s (b', snd s) ∧ ts_durable (b', snd s);
  ts_store D `{TotalData D} s (x : D) : ts_ready s →
    ∃ dao s', tr_store None x s = (Ok dao, s') ∧ ts_dao (DaoMut.key dao) x dao ∧ ts_ready s'
      ∧ (∀ D' `{DataSerializer D'} (y : D'), ¬ ts_sees D' s (DaoMut.key dao) y)
      ∧ (∀ D' `{DataSerializer D'} k' (y : D') id, ts_sees D' s k' y →
           ts_home (DaoMut.key dao) (in_collection (collection k' id)))
      ∧ ts_updates D s s' (DaoMut.key dao) x;
  ts_as_mut D `{TotalData D} s k (x : D) dao : ts_ready s → ts_dao k x dao → ts_sees D s k x →
    ts_ready (tr_as_mut dao s) ∧ ts_updates D s (tr_as_mut dao s) k x;
  ts_save D `{TotalData D} s k (x y : D) h dao : ts_ready s → ts_dao k x dao → ts_sees D s k y →
    ∃ s', tr_save h true dao s = (Ok (), s') ∧ ts_ready s' ∧ ts_updates D s s' k x;
  ts_save_header D `{TotalData D} s k (x : D) dao : ts_ready s → ts_dao k x dao →
    ts_sees D s k x →
    ∃ s', tr_save true false dao s = (Ok (), s') ∧ ts_ready s' ∧ ts_updates D s s' k x;
  ts_commit s : ts_ready s →
    ∃ s', tr_commit s = (Ok (), s') ∧ ts_ready s' ∧ ts_same s s' ∧ ts_durable s';
}.

Section spec.
Context {B T : Type} `{TransSpec B T}.
Implicit Types (s : B * T) (k : PrimaryKey).

Lemma ts_same_refl s : ts_same s s.
Proof. by intros D HD k x. Qed.

Lemma ts_same_trans s1 s2 s3 : ts_same s1 s2 → ts_same s2 s3 → ts_same s1 s3.
Proof. intros H12 H23 D HD k x. by rewrite (H12 D HD k x). Qed.

Context {D : Type} `{HT : TotalData D}.

Lemma ts_updates_same s1 s2 s3 k (x : D) : ts_updates D s1 s2 k x → ts_same s2 s3 →
  ts_updates D s1 s3 k x.
Proof.
  intros [Hx Ho] Hs. split; [by apply Hs|]. intros D' HD' k' y Hk.
  by rewrite (Ho D' HD' k' y Hk).
Qed.

Lemma ts_same_updates s1 s2 s3 k (x : D) : ts_same s1 s2 → ts_updates D s2 s3 k x →
  ts_updates D s1 s3 k x.
Proof.
  intros Hs [Hx Ho]. split; [done|]. intros D' HD' k' y Hk.
  by rewrite <- (Ho D' HD' k' y Hk).
Qed.

Lemma ts_updates_trans s1 s2 s3 k (x y : D) : ts_updates D s1 s2 k x → ts_updates D s2 s3 k y →
  ts_updates D s1 s3 k y.
Proof.
  intros [_ Ho1] [Hy Ho2]. split; [done|]. intros D' HD' k' z Hk.
  by rewrite (Ho1 D' HD' k' z Hk), (Ho2 D' HD' k' z Hk).
Qed.

Lemma ts_dao_data k (x y : D) dao : ts_dao k x dao → ts_dao k y (DaoMut.with_data dao y).
Proof. by intros [(? & ? & ? & ?) ?]. Qed.

Lemma ts_dao_header k (x : D) dao parent auth : ts_dao k x dao → ts_home k parent →
  ts_dao k x (DaoMut.with_header dao {| rwh_key := rwh_key (dao_header dao); rwh_parent := parent;
                                       rwh_auth := auth |}).
Proof. by intros [(? & ? & ? & ?) ?]. Qed.

Lemma tr_modify_ok s k (x : D) f dao : ts_ready s → ts_dao k x dao → ts_sees D s k x →
  ∃ dao' s', tr_modify f dao s = (Ok dao', s') ∧ ts_dao k (f x) dao' ∧ ts_ready s'
    ∧ ts_updates D s s' k (f x).
Proof.
  intros Hr Hd Hs. destruct (ts_as_mut D s k x dao Hr Hd Hs) as [Hr1 Hs1].
  unfold tr_modify, st_mk. rewrite (proj2 (proj2 (proj2 (proj1 Hd)))).
  destruct (ts_save D (tr_as_mut dao s) k (f x) x false (DaoMut.with_data dao (f x))) as (s' & E & Hr' & Hu);
    [done|by eapply ts_dao_data|exact (proj1 Hs1)|].
  eexists _, s'. rewrite (st_bind_Ok _ _ _ _ _ E). split; [done|]. split; [by eapply ts_dao_data|].
  split; [done|]. by eapply ts_updates_trans.
Qed.

Lemma tr_attach_ok s k (x : D) dao parent id : ts_ready s → ts_dao k x dao → ts_sees D s k x →
  ts_home k (in_collection (collection parent id)) →
  ∃ dao' s', tr_attach_ext parent id dao s = (Ok dao', s') ∧ ts_dao k x dao' ∧ ts_ready s'
    ∧ ts_updates D s s' k x.
Proof.
  intros Hr Hd Hs Hh. unfold tr_attach_ext, tr_set_parent.
  edestruct (ts_save_header D s k x) as (s' & E & Hr' & Hu); [done|by apply ts_dao_header|done|].
  eexists _, s'. rewrite (st_bind_Ok _ _ _ _ _ E). split; [done|]. split; [by apply ts_dao_header|done].
Qed.
End spec.


(** ** Trees of records *)

(** [tt_child s c k]: the record [k] is in the collection [c]. *)
Class TreeSpec (B T : Type) `{Trans B T} : Type := {
  tt_sees D `{DataSerializer D} : B * T → PrimaryKey → D → Prop;
  tt_child : B * T → MetaCollection → PrimaryKey → Prop;
  tt_ready : B * T → Prop;
  tt_durable : B * T → Prop;
  tt_same (s s' : B * T) : Prop :=
    (∀ D `{DataSerializer D} k (x : D), tt_sees D s k x ↔ tt_sees D s' k x)
    ∧ (∀ c k, tt_child s c k ↔ tt_child s' c k);
  (** The other records stay as and where they are. *)
  tt_others (s s' : B * T) (k : PrimaryKey) : Prop :=
    (∀ D `{DataSerializer D} k' (y : D), k' ≠ k → tt_sees D s k' y ↔ tt_sees D s' k' y)
    ∧ (∀ c k', k' ≠ k → tt_child s c k' ↔ tt_child s' c k');
  (** The record is where its header says. *)
  tt_placed {D} (s : B * T) (dao : DaoMut D) : Prop :=
    ∀ c, tt_child s c (DaoMut.key dao) ↔ rwh_parent (dao_header dao) = in_collection c;
  tt_begin s scope : tt_durable s →
    tt_ready (fst s, tr_begin scope) ∧ tt_durable (fst s, tr_begin scope)
    ∧ tt_same s (fst s, tr_begin scope);
  tt_random b t : tt_ready (b, t) →
    tt_ready ((tr_random b).2, t) ∧ tt_same (b, t) ((tr_random b).2, t)
    ∧ (tt_durable (b, t) → tt_durable ((tr_random b).2, t));
  tt_sees_one D `{DataSerializer D} s k (x y : D) : tt_sees D s k x → tt_sees D s k y → x = y;
  tt_load D `{DataSerializer D} s k (x : D) : tt_ready s → tt_sees D s k x →
    ∃ dao s', tr_load D k s = (Ok dao, s') ∧ dao_of k x dao ∧ tt_placed s dao ∧ tt_ready s'
      ∧ tt_same s s' ∧ (tt_durable s → tt_durable s');
  tt_load_ro D `{DataSerializer D} s k (x : D) : tt_ready s → tt_durable s → tt_sees D s k x →
    ∃ dao b', tr_load_ro D k (fst s) = (Ok dao, b') ∧ row_key (snd dao) = k ∧ row_data (snd dao) = x
      ∧ tt_ready (b', snd s) ∧ tt_same s (b', snd s) ∧ tt_durable (b', snd s);
  tt_children D `{DataSerializer D} s k id missing errors : tt_ready s →
    (∀ k', tt_child s (collection k id) k' → ∃ x : D, tt_sees D s k' x) →
    ∃ daos s', tr_children D k id missing errors s = (Ok daos, s') ∧ tt_ready s' ∧ tt_same s s'
      ∧ (∀ k', tt_child s (collection k id) k' ↔ k' ∈ map DaoMut.key daos)
      ∧ (∀ dao, dao ∈ daos → dao_of (DaoMut.key dao) (row_data (dao_row dao)) dao ∧ tt_placed s dao
           ∧ tt_sees D s (DaoMut.key dao) (row_data (dao_row dao)))
      ∧ (tt_durable s → tt_durable s');
  tt_children_ro D `{DataSerializer D} s k id missing errors : tt_ready s → tt_durable s →
    (∀ k', tt_child s (collection k id) k' → ∃ x : D, tt_sees D s k' x) →
    ∃ daos b', tr_children_ro D k id missing errors (fst s) = (Ok daos, b')
      ∧ tt_ready (b', snd s) ∧ tt_same s (b', snd s) ∧ tt_durable (b', snd s)
      ∧ (∀ k', tt_child s (collection k id) k' ↔ k' ∈ map (λ d, row_key (snd d)) daos)
      ∧ (∀ dao, dao ∈ daos → tt_sees D s (row_key (snd dao)) (row_data (snd dao)));
  (** A new record is under a key that is nowhere, and has the authorisation of where it is put. *)
  tt_store D `{TotalData D} s (x : D) : tt_ready s →
    ∃ dao s', tr_store None x s = (Ok dao, s') ∧ dao_of (DaoMut.key dao) x dao ∧ tt_ready s'
      ∧ rwh_parent (dao_header dao) = None ∧ ma_read (rwh_auth (dao_header dao)) = ReadInherit
      ∧ (∀ D' `{DataSerializer D'} (y : D'), ¬ tt_sees D' s (DaoMut.key dao) y)
      ∧ (∀ c, ¬ tt_child s c (DaoMut.key dao))
      ∧ (∀ id k', ¬ tt_child s (collection (DaoMut.key dao) id) k')
      ∧ tt_sees D s' (DaoMut.key dao) x ∧ tt_others s s' (DaoMut.key dao) ∧ tt_placed s' dao;
  (** [as_mut] puts the record into the transaction when it is not there. *)
  tt_as_mut D `{TotalData D} s k (x : D) dao : tt_ready s → dao_of k x dao → tt_sees D s k x →
    let s' := tr_as_mut dao s in
    tt_ready s' ∧ tt_sees D s' k x ∧ tt_others s s' k
    ∧ ((∀ c, tt_child s c k ↔ tt_child s' c k) ∨ tt_placed s' dao);
  tt_save D `{TotalData D} s k (x y : D) h dao : tt_ready s → dao_of k x dao → tt_sees D s k y →
    ∃ s', tr_save h true dao s = (Ok (), s') ∧ tt_ready s' ∧ tt_sees D s' k x ∧ tt_others s s' k
      ∧ tt_placed s' dao;
  tt_save_header D `{TotalData D} s k (x : D) dao : tt_ready s → dao_of k x dao → tt_sees D s k x →
    ∃ s', tr_save true false dao s = (Ok (), s') ∧ tt_ready s' ∧ tt_sees D s' k x ∧ tt_others s s' k
      ∧ tt_placed s' dao;
  tt_commit s : tt_ready s →
    ∃ s', tr_commit s = (Ok (), s') ∧ tt_ready s' ∧ tt_same s s' ∧ tt_durable s';
  tt_flush b t : tt_ready (b, t) → tt_durable (b, t) →
    ∃ b', tr_flush b = (Ok (), b') ∧ tt_ready (b', t) ∧ tt_same (b, t) (b', t) ∧ tt_durable (b', t);
  tt_sync b t : tt_ready (b, t) → tt_durable (b, t) →
    ∃ b', tr_sync b = (Ok (), b') ∧ tt_ready (b', t) ∧ tt_same (b, t) (b', t) ∧ tt_durable (b', t);
}.

Section tree.
Context {B T : Type} `{HT : Trans B T} {HTS : TreeSpec B T}.
Implicit Types (s : B * T) (k : PrimaryKey) (c : MetaCollection).

Lemma tt_same_refl s : tt_same s s.
Proof. by split; intros. Qed.

Lemma tt_same_sym s s' : tt_same s s' → tt_same s' s.
Proof. intros [Hs Hc]. split; [intros D HD k x; by rewrite (Hs D HD k x)|intros c k; by rewrite (Hc c k)]. Qed.

Lemma tt_same_trans s1 s2 s3 : tt_same s1 s2 → tt_same s2 s3 → tt_same s1 s3.
Proof.
  intros [Hs Hc] [Hs' Hc']. split.
  - intros D HD k x. by rewrite (Hs D HD k x).
  - intros c k. by rewrite (Hc c k).
Qed.

(** ** Writing to one record *)

(** The record [k] has the data [x]; the other records, and where they all are, did not change. *)
Definition tt_written D `{DataSerializer D} s s' k (x : D) : Prop :=
  tt_sees D s' k x
  ∧ (∀ D' `{DataSerializer D'} k' (y : D'), k' ≠ k → tt_sees D' s k' y ↔ tt_sees D' s' k' y)
  ∧ (∀ c k', tt_child s c k' ↔ tt_child s' c k').

Lemma tt_placed_same {D} s s' (dao : DaoMut D) : (∀ c k', tt_child s c k' ↔ tt_child s' c k') →
  tt_placed s dao → tt_placed s' dao.
Proof. intros Hc Hp c. by rewrite <- Hc. Qed.

Lemma tt_written_same D `{DataSerializer D} s s' k (x : D) : tt_same s s' → tt_sees D s k x →
  tt_written D s s' k x.
Proof. intros [Hs Hc] Hx. split; [by apply Hs|]. split; [|done]. intros D' HD' k' y _. apply Hs. Qed.

Lemma tt_written_trans D `{DataSerializer D} s1 s2 s3 k (x y : D) :
  tt_written D s1 s2 k x → tt_written D s2 s3 k y → tt_written D s1 s3 k y.
Proof.
  intros (_ & Ho & Hc) (Hy & Ho' & Hc'). split; [done|]. split.
  - intros D' HD' k' z Hk. by rewrite (Ho D' HD' k' z Hk), (Ho' D' HD' k' z Hk).
  - intros c k'. by rewrite (Hc c k').
Qed.

Section written.
Context {D : Type} `{HTD : TotalData D}.

Lemma tt_others_written s s' k (x : D) dao : dao_of k x dao → tt_placed s dao → tt_sees D s' k x →
  tt_others s s' k → (∀ c, tt_child s c k ↔ tt_child s' c k) ∨ tt_placed s' dao → tt_written D s s' k x.
Proof.
  intros (Hk & _) Hp Hx [Ho Hc] Hor. split; [done|]. split; [done|]. intros c k'.
  destruct (decide (k' = k)) as [->|Hne]; [|by apply Hc]. destruct Hor as [Hor|Hp']; [done|].
  specialize (Hp c). specialize (Hp' c). rewrite Hk in Hp, Hp'. by rewrite Hp, Hp'.
Qed.

Lemma tt_as_mut_written s k (x : D) dao : tt_ready s → dao_of k x dao → tt_placed s dao → tt_sees D s k x →
  tt_ready (tr_as_mut dao s) ∧ tt_written D s (tr_as_mut dao s) k x.
Proof.
  intros Hr Hd Hp Hs. destruct (tt_as_mut D s k x dao Hr Hd Hs) as (Hr' & Hx & Ho & Hor).
  split; [done|]. by eapply tt_others_written.
Qed.

Lemma tt_save_written s k (x y : D) dao : tt_ready s → dao_of k x dao → tt_placed s dao → tt_sees D s k y →
  ∃ s', tr_save false true dao s = (Ok (), s') ∧ tt_ready s' ∧ tt_written D s s' k x.
Proof.
  intros Hr Hd Hp Hs. destruct (tt_save D s k x y false dao Hr Hd Hs) as (s' & E & Hr' & Hx & Ho & Hp').
  exists s'. split; [done|]. split; [done|]. eapply tt_others_written; [done..|by right].
Qed.

Lemma tt_modify s k (x : D) f dao : tt_ready s → dao_of k x dao → tt_placed s dao → tt_sees D s k x →
  ∃ dao' s', tr_modify f dao s = (Ok dao', s') ∧ dao_of k (f x) dao' ∧ tt_placed s' dao' ∧ tt_ready s'
    ∧ tt_written D s s' k (f x).
Proof.
  intros Hr Hd Hp Hs. destruct (tt_as_mut_written s k x dao Hr Hd Hp Hs) as [Hr1 Hw1].
  unfold tr_modify, st_mk. rewrite (proj2 (proj2 (proj2 Hd))).
  assert (dao_of k (f x) (DaoMut.with_data dao (f x))) as Hd' by (by destruct Hd as (? & ? & ? & ?)).
  assert (tt_placed (tr_as_mut dao s) (DaoMut.with_data dao (f x))) as Hp1
    by (apply (tt_placed_same s); [apply Hw1|done]).
  destruct (tt_save_written _ k (f x) x _ Hr1 Hd' Hp1 (proj1 Hw1)) as (s' & E & Hr' & Hw').
  eexists _, s'. rewrite (st_bind_Ok _ _ _ _ _ E). split; [done|]. split; [done|].
  split; [apply (tt_placed_same (tr_as_mut dao s)); [apply Hw'|done]|]. split; [done|].
  by eapply tt_written_trans.
Qed.
End written.

(** ** Leaving the rest alone *)

(** A client works on the record [k0] and on records it makes, and leaves those [outside] and the
    collections that are [guarded] alone. *)
Section framed.
Variable s0 : B * T.
Variable outside : PrimaryKey → Prop.
Variable guarded : MetaCollection → Prop.
Variable k0 : PrimaryKey.
Hypothesis guarded_outside : ∀ c, guarded c → outside (mc_parent_id c).
Hypothesis outside_seen : ∀ k, outside k → ∃ D (HD : DataSerializer D) (x : D), tt_sees D s0 k x.

Definition intact s : Prop :=
  (∀ D `{DataSerializer D} k (x : D), outside k → tt_sees D s0 k x ↔ tt_sees D s k x)
  ∧ (∀ c k, guarded c → tt_child s0 c k ↔ tt_child s c k).

Definition fr_sees D `{DataSerializer D} s k (x : D) : Prop :=
  tt_sees D s k x ∧ ¬ outside k
  ∧ (k ≠ k0 → ∀ c, guarded c → ¬ tt_child s c k).

Definition fr_home k (p : option MetaParent) : Prop :=
  ∀ c, guarded c → p = in_collection c ↔ k = k0 ∧ tt_child s0 c k0.

Lemma intact_same s s' : intact s → tt_same s s' → intact s'.
Proof.
  intros [Hs Hc] [Hs' Hc']. split.
  - intros D HD k x Hk. by rewrite (Hs D HD k x Hk).
  - intros c k Ho. by rewrite (Hc c k Ho).
Qed.

Lemma fr_sees_same s s' D `{DataSerializer D} k (x : D) : tt_same s s' → fr_sees D s k x ↔ fr_sees D s' k x.
Proof. intros [Hs Hc]. unfold fr_sees. rewrite (Hs D _ k x). by setoid_rewrite Hc. Qed.

(** A record of the client's own is put where it may be. *)
Lemma own_put D `{DataSerializer D} s s' k (x : D) : intact s → ¬ outside k →
  (k ≠ k0 → ∀ c, guarded c → ¬ tt_child s c k) →
  tt_sees D s' k x → tt_others s s' k →
  (∀ c, guarded c → tt_child s' c k ↔ k = k0 ∧ tt_child s0 c k0) →
  intact s' ∧ fr_sees D s' k x
  ∧ ∀ D' `{DataSerializer D'} k' (y : D'), k' ≠ k → fr_sees D' s k' y ↔ fr_sees D' s' k' y.
Proof.
  intros [Hs Hc] Ho Hown Hx [Hos Hoc] Hp. split; [split|split].
  - intros D' HD' k' y Hk. rewrite (Hs D' HD' k' y Hk). apply Hos. by intros ->.
  - intros c k' Hk. destruct (decide (k' = k)) as [->|Hne].
    + rewrite (Hp c Hk). destruct (decide (k = k0)) as [->|Hk0]; [naive_solver|].
      split; [|by intros []]. intros Hch. destruct (Hown Hk0 c Hk). by apply Hc.
    + rewrite (Hc c k' Hk). by apply Hoc.
  - split; [done|]. split; [done|]. intros Hne c Hk. rewrite (Hp c Hk). naive_solver.
  - intros D' HD' k' y Hne. unfold fr_sees. rewrite (Hos D' HD' k' y Hne).
    assert (∀ c, tt_child s c k' ↔ tt_child s' c k') as Hck by (intros c; by apply Hoc). by setoid_rewrite Hck.
Qed.

Lemma fr_placed {D} s (dao : DaoMut D) : tt_placed s dao → fr_home (DaoMut.key dao) (rwh_parent (dao_header dao)) →
  ∀ c, guarded c → tt_child s c (DaoMut.key dao) ↔ DaoMut.key dao = k0 ∧ tt_child s0 c k0.
Proof. intros Hp Hh c Hc. by rewrite (Hp c), (Hh c Hc). Qed.

#[program] Definition framed : TransSpec B T := {|
  ts_sees D _ := fr_sees D;
  ts_ready s := tt_ready s ∧ intact s;
  ts_durable s := tt_durable s ∧ intact s;
  ts_home := fr_home;
|}.
Next Obligation.
  intros s scope [Hd Hi]. destruct (tt_begin s scope Hd) as (Hr & Hd' & Hs).
  pose proof (intact_same _ _ Hi Hs). repeat (split; [done|]). intros D HD k x. by apply fr_sees_same.
Qed.
Next Obligation. intros D HD s k x y [Hx _] [Hy _]. by eapply tt_sees_one. Qed.
Next Obligation.
  intros D HD s k x [Hr Hi] (Hx & Ho & Hc).
  destruct (tt_load D s k x Hr Hx) as (dao & s' & E & Hd & Hp & Hr' & Hs & Hdu).
  pose proof (intact_same _ _ Hi Hs). exists dao, s'. split; [done|]. split.
  - split; [done|]. destruct Hd as [Hk _]. intros c Hoc. rewrite <- (Hp c), Hk.
    destruct (decide (k = k0)) as [->|Hne]; [rewrite (proj2 Hi c k0 Hoc); naive_solver|].
    specialize (Hc Hne c Hoc). naive_solver.
  - split; [done|]. split; [|naive_solver]. intros D' HD' k' y. by apply fr_sees_same.
Qed.
Next Obligation.
  intros D HD s k x [Hr Hi] [Hdu _] (Hx & Ho & Hc).
  destruct (tt_load_ro D s k x Hr Hdu Hx) as (dao & b' & E & Hk & Hxx & Hr' & Hs & Hdu').
  pose proof (intact_same _ _ Hi Hs). exists dao, b'. repeat (split; [done|]). split; [|done].
  intros D' HD' k' y. by apply fr_sees_same.
Qed.
Next Obligation.
  intros D HD HTD s x [Hr Hi].
  destruct (tt_store D s x Hr) as (dao & s' & E & Hd & Hr' & Hpar & _ & Hfs & Hfc & _ & Hx & Ho & Hp).
  assert (¬ outside (DaoMut.key dao)) as Hout.
  { intros Hk. destruct (outside_seen _ Hk) as (D' & HD' & y & Hy). apply (Hfs D' HD' y).
    by apply (proj1 Hi D' HD' _ y Hk). }
  assert (∀ c, guarded c → ¬ (DaoMut.key dao = k0 ∧ tt_child s0 c k0)) as Hnk.
  { intros c Hc [Hk Hch]. apply (Hfc c). rewrite Hk. by apply (proj2 Hi c k0 Hc). }
  assert (∀ p, (∀ c, guarded c → p ≠ in_collection c) → fr_home (DaoMut.key dao) p) as Hhome.
  { intros p Hpc c Hc. specialize (Hpc c Hc). specialize (Hnk c Hc). naive_solver. }
  destruct (own_put D s s' (DaoMut.key dao) x Hi Hout) as (Hi' & Hx' & Ho'); [by intros _ c _|done|done|..].
  { intros c Hc. rewrite (Hp c), Hpar. specialize (Hnk c Hc). naive_solver. }
  exists dao, s'. split; [done|]. split; [split; [done|]; rewrite Hpar; by apply Hhome|]. split; [done|].
  split; [intros D' HD' y [Hy _]; by apply (Hfs D' HD' y)|]. split; [|done].
  intros D' HD' k' y id (_ & Hk' & _). apply Hhome. intros c Hc [= <-]. by apply guarded_outside in Hc.
Qed.
Next Obligation.
  intros D HD HTD s k x dao [Hr Hi] [Hd Hh] (Hx & Ho & Hc).
  destruct (tt_as_mut D s k x dao Hr Hd Hx) as (Hr' & Hx' & Hoth & Hp).
  assert (DaoMut.key dao = k) as Hk by apply Hd. rewrite <- Hk in *.
  destruct (own_put D s (tr_as_mut dao s) (DaoMut.key dao) x Hi Ho Hc Hx' Hoth) as (Hi' & Hs' & Ho'); [|done].
  destruct Hp as [Hp|Hp]; [|by apply fr_placed]. intros c Hoc. rewrite <- (Hp c).
  destruct (decide (DaoMut.key dao = k0)) as [He|Hne]; [rewrite He, <- (proj2 Hi c k0 Hoc); naive_solver|].
  specialize (Hc Hne c Hoc). naive_solver.
Qed.
Next Obligation.
  intros D HD HTD s k x y h dao [Hr Hi] [Hd Hh] (Hy & Ho & Hc).
  destruct (tt_save D s k x y h dao Hr Hd Hy) as (s' & E & Hr' & Hx' & Hoth & Hp).
  assert (DaoMut.key dao = k) as Hk by apply Hd. rewrite <- Hk in *.
  destruct (own_put D s s' (DaoMut.key dao) x Hi Ho Hc Hx' Hoth) as (Hi' & Hs' & Ho'); [by apply fr_placed|].
  by exists s'.
Qed.
Next Obligation.
  intros D HD HTD s k x dao [Hr Hi] [Hd Hh] (Hy & Ho & Hc).
  destruct (tt_save_header D s k x dao Hr Hd Hy) as (s' & E & Hr' & Hx' & Hoth & Hp).
  assert (DaoMut.key dao = k) as Hk by apply Hd. rewrite <- Hk in *.
  destruct (own_put D s s' (DaoMut.key dao) x Hi Ho Hc Hx' Hoth) as (Hi' & Hs' & Ho'); [by apply fr_placed|].
  by exists s'.
Qed.
Next Obligation.
  intros s [Hr Hi]. destruct (tt_commit s Hr) as (s' & E & Hr' & Hs & Hd).
  pose proof (intact_same _ _ Hi Hs). exists s'. repeat (split; [done|]). split; [|done].
  intros D' HD' k' y. by apply fr_sees_same.
Qed.
End framed.

(** A client that is alone. *)
Definition plain (s0 : B * T) (k0 : PrimaryKey) : TransSpec B T :=
  framed s0 (λ _, False) (λ _, False) k0 (λ _ H, H) (λ _ H, match H with end).

Lemma plain_ready s0 k0 s : tt_ready s → @ts_ready _ _ _ (plain s0 k0) s.
Proof. intros Hr. split; [done|]. by split. Qed.

Lemma plain_durable s0 k0 s : tt_durable s → @ts_durable _ _ _ (plain s0 k0) s.
Proof. intros Hd. split; [done|]. by split. Qed.

Lemma plain_sees s0 k0 D `{DataSerializer D} s k (x : D) : tt_sees D s k x → @ts_sees _ _ _ (plain s0 k0) D _ s k x.
Proof. intros Hs. split; [done|]. split; [by intros []|by intros _ c []]. Qed.

Lemma plain_dao s0 k0 {D} k (x : D) dao : dao_of k x dao → @ts_dao _ _ _ (plain s0 k0) D k x dao.
Proof. intros Hd. split; [done|]. by intros c []. Qed.
End tree.

(** What is put into a transaction and not committed is gone with it. *)
Class DropSpec (B T : Type) `{TreeSpec B T} : Prop :=
  td_save D `{DataSerializer D} h d (dao : DaoMut D) s r s' scope :
    tr_save h d dao s = (r, s') → tt_durable (fst s, tr_begin scope) →
    tt_durable (fst s', tr_begin scope) ∧ tt_same (fst s, tr_begin scope) (fst s', tr_begin scope).

(** ** The plain store *)

Section mem.
Context `{CryptoPrims}.
Implicit Types (b : MemStore) (t : MemTx) (k : PrimaryKey) (s : MemStore * MemTx).

Abbreviation visible s k := (MemTrans.visible (fst s) (snd s) k).

Definition mem_sees D `{DataSerializer D} s k (x : D) : Prop :=
  ∃ row, visible s k = Some row ∧ data_deserialize (mf_data (rdt_format row)) (rdt_data row) = Ok x.

Definition mem_child s (c : MetaCollection) k : Prop :=
  ∃ row, visible s k = Some row ∧ rdt_parent row = in_collection c.

(** Rows are under their keys, and the next key is above all that are named. *)
Record mem_ready s : Prop := {
  mr_new k : mem_next (fst s) ≤ pk_key k → visible s k = None;
  mr_parent k row : visible s k = Some row → MemTrans.above (rdt_parent row) ≤ mem_next (fst s);
  mr_key k row : visible s k = Some row → rdt_key row = k;
}.

Definition mem_durable s : Prop := mem_ready s ∧ ∀ k, MemTrans.visible (fst s) ∅ k = visible s k.

(** What the two stores show. *)
Definition mem_eq s s' : Prop := ∀ k, visible s k = visible s' k.

Lemma mem_eq_same s s' : mem_eq s s' →
  (∀ D `{DataSerializer D} k (x : D), mem_sees D s k x ↔ mem_sees D s' k x)
  ∧ (∀ c k, mem_child s c k ↔ mem_child s' c k).
Proof. intros He. unfold mem_sees, mem_child. by split; intros; rewrite (He k). Qed.

Lemma mem_eq_ready s s' : mem_eq s s' → mem_next (fst s) ≤ mem_next (fst s') → mem_ready s → mem_ready s'.
Proof.
  intros He Hn [H1 H2 H3]. split; intros k; rewrite <- (He k).
  - intros Hk. apply H1. lia.
  - intros row Hv. specialize (H2 k row Hv). lia.
  - apply H3.
Qed.

Lemma mem_drawn b t n : mem_next b ≤ n → mem_eq (b, t) ({| mem_rows := mem_rows b; mem_next := n |}, t).
Proof. by intros _ k. Qed.

(** A row that is put. *)
Lemma mem_put D `{TotalData D} s (dao : DaoMut D) k (x : D) :
  mem_ready s → pk_key k < mem_next (fst s) → dao_of k x dao →
  ∃ s', MemTrans.put dao s = (Ok (), s') ∧ mem_ready s' ∧ mem_next (fst s) ≤ mem_next (fst s')
    ∧ mem_sees D s' k x ∧ (∀ k', k' ≠ k → visible s' k' = visible s k')
    ∧ ∀ c, mem_child s' c k ↔ rwh_parent (dao_header dao) = in_collection c.
Proof.
  destruct s as [b t]. intros [R1 R2 R3] Hk (Hkey & Hh & _ & Hx). cbn in *.
  unfold MemTrans.put, st_mk, Row.as_row_data.
  destruct (data_total (mf_data (row_format (dao_row dao))) (row_data (dao_row dao))) as [bs Ebs].
  rewrite Ebs. cbn. eexists. split; [reflexivity|]. rewrite Hkey.
  match goal with |- context [<[k:=Some ?r]> t] => set (row := r) end.
  set (b' := {| mem_rows := _; mem_next := _ |}).
  assert (∀ k', k' ≠ k → visible (b', <[k:=Some row]> t) k' = visible (b, t) k') as Ho.
  { intros k' Hne. cbn. unfold MemTrans.visible. by rewrite lookup_insert_ne. }
  assert (visible (b', <[k:=Some row]> t) k = Some row) as Hv.
  { cbn. unfold MemTrans.visible. by rewrite lookup_insert_eq. }
  assert (MemTrans.above (rdt_parent row) ≤ mem_next b' ∧ mem_next b ≤ mem_next b') as [Hab Hle] by (cbn; lia).
  split; [split|split; [done|split; [|split; [done|]]]].
  - intros k' Hk'. destruct (decide (k' = k)) as [->|Hne]; [cbn in Hk'; lia|]. rewrite Ho by done. apply R1. cbn in *. lia.
  - intros k' row'. destruct (decide (k' = k)) as [->|Hne]; [rewrite Hv; by intros [= <-]|].
    rewrite Ho by done. intros Hv'. specialize (R2 k' row' Hv'). cbn in *. lia.
  - intros k' row'. destruct (decide (k' = k)) as [->|Hne]; [rewrite Hv; by intros [= <-]|].
    rewrite Ho by done. apply R3.
  - exists row. split; [done|]. cbn. rewrite <- Hx. by apply data_round_trip.
  - intros c. unfold mem_child. rewrite Hv. split; [by intros (? & [= <-] & ?)|by exists row].
Qed.

Lemma mem_bound D `{DataSerializer D} s k (x : D) : mem_ready s → mem_sees D s k x → pk_key k < mem_next (fst s).
Proof.
  intros Hr (row & Hv & _). destruct (decide (mem_next (fst s) ≤ pk_key k)) as [Hle|]; [|lia].
  by rewrite (mr_new _ Hr k Hle) in Hv.
Qed.

Lemma mem_elsewhere s s' k : (∀ k', k' ≠ k → visible s' k' = visible s k') →
  (∀ D `{DataSerializer D} k' (y : D), k' ≠ k → mem_sees D s k' y ↔ mem_sees D s' k' y)
  ∧ (∀ c k', k' ≠ k → mem_child s c k' ↔ mem_child s' c k').
Proof. intros Ho. unfold mem_sees, mem_child. split; intros; by rewrite Ho. Qed.

Lemma rows_of_lookup b t k : MemTrans.rows_of b t !! k = MemTrans.visible b t k.
Proof.
  unfold MemTrans.rows_of, MemTrans.visible. rewrite lookup_union, lookup_omap.
  destruct (t !! k) as [[r|]|] eqn:E; cbn.
  - by destruct (filter _ _ !! k).
  - destruct (filter _ _ !! k) eqn:E'; [|done]. apply map_lookup_filter_Some in E' as [_ E'].
    by rewrite E in E'.
  - destruct (mem_rows b !! k) as [r|] eqn:Er.
    + by rewrite (map_lookup_filter_Some_2 _ _ k r).
    + destruct (filter _ _ !! k) eqn:E'; [|done].
      apply map_lookup_filter_Some in E' as [E' _]. congruence.
Qed.

Lemma mapM_Ok {E A A'} (f : A → result E A') l : (∀ x, x ∈ l → ∃ y, f x = Ok y) →
  ∃ l', mapM f l = Ok l' ∧ Forall2 (λ x y, f x = Ok y) l l'.
Proof.
  induction l as [|x l IH]; intros Hall; [by exists []|].
  destruct (Hall x) as [y Hy]; [by left|]. destruct IH as (l' & Hl & Hf); [intros z Hz; apply Hall; by right|].
  exists (y :: l'). cbn. rewrite Hy. cbn. rewrite Hl. split; [done|]. by constructor.
Qed.

Lemma mem_children D `{DataSerializer D} s k id : mem_ready s →
  (∀ k', mem_child s (collection k id) k' → ∃ x : D, mem_sees D s k' x) →
  ∃ ds, MemTrans.children k id (fst s) (snd s) = Ok ds
    ∧ (∀ k', mem_child s (collection k id) k' ↔ k' ∈ map (λ d : RowHeader * Row D, row_key (snd d)) ds)
    ∧ (∀ d, d ∈ ds → mem_sees D s (row_key (snd d)) (row_data (snd d)) ∧ rwh_key (fst d) = row_key (snd d)
         ∧ ∀ c, mem_child s c (row_key (snd d)) ↔ rwh_parent (fst d) = in_collection c).
Proof.
  intros Hr Hall. unfold MemTrans.children. set (here := λ row, bool_decide _).
  set (rows := List.filter here _).
  assert (∀ row, row ∈ rows ↔ ∃ k', visible s k' = Some row ∧ mem_child s (collection k id) k') as Hrows.
  { intros row. unfold rows. rewrite list_elem_of_In, filter_In, <- list_elem_of_In. unfold here.
    rewrite bool_decide_eq_true. rewrite list_elem_of_fmap. split.
    - intros [([k' r] & -> & Hin) Hp]. apply elem_of_map_to_list in Hin. rewrite rows_of_lookup in Hin.
      exists k'. split; [done|]. by exists r.
    - intros (k' & Hv & (r & Hv' & Hp)). assert (r = row) as -> by congruence. split; [|done].
      exists (k', row). split; [done|]. apply elem_of_map_to_list. by rewrite rows_of_lookup. }
  set (f := λ row, map_err DioSerialization (Row.from_row_data row)).
  assert (∀ row d, f row = Ok d → row_key (snd d) = rdt_key row ∧ rwh_key (fst d) = rdt_key row
    ∧ rwh_parent (fst d) = rdt_parent row
    ∧ data_deserialize (mf_data (rdt_format row)) (rdt_data row) = Ok (row_data (snd (d : RowHeader * Row D)))) as Hf.
  { intros row d. unfold f, Row.from_row_data. destruct (data_deserialize _ _) as [x|e]; [|done].
    by intros [= <-]. }
  destruct (mapM_Ok f rows) as (ds & E & Hds).
  { intros row Hrow. apply Hrows in Hrow as (k' & Hv & Hc). destruct (Hall k' Hc) as (x & r & Hv' & Hx).
    assert (r = row) as -> by congruence. unfold f, Row.from_row_data. rewrite Hx. by eexists. }
  assert (∀ d, d ∈ ds → ∃ row k', row ∈ rows ∧ f row = Ok d ∧ visible s k' = Some row
    ∧ mem_child s (collection k id) k' ∧ row_key (snd d) = k') as Hd.
  { intros d Hd. apply list_elem_of_lookup in Hd as [i Hi].
    destruct (Forall2_lookup_r _ _ _ _ _ Hds Hi) as (row & Hrow & Hfr).
    apply list_elem_of_lookup_2 in Hrow. pose proof Hrow as (k' & Hv & Hc)%Hrows.
    exists row, k'. repeat (split; [done|]). rewrite (proj1 (Hf _ _ Hfr)). by apply (mr_key s Hr). }
  exists ds. split; [done|]. split.
  - intros k'. split.
    + intros Hc. pose proof Hc as (row & Hv & Hp).
      assert (row ∈ rows) as Hrow by (apply Hrows; by exists k'). apply list_elem_of_lookup in Hrow as [i Hi].
      destruct (Forall2_lookup_l _ _ _ _ _ Hds Hi) as (d & Hdi & Hfr). apply list_elem_of_lookup_2 in Hdi.
      apply list_elem_of_fmap. exists d. split; [|done]. rewrite (proj1 (Hf _ _ Hfr)). symmetry. by apply (mr_key s Hr).
    + intros (d & -> & Hdd)%list_elem_of_fmap. by destruct (Hd d Hdd) as (row & k' & _ & _ & _ & ? & ->).
  - intros d Hdd. destruct (Hd d Hdd) as (row & k' & _ & Hfr & Hv & Hc & ->).
    destruct (Hf _ _ Hfr) as (_ & Hk & Hp & Hx). rewrite Hk, Hp. pose proof (mr_key s Hr k' row Hv) as Hkey.
    split; [by exists row|]. split; [done|]. intros c. unfold mem_child. rewrite Hv. split; [by intros (? & [= <-] & ?)|by exists row].
Qed.

Lemma mem_load D `{DataSerializer D} s k (x : D) : mem_ready s → mem_sees D s k x →
  ∃ d, MemTrans.load k (fst s) (snd s) = Ok d ∧ dao_of k x (DaoMut.new d)
    ∧ ∀ c, mem_child s c k ↔ rwh_parent (fst d) = in_collection c.
Proof.
  intros Hr (row & Hv & Hx). unfold MemTrans.load, Row.from_row_data. rewrite Hv, Hx. cbn.
  eexists. split; [done|]. unfold dao_of, DaoMut.key. cbn. rewrite (mr_key s Hr k row Hv).
  split; [done|]. intros c. unfold mem_child. rewrite Hv. split; [by intros (? & [= <-] & ?)|by exists row].
Qed.

(** A transaction that is begun on what is durable. *)
Lemma mem_begun s : mem_durable s → mem_ready (fst s, ∅ : MemTx) ∧ mem_eq s (fst s, ∅ : MemTx).
Proof.
  intros [Hr Hd]. assert (mem_eq s (fst s, ∅ : MemTx)) as He by (intros k; cbn; by rewrite Hd).
  split; [|done]. by eapply mem_eq_ready.
Qed.

Lemma mem_store D `{TotalData D} s (x : D) : mem_ready s →
  ∃ dao s', MemTrans.store None x s = (Ok dao, s') ∧ dao_of (DaoMut.key dao) x dao ∧ mem_ready s'
    ∧ DaoMut.key dao = PrimaryKey.new (mem_next (fst s)) ∧ rwh_parent (dao_header dao) = None
    ∧ rwh_auth (dao_header dao) = inherit_auth
    ∧ mem_sees D s' (DaoMut.key dao) x ∧ (∀ k', k' ≠ DaoMut.key dao → visible s' k' = visible s k')
    ∧ ∀ c, ¬ mem_child s' c (DaoMut.key dao).
Proof.
  destruct s as [b t]. intros Hr. unfold MemTrans.store, st_mk. cbn [default].
  match goal with |- context [MemTrans.put ?d] => set (dao := d) end.
  set (b' := {| mem_rows := mem_rows b; mem_next := mem_next b + 1 |}).
  destruct (mem_put D (b', t) dao (PrimaryKey.new (mem_next b)) x) as (s' & E & Hr' & _ & Hs & Ho & Hc).
  { eapply mem_eq_ready; [|..|exact Hr]; [by intros k|cbn; lia]. }
  { cbn. lia. }
  { done. }
  exists dao, s'. rewrite (st_bind_Ok _ _ _ _ _ E). repeat (split; [done|]). intros c Hch%Hc. done.
Qed.

#[global] Program Instance mem_tree : TreeSpec MemStore MemTx := {
  tt_sees D _ := mem_sees D;
  tt_child := mem_child;
  tt_ready := mem_ready;
  tt_durable := mem_durable;
}.
Next Obligation.
  intros s scope Hd. destruct (mem_begun s Hd) as [Hr He]. split; [done|]. split; [by split|]. by apply mem_eq_same.
Qed.
Next Obligation.
  intros b t Hr. cbn.
  assert (mem_ready ({| mem_rows := mem_rows b; mem_next := mem_next b + 1 |}, t)) as Hr'.
  { eapply mem_eq_ready; [|..|exact Hr]; [by intros k|cbn; lia]. }
  split; [done|]. split; [by apply mem_eq_same|]. intros [_ Hd]. by split.
Qed.
Next Obligation. intros D HD s k x y (row & Hv & Hx) (row' & Hv' & Hy). congruence. Qed.
Next Obligation.
  intros D HD [b t] k x Hr Hs. destruct (mem_load D (b, t) k x Hr Hs) as (d & E & Hd & Hp).
  cbn in E. exists (DaoMut.new d), (b, t). cbn. unfold st_mk. rewrite E. split; [done|]. split; [done|].
  split; [intros c; rewrite (proj1 Hd); apply Hp|]. split; [done|]. split; [by apply mem_eq_same|done].
Qed.
Next Obligation.
  intros D HD s k x Hr Hd Hs. destruct (mem_begun s Hd) as [Hr' He].
  destruct (mem_load D (fst s, ∅) k x Hr') as (d & E & Hdd & _); [by apply (mem_eq_same _ _ He)|].
  cbn in E. exists d, (fst s). cbn. unfold st_mk. rewrite E. split; [done|].
  split; [apply Hdd|]. split; [apply Hdd|]. destruct s. split; [done|]. split; [by apply mem_eq_same|done].
Qed.
Next Obligation.
  intros D HD [b t] k id missing errors Hr Hall.
  destruct (mem_children D (b, t) k id Hr Hall) as (ds & E & Hk & Hd). cbn in E.
  exists (map DaoMut.new ds), (b, t). cbn. unfold st_mk. rewrite E. split; [done|]. split; [done|].
  split; [by apply mem_eq_same|]. split; [|split; [|done]].
  - intros k'. rewrite (Hk k'), map_map. done.
  - intros dao (d & -> & Hdd)%list_elem_of_fmap. destruct (Hd d Hdd) as (Hs & Hh & Hp).
    split; [done|]. by split.
Qed.
Next Obligation.
  intros D HD s k id missing errors Hr Hd Hall. destruct (mem_begun s Hd) as [Hr' He].
  pose proof (mem_eq_same _ _ He) as [Hes Hec].
  destruct (mem_children D (fst s, ∅) k id Hr') as (ds & E & Hk & Hds).
  { intros k' Hc. apply Hec in Hc. destruct (Hall k' Hc) as [x Hx]. exists x. by apply Hes. }
  cbn in E. exists ds, (fst s). cbn. unfold st_mk. rewrite E. destruct s as [b t]. split; [done|].
  split; [done|]. split; [by apply mem_eq_same|]. split; [done|]. split.
  - intros k'. rewrite (Hec _ k'). apply Hk.
  - intros d Hdd. apply Hes. by apply Hds.
Qed.
Next Obligation.
  intros D HD HTD s x Hr. destruct (mem_store D s x Hr) as (dao & s' & E & Hd & Hr' & Hk & Hp & Ha & Hs & Ho & Hc).
  assert (visible s (DaoMut.key dao) = None) as Hnone by (rewrite Hk; apply (mr_new s Hr); cbn; lia).
  exists dao, s'. split; [done|]. split; [done|]. split; [done|]. split; [done|]. split; [by rewrite Ha|].
  split; [intros D' HD' y (row & Hv & _); congruence|]. split; [intros c (row & Hv & _); congruence|].
  split.
  - intros id k' (row & Hv & Hpar). pose proof (mr_parent s Hr k' row Hv) as Hle. rewrite Hpar in Hle.
    cbn in Hle. rewrite Hk in Hle. cbn in Hle. lia.
  - split; [done|]. split; [by apply mem_elsewhere|]. intros c. rewrite Hp. split; [by intros ?%Hc|done].
Qed.
Next Obligation.
  intros D HD HTD s k x dao Hr Hd Hs. cbn.
  destruct (mem_put D s dao k x Hr (mem_bound D s k x Hr Hs) Hd) as (s' & E & Hr' & _ & Hx & Ho & Hc).
  destruct (snd s !! DaoMut.key dao); cbn.
  - split; [done|]. split; [done|]. split; [by apply mem_elsewhere|by left].
  - rewrite E. cbn. split; [done|]. split; [done|]. split; [by apply mem_elsewhere|]. right. intros c. by rewrite (proj1 Hd).
Qed.
Next Obligation.
  intros D HD HTD s k x y h dao Hr Hd Hs.
  destruct (mem_put D s dao k x Hr (mem_bound D s k y Hr Hs) Hd) as (s' & E & Hr' & _ & Hx & Ho & Hc).
  exists s'. cbn. rewrite orb_true_r. split; [done|]. split; [done|]. split; [done|].
  split; [by apply mem_elsewhere|]. intros c. by rewrite (proj1 Hd).
Qed.
Next Obligation.
  intros D HD HTD s k x dao Hr Hd Hs.
  destruct (mem_put D s dao k x Hr (mem_bound D s k x Hr Hs) Hd) as (s' & E & Hr' & _ & Hx & Ho & Hc).
  exists s'. cbn. split; [done|]. split; [done|]. split; [done|].
  split; [by apply mem_elsewhere|]. intros c. by rewrite (proj1 Hd).
Qed.
Next Obligation.
  intros [b t] Hr. eexists. split; [reflexivity|].
  assert (mem_eq (b, t) ({| mem_rows := MemTrans.rows_of b t; mem_next := mem_next b |}, ∅)) as He.
  { intros k. cbn. unfold MemTrans.visible at 2. rewrite lookup_empty. symmetry. apply rows_of_lookup. }
  assert (mem_ready ({| mem_rows := MemTrans.rows_of b t; mem_next := mem_next b |}, ∅)) as Hr' by by eapply mem_eq_ready.
  split; [done|]. split; [by apply mem_eq_same|by split].
Qed.
Next Obligation. intros b t Hr Hd. exists b. split; [done|]. split; [done|]. split; [by apply mem_eq_same|done]. Qed.
Next Obligation. intros b t Hr Hd. exists b. split; [done|]. split; [done|]. split; [by apply mem_eq_same|done]. Qed.

#[global] Instance mem_drop : DropSpec MemStore MemTx.
Proof.
  intros D HD h d dao [b t] r s' scope E [Hr _]. cbn in *.
  assert (mem_rows (fst s') = mem_rows b ∧ mem_next b ≤ mem_next (fst s')) as [Hrows Hle].
  { destruct (h || d); [|injection E as <- <-; split; [done|cbn; lia]]. unfold MemTrans.put, st_mk in E.
    destruct (Row.as_row_data _ _); injection E as <- <-; (split; [done|cbn; lia]). }
  assert (mem_eq (b, ∅ : MemTx) (fst s', ∅)) as He
    by (intros k; cbn; unfold MemTrans.visible; by rewrite Hrows).
  split; [split; [|done]; by eapply mem_eq_ready|by apply mem_eq_same].
Qed.
End mem.
