(* ===== verification/FileModel.v ===== *)
(** * The records of the file system

    files/src/model.rs, error.rs and api.rs: inodes, bundles of pages and pages as records of a
    chain; the maps and vectors of records that hang under a record (lib/src/dio/vec.rs and
    map.rs); and the errors of the file system. *)

From S2P Require Import Prelude LogApi Crypto Codec Secure Meta Time Event Index Signature Tree Compact Plugins LogFile MemDb RedoLog Chain ChainSpec Pipe Dio Trans.

Definition PAGES_PER_BUNDLE : Z := 1024.
Definition PAGE_SIZE : Z := 131072.

(** ** Errors *)

(** [FileSystemErrorKind]; the errors of the layers below as the links of [AteError].
    [Panicked] is not an error: the thread panics. *)
Inductive FileSystemErrorKind : Type :=
  | NotDirectory | IsDirectory | DoesNotExist | NoAccess | PermissionDenied | FsReadOnly
  | InvalidArguments | NoEntry | AlreadyExists | NotImplemented
  | FsIO (e : IoErrorKind)
  | AteLoadError (e : DioLoadErrorKind)
  | AteTransformError (e : TransformErrorKind)
  | AteSerializationError (e : RowErrorKind)
  | AteCommitError (e : DioCommitErrorKind)
  | WeakDio
  | Panicked.

Module FileSystemErrorKind.
Definition from_transform (e : TransformErrorKind) : FileSystemErrorKind :=
  match e with MissingReadKey _ => NoAccess | e => AteTransformError e end.

Definition from_serialization (e : RowErrorKind) : FileSystemErrorKind := AteSerializationError e.

Definition from_load (e : DioLoadErrorKind) : FileSystemErrorKind :=
  match e with
  | NotFound _ => NoEntry
  | DioSerialization e => from_serialization e
  | DioTransformation e => from_transform e
  | e => AteLoadError e
  end.

(** The kinds of a commit that is refused because the chain is read only come from the pipes of
    the mesh. *)
Definition from_commit (e : DioCommitErrorKind) : FileSystemErrorKind :=
  match e with
  | DioCommitSerialization e => from_serialization (RowSerde e)
  | DioCommitTransform e => from_transform e
  | e => AteCommitError e
  end.
End FileSystemErrorKind.

(** ** Maps of records *)

(** [bincode] and [base64] on the keys of a [DaoMap]. *)
Class KeyText : Type := {
  key_encode : string → string;
  key_decode : string → option string;
  key_decode_encode k : key_decode (key_encode k) = Some k;
}.

(** [DaoMap<String, _>]; the records are in the collection [dmap_vec_id] of the record that has
    the map, and [lookup] has their keys.  A map that is loaded is one that is saved. *)
Record DaoMap : Type := { dmap_lookup : gmap string PrimaryKey; dmap_vec_id : Z }.

Module DaoMap.
Definition new (vec_id : Z) : DaoMap := {| dmap_lookup := ∅; dmap_vec_id := vec_id |}.

Section ops.
Context {B T : Type} `{!Trans B T} `{!KeyText} {V : Type} `{!DataSerializer V}.
Implicit Types (parent_id : PrimaryKey) (m : DaoMap).

(** [insert_ret]: the map and the record.  When the record that was under the key cannot be
    deleted the map has changed all the same. *)
Definition insert_ret parent_id (key : string) (value : V) m
    : st (B * T) RowErrorKind (DaoMap * result RowErrorKind (DaoMut V)) :=
  ret ← tr_store None value;
  ret ← tr_attach_ext parent_id (dmap_vec_id m) ret;
  let m' := {| dmap_lookup := <[key_encode key := DaoMut.key ret]> (dmap_lookup m);
               dmap_vec_id := dmap_vec_id m |} in
  match dmap_lookup m !! key_encode key with
  | Some old => st_try (tr_delete old) (λ r, mret (m', _ ← r; Ok ret))
  | None => mret (m', Ok ret)
  end.

(** [get] of a map that was loaded within a transaction, and of one that was not. *)
Definition get (key : string) m : st (B * T) DioLoadErrorKind (option (DaoMut V)) :=
  st_mk (λ s,
    match dmap_lookup m !! key_encode key with
    | None => (Ok None, s)
    | Some id =>
        match tr_load V id s with
        | (Ok a, s) => (Ok (Some a), s)
        | (Err (NotFound _), s) => (Ok None, s)
        | (Err e, s) => (Err e, s)
        end
    end).

Definition get_ro (key : string) m : st B DioLoadErrorKind (option (RowHeader * Row V)) :=
  st_mk (λ b,
    match dmap_lookup m !! key_encode key with
    | None => (Ok None, b)
    | Some id =>
        match tr_load_ro V id b with
        | (Ok a, b) => (Ok (Some a), b)
        | (Err (NotFound _), b) => (Ok None, b)
        | (Err e, b) => (Err e, b)
        end
    end).

(** [get_or_insert_with]; [fresh] is the default of a key, which is drawn. *)
Definition get_or_insert_with parent_id (key : string) (fresh : PrimaryKey) (value : V) m
    : st (B * T) DioLoadErrorKind (DaoMap * DaoMut V) :=
  st_mk (λ s,
    let id := default fresh (dmap_lookup m !! key_encode key) in
    let m' := {| dmap_lookup := <[key_encode key := id]> (dmap_lookup m);
                 dmap_vec_id := dmap_vec_id m |} in
    match tr_load V id s with
    | (Ok a, s) => (Ok (m', a), s)
    | (Err (NotFound _), s) =>
        (st_map_err DioSerialization
           (ret ← tr_store (Some id) value;
            ret ← tr_attach_ext parent_id (dmap_vec_id m) ret; mret (m', ret))) s
    | (Err e, s) => (Err e, s)
    end).

(** [delete] leaves the entry in [lookup]. *)
Definition delete (key : string) m : st (B * T) RowErrorKind bool :=
  st_mk (λ s,
    match dmap_lookup m !! key_encode key with
    | None => (Ok false, s)
    | Some id => if tr_exists id s then (_ ← tr_delete id; mret true) s else (Ok false, s)
    end).

(** The name a record is under; [reverse] of [iter_ext]. *)
Definition name_of m (id : PrimaryKey) : option string :=
  find_map (λ '(k, v), if decide (v = id) then Some k else None) (map_to_list (dmap_lookup m)).

Definition pairs {A} (key_of : A → PrimaryKey) m (children : list A) : list (string * A) :=
  omap (λ v, (λ k, (k, v)) <$> (name_of m (key_of v) ≫= key_decode)) children.

Definition iter_ext parent_id (missing errors : bool) m
    : st (B * T) DioLoadErrorKind (list (string * DaoMut V)) :=
  children ← tr_children V parent_id (dmap_vec_id m) missing errors;
  mret (pairs DaoMut.key m children).

Definition iter_ext_ro parent_id (missing errors : bool) m
    : st B DioLoadErrorKind (list (string * (RowHeader * Row V))) :=
  children ← tr_children_ro V parent_id (dmap_vec_id m) missing errors;
  mret (pairs (λ r, row_key (snd r)) m children).
End ops.
End DaoMap.

(** [DaoVec]: the records of the collection [vec_id] of the record that has the vector. *)
Module DaoVec.
Section ops.
Context {B T : Type} `{!Trans B T} {V : Type} `{!DataSerializer V}.
Implicit Types (parent_id : PrimaryKey) (vec_id : Z).

Definition iter_ext parent_id vec_id (missing errors : bool)
    : st B DioLoadErrorKind (list (RowHeader * Row V)) :=
  tr_children_ro V parent_id vec_id missing errors.

Definition iter_mut_ext parent_id vec_id (missing errors : bool)
    : st (B * T) DioLoadErrorKind (list (DaoMut V)) :=
  tr_children V parent_id vec_id missing errors.

Definition push_with_key parent_id vec_id (key : option PrimaryKey) (data : V)
    : st (B * T) RowErrorKind (DaoMut V) :=
  ret ← tr_store key data; tr_attach_ext parent_id vec_id ret.

Definition push parent_id vec_id (data : V) : st (B * T) RowErrorKind (DaoMut V) :=
  push_with_key parent_id vec_id None data.
End ops.
End DaoVec.

(** ** Inodes *)

Inductive FileKind : Type := Directory | RegularFile | FixedFile | SymLink.

#[global] Instance FileKind_eq_dec : EqDecision FileKind.
Proof. solve_decision. Defined.

Record Dentry : Type := {
  de_parent : option Z;
  de_name : string;
  de_mode : Z;
  de_uid : Z;
  de_gid : Z;
  de_xattr : gmap string string;
}.

(** [in_children] is the number of the vector of children. *)
Record Inode : Type := {
  in_kind : FileKind;
  in_dentry : Dentry;
  in_size : Z;
  in_bundles : list (option PrimaryKey);
  in_children : Z;
  in_link : option string;
  in_xattr : DaoMap;
}.

Record PageBundle : Type := { pb_pages : list (option PrimaryKey) }.
Record Page : Type := { pg_buf : bytes }.

Module Inode.
Implicit Types i : Inode.

(** [children_id] and [xattr_id] are drawn. *)
Definition new (children_id xattr_id : Z) (name : string) (mode uid gid : Z) (kind : FileKind)
    : Inode :=
  {| in_kind := kind;
     in_dentry := {| de_parent := None; de_name := name; de_mode := mode; de_uid := uid;
                     de_gid := gid; de_xattr := ∅ |};
     in_size := 0; in_bundles := []; in_children := children_id; in_link := None;
     in_xattr := DaoMap.new xattr_id |}.

Definition with_size (v : Z) i : Inode :=
  {| in_kind := in_kind i; in_dentry := in_dentry i; in_size := v; in_bundles := in_bundles i;
     in_children := in_children i; in_link := in_link i; in_xattr := in_xattr i |}.

Definition with_bundles (f : list (option PrimaryKey) → list (option PrimaryKey)) i : Inode :=
  {| in_kind := in_kind i; in_dentry := in_dentry i; in_size := in_size i;
     in_bundles := f (in_bundles i); in_children := in_children i; in_link := in_link i;
     in_xattr := in_xattr i |}.

Definition with_dentry (f : Dentry → Dentry) i : Inode :=
  {| in_kind := in_kind i; in_dentry := f (in_dentry i); in_size := in_size i;
     in_bundles := in_bundles i; in_children := in_children i; in_link := in_link i;
     in_xattr := in_xattr i |}.

Definition with_xattr (m : DaoMap) i : Inode :=
  {| in_kind := in_kind i; in_dentry := in_dentry i; in_size := in_size i;
     in_bundles := in_bundles i; in_children := in_children i; in_link := in_link i;
     in_xattr := m |}.

Definition with_link (kind : FileKind) (link : option string) i : Inode :=
  {| in_kind := kind; in_dentry := in_dentry i; in_size := in_size i;
     in_bundles := in_bundles i; in_children := in_children i; in_link := link;
     in_xattr := in_xattr i |}.

(** The setters of [dentry]. *)
Definition set_name (v : string) (d : Dentry) : Dentry :=
  {| de_parent := de_parent d; de_name := v; de_mode := de_mode d; de_uid := de_uid d;
     de_gid := de_gid d; de_xattr := de_xattr d |}.
Definition set_mode (v : Z) (d : Dentry) : Dentry :=
  {| de_parent := de_parent d; de_name := de_name d; de_mode := v; de_uid := de_uid d;
     de_gid := de_gid d; de_xattr := de_xattr d |}.
Definition set_uid (v : Z) (d : Dentry) : Dentry :=
  {| de_parent := de_parent d; de_name := de_name d; de_mode := de_mode d; de_uid := v;
     de_gid := de_gid d; de_xattr := de_xattr d |}.
Definition set_gid (v : Z) (d : Dentry) : Dentry :=
  {| de_parent := de_parent d; de_name := de_name d; de_mode := de_mode d; de_uid := de_uid d;
     de_gid := v; de_xattr := de_xattr d |}.
End Inode.
