(* ===== verification/RegFile.v ===== *)
(** * Regular files

    files/src/file.rs: the bytes of a file are in pages, the pages in bundles, and the inode
    has the bundles; each is a record of the chain.  An open file keeps some of the records it
    used in cache lines that are picked by the key.  Arithmetic on [u64] that overflows is a
    panic, as in a build with overflow checks. *)

From S2P Require Import Prelude LogApi Crypto Codec Secure Meta Time Event Index Signature Tree Compact Plugins LogFile MemDb RedoLog Chain ChainSpec Pipe Dio Trans FileModel.

Definition CACHED_BUNDLES : Z := 10.
Definition CACHED_PAGES : Z := 80.
Definition stride_bundle : Z := PAGES_PER_BUNDLE * PAGE_SIZE.

(** ** Vectors and buffers *)

Section buffers.
Context {A : Type}.
Implicit Types l : list A.

Definition len l : Z := Z.of_nat (length l).

(** [while v.len() <= n { v.push(x) }]. *)
Definition push_until (n : Z) (x : A) l : list A :=
  l ++ replicate (Z.to_nat (n + 1) - length l) x.

(** [Vec::insert]: the rest moves up. *)
Definition vec_insert (i : nat) (x : A) l : list A := take i l ++ x :: drop i l.

(** Writing through a cursor: over what is there, and on behind it. *)
Definition overwrite (offset : nat) (data l : list A) : list A :=
  take offset l ++ data ++ drop (offset + length data) l.
End buffers.

(** ** Cache lines *)

Section cache.
Context {A : Type}.
Variable key_of : A → PrimaryKey.

Definition cache_line (lines : Z) (key : PrimaryKey) : nat :=
  Z.to_nat (PrimaryKey.as_u64 key mod lines).

Definition hit (cache : list (option A)) (i : nat) (key : PrimaryKey) : option A :=
  match cache !! i with
  | Some (Some a) => if decide (key_of a = key) then Some a else None
  | _ => None
  end.
End cache.

Definition no_lines {A} (n : Z) : list (option A) := replicate (Z.to_nat n) None.

(** [DaoMutGuardOwned]. *)
Record Guard (D : Type) : Type := { gd_dao : DaoMut D; gd_dirty : bool }.
Arguments gd_dao {D} g.
Arguments gd_dirty {D} g.

Definition guard_key {D} (g : Guard D) : PrimaryKey := DaoMut.key (gd_dao g).

Abbreviation Dao D := (RowHeader * Row D)%type.

(** [FileState]; the transaction of a mutable one is the one its inode was loaded in. *)
Record FileRo : Type := {
  fr_inode : Dao Inode;
  fr_bundles : list (option (Dao PageBundle));
  fr_pages : list (option (Dao Page));
}.

Record FileMut (T : Type) : Type := {
  fm_trans : T;
  fm_dirty : bool;
  fm_inode : DaoMut Inode;
  fm_bundles : list (option (DaoMut PageBundle));
  fm_pages : list (option (Guard Page));
}.
Arguments fm_trans {T} f.
Arguments fm_dirty {T} f.
Arguments fm_inode {T} f.
Arguments fm_bundles {T} f.
Arguments fm_pages {T} f.

Inductive FileState (T : Type) : Type :=
  | Immutable (f : FileRo)
  | Mutable (f : FileMut T).
Arguments Immutable {T} f.
Arguments Mutable {T} f.

Definition dao_key {D} (d : Dao D) : PrimaryKey := row_key (snd d).
Definition inode_of {T} (f : FileMut T) : Inode := row_data (dao_row (fm_inode f)).

(** ** Reading a page *)

(** [write_zeros]: the end of a page of zeros. *)
Definition write_zeros (size : Z) : result FileSystemErrorKind bytes :=
  if decide (size ≤ 0) then Ok []
  else if decide (PAGE_SIZE < size) then Err Panicked
  else Ok (replicate (Z.to_nat size) x00).

(** The bytes of a page, and zeros behind them.  An offset behind the end of the buffer makes
    the length negative, which panics. *)
Definition read_buf (buf : bytes) (offset size : Z) : result FileSystemErrorKind bytes :=
  if decide (len buf < offset) then Err Panicked
  else
    let sub_next := Z.min size (len buf - offset) in
    rest ← write_zeros (size - sub_next);
    Ok (take (Z.to_nat sub_next) (drop (Z.to_nat offset) buf) ++ rest).

Section read_page.
Context {S : Type}.
Variable load_bundle : PrimaryKey → st S FileSystemErrorKind PageBundle.
Variable load_page : PrimaryKey → st S FileSystemErrorKind Page.

(** [read_page]: the code is written out for both kinds of files. *)
Definition read_page_with (i : Inode) (offset size : Z) : st S FileSystemErrorKind bytes :=
  let zeros : st S FileSystemErrorKind bytes := st_mk (λ s, (write_zeros size, s)) in
  let index := offset / stride_bundle in
  match in_bundles i !! Z.to_nat index with
  | Some (Some bundle) =>
      let offset := offset - index * stride_bundle in
      b ← load_bundle bundle;
      let index := offset / PAGE_SIZE in
      match pb_pages b !! Z.to_nat index with
      | Some (Some page) =>
          let offset := offset - index * PAGE_SIZE in
          p ← load_page page; st_mk (λ s, (read_buf (pg_buf p) offset size, s))
      | _ => zeros
      end
  | _ => zeros
  end.

(** The loop of [read]; a turn reads up to the end of a page. *)
Fixpoint read_loop (fuel : nat) (read_page : Z → Z → st S FileSystemErrorKind bytes)
    (offset size : Z) : st S FileSystemErrorKind bytes :=
  if decide (size ≤ 0) then mret []
  else match fuel with
       | O => st_fail Panicked
       | Datatypes.S fuel =>
           let sub_size := Z.min size (PAGE_SIZE - offset mod PAGE_SIZE) in
           bs ← read_page offset sub_size;
           rest ← read_loop fuel read_page (offset + sub_size) (size - sub_size);
           mret (bs ++ rest)
       end.
End read_page.

Definition turns (size : Z) : nat := Z.to_nat (size / PAGE_SIZE + 2).

(** ** Files that are only read *)

Module FileRo.
Section ops.
Context {B T : Type} `{!Trans B T}.
Context `{!DataSerializer Inode, !DataSerializer PageBundle, !DataSerializer Page}.

Definition new (inode : Dao Inode) : FileRo :=
  {| fr_inode := inode; fr_bundles := no_lines CACHED_BUNDLES; fr_pages := no_lines CACHED_PAGES |}.

Definition load_bundle (key : PrimaryKey) : st (B * FileRo) FileSystemErrorKind PageBundle :=
  st_mk (λ '(b, f),
    let i := cache_line CACHED_BUNDLES key in
    match hit dao_key (fr_bundles f) i key with
    | Some d => (Ok (row_data (snd d)), (b, f))
    | None =>
        match tr_load_ro PageBundle key b with
        | (Err e, b) => (Err (FileSystemErrorKind.from_load e), (b, f))
        | (Ok d, b) =>
            (Ok (row_data (snd d)),
             (b, {| fr_inode := fr_inode f; fr_bundles := <[i := Some d]> (fr_bundles f);
                    fr_pages := fr_pages f |}))
        end
    end).

Definition load_page (key : PrimaryKey) : st (B * FileRo) FileSystemErrorKind Page :=
  st_mk (λ '(b, f),
    let i := cache_line CACHED_PAGES key in
    match hit dao_key (fr_pages f) i key with
    | Some d => (Ok (row_data (snd d)), (b, f))
    | None =>
        match tr_load_ro Page key b with
        | (Err e, b) => (Err (FileSystemErrorKind.from_load e), (b, f))
        | (Ok d, b) =>
            (Ok (row_data (snd d)),
             (b, {| fr_inode := fr_inode f; fr_bundles := fr_bundles f;
                    fr_pages := <[i := Some d]> (fr_pages f) |}))
        end
    end).

Definition read_page (offset size : Z) : st (B * FileRo) FileSystemErrorKind bytes :=
  st_mk (λ '(b, f),
    read_page_with load_bundle load_page (row_data (snd (fr_inode f))) offset size (b, f)).
End ops.
End FileRo.

(** ** Files that may be written *)

Module FileMut.
Section ops.
Context {B T : Type} `{!Trans B T}.
Context `{!DataSerializer Inode, !DataSerializer PageBundle, !DataSerializer Page}.
Implicit Types f : FileMut T.

Definition new (trans : T) (inode : DaoMut Inode) : FileMut T :=
  {| fm_trans := trans; fm_dirty := false; fm_inode := inode;
     fm_bundles := no_lines CACHED_BUNDLES; fm_pages := no_lines CACHED_PAGES |}.

Definition with_trans f (t : T) : FileMut T :=
  {| fm_trans := t; fm_dirty := fm_dirty f; fm_inode := fm_inode f; fm_bundles := fm_bundles f;
     fm_pages := fm_pages f |}.
Definition with_dirty f (b : bool) : FileMut T :=
  {| fm_trans := fm_trans f; fm_dirty := b; fm_inode := fm_inode f; fm_bundles := fm_bundles f;
     fm_pages := fm_pages f |}.
Definition with_inode f (d : DaoMut Inode) : FileMut T :=
  {| fm_trans := fm_trans f; fm_dirty := fm_dirty f; fm_inode := d; fm_bundles := fm_bundles f;
     fm_pages := fm_pages f |}.
Definition with_bundles f (l : list (option (DaoMut PageBundle))) : FileMut T :=
  {| fm_trans := fm_trans f; fm_dirty := fm_dirty f; fm_inode := fm_inode f; fm_bundles := l;
     fm_pages := fm_pages f |}.
Definition with_pages f (l : list (option (Guard Page))) : FileMut T :=
  {| fm_trans := fm_trans f; fm_dirty := fm_dirty f; fm_inode := fm_inode f;
     fm_bundles := fm_bundles f; fm_pages := l |}.

(** An operation of the transaction. *)
Definition on_trans {E A} (wrap : E → FileSystemErrorKind) (op : st (B * T) E A)
    : st (B * FileMut T) FileSystemErrorKind A :=
  st_mk (λ '(b, f),
    let '(r, (b, t)) := op (b, fm_trans f) in (map_err wrap r, (b, with_trans f t))).

Definition change (op : FileMut T → FileMut T) : st (B * FileMut T) FileSystemErrorKind unit :=
  st_mk (λ '(b, f), (Ok (), (b, op f))).

Definition commit_trans : st (B * FileMut T) FileSystemErrorKind unit :=
  on_trans FileSystemErrorKind.from_commit tr_commit.

(** A guard that is dropped panics when it cannot commit. *)
Definition panics {E} (_ : E) : FileSystemErrorKind := Panicked.

Definition modify_inode (op : Inode → Inode) : st (B * FileMut T) FileSystemErrorKind unit :=
  st_mk (λ '(b, f),
    (d ← on_trans panics (tr_modify op (fm_inode f)); change (λ f, with_inode f d)) (b, f)).

(** *** The cache lines *)

Definition cache_bundle (d : DaoMut PageBundle) : st (B * FileMut T) FileSystemErrorKind unit :=
  change (λ f, with_bundles f
    (<[cache_line CACHED_BUNDLES (DaoMut.key d) := Some d]> (fm_bundles f))).

Definition load_bundle (key : PrimaryKey)
    : st (B * FileMut T) FileSystemErrorKind (DaoMut PageBundle) :=
  st_mk (λ '(b, f),
    match hit DaoMut.key (fm_bundles f) (cache_line CACHED_BUNDLES key) key with
    | Some d => (Ok d, (b, f))
    | None =>
        (d ← on_trans FileSystemErrorKind.from_load (tr_load PageBundle key);
         _ ← change (λ f, with_bundles f
               (<[cache_line CACHED_BUNDLES key := Some d]> (fm_bundles f)));
         mret d) (b, f)
    end).

Definition drop_guard (g : option (Guard Page)) : st (B * FileMut T) FileSystemErrorKind unit :=
  match g with
  | Some g => if gd_dirty g then on_trans panics (tr_save false true (gd_dao g)) else mret ()
  | None => mret ()
  end.

(** [cache_line.replace]; what was there is dropped. *)
Definition cache_page (i : nat) (g : Guard Page) : st (B * FileMut T) FileSystemErrorKind unit :=
  st_mk (λ '(b, f),
    drop_guard (default None (fm_pages f !! i)) (b, with_pages f (<[i := Some g]> (fm_pages f)))).

Definition load_page (lines : Z) (key : PrimaryKey)
    : st (B * FileMut T) FileSystemErrorKind (Guard Page) :=
  st_mk (λ '(b, f),
    let i := cache_line lines key in
    match hit guard_key (fm_pages f) i key with
    | Some g => (Ok g, (b, f))
    | None =>
        (d ← on_trans FileSystemErrorKind.from_load (tr_load Page key);
         _ ← cache_page i {| gd_dao := d; gd_dirty := false |};
         mret {| gd_dao := d; gd_dirty := false |}) (b, f)
    end).

(** *** Reading *)

Definition read_page (offset size : Z) : st (B * FileMut T) FileSystemErrorKind bytes :=
  st_mk (λ '(b, f),
    read_page_with (λ key, d ← load_bundle key; mret (row_data (dao_row d)))
      (λ key, g ← load_page CACHED_PAGES key; mret (row_data (dao_row (gd_dao g))))
      (inode_of f) offset size (b, f)).

(** *** Writing *)

Definition modify_bundle (op : PageBundle → PageBundle) (d : DaoMut PageBundle)
    : st (B * FileMut T) FileSystemErrorKind (DaoMut PageBundle) :=
  d ← on_trans panics (tr_modify op d); _ ← cache_bundle d; mret d.

(** The bundle a write goes to: the vector of bundles is extended to it, and a hole is filled
    with a new bundle. *)
Definition bundle_at (index : Z) : st (B * FileMut T) FileSystemErrorKind PrimaryKey :=
  _ ← st_mk (λ '(b, f),
        if decide (len (in_bundles (inode_of f)) ≤ index)
        then (_ ← modify_inode (Inode.with_bundles (push_until index None)); commit_trans) (b, f)
        else (Ok (), (b, f)));
  st_mk (λ '(b, f),
    match in_bundles (inode_of f) !! Z.to_nat index with
    | None => (Err Panicked, (b, f))
    | Some (Some key) => (Ok key, (b, f))
    | Some None =>
        (d ← on_trans FileSystemErrorKind.from_serialization (tr_store None {| pb_pages := [] |});
         d ← on_trans FileSystemErrorKind.from_serialization
               (tr_attach_ext (DaoMut.key (fm_inode f)) 0 d);
         _ ← cache_bundle d;
         _ ← modify_inode (Inode.with_bundles (vec_insert (Z.to_nat index) (Some (DaoMut.key d))));
         _ ← commit_trans;
         mret (DaoMut.key d)) (b, f)
    end).

Definition with_entries (op : list (option PrimaryKey) → list (option PrimaryKey)) (p : PageBundle)
    : PageBundle := {| pb_pages := op (pb_pages p) |}.

(** The page of a bundle a write goes to.  New pages are kept in the lines for bundles. *)
Definition page_at (bundle : DaoMut PageBundle) (index : Z)
    : st (B * FileMut T) FileSystemErrorKind PrimaryKey :=
  bundle ← (if decide (len (pb_pages (row_data (dao_row bundle))) ≤ index)
            then d ← modify_bundle (with_entries (λ l,
                       push_until index None (push_until PAGES_PER_BUNDLE None l))) bundle;
                 _ ← commit_trans; mret d
            else mret bundle);
  match pb_pages (row_data (dao_row (bundle : DaoMut PageBundle))) !! Z.to_nat index with
  | None => st_fail Panicked
  | Some (Some key) => mret key
  | Some None =>
      d ← on_trans FileSystemErrorKind.from_serialization (tr_store None {| pg_buf := [] |});
      d ← on_trans FileSystemErrorKind.from_serialization (tr_attach_ext (DaoMut.key bundle) 0 d);
      _ ← cache_page (cache_line CACHED_BUNDLES (DaoMut.key d)) {| gd_dao := d; gd_dirty := false |};
      _ ← modify_bundle (with_entries (vec_insert (Z.to_nat index) (Some (DaoMut.key d)))) bundle;
      _ ← commit_trans;
      mret (DaoMut.key d)
  end.

(** The write into the buffer of the page in line [i], which is extended to the offset. *)
Definition write_buf (offset : Z) (data : bytes) (g : Guard Page) : Guard Page :=
  let buf := push_until (offset - 1) x00 (pg_buf (row_data (dao_row (gd_dao g)))) in
  {| gd_dao := DaoMut.with_data (gd_dao g) {| pg_buf := overwrite (Z.to_nat offset) data buf |};
     gd_dirty := true |}.

Definition write_page (offset : Z) (data : bytes) : st (B * FileMut T) FileSystemErrorKind unit :=
  _ ← change (λ f, with_dirty f true);
  let index := offset / stride_bundle in
  key ← bundle_at index;
  let offset := offset - index * stride_bundle in
  bundle ← load_bundle key;
  let index := offset / PAGE_SIZE in
  key ← page_at bundle index;
  let offset := offset - index * PAGE_SIZE in
  g ← load_page CACHED_BUNDLES key;
  change (λ f, with_pages f
    (<[cache_line CACHED_BUNDLES key := Some (write_buf offset data g)]> (fm_pages f))).

Definition set_size (v : Z) : st (B * FileMut T) FileSystemErrorKind unit :=
  _ ← modify_inode (Inode.with_size v); change (λ f, with_dirty f true).

(** The loop of [write]. *)
Fixpoint write_loop (fuel : nat) (offset : Z) (data : bytes)
    : st (B * FileMut T) FileSystemErrorKind unit :=
  match data with
  | [] => mret ()
  | _ => match fuel with
         | O => st_fail Panicked
         | S fuel =>
             let sub_size := Z.min (len data) (PAGE_SIZE - offset mod PAGE_SIZE) in
             _ ← write_page offset (take (Z.to_nat sub_size) data);
             write_loop fuel (offset + sub_size) (drop (Z.to_nat sub_size) data)
         end
  end.

(** *** Committing *)

Fixpoint drop_guards (pages : list (option (Guard Page)))
    : st (B * FileMut T) FileSystemErrorKind unit :=
  match pages with
  | [] => mret ()
  | g :: pages => _ ← drop_guard g; drop_guards pages
  end.

Definition commit : st (B * FileMut T) FileSystemErrorKind unit :=
  st_mk (λ '(b, f),
    if fm_dirty f then
      (_ ← change (λ f, with_pages f (no_lines CACHED_PAGES));
       _ ← drop_guards (fm_pages f);
       _ ← commit_trans;
       change (λ f, with_dirty f false)) (b, f)
    else (Ok (), (b, f))).

(** *** Extended attributes *)

Context `{!DataSerializer string, !KeyText}.

(** An operation on the attributes under the guard of the inode, which is dropped, and commits,
    also when the operation fails. *)
Definition under_guard {A} (op : DaoMap → st (B * T) RowErrorKind (DaoMap * result RowErrorKind A))
    : st (B * FileMut T) FileSystemErrorKind A :=
  st_mk (λ '(b, f),
    let d := fm_inode f in
    let xattr := in_xattr (row_data (dao_row d)) in
    let '(b, t) := tr_as_mut d (b, fm_trans f) in
    let '(r, (b, t)) := op xattr (b, t) in
    let d := DaoMut.with_data d (Inode.with_xattr (match r with Ok (m, _) => m | Err _ => xattr end)
                                   (row_data (dao_row d))) in
    (_ ← on_trans panics (tr_save false true d);
     _ ← change (λ f, with_inode f d);
     st_mk (λ s, (map_err FileSystemErrorKind.from_serialization (r ≫= snd), s)))
      (b, with_trans f t)).

Definition set_xattr (name value : string) : st (B * FileMut T) FileSystemErrorKind unit :=
  st_mk (λ '(b, f),
    (_ ← under_guard (DaoMap.insert_ret (DaoMut.key (fm_inode f)) name value); mret ()) (b, f)).

Definition remove_xattr (name : string) : st (B * FileMut T) FileSystemErrorKind bool :=
  under_guard (λ m, r ← DaoMap.delete name m; mret (m, Ok r)).

Definition get_xattr (name : string) : st (B * FileMut T) FileSystemErrorKind (option string) :=
  st_mk (λ '(b, f),
    (d ← on_trans FileSystemErrorKind.from_load
           (DaoMap.get (V := string) name (in_xattr (inode_of f)));
     mret ((λ d, row_data (dao_row d)) <$> (d : option (DaoMut string)))) (b, f)).

Definition list_xattr : st (B * FileMut T) FileSystemErrorKind (gmap string string) :=
  st_mk (λ '(b, f),
    (l ← on_trans FileSystemErrorKind.from_load
           (DaoMap.iter_ext (V := string) (DaoMut.key (fm_inode f)) false false
              (in_xattr (inode_of f)));
     mret (foldl (λ m (kv : string * DaoMut string), <[kv.1 := row_data (dao_row kv.2)]> m) ∅ l))
      (b, f)).
End ops.
End FileMut.

(** ** The files *)

Record RegularFile (T : Type) : Type := {
  rf_ino : Z;
  rf_created : Z;
  rf_updated : Z;
  rf_uid : Z;
  rf_gid : Z;
  rf_mode : Z;
  rf_name : string;
  rf_size : Z;
  rf_state : FileState T;
}.
Arguments rf_ino {T} r.
Arguments rf_created {T} r.
Arguments rf_updated {T} r.
Arguments rf_uid {T} r.
Arguments rf_gid {T} r.
Arguments rf_mode {T} r.
Arguments rf_name {T} r.
Arguments rf_size {T} r.
Arguments rf_state {T} r.

Module RegularFile.
Section ops.
Context {B T : Type} `{!Trans B T}.
Context `{!DataSerializer Inode, !DataSerializer PageBundle, !DataSerializer Page}.
Context `{!DataSerializer string, !KeyText}.
Implicit Types r : RegularFile T.

Definition make (i : Inode) (key : PrimaryKey) (created updated : Z) (s : FileState T)
    : RegularFile T :=
  let d := in_dentry i in
  {| rf_ino := PrimaryKey.as_u64 key; rf_created := created; rf_updated := updated;
     rf_uid := de_uid d; rf_gid := de_gid d; rf_mode := de_mode d; rf_name := de_name d;
     rf_size := in_size i; rf_state := s |}.

Definition new (inode : Dao Inode) (created updated : Z) : RegularFile T :=
  make (row_data (snd inode)) (dao_key inode) created updated (Immutable (FileRo.new inode)).

Definition new_mut (trans : T) (inode : DaoMut Inode) (created updated : Z) : RegularFile T :=
  make (row_data (dao_row inode)) (DaoMut.key inode) created updated
    (Mutable (FileMut.new trans inode)).

Definition with_state r (size : Z) (s : FileState T) : RegularFile T :=
  {| rf_ino := rf_ino r; rf_created := rf_created r; rf_updated := rf_updated r;
     rf_uid := rf_uid r; rf_gid := rf_gid r; rf_mode := rf_mode r; rf_name := rf_name r;
     rf_size := size; rf_state := s |}.

(** [FileState::get_size]. *)
Definition get_size r : Z :=
  match rf_state r with
  | Immutable f => in_size (row_data (snd (fr_inode f)))
  | Mutable f => in_size (inode_of f)
  end.

(** What both kinds of files can do, and what only a mutable one can. *)
Definition on_state {A} (ro : st (B * FileRo) FileSystemErrorKind A)
    (rw : st (B * FileMut T) FileSystemErrorKind A) : st (B * RegularFile T) FileSystemErrorKind A :=
  st_mk (λ '(b, r),
    match rf_state r with
    | Immutable f => let '(x, (b, f)) := ro (b, f) in (x, (b, with_state r (rf_size r) (Immutable f)))
    | Mutable f => let '(x, (b, f)) := rw (b, f) in (x, (b, with_state r (rf_size r) (Mutable f)))
    end).

Definition note_size : st (B * RegularFile T) FileSystemErrorKind unit :=
  st_mk (λ '(b, r), (Ok (), (b, with_state r (get_size r) (rf_state r)))).

Definition fallocate (size : Z) : st (B * RegularFile T) FileSystemErrorKind unit :=
  _ ← on_state (st_fail NoAccess) (FileMut.set_size size);
  st_mk (λ '(b, r), (Ok (), (b, with_state r size (rf_state r)))).

Definition read (offset size : Z) : st (B * RegularFile T) FileSystemErrorKind bytes :=
  st_mk (λ '(b, r),
    let file_size := get_size r in
    if decide (file_size ≤ offset) then (Ok [], (b, r))
    else
      let size := Z.min size (file_size - offset) in
      if decide (size ≤ 0) then (Ok [], (b, r))
      else on_state (read_loop (turns size) FileRo.read_page offset size)
                    (read_loop (turns size) FileMut.read_page offset size) (b, r)).

(** The size the handle shows is set when all was written. *)
Definition write (offset : Z) (data : bytes) : st (B * RegularFile T) FileSystemErrorKind Z :=
  match data with
  | [] => mret 0
  | _ =>
      let end_ := offset + len data in
      if decide (u64_max < end_) then st_fail Panicked
      else
        _ ← st_mk (λ '(b, r),
              if decide (get_size r < end_)
              then on_state (st_fail NoAccess) (FileMut.set_size end_) (b, r)
              else (Ok (), (b, r)));
        _ ← on_state (st_fail NoAccess) (FileMut.write_loop (turns (len data)) offset data);
        _ ← note_size;
        mret (len data)
  end.

Definition commit : st (B * RegularFile T) FileSystemErrorKind unit :=
  on_state (mret ()) FileMut.commit.

Definition set_xattr (name value : string) : st (B * RegularFile T) FileSystemErrorKind unit :=
  on_state (st_fail NoAccess) (FileMut.set_xattr name value).

Definition remove_xattr (name : string) : st (B * RegularFile T) FileSystemErrorKind bool :=
  on_state (st_fail NoAccess) (FileMut.remove_xattr name).

Definition on_ro {E A} (wrap : E → FileSystemErrorKind) (op : Dao Inode → st B E A)
    : st (B * FileRo) FileSystemErrorKind A :=
  st_mk (λ '(b, f), let '(r, b) := op (fr_inode f) b in (map_err wrap r, (b, f))).

Definition get_xattr (name : string) : st (B * RegularFile T) FileSystemErrorKind (option string) :=
  on_state
    (on_ro FileSystemErrorKind.from_load (λ i,
       d ← DaoMap.get_ro (V := string) name (in_xattr (row_data (snd i)));
       mret ((λ d, row_data (snd d)) <$> (d : option (Dao string)))))
    (FileMut.get_xattr name).

Definition list_xattr : st (B * RegularFile T) FileSystemErrorKind (gmap string string) :=
  on_state
    (on_ro FileSystemErrorKind.from_load (λ i,
       l ← DaoMap.iter_ext_ro (V := string) (dao_key i) false false (in_xattr (row_data (snd i)));
       mret (foldl (λ m (kv : string * Dao string), <[kv.1 := row_data (snd kv.2)]> m) ∅ l)))
    FileMut.list_xattr.
End ops.
End RegularFile.
