(* ===== verification/RegFileSpec.v ===== *)
(** * What a regular file keeps

    What is proved of single pages here makes the file a sequence of bytes in RegFileBytes.v.
    The records behind it are related to the bytes by [body]: which bundles and pages there are,
    what each page holds at the moment, in a cache line or in the transaction, and what the cache
    lines may hold. *)

From S2P Require Import Prelude LogApi Crypto Codec Secure Meta Time Event Index Signature Tree Compact Plugins LogFile MemDb RedoLog Chain ChainSpec Pipe Dio Trans TransSpec FileModel RegFile.

Definition page_size : nat := Z.to_nat PAGE_SIZE.
Definition per_bundle : nat := Z.to_nat PAGES_PER_BUNDLE.

Lemma page_size_pos : 0 < PAGE_SIZE.
Proof. done. Qed.
Lemma per_bundle_pos : 0 < PAGES_PER_BUNDLE.
Proof. done. Qed.
Lemma page_size_Z : Z.of_nat page_size = PAGE_SIZE.
Proof. unfold page_size. pose proof page_size_pos. lia. Qed.
Lemma per_bundle_Z : Z.of_nat per_bundle = PAGES_PER_BUNDLE.
Proof. unfold per_bundle. pose proof per_bundle_pos. lia. Qed.
#[local] Opaque PAGE_SIZE PAGES_PER_BUNDLE page_size per_bundle.

(** ** Vectors of keys with holes *)

(** [l] has the keys [ks] at its front, and holes behind them. *)
Definition entries (l : list (option PrimaryKey)) (ks : list PrimaryKey) : Prop :=
  ∀ i, mjoin (l !! i) = ks !! i.

Lemma entries_nil : entries [] [].
Proof. by intros i. Qed.

Lemma entries_length l ks : entries l ks → (length ks ≤ length l)%nat.
Proof.
  intros He. destruct (decide (length ks ≤ length l)%nat) as [|Hlt]; [done|].
  destruct (lookup_lt_is_Some_2 ks (length l)) as [k Hk]; [lia|].
  specialize (He (length l)). by rewrite (lookup_ge_None_2 l), Hk in He by lia.
Qed.

Lemma entries_Some l ks i k : entries l ks → ks !! i = Some k → l !! i = Some (Some k).
Proof. intros He Hk. specialize (He i). rewrite Hk in He. by destruct (l !! i) as [[]|]; simplify_eq/=. Qed.

Lemma entries_hole l ks i : entries l ks → ks !! i = None → l !! i = None ∨ l !! i = Some None.
Proof. intros He Hk. specialize (He i). rewrite Hk in He. destruct (l !! i) as [[]|]; eauto; done. Qed.

Lemma entries_push n l ks : entries l ks → entries (push_until n None l) ks.
Proof.
  intros He i. rewrite <- (He i). unfold push_until.
  destruct (decide (i < length l)%nat) as [Hi|Hi]; [by rewrite lookup_app_l|].
  rewrite lookup_app_r, (lookup_ge_None_2 l) by lia.
  destruct (replicate _ _ !! _) as [o|] eqn:E; [|done]. by apply lookup_replicate in E as [-> _].
Qed.

Lemma push_until_length n (l : list (option PrimaryKey)) : 0 ≤ n →
  n < len (push_until n None l).
Proof. intros Hn. unfold len, push_until. rewrite length_app, length_replicate. lia. Qed.

Lemma entries_insert l ks k : entries l ks → (length ks < length l)%nat →
  entries (vec_insert (length ks) (Some k) l) (ks ++ [k]).
Proof.
  intros He Hl i. unfold vec_insert. destruct (decide (i < length ks)%nat) as [Hi|Hi].
  - rewrite !lookup_app_l by (rewrite ?length_take; lia). rewrite lookup_take_lt by lia. apply He.
  - rewrite !lookup_app_r by (rewrite ?length_take; lia). rewrite length_take, Nat.min_l by lia.
    destruct (i - length ks)%nat as [|n] eqn:E; [done|].
    change (mjoin (drop (length ks) l !! n) = None). rewrite lookup_drop, He.
    apply lookup_ge_None_2. lia.
Qed.

(** The pages of the bundle [j]. *)
Definition slice {A} (j : nat) (l : list A) : list A := take per_bundle (drop (j * per_bundle) l).

Lemma slice_lookup {A} j i (l : list A) : (i < per_bundle)%nat → slice j l !! i = l !! (j * per_bundle + i)%nat.
Proof. intros Hi. unfold slice. by rewrite lookup_take_lt, lookup_drop. Qed.

Lemma slice_nil {A} j (l : list A) : (length l ≤ j * per_bundle)%nat → slice j l = [].
Proof. intros Hl. unfold slice. by rewrite drop_ge, take_nil. Qed.

Lemma slice_snoc_other {A} j (l : list A) x :
  (length l < j * per_bundle ∨ j * per_bundle + per_bundle ≤ length l)%nat →
  slice j (l ++ [x]) = slice j l.
Proof.
  intros [Hl|Hl]; unfold slice.
  - by rewrite !drop_ge by (rewrite ?length_app; cbn; lia).
  - rewrite drop_app_le by lia. rewrite take_app_le; [done|]. rewrite length_drop. lia.
Qed.

Lemma slice_snoc {A} j (l : list A) x :
  (j * per_bundle ≤ length l < j * per_bundle + per_bundle)%nat →
  slice j (l ++ [x]) = slice j l ++ [x].
Proof.
  intros Hl. unfold slice. rewrite drop_app_le, !firstn_all2; [done|..].
  all: rewrite ?length_app, ?length_drop; cbn; lia.
Qed.

Lemma slice_length {A} j (l : list A) :
  (j * per_bundle ≤ length l < j * per_bundle + per_bundle)%nat →
  length (slice j l) = (length l - j * per_bundle)%nat.
Proof. intros Hl. unfold slice. rewrite length_take, length_drop. lia. Qed.

(** ** Bytes in pages *)

Lemma overwrite_lookup {A} o (d c : list A) i : (o ≤ length c)%nat →
  overwrite o d c !! i = if decide (o ≤ i < o + length d)%nat then d !! (i - o)%nat else c !! i.
Proof.
  intros Ho. unfold overwrite. destruct (decide (o ≤ i < o + length d)%nat) as [Hi|Hi].
  - rewrite lookup_app_r, lookup_app_l by (rewrite ?length_take; lia). by rewrite length_take, Nat.min_l by lia.
  - destruct (decide (i < o)%nat) as [Hlt|Hge].
    + rewrite lookup_app_l by (rewrite length_take; lia). by apply lookup_take_lt.
    + rewrite !lookup_app_r by (rewrite ?length_take; lia). rewrite lookup_drop, length_take. f_equal. lia.
Qed.

Lemma overwrite_length {A} o (d c : list A) : (o ≤ length c)%nat →
  length (overwrite o d c) = Nat.max (length c) (o + length d).
Proof. intros Ho. unfold overwrite. rewrite !length_app, length_take, length_drop. lia. Qed.

(** The bytes of page [q]. *)
Definition chunk (q : nat) (c : bytes) : bytes := take page_size (drop (q * page_size) c).

Definition paged (c : bytes) (xs : list bytes) : Prop :=
  ∀ q, xs !! q = if decide (q * page_size < length c)%nat then Some (chunk q c) else None.

Lemma page_size_nat : (0 < page_size)%nat.
Proof. pose proof page_size_Z. pose proof page_size_pos. lia. Qed.

Lemma paged_nil : paged [] [].
Proof. intros q. by rewrite decide_False by (cbn; lia). Qed.

Lemma paged_length c xs q : paged c xs → (q < length xs ↔ q * page_size < length c)%nat.
Proof.
  intros Hp. rewrite <- lookup_lt_is_Some, (Hp q). destruct (decide _); [by eauto|].
  split; [by intros [? ?]|lia].
Qed.

Lemma paged_room c xs q : paged c xs → (q * page_size ≤ length c)%nat → (q ≤ length xs)%nat.
Proof.
  intros Hp Hq. pose proof page_size_nat. destruct (decide (q ≤ length xs)%nat) as [|Hlt]; [done|]. exfalso.
  assert (¬ (length xs * page_size < length c)%nat) by (rewrite <- (paged_length c xs); [lia|done]). nia.
Qed.

Lemma chunk_lookup q c i : chunk q c !! i = if decide (i < page_size)%nat then c !! (q * page_size + i)%nat else None.
Proof.
  unfold chunk. destruct (decide (i < page_size)%nat) as [Hi|Hi].
  - by rewrite lookup_take_lt, lookup_drop.
  - apply lookup_ge_None_2. rewrite length_take. lia.
Qed.

Lemma chunk_length q c : length (chunk q c) = Nat.min page_size (length c - q * page_size).
Proof. unfold chunk. by rewrite length_take, length_drop. Qed.

(** The write into one page: into what is there, or into a new page behind the others. *)
Definition write_at (r : nat) (data x : bytes) : bytes :=
  overwrite r data (push_until (Z.of_nat r - 1) x00 x).

Definition set_page (q : nat) (w : bytes → bytes) (xs : list bytes) : list bytes :=
  take q xs ++ w (default [] (xs !! q)) :: drop (S q) xs.

Lemma set_page_lookup q w xs i : (q ≤ length xs)%nat →
  set_page q w xs !! i = if decide (i = q) then Some (w (default [] (xs !! q))) else xs !! i.
Proof.
  intros Hq. unfold set_page. destruct (decide (i < q)%nat) as [Hi|Hi].
  - rewrite lookup_app_l, decide_False by (rewrite ?length_take; lia). by apply lookup_take_lt.
  - rewrite lookup_app_r by (rewrite length_take; lia). rewrite length_take, Nat.min_l by lia.
    destruct (decide (i = q)) as [->|Hne]; [by rewrite Nat.sub_diag|].
    destruct (i - q)%nat as [|n] eqn:E; [lia|].
    change (drop (S q) xs !! n = xs !! i). rewrite lookup_drop. f_equal. lia.
Qed.

Lemma push_nothing n (x : bytes) : n < len x → push_until n x00 x = x.
Proof.
  intros Hn. unfold push_until, len in *. replace (Z.to_nat (n + 1) - length x)%nat with 0%nat by lia.
  apply app_nil_r.
Qed.

Lemma paged_write c xs q r data : paged c xs → (q * page_size + r ≤ length c)%nat → data ≠ [] →
  (r + length data ≤ page_size)%nat →
  paged (overwrite (q * page_size + r) data c) (set_page q (write_at r data) xs).
Proof.
  intros Hp Ho Hd Hr i. assert (0 < length data)%nat as Hld by (destruct data; cbn; [done|lia]).
  pose proof page_size_nat as Hps.
  assert (q ≤ length xs)%nat as Hq by (apply (paged_room c xs q); [done|lia]).
  rewrite set_page_lookup, overwrite_length by done. destruct (decide (i = q)) as [->|Hne].
  - rewrite decide_True by lia. f_equal. rewrite Hp.
    assert ((r ≤ length (chunk q c))%nat ∧ default [] (if decide (q * page_size < length c)%nat
        then Some (chunk q c) else None) = chunk q c) as [Hrc ->].
    { rewrite chunk_length. split; [lia|]. destruct (decide _) as [|Hge]; [done|]. cbn.
      symmetry. apply nil_length_inv. rewrite chunk_length. lia. }
    unfold write_at. rewrite push_nothing by (unfold len; lia). apply list_eq. intros n.
    rewrite overwrite_lookup, !chunk_lookup, overwrite_lookup by done.
    destruct (decide (r ≤ n < r + length data)%nat), (decide (n < page_size)%nat); try lia.
    + rewrite decide_True by lia. f_equal. lia.
    + by rewrite decide_False by lia.
    + done.
  - rewrite Hp. destruct (decide (i * page_size < length c)%nat) as [Hi|Hi].
    + rewrite decide_True by lia. apply (f_equal Some), list_eq. intros n. rewrite !chunk_lookup, overwrite_lookup by done.
      destruct (decide (n < page_size)%nat); [|done]. rewrite decide_False; [done|].
      assert (i < q ∨ q < i)%nat as [?|?] by lia; nia.
    + rewrite decide_False; [done|]. assert (i < q ∨ q < i)%nat as [?|?] by lia; nia.
Qed.

(** ** The records behind a file *)

Section file.
Context {B T : Type} `{HT : Trans B T} {HS : TransSpec B T}.
Context `{HDI : DataSerializer Inode} {HTI : TotalData Inode}.
Context `{HDB : DataSerializer PageBundle} {HTB : TotalData PageBundle}.
Context `{HDP : DataSerializer Page} {HTP : TotalData Page}.
Implicit Types (b : B) (f : FileMut T) (k : PrimaryKey) (bks : list PrimaryKey)
  (pgs : list (PrimaryKey * bytes)).

Abbreviation world b f := (b, fm_trans f).
Abbreviation ik f := (DaoMut.key (fm_inode f)).

(** What no operation on the bytes changes. *)
Definition head (i : Inode) : Dentry * FileKind := (in_dentry i, in_kind i).

Definition data_of {D} (d : DaoMut D) : D := row_data (dao_row d).

(** The line a written page is in. *)
Definition wline k : nat := cache_line CACHED_BUNDLES k.
Definition rline k : nat := cache_line CACHED_PAGES k.

(** What the page holds at the moment. *)
Definition page_now b f k (x : bytes) : Prop :=
  match hit guard_key (fm_pages f) (wline k) k with
  | Some g => pg_buf (data_of (gd_dao g)) = x
  | None => ts_sees Page (world b f) k {| pg_buf := x |}
  end.

(** A page in the line [i]: written pages are in the first lines, and only they can differ from
    what the transaction has; copies that were read are in the others, and are up to date
    unless something was written. *)
Definition page_line b f (i : nat) (g : Guard Page) : Prop :=
  ts_dao (guard_key g) (data_of (gd_dao g)) (gd_dao g)
  ∧ (∃ y, ts_sees Page (world b f) (guard_key g) y)
  ∧ (i < 10 → i = wline (guard_key g))%nat
  ∧ (10 ≤ i → i = rline (guard_key g))%nat
  ∧ (gd_dirty g = true → (i < 10)%nat ∧ fm_dirty f = true)
  ∧ (gd_dirty g = false → (i < 10)%nat ∨ fm_dirty f = false →
       ts_sees Page (world b f) (guard_key g) (data_of (gd_dao g))).

Definition bundle_line b f (i : nat) (d : DaoMut PageBundle) : Prop :=
  i = wline (DaoMut.key d) ∧ ts_dao (DaoMut.key d) (data_of d) d
  ∧ ts_sees PageBundle (world b f) (DaoMut.key d) (data_of d).

Record body b f bks pgs : Prop := {
  bd_ready : ts_ready (world b f);
  bd_keys : NoDup (ik f :: bks ++ pgs.*1);
  bd_room : (length pgs ≤ length bks * per_bundle)%nat;
  bd_inode : ts_dao (ik f) (inode_of f) (fm_inode f) ∧ ts_sees Inode (world b f) (ik f) (inode_of f);
  bd_bundles : entries (in_bundles (inode_of f)) bks;
  bd_pages j k : bks !! j = Some k → ∃ p, ts_sees PageBundle (world b f) k p
    ∧ entries (pb_pages p) (slice j pgs.*1);
  bd_bufs q k x : pgs !! q = Some (k, x) →
    (∃ y, ts_sees Page (world b f) k y) ∧ page_now b f k x;
  bd_bundle_cache : length (fm_bundles f) = 10%nat
    ∧ ∀ i d, fm_bundles f !! i = Some (Some d) →
        bundle_line b f i d ∧ DaoMut.key d ∉ ik f :: pgs.*1;
  bd_page_cache : length (fm_pages f) = 80%nat
    ∧ ∀ i g, fm_pages f !! i = Some (Some g) → page_line b f i g ∧ guard_key g ∉ ik f :: bks;
  bd_apart i d j g : fm_bundles f !! i = Some (Some d) → fm_pages f !! j = Some (Some g) →
    DaoMut.key d ≠ guard_key g;
}.

Lemma wline_lt k : (wline k < 10)%nat.
Proof. unfold wline, cache_line, CACHED_BUNDLES. pose proof (Z.mod_pos_bound (PrimaryKey.as_u64 k) 10). lia. Qed.

Lemma rline_lt k : (rline k < 80)%nat.
Proof. unfold rline, cache_line, CACHED_PAGES. pose proof (Z.mod_pos_bound (PrimaryKey.as_u64 k) 80). lia. Qed.

Lemma rline_wline k : (rline k < 10)%nat → rline k = wline k.
Proof.
  unfold rline, wline, cache_line, CACHED_PAGES, CACHED_BUNDLES. intros Hlt.
  pose proof (Z.mod_pos_bound (PrimaryKey.as_u64 k) 80).
  rewrite <- (Z.mod_mod_divide (PrimaryKey.as_u64 k) 80 10) by by exists 8. rewrite (Z.mod_small _ 10); lia.
Qed.

Lemma hit_Some {A} (key_of : A → PrimaryKey) cache i k a :
  hit key_of cache i k = Some a ↔ cache !! i = Some (Some a) ∧ key_of a = k.
Proof.
  unfold hit. destruct (cache !! i) as [[a'|]|]; [|naive_solver..].
  destruct (decide (key_of a' = k)); naive_solver.
Qed.

Lemma hit_insert_eq {A} (key_of : A → PrimaryKey) (cache : list (option A)) i k a : (i < length cache)%nat →
  key_of a = k → hit key_of (<[i := Some a]> cache) i k = Some a.
Proof. intros Hi Hk. apply hit_Some. by rewrite list_lookup_insert_eq. Qed.

Lemma hit_insert_ne {A} (key_of : A → PrimaryKey) (cache : list (option A)) i j k x : i ≠ j →
  hit key_of (<[i := x]> cache) j k = hit key_of cache j k.
Proof. intros Hij. unfold hit. by rewrite list_lookup_insert_ne. Qed.

(** *** What a change of the transaction does *)

(** Nothing changes for the records but [k]. *)
Definition others (k : PrimaryKey) (s s' : B * T) : Prop :=
  ∀ D `{DataSerializer D} k' (y : D), k' ≠ k → ts_sees D s k' y ↔ ts_sees D s' k' y.

Lemma body_keys b f bks pgs k : body b f bks pgs → k ∈ ik f :: bks ++ pgs.*1 →
  (∃ y : Inode, ts_sees Inode (world b f) k y) ∨ (∃ y : PageBundle, ts_sees PageBundle (world b f) k y)
  ∨ (∃ y : Page, ts_sees Page (world b f) k y).
Proof.
  intros Hb [->|[Hk|Hk]%elem_of_app]%elem_of_cons.
  - left. exists (inode_of f). apply (bd_inode _ _ _ _ Hb).
  - apply list_elem_of_lookup in Hk as [j Hj]. destruct (bd_pages _ _ _ _ Hb j k Hj) as (p & ? & _). eauto.
  - apply list_elem_of_fmap in Hk as ([k' x] & -> & Hk). apply list_elem_of_lookup in Hk as [q Hq].
    destruct (bd_bufs _ _ _ _ Hb q k' x Hq) as [? _]. eauto.
Qed.

(** What is seen stays. *)
Definition keeps (s s' : B * T) : Prop :=
  ∀ D `{DataSerializer D} k (y : D), ts_sees D s k y → ts_sees D s' k y.

Lemma same_keeps s s' : ts_same s s' → keeps s s'.
Proof. intros Hs D HD k y. apply Hs. Qed.

Lemma store_keeps D `{DataSerializer D} s s' k (x : D) : ts_updates D s s' k x →
  (∀ D' `{DataSerializer D'} (y : D'), ¬ ts_sees D' s k y) → keeps s s'.
Proof.
  intros [_ Ho] Hn D' HD' k' y Hy. destruct (decide (k' = k)) as [->|Hne]; [by destruct (Hn D' HD' y)|].
  by apply Ho.
Qed.

Lemma body_keeps b f bks pgs b' t' : body b f bks pgs → ts_ready (b', t') →
  keeps (world b f) (b', t') → body b' (FileMut.with_trans f t') bks pgs.
Proof.
  intros Hb Hr Hk. destruct Hb. constructor; cbn; try done.
  - split; [apply bd_inode0|]. by apply Hk, bd_inode0.
  - intros j k Hj. destruct (bd_pages0 j k Hj) as (p & Hp & He). exists p. eauto.
  - intros q k x Hq. destruct (bd_bufs0 q k x Hq) as [[y Hy] Hn]. split; [exists y; eauto|].
    unfold page_now in *. cbn. destruct (hit _ _ _ _); [done|]. by apply Hk.
  - split; [apply bd_bundle_cache0|]. intros i d Hi.
    destruct (proj2 bd_bundle_cache0 i d Hi) as ((? & ? & ?) & ?). split; [|done]. split; [done|]. split; [done|].
    by apply Hk.
  - split; [apply bd_page_cache0|]. intros i g Hi.
    destruct (proj2 bd_page_cache0 i g Hi) as ((? & [y ?] & ? & ? & ? & Hc) & ?). split; [|done].
    split; [done|]. split; [exists y; by apply Hk|]. do 3 (split; [done|]).
    intros Hd Hw. by apply Hk, Hc.
Qed.

Lemma with_trans_same f : FileMut.with_trans f (fm_trans f) = f.
Proof. by destruct f. Qed.

(** *** The operations of the transaction *)

Lemma change_ok op b f : FileMut.change (B := B) op (b, f) = (Ok (), (b, op f)).
Proof. done. Qed.

Lemma on_trans_ok {E A} (wrap : E → FileSystemErrorKind) (op : st (B * T) E A) b f a b' t' :
  op (world b f) = (Ok a, (b', t')) →
  FileMut.on_trans wrap op (b, f) = (Ok a, (b', FileMut.with_trans f t')).
Proof. intros E'. unfold FileMut.on_trans, st_mk. by rewrite E'. Qed.

Lemma commit_trans_ok b f bks pgs : body b f bks pgs →
  ∃ b' t', FileMut.commit_trans (b, f) = (Ok (), (b', FileMut.with_trans f t'))
    ∧ body b' (FileMut.with_trans f t') bks pgs ∧ ts_same (world b f) (b', t')
    ∧ ts_durable (b', t').
Proof.
  intros Hb. destruct (ts_commit _ (bd_ready _ _ _ _ Hb)) as ([b' t'] & E & Hr & Hs & Hd).
  exists b', t'. split; [by apply on_trans_ok|]. split; [|done]. by eapply body_keeps, same_keeps.
Qed.

(** *** Changing the inode *)

(** A bundle that comes behind the others. *)
Definition one_more b f bks pgs bks' : Prop :=
  bks' = bks ∨ ∃ k p, bks' = bks ++ [k] ∧ k ∉ ik f :: bks ++ pgs.*1
    ∧ ts_sees PageBundle (world b f) k p ∧ entries (pb_pages p) []
    ∧ ∀ i g, fm_pages f !! i = Some (Some g) → guard_key g ≠ k.

Lemma body_inode b f bks pgs bks' b' t' d : body b f bks pgs →
  ts_dao (ik f) (data_of d) d → ts_ready (b', t') → ts_updates Inode (world b f) (b', t') (ik f) (data_of d) →
  entries (in_bundles (data_of d)) bks' → one_more b f bks pgs bks' →
  body b' (FileMut.with_inode (FileMut.with_trans f t') d) bks' pgs.
Proof.
  intros Hb Hd Hr [Hx Ho] He Hm.
  assert (DaoMut.key d = ik f) as Hkd by apply Hd.
  assert (∀ D (HD : DataSerializer D) k (y : D), k ≠ ik f → ts_sees D (world b f) k y → ts_sees D (b', t') k y)
    as Hk by (intros D HD k y Hne; by apply Ho).
  pose proof (bd_keys _ _ _ _ Hb) as Hnd. destruct Hb. constructor; cbn; rewrite ?Hkd; try done.
  - destruct Hm as [->|(k & p & -> & Hk' & _)]; [done|].
    rewrite <- app_assoc. apply NoDup_cons in Hnd as [Hi Hnd]. apply NoDup_cons. split.
    { intros Hin. apply not_elem_of_cons in Hk' as [Hne _]. clear - Hin Hi Hne. set_solver. }
    cbn [app]. rewrite <- Permutation_middle. apply NoDup_cons. split; [|done].
    by apply not_elem_of_cons in Hk' as [_ ?].
  - destruct Hm as [->|(k & p & -> & _)]; [done|]. rewrite length_app. cbn. lia.
  - intros j k Hj. destruct Hm as [->|(k' & p & -> & Hk' & Hp & Hpe & _)].
    + destruct (bd_pages0 j k Hj) as (p & Hp & Hpe). exists p. split; [|done]. apply Hk; [|done].
      intros ->. apply NoDup_cons in Hnd as [Hi _]. apply Hi, elem_of_app. left. by eapply list_elem_of_lookup_2.
    + apply lookup_app_Some in Hj as [Hj|[Hj Hj']].
      * destruct (bd_pages0 j k Hj) as (p' & Hp' & Hpe'). exists p'. split; [|done]. apply Hk; [|done].
        intros ->. apply NoDup_cons in Hnd as [Hi _]. apply Hi, elem_of_app. left. by eapply list_elem_of_lookup_2.
      * apply list_lookup_singleton_Some in Hj' as [Hj' ->]. exists p. split.
        { apply Hk; [|done]. by apply not_elem_of_cons in Hk' as [? _]. }
        rewrite slice_nil; [done|]. rewrite length_fmap. nia.
  - intros q k x Hq. destruct (bd_bufs0 q k x Hq) as [[y Hy] Hn].
    assert (k ≠ ik f) as Hne.
    { intros ->. apply NoDup_cons in Hnd as [Hi _]. apply Hi, elem_of_app. right.
      by apply (list_elem_of_fmap_2 fst _ (ik f, x)), (list_elem_of_lookup_2 _ q). }
    split; [exists y; by apply Hk|]. unfold page_now in *. cbn. destruct (hit _ _ _ _); [done|]. by apply Hk.
  - split; [apply bd_bundle_cache0|]. intros i d' Hi.
    destruct (proj2 bd_bundle_cache0 i d' Hi) as ((? & ? & ?) & Hni). split; [|done].
    split; [done|]. split; [done|]. apply Hk; [|done]. by apply not_elem_of_cons in Hni as [? _].
  - split; [apply bd_page_cache0|]. intros i g Hi.
    destruct (proj2 bd_page_cache0 i g Hi) as ((? & [y ?] & ? & ? & ? & Hc) & Hni).
    apply not_elem_of_cons in Hni as [Hne Hni]. split.
    + split; [done|]. split; [exists y; by apply Hk|]. do 3 (split; [done|]). intros ? ?. by apply Hk, Hc.
    + apply not_elem_of_cons. split; [done|]. destruct Hm as [->|(k & p & -> & _ & _ & _ & Hg)]; [done|].
      apply not_elem_of_app. split; [done|]. apply not_elem_of_cons. split; [by eapply Hg|apply not_elem_of_nil].
Qed.

Lemma modify_inode_ok b f bks pgs bks' op : body b f bks pgs →
  entries (in_bundles (op (inode_of f))) bks' → one_more b f bks pgs bks' →
  ∃ b' f', FileMut.modify_inode op (b, f) = (Ok (), (b', f')) ∧ body b' f' bks' pgs
    ∧ inode_of f' = op (inode_of f) ∧ ik f' = ik f ∧ fm_dirty f' = fm_dirty f
    ∧ fm_pages f' = fm_pages f ∧ fm_bundles f' = fm_bundles f
    ∧ ts_updates Inode (world b f) (world b' f') (ik f) (op (inode_of f)).
Proof.
  intros Hb He Hm. destruct (bd_inode _ _ _ _ Hb) as [Hd Hs].
  destruct (tr_modify_ok (world b f) (ik f) (inode_of f) op (fm_inode f) (bd_ready _ _ _ _ Hb) Hd Hs)
    as (d & [b' t'] & E & Hd' & Hr & Hu).
  assert (data_of d = op (inode_of f)) as Hx by apply Hd'.
  exists b', (FileMut.with_inode (FileMut.with_trans f t') d). split.
  { unfold FileMut.modify_inode, st_mk. by rewrite (st_bind_Ok _ _ _ _ _ (on_trans_ok _ _ _ _ _ _ _ E)). }
  split; [apply (body_inode b f bks); rewrite ?Hx; done|]. split; [exact Hx|].
  split; [apply Hd'|]. do 3 (split; [done|]). exact Hu.
Qed.

(** *** Bundles *)

Lemma body_bundle_line b f bks pgs d : body b f bks pgs → ts_dao (DaoMut.key d) (data_of d) d →
  ts_sees PageBundle (world b f) (DaoMut.key d) (data_of d) → DaoMut.key d ∉ ik f :: pgs.*1 →
  (∀ j g, fm_pages f !! j = Some (Some g) → DaoMut.key d ≠ guard_key g) →
  body b (FileMut.with_bundles f (<[wline (DaoMut.key d) := Some d]> (fm_bundles f))) bks pgs.
Proof.
  intros Hb Hd Hs Hn Ha. destruct Hb. constructor; cbn; try done.
  - split; [by rewrite length_insert; apply bd_bundle_cache0|]. intros i d' Hi.
    apply list_lookup_insert_Some in Hi as [(<- & [= <-] & _)|[_ Hi]]; [by split|].
    exact (proj2 bd_bundle_cache0 i d' Hi).
  - intros i d' j g Hi. apply list_lookup_insert_Some in Hi as [(<- & [= <-] & _)|[_ Hi]]; [apply Ha|].
    by apply (bd_apart0 i).
Qed.

Lemma bundle_key_unpaged b f bks pgs j k : body b f bks pgs → bks !! j = Some k →
  ∀ i g, fm_pages f !! i = Some (Some g) → k ≠ guard_key g.
Proof.
  intros Hb Hj i g Hi ->. destruct (proj2 (bd_page_cache _ _ _ _ Hb) i g Hi) as [_ Hn].
  apply Hn. right. by eapply list_elem_of_lookup_2.
Qed.

Lemma bundle_key_apart b f bks pgs j k : body b f bks pgs → bks !! j = Some k → k ∉ ik f :: pgs.*1.
Proof.
  intros Hb Hj. apply list_elem_of_lookup_2 in Hj.
  pose proof (bd_keys _ _ _ _ Hb) as [Hi Hnd]%NoDup_cons.
  apply NoDup_app in Hnd as (_ & Hd & _). apply not_elem_of_cons. split; [|by apply Hd].
  intros ->. apply Hi, elem_of_app. by left.
Qed.

Lemma load_bundle_ok b f bks pgs j k : body b f bks pgs → bks !! j = Some k →
  ∃ b' t' d, let f' := FileMut.with_bundles (FileMut.with_trans f t') (<[wline k := Some d]> (fm_bundles f)) in
    FileMut.load_bundle k (b, f) = (Ok d, (b', f')) ∧ body b' f' bks pgs
    ∧ ts_dao k (data_of d) d ∧ ts_sees PageBundle (world b' f') k (data_of d)
    ∧ entries (pb_pages (data_of d)) (slice j pgs.*1).
Proof.
  intros Hb Hj. destruct (bd_pages _ _ _ _ Hb j k Hj) as (p & Hp & He).
  unfold FileMut.load_bundle, st_mk. fold (wline k). destruct (hit _ _ _ _) as [d|] eqn:Eh.
  - apply hit_Some in Eh as [Hl Hk].
    destruct (proj2 (bd_bundle_cache _ _ _ _ Hb) _ _ Hl) as ((Hi & Hd & Hs) & Hn). rewrite Hk in *.
    exists b, (fm_trans f), d. cbn. rewrite with_trans_same, list_insert_id by done.
    assert (FileMut.with_bundles f (fm_bundles f) = f) as -> by by destruct f.
    split; [done|]. split; [done|]. split; [done|]. split; [done|].
    by rewrite (ts_sees_one _ _ _ _ _ Hs Hp).
  - destruct (ts_load _ _ _ _ (bd_ready _ _ _ _ Hb) Hp) as (d & [b' t'] & E & Hd & Hr & Hs & _).
    assert (data_of d = p) as Hx by apply Hd. exists b', t', d.
    rewrite (st_bind_Ok _ _ _ _ _ (on_trans_ok _ _ _ _ _ _ _ E)). split; [done|].
    assert (body b' (FileMut.with_trans f t') bks pgs) as Hb' by (by eapply body_keeps, same_keeps).
    assert (DaoMut.key d = k) as Hk by apply Hd.
    split; [|rewrite Hx; split; [done|]; split; [by apply Hs|done]].
    rewrite <- Hk. apply (body_bundle_line b' (FileMut.with_trans f t')); rewrite ?Hk, ?Hx; [done|done|by apply Hs|..].
    + cbn. by eapply bundle_key_apart.
    + cbn. by eapply bundle_key_unpaged.
Qed.

(** A page that comes behind the others, in the bundle [j]. *)
Definition page_more b f bks pgs j pgs' : Prop :=
  pgs' = pgs ∨ ∃ k, pgs' = pgs ++ [(k, [])] ∧ k ∉ ik f :: bks ++ pgs.*1
    ∧ (j * per_bundle ≤ length pgs < j * per_bundle + per_bundle)%nat
    ∧ (∃ y, ts_sees Page (world b f) k y) ∧ page_now b f k []
    ∧ ∀ i d, fm_bundles f !! i = Some (Some d) → DaoMut.key d ≠ k.

Lemma body_bundle b f bks pgs j k d pgs' b' t' : body b f bks pgs → bks !! j = Some k →
  ts_dao k (data_of d) d → ts_ready (b', t') → ts_updates PageBundle (world b f) (b', t') k (data_of d) →
  entries (pb_pages (data_of d)) (slice j pgs'.*1) → page_more b f bks pgs j pgs' →
  body b' (FileMut.with_bundles (FileMut.with_trans f t') (<[wline k := Some d]> (fm_bundles f))) bks pgs'.
Proof.
  intros Hb Hj Hd Hr [Hx Ho] He Hm.
  assert (DaoMut.key d = k) as Hkd by apply Hd.
  pose proof (bundle_key_apart _ _ _ _ _ _ Hb Hj) as [Hki Hkp]%not_elem_of_cons.
  assert (∀ D (HD : DataSerializer D) k' (y : D), k' ≠ k → ts_sees D (world b f) k' y → ts_sees D (b', t') k' y)
    as Hk by (intros D HD k' y Hne; by apply Ho).
  assert (Hpk : ∀ k', k' ∈ pgs'.*1 → k' ≠ k).
  { intros k' Hk' ->. destruct Hm as [->|(kp & -> & Hn & _)]; [done|].
    rewrite fmap_app in Hk'. apply elem_of_app in Hk' as [?|Hk']; [done|]. cbn in Hk'.
    apply list_elem_of_singleton in Hk' as ->. apply Hn. right. apply elem_of_app. left.
    by eapply list_elem_of_lookup_2. }
  pose proof (bd_keys _ _ _ _ Hb) as Hnd. destruct Hb. constructor; cbn; try done.
  - destruct Hm as [->|(kp & -> & Hn & _)]; [done|]. rewrite fmap_app, app_assoc.
    rewrite app_comm_cons. apply NoDup_app. split; [done|]. split; [|apply NoDup_singleton].
    intros k' Hk' ->%list_elem_of_singleton. done.
  - destruct Hm as [->|(kp & -> & _ & Hl & _)]; [done|]. rewrite length_app. cbn.
    apply lookup_lt_Some in Hj. nia.
  - split; [apply bd_inode0|]. apply Hk; [done|]. apply bd_inode0.
  - intros j' k' Hj'. destruct (decide (j' = j)) as [->|Hne].
    { assert (k' = k) as -> by congruence. by exists (data_of d). }
    destruct (bd_pages0 j' k' Hj') as (p & Hp & Hpe). exists p. split.
    { apply Hk; [|done]. intros ->. apply Hne. apply NoDup_cons in Hnd as [_ Hnd].
      apply NoDup_app in Hnd as (Hnd & _). by eapply NoDup_lookup. }
    destruct Hm as [->|(kp & -> & _ & Hl & _)]; [done|]. rewrite fmap_app. cbn.
    rewrite slice_snoc_other; [done|]. rewrite length_fmap. nia.
  - intros q kq x Hq. assert (kq ≠ k) as Hne.
    { apply Hpk. by apply (list_elem_of_fmap_2 fst _ (kq, x)), (list_elem_of_lookup_2 _ q). }
    assert ((∃ y, ts_sees Page (world b f) kq y) ∧ page_now b f kq x) as [[y Hy] Hn].
    { destruct Hm as [->|(kp & -> & _ & Hl & Hy & Hn & _)]; [by eapply bd_bufs0|].
      apply lookup_app_Some in Hq as [Hq|[_ Hq]]; [by eapply bd_bufs0|].
      apply list_lookup_singleton_Some in Hq as [_ [= <- <-]]. done. }
    split; [exists y; by apply Hk|]. unfold page_now in *. cbn. destruct (hit _ _ _ _); [done|]. by apply Hk.
  - split; [by rewrite length_insert; apply bd_bundle_cache0|]. intros i d' Hi.
    apply list_lookup_insert_Some in Hi as [(<- & [= <-] & _)|[Hni Hi]].
    { unfold bundle_line. rewrite Hkd. split; [done|]. apply not_elem_of_cons. split; [done|]. intros Hin. by apply (Hpk k). }
    destruct (proj2 bd_bundle_cache0 i d' Hi) as ((Hw & ? & ?) & Hn). split.
    + split; [done|]. split; [done|]. apply Hk; [|done]. intros E. apply Hni. by rewrite Hw, E.
    + apply not_elem_of_cons in Hn as [Hn1 Hn2]. apply not_elem_of_cons. split; [done|].
      destruct Hm as [->|(kp & -> & _ & _ & _ & _ & Hc)]; [done|]. rewrite fmap_app.
      apply not_elem_of_app. split; [done|]. cbn. rewrite list_elem_of_singleton. by eapply Hc.
  - split; [apply bd_page_cache0|]. intros i g Hi.
    destruct (proj2 bd_page_cache0 i g Hi) as ((? & [y ?] & ? & ? & ? & Hc) & Hni). split; [|done].
    assert (guard_key g ≠ k) as Hne.
    { intros E. apply Hni. rewrite E. right. by eapply list_elem_of_lookup_2. }
    split; [done|]. split; [exists y; by apply Hk|]. do 3 (split; [done|]). intros ? ?. by apply Hk, Hc.
  - intros i d' i' g Hi Hg. apply list_lookup_insert_Some in Hi as [(<- & [= <-] & _)|[_ Hi]];
      [|by apply (bd_apart0 i _ i')].
    rewrite Hkd. intros ->. destruct (proj2 bd_page_cache0 i' g Hg) as [_ Hni]. apply Hni.
    right. by eapply list_elem_of_lookup_2.
Qed.

Lemma modify_bundle_ok b f bks pgs j k d op pgs' : body b f bks pgs → bks !! j = Some k →
  ts_dao k (data_of d) d → ts_sees PageBundle (world b f) k (data_of d) →
  entries (pb_pages (op (data_of d))) (slice j pgs'.*1) → page_more b f bks pgs j pgs' →
  ∃ b' t' d', let f' := FileMut.with_bundles (FileMut.with_trans f t') (<[wline k := Some d']> (fm_bundles f)) in
    FileMut.modify_bundle op d (b, f) = (Ok d', (b', f')) ∧ body b' f' bks pgs'
    ∧ ts_dao k (op (data_of d)) d' ∧ ts_sees PageBundle (world b' f') k (op (data_of d)).
Proof.
  intros Hb Hj Hd Hs He Hm.
  destruct (tr_modify_ok (world b f) k (data_of d) op d (bd_ready _ _ _ _ Hb) Hd Hs)
    as (d' & [b' t'] & E & Hd' & Hr & Hu).
  assert (data_of d' = op (data_of d)) as Hx by apply Hd'.
  assert (DaoMut.key d' = k) as Hk by apply Hd'. exists b', t', d'. split.
  { unfold FileMut.modify_bundle. rewrite (st_bind_Ok _ _ _ _ _ (on_trans_ok _ _ _ _ _ _ _ E)).
    unfold FileMut.cache_bundle. rewrite Hk. done. }
  split; [|split; [done|exact (proj1 Hu)]].
  apply (body_bundle b f bks pgs j); rewrite ?Hx; done.
Qed.

(** *** Pages *)

Lemma Page_eta (p : Page) : {| pg_buf := pg_buf p |} = p.
Proof. by destruct p. Qed.

(** What is dropped from a line is in the transaction then. *)
Lemma drop_guard_ok b f bks pgs i g f0 : body b f bks pgs → fm_trans f0 = fm_trans f →
  fm_pages f !! i = Some g →
  ∃ b' t', FileMut.drop_guard g (b, f0) = (Ok (), (b', FileMut.with_trans f0 t')) ∧ ts_ready (b', t')
    ∧ (∀ D (HD : DataSerializer D) k (y : D), (∀ g', g = Some g' → gd_dirty g' = true → k ≠ guard_key g') →
         ts_sees D (world b f) k y → ts_sees D (b', t') k y)
    ∧ (∀ g', g = Some g' → (i < 10)%nat → ts_sees Page (b', t') (guard_key g') (data_of (gd_dao g'))).
Proof.
  intros Hb Hf Hi. assert (Hnop : ∀ (Hs : ∀ g', g = Some g' → (i < 10)%nat →
      ts_sees Page (world b f) (guard_key g') (data_of (gd_dao g'))),
    ∃ b' t', (Ok (E := FileSystemErrorKind) (), (b, f0)) = (Ok (), (b', FileMut.with_trans f0 t')) ∧ ts_ready (b', t')
    ∧ (∀ D (HD : DataSerializer D) k (y : D), (∀ g', g = Some g' → gd_dirty g' = true → k ≠ guard_key g') →
         ts_sees D (world b f) k y → ts_sees D (b', t') k y)
    ∧ (∀ g', g = Some g' → (i < 10)%nat → ts_sees Page (b', t') (guard_key g') (data_of (gd_dao g')))).
  { intros Hs. exists b, (fm_trans f). rewrite <- Hf at 1. rewrite with_trans_same. split; [done|].
    split; [apply (bd_ready _ _ _ _ Hb)|]. by split; [intros D HD k y _|]. }
  destruct g as [g|]; [|apply Hnop; done].
  destruct (proj2 (bd_page_cache _ _ _ _ Hb) i g Hi) as ((Hd & [y Hy] & _ & _ & _ & Hc) & _).
  cbn [FileMut.drop_guard]. destruct (gd_dirty g) eqn:Eg.
  - destruct (ts_save Page (world b f) (guard_key g) (data_of (gd_dao g)) y false (gd_dao g)
      (bd_ready _ _ _ _ Hb) Hd Hy) as ([b' t'] & E & Hr & Hx & Ho).
    exists b', t'. split; [apply on_trans_ok; by rewrite Hf|]. split; [done|]. split.
    + intros D HD k z Hne. apply Ho. by apply (Hne g).
    + by intros g' [= <-] _.
  - apply Hnop. intros g' [= <-] Hi'. apply Hc; [done|by left].
Qed.

(** A line is emptied. *)
Lemma evict_ok b f bks pgs i g0 f0 : body b f bks pgs → fm_trans f0 = fm_trans f →
  fm_pages f !! i = Some g0 →
  ∃ b' t', FileMut.drop_guard g0 (b, f0) = (Ok (), (b', FileMut.with_trans f0 t'))
    ∧ body b' (FileMut.with_pages (FileMut.with_trans f t') (<[i := None]> (fm_pages f))) bks pgs
    ∧ ∀ D (HD : DataSerializer D) k (y : D), (∀ g', g0 = Some g' → k ≠ guard_key g') →
        ts_sees D (world b f) k y → ts_sees D (b', t') k y.
Proof.
  intros Hb Hf Hg0. destruct (bd_page_cache _ _ _ _ Hb) as [Hlen Hlines].
  assert (i < 80)%nat as Hi by (rewrite <- Hlen; by eapply lookup_lt_Some).
  destruct (drop_guard_ok b f bks pgs i g0 f0 Hb Hf Hg0) as (b' & t' & E & Hrd & Hk & Hk0).
  exists b', t'. split; [done|]. split.
  2: { intros D HD k y Hne. apply Hk. intros g' Hg' _. by apply Hne. }
  assert (Hdirty : ∀ g', g0 = Some g' → gd_dirty g' = true → (i < 10)%nat ∧ fm_dirty f = true
      ∧ i = wline (guard_key g') ∧ guard_key g' ∉ ik f :: bks).
  { intros g' -> Hdg. destruct (Hlines i g' Hg0) as ((_ & _ & Hw' & _ & Hdd & _) & ?).
    destruct (Hdd Hdg) as [Hlt ?]. auto. }
  assert (Hsome : ∀ k, (∃ y, ts_sees Page (world b f) k y) → ∃ y, ts_sees Page (b', t') k y).
  { intros k [y Hy]. destruct g0 as [g'|]; [|exists y; by apply Hk].
    destruct (decide (gd_dirty g' = true ∧ k = guard_key g')) as [[Hdg ->]|Hnd].
    - exists (data_of (gd_dao g')). apply Hk0; [done|]. by apply (Hdirty g').
    - exists y. apply Hk; [|done]. intros g'' [= <-] Hdg. naive_solver. }
  destruct Hb. constructor; cbn; try done.
  - split; [apply bd_inode0|]. apply Hk; [|apply bd_inode0]. intros g' Hg' Hdg Heq.
    destruct (Hdirty g' Hg' Hdg) as (_ & _ & _ & Hn). apply Hn. rewrite <- Heq. by left.
  - intros j k Hj. destruct (bd_pages0 j k Hj) as (p & Hp & He). exists p. split; [|done].
    apply Hk; [|done]. intros g' Hg' Hdg ->. destruct (Hdirty g' Hg' Hdg) as (_ & _ & _ & Hn).
    apply Hn. right. by eapply list_elem_of_lookup_2.
  - intros q k x Hq. destruct (bd_bufs0 q k x Hq) as [Hy Hn]. split; [by apply Hsome|].
    unfold page_now in *. cbn. destruct (decide (wline k = i)) as [Hwk|Hwk].
    + rewrite Hwk in *. assert (i < 10)%nat as Hi10 by (rewrite <- Hwk; apply wline_lt).
      assert (hit guard_key (<[i:=None]> (fm_pages f)) i k = None) as ->.
      { unfold hit. by rewrite list_lookup_insert_eq by lia. }
      destruct (hit guard_key (fm_pages f) i k) as [g'|] eqn:Eh.
      * apply hit_Some in Eh as [Eh <-]. rewrite Hg0 in Eh. injection Eh as ->.
        rewrite <- Hn, Page_eta. by apply Hk0.
      * apply Hk; [|done]. intros g' -> _ ->. unfold hit in Eh. rewrite Hg0 in Eh.
        by rewrite decide_True in Eh.
    + rewrite hit_insert_ne by done.
      destruct (hit guard_key (fm_pages f) (wline k) k) as [g'|] eqn:Eh; [done|].
      apply Hk; [|done]. intros g' Hg' Hdg ->.
      destruct (Hdirty g' Hg' Hdg) as (_ & _ & Hx & _). by apply Hwk.
  - split; [apply bd_bundle_cache0|]. intros j d Hj.
    destruct (proj2 bd_bundle_cache0 j d Hj) as ((? & ? & ?) & Hn). split; [|done].
    split; [done|]. split; [done|]. apply Hk; [|done]. intros g' -> _. by apply (bd_apart0 j _ i).
  - split; [by rewrite length_insert|]. intros j g1 Hj.
    apply list_lookup_insert_Some in Hj as [(_ & [=] & _)|[Hij Hj]].
    destruct (Hlines j g1 Hj) as ((Hd1 & Hy & Hw1 & Hr1 & Hdd1 & Hc1) & Hn1). split; [|done].
    split; [done|]. split; [by apply Hsome|]. do 3 (split; [done|]).
    intros Hcl1 Hor. apply Hk; [|by apply Hc1]. intros g' Hg' Hdg Heq.
    destruct (Hdirty g' Hg' Hdg) as (Hi10 & Hfd & Hwi & _). destruct Hor as [Hj10|Hfc]; [|cbn in Hfc; congruence].
    apply Hij. by rewrite Hwi, <- Heq, <- Hw1.
  - intros j d i1 g1 Hj Hi1. apply list_lookup_insert_Some in Hi1 as [(_ & [=] & _)|[_ Hi1]].
    by apply (bd_apart0 j _ i1).
Qed.

(** A page as the transaction has it is put in an empty line. *)
Lemma body_fill b f bks pgs i g : body b f bks pgs → fm_pages f !! i = Some None →
  gd_dirty g = false → ts_dao (guard_key g) (data_of (gd_dao g)) (gd_dao g) →
  ts_sees Page (world b f) (guard_key g) (data_of (gd_dao g)) → guard_key g ∉ ik f :: bks →
  (i < 10 → i = wline (guard_key g))%nat → (10 ≤ i → i = rline (guard_key g))%nat →
  (∀ j d, fm_bundles f !! j = Some (Some d) → DaoMut.key d ≠ guard_key g) →
  body b (FileMut.with_pages f (<[i := Some g]> (fm_pages f))) bks pgs.
Proof.
  intros Hb Hi Hcl Hd Hs Hni Hw Hr Ha.
  assert (i < length (fm_pages f))%nat as Hil by by eapply lookup_lt_Some.
  destruct Hb. constructor; cbn; try done.
  - intros q k x Hq. destruct (bd_bufs0 q k x Hq) as [Hy Hn]. split; [done|].
    unfold page_now in *. cbn. destruct (decide (i = wline k)) as [->|Hwk]; [|by rewrite hit_insert_ne].
    assert (hit guard_key (fm_pages f) (wline k) k = None) as Hm by (unfold hit; by rewrite Hi).
    rewrite Hm in Hn. unfold hit. rewrite list_lookup_insert_eq by done.
    destruct (decide (guard_key g = k)) as [<-|Hne]; [|done]. by rewrite (ts_sees_one _ _ _ _ _ Hs Hn).
  - split; [by rewrite length_insert; apply bd_page_cache0|]. intros j g1 Hj.
    apply list_lookup_insert_Some in Hj as [(<- & [= <-] & _)|[_ Hj]]; [|exact (proj2 bd_page_cache0 j g1 Hj)].
    split; [|done]. split; [done|]. split; [by eexists|]. do 2 (split; [done|]). split; [congruence|done].
  - intros j d i1 g1 Hj Hi1. apply list_lookup_insert_Some in Hi1 as [(<- & [= <-] & _)|[_ Hi1]];
      [by eapply Ha|by apply (bd_apart0 j _ i1)].
Qed.

Lemma cache_page_ok b f bks pgs i g : body b f bks pgs → (i < 80)%nat →
  gd_dirty g = false → ts_dao (guard_key g) (data_of (gd_dao g)) (gd_dao g) →
  ts_sees Page (world b f) (guard_key g) (data_of (gd_dao g)) → guard_key g ∉ ik f :: bks →
  (i < 10 → i = wline (guard_key g))%nat → (10 ≤ i → i = rline (guard_key g))%nat →
  (∀ j d, fm_bundles f !! j = Some (Some d) → DaoMut.key d ≠ guard_key g) →
  hit guard_key (fm_pages f) i (guard_key g) = None →
  ∃ b' t', let f' := FileMut.with_pages (FileMut.with_trans f t') (<[i := Some g]> (fm_pages f)) in
    FileMut.cache_page i g (b, f) = (Ok (), (b', f')) ∧ body b' f' bks pgs
    ∧ ts_sees Page (b', t') (guard_key g) (data_of (gd_dao g)).
Proof.
  intros Hb Hi Hcl Hd Hs Hni Hw Hr Ha Hmiss.
  destruct (lookup_lt_is_Some_2 (fm_pages f) i) as [g0 Hg0].
  { by rewrite (proj1 (bd_page_cache _ _ _ _ Hb)). }
  destruct (evict_ok b f bks pgs i g0 (FileMut.with_pages f (<[i := Some g]> (fm_pages f))) Hb eq_refl Hg0)
    as (b' & t' & E & Hb' & Hk).
  assert (ts_sees Page (b', t') (guard_key g) (data_of (gd_dao g))) as Hs'.
  { apply Hk; [|done]. intros g' -> Heq. unfold hit in Hmiss. rewrite Hg0 in Hmiss.
    by rewrite decide_True in Hmiss. }
  exists b', t'. split; [unfold FileMut.cache_page, st_mk; by rewrite Hg0|]. split; [|done].
  apply (body_fill _ _ _ _ i g) in Hb'; try done.
  - cbn in Hb'. by rewrite list_insert_insert_eq in Hb'.
  - apply list_lookup_insert_eq. by rewrite (proj1 (bd_page_cache _ _ _ _ Hb)).
Qed.

Lemma page_key_apart b f bks pgs q k x : body b f bks pgs → pgs !! q = Some (k, x) → k ∉ ik f :: bks.
Proof.
  intros Hb Hq. assert (k ∈ pgs.*1) as Hin.
  { by apply (list_elem_of_fmap_2 fst _ (k, x)), (list_elem_of_lookup_2 _ q). }
  pose proof (bd_keys _ _ _ _ Hb) as [Hi Hnd]%NoDup_cons. apply NoDup_app in Hnd as (_ & Hd & _).
  apply not_elem_of_cons. split; [|intros ?; by apply (Hd k)]. intros ->. apply Hi, elem_of_app. by right.
Qed.

Lemma page_key_unbundled b f bks pgs q k x : body b f bks pgs → pgs !! q = Some (k, x) →
  ∀ i d, fm_bundles f !! i = Some (Some d) → DaoMut.key d ≠ k.
Proof.
  intros Hb Hq i d Hi <-. destruct (proj2 (bd_bundle_cache _ _ _ _ Hb) i d Hi) as [_ Hn].
  apply Hn. right. by apply (list_elem_of_fmap_2 fst _ (DaoMut.key d, x)), (list_elem_of_lookup_2 _ q).
Qed.

(** Reading a page into a line where it is not. *)
Lemma fetch_page_ok b f bks pgs q k x lines : body b f bks pgs → pgs !! q = Some (k, x) →
  (cache_line lines k < 80)%nat → (cache_line lines k < 10 → cache_line lines k = wline k)%nat →
  (10 ≤ cache_line lines k → cache_line lines k = rline k)%nat →
  ts_sees Page (world b f) k {| pg_buf := x |} →
  hit guard_key (fm_pages f) (cache_line lines k) k = None →
  ∃ b' t' g, let f' := FileMut.with_pages (FileMut.with_trans f t') (<[cache_line lines k := Some g]> (fm_pages f)) in
    FileMut.load_page lines k (b, f) = (Ok g, (b', f')) ∧ body b' f' bks pgs
    ∧ guard_key g = k ∧ ts_dao k (data_of (gd_dao g)) (gd_dao g) ∧ pg_buf (data_of (gd_dao g)) = x.
Proof.
  intros Hb Hq Hl Hw Hr Hs Hmiss. unfold FileMut.load_page, st_mk. rewrite Hmiss.
  destruct (ts_load _ _ _ _ (bd_ready _ _ _ _ Hb) Hs) as (d & [b1 t1] & E & Hd & Hr1 & Hs1 & _).
  rewrite (st_bind_Ok _ _ _ _ _ (on_trans_ok _ _ _ _ _ _ _ E)).
  assert (body b1 (FileMut.with_trans f t1) bks pgs) as Hb1 by (by eapply body_keeps, same_keeps).
  assert (DaoMut.key d = k) as Hk by apply Hd. assert (data_of d = {| pg_buf := x |}) as Hx by apply Hd.
  set (g := {| gd_dao := d; gd_dirty := false |}). assert (guard_key g = k) as Hg by done.
  destruct (cache_page_ok b1 (FileMut.with_trans f t1) bks pgs (cache_line lines k) g Hb1)
    as (b' & t' & E' & Hb' & _); rewrite ?Hg; cbn [gd_dao g]; rewrite ?Hx; try done.
  - by apply Hs1.
  - cbn. by eapply page_key_apart.
  - cbn. by eapply page_key_unbundled.
  - exists b', t', g. rewrite (st_bind_Ok _ _ _ _ _ E'). split; [done|]. split; [done|].
    split; [done|]. cbn. by rewrite Hx.
Qed.

Lemma load_page_ok b f bks pgs q k x : body b f bks pgs → pgs !! q = Some (k, x) →
  ∃ b' t' g, let f' := FileMut.with_pages (FileMut.with_trans f t') (<[wline k := Some g]> (fm_pages f)) in
    FileMut.load_page CACHED_BUNDLES k (b, f) = (Ok g, (b', f')) ∧ body b' f' bks pgs
    ∧ guard_key g = k ∧ ts_dao k (data_of (gd_dao g)) (gd_dao g) ∧ pg_buf (data_of (gd_dao g)) = x.
Proof.
  intros Hb Hq. destruct (bd_bufs _ _ _ _ Hb q k x Hq) as [_ Hn]. unfold page_now in Hn.
  destruct (hit guard_key (fm_pages f) (wline k) k) as [g|] eqn:Eh.
  - exists b, (fm_trans f), g. unfold FileMut.load_page, st_mk. fold (wline k). rewrite Eh.
    apply hit_Some in Eh as [Eh Hk]. rewrite with_trans_same, list_insert_id by done.
    assert (FileMut.with_pages f (fm_pages f) = f) as -> by by destruct f.
    destruct (proj2 (bd_page_cache _ _ _ _ Hb) _ _ Eh) as ((Hd & _) & _). by rewrite Hk in Hd.
  - pose proof (wline_lt k). apply (fetch_page_ok b f bks pgs q k x CACHED_BUNDLES); fold (wline k); try done; lia.
Qed.

(** While nothing is written the pages are what the transaction has. *)
Lemma clean_page b f bks pgs q k x : body b f bks pgs → fm_dirty f = false →
  pgs !! q = Some (k, x) → ts_sees Page (world b f) k {| pg_buf := x |}.
Proof.
  intros Hb Hc Hq. destruct (bd_bufs _ _ _ _ Hb q k x Hq) as [_ Hn]. unfold page_now in Hn.
  destruct (hit guard_key (fm_pages f) (wline k) k) as [g|] eqn:Eh; [|done].
  apply hit_Some in Eh as [Eh <-].
  destruct (proj2 (bd_page_cache _ _ _ _ Hb) _ _ Eh) as ((_ & _ & _ & _ & Hd & Hs) & _).
  rewrite <- Hn, Page_eta. apply Hs; [|by right]. destruct (gd_dirty g) eqn:Eg; [|done].
  destruct (Hd eq_refl). congruence.
Qed.

Lemma read_load_page_ok b f bks pgs q k x : body b f bks pgs → fm_dirty f = false →
  pgs !! q = Some (k, x) →
  ∃ b' t' g, let f' := FileMut.with_pages (FileMut.with_trans f t') (<[rline k := Some g]> (fm_pages f)) in
    FileMut.load_page CACHED_PAGES k (b, f) = (Ok g, (b', f')) ∧ body b' f' bks pgs
    ∧ pg_buf (data_of (gd_dao g)) = x.
Proof.
  intros Hb Hc Hq. pose proof (clean_page _ _ _ _ _ _ _ Hb Hc Hq) as Hs.
  destruct (hit guard_key (fm_pages f) (rline k) k) as [g|] eqn:Eh.
  - exists b, (fm_trans f), g. unfold FileMut.load_page, st_mk. fold (rline k). rewrite Eh.
    apply hit_Some in Eh as [Eh <-]. rewrite with_trans_same, list_insert_id by done.
    assert (FileMut.with_pages f (fm_pages f) = f) as -> by by destruct f.
    destruct (proj2 (bd_page_cache _ _ _ _ Hb) _ _ Eh) as ((_ & _ & _ & _ & Hd & Hs') & _).
    split; [done|]. split; [done|].
    assert (gd_dirty g = false) as Eg by (destruct (gd_dirty g); [destruct Hd; congruence|done]).
    by rewrite (ts_sees_one _ _ _ _ _ (Hs' Eg (or_intror Hc)) Hs).
  - pose proof (rline_lt k). pose proof (rline_wline k).
    destruct (fetch_page_ok b f bks pgs q k x CACHED_PAGES) as (b' & t' & g & ? & ? & ? & ? & ?);
      fold (rline k); try done. by exists b', t', g.
Qed.

(** *** Making room *)

(** What the steps of a write leave alone. *)
Definition still f f' : Prop :=
  ik f' = ik f ∧ (in_size (inode_of f'), head (inode_of f')) = (in_size (inode_of f), head (inode_of f))
  ∧ fm_dirty f' = fm_dirty f.

Lemma still_trans f1 f2 f3 : still f1 f2 → still f2 f3 → still f1 f3.
Proof. intros (? & ? & ?) (? & ? & ?). repeat split; congruence. Qed.

(** A record the transaction has just been given is none of the file's. *)
Lemma fresh_key b f bks pgs k : body b f bks pgs →
  (∀ D (HD : DataSerializer D) (y : D), ¬ ts_sees D (world b f) k y) →
  k ∉ ik f :: bks ++ pgs.*1
  ∧ (∀ i g, fm_pages f !! i = Some (Some g) → guard_key g ≠ k)
  ∧ (∀ i d, fm_bundles f !! i = Some (Some d) → DaoMut.key d ≠ k).
Proof.
  intros Hb Hn. split; [|split].
  - intros [[y Hy]|[[y Hy]|[y Hy]]]%(body_keys b f bks pgs k Hb); exact (Hn _ _ _ Hy).
  - intros i g Hi <-. destruct (proj2 (bd_page_cache _ _ _ _ Hb) i g Hi) as ((_ & [y Hy] & _) & _).
    exact (Hn _ _ _ Hy).
  - intros i d Hi <-. destruct (proj2 (bd_bundle_cache _ _ _ _ Hb) i d Hi) as ((_ & _ & Hy) & _).
    exact (Hn _ _ _ Hy).
Qed.

(** [store] and [attach_orphaned] of a new record. *)
Lemma new_record_ok {D} `{HD : DataSerializer D} {HTD : TotalData D} b f bks pgs (x : D) parent
    (wrap : RowErrorKind → FileSystemErrorKind) : body b f bks pgs → parent ∈ ik f :: bks →
  ∃ b' t' d, let f' := FileMut.with_trans f t' in
    (d ← FileMut.on_trans wrap (tr_store None x); FileMut.on_trans wrap (tr_attach_ext parent 0 d)) (b, f)
      = (Ok d, (b', f'))
    ∧ body b' f' bks pgs ∧ ts_dao (DaoMut.key d) x d ∧ ts_sees D (world b' f') (DaoMut.key d) x
    ∧ DaoMut.key d ∉ ik f :: bks ++ pgs.*1
    ∧ (∀ i g, fm_pages f !! i = Some (Some g) → guard_key g ≠ DaoMut.key d)
    ∧ (∀ i d', fm_bundles f !! i = Some (Some d') → DaoMut.key d' ≠ DaoMut.key d).
Proof.
  intros Hb Hpar. destruct (ts_store D (world b f) x (bd_ready _ _ _ _ Hb)) as (d & [b1 t1] & E & Hd & Hr & Hn & Hh & Hu).
  assert (ts_home (DaoMut.key d) (in_collection (collection parent 0))) as Hhome.
  { destruct (body_keys b f bks pgs parent Hb) as [[y Hy]|[[y Hy]|[y Hy]]];
      [clear - Hpar; set_solver|exact (Hh _ _ _ _ 0 Hy)..]. }
  destruct (tr_attach_ok (b1, t1) (DaoMut.key d) x d parent 0 Hr Hd (proj1 Hu) Hhome)
    as (d' & [b' t'] & E' & Hd' & Hr' & Hu').
  assert (DaoMut.key d' = DaoMut.key d) as Hk by apply Hd'.
  exists b', t', d'. split.
  { rewrite (st_bind_Ok _ _ _ _ _ (on_trans_ok _ _ _ _ _ _ _ E)).
    exact (on_trans_ok wrap _ b1 (FileMut.with_trans f t1) _ _ _ E'). }
  rewrite Hk. split.
  - eapply body_keeps; [exact Hb|done|]. intros D' HD' k y Hy.
    destruct (decide (k = DaoMut.key d)) as [->|Hne]; [by destruct (Hn _ _ y Hy)|].
    by apply Hu', Hu.
  - split; [done|]. split; [exact (proj1 Hu')|]. by apply (fresh_key b f).
Qed.

Lemma bind_assoc {S E A A' A''} (m : st S E A) (g : A → st S E A') (h : A' → st S E A'') (s : S) :
  (x ← m; y ← g x; h y) s = (y ← (x ← m; g x); h y) s.
Proof. unfold mbind, st_bind. by destruct (m s) as [[]]. Qed.

Lemma push_step_ok b f bks pgs (j : nat) : body b f bks pgs →
  ∃ b' f', (if decide (len (in_bundles (inode_of f)) ≤ Z.of_nat j)
     then (_ ← FileMut.modify_inode (Inode.with_bundles (push_until (Z.of_nat j) None)); FileMut.commit_trans) (b, f)
     else (Ok (), (b, f))) = (Ok (), (b', f')) ∧ body b' f' bks pgs ∧ still f f'
    ∧ Z.of_nat j < len (in_bundles (inode_of f')).
Proof.
  intros Hb. destruct (decide (len (in_bundles (inode_of f)) ≤ Z.of_nat j)) as [Hl|Hl].
  - destruct (modify_inode_ok b f bks pgs bks (Inode.with_bundles (push_until (Z.of_nat j) None)) Hb)
      as (b1 & f1 & E & Hb1 & Hi & Hk & Hd & _); [by apply entries_push, Hb|by left|].
    destruct (commit_trans_ok b1 f1 bks pgs Hb1) as (b2 & t2 & E2 & Hb2 & _).
    exists b2, (FileMut.with_trans f1 t2). rewrite (st_bind_Ok _ _ _ _ _ E). split; [done|]. split; [done|].
    unfold still, inode_of in *. cbn. rewrite Hi. cbn. repeat split; try done. apply push_until_length. lia.
  - exists b, f. do 3 (split; [done|]). lia.
Qed.

Lemma bundle_at_ok b f bks pgs (j : nat) : body b f bks pgs → (j ≤ length bks)%nat →
  ∃ b' f' bks' k, FileMut.bundle_at (Z.of_nat j) (b, f) = (Ok k, (b', f')) ∧ body b' f' bks' pgs
    ∧ bks' !! j = Some k ∧ still f f'.
Proof.
  intros Hb Hj. unfold FileMut.bundle_at.
  destruct (push_step_ok b f bks pgs j Hb) as (b1 & f1 & E1 & Hb1 & Hst1 & Hl1).
  unfold mbind at 1, st_bind at 1, st_mk at 1. rewrite E1. unfold st_mk at 1. rewrite Nat2Z.id.
  destruct (bks !! j) as [k|] eqn:Ej.
  { rewrite (entries_Some _ _ _ _ (bd_bundles _ _ _ _ Hb1) Ej). by exists b1, f1, bks, k. }
  assert (j = length bks) as -> by (apply lookup_ge_None in Ej; lia).
  destruct (entries_hole _ _ _ (bd_bundles _ _ _ _ Hb1) Ej) as [En| ->].
  { apply lookup_ge_None in En. unfold len in Hl1. lia. }
  rewrite bind_assoc.
  destruct (new_record_ok b1 f1 bks pgs {| pb_pages := [] |} (ik f1) FileSystemErrorKind.from_serialization Hb1)
    as (b2 & t2 & d & E2 & Hb2 & Hd & Hs & Hn & Hng & Hnd); [by left|].
  rewrite (st_bind_Ok _ _ _ _ _ E2). unfold FileMut.cache_bundle, FileMut.change at 1, mbind at 1, st_bind at 1, st_mk at 1.
  fold (wline (DaoMut.key d)). cbn [fm_bundles FileMut.with_trans].
  set (f3 := FileMut.with_bundles _ _).
  assert (data_of d = {| pb_pages := [] |}) as Hx by apply Hd.
  apply not_elem_of_cons in Hn as [Hni Hn]. apply not_elem_of_app in Hn as [Hnb Hnp].
  assert (body b2 f3 bks pgs) as Hb3.
  { apply (body_bundle_line b2 (FileMut.with_trans f1 t2)); rewrite ?Hx; try done.
    - cbn. by apply not_elem_of_cons.
    - cbn. intros i g Hi Heq. by apply (Hng i g Hi). }
  destruct (modify_inode_ok b2 f3 bks pgs (bks ++ [DaoMut.key d])
      (Inode.with_bundles (vec_insert (length bks) (Some (DaoMut.key d)))) Hb3)
    as (b4 & f4 & E4 & Hb4 & Hi4 & Hk4 & Hd4 & _).
  { apply entries_insert; [apply (bd_bundles _ _ _ _ Hb3)|]. unfold len in Hl1.
    change (inode_of f3) with (inode_of f1). lia. }
  { right. exists (DaoMut.key d), {| pb_pages := [] |}. split; [done|]. cbn. split.
    - apply not_elem_of_cons. split; [done|]. by apply not_elem_of_app.
    - split; [exact Hs|]. split; [apply entries_nil|exact Hng]. }
  rewrite (st_bind_Ok _ _ _ _ _ E4).
  destruct (commit_trans_ok b4 f4 _ _ Hb4) as (b5 & t5 & E5 & Hb5 & _). rewrite (st_bind_Ok _ _ _ _ _ E5).
  exists b5, (FileMut.with_trans f4 t5), (bks ++ [DaoMut.key d]), (DaoMut.key d). split; [done|].
  split; [done|]. split; [by rewrite lookup_app_r, Nat.sub_diag by done|].
  eapply still_trans; [exact Hst1|]. unfold still, inode_of in *. cbn. rewrite Hi4. by cbn.
Qed.

Lemma cached_bundle b f bks pgs k d : body b f bks pgs → fm_bundles f !! wline k = Some (Some d) →
  DaoMut.key d = k → ts_dao k (data_of d) d ∧ ts_sees PageBundle (world b f) k (data_of d).
Proof.
  intros Hb Hl <-. destruct (proj2 (bd_bundle_cache _ _ _ _ Hb) _ _ Hl) as ((_ & ? & ?) & _). done.
Qed.

Lemma bundle_line_set b f bks pgs k d : body b f bks pgs →
  <[wline k := Some d]> (fm_bundles f) !! wline k = Some (Some d).
Proof.
  intros Hb. apply list_lookup_insert_eq. rewrite (proj1 (bd_bundle_cache _ _ _ _ Hb)). apply wline_lt.
Qed.

Lemma page_step_ok b f bks pgs j k d (i : nat) : body b f bks pgs → bks !! j = Some k →
  fm_bundles f !! wline k = Some (Some d) → DaoMut.key d = k →
  entries (pb_pages (data_of d)) (slice j pgs.*1) →
  ∃ b' f' d', (if decide (len (pb_pages (data_of d)) ≤ Z.of_nat i)
     then d ← FileMut.modify_bundle (FileMut.with_entries (λ l,
                push_until (Z.of_nat i) None (push_until PAGES_PER_BUNDLE None l))) d;
          _ ← FileMut.commit_trans; mret d
     else mret d) (b, f) = (Ok d', (b', f')) ∧ body b' f' bks pgs ∧ still f f'
    ∧ fm_bundles f' !! wline k = Some (Some d') ∧ DaoMut.key d' = k
    ∧ entries (pb_pages (data_of d')) (slice j pgs.*1) ∧ Z.of_nat i < len (pb_pages (data_of d')).
Proof.
  intros Hb Hj Hl0 Hk He. destruct (cached_bundle _ _ _ _ _ _ Hb Hl0 Hk) as [Hd Hs].
  destruct (decide (len (pb_pages (data_of d)) ≤ Z.of_nat i)) as [Hl|Hl].
  - destruct (modify_bundle_ok b f bks pgs j k d (FileMut.with_entries (λ l,
        push_until (Z.of_nat i) None (push_until PAGES_PER_BUNDLE None l))) pgs)
      as (b1 & t1 & d1 & E & Hb1 & Hd1 & Hs1); [done..| |by left|].
    { cbn. by do 2 apply entries_push. }
    rewrite (st_bind_Ok _ _ _ _ _ E).
    destruct (commit_trans_ok _ _ _ _ Hb1) as (b2 & t2 & E2 & Hb2 & _).
    rewrite (st_bind_Ok _ _ _ _ _ E2). eexists b2, _, d1. split; [reflexivity|]. split; [done|].
    split; [done|]. split; [by eapply bundle_line_set|]. split; [apply Hd1|].
    assert (data_of d1 = _) as -> by apply Hd1. cbn. split; [by do 2 apply entries_push|].
    apply push_until_length. lia.
  - exists b, f, d. do 6 (split; [done|]). lia.
Qed.

Lemma page_at_ok b f bks pgs j k d (i : nat) : body b f bks pgs → bks !! j = Some k →
  fm_bundles f !! wline k = Some (Some d) → DaoMut.key d = k →
  entries (pb_pages (data_of d)) (slice j pgs.*1) → (i < per_bundle)%nat →
  (j * per_bundle + i ≤ length pgs)%nat →
  ∃ b' f' kp pgs', FileMut.page_at d (Z.of_nat i) (b, f) = (Ok kp, (b', f')) ∧ body b' f' bks pgs'
    ∧ still f f' ∧ ∃ x, pgs' !! (j * per_bundle + i)%nat = Some (kp, x)
    ∧ (pgs' = pgs ∨ (j * per_bundle + i)%nat = length pgs ∧ x = [] ∧ pgs' = pgs ++ [(kp, [])]).
Proof.
  intros Hb Hj Hl0 Hk He Hi Hq. unfold FileMut.page_at. fold (data_of d).
  destruct (page_step_ok b f bks pgs j k d i Hb Hj Hl0 Hk He)
    as (b1 & f1 & d1 & E1 & Hb1 & Hst1 & Hc1 & Hk1 & He1 & Hl1).
  rewrite (st_bind_Ok _ _ _ _ _ E1). fold (data_of d1). rewrite Nat2Z.id.
  destruct (pgs !! (j * per_bundle + i)%nat) as [[kp x]|] eqn:Eq.
  { rewrite (entries_Some _ (slice j pgs.*1) i kp He1).
    2: { by rewrite slice_lookup, list_lookup_fmap, Eq. }
    exists b1, f1, kp, pgs. split; [done|]. split; [done|]. split; [done|]. exists x. eauto. }
  assert (j * per_bundle + i = length pgs)%nat as Hlen by (apply lookup_ge_None in Eq; lia).
  destruct (entries_hole _ (slice j pgs.*1) i He1) as [En| ->].
  { by rewrite slice_lookup, list_lookup_fmap, Eq. }
  { apply lookup_ge_None in En. unfold len in Hl1. lia. }
  rewrite bind_assoc.
  destruct (new_record_ok b1 f1 bks pgs {| pg_buf := [] |} (DaoMut.key d1)
    FileSystemErrorKind.from_serialization Hb1) as (b2 & t2 & dp & E2 & Hb2 & Hdp & Hsp & Hn & Hng & Hnd).
  { right. rewrite Hk1. by eapply list_elem_of_lookup_2. }
  rewrite (st_bind_Ok _ _ _ _ _ E2). set (g := {| gd_dao := dp; gd_dirty := false |}).
  assert (data_of dp = {| pg_buf := [] |}) as Hxp by apply Hdp.
  assert (guard_key g = DaoMut.key dp) as Hkg by done. assert (data_of (gd_dao g) = {| pg_buf := [] |}) as Hxg by done.
  pose proof (wline_lt (DaoMut.key dp)) as Hwl.
  destruct (cache_page_ok b2 (FileMut.with_trans f1 t2) bks pgs (wline (DaoMut.key dp)) g Hb2)
    as (b3 & t3 & E3 & Hb3 & Hs3); rewrite ?Hkg, ?Hxg; try done; try lia.
  { cbn. clear - Hn. set_solver. }
  { destruct (hit _ _ _ _) as [g'|] eqn:Eh; [|done]. apply hit_Some in Eh as [Eh Ek]. by destruct (Hng _ _ Eh). }
  rewrite (st_bind_Ok _ _ _ _ _ E3).
  set (f3 := FileMut.with_pages _ _) in Hb3 |- *.
  destruct (cached_bundle b3 f3 bks pgs k d1 Hb3 Hc1 Hk1) as [Hd3 Hsd3].
  destruct (modify_bundle_ok b3 f3 bks pgs j k d1
      (FileMut.with_entries (vec_insert i (Some (DaoMut.key dp)))) (pgs ++ [(DaoMut.key dp, [])]))
    as (b4 & t4 & d4 & E4 & Hb4 & _); [done..| | |].
  { cbn. rewrite fmap_app. cbn. rewrite slice_snoc by (rewrite length_fmap; lia).
    assert (length (slice j pgs.*1) = i) as Hsl by (rewrite slice_length; rewrite length_fmap; lia).
    rewrite <- Hsl at 1. apply entries_insert; [done|]. rewrite Hsl. unfold len in Hl1. lia. }
  { right. exists (DaoMut.key dp). split; [done|]. split; [done|]. split; [lia|].
    split; [eexists; exact Hs3|]. split; [|exact Hnd]. unfold page_now. cbn.
    rewrite hit_insert_eq; [exact (f_equal pg_buf Hxp)| |done].
    rewrite (proj1 (bd_page_cache _ _ _ _ Hb1)). lia. }
  rewrite (st_bind_Ok _ _ _ _ _ E4).
  destruct (commit_trans_ok _ _ _ _ Hb4) as (b5 & t5 & E5 & Hb5 & _). rewrite (st_bind_Ok _ _ _ _ _ E5).
  eexists b5, _, (DaoMut.key dp), _. split; [reflexivity|]. split; [exact Hb5|]. split; [exact Hst1|].
  exists []. rewrite Hlen, lookup_app_r, Nat.sub_diag by done. split; [done|]. by right.
Qed.

(** *** Writing a page *)

Lemma page_keys_insert q k x x' pgs : pgs !! q = Some (k, x) → (<[q := (k, x')]> pgs).*1 = pgs.*1.
Proof.
  intros Hq. rewrite list_fmap_insert. apply list_insert_id. by rewrite list_lookup_fmap, Hq.
Qed.

Lemma body_write b f bks pgs q k x g0 g x' : body b f bks pgs → fm_dirty f = true →
  pgs !! q = Some (k, x) → fm_pages f !! wline k = Some (Some g0) → guard_key g0 = k →
  guard_key g = k → gd_dirty g = true →
  ts_dao k {| pg_buf := x' |} (gd_dao g) →
  body b (FileMut.with_pages f (<[wline k := Some g]> (fm_pages f))) bks (<[q := (k, x')]> pgs).
Proof.
  intros Hb Hdf Hq Hg0 Hk0 Hk Hg Hd.
  pose proof (page_keys_insert q k x x' pgs Hq) as Hks. pose proof (wline_lt k) as Hwl.
  assert (data_of (gd_dao g) = {| pg_buf := x' |}) as Hx by apply Hd.
  assert (length (fm_pages f) = 80%nat) as Hlen by apply Hb.
  pose proof (page_key_apart _ _ _ _ _ _ _ Hb Hq) as Hap.
  pose proof (page_key_unbundled _ _ _ _ _ _ _ Hb Hq) as Hau.
  pose proof (bd_bufs _ _ _ _ Hb q k x Hq) as [[y Hy] _].
  pose proof (bd_keys _ _ _ _ Hb) as Hnd.
  destruct Hb. constructor; cbn; rewrite ?Hks, ?length_insert; try done.
  - intros q' k' z Hq'. apply list_lookup_insert_Some in Hq' as [(<- & [= <- <-] & _)|[Hne Hq']].
    + split; [by exists y|]. unfold page_now. cbn. rewrite hit_insert_eq by (done || lia). by rewrite Hx.
    + destruct (bd_bufs0 q' k' z Hq') as [? Hn]. split; [done|]. unfold page_now in *. cbn.
      assert (k' ≠ k) as Hkk.
      { intros ->. apply Hne. apply NoDup_cons in Hnd as [_ Hnd]. apply NoDup_app in Hnd as (_ & _ & Hnd).
        eapply (NoDup_lookup _ q q' k Hnd); rewrite list_lookup_fmap; [by rewrite Hq|by rewrite Hq']. }
      destruct (decide (wline k = wline k')) as [Hw|Hw]; [|by rewrite hit_insert_ne].
      assert (hit guard_key (<[wline k:=Some g]> (fm_pages f)) (wline k') k' = None) as ->.
      { unfold hit. rewrite <- Hw, list_lookup_insert_eq by lia. rewrite decide_False by congruence. done. }
      destruct (hit guard_key (fm_pages f) (wline k') k') as [g'|] eqn:Eh; [|done].
      apply hit_Some in Eh as [Eh Hg']. rewrite <- Hw, Hg0 in Eh. congruence.
  - split; [done|]. intros i g' Hi. apply list_lookup_insert_Some in Hi as [(<- & [= <-] & _)|[Hne Hi]].
    + split; [|by rewrite Hk]. split; [by rewrite Hk, Hx|]. rewrite Hk. split; [by exists y|].
      split; [done|]. split; [lia|]. split; [done|]. congruence.
    + exact (proj2 bd_page_cache0 i g' Hi).
  - intros i d j g' Hi Hj. apply list_lookup_insert_Some in Hj as [(<- & [= <-] & _)|[_ Hj]].
    + rewrite Hk. by eapply Hau.
    + by apply (bd_apart0 i _ j).
Qed.

(** Where the byte [q * page_size + r] is. *)
Lemma position_split (q r : nat) : (r < page_size)%nat →
  let offset := Z.of_nat (q * page_size + r) in
  let j := (q / per_bundle)%nat in
  let i := (q mod per_bundle)%nat in
  offset / stride_bundle = Z.of_nat j ∧ (offset - Z.of_nat j * stride_bundle) / PAGE_SIZE = Z.of_nat i
  ∧ offset - Z.of_nat j * stride_bundle - Z.of_nat i * PAGE_SIZE = Z.of_nat r
  ∧ (i < per_bundle)%nat ∧ (j * per_bundle + i = q)%nat.
Proof.
  intros Hr offset j i. pose proof page_size_Z as HP. pose proof per_bundle_Z as HB.
  pose proof page_size_pos. pose proof per_bundle_pos.
  assert (q = per_bundle * j + i)%nat as Hq by (apply Nat.div_mod; lia).
  assert (i < per_bundle)%nat as Hi by (apply Nat.mod_upper_bound; lia).
  assert (offset = Z.of_nat j * stride_bundle + (Z.of_nat i * PAGE_SIZE + Z.of_nat r)) as Ho.
  { unfold offset, stride_bundle. rewrite Hq at 1. rewrite <- HP, <- HB. nia. }
  assert (0 ≤ Z.of_nat i * PAGE_SIZE + Z.of_nat r < stride_bundle) as Hb.
  { unfold stride_bundle. rewrite <- HP, <- HB. nia. }
  assert (offset / stride_bundle = Z.of_nat j) as Hj.
  { rewrite Ho, Z.div_add_l by lia. rewrite (Z.div_small _ stride_bundle) by lia. lia. }
  assert (offset - Z.of_nat j * stride_bundle = Z.of_nat i * PAGE_SIZE + Z.of_nat r) as Hd by lia.
  split; [done|]. rewrite Hd. split; [|split; [lia|split; [done|lia]]].
  rewrite Z.div_add_l by lia. rewrite (Z.div_small _ PAGE_SIZE) by lia. lia.
Qed.

Lemma body_dirtied b f bks pgs : body b f bks pgs → body b (FileMut.with_dirty f true) bks pgs.
Proof.
  intros Hb. destruct Hb. constructor; cbn; try done. split; [apply bd_page_cache0|]. intros i g Hg.
  destruct (proj2 bd_page_cache0 i g Hg) as ((? & ? & ? & ? & Hd & Hs) & ?). split; [|done].
  do 4 (split; [done|]). split; [intros E; split; [by apply Hd|done]|].
  intros E [?|?]; [|done]. apply Hs; [done|by left].
Qed.

Lemma write_page_ok b f bks pgs (q r : nat) data : body b f bks pgs → (q ≤ length pgs)%nat →
  (r < page_size)%nat →
  ∃ b' f' bks' pgs', FileMut.write_page (Z.of_nat (q * page_size + r)) data (b, f) = (Ok (), (b', f'))
    ∧ body b' f' bks' pgs' ∧ pgs'.*2 = set_page q (write_at r data) pgs.*2
    ∧ still (FileMut.with_dirty f true) f'.
Proof.
  intros Hb Hq Hr. destruct (position_split q r Hr) as (Hj & Hi & Hrr & Hil & Hji).
  set (j := (q / per_bundle)%nat) in *. set (i := (q mod per_bundle)%nat) in *.
  set (offset := Z.of_nat (q * page_size + r)) in *.
  unfold FileMut.write_page. rewrite (st_bind_Ok _ _ _ _ _ (change_ok _ b f)).
  pose proof (body_dirtied b f bks pgs Hb) as Hb0.
  rewrite Hj. assert (j ≤ length bks)%nat as Hjl by (pose proof (bd_room _ _ _ _ Hb); nia).
  destruct (bundle_at_ok b _ bks pgs j Hb0 Hjl) as (b1 & f1 & bks1 & k & E1 & Hb1 & Hk & Hst1).
  rewrite (st_bind_Ok _ _ _ _ _ E1).
  destruct (load_bundle_ok b1 f1 bks1 pgs j k Hb1 Hk) as (b2 & t2 & d & E2 & Hb2 & Hd & Hs2 & He).
  rewrite (st_bind_Ok _ _ _ _ _ E2). rewrite Hi. set (f2 := FileMut.with_bundles _ _) in *.
  destruct (page_at_ok b2 f2 bks1 pgs j k d i Hb2 Hk) as (b3 & f3 & kp & pgs3 & E3 & Hb3 & Hst3 & x & Hx & Hpgs);
    [by eapply bundle_line_set|apply Hd|done|done|lia|]. rewrite Hji in *.
  rewrite (st_bind_Ok _ _ _ _ _ E3). rewrite Hrr.
  destruct (load_page_ok b3 f3 bks1 pgs3 q kp x Hb3 Hx) as (b4 & t4 & g & E4 & Hb4 & Hkg & Hdg & Hbg).
  rewrite (st_bind_Ok _ _ _ _ _ E4). set (f4 := FileMut.with_pages _ _) in *.
  assert (still (FileMut.with_dirty f true) f3) as Hst.
  { eapply still_trans; [exact Hst1|]. eapply still_trans; [|exact Hst3]. done. }
  assert (fm_pages f4 !! wline kp = Some (Some g)) as Hg4.
  { apply list_lookup_insert_eq. rewrite (proj1 (bd_page_cache _ _ _ _ Hb3)). pose proof (wline_lt kp). lia. }
  pose proof (body_write b4 f4 bks1 pgs3 q kp x g (FileMut.write_buf (Z.of_nat r) data g) (write_at r data x) Hb4)
    as Hb5.
  eexists b4, _, bks1, _. split; [reflexivity|]. split.
  - apply Hb5; try done; [by apply Hst|].
    unfold FileMut.write_buf. cbn [gd_dao]. fold (data_of (gd_dao g)). rewrite Hbg. unfold write_at.
    rewrite Nat2Z.id. eapply ts_dao_data. exact Hdg.
  - split; [|exact Hst].
    apply list_eq. intros n. rewrite set_page_lookup by (rewrite length_fmap; lia).
    rewrite !list_lookup_fmap. destruct (decide (n = q)) as [->|Hne].
    + rewrite list_lookup_insert_eq by by eapply lookup_lt_Some. cbn. do 2 f_equal.
      destruct Hpgs as [->|(Hlen & -> & _)]; [by rewrite Hx|]. by rewrite (lookup_ge_None_2 pgs q) by lia.
    + rewrite list_lookup_insert_ne by done. destruct Hpgs as [->|(Hlen & -> & ->)]; [done|].
      destruct (decide (n < length pgs)%nat); [by rewrite lookup_app_l|].
      rewrite !lookup_ge_None_2; [done|lia|rewrite length_app; cbn; lia].
Qed.
End file.
