(* ===== verification/RegFileBytes.v ===== *)
(** * What a file holds

    The loops of files/src/file.rs over the pages, the commit, and the file as a whole: as long
    as nothing is written behind its end, and what was written is committed before it is read, a
    file is the list of the bytes that were written. *)

From S2P Require Import Prelude LogApi Crypto Codec Secure Meta Time Event Index Signature Tree Compact Plugins LogFile MemDb RedoLog Chain ChainSpec Pipe Dio Trans TransSpec FileModel RegFile RegFileSpec.

#[local] Opaque PAGE_SIZE PAGES_PER_BUNDLE page_size per_bundle.

(** ** Bytes *)

Lemma overwrite_overwrite {A} o n (d c : list A) : (o ≤ length c)%nat → (n ≤ length d)%nat →
  overwrite (o + n) (drop n d) (overwrite o (take n d) c) = overwrite o d c.
Proof.
  intros Ho Hn. apply list_eq. intros i.
  assert (length (take n d) = n) as Ht by (rewrite length_take; lia).
  rewrite !overwrite_lookup; [|done|done|rewrite overwrite_length by done; lia].
  rewrite Ht, length_drop, lookup_drop.
  destruct (decide (o + n ≤ i < o + n + (length d - n))%nat), (decide (o ≤ i < o + n)%nat),
    (decide (o ≤ i < o + length d)%nat); try lia; try done.
  - f_equal. lia.
  - apply lookup_take_lt. lia.
Qed.

Lemma overwrite_nil {A} o (c : list A) : (o ≤ length c)%nat → overwrite o [] c = c.
Proof. intros Ho. unfold overwrite. by rewrite app_nil_l, Nat.add_0_r, take_drop. Qed.

Lemma take_min_length {A} n (l : list A) : take (Nat.min (length l) n) l = take n l.
Proof.
  destruct (decide (n ≤ length l)%nat); [by rewrite Nat.min_r|].
  by rewrite Nat.min_l, !firstn_all2 by lia.
Qed.

Lemma overwrite_prefix {A} o (d c l : list A) : c `prefix_of` l → (o ≤ length c)%nat →
  overwrite o d c `prefix_of` overwrite o d l.
Proof.
  intros [k ->] Ho. unfold overwrite. rewrite take_app_le by lia. apply prefix_app, prefix_app.
  destruct (decide (o + length d ≤ length c)%nat); [rewrite drop_app_le by lia; by eexists|].
  rewrite (drop_ge c) by lia. apply prefix_nil.
Qed.

Lemma prefix_read {A} o n (c l : list A) : c `prefix_of` l → (o + n ≤ length c)%nat →
  take n (drop o l) = take n (drop o c).
Proof. intros [k ->] Ho. rewrite drop_app_le by lia. rewrite take_app_le; [done|]. rewrite length_drop. lia. Qed.

(** One turn of the loops. *)
Lemma page_step (o : nat) (size : Z) : 0 < size →
  let sub := Z.min size (PAGE_SIZE - Z.of_nat o mod PAGE_SIZE) in
  0 < sub ∧ sub ≤ size ∧ (o mod page_size + Z.to_nat sub ≤ page_size)%nat
  ∧ (sub < size → ((o + Z.to_nat sub) mod page_size = 0)%nat ∧ (o mod page_size + Z.to_nat sub = page_size)%nat).
Proof.
  intros Hs sub. pose proof page_size_pos. pose proof page_size_Z as HP.
  assert (Z.of_nat (o mod page_size) = Z.of_nat o mod PAGE_SIZE) as Hm by (by rewrite Nat2Z.inj_mod, HP).
  pose proof (Z.mod_pos_bound (Z.of_nat o) PAGE_SIZE ltac:(lia)).
  unfold sub. split; [lia|]. split; [lia|]. split; [lia|]. intros Hlt.
  assert (o mod page_size + Z.to_nat (Z.min size (PAGE_SIZE - Z.of_nat o mod PAGE_SIZE)) = page_size)%nat as He by lia.
  split; [|done]. rewrite <- Nat.Div0.add_mod_idemp_l, He. apply Nat.Div0.mod_same.
Qed.


Lemma read_split {A} n m o (c : list A) : take n (drop o c) ++ take m (drop (o + n) c) = take (n + m) (drop o c).
Proof. rewrite <- drop_drop. apply take_take_drop. Qed.

Lemma chunk_read q r n c : (r + n ≤ page_size)%nat →
  take n (drop r (chunk q c)) = take n (drop (q * page_size + r) c).
Proof.
  intros Hn. unfold chunk. rewrite <- (drop_drop c). generalize (drop (q * page_size) c) as l. intros l.
  rewrite skipn_firstn_comm, take_take. f_equal. lia.
Qed.

(** ** Reading *)

Section reading.
Context {S : Type} (Inv : S → Prop).
Variable load_bundle : PrimaryKey → st S FileSystemErrorKind PageBundle.
Variable load_page : PrimaryKey → st S FileSystemErrorKind Page.
Variable bks : list PrimaryKey.
Variable pgs : list (PrimaryKey * bytes).
Variable c : bytes.
Hypothesis bundles_load : ∀ j k s, bks !! j = Some k → Inv s →
  ∃ p s', load_bundle k s = (Ok p, s') ∧ Inv s' ∧ entries (pb_pages p) (slice j pgs.*1).
Hypothesis pages_load : ∀ q k x s, pgs !! q = Some (k, x) → Inv s →
  ∃ s', load_page k s = (Ok {| pg_buf := x |}, s') ∧ Inv s'.
Hypothesis room : (length pgs ≤ length bks * per_bundle)%nat.
Hypothesis bytes_in_pages : paged c pgs.*2.

Lemma read_page_with_ok i (o n : nat) s : entries (in_bundles i) bks → Inv s → (o < length c)%nat →
  (o + n ≤ length c)%nat → (o mod page_size + n ≤ page_size)%nat →
  ∃ s', read_page_with load_bundle load_page i (Z.of_nat o) (Z.of_nat n) s
        = (Ok (take n (drop o c)), s') ∧ Inv s'.
Proof.
  intros He Hi Ho Hon Hn. pose proof page_size_nat as Hps.
  set (q := (o / page_size)%nat). set (r := (o mod page_size)%nat) in *.
  assert (o = q * page_size + r)%nat as Hoq by (unfold q, r; rewrite (Nat.div_mod_eq o page_size) at 1; lia).
  assert (r < page_size)%nat as Hr by (apply Nat.mod_upper_bound; lia).
  assert (pgs.*2 !! q = Some (chunk q c)) as Hq by (rewrite (bytes_in_pages q), decide_True by lia; done).
  apply list_lookup_fmap_Some in Hq as ([k x] & Hx & Hq). cbn in Hx. subst x.
  destruct (position_split q r Hr) as (Hj & Hi' & Hrr & Hil & Hji).
  set (j := (q / per_bundle)%nat) in *. set (m := (q mod per_bundle)%nat) in *.
  assert (q < length pgs)%nat as Hql by (by eapply lookup_lt_Some).
  destruct (lookup_lt_is_Some_2 bks j) as [kb Hkb]; [nia|].
  rewrite Hoq. unfold read_page_with. cbv zeta. rewrite Hj, Nat2Z.id, (entries_Some _ _ _ _ He Hkb).
  destruct (bundles_load j kb s Hkb Hi) as (p & s1 & E1 & Hi1 & Hp). rewrite (st_bind_Ok _ _ _ _ _ E1).
  rewrite Hi', Nat2Z.id, (entries_Some (pb_pages p) (slice j pgs.*1) m k Hp).
  2: { rewrite slice_lookup by done. rewrite Hji, list_lookup_fmap, Hq. done. }
  destruct (pages_load q k _ s1 Hq Hi1) as (s2 & E2 & Hi2). rewrite (st_bind_Ok _ _ _ _ _ E2).
  exists s2. split; [|done]. unfold st_mk. rewrite Hrr. cbn [pg_buf]. unfold read_buf.
  rewrite <- chunk_read by done. pose proof (chunk_length q c) as Hl. unfold len.
  rewrite decide_False by (rewrite Hl; lia).
  rewrite (Z.min_l (Z.of_nat n)), Z.sub_diag by (rewrite Hl; lia). change (write_zeros 0) with (Ok (E := FileSystemErrorKind) (@nil byte)).
  cbn. by rewrite !Nat2Z.id, app_nil_r.
Qed.
End reading.

Section looping.
Context {S : Type} (Inv : S → Prop).
Variable read_page : Z → Z → st S FileSystemErrorKind bytes.
Variable c : bytes.
Hypothesis page_reads : ∀ (o n : nat) s, Inv s → (o < length c)%nat → (o + n ≤ length c)%nat →
  (o mod page_size + n ≤ page_size)%nat →
  ∃ s', read_page (Z.of_nat o) (Z.of_nat n) s = (Ok (take n (drop o c)), s') ∧ Inv s'.

Lemma read_loop_ok fuel : ∀ (o n : nat) s, Inv s → (o + n ≤ length c)%nat →
  (n ≠ 0 → o mod page_size + n ≤ fuel * page_size)%nat →
  ∃ s', read_loop fuel read_page (Z.of_nat o) (Z.of_nat n) s = (Ok (take n (drop o c)), s') ∧ Inv s'.
Proof.
  induction fuel as [|fuel IH]; intros o n s Hi Hon Hf;
    (destruct (decide (n = 0)%nat) as [->|Hn0]; [by exists s|]); [lia|].
  destruct (page_step o (Z.of_nat n)) as (Hs0 & Hs1 & Hs2 & Hs3); [lia|].
  cbn [read_loop]. rewrite decide_False by lia. set (sub := Z.min _ _) in *. set (m := Z.to_nat sub) in *.
  assert (sub = Z.of_nat m) as Hsub by (unfold m; lia). rewrite Hsub in *.
  destruct (page_reads o m s Hi) as (s1 & E1 & Hi1); [lia|lia|done|]. rewrite (st_bind_Ok _ _ _ _ _ E1).
  replace (Z.of_nat o + Z.of_nat m) with (Z.of_nat (o + m)) by lia.
  replace (Z.of_nat n - Z.of_nat m) with (Z.of_nat (n - m)) by lia.
  destruct (IH (o + m)%nat (n - m)%nat s1 Hi1) as (s2 & E2 & Hi2); [lia| |].
  { intros Hne. destruct Hs3 as [Hz Hpg]; [lia|]. rewrite Hz. specialize (Hf Hn0). lia. }
  rewrite (st_bind_Ok _ _ _ _ _ E2). exists s2. split; [|done]. cbn. rewrite read_split.
  by replace (m + (n - m))%nat with n by lia.
Qed.
End looping.

(** The turns the loops are given are enough. *)
Lemma turns_enough (o n : nat) : (o mod page_size + n ≤ turns (Z.of_nat n) * page_size)%nat.
Proof.
  pose proof page_size_Z as HP. pose proof page_size_nat. unfold turns.
  pose proof (Nat.mod_upper_bound o page_size ltac:(lia)).
  pose proof (Z.div_mod (Z.of_nat n) PAGE_SIZE). pose proof (Z.mod_pos_bound (Z.of_nat n) PAGE_SIZE).
  assert (0 ≤ Z.of_nat n / PAGE_SIZE) by (apply Z.div_pos; lia). nia.
Qed.

(** ** The records of a file *)

(** What is in them, as far as the records are seen. *)
Record stored_as (si : PrimaryKey → Inode → Prop) (sb : PrimaryKey → PageBundle → Prop)
    (sp : PrimaryKey → Page → Prop) (k : PrimaryKey) (i : Inode) (bks : list PrimaryKey)
    (pgs : list (PrimaryKey * bytes)) : Prop := {
  st_keys : NoDup (k :: bks ++ pgs.*1);
  st_room : (length pgs ≤ length bks * per_bundle)%nat;
  st_inode : si k i;
  st_bundles : entries (in_bundles i) bks;
  st_pages j kb : bks !! j = Some kb → ∃ p, sb kb p ∧ entries (pb_pages p) (slice j pgs.*1);
  st_bufs q kp x : pgs !! q = Some (kp, x) → sp kp {| pg_buf := x |};
}.

Lemma stored_mono (si si' : PrimaryKey → Inode → Prop) (sb sb' : PrimaryKey → PageBundle → Prop)
    (sp sp' : PrimaryKey → Page → Prop) k i bks pgs :
  (∀ k' x, k' = k → si k' x → si' k' x) → (∀ k' x, k' ∈ bks → sb k' x → sb' k' x) →
  (∀ k' x, k' ∈ pgs.*1 → sp k' x → sp' k' x) →
  stored_as si sb sp k i bks pgs → stored_as si' sb' sp' k i bks pgs.
Proof.
  intros Hi Hb Hp []. constructor; try done.
  - by apply Hi.
  - intros j kb Hj. destruct (st_pages0 j kb Hj) as (p & Hpp & He). exists p. split; [|done].
    apply Hb; [by eapply list_elem_of_lookup_2|done].
  - intros q kp x Hq. apply Hp; [|by eapply st_bufs0].
    apply list_elem_of_fmap. exists (kp, x). split; [done|]. by eapply list_elem_of_lookup_2.
Qed.

(** ** Files that are written *)

Section file.
Context {B T : Type} `{HT : Trans B T} {HS : TransSpec B T}.
Context `{HDI : DataSerializer Inode} {HTI : TotalData Inode}.
Context `{HDB : DataSerializer PageBundle} {HTB : TotalData PageBundle}.
Context `{HDP : DataSerializer Page} {HTP : TotalData Page}.
Implicit Types (b : B) (f : FileMut T) (k : PrimaryKey) (bks : list PrimaryKey)
  (pgs : list (PrimaryKey * bytes)).

Abbreviation world b f := (b, fm_trans f).

(** The bytes are in the pages. *)

Definition file_is b f (c : bytes) : Prop := ∃ bks pgs, body b f bks pgs ∧ paged c pgs.*2.

Lemma write_page_bytes b f c o data : file_is b f c → (o ≤ length c)%nat → data ≠ [] →
  (o mod page_size + length data ≤ page_size)%nat →
  ∃ b' f', FileMut.write_page (Z.of_nat o) data (b, f) = (Ok (), (b', f'))
    ∧ file_is b' f' (overwrite o data c) ∧ still (FileMut.with_dirty f true) f'.
Proof.
  intros (bks & pgs & Hb & Hp) Ho Hd Hl. pose proof page_size_nat as Hps.
  set (q := (o / page_size)%nat) in *. set (r := (o mod page_size)%nat) in *.
  assert (o = q * page_size + r)%nat as Hoq by (unfold q, r; rewrite (Nat.div_mod_eq o page_size) at 1; lia).
  assert (r < page_size)%nat as Hr by (apply Nat.mod_upper_bound; lia).
  assert (q ≤ length pgs)%nat as Hq by (rewrite <- (length_fmap snd pgs); apply (paged_room c _ q); [done|lia]).
  destruct (write_page_ok b f bks pgs q r data Hb Hq Hr) as (b' & f' & bks' & pgs' & E & Hb' & Hx & Hst).
  rewrite Hoq. exists b', f'. split; [done|]. split; [|done]. exists bks', pgs'. split; [done|].
  rewrite Hx. apply paged_write; [done|lia|done|done].
Qed.

Lemma write_loop_ok fuel : ∀ b f c o data, file_is b f c → (o ≤ length c)%nat →
  (data ≠ [] → o mod page_size + length data ≤ fuel * page_size)%nat →
  ∃ b' f', FileMut.write_loop fuel (Z.of_nat o) data (b, f) = (Ok (), (b', f'))
    ∧ file_is b' f' (overwrite o data c)
    ∧ still (FileMut.with_dirty f (fm_dirty f || negb (bool_decide (data = [])))) f'.
Proof.
  induction fuel as [|fuel IH]; intros b f c o data Hf Ho Hfuel.
  { assert (data = []) as -> by (destruct data; [done|]; specialize (Hfuel ltac:(done)); cbn in Hfuel; lia).
    exists b, f. split; [done|].
    split; [by unfold overwrite; rewrite app_nil_l, Nat.add_0_r, take_drop|]. cbn. by rewrite orb_false_r. }
  destruct (decide (data = [])) as [->|Hne].
  { exists b, f. split; [done|].
    split; [by unfold overwrite; rewrite app_nil_l, Nat.add_0_r, take_drop|]. cbn. by rewrite orb_false_r. }
  assert (0 < len data) as Hld by (unfold len; destruct data; cbn; [done|lia]).
  destruct (page_step o (len data) Hld) as (Hs0 & Hs1 & Hs2 & Hs3).
  cbn [FileMut.write_loop]. set (sub := Z.min _ _) in *. set (n := Z.to_nat sub) in *.
  assert (n ≤ length data)%nat as Hn by (unfold n, len in *; lia).
  assert (length (take n data) = n) as Ht by (rewrite length_take; lia).
  destruct (write_page_bytes b f c o (take n data) Hf Ho) as (b1 & f1 & E1 & Hf1 & Hst1).
  { intros Hnil. rewrite Hnil in Ht. cbn in Ht. unfold n in Ht. lia. }
  { by rewrite Ht. }
  destruct data as [|x data'] eqn:Ed; [done|]. rewrite <- Ed in *. rewrite (st_bind_Ok _ _ _ _ _ E1).
  replace (Z.of_nat o + sub) with (Z.of_nat (o + n)) by (unfold n; lia).
  destruct (IH b1 f1 (overwrite o (take n data) c) (o + n)%nat (drop n data) Hf1) as (b2 & f2 & E2 & Hf2 & Hst2).
  { rewrite overwrite_length by done. lia. }
  { intros Hd. specialize (Hfuel Hne). rewrite length_drop. destruct Hs3 as [Hz Hpg].
    - destruct (decide (sub < len data)) as [|Hge]; [done|]. destruct Hd. apply nil_length_inv.
      rewrite length_drop. unfold n, len in *. lia.
    - unfold n in *. rewrite Hz. lia. }
  exists b2, f2. split; [done|]. rewrite overwrite_overwrite in Hf2 by done. split; [done|].
  rewrite bool_decide_false by (rewrite Ed; done). rewrite orb_true_r.
  eapply still_trans; [exact Hst1|]. destruct Hst1 as (_ & _ & Hd1). cbn in Hd1. rewrite Hd1 in Hst2.
  cbn in Hst2. destruct Hst2 as (? & ? & Hd2). repeat split; try done. cbn in *. congruence.
Qed.


(** *** Reading what was committed *)

(** Nothing was written since the last commit. *)
Definition clean b f : Prop := fm_dirty f = false ∧ ts_durable (world b f).

Lemma load_durable {D} `{DataSerializer D} b f k (x : D) :
  ts_ready (world b f) → ts_durable (world b f) → ts_sees D (world b f) k x →
  ∃ d b' t', FileMut.on_trans FileSystemErrorKind.from_load (tr_load D k) (b, f)
      = (Ok d, (b', FileMut.with_trans f t')) ∧ ts_durable (b', t').
Proof.
  intros Hr Hd Hs. destruct (ts_load D _ k x Hr Hs) as (d & [b' t'] & E' & _ & _ & _ & Hd').
  exists d, b', t'. split; [by apply on_trans_ok|auto].
Qed.

Lemma drop_clean b f bks pgs i g0 (s : B * FileMut T) : body b f bks pgs → fm_dirty f = false →
  fm_pages f !! i = Some g0 → FileMut.drop_guard g0 s = (Ok (), s).
Proof.
  intros Hb Hc Hi. destruct g0 as [g|]; [|done].
  destruct (proj2 (bd_page_cache _ _ _ _ Hb) _ _ Hi) as ((_ & _ & _ & _ & Hd & _) & _). cbn.
  destruct (gd_dirty g); [destruct Hd; congruence|done].
Qed.

Lemma read_bundle_clean b f bks pgs j k : body b f bks pgs → clean b f → bks !! j = Some k →
  ∃ b' f' d, FileMut.load_bundle k (b, f) = (Ok d, (b', f')) ∧ body b' f' bks pgs ∧ clean b' f'
    ∧ fm_inode f' = fm_inode f ∧ entries (pb_pages (data_of d)) (slice j pgs.*1).
Proof.
  intros Hb [Hc Hd] Hj. destruct (load_bundle_ok b f bks pgs j k Hb Hj) as (b' & t' & d & E & Hb' & _ & _ & He).
  eexists b', _, d. split; [exact E|]. split; [done|]. split; [|done]. split; [done|].
  revert E. unfold FileMut.load_bundle, st_mk. destruct (hit _ _ _ _) as [d'|]; [by intros [= _ -> <-]|].
  destruct (bd_pages _ _ _ _ Hb j k Hj) as (p & Hp & _).
  destruct (load_durable b f k p (bd_ready _ _ _ _ Hb) Hd Hp) as (d1 & b1 & t1 & E1 & Hd1).
  rewrite (st_bind_Ok _ _ _ _ _ E1). by intros [= _ -> ->].
Qed.

Lemma read_page_clean b f bks pgs q k x : body b f bks pgs → clean b f → pgs !! q = Some (k, x) →
  ∃ b' f' g, FileMut.load_page CACHED_PAGES k (b, f) = (Ok g, (b', f')) ∧ body b' f' bks pgs ∧ clean b' f'
    ∧ fm_inode f' = fm_inode f ∧ pg_buf (data_of (gd_dao g)) = x.
Proof.
  intros Hb [Hc Hd] Hq. destruct (read_load_page_ok b f bks pgs q k x Hb Hc Hq) as (b' & t' & g & E & Hb' & Hx).
  eexists b', _, g. split; [exact E|]. split; [done|]. split; [|done]. split; [done|].
  revert E. unfold FileMut.load_page, st_mk. destruct (hit _ _ _ _) as [g'|]; [by intros [= _ -> <-]|].
  pose proof (clean_page _ _ _ _ _ _ _ Hb Hc Hq) as Hs.
  destruct (load_durable b f k _ (bd_ready _ _ _ _ Hb) Hd Hs) as (d1 & b1 & t1 & E1 & Hd1).
  rewrite (st_bind_Ok _ _ _ _ _ E1).
  assert (∃ g0, fm_pages f !! cache_line CACHED_PAGES k = Some g0) as [g0 Hg0].
  { apply lookup_lt_is_Some_2. rewrite (proj1 (bd_page_cache _ _ _ _ Hb)). apply rline_lt. }
  assert (∀ g1, FileMut.cache_page (cache_line CACHED_PAGES k) g1 (b1, FileMut.with_trans f t1)
    = (Ok (), (b1, FileMut.with_pages (FileMut.with_trans f t1) (<[cache_line CACHED_PAGES k := Some g1]> (fm_pages f))))) as E2.
  { intros g1. unfold FileMut.cache_page, st_mk. cbn [FileMut.with_trans fm_pages]. rewrite Hg0. by apply (drop_clean b f bks pgs (cache_line CACHED_PAGES k)). }
  rewrite (st_bind_Ok _ _ _ _ _ (E2 _)). by intros [= _ -> ->].
Qed.

Lemma file_read_page b f c (o n : nat) : file_is b f c → clean b f → (o < length c)%nat →
  (o + n ≤ length c)%nat → (o mod page_size + n ≤ page_size)%nat →
  ∃ b' f', FileMut.read_page (Z.of_nat o) (Z.of_nat n) (b, f) = (Ok (take n (drop o c)), (b', f'))
    ∧ file_is b' f' c ∧ clean b' f' ∧ fm_inode f' = fm_inode f.
Proof.
  intros (bks & pgs & Hb & Hp) Hc Ho Hon Hn.
  pose (Inv := λ s : B * FileMut T, body s.1 s.2 bks pgs ∧ clean s.1 s.2 ∧ fm_inode s.2 = fm_inode f).
  edestruct (read_page_with_ok Inv) as ([b' f'] & E & Hb' & Hc' & Hi'); [..|eexists b', f'; split; [exact E|]].
  - intros j k [b0 f0] Hj (Hb0 & Hc0 & Hi0).
    destruct (read_bundle_clean b0 f0 bks pgs j k Hb0 Hc0 Hj) as (b1 & f1 & d & E & Hb1 & Hc1 & Hi1 & He).
    eexists _, (b1, f1). rewrite (st_bind_Ok _ _ _ _ _ E). split; [done|]. unfold Inv. rewrite <- Hi0. done.
  - intros q k x [b0 f0] Hq (Hb0 & Hc0 & Hi0).
    destruct (read_page_clean b0 f0 bks pgs q k x Hb0 Hc0 Hq) as (b1 & f1 & g & E & Hb1 & Hc1 & Hi1 & Hx).
    eexists (b1, f1). rewrite (st_bind_Ok _ _ _ _ _ E). split; [|unfold Inv; by rewrite <- Hi0].
    rewrite <- Hx. cbn. by rewrite (Page_eta (data_of (gd_dao g))).
  - apply (bd_room _ _ _ _ Hb).
  - done.
  - apply (bd_bundles _ _ _ _ Hb).
  - done.
  - done.
  - done.
  - done.
  - split; [by exists bks, pgs|done].
Qed.

(** *** Committing *)

Lemma drop_guards_ok lines : ∀ n b f f0 bks pgs, body b f bks pgs → fm_trans f0 = fm_trans f →
  fm_pages f = replicate n None ++ lines →
  ∃ b' t', FileMut.drop_guards lines (b, f0) = (Ok (), (b', FileMut.with_trans f0 t'))
    ∧ body b' (FileMut.with_pages (FileMut.with_trans f t') (replicate (n + length lines) None)) bks pgs.
Proof.
  induction lines as [|g lines IH]; intros n b f f0 bks pgs Hb Ht Hl.
  - exists b, (fm_trans f). rewrite app_nil_r in Hl. cbn. rewrite Nat.add_0_r, <- Hl, <- Ht at 1.
    split; [by rewrite with_trans_same|]. by destruct f.
  - destruct (evict_ok b f bks pgs n g f0 Hb Ht) as (b1 & t1 & E1 & Hb1 & _).
    { rewrite Hl, lookup_app_r, length_replicate, Nat.sub_diag by (rewrite length_replicate; lia). done. }
    destruct (IH (S n) b1 _ (FileMut.with_trans f0 t1) bks pgs Hb1) as (b2 & t2 & E2 & Hb2).
    { done. }
    { cbn [FileMut.with_pages fm_pages]. rewrite Hl, insert_app_r_alt by (rewrite length_replicate; lia).
      rewrite length_replicate, Nat.sub_diag, replicate_S_end, <- app_assoc. done. }
    exists b2, t2. cbn [FileMut.drop_guards]. rewrite (st_bind_Ok _ _ _ _ _ E1). split; [done|].
    by replace (n + length (g :: lines))%nat with (S n + length lines)%nat by (cbn; lia).
Qed.

Lemma body_dirty b f bks pgs v n : body b f bks pgs → fm_pages f = replicate n None →
  body b (FileMut.with_dirty f v) bks pgs.
Proof.
  intros Hb Hn. destruct Hb. constructor; try done. cbn. split; [apply bd_page_cache|].
  intros i g. rewrite Hn. by intros [[=] _]%lookup_replicate.
Qed.

Lemma state_commit_ok b f c : file_is b f c → (fm_dirty f = false → ts_durable (world b f)) →
  ∃ b' f', FileMut.commit (b, f) = (Ok (), (b', f')) ∧ file_is b' f' c ∧ clean b' f'
    ∧ fm_inode f' = fm_inode f.
Proof.
  intros (bks & pgs & Hb & Hp) Hd. unfold FileMut.commit, st_mk. destruct (fm_dirty f) eqn:Hdf.
  2: { exists b, f. split; [done|]. split; [by exists bks, pgs|]. by split; [split; auto|]. }
  rewrite (st_bind_Ok _ _ _ _ _ (change_ok _ _ _)).
  destruct (drop_guards_ok (fm_pages f) 0 b f (FileMut.with_pages f (no_lines CACHED_PAGES)) bks pgs Hb)
    as (b1 & t1 & E1 & Hb1); [done..|]. rewrite (st_bind_Ok _ _ _ _ _ E1).
  assert (replicate (0 + length (fm_pages f)) None = no_lines (A := Guard Page) CACHED_PAGES) as Hnl.
  { by rewrite (proj1 (bd_page_cache _ _ _ _ Hb)). }
  rewrite Hnl in Hb1. clear Hnl.
  destruct (commit_trans_ok _ _ _ _ Hb1) as (b2 & t2 & E2 & Hb2 & _ & Hd2).
  change (FileMut.with_trans (FileMut.with_pages f (no_lines CACHED_PAGES)) t1)
    with (FileMut.with_pages (FileMut.with_trans f t1) (no_lines CACHED_PAGES)).
  rewrite (st_bind_Ok _ _ _ _ _ E2). eexists b2, _. rewrite change_ok. split; [done|].
  split; [exists bks, pgs; split; [|done]|done]. by eapply body_dirty.
Qed.

(** *** Opening *)

Definition stored_in (s : B * T) :=
  stored_as (ts_sees Inode s) (ts_sees PageBundle s) (ts_sees Page s).

Lemma body_open b t k i bks pgs d : ts_ready (b, t) → ts_dao k i d → stored_in (b, t) k i bks pgs →
  body b (FileMut.new t d) bks pgs.
Proof.
  intros Hr Hd []. assert (DaoMut.key d = k) as Hk by apply Hd.
  assert (inode_of (FileMut.new t d) = i) as Hi by apply Hd.
  constructor; rewrite ?Hi; cbn; rewrite ?Hk; try done.
  - intros q kp x Hq. pose proof (st_bufs0 q kp x Hq) as Hx. split; [by eexists|]. unfold page_now. cbn.
    assert (hit guard_key (no_lines CACHED_PAGES) (wline kp) kp = None) as ->; [|done].
    unfold hit, no_lines. destruct (replicate _ _ !! _) as [o|] eqn:E; [|done].
    by apply lookup_replicate in E as [-> _].
  - split; [done|]. intros i' d'. unfold no_lines. by intros [[=] _]%lookup_replicate.
  - split; [done|]. intros i' d'. unfold no_lines. by intros [[=] _]%lookup_replicate.
  - intros i' d' j g. unfold no_lines. by intros [[=] _]%lookup_replicate.
Qed.

Lemma body_stored b f bks pgs : body b f bks pgs → fm_dirty f = false →
  stored_in (world b f) (DaoMut.key (fm_inode f)) (inode_of f) bks pgs.
Proof.
  intros Hb Hc. pose proof (clean_page b f bks pgs) as Hcp. destruct Hb. constructor; try done; [apply bd_inode|].
  intros q kp x Hq. apply (Hcp q kp x); [by constructor|done|done].
Qed.

Lemma stored_same s s' k i bks pgs : ts_same s s' → stored_in s k i bks pgs → stored_in s' k i bks pgs.
Proof. intros Hs. apply stored_mono; intros k' x _; apply Hs. Qed.

(** *** Files that are only read *)

(** What is in the lines of a reader is what a transaction sees. *)
Definition reader_ok (t : T) (s : B * FileRo) : Prop :=
  ts_ready (s.1, t) ∧ ts_durable (s.1, t)
  ∧ (∀ i d, fr_bundles s.2 !! i = Some (Some d) → ts_sees PageBundle (s.1, t) (dao_key d) (row_data (snd d)))
  ∧ (∀ i d, fr_pages s.2 !! i = Some (Some d) → ts_sees Page (s.1, t) (dao_key d) (row_data (snd d))).

Lemma reader_new b t i : ts_ready (b, t) → ts_durable (b, t) → reader_ok t (b, FileRo.new i).
Proof.
  intros Hr Hd. split; [done|]. split; [done|]. split; intros j d; cbn; unfold no_lines;
    by intros [[=] _]%lookup_replicate.
Qed.

Lemma reader_bundle t b r k p : reader_ok t (b, r) → ts_sees PageBundle (b, t) k p →
  ∃ b' r', FileRo.load_bundle k (b, r) = (Ok p, (b', r')) ∧ reader_ok t (b', r')
    ∧ fr_inode r' = fr_inode r ∧ ts_same (b, t) (b', t).
Proof.
  intros (Hr & Hd & Hbs & Hps) Hp. cbn in *. unfold FileRo.load_bundle, st_mk.
  destruct (hit _ _ _ _) as [d|] eqn:Eh.
  - apply hit_Some in Eh as [Eh <-]. exists b, r.
    rewrite (ts_sees_one _ _ _ _ _ (Hbs _ _ Eh) Hp). split; [done|]. split; [by split; [|split]|by split].
  - destruct (ts_load_ro _ _ _ _ Hr Hd Hp) as (d & b' & E & Hk & Hx & Hr' & Hs & Hd'). cbn in *.
    rewrite E, Hx. eexists b', _. split; [done|]. split; [|done]. split; [done|]. split; [done|]. split; cbn.
    + intros i d' [(_ & [= <-] & _)|[_ Hi]]%list_lookup_insert_Some.
      * unfold dao_key. rewrite Hk, Hx. by apply Hs.
      * by eapply Hs, Hbs.
    + intros i d' Hi. by eapply Hs, Hps.
Qed.

Lemma reader_page t b r k p : reader_ok t (b, r) → ts_sees Page (b, t) k p →
  ∃ b' r', FileRo.load_page k (b, r) = (Ok p, (b', r')) ∧ reader_ok t (b', r')
    ∧ fr_inode r' = fr_inode r ∧ ts_same (b, t) (b', t).
Proof.
  intros (Hr & Hd & Hbs & Hps) Hp. cbn in *. unfold FileRo.load_page, st_mk.
  destruct (hit _ _ _ _) as [d|] eqn:Eh.
  - apply hit_Some in Eh as [Eh <-]. exists b, r.
    rewrite (ts_sees_one _ _ _ _ _ (Hps _ _ Eh) Hp). split; [done|]. split; [by split; [|split]|by split].
  - destruct (ts_load_ro _ _ _ _ Hr Hd Hp) as (d & b' & E & Hk & Hx & Hr' & Hs & Hd'). cbn in *.
    rewrite E, Hx. eexists b', _. split; [done|]. split; [|done]. split; [done|]. split; [done|]. split; cbn.
    + intros i d' Hi. by eapply Hs, Hbs.
    + intros i d' [(_ & [= <-] & _)|[_ Hi]]%list_lookup_insert_Some.
      * unfold dao_key. rewrite Hk, Hx. by apply Hs.
      * by eapply Hs, Hps.
Qed.

(** A reader that is opened on a file that is stored. *)
Lemma reader_read_page s t k i bks pgs l b1 r (o n : nat) : stored_in s k i bks pgs → paged l pgs.*2 →
  reader_ok t (b1, r) → ts_same s (b1, t) → row_data (snd (fr_inode r)) = i →
  (o < length l)%nat → (o + n ≤ length l)%nat → (o mod page_size + n ≤ page_size)%nat →
  ∃ b' r', FileRo.read_page (Z.of_nat o) (Z.of_nat n) (b1, r) = (Ok (take n (drop o l)), (b', r'))
    ∧ reader_ok t (b', r') ∧ ts_same s (b', t) ∧ fr_inode r' = fr_inode r.
Proof.
  intros Hst Hp Hro Hs Hi Ho Hon Hn.
  pose (Inv := λ s' : B * FileRo, reader_ok t s' ∧ ts_same s (s'.1, t) ∧ fr_inode s'.2 = fr_inode r).
  unfold FileRo.read_page, st_mk. rewrite Hi.
  edestruct (read_page_with_ok Inv) as ([b' r'] & E & Hr' & Hs' & Hi'); [..|by eexists b', r'].
  - intros j kb [b0 r0] Hj (Hr0 & Hs0 & Hi0). destruct (st_pages _ _ _ _ _ _ _ Hst j kb Hj) as (p & Hpk & He).
    destruct (reader_bundle _ b0 r0 kb p Hr0) as (b2 & r2 & E & Hr2 & Hi2 & Hs2); [by apply Hs0|].
    exists p, (b2, r2). split; [done|]. split; [|done]. split; [done|]. split; [by eapply ts_same_trans|].
    cbn in *. congruence.
  - intros q kp x [b0 r0] Hq (Hr0 & Hs0 & Hi0).
    destruct (reader_page _ b0 r0 kp {| pg_buf := x |} Hr0) as (b2 & r2 & E & Hr2 & Hi2 & Hs2).
    { by eapply Hs0, (st_bufs _ _ _ _ _ _ _ Hst). }
    exists (b2, r2). split; [done|]. split; [done|]. split; [by eapply ts_same_trans|]. cbn in *. congruence.
  - apply (st_room _ _ _ _ _ _ _ Hst).
  - done.
  - apply (st_bundles _ _ _ _ _ _ _ Hst).
  - done.
  - done.
  - done.
  - done.
Qed.

(** ** A file as a sequence of bytes *)

(** Opening a file again, for writing or for one read. *)
Definition reopen (scope : TransactionScope) : st (B * RegularFile T) FileSystemErrorKind unit :=
  st_mk (λ '(b, r),
    match tr_load Inode (PrimaryKey.new (rf_ino r)) (b, tr_begin scope) with
    | (Ok d, (b, t)) => (Ok (), (b, RegularFile.new_mut t d (rf_created r) (rf_updated r)))
    | (Err e, (b, _)) => (Err (FileSystemErrorKind.from_load e), (b, r))
    end).

Definition read_only (offset size : Z) : st (B * RegularFile T) FileSystemErrorKind bytes :=
  st_mk (λ '(b, r),
    match tr_load_ro Inode (PrimaryKey.new (rf_ino r)) b with
    | (Ok d, b) =>
        let '(x, (b, _)) := RegularFile.read offset size
          (b, RegularFile.new d (rf_created r) (rf_updated r) : RegularFile T) in (x, (b, r))
    | (Err e, b) => (Err (FileSystemErrorKind.from_load e), (b, r))
    end).

Inductive FileOp : Type :=
  | WriteAt (offset : nat) (data : bytes)
  | ReadAt (offset size : nat)
  | ReadOnly (offset size : nat)
  | Truncate (size : nat)
  | CommitFile
  | Reopen (scope : TransactionScope).

(** What an operation answers: the number of bytes written, or the bytes read. *)
Definition run_op (op : FileOp) : st (B * RegularFile T) FileSystemErrorKind (Z + bytes) :=
  match op with
  | WriteAt o data => n ← RegularFile.write (Z.of_nat o) data; mret (inl n)
  | ReadAt o n => bs ← RegularFile.read (Z.of_nat o) (Z.of_nat n); mret (inr bs)
  | ReadOnly o n => bs ← read_only (Z.of_nat o) (Z.of_nat n); mret (inr bs)
  | Truncate n => _ ← RegularFile.fallocate (Z.of_nat n); mret (inr [])
  | CommitFile => _ ← RegularFile.commit; mret (inr [])
  | Reopen scope => _ ← reopen scope; mret (inr [])
  end.

Fixpoint run_ops (ops : list FileOp) : st (B * RegularFile T) FileSystemErrorKind (list (Z + bytes)) :=
  match ops with
  | [] => mret []
  | op :: ops => x ← run_op op; xs ← run_ops ops; mret (x :: xs)
  end.

(** The same on a list of bytes, with whether something was not committed. *)
Definition bytes_after (op : FileOp) '((c, dirty) : bytes * bool) : bytes * bool :=
  match op with
  | WriteAt o data => (overwrite o data c, dirty || negb (bool_decide (data = [])))
  | Truncate n => (take n c, true)
  | CommitFile => (c, false)
  | _ => (c, dirty)
  end.

Definition bytes_answer (op : FileOp) (c : bytes) : Z + bytes :=
  match op with
  | WriteAt o data => inl (len data)
  | ReadAt o n | ReadOnly o n => inr (take n (drop o c))
  | _ => inr []
  end.

(** No write behind the end, no growth without a write, and no read before what was written is committed. *)
Definition in_order (op : FileOp) '((c, dirty) : bytes * bool) : Prop :=
  match op with
  | WriteAt o data => (o ≤ length c)%nat ∧ Z.of_nat o + len data ≤ u64_max
  | ReadAt _ _ | ReadOnly _ _ | Reopen _ => dirty = false
  | Truncate n => (n ≤ length c)%nat
  | CommitFile => True
  end.

Fixpoint all_in_order (ops : list FileOp) (a : bytes * bool) : Prop :=
  match ops with
  | [] => True
  | op :: ops => in_order op a ∧ all_in_order ops (bytes_after op a)
  end.

Fixpoint answers (ops : list FileOp) (a : bytes * bool) : list (Z + bytes) :=
  match ops with
  | [] => []
  | op :: ops => bytes_answer op a.1 :: answers ops (bytes_after op a)
  end.

(** What was cut off stays in the pages. *)
Definition file_at k (h : Dentry * FileKind) (s : B * RegularFile T) '((c, dirty) : bytes * bool) : Prop :=
  ∃ f l, rf_state s.2 = Mutable f ∧ (rf_ino s.2 = PrimaryKey.as_u64 k ∧ DaoMut.key (fm_inode f) = k ∧ head (inode_of f) = h)
    ∧ rf_size s.2 = len c ∧ (file_is s.1 f l ∧ c `prefix_of` l) ∧ in_size (inode_of f) = len c
    ∧ fm_dirty f = dirty ∧ (dirty = false → ts_durable (s.1, fm_trans f)).

Lemma key_back k : PrimaryKey.new (PrimaryKey.as_u64 k) = k.
Proof. by destruct k. Qed.

Lemma set_size_ok b f c v : file_is b f c →
  ∃ b' f', FileMut.set_size v (b, f) = (Ok (), (b', f')) ∧ file_is b' f' c
    ∧ DaoMut.key (fm_inode f') = DaoMut.key (fm_inode f) ∧ in_size (inode_of f') = v
    ∧ head (inode_of f') = head (inode_of f) ∧ fm_dirty f' = true.
Proof.
  intros (bks & pgs & Hb & Hp). unfold FileMut.set_size.
  destruct (modify_inode_ok b f bks pgs bks (Inode.with_size v) Hb) as (b' & f' & E & Hb' & Hi & Hk & _);
    [apply (bd_bundles _ _ _ _ Hb)|by left|].
  rewrite (st_bind_Ok _ _ _ _ _ E), change_ok. eexists b', _. split; [done|].
  split; [exists bks, pgs; split; [by apply body_dirtied|done]|]. cbn. rewrite Hk.
  change (inode_of (FileMut.with_dirty f' true)) with (inode_of f'). by rewrite Hi.
Qed.

(** An operation on the state of a file that may be written. *)
Lemma on_state_ok {A} (ro : st (B * FileRo) FileSystemErrorKind A) (rw : st (B * FileMut T) FileSystemErrorKind A)
    b r f x b' f' : rf_state r = Mutable f → rw (b, f) = (Ok x, (b', f')) →
  RegularFile.on_state ro rw (b, r) = (Ok x, (b', RegularFile.with_state r (rf_size r) (Mutable f'))).
Proof. intros Hs E. unfold RegularFile.on_state, st_mk. by rewrite Hs, E. Qed.

Lemma write_ok k h s c dirty (o : nat) data : file_at k h s (c, dirty) → (o ≤ length c)%nat →
  Z.of_nat o + len data ≤ u64_max →
  ∃ s', RegularFile.write (Z.of_nat o) data s = (Ok (len data), s')
    ∧ file_at k h s' (overwrite o data c, dirty || negb (bool_decide (data = []))).
Proof.
  destruct s as [b r]. intros (f & l & Hst & Hino & Hsz & [Hf Hpre] & His & Hdf & Hdu) Ho Hmax. cbn in Hst, Hino, Hsz, Hf, Hdu.
  pose proof (prefix_length _ _ Hpre) as Hl.
  destruct data as [|x data'].
  { eexists (b, r). split; [done|]. cbn. rewrite orb_false_r, overwrite_nil by done. by exists f, l. }
  unfold RegularFile.write. set (data := x :: data') in *. assert (data ≠ []) as Hne by done. clearbody data.
  cbv zeta. rewrite decide_False by lia.
  assert (∃ b1 r1 f1, (if decide (RegularFile.get_size r < Z.of_nat o + len data)
      then RegularFile.on_state (st_fail NoAccess) (FileMut.set_size (Z.of_nat o + len data)) (b, r)
      else (Ok (), (b, r))) = (Ok (), (b1, r1))
    ∧ rf_state r1 = Mutable f1 ∧ rf_ino r1 = rf_ino r ∧ file_is b1 f1 l
    ∧ (DaoMut.key (fm_inode f1) = DaoMut.key (fm_inode f) ∧ head (inode_of f1) = head (inode_of f))
    ∧ in_size (inode_of f1) = len (overwrite o data c))
    as (b1 & r1 & f1 & E1 & Hst1 & Hino1 & Hf1 & [Hk1 Hh1] & Hi1).
  { assert (RegularFile.get_size r = len c) as -> by (unfold RegularFile.get_size; by rewrite Hst).
    assert (len (overwrite o data c) = Z.max (len c) (Z.of_nat o + len data)) as Hlen.
    { unfold len. rewrite overwrite_length by done. lia. }
    destruct (decide _) as [Hlt|Hge].
    - destruct (set_size_ok b f l (Z.of_nat o + len data) Hf) as (b1 & f1 & E1 & Hf1 & Hk1 & Hi1 & Hh1 & _).
      eexists b1, _, f1. rewrite (on_state_ok _ _ _ _ _ _ _ _ Hst E1). do 5 (split; [done|]). rewrite Hi1, Hlen. lia.
    - exists b, r, f. do 5 (split; [done|]). rewrite His, Hlen. lia. }
  erewrite st_bind_Ok; [|exact E1].
  destruct (write_loop_ok (turns (len data)) b1 f1 l o data Hf1) as (b2 & f2 & E2 & Hf2 & Hk2 & Hih & Hd2).
  { lia. }
  { intros _. apply turns_enough. }
  rewrite (st_bind_Ok _ _ _ _ _ (on_state_ok _ _ _ _ _ _ _ _ Hst1 E2)).
  assert (in_size (inode_of f2) = len (overwrite o data c)) as Hi3 by (etrans; [exact (f_equal fst Hih)|exact Hi1]).
  assert (head (inode_of f2) = head (inode_of f)) as Hh2 by (etrans; [exact (f_equal snd Hih)|exact Hh1]). clear Hih.
  eexists. split; [reflexivity|]. rewrite bool_decide_false by done.
  exists f2, (overwrite o data l). cbn in *. rewrite orb_true_r. rewrite bool_decide_false, orb_true_r in Hd2 by done.
  destruct Hino as (Hino & Hk & Hh). split; [done|]. split; [split; [congruence|]; split; congruence|].
  split; [exact Hi3|]. split; [split; [done|by apply overwrite_prefix]|]. split; [done|]. by split.
Qed.

Lemma read_ok k h s c (o n : nat) : file_at k h s (c, false) →
  ∃ s', RegularFile.read (Z.of_nat o) (Z.of_nat n) s = (Ok (take n (drop o c)), s') ∧ file_at k h s' (c, false).
Proof.
  destruct s as [b r]. intros (f & l & Hst & Hino & Hsz & [Hf Hpre] & His & Hdf & Hdu). cbn in Hst, Hino, Hsz, Hf, Hdu.
  pose proof (prefix_length _ _ Hpre) as Hl.
  assert (RegularFile.get_size r = len c) as Hg by (unfold RegularFile.get_size; by rewrite Hst).
  unfold RegularFile.read, st_mk. rewrite Hg. unfold len in *.
  destruct (decide (Z.of_nat (length c) ≤ Z.of_nat o)) as [Hle|Hlt].
  { exists (b, r). rewrite drop_ge, take_nil by lia. split; [done|by exists f, l]. }
  destruct (decide _) as [Hz|Hnz].
  { exists (b, r). replace n with 0%nat by lia. split; [done|by exists f, l]. }
  set (m := Nat.min n (length c - o)).
  replace (Z.min (Z.of_nat n) (Z.of_nat (length c) - Z.of_nat o)) with (Z.of_nat m) by (unfold m; lia).
  pose (Inv := λ s : B * FileMut T, file_is s.1 s.2 l ∧ clean s.1 s.2 ∧ fm_inode s.2 = fm_inode f).
  edestruct (read_loop_ok Inv FileMut.read_page c) with (o := o) (n := m) (fuel := turns (Z.of_nat m))
    (s := (b, f)) as ([b' f'] & E & Hf' & Hc' & Hi').
  { intros o' n' [b0 f0] (Hf0 & Hc0 & Hi0) Ho' Hon' Hn'.
    destruct (file_read_page b0 f0 l o' n' Hf0 Hc0) as (b1 & f1 & E & Hf1 & Hc1 & Hi1); [lia|lia|done|].
    exists (b1, f1). split; [by rewrite E, (prefix_read o' n' c l)|]. split; [done|]. split; [done|]. cbn in *. congruence. }
  { split; [done|]. split; [|done]. split; [done|]. by apply Hdu. }
  { unfold m. lia. }
  { intros _. apply turns_enough. }
  rewrite (on_state_ok _ _ _ _ _ _ _ _ Hst E). eexists. split.
  { do 2 f_equal. unfold m. rewrite <- (length_drop c o), Nat.min_comm. apply take_min_length. }
  exists f', l. cbn in *. destruct Hc'. unfold inode_of in *. rewrite Hi'. repeat (split; [done|]). done.
Qed.

Lemma file_commit_ok k h s c dirty : file_at k h s (c, dirty) →
  ∃ s', RegularFile.commit s = (Ok (), s') ∧ file_at k h s' (c, false).
Proof.
  destruct s as [b r]. intros (f & l & Hst & Hino & Hsz & [Hf Hpre] & His & Hdf & Hdu). cbn in Hst, Hino, Hsz, Hf, Hdu.
  destruct (state_commit_ok b f l Hf) as (b' & f' & E & Hf' & [Hc Hd] & Hi); [rewrite Hdf; exact Hdu|].
  unfold RegularFile.commit. rewrite (on_state_ok _ _ _ _ _ _ _ _ Hst E). eexists. split; [done|].
  exists f', l. cbn. unfold inode_of in *. rewrite Hi. repeat (split; [done|]). done.
Qed.

Lemma truncate_ok k h s c dirty (n : nat) : file_at k h s (c, dirty) → (n ≤ length c)%nat →
  ∃ s', RegularFile.fallocate (Z.of_nat n) s = (Ok (), s') ∧ file_at k h s' (take n c, true).
Proof.
  destruct s as [b r]. intros (f & l & Hst & Hino & Hsz & [Hf Hpre] & His & Hdf & Hdu) Hn. cbn in Hst, Hino, Hsz, Hf, Hdu.
  destruct (set_size_ok b f l (Z.of_nat n) Hf) as (b' & f' & E & Hf' & Hk & Hi & Hh & Hd).
  unfold RegularFile.fallocate. rewrite (st_bind_Ok _ _ _ _ _ (on_state_ok _ _ _ _ _ _ _ _ Hst E)).
  eexists. split; [reflexivity|]. exists f', l. cbn. unfold len. rewrite length_take, Nat.min_l, Hk, Hh by done.
  repeat (split; [done|]). split; [|done]. split; [done|]. etrans; [|exact Hpre]. apply prefix_take.
Qed.

(** Opening a file that is stored. *)
Lemma open_at b t k i bks pgs l c d created updated : ts_ready (b, t) → ts_durable (b, t) → ts_dao k i d →
  stored_in (b, t) k i bks pgs → paged l pgs.*2 → c `prefix_of` l → in_size i = len c →
  file_at k (head i) (b, RegularFile.new_mut t d created updated) (c, false).
Proof.
  intros Hr Hd Hdao Hst Hp Hpre Hsz. assert (row_data (dao_row d) = i) as Hx by apply Hdao.
  exists (FileMut.new t d), l. cbn. unfold inode_of. cbn. rewrite Hx, (proj1 (proj1 Hdao)).
  split; [done|]. split; [done|]. split; [done|].
  split; [split; [exists bks, pgs; split; [by eapply body_open|done]|done]|]. done.
Qed.

(** What a step beside the transaction leaves alone. *)
Lemma file_moves k h b r a b' : file_at k h (b, r) a →
  (∀ t, ts_ready (b, t) → ts_ready (b', t) ∧ ts_same (b, t) (b', t) ∧ (ts_durable (b, t) → ts_durable (b', t))) →
  file_at k h (b', r) a.
Proof.
  destruct a as [c dirty]. intros (f & l & Hst & Hino & Hsz & [(bks & pgs & Hb & Hp) Hpre] & His & Hdf & Hdu) Hm.
  cbn in *. destruct (Hm (fm_trans f) (bd_ready _ _ _ _ Hb)) as (Hr & Hs & Hd).
  exists f, l. cbn. repeat (split; [done|]). split; [split; [|done]|by split; [|split; [|auto]]].
  exists bks, pgs. split; [|done]. rewrite <- (with_trans_same f). by eapply body_keeps, same_keeps.
Qed.

Lemma reopen_ok k h s c scope : file_at k h s (c, false) →
  ∃ s', reopen scope s = (Ok (), s') ∧ file_at k h s' (c, false).
Proof.
  destruct s as [b r]. intros (f & l & Hst & Hino & Hsz & [(bks & pgs & Hb & Hp) Hpre] & His & Hdf & Hdu). cbn in Hst, Hino, Hsz, Hb, Hdu.
  destruct Hino as (Hino & Hk0 & Hh0).
  destruct (ts_begin _ scope (Hdu eq_refl)) as (Hr & Hdb & Hs). destruct (bd_inode _ _ _ _ Hb) as [_ Hi].
  unfold reopen, st_mk. rewrite Hino, key_back, <- Hk0.
  destruct (ts_load Inode (b, tr_begin scope) (DaoMut.key (fm_inode f)) (inode_of f) Hr) as (d & [b' t'] & E & Hd & Hr' & Hs' & Hd');
    [by apply Hs|]. rewrite E. eexists. split; [done|].
  rewrite <- Hh0. eapply (open_at _ _ _ _ bks pgs l); try done; [by apply Hd'|].
  apply (stored_same (b, fm_trans f)); [by eapply ts_same_trans|]. by apply body_stored.
Qed.

(** A reader of a file that is not written. *)
Lemma reader_read_ok s t k i bks pgs l c b1 d created updated (o n : nat) :
  stored_in s k i bks pgs → paged l pgs.*2 → c `prefix_of` l → in_size i = len c →
  ts_ready (b1, t) → ts_durable (b1, t) → ts_same s (b1, t) → row_data (snd d) = i →
  ∃ b' r', RegularFile.read (Z.of_nat o) (Z.of_nat n) (b1, RegularFile.new d created updated : RegularFile T)
      = (Ok (take n (drop o c)), (b', r'))
    ∧ ts_ready (b', t) ∧ ts_durable (b', t) ∧ ts_same s (b', t).
Proof.
  intros Hst Hp Hpre His Hr1 Hd1 Hs1 Hx. pose proof (prefix_length _ _ Hpre) as Hl.
  unfold RegularFile.read, st_mk. cbn [RegularFile.get_size RegularFile.new RegularFile.make rf_state FileRo.new fr_inode].
  rewrite Hx, His. unfold len.
  destruct (decide (Z.of_nat (length c) ≤ Z.of_nat o)) as [Hle|Hlt].
  { eexists b1, _. rewrite drop_ge, take_nil by lia. done. }
  destruct (decide _) as [Hz|Hnz].
  { eexists b1, _. replace n with 0%nat by lia. done. }
  set (m := Nat.min n (length c - o)).
  replace (Z.min (Z.of_nat n) (Z.of_nat (length c) - Z.of_nat o)) with (Z.of_nat m) by (unfold m; lia).
  pose (Inv := λ s' : B * FileRo, reader_ok t s' ∧ ts_same s (s'.1, t) ∧ fr_inode s'.2 = d).
  edestruct (read_loop_ok Inv FileRo.read_page c) with (o := o) (n := m) (fuel := turns (Z.of_nat m))
    (s := (b1, FileRo.new d)) as ([b' r'] & E' & Hro & Hs' & Hi').
  { intros o' n' [b0 r0] (Hr0 & Hs0 & Hi0) Ho' Hon' Hn'. cbn in Hi0.
    destruct (reader_read_page s t k i bks pgs l b0 r0 o' n') as (b2 & r2 & E2 & Hr2 & Hs2 & Hi2); try done;
      [by rewrite Hi0|lia..|].
    exists (b2, r2). split; [by rewrite E2, (prefix_read o' n' c l)|]. split; [done|]. split; [done|]. cbn in *. congruence. }
  { split; [by apply reader_new|done]. }
  { unfold m. lia. }
  { intros _. apply turns_enough. }
  unfold RegularFile.on_state, st_mk. cbn [rf_state RegularFile.new RegularFile.make]. rewrite E'.
  eexists b', _. split.
  { do 2 f_equal. unfold m. rewrite <- (length_drop c o), Nat.min_comm. apply take_min_length. }
  by destruct Hro as (Hr' & Hd' & _).
Qed.

Lemma read_only_ok k h s c (o n : nat) : file_at k h s (c, false) →
  ∃ s', read_only (Z.of_nat o) (Z.of_nat n) s = (Ok (take n (drop o c)), s') ∧ file_at k h s' (c, false).
Proof.
  destruct s as [b r]. intros (f & l & Hst & Hino & Hsz & [Hf Hpre] & His & Hdf & Hdu). cbn in Hst, Hino, Hsz, Hf, Hdu.
  pose proof Hf as (bks & pgs & Hb & Hp). specialize (Hdu eq_refl). destruct (bd_inode _ _ _ _ Hb) as [_ Hi].
  destruct Hino as (Hino & <- & Hh). unfold read_only, st_mk. rewrite Hino, key_back.
  destruct (ts_load_ro Inode _ _ _ (bd_ready _ _ _ _ Hb) Hdu Hi) as (d & b1 & E & Hk & Hx & Hr1 & Hs1 & Hd1).
  cbn in E. rewrite E. pose proof (body_stored _ _ _ _ Hb Hdf) as Hstored.
  destruct (reader_read_ok _ (fm_trans f) _ _ _ _ l c b1 d (rf_created r) (rf_updated r) o n Hstored)
    as (b2 & r2 & E2 & Hr2 & Hd2 & Hs2); try done.
  rewrite E2. exists (b2, r). split; [done|]. exists f, l. cbn. repeat (split; [done|]). split; [|done]. split; [|done].
  exists bks, pgs. split; [|done]. rewrite <- (with_trans_same f). by eapply body_keeps, same_keeps.
Qed.

Lemma run_op_ok k h op s a : file_at k h s a → in_order op a →
  ∃ s', run_op op s = (Ok (bytes_answer op a.1), s') ∧ file_at k h s' (bytes_after op a).
Proof.
  destruct a as [c dirty]. intros Hf Ho. destruct op as [o data|o n|o n|n| |scope]; cbn in Ho; try subst dirty.
  - destruct Ho as [Ho Hm]. destruct (write_ok k h s c dirty o data Hf Ho Hm) as (s' & E & Hf').
    exists s'. split; [|done]. cbn [run_op]. by rewrite (st_bind_Ok _ _ _ _ _ E).
  - destruct (read_ok k h s c o n Hf) as (s' & E & Hf').
    exists s'. split; [|done]. cbn [run_op]. by rewrite (st_bind_Ok _ _ _ _ _ E).
  - destruct (read_only_ok k h s c o n Hf) as (s' & E & Hf').
    exists s'. split; [|done]. cbn [run_op]. by rewrite (st_bind_Ok _ _ _ _ _ E).
  - destruct (truncate_ok k h s c dirty n Hf Ho) as (s' & E & Hf').
    exists s'. split; [|done]. cbn [run_op]. by rewrite (st_bind_Ok _ _ _ _ _ E).
  - destruct (file_commit_ok k h s c dirty Hf) as (s' & E & Hf').
    exists s'. split; [|done]. cbn [run_op]. by rewrite (st_bind_Ok _ _ _ _ _ E).
  - destruct (reopen_ok k h s c scope Hf) as (s' & E & Hf').
    exists s'. split; [|done]. cbn [run_op]. by rewrite (st_bind_Ok _ _ _ _ _ E).
Qed.

Lemma run_ops_ok k h ops : ∀ s a, file_at k h s a → all_in_order ops a →
  ∃ s', run_ops ops s = (Ok (answers ops a), s') ∧ file_at k h s' (foldl (λ a op, bytes_after op a) a ops).
Proof.
  induction ops as [|op ops IH]; intros s a Hf Ho; [by exists s|]. destruct Ho as [Ho Hos].
  destruct (run_op_ok k h op s a Hf Ho) as (s1 & E1 & Hf1).
  destruct (IH s1 _ Hf1 Hos) as (s2 & E2 & Hf2). exists s2. split; [|done]. cbn [run_ops].
  by rewrite (st_bind_Ok _ _ _ _ _ E1), (st_bind_Ok _ _ _ _ _ E2).
Qed.

Lemma stored_empty s k i : ts_sees Inode s k i → in_bundles i = [] → stored_in s k i [] [].
Proof. intros Hs Hb. constructor; try done; [apply NoDup_singleton|by rewrite Hb]. Qed.

Lemma new_file_at b t k i d created updated : ts_ready (b, t) → ts_durable (b, t) → ts_dao k i d →
  ts_sees Inode (b, t) k i → in_bundles i = [] → in_size i = 0 →
  file_at k (head i) (b, RegularFile.new_mut t d created updated) ([], false).
Proof.
  intros Hr Hd Hdao Hs Hb Hz. eapply open_at; try done; [by apply stored_empty|apply paged_nil].
Qed.

End file.
