(* ===== verification/RecordBytes.v ===== *)
(** * Records as bytes

    A way to write the records of files/src/model.rs and the events of a chain as bytes, to run the
    file system on concrete inputs. *)

From S2P Require Import Prelude LogApi Crypto Codec Secure Meta Time Event Index Signature Tree Compact Plugins LogFile MemDb RedoLog Chain ChainSpec Pipe Dio Trans TransSpec FileModel.

Module ToyRecords.
(** A number, bit by bit. *)
Fixpoint bits (p : positive) : bytes :=
  match p with xH => [] | xO p => x00 :: bits p | xI p => x01 :: bits p end.

Fixpoint of_bits (bs : bytes) : positive :=
  match bs with [] => xH | b :: bs => if decide (b = x00) then xO (of_bits bs) else xI (of_bits bs) end.

Lemma of_bits_bits p : of_bits (bits p) = p.
Proof. induction p as [p IH|p IH|]; cbn; [by rewrite IH..|done]. Qed.

#[export] Program Instance countable_data D `{Countable D} : DataSerializer D := {
  data_serialize _ x := Ok (bits (encode x));
  data_deserialize _ bs := match decode (of_bits bs) with Some x => Ok x | None => Err LogApi.Serde end;
  data_type_name := "record";
}.
Next Obligation. intros D ? ? f x bs [= <-]. by rewrite of_bits_bits, decode_encode. Qed.

#[export] Instance countable_total D `{Countable D} : TotalData D.
Proof. intros f x. by eexists. Qed.

Definition Dentry_tuple (d : Dentry) :=
  (de_parent d, de_name d, de_mode d, de_uid d, de_gid d, de_xattr d).
Definition Dentry_of '((p, n, m, u, g, x) : option Z * string * Z * Z * Z * gmap string string) : Dentry :=
  {| de_parent := p; de_name := n; de_mode := m; de_uid := u; de_gid := g; de_xattr := x |}.

#[export] Instance Dentry_eq_dec : EqDecision Dentry.
Proof. solve_decision. Defined.
#[export] Program Instance Dentry_countable : Countable Dentry := inj_countable' Dentry_tuple Dentry_of _.
Next Obligation. by intros []. Qed.

#[export] Instance DaoMap_eq_dec : EqDecision DaoMap.
Proof. solve_decision. Defined.
#[export] Program Instance DaoMap_countable : Countable DaoMap :=
  inj_countable' (λ m, (dmap_lookup m, dmap_vec_id m)) (λ '(l, v), {| dmap_lookup := l; dmap_vec_id := v |}) _.
Next Obligation. by intros []. Qed.

Definition kind_number (k : FileKind) : Z :=
  match k with FileModel.Directory => 0 | FileModel.RegularFile => 1 | FileModel.FixedFile => 2 | FileModel.SymLink => 3 end.
Definition kind_of_number (n : Z) : FileKind :=
  match n with 0 => FileModel.Directory | 1 => FileModel.RegularFile | 2 => FileModel.FixedFile | _ => FileModel.SymLink end.
#[export] Program Instance FileKind_countable : Countable FileKind := inj_countable' kind_number kind_of_number _.
Next Obligation. by intros []. Qed.

#[export] Instance Inode_eq_dec : EqDecision Inode.
Proof. solve_decision. Defined.
#[export] Program Instance Inode_countable : Countable Inode :=
  inj_countable' (λ i, (in_kind i, in_dentry i, in_size i, in_bundles i, in_children i, in_link i, in_xattr i))
    (λ '(k, d, s, b, c, l, x), {| in_kind := k; in_dentry := d; in_size := s; in_bundles := b;
       in_children := c; in_link := l; in_xattr := x |}) _.
Next Obligation. by intros []. Qed.

#[export] Instance PageBundle_eq_dec : EqDecision PageBundle.
Proof. solve_decision. Defined.
#[export] Program Instance PageBundle_countable : Countable PageBundle :=
  inj_countable' pb_pages (λ l, {| pb_pages := l |}) _.
Next Obligation. by intros []. Qed.

#[export] Instance Page_eq_dec : EqDecision Page.
Proof. solve_decision. Defined.
#[export] Program Instance Page_countable : Countable Page :=
  inj_countable' pg_buf (λ b, {| pg_buf := b |}) _.
Next Obligation. by intros []. Qed.

#[export] Program Instance toy_text : KeyText := {| key_encode k := k; key_decode k := Some k |}.
Next Obligation. done. Qed.
End ToyRecords.

(** ** Events as bytes *)

(** A digest that depends on all bytes, and the metadata of the records of a file system that asks
    for no keys. *)
Module ToyEvents.
Import ToyRecords.

Definition mix (n : nat) (bs : bytes) : bytes :=
  let h := foldl (λ h b, Z.land (h * 65599 + Z_of_byte b + 1) 18446744073709551615) 7 bs in
  (λ i, byte_of_Z (Z.shiftr h (8 * Z.of_nat i) mod 256)) <$> seq 0 n.
#[export] Program Instance mixing : CryptoPrims := {
  blake3 := mix 32;
  keccak384 := mix 48;
  aes_ctr k iv n := fit n (k ++ iv);
  falcon_pair _ pk sk := pk = sk;
  falcon_sign _ sk data := Some (sk ++ data);
  falcon_verify _ pk data sig := Some (bool_decide (sig = pk ++ data));
}.
Next Obligation. intros. unfold mix. by rewrite length_fmap, length_seq. Qed.
Next Obligation. intros. unfold mix. by rewrite length_fmap, length_seq. Qed.
Next Obligation. intros. apply fit_length. Qed.
Next Obligation.
  intros l pk sk data ->. eexists. split; [done|]. by rewrite bool_decide_eq_true_2.
Qed.

Definition core_triple (c : CoreMetadata) : option (Z * Z * Z) :=
  match c with
  | CoreData k => Some (1, pk_key k, 0)
  | CoreTombstone k => Some (2, pk_key k, 0)
  | CoreTimestamp t => Some (3, time_since_epoch_ms t, 0)
  | CoreParent {| mp_vec := {| mc_parent_id := k; mc_collection_id := v |} |} => Some (4, pk_key k, v)
  | CoreAuthorization {| ma_read := ReadEveryone None; ma_write := WriteNobody |} => Some (5, 0, 0)
  | _ => None
  end.

Definition triple_core '((tag, a, b) : Z * Z * Z) : option CoreMetadata :=
  match tag with
  | 1 => Some (CoreData {| pk_key := a |})
  | 2 => Some (CoreTombstone {| pk_key := a |})
  | 3 => Some (CoreTimestamp {| time_since_epoch_ms := a |})
  | 4 => Some (CoreParent {| mp_vec := {| mc_parent_id := {| pk_key := a |}; mc_collection_id := b |} |})
  | 5 => Some (CoreAuthorization {| ma_read := ReadEveryone None; ma_write := WriteNobody |})
  | _ => None
  end.

Lemma triple_core_triple c x : core_triple c = Some x → triple_core x = Some c ∧ forget_cache_core c = c.
Proof.
  destruct c; cbn; repeat (case_match; try done); intros [= <-]; cbn; subst; repeat match goal with x : PrimaryKey |- _ => destruct x | x : ChainTimestamp |- _ => destruct x end; done.
Qed.

Lemma triple_core_forget x c : triple_core x = Some c → forget_cache_core c = c.
Proof. destruct x as [[tag a] b]. cbn. repeat (case_match; try done); by intros [= <-]. Qed.

Definition cores_encode (cs : list CoreMetadata) : option bytes :=
  (λ l, bits (encode l)) <$> mapM core_triple cs.
Definition cores_decode (bs : bytes) : option (list CoreMetadata) :=
  match decode (A := list (Z * Z * Z)) (of_bits bs) with Some l => mapM triple_core l | None => None end.

#[export] Program Instance triple_serializer : MetaSerializer := {
  meta_serialize _ m := match cores_encode (meta_core m) with Some bs => Ok bs | None => Err LogApi.Serde end;
  meta_deserialize _ bs :=
    match cores_decode bs with Some core => Ok {| meta_core := core |} | None => Err LogApi.Serde end;
}.
Next Obligation.
  intros f [core] bs. cbn. unfold cores_encode, cores_decode.
  destruct (mapM core_triple core) as [l|] eqn:E; [|done].
  intros [= <-]. rewrite of_bits_bits, decode_encode. apply mapM_Some in E.
  assert (mapM triple_core l = Some core ∧ forget_cache_core <$> core = core) as [-> Hf].
  { induction E as [|c x core l Hc _ [IH1 IH2]]; [done|]. destruct (triple_core_triple _ _ Hc) as [Ht Hf].
    cbn [mapM]. rewrite Ht, IH1, fmap_cons, Hf, IH2. done. }
  unfold forget_cache. cbn. by rewrite Hf.
Qed.
Next Obligation.
  intros f [core]. cbn. unfold cores_encode.
  assert (mapM core_triple (forget_cache_core <$> core) = mapM core_triple core) as ->; [|done].
  induction core as [|c core IH]; [done|]. rewrite fmap_cons. cbn [mapM]. rewrite IH. by destruct c.
Qed.
Next Obligation.
  intros f bs m. cbn. unfold cores_decode. destruct (decode _) as [l|]; [|done].
  destruct (mapM triple_core l) as [core|] eqn:E; [|done].
  intros [= <-]. apply mapM_Some in E. unfold forget_cache. cbn.
  assert (forget_cache_core <$> core = core) as ->; [|done].
  induction E as [|x c l core Hc _ IH]; [done|]. by rewrite fmap_cons, IH, (triple_core_forget _ _ Hc).
Qed.
Next Obligation. intros f bs e. cbn. destruct (cores_decode bs); by intros [=]. Qed.
End ToyEvents.
