(* ===== verification/RegFileSamples.v ===== *)
(** * Regular files on concrete inputs

    A file on the plain store, and what
    files/src/file.rs does outside the order that RegFileBytes asks for. *)

From S2P Require Import Prelude LogApi Crypto Codec Secure Meta Time Event Index Signature Tree Compact Plugins LogFile MemDb RedoLog Chain ChainSpec Pipe Dio Trans TransSpec FileModel RegFile RegFileSpec RegFileBytes RecordBytes.

Import ToyRecords.

(** ** A file on the plain store *)

#[local] Existing Instance toy_prims.

Definition sample_inode : Inode := Inode.new 1 2 "file" 420 0 0 FileModel.RegularFile.

Definition sample_inode_dao : DaoMut Inode :=
  DaoMut.new ({| rwh_key := PrimaryKey.new 20; rwh_parent := None; rwh_auth := inherit_auth |},
    {| row_key := PrimaryKey.new 20; row_type_name := "record"; row_created := 0; row_updated := 0;
       row_format := {| mf_meta := Json; mf_data := Json |}; row_data := sample_inode;
       row_collections := []; row_extra_meta := []; row_is_new := false |}).

(** The records of new bundles and pages get the keys from 21 on. *)
Definition sample_store : MemStore :=
  match Row.as_row_data (dao_row sample_inode_dao) (dao_header sample_inode_dao) with
  | Ok row => {| mem_rows := {[PrimaryKey.new 20 := row]}; mem_next := 21 |}
  | Err _ => {| mem_rows := ∅; mem_next := 21 |}
  end.

Definition sample_file : MemStore * RegularFile MemTx :=
  (sample_store, RegularFile.new_mut (tr_begin ScopeFull) sample_inode_dao 0 0).

(** What a sequence of operations answers. *)
Definition answers_of (ops : list FileOp) : result FileSystemErrorKind (list (Z + bytes)) :=
  fst (run_ops ops sample_file).

Definition page : nat := Z.to_nat PAGE_SIZE.

Definition sample_ops : list FileOp :=
  [WriteAt 0 [x41; x42]; WriteAt 2 [x43]; CommitFile; ReadAt 0 9; WriteAt 1 [x44; x45; x46]; CommitFile;
   Reopen ScopeFull; ReadOnly 0 9; Truncate 2; WriteAt 2 [x47]; CommitFile; ReadAt 0 9].

Lemma sample_visible k row : MemTrans.visible sample_store ∅ k = Some row →
  k = PrimaryKey.new 20 ∧ rdt_key row = PrimaryKey.new 20 ∧ rdt_parent row = None.
Proof.
  unfold MemTrans.visible. rewrite lookup_empty. cbn. intros [[<- <-]|[_ [=]]]%lookup_insert_Some. done.
Qed.

Lemma sample_store_ready : mem_ready (sample_store, ∅).
Proof.
  split; cbn [fst snd].
  - intros k Hk. destruct (MemTrans.visible _ _ k) as [row|] eqn:E; [|done].
    apply sample_visible in E as [-> _]. cbn in Hk. lia.
  - intros k row (_ & _ & ->)%sample_visible. done.
  - by intros k row (-> & -> & _)%sample_visible.
Qed.

Lemma sample_inode_seen : mem_sees Inode (sample_store, ∅) (PrimaryKey.new 20) sample_inode.
Proof.
  eexists. split; [cbn; unfold MemTrans.visible; rewrite lookup_empty; apply lookup_insert_eq|]. by vm_compute.
Qed.

#[local] Instance sample_spec : TransSpec MemStore MemTx := plain (sample_store, ∅) (PrimaryKey.new 20).


(** ** Out of order *)

(** A page that is written behind a hole is lost when the hole is filled: the vector of pages
    grows by the new page, and the pages behind it move up.  The third page held a byte, and
    holds a zero after the second page was written. *)
Theorem hole_fill_moves_pages :
  answers_of [WriteAt 0 [x41]; WriteAt (2 * page) [x43]; CommitFile; ReadAt (2 * page) 1;
              WriteAt page [x42]; CommitFile; ReadAt (2 * page) 1]
  = Ok [inl 1; inl 1; inr []; inr [x43]; inl 1; inr []; inr [x00]].
Proof. by vm_compute. Qed.

(** A write is not seen by the reads of the same handle before it is committed: pages are written
    in the cache line of the key modulo the bundles, and read from that modulo the pages. *)
Theorem uncommitted_read_is_stale :
  answers_of [WriteAt 0 [x41]; ReadAt 0 1; CommitFile; ReadAt 0 1]
  = Ok [inl 1; inr [x00]; inr []; inr [x41]].
Proof. by vm_compute. Qed.

(** Reading behind the bytes of a page that is not the last one panics: what is left of
    the page is less than nothing. *)
Theorem short_page_panics :
  answers_of [WriteAt 0 [x41]; WriteAt page [x43]; CommitFile; ReadAt 5 1] = Err Panicked.
Proof. by vm_compute. Qed.

(** Truncation sets the size only; the bytes are there again when the file grows. *)
Theorem truncation_keeps_bytes :
  fst ((_ ← RegularFile.write 0 [x41; x42; x43]; _ ← RegularFile.fallocate 0; _ ← RegularFile.commit;
        a ← RegularFile.read 0 3; _ ← RegularFile.fallocate 3; _ ← RegularFile.commit;
        b ← RegularFile.read 0 3; mret (a, b)) sample_file)
  = Ok ([], [x41; x42; x43]).
Proof. by vm_compute. Qed.
