(* ===== verification/FileSpec.v ===== *)
(** * What a handle is open on

    files/src/dir.rs, symlink.rs, fixed.rs and api.rs: directories, links and entries that are
    made up, and the trait [FileApi] over them and the regular files; files/src/attr.rs and
    handle.rs: the attributes, and the handles. *)

From S2P Require Import Prelude LogApi Crypto Codec Secure Meta Time Event Index Signature Tree Compact Plugins LogFile MemDb RedoLog Chain ChainSpec Pipe Dio Trans FileModel RegFile.

(** ** The flags of [open] and the origins of [lseek] *)

Definition SEEK_SET : Z := 0.
Definition SEEK_CUR : Z := 1.
Definition SEEK_END : Z := 2.
Definition O_RDONLY : Z := 0.
Definition O_WRONLY : Z := 1.
Definition O_RDWR : Z := 2.
Definition O_TRUNC : Z := 512.

(** ** Directories *)

Inductive DirectoryState (T : Type) : Type :=
  | DirImmutable (inode : Dao Inode)
  | DirMutable (trans : T) (inode : DaoMut Inode).
Arguments DirImmutable {T} inode.
Arguments DirMutable {T} trans inode.

Record Directory (T : Type) : Type := {
  dr_state : DirectoryState T;
  dr_key : PrimaryKey;
  dr_created : Z;
  dr_updated : Z;
}.
Arguments dr_state {T} d.
Arguments dr_key {T} d.
Arguments dr_created {T} d.
Arguments dr_updated {T} d.

Module Directory.
Section ops.
Context {B T : Type} `{!Trans B T} `{!DataSerializer Inode, !DataSerializer string, !KeyText}.
Implicit Types d : Directory T.

Definition new (inode : Dao Inode) (created updated : Z) : Directory T :=
  {| dr_state := DirImmutable inode; dr_key := dao_key inode; dr_created := created;
     dr_updated := updated |}.

Definition new_mut (trans : T) (inode : DaoMut Inode) (created updated : Z) : Directory T :=
  {| dr_state := DirMutable trans inode; dr_key := DaoMut.key inode; dr_created := created;
     dr_updated := updated |}.

Definition inode_of d : Inode :=
  match dr_state d with
  | DirImmutable i => row_data (snd i)
  | DirMutable _ i => row_data (dao_row i)
  end.

Definition with_state d (s : DirectoryState T) : Directory T :=
  {| dr_state := s; dr_key := dr_key d; dr_created := dr_created d; dr_updated := dr_updated d |}.

(** The attributes are changed under the guard of the inode, which commits when it is dropped. *)
Definition under_guard {A} (op : DaoMap → st (B * T) RowErrorKind (DaoMap * result RowErrorKind A))
    : st (B * Directory T) FileSystemErrorKind A :=
  st_mk (λ '(b, d),
    match dr_state d with
    | DirImmutable _ => (Err NoAccess, (b, d))
    | DirMutable t i =>
        let xattr := in_xattr (row_data (dao_row i)) in
        let '(b, t) := tr_as_mut i (b, t) in
        let '(r, (b, t)) := op xattr (b, t) in
        let i := DaoMut.with_data i (Inode.with_xattr (match r with Ok (m, _) => m | Err _ => xattr end)
                                       (row_data (dao_row i))) in
        let '(saved, (b, t)) := tr_save false true i (b, t) in
        (match saved with
         | Ok _ => map_err FileSystemErrorKind.from_serialization (r ≫= snd)
         | Err _ => Err Panicked
         end, (b, with_state d (DirMutable t i)))
    end).

Definition set_xattr (name value : string) : st (B * Directory T) FileSystemErrorKind unit :=
  st_mk (λ '(b, d),
    (_ ← under_guard (DaoMap.insert_ret (dr_key d) name value); mret ()) (b, d)).

Definition remove_xattr (name : string) : st (B * Directory T) FileSystemErrorKind bool :=
  under_guard (λ m, r ← DaoMap.delete name m; mret (m, Ok r)).

Definition get_xattr (name : string) : st (B * Directory T) FileSystemErrorKind (option string) :=
  st_mk (λ '(b, d),
    match dr_state d with
    | DirImmutable i =>
        let '(r, b) := DaoMap.get_ro (V := string) name (in_xattr (row_data (snd i))) b in
        (map_err FileSystemErrorKind.from_load (x ← r; Ok ((λ x, row_data (snd x)) <$> (x : option (Dao string)))), (b, d))
    | DirMutable t i =>
        let '(r, (b, t)) := DaoMap.get (V := string) name (in_xattr (row_data (dao_row i))) (b, t) in
        (map_err FileSystemErrorKind.from_load (x ← r; Ok ((λ x, row_data (dao_row x)) <$> (x : option (DaoMut string)))),
         (b, with_state d (DirMutable t i)))
    end).

Definition list_xattr : st (B * Directory T) FileSystemErrorKind (gmap string string) :=
  st_mk (λ '(b, d),
    match dr_state d with
    | DirImmutable i =>
        let '(r, b) := DaoMap.iter_ext_ro (V := string) (dao_key i) false false
                         (in_xattr (row_data (snd i))) b in
        (map_err FileSystemErrorKind.from_load
           (l ← r; Ok (foldl (λ m (kv : string * Dao string), <[kv.1 := row_data (snd kv.2)]> m) ∅ l)), (b, d))
    | DirMutable t i =>
        let '(r, (b, t)) := DaoMap.iter_ext (V := string) (DaoMut.key i) false false
                              (in_xattr (row_data (dao_row i))) (b, t) in
        (map_err FileSystemErrorKind.from_load
           (l ← r; Ok (foldl (λ m (kv : string * DaoMut string), <[kv.1 := row_data (dao_row kv.2)]> m) ∅ l)),
         (b, with_state d (DirMutable t i)))
    end).
End ops.
End Directory.

(** ** Links, and entries that are made up *)

Record SymLink : Type := {
  sl_ino : Z; sl_created : Z; sl_updated : Z; sl_uid : Z; sl_gid : Z; sl_mode : Z;
  sl_name : string; sl_link : option string;
}.

Module SymLink.
(** [new] and [new_mut] differ in the kind of the record only. *)
Definition new (key : PrimaryKey) (i : Inode) (created updated : Z) : SymLink :=
  {| sl_ino := PrimaryKey.as_u64 key; sl_created := created; sl_updated := updated;
     sl_uid := de_uid (in_dentry i); sl_gid := de_gid (in_dentry i);
     sl_mode := de_mode (in_dentry i); sl_name := de_name (in_dentry i); sl_link := in_link i |}.

Definition size (s : SymLink) : Z :=
  match sl_link s with Some a => Z.of_nat (String.length a) | None => 0 end.
End SymLink.

Record FixedFile : Type := {
  fx_ino : Z; fx_kind : FileKind; fx_uid : Z; fx_gid : Z; fx_size : Z; fx_mode : Z;
  fx_name : string; fx_created : Z; fx_updated : Z;
}.

Module FixedFile.
Definition new (ino : Z) (name : string) (kind : FileKind) : FixedFile :=
  {| fx_ino := ino; fx_kind := kind; fx_uid := 0; fx_gid := 0; fx_size := 0; fx_mode := 0;
     fx_name := name; fx_created := 0; fx_updated := 0 |}.

Definition owned (uid gid : Z) (f : FixedFile) : FixedFile :=
  {| fx_ino := fx_ino f; fx_kind := fx_kind f; fx_uid := uid; fx_gid := gid; fx_size := fx_size f;
     fx_mode := fx_mode f; fx_name := fx_name f; fx_created := fx_created f;
     fx_updated := fx_updated f |}.

Definition dated (created updated : Z) (f : FixedFile) : FixedFile :=
  {| fx_ino := fx_ino f; fx_kind := fx_kind f; fx_uid := fx_uid f; fx_gid := fx_gid f;
     fx_size := fx_size f; fx_mode := fx_mode f; fx_name := fx_name f; fx_created := created;
     fx_updated := updated |}.
End FixedFile.

(** ** The trait [FileApi] *)

Inductive FileSpec (T : Type) : Type :=
  | SpecDirectory (d : Directory T)
  | SpecRegularFile (r : RegularFile T)
  | SpecSymLink (s : SymLink)
  | SpecFixedFile (f : FixedFile).
Arguments SpecDirectory {T} d.
Arguments SpecRegularFile {T} r.
Arguments SpecSymLink {T} s.
Arguments SpecFixedFile {T} f.

Module FileSpec.
Section attributes.
Context {T : Type}.
Implicit Types s : FileSpec T.

Definition kind s : FileKind :=
  match s with
  | SpecDirectory _ => FileModel.Directory
  | SpecRegularFile _ => FileModel.RegularFile
  | SpecSymLink _ => FileModel.SymLink
  | SpecFixedFile _ => FileModel.FixedFile
  end.

Definition ino s : Z :=
  match s with
  | SpecDirectory d => PrimaryKey.as_u64 (dr_key d)
  | SpecRegularFile r => rf_ino r
  | SpecSymLink l => sl_ino l
  | SpecFixedFile f => fx_ino f
  end.

Definition name s : string :=
  match s with
  | SpecDirectory d => de_name (in_dentry (Directory.inode_of d))
  | SpecRegularFile r => rf_name r
  | SpecSymLink l => sl_name l
  | SpecFixedFile f => fx_name f
  end.

Definition uid s : Z :=
  match s with
  | SpecDirectory d => de_uid (in_dentry (Directory.inode_of d))
  | SpecRegularFile r => rf_uid r
  | SpecSymLink l => sl_uid l
  | SpecFixedFile f => fx_uid f
  end.

Definition gid s : Z :=
  match s with
  | SpecDirectory d => de_gid (in_dentry (Directory.inode_of d))
  | SpecRegularFile r => rf_gid r
  | SpecSymLink l => sl_gid l
  | SpecFixedFile f => fx_gid f
  end.

Definition mode s : Z :=
  match s with
  | SpecDirectory d => de_mode (in_dentry (Directory.inode_of d))
  | SpecRegularFile r => rf_mode r
  | SpecSymLink l => sl_mode l
  | SpecFixedFile f => fx_mode f
  end.

Definition size s : Z :=
  match s with
  | SpecDirectory _ => 0
  | SpecRegularFile r => rf_size r
  | SpecSymLink l => SymLink.size l
  | SpecFixedFile f => fx_size f
  end.

(** A made-up entry has dates, but not for the trait. *)
Definition created s : Z :=
  match s with
  | SpecDirectory d => dr_created d
  | SpecRegularFile r => rf_created r
  | SpecSymLink l => sl_created l
  | SpecFixedFile _ => 0
  end.

Definition updated s : Z :=
  match s with
  | SpecDirectory d => dr_updated d
  | SpecRegularFile r => rf_updated r
  | SpecSymLink l => sl_updated l
  | SpecFixedFile _ => 0
  end.

Definition accessed s : Z := updated s.

Definition link s : option string :=
  match s with SpecSymLink l => sl_link l | _ => None end.
End attributes.

Section ops.
Context {B T : Type} `{!Trans B T}.
Context `{!DataSerializer Inode, !DataSerializer PageBundle, !DataSerializer Page}.
Context `{!DataSerializer string, !KeyText}.
Implicit Types s : FileSpec T.

(** An operation that only some kinds have. *)
Definition on_regular {A} (other : result FileSystemErrorKind A)
    (op : st (B * RegularFile T) FileSystemErrorKind A) : st (B * FileSpec T) FileSystemErrorKind A :=
  st_mk (λ '(b, s),
    match s with
    | SpecRegularFile r => let '(x, (b, r)) := op (b, r) in (x, (b, SpecRegularFile r))
    | _ => (other, (b, s))
    end).

Definition on_xattr {A} (other : result FileSystemErrorKind A)
    (dir : st (B * Directory T) FileSystemErrorKind A)
    (op : st (B * RegularFile T) FileSystemErrorKind A) : st (B * FileSpec T) FileSystemErrorKind A :=
  st_mk (λ '(b, s),
    match s with
    | SpecDirectory d => let '(x, (b, d)) := dir (b, d) in (x, (b, SpecDirectory d))
    | SpecRegularFile r => let '(x, (b, r)) := op (b, r) in (x, (b, SpecRegularFile r))
    | _ => (other, (b, s))
    end).

Definition fallocate (size : Z) : st (B * FileSpec T) FileSystemErrorKind unit :=
  on_regular (Ok ()) (RegularFile.fallocate size).
Definition read (offset size : Z) : st (B * FileSpec T) FileSystemErrorKind bytes :=
  on_regular (Ok []) (RegularFile.read offset size).
Definition write (offset : Z) (data : bytes) : st (B * FileSpec T) FileSystemErrorKind Z :=
  on_regular (Ok 0) (RegularFile.write offset data).
Definition commit : st (B * FileSpec T) FileSystemErrorKind unit :=
  on_regular (Ok ()) RegularFile.commit.
Definition set_xattr (name value : string) : st (B * FileSpec T) FileSystemErrorKind unit :=
  on_xattr (Err NotImplemented) (Directory.set_xattr name value) (RegularFile.set_xattr name value).
Definition remove_xattr (name : string) : st (B * FileSpec T) FileSystemErrorKind bool :=
  on_xattr (Ok false) (Directory.remove_xattr name) (RegularFile.remove_xattr name).
Definition get_xattr (name : string) : st (B * FileSpec T) FileSystemErrorKind (option string) :=
  on_xattr (Ok None) (Directory.get_xattr name) (RegularFile.get_xattr name).
Definition list_xattr : st (B * FileSpec T) FileSystemErrorKind (gmap string string) :=
  on_xattr (Ok ∅) Directory.list_xattr RegularFile.list_xattr.
End ops.
End FileSpec.

(** [Inode::as_file_spec] and [as_file_spec_mut]. *)
Section specs.
Context {T : Type}.

Definition fixed_spec (ino created updated : Z) (i : Inode) : FileSpec T :=
  SpecFixedFile (FixedFile.dated created updated
                   (FixedFile.new ino (de_name (in_dentry i)) FileModel.RegularFile)).

Definition as_file_spec (ino created updated : Z) (dao : Dao Inode) : FileSpec T :=
  let i := row_data (snd dao) in
  match in_kind i with
  | FileModel.Directory => SpecDirectory (Directory.new dao created updated)
  | FileModel.RegularFile => SpecRegularFile (RegularFile.new dao created updated)
  | FileModel.SymLink => SpecSymLink (SymLink.new (dao_key dao) i created updated)
  | FileModel.FixedFile => fixed_spec ino created updated i
  end.

Definition as_file_spec_mut (ino created updated : Z) (trans : T) (dao : DaoMut Inode) : FileSpec T :=
  let i := row_data (dao_row dao) in
  match in_kind i with
  | FileModel.Directory => SpecDirectory (Directory.new_mut trans dao created updated)
  | FileModel.RegularFile => SpecRegularFile (RegularFile.new_mut trans dao created updated)
  | FileModel.SymLink => SpecSymLink (SymLink.new (DaoMut.key dao) i created updated)
  | FileModel.FixedFile => fixed_spec ino created updated i
  end.
End specs.

(** ** Attributes and handles *)

Record FileAttr : Type := {
  at_ino : Z; at_size : Z; at_blksize : Z; at_accessed : Z; at_updated : Z; at_created : Z;
  at_kind : FileKind; at_mode : Z; at_uid : Z; at_gid : Z;
}.

Module FileAttr.
Definition new {T} (s : FileSpec T) (uid gid : Z) : FileAttr :=
  {| at_ino := FileSpec.ino s; at_size := FileSpec.size s; at_blksize := PAGE_SIZE;
     at_accessed := FileSpec.accessed s; at_updated := FileSpec.updated s;
     at_created := FileSpec.created s; at_kind := FileSpec.kind s; at_mode := FileSpec.mode s;
     at_uid := uid; at_gid := gid |}.
End FileAttr.

(** What [setattr] looks at. *)
Record SetAttr : Type := { sa_mode : option Z; sa_uid : option Z; sa_gid : option Z }.

Record DirectoryEntry : Type := {
  ent_inode : Z; ent_kind : FileKind; ent_attr : FileAttr; ent_name : string; ent_uid : Z; ent_gid : Z;
}.

Record OpenHandle (T : Type) : Type := {
  oh_dirty : bool;
  oh_inode : Z;
  oh_fh : Z;
  oh_spec : FileSpec T;
  oh_kind : FileKind;
  oh_attr : FileAttr;
  oh_read_only : bool;
  oh_children : list DirectoryEntry;
}.
Arguments oh_dirty {T} o.
Arguments oh_inode {T} o.
Arguments oh_fh {T} o.
Arguments oh_spec {T} o.
Arguments oh_kind {T} o.
Arguments oh_attr {T} o.
Arguments oh_read_only {T} o.
Arguments oh_children {T} o.

Module OpenHandle.
Section ops.
Context {T : Type}.
Implicit Types h : OpenHandle T.

Definition with_dirty h (v : bool) : OpenHandle T :=
  {| oh_dirty := v; oh_inode := oh_inode h; oh_fh := oh_fh h; oh_spec := oh_spec h;
     oh_kind := oh_kind h; oh_attr := oh_attr h; oh_read_only := oh_read_only h;
     oh_children := oh_children h |}.

Definition with_spec h (s : FileSpec T) : OpenHandle T :=
  {| oh_dirty := oh_dirty h; oh_inode := oh_inode h; oh_fh := oh_fh h; oh_spec := s;
     oh_kind := oh_kind h; oh_attr := oh_attr h; oh_read_only := oh_read_only h;
     oh_children := oh_children h |}.

Definition add_child (s : FileSpec T) (uid gid : Z) h : OpenHandle T :=
  {| oh_dirty := oh_dirty h; oh_inode := oh_inode h; oh_fh := oh_fh h; oh_spec := oh_spec h;
     oh_kind := oh_kind h; oh_attr := oh_attr h; oh_read_only := oh_read_only h;
     oh_children := oh_children h ++
       [{| ent_inode := FileSpec.ino s; ent_kind := FileSpec.kind s; ent_attr := FileAttr.new s uid gid;
           ent_name := FileSpec.name s; ent_uid := uid; ent_gid := gid |}] |}.
End ops.
End OpenHandle.
