(* ===== verification/Accessor.v ===== *)
(** * The file system

    files/src/accessor.rs: a [FileAccessor] gives the files of a chain to a session, and keeps
    the handles that are open; files/src/repo.rs reads and writes whole files by their paths.
    Every operation first ticks, which may commit the handles that were written to.  A
    transaction that is dropped without a commit is cancelled. *)

From Stdlib Require Import Ascii.
From S2P Require Import Prelude LogApi Crypto Codec Secure Meta Time Event Index Signature Tree Session Compact Plugins LogFile MemDb RedoLog Chain ChainSpec Pipe Dio Trans FileModel RegFile FileSpec.

(** What an accessor is made with. *)
Record FileAccessor : Type := {
  fa_no_auth : bool;
  fa_is_www : bool;
  fa_scope_meta : TransactionScope;
  fa_scope_io : TransactionScope;
  fa_session : AteSessionType;
  fa_impersonate_uid : bool;
  fa_force_sudo : bool;
}.

(** What changes: the chain, the handles, the clock, and when the handles were last committed. *)
Record FilesState (B T : Type) : Type := {
  fs_store : B;
  fs_open_handles : gmap Z (OpenHandle T);
  fs_elapsed : Z;
  fs_last_elapsed : Z;
}.
Arguments fs_store {B T} f.
Arguments fs_open_handles {B T} f.
Arguments fs_elapsed {B T} f.
Arguments fs_last_elapsed {B T} f.

Record RequestContext : Type := { rq_uid : Z; rq_gid : Z }.

(** [path.split("/")]. *)
Fixpoint split_path (s : string) : list string :=
  match s with
  | EmptyString => [EmptyString]
  | String c s =>
      match split_path s with
      | [] => []
      | comp :: comps => if decide (c = "/"%char) then EmptyString :: comp :: comps
                         else String c comp :: comps
      end
  end.

Definition components (path : string) : list string :=
  List.filter (λ c, negb (bool_decide (c = EmptyString))) (split_path path).

Section keys.
Variable acc : FileAccessor.

Definition session_context : RequestContext :=
  {| rq_uid := default 0 (se_uid (fa_session acc)); rq_gid := default 0 (se_gid (fa_session acc)) |}.

(** ** The keys of a session *)

Definition in_group (gid : Z) (r : AteGroupRole) : bool := bool_decide (AteGroupRole.gid r = Some gid).

Definition get_group_read_key (gid : Z) : option EncryptKey :=
  let purpose := if fa_is_www acc then WebServer else Observer in
  head (List.filter (in_group gid) (option_list (se_role purpose (fa_session acc)))
          ≫= AteGroupRole.read_keys).

Definition get_group_write_key (gid : Z) : option PrivateSignKey :=
  let purpose := if fa_is_www acc then WebServer else Contributor in
  head (List.filter (in_group gid) (option_list (se_role purpose (fa_session acc)))
          ≫= AteGroupRole.write_keys).

(** The role of the user a session was opened by. *)
Definition user_role : option AteGroupRole :=
  match fa_session acc with
  | SessionUser a => Some (su_user a)
  | SessionSudo a => Some (su_user (sd_inner a))
  | SessionGroup a =>
      match sg_inner a with
      | InnerUser a => Some (su_user a)
      | InnerSudo a => Some (su_user (sd_inner a))
      | InnerNothing => None
      end
  | SessionNothing => None
  end.

Definition get_user_read_key (uid : Z) : option EncryptKey :=
  if decide (se_uid (fa_session acc) = Some uid) then
    if fa_force_sudo acc then head (se_read_keys SudoKeys (fa_session acc))
    else user_role ≫= λ r, head (AteGroupRole.read_keys r)
  else None.

Definition get_user_write_key (uid : Z) : option PrivateSignKey :=
  if decide (se_uid (fa_session acc) = Some uid) then
    if fa_force_sudo acc then head (se_write_keys SudoKeys (fa_session acc))
    else user_role ≫= λ r, head (AteGroupRole.write_keys r)
  else None.

(** ** Users and groups *)

Definition translate_uid (uid : Z) (req : RequestContext) : Z :=
  if bool_decide (uid = 0) || bool_decide (uid = rq_uid req)
  then default uid (se_uid (fa_session acc)) else uid.

Definition translate_gid (gid : Z) (req : RequestContext) : Z :=
  if bool_decide (gid = 0) || bool_decide (gid = rq_gid req)
  then default gid (se_gid (fa_session acc)) else gid.

Definition reverse_uid (uid : Z) (req : RequestContext) : Z :=
  if decide (se_uid (fa_session acc) = Some uid) then rq_uid req else uid.

Definition reverse_gid (gid : Z) (req : RequestContext) : Z :=
  if decide (se_gid (fa_session acc) = Some gid) then rq_gid req else gid.

Definition spec_as_attr_reverse {T} (s : FileSpec T) (req : RequestContext) : FileAttr :=
  FileAttr.new s (reverse_uid (FileSpec.uid s) req) (reverse_gid (FileSpec.gid s) req).

(** ** Authorisations *)

Section auth.
Context `{CryptoPrims}.

Definition bit (mode mask : Z) : bool := negb (bool_decide (Z.land mode mask = 0)).

(** The key the data is under, as far as the authorisation has one; [rnd] is drawn for one that
    is made. *)
Definition inner_key (rnd : bytes) (uid gid : Z) (read : ReadOption)
    : result FileSystemErrorKind (option EncryptKey) :=
  match read with
  | ReadInherit => Ok None
  | ReadEveryone (Some a) => Ok (Some a)
  | ReadEveryone None =>
      let keysize := match get_group_read_key gid with
                     | Some a => EncryptKey.size a
                     | None => match get_user_read_key uid with
                               | Some a => EncryptKey.size a
                               | None => Bit192
                               end
                     end in
      Ok (Some (EncryptKey.generate rnd keysize))
  | ReadSpecific hash derived =>
      match List.find (λ k, bool_decide (EncryptKey.hash k = hash))
              (se_read_keys AllKeys (fa_session acc)) with
      | Some key => a ← map_err FsIO (DerivedEncryptKey.transmute derived key); Ok (Some a)
      | None => Err NoAccess
      end
  end.

Definition new_read_key (mode uid gid : Z) : option EncryptKey :=
  if bit mode 32
  then match get_group_read_key gid with Some k => Some k | None => get_user_read_key uid end
  else get_user_read_key uid.

Definition new_write_key (mode uid gid : Z) : option PrivateSignKey :=
  if bit mode 16
  then match get_group_write_key gid with Some k => Some k | None => get_user_write_key uid end
  else get_user_write_key uid.

Definition update_read (rnd rnd' rnd_iv : bytes) (mode uid gid : Z) (read : ReadOption)
    : result FileSystemErrorKind ReadOption :=
  inner ← inner_key rnd uid gid read;
  if bit mode 4 then Ok (ReadEveryone inner)
  else match new_read_key mode uid gid with
       | Some new_key =>
           let inner := default (EncryptKey.generate rnd' (EncryptKey.size new_key)) inner in
           Ok (ReadSpecific (EncryptKey.hash new_key) (DerivedEncryptKey.reverse rnd_iv new_key inner))
       | None => if fa_no_auth acc then Ok ReadInherit else Err NoAccess
       end.

Definition update_write (mode uid gid : Z) : result FileSystemErrorKind WriteOption :=
  if bit mode 2 then Ok WriteEveryone
  else match new_write_key mode uid gid with
       | Some key => Ok (WriteSpecific (PrivateSignKey.hash key))
       | None => if fa_no_auth acc then Ok WriteInherit else Err NoAccess
       end.
End auth.
End keys.

(** ** Operations *)

Module Accessor.
Section ops.
Context `{CryptoPrims} {B T : Type} `{!Trans B T}.
Context `{!DataSerializer Inode, !DataSerializer PageBundle, !DataSerializer Page}.
Context `{!DataSerializer string, !KeyText}.
Variable acc : FileAccessor.
(** The bytes that come of a draw, and the order handles are visited in. *)
Variable rnd_bytes : Z → bytes.
Variable order : gset Z → list Z.

Abbreviation op A := (st (FilesState B T) FileSystemErrorKind A).
Abbreviation in_trans A := (st (B * T) FileSystemErrorKind A).

Definition with_store (s : FilesState B T) (b : B) : FilesState B T :=
  {| fs_store := b; fs_open_handles := fs_open_handles s; fs_elapsed := fs_elapsed s;
     fs_last_elapsed := fs_last_elapsed s |}.

Definition with_handles (s : FilesState B T) (hs : gmap Z (OpenHandle T)) : FilesState B T :=
  {| fs_store := fs_store s; fs_open_handles := hs; fs_elapsed := fs_elapsed s;
     fs_last_elapsed := fs_last_elapsed s |}.

(** What is done on the chain, and in a transaction of its own, which is given back. *)
Definition on_store {E A} (wrap : E → FileSystemErrorKind) (f : st B E A) : op A :=
  st_mk (λ s, let '(r, b) := f (fs_store s) in (map_err wrap r, with_store s b)).

Definition begin_trans {A} (scope : TransactionScope) (f : in_trans A) : op (A * T) :=
  st_mk (λ s,
    let '(r, (b, t)) := f (fs_store s, tr_begin scope) in (a ← r; Ok (a, t), with_store s b)).

(** More of a transaction, and its commit. *)
Definition go_on {A} (t : T) (f : in_trans A) : op (A * T) :=
  st_mk (λ s,
    let '(r, (b, t)) := f (fs_store s, t) in (a ← r; Ok (a, t), with_store s b)).

Definition commit_trans (t : T) : op unit :=
  _ ← go_on t (st_map_err FileSystemErrorKind.from_commit tr_commit); mret ().

Definition draw : op Z := st_mk (λ s, let '(z, b) := tr_random (fs_store s) in (Ok z, with_store s b)).
Definition draw_in {A} (f : Z → in_trans A) : in_trans A :=
  st_mk (λ '(b, t), let '(z, b) := tr_random b in f z (b, t)).

Definition load_in (inode : Z) : in_trans (DaoMut Inode) :=
  st_map_err FileSystemErrorKind.from_load (tr_load Inode (PrimaryKey.new inode)).

Definition inode_in (d : DaoMut Inode) : Inode := row_data (dao_row d).

(** *** Committing the handles *)

(** An operation on what a handle is open on. *)
Definition on_spec {A} (fh : Z) (h : OpenHandle T) (f : st (B * FileSpec T) FileSystemErrorKind A) : op A :=
  st_mk (λ s,
    let '(r, (b, spec)) := f (fs_store s, oh_spec h) in
    (r, with_handles (with_store s b)
          (match fs_open_handles s !! fh with
           | Some h => <[fh := OpenHandle.with_spec h spec]> (fs_open_handles s)
           | None => fs_open_handles s
           end))).

Fixpoint commit_handles (fhs : list Z) : op unit :=
  match fhs with
  | [] => mret ()
  | fh :: fhs =>
      _ ← st_mk (λ s, match fs_open_handles s !! fh with
                      | Some h => on_spec fh h FileSpec.commit s
                      | None => (Ok (), s)
                      end);
      commit_handles fhs
  end.

Definition commit_internal : op unit :=
  st_mk (λ s,
    let dirty := order (dom (filter (λ '(_, h), oh_dirty h = true) (fs_open_handles s))) in
    commit_handles dirty (with_handles s ((λ h, OpenHandle.with_dirty h false) <$> fs_open_handles s))).

(** The lock is dropped where it is taken. *)
Definition commit : op unit := commit_internal.

Definition tick : op unit :=
  st_mk (λ s,
    if decide (fs_last_elapsed s < fs_elapsed s)
    then commit_internal {| fs_store := fs_store s; fs_open_handles := fs_open_handles s;
                            fs_elapsed := fs_elapsed s; fs_last_elapsed := fs_elapsed s |}
    else (Ok (), s)).

Definition chain_sync : op unit := on_store FileSystemErrorKind.from_commit tr_sync.
Definition chain_flush : op unit := on_store FsIO tr_flush.

Definition sync_all : op unit := _ ← tick; _ ← commit; chain_sync.

(** *** Records *)

Definition load (inode : Z) : op (Dao Inode) :=
  on_store FileSystemErrorKind.from_load (tr_load_ro Inode (PrimaryKey.new inode)).

Definition load_mut (inode : Z) : op (DaoMut Inode * T) := begin_trans (fa_scope_meta acc) (load_in inode).
Definition load_mut_io (inode : Z) : op (DaoMut Inode * T) := begin_trans (fa_scope_io acc) (load_in inode).

(** What is done while a guard of a record is held and its data was borrowed to be changed: the
    record is saved when the guard is dropped. *)
Definition under_mut_guard {A} (dao : DaoMut Inode) (f : in_trans A) : in_trans A :=
  st_mk (λ s,
    let '(r, s) := f (tr_as_mut dao s) in
    let '(saved, s) := tr_save false true dao s in
    (match saved with Ok _ => r | Err _ => Err Panicked end, s)).

Definition modify (f : Inode → Inode) (dao : DaoMut Inode) : in_trans (DaoMut Inode) :=
  st_map_err (λ _, Panicked) (tr_modify f dao).

Definition modify_dentry (f : Dentry → Dentry) (dao : DaoMut Inode) : in_trans (DaoMut Inode) :=
  modify (Inode.with_dentry f) dao.

(** [updwasmer_auth] on the guard of the authorisation.  The guard is dropped, and saves what was
    changed, also when the keys to write with are missing. *)
Definition updwasmer_auth (mode uid gid : Z) (dao : DaoMut Inode) : in_trans (DaoMut Inode) :=
  draw_in (λ z1, draw_in (λ z2, draw_in (λ z3,
    let auth := rwh_auth (dao_header dao) in
    let save a := st_map_err (λ _, Panicked) (tr_auth_set a dao) in
    match update_read acc (rnd_bytes z1) (rnd_bytes z2) (rnd_bytes z3) mode uid gid (ma_read auth) with
    | Err e => st_fail e
    | Ok read =>
        match update_write acc mode uid gid with
        | Ok write => save {| ma_read := read; ma_write := write |}
        | Err e => _ ← save {| ma_read := read; ma_write := ma_write auth |}; st_fail e
        end
    end))).

(** [Inode::new] draws the numbers of the vectors it has. *)
Definition new_inode {A} (name : string) (mode uid gid : Z) (kind : FileKind) (k : Inode → in_trans A)
    : in_trans A :=
  draw_in (λ z1, draw_in (λ z2, k (Inode.new z1 z2 name mode uid gid kind))).

Definition push_child (parent : DaoMut Inode) (child : Inode) : in_trans (DaoMut Inode) :=
  under_mut_guard parent
    (st_map_err FileSystemErrorKind.from_serialization
       (DaoVec.push (DaoMut.key parent) (in_children (inode_in parent)) child)).

Definition named (name : string) (i : Inode) : bool := bool_decide (de_name (in_dentry i) = name).

Definition children_in (dao : DaoMut Inode) : in_trans (list (DaoMut Inode)) :=
  st_map_err FileSystemErrorKind.from_load
    (DaoVec.iter_mut_ext (DaoMut.key dao) (in_children (inode_in dao)) false false).

Definition children_of (missing errors : bool) (dao : Dao Inode) : op (list (Dao Inode)) :=
  on_store FileSystemErrorKind.from_load
    (DaoVec.iter_ext (T := T) (dao_key dao) (in_children (row_data (snd dao))) missing errors).

Definition spec_of (dao : Dao Inode) : FileSpec T :=
  as_file_spec (PrimaryKey.as_u64 (dao_key dao)) (row_created (snd dao)) (row_updated (snd dao)) dao.

Definition spec_of_mut (t : T) (dao : DaoMut Inode) : FileSpec T :=
  as_file_spec_mut (PrimaryKey.as_u64 (DaoMut.key dao)) (row_created (dao_row dao))
    (row_updated (dao_row dao)) t dao.

(** [DaoMut] to [Dao]. *)
Definition into (dao : DaoMut Inode) : Dao Inode := (dao_header dao, dao_row dao).

(** *** Access *)

Definition may_access (req : RequestContext) (d : Dentry) (mask : Z) : bool :=
  let uid := translate_uid acc (rq_uid req) req in
  let gid := translate_gid acc (rq_gid req) req in
  bit (de_mode d) mask
  || bool_decide (uid = de_uid d) && bit (de_mode d) (wrap_u32 (Z.shiftl mask 6))
  || bool_decide (gid = de_gid d) && bool_decide (se_gid (fa_session acc) = Some gid)
     && bit (de_mode d) (wrap_u32 (Z.shiftl mask 3))
  || bool_decide (de_uid d = 0)
  || bool_decide (rq_uid req = 0).

Definition access_internal (req : RequestContext) (inode mask : Z) : op unit :=
  _ ← tick;
  dao ← load inode;
  if may_access req (in_dentry (row_data (snd (dao : Dao Inode)))) mask then mret () else st_fail NoAccess.

Definition access := access_internal.

(** *** Opening *)

(** What a directory shows first. *)
Definition dot_entries (dao : Dao Inode) : list (FileSpec T) :=
  let d := in_dentry (row_data (snd dao)) in
  let entry name :=
    SpecFixedFile (FixedFile.dated (row_created (snd dao)) (row_updated (snd dao))
      (FixedFile.owned (de_uid d) (de_gid d)
         (FixedFile.new (PrimaryKey.as_u64 (dao_key dao)) name FileModel.Directory))) in
  [entry "."; entry ".."].

(** The children as a handle that may write shows them; they are read within a transaction that
    is dropped. *)
Definition children_mut (inode : Z) : op (list (FileSpec T)) :=
  r ← begin_trans (fa_scope_io acc)
        (dao ← load_in inode;
         under_mut_guard dao
           (st_map_err FileSystemErrorKind.from_load
              (DaoVec.iter_mut_ext (DaoMut.key dao) (in_children (inode_in dao)) true true)));
  mret (map (spec_of_mut (snd r)) (fst r)).

Definition shown_children (writable : bool) (inode : Z) (dao : Dao Inode) : op (list (FileSpec T)) :=
  if decide (in_kind (row_data (snd dao)) = FileModel.Directory) then
    cs ← (if writable then children_mut inode
          else cs ← children_of true true dao; mret (map spec_of cs));
    mret (dot_entries dao ++ cs)
  else mret [].

Definition add_children (req : RequestContext) (cs : list (FileSpec T)) (h : OpenHandle T) : OpenHandle T :=
  foldl (λ h c,
    if fa_impersonate_uid acc
    then OpenHandle.add_child c (reverse_uid acc (FileSpec.uid c) req) (reverse_gid acc (FileSpec.gid c) req) h
    else OpenHandle.add_child c (FileSpec.uid c) (FileSpec.gid c) h) h cs.

Definition create_open_handle (inode : Z) (req : RequestContext) (flags : Z) : op (OpenHandle T) :=
  let writable := bit flags O_TRUNC || bit flags O_RDWR || bit flags O_WRONLY in
  _ ← (if writable then access_internal req inode 2 else mret ());
  _ ← (if bit flags O_RDWR || bit flags O_RDONLY then access_internal req inode 4 else mret ());
  data ← load inode;
  let dentry := in_dentry (row_data (snd (data : Dao Inode))) in
  let created := row_created (snd data) in
  let updated := row_updated (snd data) in
  children ← shown_children writable inode data;
  spec ← (if writable then
            d ← load_mut_io inode;
            mret (as_file_spec_mut (PrimaryKey.as_u64 (DaoMut.key (fst d))) created updated (snd d) (fst d))
          else mret (as_file_spec (PrimaryKey.as_u64 (dao_key data)) created updated data));
  spec ← (if bit flags O_TRUNC then
            st_mk (λ s, let '(r, (b, spec)) := FileSpec.fallocate 0 (fs_store s, spec) in
                        (_ ← r; Ok spec, with_store s b))
          else mret spec);
  fh ← draw;
  mret (add_children req children
    {| oh_dirty := bit flags O_TRUNC; oh_inode := inode; oh_fh := fh; oh_spec := spec;
       oh_kind := FileSpec.kind spec; oh_attr := FileAttr.new spec (de_uid dentry) (de_gid dentry);
       oh_read_only := bit flags O_RDONLY; oh_children := [] |}).

Definition insert_handle (h : OpenHandle T) : op (OpenHandle T) :=
  st_mk (λ s, (Ok h, with_handles s (<[oh_fh h := h]> (fs_open_handles s)))).

Definition open (req : RequestContext) (inode flags : Z) : op (OpenHandle T) :=
  _ ← tick;
  h ← create_open_handle inode req flags;
  if decide (oh_kind (h : OpenHandle T) = FileModel.Directory) then st_fail IsDirectory
  else insert_handle h.

Definition opendir (req : RequestContext) (inode flags : Z) : op (OpenHandle T) :=
  _ ← tick;
  h ← create_open_handle inode req flags;
  if decide (at_kind (oh_attr (h : OpenHandle T)) = FileModel.Directory) then insert_handle h
  else st_fail NotDirectory.

(** The handle is taken out, and committed. *)
Definition remove_handle (fh : Z) : op unit :=
  st_mk (λ s,
    match fs_open_handles s !! fh with
    | Some h => on_spec fh h FileSpec.commit (with_handles s (delete fh (fs_open_handles s)))
    | None => (Ok (), s)
    end).

Definition releasedir (fh : Z) : op unit := _ ← tick; remove_handle fh.

Definition release (fh : Z) (flush : bool) : op unit :=
  _ ← tick; _ ← remove_handle fh; if flush then chain_flush else mret ().

(** *** Attributes *)

Definition getattr (req : RequestContext) (inode : Z) (fh : option Z) : op FileAttr :=
  _ ← tick;
  st_mk (λ s,
    match fh ≫= λ fh, fs_open_handles s !! fh with
    | Some h => (Ok (oh_attr h), s)
    | None =>
        (dao ← load inode;
         let spec := as_file_spec inode (row_created (snd dao)) (row_updated (snd dao)) dao in
         mret (if fa_impersonate_uid acc then spec_as_attr_reverse acc spec req
               else FileAttr.new (T := T) spec (FileSpec.uid spec) (FileSpec.gid spec))) s
    end).

(** The three attributes in turn; the second component is whether one changed. *)
Definition set_uid (req : RequestContext) (v : option Z) (d : DaoMut Inode) : in_trans (DaoMut Inode * bool) :=
  match v with
  | Some uid =>
      let uid := translate_uid acc uid req in
      if decide (de_uid (in_dentry (inode_in d)) = uid) then mret (d, false)
      else d ← modify_dentry (Inode.set_uid uid) d; mret (d, true)
  | None => mret (d, false)
  end.

Definition set_gid (req : RequestContext) (v : option Z) (d : DaoMut Inode) : in_trans (DaoMut Inode * bool) :=
  match v with
  | Some gid =>
      let gid := translate_gid acc gid req in
      if decide (de_gid (in_dentry (inode_in d)) = gid) then mret (d, false)
      else d ← modify_dentry (Inode.set_gid gid) d; mret (d, true)
  | None => mret (d, false)
  end.

Definition set_mode (req : RequestContext) (v : option Z) (d : DaoMut Inode) : in_trans (DaoMut Inode * bool) :=
  match v with
  | Some mode =>
      if decide (de_mode (in_dentry (inode_in d)) = mode) then mret (d, false)
      else d ← modify_dentry (λ e, Inode.set_uid (translate_uid acc (rq_uid req) req) (Inode.set_mode mode e)) d;
           mret (d, true)
  | None => mret (d, false)
  end.

Definition change_attr (req : RequestContext) (inode : Z) (a : SetAttr) : in_trans (DaoMut Inode) :=
  d ← load_in inode;
  r1 ← set_uid req (sa_uid a) d;
  r2 ← set_gid req (sa_gid a) (fst r1);
  r3 ← set_mode req (sa_mode a) (fst r2);
  let d := fst r3 in
  if snd r1 || snd r2 || snd r3 then
    let e := in_dentry (inode_in d) in
    d ← updwasmer_auth (de_mode e) (de_uid e) (de_gid e) d;
    _ ← st_map_err FileSystemErrorKind.from_commit tr_commit;
    mret d
  else mret d.

Definition setattr (req : RequestContext) (inode : Z) (a : SetAttr) : op FileAttr :=
  _ ← tick;
  r ← begin_trans (fa_scope_meta acc) (change_attr req inode a);
  let d := into (fst r) in
  mret (spec_as_attr_reverse acc
          (as_file_spec (T := T) inode (row_created (snd d)) (row_updated (snd d)) d) req).

(** *** Paths *)

Definition entry_named (name : string) (h : OpenHandle T) : option DirectoryEntry :=
  List.find (λ e, bool_decide (ent_name e = name)) (oh_children h).

Definition lookup (req : RequestContext) (parent : Z) (name : string) : op (option FileAttr) :=
  _ ← tick;
  h ← create_open_handle parent req O_RDONLY;
  if decide (at_kind (oh_attr (h : OpenHandle T)) = FileModel.Directory)
  then mret (ent_attr <$> entry_named name h) else st_fail NotDirectory.

Definition root (req : RequestContext) : op (option FileAttr) :=
  st_try (getattr req 1 None) (λ r,
    match r with
    | Ok a => mret (Some a)
    | Err DoesNotExist | Err NoAccess | Err NoEntry => mret None
    | Err e => st_fail e
    end).

Fixpoint walk (req : RequestContext) (a : FileAttr) (comps : list string) : op (option FileAttr) :=
  match comps with
  | [] => mret (Some a)
  | comp :: comps =>
      r ← lookup req (at_ino a) comp;
      match r with Some a => walk req a comps | None => mret None end
  end.

(** The path of the root has no components. *)
Definition search (req : RequestContext) (path : string) : op (option FileAttr) :=
  r ← root req;
  match r with Some a => walk req a (components path) | None => mret None end.

(** *** Directories *)

Definition mkdir (req : RequestContext) (parent : Z) (name : string) (mode : Z) : op FileAttr :=
  _ ← tick;
  r ← begin_trans (fa_scope_meta acc)
        (data ← load_in parent;
         if decide (in_kind (inode_in data) = FileModel.Directory) then
           let uid := translate_uid acc (rq_uid req) req in
           let gid := translate_gid acc (rq_gid req) req in
           new_inode name mode uid gid FileModel.Directory (λ child,
             child ← push_child data child;
             child ← updwasmer_auth mode uid gid child;
             _ ← st_map_err FileSystemErrorKind.from_commit tr_commit;
             mret child)
         else st_fail NotDirectory);
  mret (spec_as_attr_reverse acc (spec_of (into (fst r))) req).

Definition rmdir (req : RequestContext) (parent : Z) (name : string) : op unit :=
  _ ← tick;
  h ← create_open_handle parent req O_RDONLY;
  if decide (at_kind (oh_attr (h : OpenHandle T)) = FileModel.Directory) then
    match entry_named name h with
    | Some e =>
        _ ← begin_trans (fa_scope_meta acc)
              (_ ← st_map_err FileSystemErrorKind.from_serialization (tr_delete (PrimaryKey.new (ent_inode e)));
               st_map_err FileSystemErrorKind.from_commit tr_commit);
        mret ()
    | None => st_fail NoEntry
    end
  else st_fail NotDirectory.

(** *** Files *)

(** The transaction is given back with the record. *)
Definition mknod_internal (req : RequestContext) (parent : Z) (name : string) (mode : Z)
    : op (DaoMut Inode * T) :=
  begin_trans (fa_scope_meta acc)
    (data ← load_in parent;
     if decide (in_kind (inode_in data) = FileModel.Directory) then
       cs ← children_in data;
       if existsb (λ c, named name (inode_in c)) cs then st_fail DoesNotExist
       else
         let uid := translate_uid acc (rq_uid req) req in
         let gid := translate_gid acc (rq_gid req) req in
         new_inode name mode uid gid FileModel.RegularFile (λ child,
           child ← push_child data child; updwasmer_auth mode uid gid child)
     else st_fail NotDirectory).

Definition mknod (req : RequestContext) (parent : Z) (name : string) (mode : Z) : op FileAttr :=
  _ ← tick;
  r ← mknod_internal req parent name mode;
  _ ← commit_trans (snd r);
  mret (spec_as_attr_reverse acc (spec_of (into (fst r))) req).

(** The handle goes on with the transaction the file was made in. *)
Definition create (req : RequestContext) (parent : Z) (name : string) (mode : Z) : op (OpenHandle T) :=
  _ ← tick;
  r ← mknod_internal req parent name mode;
  c ← go_on (snd r) (st_map_err FileSystemErrorKind.from_commit tr_commit);
  let spec := spec_of_mut (snd c) (fst r) in
  fh ← draw;
  insert_handle {| oh_dirty := false; oh_inode := FileSpec.ino spec; oh_fh := fh; oh_spec := spec;
                   oh_kind := FileSpec.kind spec; oh_attr := spec_as_attr_reverse acc spec req;
                   oh_read_only := false; oh_children := [] |}.

Definition symlink (req : RequestContext) (parent : Z) (name link : string) : op FileAttr :=
  _ ← tick;
  r ← mknod_internal req parent name 504;
  c ← go_on (snd r)
        (dao ← modify (Inode.with_link FileModel.SymLink (Some link)) (fst r);
         _ ← st_map_err FileSystemErrorKind.from_commit tr_commit;
         mret dao);
  mret (spec_as_attr_reverse acc (spec_of (into (fst c))) req).

Definition unlink (parent : Z) (name : string) : op unit :=
  _ ← tick;
  data_parent ← load parent;
  if decide (in_kind (row_data (snd (data_parent : Dao Inode))) = FileModel.Directory) then
    cs ← children_of false false data_parent;
    match List.find (λ c : Dao Inode, named name (row_data (snd c))) cs with
    | Some data =>
        if decide (in_kind (row_data (snd data)) = FileModel.Directory) then st_fail IsDirectory
        else
          _ ← begin_trans (fa_scope_meta acc)
                (_ ← st_map_err FileSystemErrorKind.from_serialization (tr_delete (dao_key data));
                 st_map_err FileSystemErrorKind.from_commit tr_commit);
          mret ()
    | None => st_fail NoEntry
    end
  else st_fail NotDirectory.

(** *** Renaming *)

Definition set_parent (parent : option MetaParent) (d : DaoMut Inode) : in_trans (DaoMut Inode) :=
  st_map_err FileSystemErrorKind.from_serialization (tr_set_parent parent d).

Definition delete_in (key : PrimaryKey) : in_trans unit :=
  st_map_err FileSystemErrorKind.from_serialization (tr_delete key).

Definition delete_named {A} (name : string) (key_of : A → PrimaryKey) (inode_of : A → Inode) (cs : list A)
    : in_trans unit :=
  match List.find (λ c, named name (inode_of c)) cs with
  | Some c => delete_in (key_of c)
  | None => mret ()
  end.

(** What the reader of the accessor does while a transaction is open. *)
Definition outside {A} (f : st B DioLoadErrorKind A) : in_trans A :=
  st_mk (λ '(b, t), let '(r, b) := f b in (map_err FileSystemErrorKind.from_load r, (b, t))).

Definition move (parent_data data : DaoMut Inode) (parent new_parent : Z) (new_name : string)
    : in_trans (DaoMut Inode) :=
  if decide (parent = new_parent) then
    cs ← children_in parent_data;
    _ ← delete_named new_name DaoMut.key inode_in cs;
    mret data
  else
    np ← outside (tr_load_ro Inode (PrimaryKey.new new_parent));
    if decide (in_kind (row_data (snd (np : Dao Inode))) = FileModel.Directory) then
      cs ← outside (DaoVec.iter_ext (T := T) (dao_key np) (in_children (row_data (snd np))) false false);
      _ ← delete_named new_name dao_key (λ c : Dao Inode, row_data (snd c)) cs;
      data ← set_parent None data;
      set_parent (Some {| mp_vec := {| mc_parent_id := dao_key np;
                                       mc_collection_id := in_children (row_data (snd np)) |} |}) data
    else st_fail NotDirectory.

Definition rename (parent : Z) (name : string) (new_parent : Z) (new_name : string) : op unit :=
  _ ← tick;
  r ← load_mut parent;
  let parent_data := fst r in
  if decide (in_kind (inode_in parent_data) = FileModel.Directory) then
    _ ← go_on (snd r)
          (_ ← under_mut_guard parent_data
                 (cs ← children_in parent_data;
                  match List.find (λ c, named name (inode_in c)) cs with
                  | Some data =>
                      data ← move parent_data data parent new_parent new_name;
                      modify_dentry (Inode.set_name new_name) data
                  | None => st_fail NoEntry
                  end);
           st_map_err FileSystemErrorKind.from_commit tr_commit);
    mret ()
  else st_fail NotDirectory.

(** *** Through a handle *)

Definition add_u64 (a b : Z) : result FileSystemErrorKind Z :=
  if decide (a + b ≤ u64_max) then Ok (a + b) else Err Panicked.

Definition read (fh offset size : Z) : op bytes :=
  _ ← tick;
  st_mk (λ s,
    match fs_open_handles s !! fh with
    | Some h => on_spec fh h (FileSpec.read offset size) s
    | None => (Err NotImplemented, s)
    end).

(** The loop of [read_all] stops at the first read that gives nothing. *)
Fixpoint read_all (fuel : nat) (fh : Z) (ret : bytes) : op bytes :=
  match fuel with
  | O => st_fail Panicked
  | S fuel =>
      bs ← read fh (len ret) 131072;
      match bs with [] => mret ret | _ => read_all fuel fh (ret ++ bs) end
  end.

Definition mark_dirty (fh : Z) : op unit :=
  st_mk (λ s, (Ok (), with_handles s (alter (λ h, OpenHandle.with_dirty h true) fh (fs_open_handles s)))).

Definition write (fh offset : Z) (data : bytes) : op Z :=
  _ ← tick;
  st_mk (λ s,
    match fs_open_handles s !! fh with
    | Some h =>
        if oh_read_only h then (Err FsReadOnly, s)
        else (n ← on_spec fh h (FileSpec.write offset data); _ ← mark_dirty fh; mret n) s
    | None => (Err NotImplemented, s)
    end).

Definition fallocate (inode fh offset length : Z) : op unit :=
  _ ← tick;
  st_mk (λ s,
    match (if decide (0 < fh) then fs_open_handles s !! fh else None) with
    | Some h =>
        if oh_read_only h then (Err FsReadOnly, s)
        else (size ← st_mk (λ s, (add_u64 offset length, s));
              _ ← on_spec fh h (FileSpec.fallocate size); mark_dirty fh) s
    | None =>
        (r ← load_mut inode;
         size ← st_mk (λ s, (add_u64 offset length, s));
         _ ← go_on (snd r)
               (_ ← modify (Inode.with_size size) (fst r);
                st_map_err FileSystemErrorKind.from_commit tr_commit);
         mret ()) s
    end).

Definition lseek (inode fh offset whence : Z) : op Z :=
  _ ← tick;
  if bool_decide (whence = SEEK_CUR) || bool_decide (whence = SEEK_SET) then mret offset
  else if decide (whence = SEEK_END) then
    size ← st_mk (λ s,
      match (if decide (0 < fh) then fs_open_handles s !! fh else None) with
      | Some h => (Ok (FileSpec.size (oh_spec h)), s)
      | None => (d ← load inode; mret (in_size (row_data (snd (d : Dao Inode))))) s
      end);
    st_mk (λ s, (add_u64 offset size, s))
  else st_fail InvalidArguments.

Definition forget : op unit := st_try tick (λ _, mret ()).
Definition fsync : op unit := tick.
Definition interrupt : op unit := tick.

Definition flush (fh : Z) : op unit :=
  _ ← tick;
  _ ← commit;
  _ ← st_mk (λ s,
        match fs_open_handles s !! fh with
        | Some h => on_spec fh h FileSpec.commit s
        | None => (Ok (), s)
        end);
  chain_flush.

Definition sync (fh : Z) : op unit := _ ← flush fh; chain_sync.

(** *** Extended attributes: through a handle that is dropped *)

Definition on_dropped {A} (inode : Z) (req : RequestContext) (flags : Z)
    (f : st (B * FileSpec T) FileSystemErrorKind A) : op A :=
  _ ← tick;
  h ← create_open_handle inode req flags;
  st_mk (λ s, let '(r, (b, _)) := f (fs_store s, oh_spec h) in (r, with_store s b)).

Definition setxattr (req : RequestContext) (inode : Z) (name value : string) : op unit :=
  on_dropped inode req O_RDWR (FileSpec.set_xattr name value).
Definition removexattr (req : RequestContext) (inode : Z) (name : string) : op bool :=
  on_dropped inode req O_RDWR (FileSpec.remove_xattr name).
Definition getxattr (req : RequestContext) (inode : Z) (name : string) : op (option string) :=
  on_dropped inode req O_RDONLY (FileSpec.get_xattr name).
Definition listxattr (req : RequestContext) (inode : Z) : op (gmap string string) :=
  on_dropped inode req O_RDONLY FileSpec.list_xattr.

(** *** The root *)

Definition create_root (req : RequestContext) : in_trans (DaoMut Inode) :=
  let mode := 504 in
  let uid := translate_uid acc (rq_uid req) req in
  let gid := translate_gid acc (rq_gid req) req in
  new_inode "/" mode uid gid FileModel.Directory (λ root,
    root ← st_map_err (λ _, InvalidArguments) (tr_store (Some (PrimaryKey.new 1)) root);
    updwasmer_auth mode uid gid root).

Definition init (req : RequestContext) : op (DaoMut Inode) :=
  r ← begin_trans (fa_scope_meta acc)
        (st_try (tr_load Inode (PrimaryKey.new 1)) (λ r,
           match r with
           | Ok a => mret a
           | Err (NotFound _) => create_root req
           | Err e => st_fail (FileSystemErrorKind.from_load e)
           end));
  _ ← tick;
  _ ← commit;
  _ ← commit_trans (snd r);
  _ ← st_mk (λ s, (Ok (), with_store s (tr_disable_new_roots (T := T) (fs_store s))));
  mret (fst r).

(** *** Whole files *)

Fixpoint touch_walk (req : RequestContext) (a : FileAttr) (comps : list string) : op FileAttr :=
  match comps with
  | [] => mret a
  | comp :: comps =>
      r ← lookup req (at_ino a) comp;
      a ← match r, comps with
          | Some a, _ => mret a
          | None, [] => mknod req (at_ino a) comp 432
          | None, _ => mkdir req (at_ino a) comp 504
          end;
      touch_walk req a comps
  end.

Definition touch (req : RequestContext) (path : string) : op FileAttr :=
  a ← getattr req 1 None; touch_walk req a (components path).

Definition nobody : RequestContext := {| rq_uid := 0; rq_gid := 0 |}.

(** [Repository::get_file] and [set_file], of the accessor they use. *)
Definition get_file (path : string) : op (option bytes) :=
  st_try (search nobody path) (λ r,
    match r with
    | Ok (Some a) =>
        st_try (open nobody (at_ino a) O_RDONLY) (λ r,
          match r with
          | Ok h => bs ← read (oh_fh h) 0 u32_max; mret (Some bs)
          | Err IsDirectory => mret None
          | Err e => st_fail e
          end)
    | Ok None | Err IsDirectory | Err DoesNotExist | Err NoEntry => mret None
    | Err e => st_fail e
    end).

Definition set_file (path : string) (data : bytes) : op Z :=
  file ← touch nobody path;
  h ← open nobody (at_ino file) (Z.lor O_RDWR O_TRUNC);
  _ ← fallocate (at_ino file) (oh_fh (h : OpenHandle T)) 0 0;
  written ← write (oh_fh h) 0 data;
  _ ← sync (oh_fh h);
  mret written.
End ops.
End Accessor.
