(* ===== verification/Layout.v ===== *)
(** * Where a file system is

    The records of a file system of directories and regular files: which record each path is,
    which bundles and pages a file has, and that the collection of a directory has exactly the
    records of the paths below it.  A step that changes one file, or adds one entry, leaves the
    rest where it is. *)

From S2P Require Import Prelude LogApi Crypto Codec Secure Meta Time Event Index Signature Tree Compact Plugins LogFile MemDb RedoLog Chain ChainSpec Pipe Dio Trans TransSpec FileModel RegFile RegFileSpec RegFileBytes.

(** A directory, or a file with its bytes, its bundles and its pages. *)
Inductive Node : Type :=
  | NodeDir (i : Inode)
  | NodeFile (i : Inode) (c : bytes) (bks : list PrimaryKey) (pgs : list (PrimaryKey * bytes)).

Definition node_inode (n : Node) : Inode := match n with NodeDir i | NodeFile i _ _ _ => i end.

Definition node_keys (n : Node) : list PrimaryKey :=
  match n with NodeDir _ => [] | NodeFile _ _ bks pgs => bks ++ pgs.*1 end.

(** What a path is to whoever reads it: a directory, or a file with its bytes. *)
Definition content (n : Node) : option bytes := match n with NodeDir _ => None | NodeFile _ c _ _ => Some c end.

Abbreviation Path := (list string).
Abbreviation Layout := (gmap (list string) (PrimaryKey * Node)).
Definition view (L : Layout) : gmap Path (option bytes) := (λ e, content (snd e)) <$> L.

Definition root_key : PrimaryKey := PrimaryKey.new 1.

Section layout.
Context {B T : Type} `{HT : Trans B T} {HTS : TreeSpec B T}.
Context `{HDI : DataSerializer Inode} `{HDB : DataSerializer PageBundle} `{HDP : DataSerializer Page}.
Implicit Types (s : B * T) (k : PrimaryKey) (c : MetaCollection) (L : Layout) (p q : Path) (n : Node).

Definition tt_stored s := stored_as (tt_sees Inode s) (tt_sees PageBundle s) (tt_sees Page s).

Definition node_ok s k n : Prop :=
  match n with
  | NodeDir i => tt_sees Inode s k i ∧ in_kind i = FileModel.Directory
  | NodeFile i c bks pgs => tt_stored s k i bks pgs ∧ in_kind i = FileModel.RegularFile ∧ in_size i = len c
      ∧ ∃ l, paged l pgs.*2 ∧ c `prefix_of` l
  end.

(** The collection of a directory. *)
Definition guarded L c : Prop := ∃ p k i, L !! p = Some (k, NodeDir i) ∧ c = collection k (in_children i).

(** The records of the paths other than [p]. *)
Definition elsewhere L p k : Prop := ∃ q k' n, q ≠ p ∧ L !! q = Some (k', n) ∧ k ∈ k' :: node_keys n.

Record holds s L : Prop := {
  ho_root : ∃ i, L !! [] = Some (root_key, NodeDir i);
  ho_up p name e : L !! (p ++ [name]) = Some e → ∃ k i, L !! p = Some (k, NodeDir i);
  ho_apart p k n k' : L !! p = Some (k, n) → k' ∈ k :: node_keys n → ¬ elsewhere L p k';
  ho_node p k n : L !! p = Some (k, n) → node_ok s k n;
  ho_child p k i : L !! p = Some (k, NodeDir i) →
    ∀ k', tt_child s (collection k (in_children i)) k' ↔ ∃ name n, L !! (p ++ [name]) = Some (k', n);
  ho_name p name k n : L !! (p ++ [name]) = Some (k, n) →
    de_name (in_dentry (node_inode n)) = name ∧ name ≠ "." ∧ name ≠ "..";
}.

(** ** Reading off *)

Lemma node_seen s k n : node_ok s k n → tt_sees Inode s k (node_inode n).
Proof. destruct n; [by intros [? _]|]. intros [Hst _]. by destruct Hst. Qed.

Lemma node_key_seen s k n k' : node_ok s k n → k' ∈ k :: node_keys n →
  ∃ D (HD : DataSerializer D) (x : D), tt_sees D s k' x.
Proof.
  intros Hn [->|Hk]%elem_of_cons; [exists Inode, HDI, (node_inode n); by apply node_seen|].
  destruct n as [|i c bks pgs]; [by apply elem_of_nil in Hk|]. destruct Hn as [[] _].
  apply elem_of_app in Hk as [[j Hj]%list_elem_of_lookup|[[kp x] [-> [q Hq]%list_elem_of_lookup]]%list_elem_of_fmap].
  - destruct (st_pages j k' Hj) as (x & Hx & _). by exists PageBundle, HDB, x.
  - exists Page, HDP, {| pg_buf := x |}. by eapply st_bufs.
Qed.

Lemma elsewhere_seen s L p k : holds s L → elsewhere L p k → ∃ D (HD : DataSerializer D) (x : D), tt_sees D s k x.
Proof. intros Hh (q & k' & n & _ & Hq & Hk). eapply node_key_seen; [by eapply ho_node|done]. Qed.

(** A record is at one path. *)
Lemma path_unique s L p q k n n' : holds s L → L !! p = Some (k, n) → L !! q = Some (k, n') → p = q.
Proof.
  intros Hh Hp Hq. destruct (decide (q = p)) as [|Hne]; [done|]. exfalso.
  apply (ho_apart _ _ Hh p k n k Hp); [by left|]. exists q, k, n'. by split; [|split; [|left]].
Qed.

Lemma children_seen s L p k i : holds s L → L !! p = Some (k, NodeDir i) →
  ∀ k', tt_child s (collection k (in_children i)) k' → ∃ x : Inode, tt_sees Inode s k' x.
Proof.
  intros Hh Hp k' (name & n & Hn)%(ho_child _ _ Hh p k i Hp). exists (node_inode n). by eapply node_seen, ho_node.
Qed.

Lemma child_guarded s L c k : holds s L → guarded L c → tt_child s c k → ∃ p n, L !! p = Some (k, n).
Proof. intros Hh (p & kp & i & Hp & ->) (name & n & Hn)%(ho_child _ _ Hh p kp i Hp). by eexists _, _. Qed.

(** ** Steps that keep a layout *)

Lemma node_ok_mono s s' k n : (∀ k' D `{DataSerializer D} (x : D), k' ∈ k :: node_keys n → tt_sees D s k' x → tt_sees D s' k' x) →
  node_ok s k n → node_ok s' k n.
Proof.
  intros Hs. destruct n as [i|i c bks pgs]; cbn in *.
  - intros [Hi Hk]. split; [|done]. apply Hs; [by left|done].
  - intros [Hst Hr]. split; [|done]. revert Hst. apply stored_mono.
    + intros k' x ->. apply Hs. by left.
    + intros k' x Hk. apply Hs. right. apply elem_of_app. by left.
    + intros k' x Hk. apply Hs. right. apply elem_of_app. by right.
Qed.

Lemma holds_agree s s' L : holds s L →
  (∀ p k n, L !! p = Some (k, n) → node_ok s' k n) →
  (∀ c k, guarded L c → tt_child s c k ↔ tt_child s' c k) → holds s' L.
Proof.
  intros [] Hn Hc. constructor; try done. intros p k i Hp k'. rewrite <- (Hc _ k'); [by apply ho_child0|].
  by exists p, k, i.
Qed.

Lemma holds_same s s' L : tt_same s s' → holds s L → holds s' L.
Proof.
  intros [Hs Hc] Hh. apply (holds_agree s); [done| |by intros; apply Hc].
  intros p k n Hp. eapply node_ok_mono, ho_node; [|done|done]. intros k' D HD x _. by apply Hs.
Qed.

(** The inode of a path is written as it was, where it was. *)
Lemma holds_resave s s' L p k n : holds s L → L !! p = Some (k, n) →
  tt_sees Inode s' k (node_inode n) → tt_others s s' k → (∀ c, tt_child s c k ↔ tt_child s' c k) → holds s' L.
Proof.
  intros Hh Hp Hi [Hos Hoc] Hck. apply (holds_agree s); [done| |].
  - intros q kq nq Hq. pose proof (ho_node _ _ Hh _ _ _ Hq) as Hn. destruct (decide (q = p)) as [->|Hne].
    + rewrite Hp in Hq. injection Hq as <- <-. destruct n as [i|i c bks pgs]; [by destruct Hn|].
      destruct Hn as (Hst & Hr). split; [|done]. cbn in Hi. pose proof (st_keys _ _ _ _ _ _ _ Hst) as [Hk _]%NoDup_cons.
      pose proof (st_inode _ _ _ _ _ _ _ Hst) as Hi0.
      revert Hst. apply stored_mono.
      * intros k' x ->. intros Hx. by rewrite (tt_sees_one _ _ _ _ _ Hx Hi0).
      * intros k' x Hk'. apply Hos. intros ->. destruct Hk. apply elem_of_app. by left.
      * intros k' x Hk'. apply Hos. intros ->. destruct Hk. apply elem_of_app. by right.
    + eapply node_ok_mono; [|exact Hn]. intros k' D HD x Hk'. apply Hos. intros ->.
      eapply (ho_apart _ _ Hh p k); [exact Hp|by left|]. by exists q, kq, nq.
  - intros c k' _. destruct (decide (k' = k)) as [->|Hne]; [done|by apply Hoc].
Qed.

(** A record that is made beside the layout. *)
Lemma holds_beside s s' L kn : holds s L → (∀ q kq nq, L !! q = Some (kq, nq) → kn ∉ kq :: node_keys nq) →
  tt_others s s' kn → (∀ c, ¬ tt_child s c kn) → (∀ c, ¬ tt_child s' c kn) → holds s' L.
Proof.
  intros Hh Hnew [Hos Hoc] Hc Hc'. apply (holds_agree s); [done| |].
  - intros q kq nq Hq. eapply node_ok_mono, ho_node; [|done|done]. intros k' D HD x Hk'. apply Hos. intros ->.
    by eapply Hnew.
  - intros c k' _. destruct (decide (k' = kn)) as [->|Hne]; [|by apply Hoc]. split; [by intros ?%Hc|by intros ?%Hc'].
Qed.

Lemma placed_others {D} s s' kn (d : DaoMut D) : tt_placed s d → tt_others s s' kn → DaoMut.key d ≠ kn → tt_placed s' d.
Proof. intros Hp [_ Hoc] Hne c. rewrite <- (Hoc c _ Hne). apply Hp. Qed.

(** An entry that is added to a directory. *)
Lemma holds_add s s' L p k i name kn n : holds s L → L !! p = Some (k, NodeDir i) → L !! (p ++ [name]) = None →
  (∀ q kq nq, L !! q = Some (kq, nq) → kn ∉ kq :: node_keys nq) → node_keys n = [] → node_ok s' kn n →
  tt_others s s' kn → (∀ c, tt_child s' c kn ↔ c = collection k (in_children i)) →
  (∀ id k', ¬ tt_child s' (collection kn id) k') →
  de_name (in_dentry (node_inode n)) = name → name ≠ "." → name ≠ ".." →
  holds s' (<[p ++ [name] := (kn, n)]> L).
Proof.
  intros Hh Hp Hnone Hnew Hkeys Hn [Hos Hoc] Hck Hempty Hname Hdot Hdots.
  assert (∀ name', L !! ((p ++ [name]) ++ [name']) = None) as Hbelow.
  { intros name'. destruct (L !! ((p ++ [name]) ++ [name'])) as [e|] eqn:E; [|done].
    destruct (ho_up _ _ Hh (p ++ [name]) name' e E) as (k' & i' & Hk'). by rewrite Hnone in Hk'. }
  assert (∀ q (x : string), q ++ [x] ≠ q) as Hsnoc by (intros q x Hq%(f_equal length); rewrite length_app in Hq; cbn in Hq; lia).
  constructor.
  - destruct (ho_root _ _ Hh) as [i0 Hi0]. exists i0. rewrite lookup_insert_ne; [done|]. by destruct p.
  - intros q name' e. rewrite lookup_insert_Some. intros [[Hq _]|[_ Hq]].
    + apply app_inj_tail in Hq as [<- <-]. exists k, i. rewrite lookup_insert_ne; [done|apply Hsnoc].
    + destruct (ho_up _ _ Hh _ _ _ Hq) as (k' & i' & Hq'). exists k', i'. rewrite lookup_insert_ne; [done|]. congruence.
  - intros q kq nq k'. rewrite lookup_insert_Some. intros [[<- [= <- <-]]|[Hne Hq]] Hk' (r & kr & nr & Hr & Hrl & Hkr).
    + rewrite Hkeys in Hk'. apply list_elem_of_singleton in Hk' as ->. rewrite lookup_insert_ne in Hrl by done.
      by eapply Hnew.
    + apply lookup_insert_Some in Hrl as [[<- [= <- <-]]|[_ Hrl]].
      * rewrite Hkeys in Hkr. apply list_elem_of_singleton in Hkr as ->. by eapply Hnew.
      * apply (ho_apart _ _ Hh q kq nq k' Hq Hk'). by exists r, kr, nr.
  - intros q kq nq. rewrite lookup_insert_Some. intros [[<- [= <- <-]]|[Hne Hq]]; [done|].
    eapply node_ok_mono, ho_node; [|done|done]. intros k' D HD x Hk'. apply Hos. intros ->. by eapply Hnew.
  - intros q kq iq. rewrite lookup_insert_Some. intros [[<- [= <- ->]]|[Hne Hq]] k'.
    + split; [by intros ?%Hempty|]. intros (name' & n' & Hn'). rewrite lookup_insert_ne in Hn' by (intros He; symmetry in He; by apply Hsnoc in He).
      by rewrite (Hbelow name') in Hn'.
    + destruct (decide (k' = kn)) as [->|Hkn].
      * rewrite (Hck _). split.
        -- intros [= -> Hid]. rewrite (path_unique s L q p k (NodeDir iq) (NodeDir i)) by done.
           exists name, n. apply lookup_insert_eq.
        -- intros (name' & n' & [[Hq' _]|[_ Hq']]%lookup_insert_Some).
           { apply app_inj_tail in Hq' as [<- <-]. congruence. }
           destruct (Hnew _ _ _ Hq'). by left.
      * rewrite <- (Hoc _ k' Hkn), (ho_child _ _ Hh q kq iq Hq k'). split; intros (name' & n' & Hn').
        -- exists name', n'. rewrite lookup_insert_ne; [done|]. congruence.
        -- apply lookup_insert_Some in Hn' as [[_ [= -> _]]|[_ Hn']]; [done|]. by exists name', n'.
  - intros q name' kq nq. rewrite lookup_insert_Some. intros [[Hq [= <- <-]]|[_ Hq]]; [|by apply (ho_name _ _ Hh q name' kq)].
    by apply app_inj_tail in Hq as [<- <-].
Qed.

(** A file whose records were changed. *)
Lemma holds_refile s s' L p k i (c : bytes) bks pgs i' (c' : bytes) bks' pgs' : holds s L → L !! p = Some (k, NodeFile i c bks pgs) →
  intact s (elsewhere L p) (guarded L) s' → node_ok s' k (NodeFile i' c' bks' pgs') →
  (∀ k', k' ∈ bks' ++ pgs'.*1 → ¬ elsewhere L p k') → head i' = head i →
  holds s' (<[p := (k, NodeFile i' c' bks' pgs')]> L).
Proof.
  intros Hh Hp [Hin Hic] Hn Hout [= Hde Hki].
  assert (∀ q k' i0, <[p := (k, NodeFile i' c' bks' pgs')]> L !! q = Some (k', NodeDir i0) ↔ L !! q = Some (k', NodeDir i0)) as Hdir.
  { intros q k' i0. destruct (decide (q = p)) as [->|Hne]; [|by rewrite lookup_insert_ne].
    rewrite lookup_insert_eq, Hp. split; intros [=]. }
  constructor.
  - destruct (ho_root _ _ Hh) as [i0 Hi0]. exists i0. by apply Hdir.
  - intros q name e Hq. setoid_rewrite Hdir. apply lookup_insert_Some in Hq as [[He _]|[_ Hq]]; [rewrite He in Hp|]; by eapply ho_up.
  - intros q kq nq k'. rewrite lookup_insert_Some. intros [[<- [= <- <-]]|[Hne Hq]] Hk' (r & kr & nr & Hr & Hrl & Hkr).
    + rewrite lookup_insert_ne in Hrl by done.
      assert (elsewhere L p k') as He by (by exists r, kr, nr).
      apply elem_of_cons in Hk' as [->|Hk']; [|by apply (Hout k')]. eapply ho_apart; [exact Hh|exact Hp|by left|done].
    + apply lookup_insert_Some in Hrl as [[<- [= <- <-]]|[_ Hrl]].
      * assert (elsewhere L p k') as He by (by exists q, kq, nq).
        apply elem_of_cons in Hkr as [->|Hk2]; [|by apply (Hout k')]. eapply ho_apart; [exact Hh|exact Hp|by left|done].
      * apply (ho_apart _ _ Hh q kq nq k' Hq Hk'). by exists r, kr, nr.
  - intros q kq nq. rewrite lookup_insert_Some. intros [[<- [= <- <-]]|[Hne Hq]]; [done|].
    eapply node_ok_mono, ho_node; [|done|done]. intros k' D HD x Hk'. apply Hin. by exists q, kq, nq.
  - intros q kq iq Hq%Hdir k'. rewrite <- (Hic _ k') by (by exists q, kq, iq). rewrite (ho_child _ _ Hh q kq iq Hq k').
    split; intros (name & n & Hn').
    + destruct (decide (q ++ [name] = p)) as [He|Hne].
      * rewrite He, Hp in Hn'. injection Hn' as <- <-. exists name, (NodeFile i' c' bks' pgs'). rewrite He. apply lookup_insert_eq.
      * exists name, n. by rewrite lookup_insert_ne.
    + apply lookup_insert_Some in Hn' as [[He [= <- _]]|[_ Hn']]; [|by exists name, n].
      exists name, (NodeFile i c bks pgs). by rewrite <- He.
  - intros q name kq nq. rewrite lookup_insert_Some. intros [[Hq [= <- <-]]|[_ Hq]]; [|by apply (ho_name _ _ Hh q name kq)].
    rewrite Hq in Hp. cbn. rewrite Hde. by apply (ho_name _ _ Hh q name k _ Hp).
Qed.
End layout.
