(* ===== verification/AccessorSpec.v ===== *)
(** * What the file system promises

    On a chain that keeps what [TreeSpec] asks, an accessor whose handles are at rest finds what
    the layout of the file system has: looking up, walking and opening for reading here, making
    directories and files in AccessorMake.v, whole files in RepositorySpec.v. *)

From S2P Require Import Prelude LogApi Crypto Codec Secure Meta Time Event Index Signature Tree Session Compact Plugins LogFile MemDb RedoLog Chain ChainSpec Pipe Dio Trans TransSpec FileModel RegFile RegFileSpec RegFileBytes FileSpec Accessor Layout.

Lemma st_bind_mret {S E A A' : Type} (a : A) (f : A → st S E A') (s : S) : mbind f (mret a : st S E A) s = f a s.
Proof. done. Qed.

(** ** The chain below *)

Section chain.
Context {B T : Type} `{HT : Trans B T} {HTS : TreeSpec B T}.
Context `{HDI : DataSerializer Inode} `{HDB : DataSerializer PageBundle} `{HDP : DataSerializer Page}.
Implicit Types (b : B) (s : B * T) (k : PrimaryKey) (L : Layout) (p : Path) (n : Node).

(** A transaction begun now has the layout. *)
Definition good L b : Prop :=
  let s := (b, tr_begin ScopeFull) in tt_ready s ∧ tt_durable s ∧ holds s L.

Lemma good_begin L b scope : good L b →
  tt_ready (b, tr_begin scope) ∧ tt_durable (b, tr_begin scope) ∧ holds (b, tr_begin scope) L.
Proof.
  intros (_ & Hd & Hh). destruct (tt_begin _ scope Hd) as (Hr' & Hd' & Hs). cbn in *.
  split; [done|]. split; [done|]. by eapply holds_same.
Qed.

Lemma good_after L s : tt_durable s → holds s L → good L (fst s).
Proof.
  intros Hd Hh. destruct (tt_begin s ScopeFull Hd) as (Hr' & Hd' & Hs).
  split; [done|]. split; [done|]. by eapply holds_same.
Qed.

Lemma good_random L b : good L b → good L (tr_random b).2.
Proof.
  intros (Hr & Hd & Hh). destruct (tt_random _ _ Hr) as (Hr' & Hs & Hd').
  split; [done|]. split; [by apply Hd'|]. by eapply holds_same.
Qed.

Lemma good_load L b p k n : good L b → L !! p = Some (k, n) →
  ∃ dao b', tr_load_ro Inode k b = (Ok dao, b') ∧ dao_key dao = k ∧ row_data (snd dao) = node_inode n ∧ good L b'.
Proof.
  intros (Hr & Hd & Hh) Hp.
  destruct (tt_load_ro Inode _ k (node_inode n) Hr Hd) as (dao & b' & E & Hk & Hx & Hr' & Hs & Hd').
  { by eapply node_seen, ho_node. }
  exists dao, b'. repeat (split; [done|]). by eapply holds_same.
Qed.

Lemma good_children L b p k i missing errors : good L b → L !! p = Some (k, NodeDir i) →
  ∃ daos b', tr_children_ro Inode k (in_children i) missing errors b = (Ok daos, b') ∧ good L b'
    ∧ (∀ name k' n, L !! (p ++ [name]) = Some (k', n) → k' ∈ map dao_key daos)
    ∧ (∀ dao, dao ∈ daos → ∃ name n, L !! (p ++ [name]) = Some (dao_key dao, n)
         ∧ row_data (snd dao) = node_inode n ∧ de_name (in_dentry (node_inode n)) = name
         ∧ name ≠ "." ∧ name ≠ "..").
Proof.
  intros (Hr & Hd & Hh) Hp.
  destruct (tt_children_ro Inode _ k (in_children i) missing errors Hr Hd) as (daos & b' & E & Hr' & Hs & Hd' & Hk & Hx).
  { by eapply children_seen. }
  exists daos, b'. split; [done|]. split; [split; [done|]; split; [done|]; by eapply holds_same|]. split.
  - intros name k' n Hn. apply Hk, (ho_child _ _ Hh p k i Hp). by exists name, n.
  - intros dao Hdao. specialize (Hx dao Hdao).
    assert (dao_key dao ∈ map dao_key daos) as Hin by (apply list_elem_of_fmap; by exists dao).
    apply Hk, (ho_child _ _ Hh p k i Hp) in Hin as (name & n & Hn). exists name, n. split; [done|].
    split; [|by eapply ho_name]. eapply tt_sees_one; [exact Hx|]. by eapply node_seen, ho_node.
Qed.
End chain.

(** ** Entries *)

Section entries.
Context {T : Type} (acc : FileAccessor).
Implicit Types (h : OpenHandle T) (dao : Dao Inode).

Lemma spec_name dao z c u : FileSpec.name (as_file_spec (T := T) z c u dao) = de_name (in_dentry (row_data (snd dao))).
Proof. unfold as_file_spec. by destruct (in_kind _). Qed.

Lemma spec_ino dao c u : FileSpec.ino (as_file_spec (T := T) (PrimaryKey.as_u64 (dao_key dao)) c u dao)
  = PrimaryKey.as_u64 (dao_key dao).
Proof. unfold as_file_spec. by destruct (in_kind _). Qed.

Lemma spec_kind dao z c u : FileSpec.kind (as_file_spec (T := T) z c u dao) = in_kind (row_data (snd dao)).
Proof. unfold as_file_spec. by destruct (in_kind _). Qed.

(** What the children add to a handle. *)
Lemma add_children_ok req (cs : list (FileSpec T)) h :
  let h' := Accessor.add_children acc req cs h in
  (oh_dirty h', oh_inode h', oh_fh h', oh_spec h', oh_kind h', oh_attr h', oh_read_only h')
  = (oh_dirty h, oh_inode h, oh_fh h, oh_spec h, oh_kind h, oh_attr h, oh_read_only h)
  ∧ ∃ es, oh_children h' = oh_children h ++ es
      ∧ Forall2 (λ c e, ent_name e = FileSpec.name c ∧ at_ino (ent_attr e) = FileSpec.ino c) cs es.
Proof.
  cbn. revert h. induction cs as [|c cs IH]; intros h; [split; [done|]; exists []; by rewrite app_nil_r|].
  unfold Accessor.add_children in *. cbn.
  match goal with |- context [foldl _ ?h0 cs] => destruct (IH h0) as [He (es & Hes & Hf)]; set (h1 := h0) in * end.
  split; [rewrite He; unfold h1; by destruct (fa_impersonate_uid acc)|].
  assert (∃ e, oh_children h1 = oh_children h ++ [e] ∧ ent_name e = FileSpec.name c
    ∧ at_ino (ent_attr e) = FileSpec.ino c) as (e & He1 & Hn & Hi).
  { unfold h1. destruct (fa_impersonate_uid acc); by eexists. }
  exists (e :: es). rewrite Hes, He1, <- app_assoc. split; [done|]. by constructor.
Qed.

(** The entry of a name: the first child that has it. *)
Lemma entry_find name h cs es : oh_children h = es →
  Forall2 (λ c e, ent_name e = FileSpec.name (T := T) c ∧ at_ino (ent_attr e) = FileSpec.ino c) cs es →
  match Accessor.entry_named name h with
  | Some e => ∃ c, c ∈ cs ∧ FileSpec.name c = name ∧ at_ino (ent_attr e) = FileSpec.ino c
  | None => ∀ c, c ∈ cs → FileSpec.name c ≠ name
  end.
Proof.
  unfold Accessor.entry_named. intros -> Hf.
  induction Hf as [|c e cs es [Hn Hi] _ IH]; cbn; [by intros c Hc%elem_of_nil|].
  destruct (bool_decide_reflect (ent_name e = name)) as [He|Hne].
  - exists c. split; [by left|]. by rewrite <- Hn.
  - destruct (List.find _ es) as [e'|].
    + destruct IH as (c' & Hc' & ?). exists c'. split; [by right|done].
    + intros c' [->|Hc']%elem_of_cons; [by rewrite <- Hn|by apply IH].
Qed.
End entries.

(** ** Handles at rest *)

Section ops.
Context `{CryptoPrims} {B T : Type} `{HT : Trans B T} {HTS : TreeSpec B T}.
Context `{HDI : DataSerializer Inode} `{HDB : DataSerializer PageBundle} `{HDP : DataSerializer Page}.
Context `{HDS : DataSerializer string} {HKT : KeyText}.
Variable acc : FileAccessor.
Variable order : gset Z → list Z.
Hypothesis order_elements : ∀ X, order X ≡ₚ elements X.
Implicit Types (b : B) (st : FilesState B T) (k : PrimaryKey) (L : Layout) (p : Path) (n : Node).

(** No handle has something to commit. *)
Definition idle st : Prop := map_Forall (λ _ h, oh_dirty h = false) (fs_open_handles st).

(** The next tick does nothing. *)
Definition ticked st : Prop := fs_elapsed st ≤ fs_last_elapsed st.

Definition calm L st : Prop := good L (fs_store st) ∧ idle st.

Lemma tick_ticked st : ticked st → Accessor.tick order st = (Ok (), st).
Proof. intros Ht. unfold Accessor.tick, st_mk. by rewrite decide_False by (unfold ticked in Ht; lia). Qed.

Lemma commit_idle st : idle st →
  ∃ st', Accessor.commit_internal order st = (Ok (), st') ∧ idle st' ∧ fs_store st' = fs_store st
    ∧ fs_elapsed st' = fs_elapsed st ∧ fs_last_elapsed st' = fs_last_elapsed st.
Proof.
  intros Hi. unfold Accessor.commit_internal, st_mk.
  assert (filter (λ '(_, h), oh_dirty h = true) (fs_open_handles st) = ∅) as ->.
  { apply map_empty. intros fh. apply map_lookup_filter_None. right. intros h Hh Hd. by rewrite (Hi fh h Hh) in Hd. }
  rewrite dom_empty_L. specialize (order_elements ∅). rewrite elements_empty in order_elements.
  apply Permutation_nil_r in order_elements as ->. eexists. split; [done|]. split; [|done].
  intros fh h. cbn. rewrite lookup_fmap. by intros (h' & _ & ->)%fmap_Some.
Qed.

Lemma tick_ok L st : calm L st → ∃ st', Accessor.tick order st = (Ok (), st') ∧ calm L st' ∧ ticked st'.
Proof.
  intros [Hg Hi]. unfold Accessor.tick, st_mk. destruct (decide _) as [Hlt|Hge].
  - set (st1 := {| fs_store := _ |}).
    destruct (commit_idle st1) as (st' & E & Hi' & Hs & He & Hl); [done|]. exists st'. split; [done|].
    split; [by split; [rewrite Hs|]|]. unfold ticked. rewrite He, Hl. done.
  - exists st. split; [done|]. split; [done|]. unfold ticked. lia.
Qed.

Lemma calm_store L st b : good L b → idle st → calm L (Accessor.with_store st b).
Proof. by intros. Qed.

Lemma on_store_Ok {E A} (wrap : E → FileSystemErrorKind) (f : st B E A) st x b' :
  f (fs_store st) = (Ok x, b') → Accessor.on_store (T := T) wrap f st = (Ok x, Accessor.with_store st b').
Proof. intros Ef. unfold Accessor.on_store, st_mk. by rewrite Ef. Qed.

Lemma load_ok L st p k n : calm L st → L !! p = Some (k, n) →
  ∃ dao b', Accessor.load (PrimaryKey.as_u64 k) st = (Ok dao, Accessor.with_store st b')
    ∧ dao_key dao = k ∧ row_data (snd dao) = node_inode n ∧ good L b'.
Proof.
  intros [Hg _] Hp. destruct (good_load L _ p k n Hg Hp) as (dao & b' & E & Hk & Hx & Hg').
  exists dao, b'. split; [|done]. unfold Accessor.load. rewrite key_back. by apply on_store_Ok.
Qed.

(** *** Opening for reading *)

(** What the handle of a path is. *)
Definition shows L p n (h : OpenHandle T) : Prop :=
  oh_dirty h = false ∧ oh_read_only h = false
  ∧ oh_kind h = in_kind (node_inode n) ∧ at_kind (oh_attr h) = in_kind (node_inode n)
  ∧ match n with
    | NodeDir i => ∀ name, name ≠ "." → name ≠ ".." →
        match Accessor.entry_named name h with
        | Some e => ∃ k' n', L !! (p ++ [name]) = Some (k', n') ∧ at_ino (ent_attr e) = PrimaryKey.as_u64 k'
        | None => L !! (p ++ [name]) = None
        end
    | NodeFile i _ _ _ => ∃ dao c u, oh_spec h = SpecRegularFile (RegularFile.new dao c u)
        ∧ row_data (snd dao) = i
    end.

Lemma shown_ok L st p k n dao : calm L st → L !! p = Some (k, n) → dao_key dao = k →
  row_data (snd dao) = node_inode n → in_kind (node_inode n) = FileModel.Directory ↔ content n = None →
  ∃ cs b', Accessor.shown_children acc false (PrimaryKey.as_u64 k) dao st = (Ok cs, Accessor.with_store st b')
    ∧ good L b' ∧ (content n = None → ∀ name, name ≠ "." → name ≠ ".." → ∀ k',
        (∃ n', L !! (p ++ [name]) = Some (k', n'))
        ↔ ∃ c, c ∈ cs ∧ FileSpec.name c = name ∧ FileSpec.ino c = PrimaryKey.as_u64 k').
Proof.
  intros [Hg Hi] Hp Hk Hx Hkind. unfold Accessor.shown_children. rewrite Hx. destruct n as [i|i c bks pgs].
  2: { rewrite decide_False by (intros Hd%Hkind; done). exists [], (fs_store st).
       split; [by destruct st|]. by split. }
  rewrite decide_True by (by apply Hkind). cbn [node_inode] in *.
  destruct (good_children L _ p k i true true Hg Hp) as (daos & b' & E & Hg' & Hall & Hd).
  assert (Accessor.children_of true true dao st = (Ok daos, Accessor.with_store st b')) as E1.
  { unfold Accessor.children_of, DaoVec.iter_ext. rewrite Hk, Hx. by apply on_store_Ok. }
  eexists _, b'. split; [by rewrite (st_bind_Ok _ _ _ _ _ (st_bind_Ok _ _ _ _ _ E1))|]. split; [done|].
  intros _ name Hdot Hdots k'. split.
  - intros [n' Hn']. pose proof (Hall _ _ _ Hn') as (d & -> & Hdin)%list_elem_of_fmap.
    destruct (Hd d Hdin) as (name' & n2 & Hn2 & Hdx & Hname & _).
    assert (name' = name) as -> by (eapply app_inj_tail, path_unique; [apply Hg|exact Hn2|exact Hn']).
    exists (Accessor.spec_of d). split; [apply elem_of_app; right; apply list_elem_of_fmap; by exists d|].
    unfold Accessor.spec_of. rewrite spec_name, spec_ino, Hdx. done.
  - intros (c & Hc & Hcn & Hci). apply elem_of_app in Hc as [Hc|(d & -> & Hdin)%list_elem_of_fmap].
    { apply elem_of_cons in Hc as [->|[->|[]%elem_of_nil]%elem_of_cons]; by destruct Hcn. }
    destruct (Hd d Hdin) as (name' & n2 & Hn2 & Hdx & Hname & _). unfold Accessor.spec_of in Hcn, Hci.
    rewrite spec_name, Hdx, Hname in Hcn. rewrite spec_ino in Hci. subst name'.
    rewrite <- (key_back k'), <- Hci, key_back. by exists n2.
Qed.

Lemma node_kind_dir L b p k n : good L b → L !! p = Some (k, n) →
  in_kind (node_inode n) = FileModel.Directory ↔ content n = None.
Proof.
  intros (_ & _ & Hh) Hp. pose proof (ho_node _ _ Hh _ _ _ Hp) as Hn.
  destruct n; cbn in *; [by destruct Hn|]. destruct Hn as (_ & -> & _). done.
Qed.

Lemma create_ro_ok L st p k n req : calm L st → L !! p = Some (k, n) →
  ∃ h b', Accessor.create_open_handle acc order (PrimaryKey.as_u64 k) req O_RDONLY st
      = (Ok h, Accessor.with_store st b') ∧ good L b' ∧ shows L p n h.
Proof.
  intros Hc Hp. pose proof (node_kind_dir _ _ _ _ _ (proj1 Hc) Hp) as Hkind. pose proof (proj2 Hc) as Hi.
  unfold Accessor.create_open_handle.
  change (bit O_RDONLY O_TRUNC) with false. change (bit O_RDONLY O_RDWR) with false.
  change (bit O_RDONLY O_WRONLY) with false. change (bit O_RDONLY O_RDONLY) with false. cbn [orb].
  destruct (load_ok L st p k n Hc Hp) as (dao & b1 & E1 & Hk & Hx & Hg1).
  rewrite !st_bind_mret.
  rewrite (st_bind_Ok _ _ _ _ _ E1).
  destruct (shown_ok L (Accessor.with_store st b1) p k n dao) as (cs & b2 & E2 & Hg2 & Hcs); try done.
  rewrite (st_bind_Ok _ _ _ _ _ E2), !st_bind_mret.
  erewrite st_bind_Ok; [|unfold Accessor.draw, st_mk; cbn; by rewrite (surjective_pairing (tr_random b2))].
  match goal with |- context [Accessor.add_children acc req cs ?h0] =>
    destruct (add_children_ok acc req cs h0) as [Heq (es & Hes & Hf)]; set (h := Accessor.add_children acc req cs h0) in * end.
  exists h, (tr_random b2).2. split; [done|]. split; [by apply good_random|].
  injection Heq as Hdirty _ _ Hspec Hkd Hat Hro. unfold shows. rewrite Hdirty, Hro, Hkd, Hat. cbn [at_kind FileAttr.new].
  rewrite spec_kind, Hx. repeat (split; [done|]).
  destruct n as [i|i c bks pgs].
  - intros name Hdot Hdots. specialize (Hcs eq_refl name Hdot Hdots).
    pose proof (entry_find name h cs es Hes Hf) as He. destruct (Accessor.entry_named name h) as [e|].
    + destruct He as (c & Hcin & Hcn & Hci). assert (PrimaryKey.as_u64 (PrimaryKey.new (FileSpec.ino c)) = FileSpec.ino c) as Hz by done.
      destruct (proj2 (Hcs (PrimaryKey.new (FileSpec.ino c)))) as [n' Hn']; [by exists c|].
      exists (PrimaryKey.new (FileSpec.ino c)), n'. by rewrite Hz.
    + destruct (L !! (p ++ [name])) as [[k' n']|] eqn:E; [|done].
      destruct (proj1 (Hcs k')) as (c & Hcin & Hcn & _); [by exists n'|]. by destruct (He c Hcin).
  - exists dao, (row_created (snd dao)), (row_updated (snd dao)). split; [|done]. rewrite Hspec.
    unfold as_file_spec. rewrite Hx. cbn [node_inode] in *. destruct Hc as [(_ & _ & Hh) _].
    pose proof (ho_node _ _ Hh _ _ _ Hp) as (_ & -> & _). done.
Qed.

(** *** Looking up *)

Lemma lookup_ok L st p k i req name : calm L st → L !! p = Some (k, NodeDir i) → name ≠ "." → name ≠ ".." →
  ∃ r st', Accessor.lookup acc order req (PrimaryKey.as_u64 k) name st = (Ok r, st') ∧ calm L st' ∧ ticked st'
    ∧ match L !! (p ++ [name]) with
      | Some (k', _) => ∃ a, r = Some a ∧ at_ino a = PrimaryKey.as_u64 k'
      | None => r = None
      end.
Proof.
  intros Hc Hp Hdot Hdots. destruct (tick_ok L st Hc) as (st1 & E1 & Hc1 & Ht1).
  destruct (create_ro_ok L st1 p k _ req Hc1 Hp) as (h & b' & E2 & Hg & Hs).
  pose proof (node_kind_dir _ _ _ _ _ (proj1 Hc) Hp) as Hk.
  unfold Accessor.lookup. rewrite (st_bind_Ok _ _ _ _ _ E1), (st_bind_Ok _ _ _ _ _ E2).
  destruct Hs as (_ & _ & _ & Hat & Hent). rewrite Hat, decide_True by (by apply Hk).
  eexists _, _. split; [reflexivity|]. split; [by apply calm_store; [|apply Hc1]|]. split; [done|].
  specialize (Hent name Hdot Hdots). destruct (Accessor.entry_named name h) as [e|]; cbn.
  - destruct Hent as (k' & n' & -> & Hi). by exists (ent_attr e).
  - by rewrite Hent.
Qed.

Lemma lookup_in_file L st p k n c req name : calm L st → L !! p = Some (k, n) → content n = Some c →
  ∃ st', Accessor.lookup acc order req (PrimaryKey.as_u64 k) name st = (Err NotDirectory, st')
    ∧ calm L st' ∧ ticked st'.
Proof.
  intros Hc Hp Hn. destruct (tick_ok L st Hc) as (st1 & E1 & Hc1 & Ht1).
  destruct (create_ro_ok L st1 p k _ req Hc1 Hp) as (h & b' & E2 & Hg & Hs).
  pose proof (node_kind_dir _ _ _ _ _ (proj1 Hc) Hp) as Hk.
  unfold Accessor.lookup. rewrite (st_bind_Ok _ _ _ _ _ E1), (st_bind_Ok _ _ _ _ _ E2).
  destruct Hs as (_ & _ & _ & Hat & _). rewrite Hat, decide_False by (rewrite Hk, Hn; done).
  eexists. split; [reflexivity|]. split; [by apply calm_store; [|apply Hc1]|]. done.
Qed.

Lemma getattr_ok L st p k n req : calm L st → L !! p = Some (k, n) →
  ∃ a st', Accessor.getattr acc order req (PrimaryKey.as_u64 k) None st = (Ok a, st') ∧ calm L st' ∧ ticked st'
    ∧ at_ino a = PrimaryKey.as_u64 k.
Proof.
  intros Hc Hp. destruct (tick_ok L st Hc) as (st1 & E1 & Hc1 & Ht1).
  destruct (load_ok L st1 p k n Hc1 Hp) as (dao & b' & E2 & Hk & Hx & Hg).
  unfold Accessor.getattr. rewrite (st_bind_Ok _ _ _ _ _ E1). unfold st_mk at 1. cbn [mbind option_bind].
  rewrite (st_bind_Ok _ _ _ _ _ E2). eexists _, _. split; [reflexivity|].
  split; [by apply calm_store; [|apply Hc1]|]. split; [done|].
  rewrite <- Hk. pose proof (spec_ino (T := T) dao (row_created (snd dao)) (row_updated (snd dao))) as Hi.
  destruct (fa_impersonate_uid acc); exact Hi.
Qed.

(** *** Walking *)

(** What a path is, when nothing is below a file. *)
Fixpoint resolve (m : gmap Path (option bytes)) p (comps : list string) : result FileSystemErrorKind (option (option bytes)) :=
  match m !! p with
  | None => Ok None
  | Some e =>
      match comps, e with
      | [], _ => Ok (Some e)
      | comp :: comps, None => resolve m (p ++ [comp]) comps
      | _ :: _, Some _ => Err NotDirectory
      end
  end.

Definition plain_name (name : string) : Prop := name ≠ "." ∧ name ≠ "..".

Lemma view_lookup L p : view L !! p = (λ e, content (snd e)) <$> L !! p.
Proof. apply lookup_fmap. Qed.

Lemma walk_ok comps : ∀ L st p k n req a, calm L st → L !! p = Some (k, n) → at_ino a = PrimaryKey.as_u64 k →
  Forall plain_name comps → ticked st →
  ∃ r st', Accessor.walk acc order req a comps st = (r, st') ∧ calm L st' ∧ ticked st'
    ∧ match resolve (view L) p comps with
      | Ok (Some e) => ∃ a' k' n', r = Ok (Some a') ∧ L !! (p ++ comps) = Some (k', n') ∧ content n' = e
          ∧ at_ino a' = PrimaryKey.as_u64 k'
      | Ok None => r = Ok None
      | Err e => r = Err e
      end.
Proof.
  induction comps as [|comp comps IH]; intros L st p k n req a Hc Hp Ha Hall Ht; cbn [resolve Accessor.walk];
    rewrite view_lookup, Hp; cbn [fmap option_fmap option_map snd].
  - eexists _, st. split; [done|]. split; [done|]. split; [done|]. exists a, k, n. by rewrite app_nil_r.
  - apply Forall_cons in Hall as [[Hdot Hdots] Hall]. rewrite Ha. destruct n as [i|i c bks pgs]; cbn [content].
    + destruct (lookup_ok L st p k i req comp Hc Hp Hdot Hdots) as (r & st1 & E1 & Hc1 & Ht1 & Hr).
      rewrite (st_bind_Ok _ _ _ _ _ E1). destruct (L !! (p ++ [comp])) as [[k' n']|] eqn:E.
      * destruct Hr as (a' & -> & Ha'). rewrite (cons_middle comp p comps), (app_assoc p [comp] comps). by apply (IH L st1 (p ++ [comp]) k' n').
      * rewrite Hr. eexists _, st1. split; [done|]. split; [done|]. split; [done|].
        destruct comps; cbn; by rewrite view_lookup, E.
    + destruct (lookup_in_file L st p k (NodeFile i c bks pgs) c req comp Hc Hp eq_refl) as (st1 & E1 & Hc1 & Ht1).
      eexists _, st1. split; [|done]. unfold mbind, st_bind. by rewrite E1.
Qed.

Lemma search_ok L st req path : calm L st → Forall plain_name (components path) →
  ∃ r st', Accessor.search acc order req path st = (r, st') ∧ calm L st' ∧ ticked st'
    ∧ match resolve (view L) [] (components path) with
      | Ok (Some e) => ∃ a' k' n', r = Ok (Some a') ∧ L !! components path = Some (k', n') ∧ content n' = e
          ∧ at_ino a' = PrimaryKey.as_u64 k'
      | Ok None => r = Ok None
      | Err e => r = Err e
      end.
Proof.
  intros Hc Hall. destruct Hc as [Hg Hi] eqn:Hc'. destruct (ho_root _ _ (proj2 (proj2 Hg))) as [i Hroot].
  destruct (getattr_ok L st [] root_key _ req Hc Hroot) as (a & st1 & E1 & Hc1 & Ht1 & Ha).
  assert (Accessor.root acc order req st = (Ok (Some a), st1)) as E2.
  { unfold Accessor.root, st_try. change 1 with (PrimaryKey.as_u64 root_key). by rewrite E1. }
  unfold Accessor.search. rewrite (st_bind_Ok _ _ _ _ _ E2).
  by apply (walk_ok (components path) L st1 [] root_key (NodeDir i)).
Qed.
End ops.
