(* ===== verification/AccessorMake.v ===== *)
(** * Making directories and files

    [mkdir] and [mknod]: in one transaction the directory is loaded, a new inode is put into its
    collection and given its authorisation; the layout has one more entry. *)

From S2P Require Import Prelude LogApi Crypto Codec Secure Meta Time Event Index Signature Tree Session Compact Plugins LogFile MemDb RedoLog Chain ChainSpec Pipe Dio Trans TransSpec FileModel RegFile RegFileSpec RegFileBytes FileSpec Accessor Layout AccessorSpec.

Section make.
Context `{CryptoPrims} {B T : Type} `{HT : Trans B T} {HTS : TreeSpec B T}.
Context `{HDI : DataSerializer Inode} {HTI : TotalData Inode}.
Context `{HDB : DataSerializer PageBundle} `{HDP : DataSerializer Page}.
Context `{HDS : DataSerializer string} {HKT : KeyText}.
Variable acc : FileAccessor.
Variable rnd_bytes : Z → bytes.
Implicit Types (b : B) (s : B * T) (k : PrimaryKey) (L : Layout) (p : Path) (n : Node).

(** A record that is written back as it was loaded. *)
Lemma holds_saved s s' L p k n d : holds s L → L !! p = Some (k, n) → dao_of k (node_inode n) d → tt_placed s d →
  tt_sees Inode s' k (node_inode n) → tt_others s s' k → tt_placed s' d ∨ (∀ c, tt_child s c k ↔ tt_child s' c k) →
  holds s' L ∧ tt_placed s' d.
Proof.
  intros Hh Hp (Hk & _) Hpl Hs Ho Hor.
  assert (∀ c, tt_child s c k ↔ tt_child s' c k) as Hc.
  { destruct Hor as [Hpl'|]; [|done]. intros c. rewrite <- Hk, (Hpl c). symmetry. apply Hpl'. }
  split; [by eapply holds_resave|]. intros c. rewrite Hk, <- (Hc c), <- Hk. apply Hpl.
Qed.

(** The new inode, as the layout has it. *)
Definition fresh_node (i : Inode) (n : Node) : Prop :=
  node_inode n = i ∧ node_keys n = [] ∧ ∀ s k, tt_sees Inode s k i → node_ok s k n.

Lemma fresh_dir i : in_kind i = FileModel.Directory → fresh_node i (NodeDir i).
Proof. by intros. Qed.

Lemma fresh_file i : in_kind i = FileModel.RegularFile → in_bundles i = [] → in_size i = 0 →
  fresh_node i (NodeFile i [] [] []).
Proof.
  intros Hk Hb Hz. split; [done|]. split; [done|]. intros s k Hs. split; [|split; [done|]; split; [by rewrite Hz|]].
  - constructor; try done; [apply NoDup_singleton|by rewrite Hb].
  - exists []. split; [apply paged_nil|done].
Qed.

Lemma push_child_ok s L p k i name d ci n : tt_ready s → holds s L → L !! p = Some (k, NodeDir i) →
  L !! (p ++ [name]) = None → dao_of k i d → tt_placed s d →
  fresh_node ci n → de_name (in_dentry ci) = name → plain_name name →
  ∃ child s', Accessor.push_child d ci s = (Ok child, s') ∧ dao_of (DaoMut.key child) ci child
    ∧ tt_placed s' child ∧ tt_ready s' ∧ ma_read (rwh_auth (dao_header child)) = ReadInherit
    ∧ holds s' (<[p ++ [name] := (DaoMut.key child, n)]> L).
Proof.
  intros Hr Hh Hp Hnone Hd Hpl (Hni & Hnk & Hn) Hname [Hdot Hdots].
  pose proof (node_seen _ _ _ (ho_node _ _ Hh _ _ _ Hp)) as Hsee. cbn in Hsee.
  destruct (tt_as_mut Inode s k i d Hr Hd Hsee) as (Hr1 & Hs1 & Ho1 & Hp1).
  set (s1 := tr_as_mut d s) in *.
  destruct (holds_saved s s1 L p k (NodeDir i) d Hh Hp Hd Hpl Hs1 Ho1) as [Hh1 Hpl1]; [by destruct Hp1; auto|].
  destruct (tt_store Inode s1 ci Hr1) as (c0 & s2 & E2 & Hd2 & Hr2 & Hpar & Hauth & Hnew & Hnc & Hempty & Hs2 & Ho2 & Hpl2).
  set (kn := DaoMut.key c0) in *.
  assert (∀ q kq nq, L !! q = Some (kq, nq) → kn ∉ kq :: node_keys nq) as Hfresh.
  { intros q kq nq Hq Hin. destruct (node_key_seen s1 kq nq kn) as (D & HD & x & Hx); [by eapply ho_node|done|].
    by apply (Hnew D HD x). }
  assert (∀ c, ¬ tt_child s2 c kn) as Hnc2 by (intros c Hc%Hpl2; rewrite Hpar in Hc; done).
  pose proof (holds_beside s1 s2 L kn Hh1 Hfresh Ho2 Hnc Hnc2) as Hh2.
  assert (k ≠ kn) as Hne by (intros ->; apply (Hfresh _ _ _ Hp); by left).
  set (child := DaoMut.with_header c0 {| rwh_key := rwh_key (dao_header c0);
    rwh_parent := in_collection (collection k (in_children i)); rwh_auth := rwh_auth (dao_header c0) |}).
  assert (dao_of kn ci child) as Hdc by (destruct Hd2 as (? & ? & ? & ?); done).
  destruct (tt_save_header Inode s2 kn ci child Hr2 Hdc Hs2) as (s3 & E3 & Hr3 & Hs3 & Ho3 & Hpl3).
  assert (∀ c, tt_child s3 c kn ↔ c = collection k (in_children i)) as Hck.
  { intros c. etrans; [exact (Hpl3 c)|]. cbn. split; [by intros [= ->]|by intros ->]. }
  assert (holds s3 (<[p ++ [name] := (kn, n)]> L)) as Hh3.
  { apply (holds_add s2 s3 L p k i name kn n); try done; [by apply Hn| |by rewrite Hni].
    intros id k' Hch. destruct (decide (k' = kn)) as [->|Hk'].
    - apply Hck in Hch. injection Hch as He _. by symmetry in He.
    - by apply (proj2 Ho3 _ _ Hk'), (proj2 Ho2 _ _ Hk'), Hempty in Hch. }
  assert (<[p ++ [name] := (kn, n)]> L !! p = Some (k, NodeDir i)) as Hp'.
  { rewrite lookup_insert_ne; [done|]. intros He%(f_equal length). rewrite length_app in He. cbn in He. lia. }
  assert (tt_placed s3 d) as Hpl3d.
  { rewrite <- (proj1 Hd) in Hne. eapply placed_others; [eapply placed_others; [exact Hpl1|exact Ho2|done]|exact Ho3|done]. }
  destruct (tt_save Inode s3 k i i false d Hr3 Hd) as (s4 & E4 & Hr4 & Hs4 & Ho4 & Hpl4).
  { exact (node_seen _ _ _ (ho_node _ _ Hh3 _ _ _ Hp')). }
  destruct (holds_saved s3 s4 _ p k (NodeDir i) d Hh3 Hp' Hd Hpl3d Hs4 Ho4) as [Hh4 _]; [by left|].
  exists child, s4. split.
  { unfold Accessor.push_child, Accessor.under_mut_guard, st_mk. fold s1.
    assert (DaoVec.push (DaoMut.key d) (in_children (Accessor.inode_in d)) ci s1 = (Ok child, s3)) as E.
    { unfold DaoVec.push, DaoVec.push_with_key. rewrite (st_bind_Ok _ _ _ _ _ E2).
      unfold tr_attach_ext, tr_set_parent. destruct Hd as (-> & _ & _ & Hdx). unfold Accessor.inode_in. rewrite Hdx.
      by rewrite (st_bind_Ok _ _ _ _ _ E3). }
    rewrite (st_map_err_run _ _ _ _ _ E). by rewrite E4. }
  split; [done|]. split; [by eapply placed_others|]. by split.
Qed.

(** ** Steps of the transaction *)

(** A transaction that has the layout. *)
Definition at_work L s : Prop := tt_ready s ∧ holds s L.

Lemma work_same L s s' : tt_ready s' → tt_same s s' → at_work L s → at_work L s'.
Proof. intros Hr Hs [_ Hh]. split; [done|]. by eapply holds_same. Qed.

Lemma placed_same {D} s s' (d : DaoMut D) : tt_same s s' → tt_placed s d → tt_placed s' d.
Proof. intros [_ Hc] Hp c. rewrite <- (Hc c). apply Hp. Qed.

Lemma draw_in_ok {A} L s (f : Z → st (B * T) FileSystemErrorKind A) : at_work L s →
  ∃ z s', Accessor.draw_in f s = f z s' ∧ at_work L s' ∧ tt_same s s'.
Proof.
  destruct s as [b t]. intros [Hr Hh]. destruct (tt_random b t Hr) as (Hr' & Hs & _).
  exists (tr_random b).1, ((tr_random b).2, t). split; [|by split; [eapply work_same|]].
  unfold Accessor.draw_in, st_mk. by destruct (tr_random b).
Qed.

Lemma load_in_ok L s p k n : at_work L s → L !! p = Some (k, n) →
  ∃ d s', Accessor.load_in (PrimaryKey.as_u64 k) s = (Ok d, s') ∧ dao_of k (node_inode n) d ∧ tt_placed s' d
    ∧ at_work L s' ∧ (tt_durable s → tt_durable s').
Proof.
  intros [Hr Hh] Hp.
  destruct (tt_load Inode s k (node_inode n) Hr) as (d & s' & E & Hd & Hpl & Hr' & Hs & Hdu).
  { by eapply node_seen, ho_node. }
  exists d, s'. split; [unfold Accessor.load_in; rewrite key_back; by rewrite (st_map_err_run _ _ _ _ _ E)|].
  split; [done|]. split; [by eapply placed_same|]. split; [by eapply work_same|done].
Qed.

(** The authorisation of a new record can be made. *)
Definition may_make (mode uid gid : Z) : Prop :=
  ∀ r1 r2 r3, ∃ read write, update_read acc r1 r2 r3 mode uid gid ReadInherit = Ok read
    ∧ update_write acc mode uid gid = Ok write.

Lemma updwasmer_auth_ok L s q k n d mode uid gid : at_work L s → L !! q = Some (k, n) →
  dao_of k (node_inode n) d → tt_placed s d → ma_read (rwh_auth (dao_header d)) = ReadInherit → may_make mode uid gid →
  ∃ d' s', Accessor.updwasmer_auth acc rnd_bytes mode uid gid d s = (Ok d', s') ∧ dao_of k (node_inode n) d'
    ∧ at_work L s'.
Proof.
  intros Hw Hq Hd Hpl Ha Hm. unfold Accessor.updwasmer_auth.
  match goal with |- context [Accessor.draw_in ?f] => destruct (draw_in_ok L s f Hw) as (z1 & s1 & -> & Hw1 & Hs1) end.
  match goal with |- context [Accessor.draw_in ?f] => destruct (draw_in_ok L s1 f Hw1) as (z2 & s2 & -> & Hw2 & Hs2) end.
  match goal with |- context [Accessor.draw_in ?f] => destruct (draw_in_ok L s2 f Hw2) as (z3 & s3 & -> & Hw3 & Hs3) end.
  destruct (Hm (rnd_bytes z1) (rnd_bytes z2) (rnd_bytes z3)) as (read & write & Hread & Hwrite).
  cbv zeta. rewrite Ha, Hread, Hwrite. destruct Hw3 as [Hr3 Hh3].
  assert (tt_placed s3 d) as Hpl3.
  { eapply placed_same; [exact Hs3|]. eapply placed_same; [exact Hs2|]. by eapply placed_same. }
  set (d' := DaoMut.with_header d {| rwh_key := rwh_key (dao_header d); rwh_parent := rwh_parent (dao_header d);
    rwh_auth := {| ma_read := read; ma_write := write |} |}).
  assert (dao_of k (node_inode n) d') as Hd' by (by destruct Hd as (? & ? & ? & ?)).
  destruct (tt_save_header Inode s3 k (node_inode n) d' Hr3 Hd') as (s4 & E4 & Hr4 & Hs4 & Ho4 & Hpl4).
  { by eapply node_seen, ho_node. }
  destruct (holds_saved s3 s4 L q k n d' Hh3 Hq Hd') as [Hh4 _]; [exact Hpl3|done|done|by left|].
  exists d', s4. split; [|by split].
  assert (tr_auth_set {| ma_read := read; ma_write := write |} d s3 = (Ok d', s4)) as E.
  { unfold tr_auth_set. fold d'. by rewrite (st_bind_Ok _ _ _ _ _ E4). }
  exact (st_map_err_run _ _ _ _ _ E).
Qed.

(** A new inode in a directory. *)
Lemma make_ok L s p k i name d mode uid gid kind (node : Inode → Node) : at_work L s → L !! p = Some (k, NodeDir i) →
  L !! (p ++ [name]) = None → dao_of k i d → tt_placed s d → plain_name name → may_make mode uid gid →
  (∀ z1 z2, fresh_node (Inode.new z1 z2 name mode uid gid kind) (node (Inode.new z1 z2 name mode uid gid kind))) →
  ∃ child s' z1 z2, let ci := Inode.new z1 z2 name mode uid gid kind in
    Accessor.new_inode name mode uid gid kind (λ ci,
      child ← Accessor.push_child d ci; Accessor.updwasmer_auth acc rnd_bytes mode uid gid child) s = (Ok child, s')
    ∧ dao_of (DaoMut.key child) ci child ∧ at_work (<[p ++ [name] := (DaoMut.key child, node ci)]> L) s'.
Proof.
  intros Hw Hp Hnone Hd Hpl Hname Hm Hnode. unfold Accessor.new_inode.
  match goal with |- context [Accessor.draw_in ?f] => destruct (draw_in_ok L s f Hw) as (z1 & s1 & -> & Hw1 & Hs1) end.
  match goal with |- context [Accessor.draw_in ?f] => destruct (draw_in_ok L s1 f Hw1) as (z2 & s2 & -> & Hw2 & Hs2) end.
  set (ci := Inode.new z1 z2 name mode uid gid kind). destruct Hw2 as [Hr2 Hh2].
  destruct (push_child_ok s2 L p k i name d ci (node ci)) as (child & s3 & E3 & Hdc & Hpl3 & Hr3 & Ha3 & Hh3); try done.
  { eapply placed_same; [exact Hs2|]. by eapply placed_same. }
  { apply Hnode. }
  assert (node_inode (node ci) = ci) as Hni by apply Hnode. rewrite <- Hni in Hdc.
  destruct (updwasmer_auth_ok _ s3 _ _ _ child mode uid gid (conj Hr3 Hh3) (lookup_insert_eq _ _ _) Hdc Hpl3 Ha3 Hm)
    as (child' & s4 & E4 & Hdc' & Hw4).
  exists child', s4, z1, z2. fold ci. cbv zeta. rewrite (proj1 Hdc'). rewrite Hni in Hdc'.
  split; [by rewrite (st_bind_Ok _ _ _ _ _ E3)|]. by split.
Qed.

(** The names of a directory, within a transaction. *)
Lemma children_in_ok L s p k i d : at_work L s → L !! p = Some (k, NodeDir i) → dao_of k i d →
  ∃ cs s', Accessor.children_in d s = (Ok cs, s') ∧ at_work L s' ∧ tt_same s s'
    ∧ ∀ name, L !! (p ++ [name]) = None → existsb (λ c, Accessor.named name (Accessor.inode_in c)) cs = false.
Proof.
  intros [Hr Hh] Hp (Hk & _ & _ & Hx).
  destruct (tt_children Inode s k (in_children i) false false Hr) as (cs & s' & E & Hr' & Hs & Hks & Hcs & _).
  { by eapply children_seen. }
  exists cs, s'. split; [|split; [by eapply work_same|split; [done|]]].
  - unfold Accessor.children_in, DaoVec.iter_mut_ext, Accessor.inode_in. rewrite Hk, Hx.
    by rewrite (st_map_err_run _ _ _ _ _ E).
  - intros name Hnone. apply not_true_iff_false. rewrite existsb_exists. intros (c & Hc & Hn%bool_decide_eq_true).
    apply list_elem_of_In in Hc. destruct (Hcs c Hc) as (_ & _ & Hsee).
    assert (DaoMut.key c ∈ map DaoMut.key cs) as Hin by (apply list_elem_of_fmap; by exists c).
    apply Hks, (ho_child _ _ Hh p k i Hp) in Hin as (name' & n & Hl).
    pose proof (tt_sees_one _ _ _ _ _ Hsee (node_seen _ _ _ (ho_node _ _ Hh _ _ _ Hl))) as He.
    unfold Accessor.inode_in in Hn. rewrite He, (proj1 (ho_name _ _ Hh _ _ _ _ Hl)) in Hn. congruence.
Qed.

Lemma new_inode_bind {A A'} name mode uid gid kind (f : Inode → st (B * T) FileSystemErrorKind A)
    (g : A → st (B * T) FileSystemErrorKind A') s :
  Accessor.new_inode name mode uid gid kind (λ c, x ← f c; g x) s
  = (x ← Accessor.new_inode name mode uid gid kind f; g x) s.
Proof.
  destruct s as [b t]. unfold Accessor.new_inode, Accessor.draw_in, st_mk, mbind, st_bind.
  destruct (tr_random b) as [z1 b1]. by destruct (tr_random b1) as [z2 b2].
Qed.

Lemma new_inode_ext {A} name mode uid gid kind (f g : Inode → st (B * T) FileSystemErrorKind A) s :
  (∀ c s, f c s = g c s) → Accessor.new_inode name mode uid gid kind f s = Accessor.new_inode name mode uid gid kind g s.
Proof.
  destruct s as [b t]. intros Hfg. unfold Accessor.new_inode, Accessor.draw_in, st_mk.
  destruct (tr_random b) as [z1 b1]. by destruct (tr_random b1) as [z2 b2].
Qed.

Lemma commit_work L s : at_work L s →
  ∃ s', st_map_err FileSystemErrorKind.from_commit tr_commit s = (Ok (), s') ∧ at_work L s' ∧ good L (fst s').
Proof.
  intros [Hr Hh]. destruct (tt_commit s Hr) as (s' & E & Hr' & Hs & Hd). pose proof (holds_same _ _ _ Hs Hh) as Hh'.
  exists s'. split; [by rewrite (st_map_err_run _ _ _ _ _ E)|]. split; [done|]. by apply good_after.
Qed.

Lemma child_ino d req : at_ino (spec_as_attr_reverse acc (Accessor.spec_of (T := T) (Accessor.into d)) req)
  = PrimaryKey.as_u64 (DaoMut.key d).
Proof. exact (spec_ino (T := T) (Accessor.into d) _ _). Qed.

(** ** The operations *)

Variable order : gset Z → list Z.
Hypothesis order_elements : ∀ X, order X ≡ₚ elements X.

Lemma begin_trans_ok {A} L scope (f : st (B * T) FileSystemErrorKind A) st : calm L st →
  at_work L (fs_store st, tr_begin scope) ∧ tt_durable (fs_store st, tr_begin scope)
  ∧ ∀ x s', f (fs_store st, tr_begin scope) = (Ok x, s') →
      Accessor.begin_trans scope f st = (Ok (x, snd s'), Accessor.with_store st (fst s')).
Proof.
  intros [Hg _]. destruct (good_begin L _ scope Hg) as (Hr & Hd & Hh). split; [done|]. split; [done|].
  intros x [b' t'] E. unfold Accessor.begin_trans, st_mk. by rewrite E.
Qed.

Lemma mkdir_ok L st p k i name mode req : calm L st → L !! p = Some (k, NodeDir i) → L !! (p ++ [name]) = None →
  plain_name name → may_make mode (translate_uid acc (rq_uid req) req) (translate_gid acc (rq_gid req) req) →
  ∃ a st' k' i', Accessor.mkdir acc rnd_bytes order req (PrimaryKey.as_u64 k) name mode st = (Ok a, st')
    ∧ calm (<[p ++ [name] := (k', NodeDir i')]> L) st' ∧ ticked st' ∧ at_ino a = PrimaryKey.as_u64 k'.
Proof.
  intros Hc Hp Hnone Hname Hm. destruct (tick_ok order order_elements L st Hc) as (st1 & E1 & Hc1 & Ht1).
  unfold Accessor.mkdir. rewrite (st_bind_Ok _ _ _ _ _ E1).
  match goal with |- context [Accessor.begin_trans _ ?f] =>
    destruct (begin_trans_ok L (fa_scope_meta acc) f st1 Hc1) as (Hw & _ & Hbegin) end.
  destruct (load_in_ok L _ p k (NodeDir i) Hw Hp) as (d & s1 & E2 & Hd & Hpl & Hw1 & _).
  destruct (make_ok L s1 p k i name d mode _ _ FileModel.Directory NodeDir Hw1 Hp Hnone Hd Hpl Hname Hm)
    as (child & s2 & z1 & z2 & E3 & Hdc & Hw2); [by intros; apply fresh_dir|].
  destruct (commit_work _ _ Hw2) as (s3 & E4 & _ & Hg).
  erewrite st_bind_Ok; [|apply (Hbegin child s3)].
  - eexists _, _, _, _. split; [reflexivity|]. split; [by apply calm_store; [exact Hg|apply Hc1]|]. split; [done|].
    apply child_ino.
  - rewrite (st_bind_Ok _ _ _ _ _ E2). pose proof (node_kind_dir _ _ _ _ _ (proj1 Hc) Hp) as Hk.
    rewrite decide_True by (unfold Accessor.inode_in; destruct Hd as (_ & _ & _ & ->); by apply Hk).
    cbv zeta. erewrite new_inode_ext; [|intros c s; apply bind_assoc].
    rewrite new_inode_bind, (st_bind_Ok _ _ _ _ _ E3). by rewrite (st_bind_Ok _ _ _ _ _ E4).
Qed.

Lemma mknod_ok L st p k i name mode req : calm L st → L !! p = Some (k, NodeDir i) → L !! (p ++ [name]) = None →
  plain_name name → may_make mode (translate_uid acc (rq_uid req) req) (translate_gid acc (rq_gid req) req) →
  ∃ a st' k' i', Accessor.mknod acc rnd_bytes order req (PrimaryKey.as_u64 k) name mode st = (Ok a, st')
    ∧ calm (<[p ++ [name] := (k', NodeFile i' [] [] [])]> L) st' ∧ ticked st' ∧ at_ino a = PrimaryKey.as_u64 k'.
Proof.
  intros Hc Hp Hnone Hname Hm. destruct (tick_ok order order_elements L st Hc) as (st1 & E1 & Hc1 & Ht1).
  unfold Accessor.mknod. rewrite (st_bind_Ok _ _ _ _ _ E1). unfold Accessor.mknod_internal.
  match goal with |- context [Accessor.begin_trans _ ?f] =>
    destruct (begin_trans_ok L (fa_scope_meta acc) f st1 Hc1) as (Hw & _ & Hbegin) end.
  destruct (load_in_ok L _ p k (NodeDir i) Hw Hp) as (d & s1 & E2 & Hd & Hpl & Hw1 & _).
  destruct (children_in_ok L s1 p k i d Hw1 Hp Hd) as (cs & s1' & E2' & Hw1' & Hs1 & Hcs).
  destruct (make_ok L s1' p k i name d mode _ _ FileModel.RegularFile (λ i, NodeFile i [] [] []) Hw1' Hp Hnone Hd
    (placed_same _ _ _ Hs1 Hpl) Hname Hm) as (child & s2 & z1 & z2 & E3 & Hdc & Hw2); [by intros; apply fresh_file|].
  destruct (commit_work _ _ Hw2) as ([b3 t3] & E4 & _ & Hg).
  erewrite st_bind_Ok; [|apply (Hbegin child s2)].
  - unfold Accessor.commit_trans, Accessor.go_on. erewrite st_bind_Ok; [|erewrite st_bind_Ok; [done|]].
    2: { unfold st_mk. cbn [fst snd fs_store Accessor.with_store]. rewrite <- (surjective_pairing s2), E4. reflexivity. }
    eexists _, _, _, _. split; [reflexivity|]. split; [by apply calm_store; [exact Hg|apply Hc1]|]. split; [done|].
    apply child_ino.
  - rewrite (st_bind_Ok _ _ _ _ _ E2). pose proof (node_kind_dir _ _ _ _ _ (proj1 Hc) Hp) as Hk.
    rewrite decide_True by (unfold Accessor.inode_in; destruct Hd as (_ & _ & _ & ->); by apply Hk).
    rewrite (st_bind_Ok _ _ _ _ _ E2'), (Hcs name Hnone). exact E3.
Qed.
End make.
