(* ===== verification/AccessorWrite.v ===== *)
(** * Writing a file through a handle

    From opening a regular file for writing to syncing it, the handle works in a transaction of
    its own on the records of the file, and the rest of the layout stays as it is. *)

From S2P Require Import Prelude LogApi Crypto Codec Secure Meta Time Event Index Signature Tree Session Compact Plugins LogFile MemDb RedoLog Chain ChainSpec Pipe Dio Trans TransSpec FileModel RegFile RegFileSpec RegFileBytes FileSpec Accessor Layout AccessorSpec AccessorMake.

(** ** The records of one file *)

Section one_file.
Context {B T : Type} `{HT : Trans B T} {HTS : TreeSpec B T}.
Context `{HDI : DataSerializer Inode} {HTI : TotalData Inode}.
Context `{HDB : DataSerializer PageBundle} {HTB : TotalData PageBundle}.
Context `{HDP : DataSerializer Page} {HTP : TotalData Page}.
Variables (s0 : B * T) (L : Layout) (p : Path) (k : PrimaryKey) (i : Inode) (c0 : bytes).
Variables (bks : list PrimaryKey) (pgs : list (PrimaryKey * bytes)).
Hypothesis Hh : holds s0 L.
Hypothesis Hp : L !! p = Some (k, NodeFile i c0 bks pgs).
Implicit Types (s : B * T) (b : B) (t : T).

Lemma guarded_elsewhere c : guarded L c → elsewhere L p (mc_parent_id c).
Proof.
  intros (q & kq & iq & Hq & ->). exists q, kq, (NodeDir iq). split; [|split; [done|by left]].
  intros ->. rewrite Hp in Hq. done.
Qed.

(** What a client that has the file only must keep. *)
Definition file_spec : TransSpec B T :=
  framed s0 (elsewhere L p) (guarded L) k guarded_elsewhere (λ k' H, elsewhere_seen s0 L p k' Hh H).

#[local] Existing Instance file_spec.

Lemma intact_refl : intact s0 (elsewhere L p) (guarded L) s0.
Proof. by split. Qed.

Lemma file_ready s : tt_ready s → tt_same s0 s → ts_ready s.
Proof. intros Hr Hs. split; [done|]. eapply intact_same; [apply intact_refl|done]. Qed.

Lemma file_durable s : tt_durable s → tt_same s0 s → ts_durable s.
Proof. intros Hr Hs. split; [done|]. eapply intact_same; [apply intact_refl|done]. Qed.

Lemma own_sees D `{HD : DataSerializer D} k' (x : D) : k' ∈ k :: bks ++ pgs.*1 → tt_sees D s0 k' x → ts_sees D s0 k' x.
Proof.
  intros Hk Hx. assert (¬ elsewhere L p k') as Ho by (by eapply ho_apart). split; [done|]. split; [done|].
  intros Hne c Hc Hch. destruct (child_guarded s0 L c k' Hh Hc Hch) as (q & n & Hq). apply Ho.
  exists q, k', n. split; [|split; [done|by left]]. intros ->. rewrite Hp in Hq. congruence.
Qed.

Lemma own_stored : stored_in s0 k i bks pgs.
Proof.
  destruct (ho_node _ _ Hh _ _ _ Hp) as [Hst _]. revert Hst. apply stored_mono.
  - intros k' x ->. apply own_sees. by left.
  - intros k' x Hk. apply own_sees. right. apply elem_of_app. by left.
  - intros k' x Hk. apply own_sees. right. apply elem_of_app. by right.
Qed.

Lemma own_dao d : dao_of k i d → tt_placed s0 d → ts_dao k i d.
Proof.
  intros Hd Hpl. split; [done|]. intros c Hc. rewrite <- (Hpl c), (proj1 Hd). naive_solver.
Qed.

Lemma own_open d created updated : tt_ready s0 → tt_durable s0 → dao_of k i d → tt_placed s0 d →
  file_at k (head i) (fst s0, RegularFile.new_mut (snd s0) d created updated) (c0, false).
Proof.
  intros Hr Hd Hdao Hpl. destruct (ho_node _ _ Hh _ _ _ Hp) as (_ & _ & Hsz & l & Hl & Hpre).
  pose proof (file_ready s0 Hr (tt_same_refl s0)) as Hr'. pose proof (file_durable s0 Hd (tt_same_refl s0)) as Hd'.
  pose proof own_stored as Hst. rewrite (surjective_pairing s0) in Hr', Hd', Hst.
  by apply (open_at (fst s0) (snd s0) k i bks pgs l c0 d created updated Hr' Hd' (own_dao d Hdao Hpl) Hst).
Qed.

(** A step beside the transaction. *)
Lemma own_moves h r a b b' : file_at k h (b, r) a →
  (∀ t, tt_ready (b, t) → tt_ready (b', t) ∧ tt_same (b, t) (b', t) ∧ (tt_durable (b, t) → tt_durable (b', t))) →
  file_at k h (b', r) a.
Proof.
  intros Hf Hm. eapply file_moves; [exact Hf|]. intros t [Hr Hi]. destruct (Hm t Hr) as (Hr' & Hs & Hd).
  pose proof (intact_same _ _ _ _ _ Hi Hs) as Hi'. split; [done|]. split.
  - intros D HD k' x. exact (fr_sees_same (elsewhere L p) (guarded L) k (b, t) (b', t) D k' x Hs).
  - intros [Hdu _]. split; [by apply Hd|done].
Qed.

(** A file that was committed is in the layout. *)
Lemma own_done b r c : file_at k (head i) (b, r) (c, false) →
  ∃ i' bks' pgs', good (<[p := (k, NodeFile i' c bks' pgs')]> L) b.
Proof.
  intros (f & l & _ & (_ & Hk & Hhead) & _ & [(bks' & pgs' & Hb & Hpg) Hpre] & Hsz & Hdf & Hdu).
  destruct (Hdu eq_refl) as [Hd Hi]. pose proof (body_stored _ _ _ _ Hb Hdf) as Hst. cbn in Hst, Hd, Hi. rewrite Hk in Hst.
  exists (inode_of f), bks', pgs'. apply (good_after _ (b, fm_trans f)); [done|].
  eapply holds_refile; [exact Hh|exact Hp|exact Hi| | |done].
  - split; [|split; [|split; [done|by exists l]]].
    + revert Hst. apply stored_mono; by intros k' x _ [Hx _].
    + destruct (ho_node _ _ Hh _ _ _ Hp) as (_ & Hkind & _). injection Hhead as _ ->. done.
  - intros k' [[j Hj]%list_elem_of_lookup|((kp & x) & -> & [q Hq]%list_elem_of_lookup)%list_elem_of_fmap]%elem_of_app.
    + destruct (st_pages _ _ _ _ _ _ _ Hst j k' Hj) as (x & [_ [Hx _]] & _). exact Hx.
    + by destruct (st_bufs _ _ _ _ _ _ _ Hst q kp x Hq) as [_ [Hx _]].
Qed.

(** Reading the file changes nothing. *)
Lemma own_read d created updated (o n : nat) : tt_ready s0 → tt_durable s0 → row_data (snd d) = i →
  ∃ b' r', RegularFile.read (Z.of_nat o) (Z.of_nat n) (fst s0, RegularFile.new d created updated : RegularFile T)
      = (Ok (take n (drop o c0)), (b', r'))
    ∧ tt_ready (b', snd s0) ∧ tt_durable (b', snd s0) ∧ holds (b', snd s0) L.
Proof.
  intros Hr Hd Hx. destruct (ho_node _ _ Hh _ _ _ Hp) as (_ & Hkind & Hsz & l & Hl & Hpre).
  pose proof (file_ready s0 Hr (tt_same_refl s0)) as Hr'. pose proof (file_durable s0 Hd (tt_same_refl s0)) as Hd'.
  pose proof (ts_same_refl s0) as Hs0. pose proof own_stored as Hst. rewrite (surjective_pairing s0) in Hr', Hd', Hst, Hs0.
  destruct (reader_read_ok _ (snd s0) k i bks pgs l c0 (fst s0) d created updated o n Hst Hl Hpre Hsz Hr' Hd' Hs0 Hx)
    as (b' & r' & E & [Hr2 Hi2] & [Hd2 _] & Hs2).
  exists b', r'. split; [done|]. split; [done|]. split; [done|].
  rewrite <- (insert_id _ _ _ Hp). eapply holds_refile; [exact Hh|exact Hp|exact Hi2| | |done].
  - split; [|split; [done|split; [done|by exists l]]]. pose proof (stored_same _ _ _ _ _ _ Hs2 Hst) as Hst2.
    revert Hst2. apply stored_mono; by intros k' x _ [Hx' _].
  - intros k' Hk. eapply ho_apart; [exact Hh|exact Hp|by right].
Qed.
End one_file.

(** ** The handle of the file *)

Section handle.
Context `{CryptoPrims} {B T : Type} `{HT : Trans B T} {HTS : TreeSpec B T}.
Context `{HDI : DataSerializer Inode} {HTI : TotalData Inode}.
Context `{HDB : DataSerializer PageBundle} {HTB : TotalData PageBundle}.
Context `{HDP : DataSerializer Page} {HTP : TotalData Page}.
Context `{HDS : DataSerializer string} {HKT : KeyText}.
Variable acc : FileAccessor.
Variable order : gset Z → list Z.
Hypothesis order_elements : ∀ X, order X ≡ₚ elements X.
Variables (s0 : B * T) (L : Layout) (p : Path) (k : PrimaryKey) (i : Inode) (c0 : bytes).
Variables (bks : list PrimaryKey) (pgs : list (PrimaryKey * bytes)).
Hypothesis Hh : holds s0 L.
Hypothesis Hp : L !! p = Some (k, NodeFile i c0 bks pgs).
Implicit Types (b : B) (st : FilesState B T) (a : bytes * bool).

#[local] Instance own : TransSpec B T := file_spec s0 L p k i c0 bks pgs Hh Hp.

(** The file is open under [fh] and is [a]; the other handles are at rest. *)
Definition writing st (fh : Z) a : Prop :=
  ticked st
  ∧ (∃ h r, fs_open_handles st !! fh = Some h ∧ oh_read_only h = false ∧ oh_spec h = SpecRegularFile r
       ∧ file_at k (head i) (fs_store st, r) a)
  ∧ ∀ fh' h', fh' ≠ fh → fs_open_handles st !! fh' = Some h' → oh_dirty h' = false.

Lemma on_spec_ok {A} (x : A) (f : st (B * RegularFile T) FileSystemErrorKind A) other st fh h a a' :
  writing st fh a → fs_open_handles st !! fh = Some h →
  (∀ r, file_at k (head i) (fs_store st, r) a →
     ∃ s', f (fs_store st, r) = (Ok x, s') ∧ file_at k (head i) s' a') →
  ∃ st', Accessor.on_spec fh h (FileSpec.on_regular other f) st = (Ok x, st') ∧ writing st' fh a'
    ∧ (idle st → idle st').
Proof.
  intros (Ht & (h0 & r & Hfh & Hro & Hspec & Hf) & Hoth) Hfh0 Hstep.
  rewrite Hfh in Hfh0. injection Hfh0 as <-. destruct (Hstep r Hf) as ([b' r'] & E & Hf').
  unfold Accessor.on_spec, FileSpec.on_regular, st_mk. rewrite Hspec, E, Hfh. eexists. split; [reflexivity|]. split.
  - split; [done|]. split.
    + eexists _, r'. split; [apply lookup_insert_eq|]. done.
    + intros fh' h' Hne. cbn. rewrite lookup_insert_ne by done. by apply Hoth.
  - intros Hi fh' h'. cbn. intros [[<- <-]|[Hne Hl]]%lookup_insert_Some; [exact (Hi _ _ Hfh)|exact (Hi _ _ Hl)].
Qed.

Lemma mark_dirty_ok st fh a : writing st fh a →
  ∃ st', Accessor.mark_dirty fh st = (Ok (), st') ∧ writing st' fh a.
Proof.
  intros (Ht & (h & r & Hfh & Hro & Hspec & Hf) & Hoth). eexists. split; [reflexivity|]. split; [done|]. split.
  - eexists _, r. cbn. rewrite lookup_alter_eq, Hfh. split; [reflexivity|]. done.
  - intros fh' h' Hne. cbn. rewrite lookup_alter_ne by done. by apply Hoth.
Qed.

Lemma fallocate_ok ino st fh a : writing st fh a → 0 < fh →
  ∃ st', Accessor.fallocate acc order ino fh 0 0 st = (Ok (), st') ∧ writing st' fh ([], true).
Proof.
  intros Hw Hpos. pose proof Hw as (Ht & (h & r & Hfh & Hro & Hspec & Hf) & Hoth).
  unfold Accessor.fallocate. rewrite (st_bind_Ok _ _ _ _ _ (tick_ticked order st Ht)). unfold st_mk at 1.
  rewrite decide_True, Hfh, Hro by done.
  erewrite st_bind_Ok; [|unfold st_mk; by change (Accessor.add_u64 0 0) with (Ok (E := FileSystemErrorKind) 0)].
  destruct a as [c dirty].
  destruct (on_spec_ok () (RegularFile.fallocate 0) (Ok ()) st fh h (c, dirty) ([], true) Hw Hfh) as (st1 & E1 & Hw1 & _).
  { intros r' Hf'. destruct (truncate_ok k (head i) _ c dirty 0 Hf') as (s' & E & Hf2); [lia|]. by exists s'. }
  rewrite (st_bind_Ok _ _ _ _ _ E1). by apply mark_dirty_ok.
Qed.

Lemma write_handle_ok st fh dirty data : writing st fh ([], dirty) → len data ≤ u64_max →
  ∃ st' d, Accessor.write order fh 0 data st = (Ok (len data), st') ∧ writing st' fh (data, d).
Proof.
  intros Hw Hmax. pose proof Hw as (Ht & (h & r & Hfh & Hro & Hspec & Hf) & Hoth).
  unfold Accessor.write. rewrite (st_bind_Ok _ _ _ _ _ (tick_ticked order st Ht)). unfold st_mk at 1. rewrite Hfh, Hro.
  destruct (on_spec_ok (len data) (RegularFile.write 0 data) (Ok 0) st fh h ([], dirty)
    (data, dirty || negb (bool_decide (data = []))) Hw Hfh) as (st1 & E1 & Hw1 & _).
  { intros r' Hf'. destruct (write_ok k (head i) _ [] dirty 0 data Hf') as (s' & E & Hf2); [lia|lia|].
    exists s'. split; [done|]. unfold overwrite in Hf2. by rewrite drop_nil, app_nil_r in Hf2. }
  rewrite (st_bind_Ok _ _ _ _ _ E1). destruct (mark_dirty_ok _ _ _ Hw1) as (st2 & E2 & Hw2).
  rewrite (st_bind_Ok _ _ _ _ _ E2). by eexists _, _.
Qed.

(** *** Committing *)

Lemma commit_handle_ok st fh h c dirty : writing st fh (c, dirty) → fs_open_handles st !! fh = Some h →
  ∃ st', Accessor.on_spec fh h FileSpec.commit st = (Ok (), st') ∧ writing st' fh (c, false) ∧ (idle st → idle st').
Proof.
  intros Hw Hfh. apply (on_spec_ok () _ _ _ _ _ (c, dirty)); [done|done|].
  intros r Hf. destruct (file_commit_ok k (head i) _ c dirty Hf) as (s' & E & Hf'). by exists s'.
Qed.

Lemma commit_internal_ok st fh c dirty : writing st fh (c, dirty) →
  ∃ st' d, Accessor.commit_internal order st = (Ok (), st') ∧ writing st' fh (c, d) ∧ idle st'.
Proof.
  intros (Ht & (h & r & Hfh & Hro & Hspec & Hf) & Hoth). unfold Accessor.commit_internal, st_mk.
  set (st1 := Accessor.with_handles st _).
  assert (idle st1) as Hi1 by (intros fh' h'; cbn; rewrite lookup_fmap; by intros (? & _ & ->)%fmap_Some).
  assert (fs_open_handles st1 !! fh = Some (OpenHandle.with_dirty h false)) as Hfh1 by (cbn; by rewrite lookup_fmap, Hfh).
  assert (writing st1 fh (c, dirty)) as Hw1.
  { split; [done|]. split; [by eexists _, r|]. intros fh' h' _ Hl. by apply (Hi1 fh'). }
  set (X := dom _). assert (X = ∅ ∨ X = {[fh]}) as HX.
  { assert (∀ x, x ∈ X → x = fh) as Hx.
    { intros x. unfold X. rewrite elem_of_dom. intros [h' [Hl Hd]%map_lookup_filter_Some].
      destruct (decide (x = fh)) as [|Hne]; [done|]. by rewrite (Hoth x h' Hne Hl) in Hd. }
    clear - Hx. destruct (decide (fh ∈ X)) as [Hin|Hout]; [right|left]; apply set_eq; set_solver. }
  destruct HX as [->| ->].
  - specialize (order_elements ∅). rewrite elements_empty in order_elements.
    apply Permutation_nil_r in order_elements as ->. by exists st1, dirty.
  - specialize (order_elements {[fh]}). rewrite elements_singleton in order_elements.
    apply Permutation_singleton_r in order_elements as ->. cbn [Accessor.commit_handles].
    destruct (commit_handle_ok st1 fh _ c dirty Hw1 Hfh1) as (st2 & E2 & Hw2 & Hi2).
    erewrite st_bind_Ok; [|unfold st_mk; rewrite Hfh1; exact E2]. eexists st2, false. split; [done|]. auto.
Qed.

Lemma chain_flush_ok L' st : calm L' st →
  ∃ st', Accessor.chain_flush st = (Ok (), st') ∧ calm L' st' ∧ (ticked st → ticked st').
Proof.
  intros [(Hr & Hd & Hh') Hi]. destruct (tt_flush _ _ Hr Hd) as (b' & E & Hr' & Hs & Hd').
  eexists. split; [by apply on_store_Ok|]. split; [|done]. apply calm_store; [|done]. split; [done|]. split; [done|].
  by eapply holds_same.
Qed.

Lemma chain_sync_ok L' st : calm L' st →
  ∃ st', Accessor.chain_sync st = (Ok (), st') ∧ calm L' st' ∧ (ticked st → ticked st').
Proof.
  intros [(Hr & Hd & Hh') Hi]. destruct (tt_sync _ _ Hr Hd) as (b' & E & Hr' & Hs & Hd').
  eexists. split; [by apply on_store_Ok|]. split; [|done]. apply calm_store; [|done]. split; [done|]. split; [done|].
  by eapply holds_same.
Qed.

Lemma sync_ok st fh c dirty : writing st fh (c, dirty) →
  ∃ st' i' bks' pgs', Accessor.sync order fh st = (Ok (), st')
    ∧ calm (<[p := (k, NodeFile i' c bks' pgs')]> L) st' ∧ ticked st'.
Proof.
  intros Hw. destruct (commit_internal_ok st fh c dirty Hw) as (st1 & d1 & E1 & Hw1 & Hi1).
  pose proof Hw1 as (Ht1 & (h & r & Hfh & _) & _).
  destruct (commit_handle_ok st1 fh h c d1 Hw1 Hfh) as (st2 & E2 & (Ht2 & (h2 & r2 & _ & _ & _ & Hf2) & _) & Hi2).
  destruct (own_done s0 L p k i c0 bks pgs Hh Hp _ _ _ Hf2) as (i' & bks' & pgs' & Hg).
  destruct (chain_flush_ok _ st2 (conj Hg (Hi2 Hi1))) as (st3 & E3 & Hc3 & Ht3).
  destruct (chain_sync_ok _ st3 Hc3) as (st4 & E4 & Hc4 & Ht4). exists st4, i', bks', pgs'. split; [|by auto].
  unfold Accessor.sync, Accessor.flush, Accessor.commit. erewrite st_bind_Ok; [exact E4|].
  rewrite (st_bind_Ok _ _ _ _ _ (tick_ticked order st (proj1 Hw))), (st_bind_Ok _ _ _ _ _ E1).
  erewrite st_bind_Ok; [exact E3|]. unfold st_mk. by rewrite Hfh.
Qed.
End handle.
