(* ===== verification/RepositorySpec.v ===== *)
(** * A repository is a tree of files

    files/src/repo.rs: [set_file] and [get_file] on the accessor of a chain behave as on a map
    from paths to directories and files.  *)

From S2P Require Import Prelude LogApi Crypto Codec Secure Meta Time Event Index Signature Tree Session Compact Plugins LogFile MemDb RedoLog Chain ChainSpec Pipe Dio Trans TransSpec FileModel RegFile RegFileSpec RegFileBytes FileSpec Accessor Layout AccessorSpec AccessorMake AccessorWrite.

(** ** The abstract file system *)

(** [None] is a directory. *)
Abbreviation Files := (gmap (list string) (option bytes)).

(** What a file gives in one read of [n] bytes. *)
Definition first_bytes (n : Z) (c : bytes) : bytes := if decide (len c ≤ n) then c else take (Z.to_nat n) c.

Lemma first_bytes_take n c : first_bytes n c = take (Z.to_nat n) c.
Proof. unfold first_bytes, len. destruct (decide _); [|done]. symmetry. apply take_ge. lia. Qed.

Definition get_spec (m : Files) (p : Path) : result FileSystemErrorKind (option bytes) :=
  match resolve m [] p with
  | Ok (Some (Some c)) => Ok (Some (first_bytes u32_max c))
  | Ok _ => Ok None
  | Err e => Err e
  end.

(** A path that is a file, or that can become one. *)
Definition settable (m : Files) (p : Path) : bool :=
  match resolve m [] p with Ok (Some (Some _)) | Ok None => true | _ => false end.

(** The directories above a path. *)
Definition above (p : Path) : Files := list_to_map ((λ j, (take j p, None)) <$> seq 0 (length p)).

Definition set_spec (m : Files) (p : Path) (data : bytes) : Files := <[p := Some data]> (m ∪ above p).

(** The same, directory by directory. *)
Fixpoint touched (m : Files) (p comps : Path) : Files :=
  match comps with
  | [] => m
  | comp :: comps =>
      let q := p ++ [comp] in
      let m := match m !! q with
               | Some _ => m
               | None => <[q := match comps with [] => Some [] | _ => None end]> m
               end in
      touched m q comps
  end.

Lemma above_lookup p q y : above p !! q = Some y ↔ y = None ∧ ∃ j, (j < length p)%nat ∧ q = take j p.
Proof.
  unfold above. rewrite <- elem_of_list_to_map'.
  - rewrite list_elem_of_fmap. split.
    + intros (j & [= -> ->] & Hj%elem_of_seq). split; [done|]. exists j. split; [lia|done].
    + intros (-> & j & Hj & ->). exists j. split; [done|]. apply elem_of_seq. lia.
  - intros x' (? & [= _ ->] & _)%list_elem_of_fmap (? & [= _ ->] & _)%list_elem_of_fmap. done.
Qed.

Lemma touched_old comps : ∀ m p q x, m !! q = Some x → touched m p comps !! q = Some x.
Proof.
  induction comps as [|comp comps IH]; intros m p q x Hq; [done|]. cbn. apply IH.
  destruct (m !! (p ++ [comp])) eqn:E; [done|]. rewrite lookup_insert_ne; [done|]. congruence.
Qed.

Lemma touched_new comps : ∀ m p q y, touched m p comps !! q = Some y → m !! q = None →
  ∃ j, (0 < j ≤ length comps)%nat ∧ q = p ++ take j comps ∧ y = if decide (j = length comps) then Some [] else None.
Proof.
  induction comps as [|comp comps IH]; intros m p q y Hy Hq; [cbn in Hy; congruence|]. cbn in Hy.
  set (m' := match m !! (p ++ [comp]) with Some _ => m | None => _ end) in Hy.
  destruct (m' !! q) as [z|] eqn:E.
  - rewrite (touched_old _ _ _ _ _ E) in Hy. injection Hy as ->. exists 1%nat. cbn. rewrite take_0.
    unfold m' in E. destruct (m !! (p ++ [comp])); [congruence|].
    apply lookup_insert_Some in E as [[<- <-]|[_ E]]; [|congruence]. split; [lia|]. split; [done|]. by destruct comps.
  - destruct (IH m' (p ++ [comp]) q y Hy E) as (j & Hj & -> & ->). exists (S j). cbn. rewrite <- app_assoc.
    split; [lia|]. split; [done|]. by destruct (decide (j = length comps)), (decide (S j = S (length comps))); try lia.
Qed.

Lemma touched_dir comps : ∀ m p j, (0 < j ≤ length comps)%nat → is_Some (touched m p comps !! (p ++ take j comps)).
Proof.
  induction comps as [|comp comps IH]; intros m p j Hj; cbn in *; [lia|]. destruct j as [|j]; [lia|].
  set (m' := match m !! (p ++ [comp]) with Some _ => m | None => _ end). destruct j as [|j].
  - cbn. rewrite take_0. assert (is_Some (m' !! (p ++ [comp]))) as [x Hx].
    { unfold m'. destruct (m !! (p ++ [comp])) eqn:E; [by rewrite E|]. by rewrite lookup_insert_eq. }
    exists x. by apply touched_old.
  - specialize (IH m' (p ++ [comp]) (S j)). rewrite <- app_assoc in IH. apply IH. lia.
Qed.

Lemma touched_set m p data : is_Some (m !! []) → <[p := Some data]> (touched m [] p) = set_spec m p data.
Proof.
  intros [e Hroot]. unfold set_spec. apply map_eq. intros q. destruct (decide (q = p)) as [->|Hne].
  { by rewrite !lookup_insert_eq. }
  rewrite !lookup_insert_ne by done. destruct (m !! q) as [x|] eqn:Eq.
  { rewrite (touched_old p m [] q x Eq). symmetry. by apply lookup_union_Some_l. }
  rewrite lookup_union_r by done. destruct (touched m [] p !! q) as [y|] eqn:E.
  - destruct (touched_new _ _ _ _ _ E Eq) as (j & Hj & -> & ->). cbn in *.
    assert (j ≠ length p) as Hj' by (intros ->; by rewrite firstn_all in Hne).
    rewrite decide_False by done. symmetry. apply above_lookup. split; [done|]. exists j. split; [lia|done].
  - symmetry. destruct (above p !! q) as [y|] eqn:Ea; [|done]. exfalso.
    apply above_lookup in Ea as (_ & j & Hj & ->). destruct j as [|j]; [rewrite take_0 in Eq; congruence|].
    destruct (touched_dir p m [] (S j)) as [z Hz]; [lia|]. cbn [app] in Hz. congruence.
Qed.

Lemma resolve_error m comps : ∀ p e, resolve m p comps = Err e → e = NotDirectory.
Proof.
  induction comps as [|comp comps IH]; intros p e; cbn; destruct (m !! p) as [[c|]|]; try done; [by intros [= <-]|].
  apply IH.
Qed.

(** ** The operations *)

Section repository.
Context `{CryptoPrims} {B T : Type} `{HT : Trans B T} {HTS : TreeSpec B T}.
Context `{HDI : DataSerializer Inode} {HTI : TotalData Inode}.
Context `{HDB : DataSerializer PageBundle} {HTB : TotalData PageBundle}.
Context `{HDP : DataSerializer Page} {HTP : TotalData Page}.
Context `{HDS : DataSerializer string} {HKT : KeyText}.
Variable acc : FileAccessor.
Variable rnd_bytes : Z → bytes.
Variable order : gset Z → list Z.

(** Handles are visited each once, no handle is drawn as 0, and the session can give new
    directories and files their authorisation. *)
Definition in_service : Prop :=
  (∀ X, order X ≡ₚ elements X) ∧ (∀ b : B, 0 < (tr_random b).1)
  ∧ let uid := translate_uid acc (rq_uid Accessor.nobody) Accessor.nobody in
    let gid := translate_gid acc (rq_gid Accessor.nobody) Accessor.nobody in
    may_make acc 504 uid gid ∧ may_make acc 432 uid gid.

Hypothesis Hserve : in_service.
Implicit Types (st : FilesState B T) (k : PrimaryKey) (L : Layout) (p : Path).

Lemma access_ok L st p k n mask : calm L st → ticked st → L !! p = Some (k, n) →
  ∃ b', Accessor.access_internal acc order Accessor.nobody (PrimaryKey.as_u64 k) mask st
      = (Ok (), Accessor.with_store st b') ∧ good L b'.
Proof.
  intros Hc Ht Hp. unfold Accessor.access_internal. rewrite (st_bind_Ok _ _ _ _ _ (tick_ticked order st Ht)).
  destruct (load_ok L st p k n Hc Hp) as (dao & b' & E & _ & _ & Hg). rewrite (st_bind_Ok _ _ _ _ _ E).
  exists b'. split; [|done]. unfold Accessor.may_access. change (bool_decide (rq_uid Accessor.nobody = 0)) with true.
  by rewrite orb_true_r.
Qed.

Lemma touch_walk_ok comps : ∀ L st p k n a, calm L st → ticked st → L !! p = Some (k, n) →
  at_ino a = PrimaryKey.as_u64 k → Forall plain_name comps →
  match resolve (view L) p comps with Ok (Some (Some _)) | Ok None => True | _ => False end →
  ∃ a' st' L' k' i' c bks pgs, Accessor.touch_walk acc rnd_bytes order Accessor.nobody a comps st = (Ok a', st')
    ∧ calm L' st' ∧ ticked st' ∧ L' !! (p ++ comps) = Some (k', NodeFile i' c bks pgs)
    ∧ at_ino a' = PrimaryKey.as_u64 k' ∧ view L' = touched (view L) p comps.
Proof.
  destruct Hserve as (Horder & _ & Hdir & Hfile).
  induction comps as [|comp comps IH]; intros L st p k n a Hc Ht Hp Ha Hall Hset; cbn [resolve touched Accessor.touch_walk] in *;
    rewrite view_lookup, Hp in Hset; cbn [fmap option_fmap option_map snd] in Hset.
  - destruct n as [|i c bks pgs]; [done|]. exists a, st, L, k, i, c, bks, pgs. by rewrite app_nil_r.
  - apply Forall_cons in Hall as [Hname Hall]. destruct n as [i|]; [|done]. cbn [content] in Hset. rewrite Ha.
    destruct (lookup_ok acc order Horder L st p k i Accessor.nobody comp Hc Hp) as (r & st1 & E1 & Hc1 & Ht1 & Hr);
      [apply Hname..|]. rewrite (st_bind_Ok _ _ _ _ _ E1).
    rewrite (view_lookup L (p ++ [comp])), (cons_middle comp p comps), (app_assoc p [comp] comps).
    destruct (L !! (p ++ [comp])) as [[k' n']|] eqn:El; cbn [fmap option_fmap option_map].
    { destruct Hr as (a' & -> & Ha'). rewrite st_bind_mret. by apply (IH L st1 (p ++ [comp]) k' n'). }
    subst r. destruct comps as [|comp' comps'].
    + destruct (mknod_ok acc rnd_bytes order Horder L st1 p k i comp 432 Accessor.nobody) as (a' & st2 & k' & i' & E2 & Hc2 & Ht2 & Ha');
        try done. rewrite (st_bind_Ok _ _ _ _ _ E2).
      destruct (IH _ st2 (p ++ [comp]) k' (NodeFile i' [] [] []) a' Hc2 Ht2 (lookup_insert_eq _ _ _) Ha' Hall) as
        (a2 & st3 & L' & k2 & i2 & c & bks & pgs & E3 & Hc3 & Ht3 & Hl3 & Ha3 & Hv3).
      { cbn. by rewrite view_lookup, lookup_insert_eq. }
      exists a2, st3, L', k2, i2, c, bks, pgs. do 5 (split; [done|]). rewrite Hv3. cbn. unfold view. by rewrite fmap_insert.
    + destruct (mkdir_ok acc rnd_bytes order Horder L st1 p k i comp 504 Accessor.nobody) as (a' & st2 & k' & i' & E2 & Hc2 & Ht2 & Ha');
        try done. rewrite (st_bind_Ok _ _ _ _ _ E2).
      destruct (IH _ st2 (p ++ [comp]) k' (NodeDir i') a' Hc2 Ht2 (lookup_insert_eq _ _ _) Ha' Hall) as
        (a2 & st3 & L' & k2 & i2 & c & bks & pgs & E3 & Hc3 & Ht3 & Hl3 & Ha3 & Hv3).
      { assert (L !! ((p ++ [comp]) ++ [comp']) = None) as Hbelow.
        { destruct (L !! ((p ++ [comp]) ++ [comp'])) as [e|] eqn:E; [|done].
          destruct (ho_up _ _ (proj2 (proj2 (proj1 Hc))) _ _ _ E) as (? & ? & E'). congruence. }
        cbn [resolve]. rewrite view_lookup, lookup_insert_eq. cbn [fmap option_fmap option_map snd content].
        destruct comps'; cbn [resolve]; rewrite view_lookup, lookup_insert_ne, Hbelow; try done;
          intros He%(f_equal length); rewrite !length_app in He; cbn in He; lia. }
      exists a2, st3, L', k2, i2, c, bks, pgs. do 5 (split; [done|]). rewrite Hv3. unfold view at 1. by rewrite fmap_insert.
Qed.

(** *** Opening for writing *)

Definition rw_flags : Z := Z.lor O_RDWR O_TRUNC.

(** The records of the file as a transaction of the accessor has them. *)
Lemma load_mut_io_ok L st p k i c bks pgs : calm L st → L !! p = Some (k, NodeFile i c bks pgs) →
  ∃ d s0, Accessor.load_mut_io acc (PrimaryKey.as_u64 k) st = (Ok (d, snd s0), Accessor.with_store st (fst s0))
    ∧ holds s0 L ∧ tt_ready s0 ∧ tt_durable s0 ∧ dao_of k i d ∧ tt_placed s0 d.
Proof.
  intros Hc Hp.
  destruct (begin_trans_ok L (fa_scope_io acc) (Accessor.load_in (PrimaryKey.as_u64 k)) st Hc) as (Hw & Hd & Hbegin).
  destruct (load_in_ok L _ p k _ Hw Hp) as (d & s0 & E & Hdao & Hpl & [Hr Hh] & Hd0).
  exists d, s0. split; [by apply Hbegin|]. split; [done|]. split; [done|]. split; [by apply Hd0|]. done.
Qed.

Lemma create_rw_ok L st p k i c bks pgs (Hp : L !! p = Some (k, NodeFile i c bks pgs)) : calm L st → ticked st →
  ∃ h b' s0 (Hh : holds s0 L) r,
    Accessor.create_open_handle acc order (PrimaryKey.as_u64 k) Accessor.nobody rw_flags st
      = (Ok h, Accessor.with_store st b')
    ∧ oh_spec h = SpecRegularFile r ∧ oh_read_only h = false ∧ oh_kind h = FileModel.RegularFile ∧ 0 < oh_fh h
    ∧ file_at (HS := file_spec s0 L p k i c bks pgs Hh Hp) k (head i) (b', r) ([], true).
Proof.
  destruct Hserve as (Horder & Hrandom & _). intros Hc Ht. pose proof (proj2 Hc) as Hi.
  unfold Accessor.create_open_handle.
  change (bit rw_flags O_TRUNC) with true. change (bit rw_flags O_RDWR) with true.
  change (bit rw_flags O_RDONLY) with false. cbn [orb].
  destruct (access_ok L st p k _ 2 Hc Ht Hp) as (b2 & E2 & Hg2).
  destruct (access_ok L (Accessor.with_store st b2) p k _ 4 (conj Hg2 Hi) Ht Hp) as (b3 & E3 & Hg3).
  destruct (load_ok L (Accessor.with_store st b3) p k _ (conj Hg3 Hi) Hp) as (dao & b4 & E4 & Hk & Hx & Hg4).
  destruct (load_mut_io_ok L (Accessor.with_store st b4) p k i c bks pgs (conj Hg4 Hi) Hp)
    as (d & s0 & E5 & Hh & Hr & Hd & Hdao & Hpl).
  assert (in_kind i = FileModel.RegularFile) as Hkind by (by destruct (ho_node _ _ Hh _ _ _ Hp) as (_ & ? & _)).
  set (r0 := RegularFile.new_mut (snd s0) d (row_created (snd dao)) (row_updated (snd dao))).
  pose proof (own_open s0 L p k i c bks pgs Hh Hp d (row_created (snd dao)) (row_updated (snd dao)) Hr Hd Hdao Hpl) as Hf0.
  destruct (truncate_ok (HS := file_spec s0 L p k i c bks pgs Hh Hp) k (head i) _ c false 0 Hf0) as ([b6 r6] & E6 & Hf6); [lia|].
  assert (as_file_spec_mut (PrimaryKey.as_u64 (DaoMut.key d)) (row_created (snd dao)) (row_updated (snd dao)) (snd s0) d
    = SpecRegularFile r0) as Hspec.
  { unfold as_file_spec_mut. destruct Hdao as (_ & _ & _ & ->). by rewrite Hkind. }
  pose proof (own_moves s0 L p k i c bks pgs Hh Hp (head i) r6 _ b6 (tr_random b6).2 Hf6 (λ t, tt_random b6 t)) as Hf7.
  rewrite (st_bind_Ok _ _ _ _ _ E2), (st_bind_Ok _ _ _ _ _ E3), (st_bind_Ok _ _ _ _ _ E4).
  unfold Accessor.shown_children. rewrite Hx. cbn [node_inode]. rewrite Hkind, decide_False by done. rewrite st_bind_mret.
  erewrite st_bind_Ok; [|by rewrite (st_bind_Ok _ _ _ _ _ E5)]. cbn [fst snd]. rewrite Hspec.
  erewrite st_bind_Ok.
  2: { unfold st_mk, FileSpec.fallocate, FileSpec.on_regular, st_mk. cbn [fs_store Accessor.with_store].
       change (Z.of_nat 0) with 0 in E6. fold r0 in E6. rewrite E6. reflexivity. }
  erewrite st_bind_Ok; [|unfold Accessor.draw, st_mk; cbn; by rewrite (surjective_pairing (tr_random b6))].
  unfold Accessor.add_children. cbn [foldl].
  eexists _, (tr_random b6).2, s0, Hh, r6. split; [reflexivity|]. cbn [oh_spec oh_read_only oh_kind oh_fh].
  split; [done|]. split; [done|]. split; [done|]. split; [apply Hrandom|exact Hf7].
Qed.

Lemma open_rw_ok L st p k i c bks pgs (Hp : L !! p = Some (k, NodeFile i c bks pgs)) : calm L st →
  ∃ h st' s0 (Hh : holds s0 L), Accessor.open acc order Accessor.nobody (PrimaryKey.as_u64 k) rw_flags st = (Ok h, st')
    ∧ writing s0 L p k i c bks pgs Hh Hp st' (oh_fh h) ([], true) ∧ 0 < oh_fh h.
Proof.
  intros Hc. destruct (tick_ok order (proj1 Hserve) L st Hc) as (st1 & E1 & Hc1 & Ht1).
  destruct (create_rw_ok L st1 p k i c bks pgs Hp Hc1 Ht1) as (h & b' & s0 & Hh & r & E2 & Hs & Hro & Hk & Hfh & Hf).
  unfold Accessor.open. rewrite (st_bind_Ok _ _ _ _ _ E1), (st_bind_Ok _ _ _ _ _ E2).
  rewrite Hk, decide_False by done. eexists h, _, s0, Hh. split; [reflexivity|]. split; [|done].
  split; [done|]. split.
  - exists h, r. cbn. rewrite lookup_insert_eq. done.
  - intros fh' h' Hne. cbn. rewrite lookup_insert_ne by done. apply (proj2 Hc1).
Qed.

(** *** Whole files *)

Lemma set_file_ok L st path data : calm L st → Forall plain_name (components path) →
  settable (view L) (components path) = true → len data ≤ u64_max →
  ∃ L' st', Accessor.set_file acc rnd_bytes order path data st = (Ok (len data), st') ∧ calm L' st'
    ∧ view L' = set_spec (view L) (components path) data.
Proof.
  intros Hc Hall Hset Hlen. set (p := components path) in *. destruct (proj1 Hc) as (_ & _ & Hh).
  destruct (ho_root _ _ Hh) as [i0 Hroot].
  destruct (getattr_ok acc order (proj1 Hserve) L st [] root_key _ Accessor.nobody Hc Hroot) as (a & st1 & E1 & Hc1 & Ht1 & Ha).
  destruct (touch_walk_ok p L st1 [] root_key (NodeDir i0) a Hc1 Ht1 Hroot Ha Hall) as
    (a2 & st2 & L2 & k & i & c & bks & pgs & E2 & Hc2 & Ht2 & Hl2 & Ha2 & Hv2).
  { unfold settable in Hset. by destruct (resolve _ _ _) as [[[]|]|]. }
  cbn [app] in Hl2.
  destruct (open_rw_ok L2 st2 p k i c bks pgs Hl2 Hc2) as (h & st3 & s0 & Hh3 & E3 & Hw3 & Hfh).
  destruct (fallocate_ok acc order s0 L2 p k i c bks pgs Hh3 Hl2 (PrimaryKey.as_u64 k) st3 _ _ Hw3 Hfh) as (st4 & E4 & Hw4).
  destruct (write_handle_ok order s0 L2 p k i c bks pgs Hh3 Hl2 st4 _ _ data Hw4 Hlen) as (st5 & d5 & E5 & Hw5).
  destruct (sync_ok order (proj1 Hserve) s0 L2 p k i c bks pgs Hh3 Hl2 st5 _ _ _ Hw5) as (st6 & i' & bks' & pgs' & E6 & Hc6 & Ht6).
  eexists _, st6. split; [|split; [exact Hc6|]].
  - unfold Accessor.set_file, Accessor.touch.
    erewrite st_bind_Ok; [|by rewrite (st_bind_Ok _ _ _ _ _ E1)].
    fold p. rewrite Ha2. rewrite (st_bind_Ok _ _ _ _ _ E3), (st_bind_Ok _ _ _ _ _ E4), (st_bind_Ok _ _ _ _ _ E5).
    by rewrite (st_bind_Ok _ _ _ _ _ E6).
  - unfold view at 1. rewrite fmap_insert. cbn [snd content]. fold (view L2). rewrite Hv2. apply touched_set.
    rewrite view_lookup, Hroot. by eexists.
Qed.

Lemma open_ro_ok L st p k n : calm L st → L !! p = Some (k, n) →
  match content n with
  | None => ∃ st', Accessor.open acc order Accessor.nobody (PrimaryKey.as_u64 k) O_RDONLY st = (Err IsDirectory, st')
      ∧ calm L st'
  | Some _ => ∃ h st' dao c u, Accessor.open acc order Accessor.nobody (PrimaryKey.as_u64 k) O_RDONLY st = (Ok h, st')
      ∧ calm L st' ∧ ticked st' ∧ fs_open_handles st' !! oh_fh h = Some h
      ∧ oh_spec h = SpecRegularFile (RegularFile.new dao c u) ∧ row_data (snd dao) = node_inode n
  end.
Proof.
  intros Hc Hp. destruct (tick_ok order (proj1 Hserve) L st Hc) as (st1 & E1 & Hc1 & Ht1).
  pose proof (node_kind_dir _ _ _ _ _ (proj1 Hc) Hp) as Hk.
  destruct (create_ro_ok acc order L st1 p k n Accessor.nobody Hc1 Hp) as (h & b' & E2 & Hg & Hdirty & _ & Hkind & _ & Hs).
  unfold Accessor.open. rewrite (st_bind_Ok _ _ _ _ _ E1), (st_bind_Ok _ _ _ _ _ E2), Hkind.
  destruct n as [i|i c bks pgs]; cbn [content] in *.
  - rewrite decide_True by (by apply Hk). eexists. split; [reflexivity|]. by apply calm_store; [|apply Hc1].
  - rewrite decide_False by (intros He%Hk; done). destruct Hs as (dao & cr & u & Hspec & Hx).
    exists h, (Accessor.with_handles (Accessor.with_store st1 b') (<[oh_fh h := h]> (fs_open_handles st1))), dao, cr, u.
    split; [done|]. split; [split; [done|]|split; [done|split; [apply lookup_insert_eq|done]]].
    intros fh' h'. cbn. intros [[_ <-]|[_ Hl]]%lookup_insert_Some; [done|]. by apply (proj2 Hc1 fh').
Qed.

Lemma get_file_ok L st path : calm L st → Forall plain_name (components path) →
  ∃ st', Accessor.get_file acc order path st = (get_spec (view L) (components path), st') ∧ calm L st'.
Proof.
  intros Hc Hall. destruct (search_ok acc order (proj1 Hserve) L st Accessor.nobody path Hc Hall) as (r & st1 & E1 & Hc1 & Ht1 & Hr).
  unfold Accessor.get_file, get_spec, st_try. rewrite E1.
  destruct (resolve (view L) [] (components path)) as [[e|]|e] eqn:Eres; cbn in Hr.
  2: { subst r. by exists st1. }
  2: { subst r. exists st1. split; [|done]. assert (e = NotDirectory) as -> by (by eapply resolve_error). done. }
  destruct Hr as (a & k & n & -> & Hl & <- & Ha). rewrite Ha. pose proof (open_ro_ok L st1 _ k n Hc1 Hl) as Ho.
  destruct n as [i|i c bks pgs]; cbn [content] in *.
  { destruct Ho as (st2 & -> & Hc2). by exists st2. }
  destruct Ho as (h & st2 & dao & cr & u & -> & Hc2 & Ht2 & Hfh & Hspec & Hx). destruct (proj1 Hc2) as (Hr2 & Hd2 & Hh2).
  destruct (own_read _ L _ k i c bks pgs Hh2 Hl dao cr u 0 (Z.to_nat u32_max) Hr2 Hd2 Hx) as (b' & r' & E3 & Hr3 & Hd3 & Hh3).
  assert (∃ st3, Accessor.read order (oh_fh h) 0 u32_max st2 = (Ok (first_bytes u32_max c), st3) ∧ calm L st3) as (st3 & E4 & Hc3).
  { unfold Accessor.read. rewrite (st_bind_Ok _ _ _ _ _ (tick_ticked order st2 Ht2)). unfold st_mk at 1. rewrite Hfh.
    unfold Accessor.on_spec, FileSpec.read, FileSpec.on_regular, st_mk. rewrite Hspec.
    change (Z.of_nat 0) with 0 in E3. rewrite Z2Nat.id in E3 by done.
    cbn [fst] in E3. rewrite E3, drop_0, Hfh, first_bytes_take. eexists. split; [reflexivity|]. split; [done|].
    intros fh' h'. cbn. intros [[<- <-]|[_ Hl']]%lookup_insert_Some; [exact (proj2 Hc2 _ _ Hfh)|exact (proj2 Hc2 _ _ Hl')]. }
  exists st3. split; [|done]. by rewrite (st_bind_Ok _ _ _ _ _ E4).
Qed.

(** A path below a file. *)
Lemma touch_walk_error comps : ∀ L st p k n a e, calm L st → ticked st → L !! p = Some (k, n) →
  at_ino a = PrimaryKey.as_u64 k → Forall plain_name comps → resolve (view L) p comps = Err e →
  ∃ st', Accessor.touch_walk acc rnd_bytes order Accessor.nobody a comps st = (Err e, st') ∧ calm L st'.
Proof.
  induction comps as [|comp comps IH]; intros L st p k n a e Hc Ht Hp Ha Hall Hres; cbn [resolve Accessor.touch_walk] in *;
    rewrite view_lookup, Hp in Hres; cbn [fmap option_fmap option_map snd] in Hres; [done|].
  apply Forall_cons in Hall as [Hname Hall]. rewrite Ha. destruct n as [i|i c bks pgs]; cbn [content] in Hres.
  - destruct (lookup_ok acc order (proj1 Hserve) L st p k i Accessor.nobody comp Hc Hp) as (r & st1 & E1 & Hc1 & Ht1 & Hr);
      [apply Hname..|]. rewrite (st_bind_Ok _ _ _ _ _ E1).
    destruct (L !! (p ++ [comp])) as [[k' n']|] eqn:El.
    + destruct Hr as (a' & -> & Ha'). rewrite st_bind_mret. by apply (IH L st1 (p ++ [comp]) k' n').
    + destruct comps; cbn [resolve] in Hres; by rewrite view_lookup, El in Hres.
  - injection Hres as <-.
    destruct (lookup_in_file acc order (proj1 Hserve) L st p k (NodeFile i c bks pgs) c Accessor.nobody comp Hc Hp eq_refl)
      as (st1 & E1 & Hc1 & Ht1).
    exists st1. split; [|done]. unfold mbind, st_bind. by rewrite E1.
Qed.

Lemma set_file_error L st path data e : calm L st → Forall plain_name (components path) →
  resolve (view L) [] (components path) = Err e →
  ∃ st', Accessor.set_file acc rnd_bytes order path data st = (Err e, st') ∧ calm L st'.
Proof.
  intros Hc Hall Hres. destruct (proj1 Hc) as (_ & _ & Hh). destruct (ho_root _ _ Hh) as [i0 Hroot].
  destruct (getattr_ok acc order (proj1 Hserve) L st [] root_key _ Accessor.nobody Hc Hroot) as (a & st1 & E1 & Hc1 & Ht1 & Ha).
  destruct (touch_walk_error _ L st1 [] root_key (NodeDir i0) a e Hc1 Ht1 Hroot Ha Hall Hres) as (st2 & E2 & Hc2).
  exists st2. split; [|done]. unfold Accessor.set_file, Accessor.touch.
  assert (Accessor.touch acc rnd_bytes order Accessor.nobody path st = (Err e, st2)) as E3.
  { unfold Accessor.touch. change 1 with (PrimaryKey.as_u64 root_key). by rewrite (st_bind_Ok _ _ _ _ _ E1). }
  unfold mbind at 1, st_bind at 1. unfold Accessor.touch in E3. by rewrite E3.
Qed.

(** ** Any sequence of operations *)

Inductive RepoOp : Type :=
  | SetFile (path : string) (data : bytes)
  | GetFile (path : string)
  | Elapse (secs : Z).

(** What an operation answers: the number of bytes written, or the bytes of the file. *)
Abbreviation Answer := (result FileSystemErrorKind (Z + option bytes)).

Definition run_repo (op : RepoOp) (st : FilesState B T) : Answer * FilesState B T :=
  match op with
  | SetFile path data => let '(r, st) := Accessor.set_file acc rnd_bytes order path data st in (n ← r; Ok (inl n), st)
  | GetFile path => let '(r, st) := Accessor.get_file acc order path st in (c ← r; Ok (inr c), st)
  | Elapse secs => (Ok (inl 0), {| fs_store := fs_store st; fs_open_handles := fs_open_handles st;
                                   fs_elapsed := fs_elapsed st + secs; fs_last_elapsed := fs_last_elapsed st |})
  end.

Fixpoint run_repos (ops : list RepoOp) (st : FilesState B T) : list Answer * FilesState B T :=
  match ops with
  | [] => ([], st)
  | op :: ops =>
      let '(x, st) := run_repo op st in let '(xs, st) := run_repos ops st in (x :: xs, st)
  end.

(** The same on the map. *)
Definition spec_repo (op : RepoOp) (m : Files) : Answer * Files :=
  match op with
  | SetFile path data =>
      match resolve m [] (components path) with
      | Err e => (Err e, m)
      | Ok _ => (Ok (inl (len data)), set_spec m (components path) data)
      end
  | GetFile path => (c ← get_spec m (components path); Ok (inr c), m)
  | Elapse _ => (Ok (inl 0), m)
  end.

Fixpoint spec_repos (ops : list RepoOp) (m : Files) : list Answer * Files :=
  match ops with
  | [] => ([], m)
  | op :: ops => let '(x, m) := spec_repo op m in let '(xs, m) := spec_repos ops m in (x :: xs, m)
  end.

(** No name is reserved, and no directory is to be overwritten with a file. *)
Definition sensible (op : RepoOp) (m : Files) : Prop :=
  match op with
  | SetFile path data => Forall plain_name (components path) ∧ resolve m [] (components path) ≠ Ok (Some None)
      ∧ len data ≤ u64_max
  | GetFile path => Forall plain_name (components path)
  | Elapse _ => True
  end.

Fixpoint all_sensible (ops : list RepoOp) (m : Files) : Prop :=
  match ops with
  | [] => True
  | op :: ops => sensible op m ∧ all_sensible ops (snd (spec_repo op m))
  end.

Lemma run_repo_ok op L st : calm L st → sensible op (view L) →
  ∃ L' st', run_repo op st = (fst (spec_repo op (view L)), st') ∧ calm L' st' ∧ view L' = snd (spec_repo op (view L)).
Proof.
  intros Hc Hs. destruct op as [path data|path|secs]; cbn [run_repo spec_repo].
  - destruct Hs as (Hall & Hdir & Hlen). destruct (resolve (view L) [] (components path)) as [e|e] eqn:Eres.
    + destruct (set_file_ok L st path data Hc Hall) as (L' & st' & E & Hc' & Hv); [|done|].
      { unfold settable. rewrite Eres. destruct e as [[c|]|]; [done|by destruct Hdir|done]. }
      exists L', st'. by rewrite E.
    + destruct (set_file_error L st path data e Hc Hall Eres) as (st' & E & Hc'). exists L, st'. by rewrite E.
  - destruct (get_file_ok L st path Hc Hs) as (st' & E & Hc'). exists L, st'. by rewrite E.
  - exists L. eexists. split; [reflexivity|]. by split.
Qed.

Lemma run_repos_ok ops : ∀ L st, calm L st → all_sensible ops (view L) →
  ∃ L' st', run_repos ops st = (fst (spec_repos ops (view L)), st') ∧ calm L' st'
    ∧ view L' = snd (spec_repos ops (view L)).
Proof.
  induction ops as [|op ops IH]; intros L st Hc Hs; [by exists L, st|]. destruct Hs as [Hs Hall].
  destruct (run_repo_ok op L st Hc Hs) as (L1 & st1 & E1 & Hc1 & Hv1). rewrite <- Hv1 in Hall.
  destruct (IH L1 st1 Hc1 Hall) as (L2 & st2 & E2 & Hc2 & Hv2). rewrite Hv1 in E2, Hv2. exists L2, st2. cbn.
  rewrite E1, E2. revert Hv2. clear - Hc2. destruct (spec_repo op (view L)) as [x m]. cbn. by destruct (spec_repos ops m).
Qed.
End repository.

Section theorem.
Context `{CryptoPrims} {B T : Type} `{HT : Trans B T} {HTS : TreeSpec B T}.
Context `{HDI : DataSerializer Inode} {HTI : TotalData Inode}.
Context `{HDB : DataSerializer PageBundle} {HTB : TotalData PageBundle}.
Context `{HDP : DataSerializer Page} {HTP : TotalData Page}.
Context `{HDS : DataSerializer string} {HKT : KeyText}.

End theorem.
