(* ===== verification/RepositorySamples.v ===== *)
(** * Sample repositories

    The plain store with an empty root, on which the theorem of RepositorySpec.v is used, and
    what renaming and setting attributes do in files/src/accessor.rs. *)

From S2P Require Import Prelude LogApi Crypto Codec Secure Meta Time Event Index Signature Tree Session Compact Plugins LogFile MemDb RedoLog Chain ChainSpec CompactSpec Pipe Dio Trans TransSpec FileModel RegFile RegFileSpec RegFileBytes RecordBytes FileSpec Accessor Layout AccessorSpec AccessorMake AccessorWrite RepositorySpec.
Import ToyRecords.

(** An accessor that asks for no keys. *)
Definition open_accessor : FileAccessor :=
  {| fa_no_auth := true; fa_is_www := false; fa_scope_meta := ScopeFull; fa_scope_io := ScopeFull;
     fa_session := SessionNothing; fa_impersonate_uid := false; fa_force_sudo := false |}.

Definition no_bytes (_ : Z) : bytes := [].
Definition handle_order (X : gset Z) : list Z := elements X.

(** ** The plain store *)

Definition root_inode : Inode := Inode.new 7 8 "/" 504 0 0 FileModel.Directory.

Section plain_store.
#[local] Existing Instance toy_prims.

Definition root_dao : DaoMut Inode :=
  DaoMut.new ({| rwh_key := root_key; rwh_parent := None; rwh_auth := inherit_auth |},
    {| row_key := root_key; row_type_name := "record"; row_created := 0; row_updated := 0;
       row_format := {| mf_meta := Json; mf_data := Json |}; row_data := root_inode;
       row_collections := []; row_extra_meta := []; row_is_new := false |}).

Definition root_store : MemStore :=
  match Row.as_row_data (dao_row root_dao) (dao_header root_dao) with
  | Ok row => {| mem_rows := {[root_key := row]}; mem_next := 21 |}
  | Err _ => {| mem_rows := ∅; mem_next := 21 |}
  end.

Definition root_layout : Layout := {[ [] := (root_key, NodeDir root_inode) ]}.

Definition root_state : FilesState MemStore MemTx :=
  {| fs_store := root_store; fs_open_handles := ∅; fs_elapsed := 0; fs_last_elapsed := 0 |}.

Lemma root_visible k row : MemTrans.visible root_store ∅ k = Some row →
  k = root_key ∧ rdt_key row = root_key ∧ rdt_parent row = None.
Proof.
  unfold MemTrans.visible. rewrite lookup_empty. cbn. intros [[<- <-]|[_ [=]]]%lookup_insert_Some. done.
Qed.

Lemma root_ready : mem_ready (root_store, ∅).
Proof.
  split; cbn [fst snd].
  - intros k Hk. destruct (MemTrans.visible _ _ k) as [row|] eqn:E; [|done].
    apply root_visible in E as [-> _]. cbn in Hk. lia.
  - intros k row (_ & _ & ->)%root_visible. done.
  - by intros k row (-> & -> & _)%root_visible.
Qed.

Lemma root_seen : mem_sees Inode (root_store, ∅) root_key root_inode.
Proof.
  eexists. split; [cbn; unfold MemTrans.visible; rewrite lookup_empty; apply lookup_insert_eq|]. by vm_compute.
Qed.

Lemma root_at p e : root_layout !! p = Some e → p = [] ∧ e = (root_key, NodeDir root_inode).
Proof. unfold root_layout. intros [<- <-]%lookup_singleton_Some. done. Qed.

Lemma root_holds : holds (root_store, ∅ : MemTx) root_layout.
Proof.
  split.
  - by exists root_inode.
  - intros p name e [?%app_nil _]%root_at. naive_solver.
  - intros p k n k' [-> _]%root_at _ (q & ? & ? & Hq & [-> _]%root_at & _). done.
  - intros p k n [-> [= -> ->]]%root_at. split; [apply root_seen|done].
  - intros p k i [-> [= -> ->]]%root_at k'. split.
    + intros (row & (_ & _ & Hp)%root_visible & Hc). by rewrite Hp in Hc.
    + by intros (name & n & [? _]%root_at).
  - intros p name k n [?%app_nil _]%root_at. naive_solver.
Qed.

Lemma root_calm : calm root_layout root_state.
Proof.
  split; [|by intros fh h]. split; [apply root_ready|]. split; [|apply root_holds].
  split; [apply root_ready|done].
Qed.

Lemma root_service : in_service (B := MemStore) (T := MemTx) open_accessor handle_order.
Proof.
  split; [done|]. split; [intros b; cbn; lia|].
  split; intros r1 r2 r3; eexists _, _; split; vm_compute; reflexivity.
Qed.

Definition root_ops : list RepoOp :=
  [SetFile "/a/b" [x41; x42]; Elapse 10; GetFile "a/b"; SetFile "/a/c" []; SetFile "/a/b" [x43];
   SetFile "/a/b/d" [x44]; GetFile "/a/b"; GetFile "/a"; GetFile "/e"; GetFile "/a/b/d"].

Definition root_answers : list (result FileSystemErrorKind (Z + option bytes)) :=
  [Ok (inl 2); Ok (inl 0); Ok (inr (Some [x41; x42])); Ok (inl 0); Ok (inl 1);
   Err NotDirectory; Ok (inr (Some [x43])); Ok (inr None); Ok (inr None); Err NotDirectory].

Lemma root_sensible : all_sensible root_ops (view root_layout).
Proof.
  cbn. repeat (split; [repeat split; try done; try by repeat constructor|]); done.
Qed.


(** ** Renaming and attributes *)

(** Renaming a file moves it. *)
Theorem rename_moves :
  fst ((_ ← Accessor.set_file open_accessor no_bytes handle_order "/b" [x41];
        _ ← Accessor.rename open_accessor handle_order 1 "b" 1 "c";
        b ← Accessor.get_file open_accessor handle_order "/b";
        c ← Accessor.get_file open_accessor handle_order "/c"; mret (b, c)) root_state)
  = Ok (None, Some [x41]).
Proof. by vm_compute. Qed.

(** An extended attribute that is set is not there afterwards: the transaction it was written in
    is dropped. *)
Theorem set_attribute_is_lost :
  fst ((a ← Accessor.mknod open_accessor no_bytes handle_order Accessor.nobody 1 "b" 432;
        _ ← Accessor.setxattr open_accessor handle_order Accessor.nobody (at_ino a) "user.x" "1";
        v ← Accessor.getxattr open_accessor handle_order Accessor.nobody (at_ino a) "user.x"; mret v) root_state)
  = Ok None.
Proof. by vm_compute. Qed.
End plain_store.
