(* ===== verification/Wire.v ===== *)
(** * Programs on a byte stream

    What comms/src does with its sockets: a program writes bytes, flushes them and waits for a
    number of bytes ([tokio::io]).  A program is run on its end of a connection, or two programs
    are run against each other in any interleaving. *)

From stdpp Require Import relations.
From S2P Require Import Prelude.

(** The kinds of [io::Error] that comms/src raises.  [JsonError] is what serde_json raises,
    [WirePanic] a panic; [Stalled] marks a loop that ran out of its bound. *)
Inductive WireError : Type :=
  | UnexpectedEnd
  | BrokenPipe
  | ConnectionRefused
  | InvalidData
  | Unsupported
  | JsonError
  | MissingCertificate
  | CertificateTooWeak
  | WirePanic
  | Stalled.

(** [AsyncWriteExt::write_all], [flush] and [AsyncReadExt::read_exact]: what is done next depends
    on how they went. *)
Inductive Proc (A : Type) : Type :=
  | Return (a : A)
  | WriteAll (bs : bytes) (k : result WireError unit → Proc A)
  | FlushAll (k : result WireError unit → Proc A)
  | ReadExact (n : nat) (k : result WireError bytes → Proc A).
Arguments Return {A} a.
Arguments WriteAll {A} bs k.
Arguments FlushAll {A} k.
Arguments ReadExact {A} n k.

Fixpoint proc_bind {A B : Type} (m : Proc A) (f : A → Proc B) : Proc B :=
  match m with
  | Return a => f a
  | WriteAll bs k => WriteAll bs (λ r, proc_bind (k r) f)
  | FlushAll k => FlushAll (λ r, proc_bind (k r) f)
  | ReadExact n k => ReadExact n (λ r, proc_bind (k r) f)
  end.

(** A program of a stateful object: the state is kept when [?] returns early. *)
Definition wire (S A : Type) : Type := S → Proc (result WireError A * S).

#[global] Instance wire_ret (S : Type) : MRet (wire S) := λ A a s, Return (Ok a, s).
#[global] Instance wire_bind (S : Type) : MBind (wire S) := λ A B f c s,
  proc_bind (c s) (λ '(r, s'), match r with Ok a => f a s' | Err e => Return (Err e, s') end).

Definition wire_mk {S A} (f : S → Proc (result WireError A * S)) : wire S A := f.
Definition wire_fail {S A} (e : WireError) : wire S A := λ s, Return (Err e, s).
Definition wire_get {S} : wire S S := λ s, Return (Ok s, s).
Definition wire_put {S} (s : S) : wire S unit := λ _, Return (Ok (), s).

Definition write_all {S} (bs : bytes) : wire S unit := λ s, WriteAll bs (λ r, Return (r, s)).
Definition flush_all {S} : wire S unit := λ s, FlushAll (λ r, Return (r, s)).
Definition recv_exact {S} (n : nat) : wire S bytes := λ s, ReadExact n (λ r, Return (r, s)).

(** ** One end of a connection *)

(** [w_in] has arrived and was not read, [w_buf] was written and not flushed, [w_out] is on its
    way.  With [w_end] nothing more arrives, and without [w_up] nothing can be written. *)
Record Wire : Type := { w_in : bytes; w_buf : bytes; w_out : bytes; w_end : bool; w_up : bool }.

Definition with_in (w : Wire) (bs : bytes) : Wire :=
  {| w_in := bs; w_buf := w_buf w; w_out := w_out w; w_end := w_end w; w_up := w_up w |}.
Definition with_buf (w : Wire) (bs : bytes) : Wire :=
  {| w_in := w_in w; w_buf := bs; w_out := w_out w; w_end := w_end w; w_up := w_up w |}.
Definition with_out (w : Wire) (bs : bytes) : Wire :=
  {| w_in := w_in w; w_buf := w_buf w; w_out := bs; w_end := w_end w; w_up := w_up w |}.
Definition flushed (w : Wire) : Wire := with_buf (with_out w (w_out w ++ w_buf w)) [].

(** Bytes arrive. *)
Definition arrive (w : Wire) (bs : bytes) : Wire := with_in w (w_in w ++ bs).

(** What comes of waiting for [n] bytes; [None] is to wait on. *)
Definition reading (n : nat) (w : Wire) : option (result WireError bytes * Wire) :=
  if decide (n ≤ length (w_in w))%nat then Some (Ok (take n (w_in w)), with_in w (drop n (w_in w)))
  else if w_end w then Some (Err UnexpectedEnd, with_in w [])
  else None.

Definition writing (bs : bytes) (w : Wire) : result WireError unit * Wire :=
  if w_up w then (Ok (), with_buf w (w_buf w ++ bs)) else (Err BrokenPipe, w).
Definition flushing (w : Wire) : result WireError unit * Wire :=
  if w_up w then (Ok (), flushed w) else (Err BrokenPipe, w).

Definition pstep {A} (p : Proc A) (w : Wire) : option (Proc A * Wire) :=
  match p with
  | Return _ => None
  | WriteAll bs k => let '(r, w) := writing bs w in Some (k r, w)
  | FlushAll k => let '(r, w) := flushing w in Some (k r, w)
  | ReadExact n k => '(r, w) ← reading n w; Some (k r, w)
  end.

(** Until it returns, or waits for bytes that are not there. *)
Fixpoint run_proc {A} (p : Proc A) (w : Wire) : Proc A * Wire :=
  match p with
  | Return a => (Return a, w)
  | WriteAll bs k => let '(r, w) := writing bs w in run_proc (k r) w
  | FlushAll k => let '(r, w) := flushing w in run_proc (k r) w
  | ReadExact n k => match reading n w with Some (r, w) => run_proc (k r) w | None => (ReadExact n k, w) end
  end.

Definition returned {A} (p : Proc A) : option A := match p with Return a => Some a | _ => None end.

Lemma run_bind {A B} (m : Proc A) (f : A → Proc B) w :
  run_proc (proc_bind m f) w =
  match run_proc m w with (Return a, w') => run_proc (f a) w' | (m', w') => (proc_bind m' f, w') end.
Proof.
  revert w. induction m as [a|bs k IH|k IH|n k IH]; intros w; cbn; [done|..].
  - destruct (writing bs w). apply IH.
  - destruct (flushing w). apply IH.
  - destruct (reading n w) as [[r w']|]; [apply IH|done].
Qed.

(** The rules for a program: what it returns, or that it waits. *)
Lemma run_bind_Ok {S A B} (c : wire S A) (f : A → wire S B) s w a s' w' :
  run_proc (c s) w = (Return (Ok a, s'), w') → run_proc ((c ≫= f) s) w = run_proc (f a s') w'.
Proof. intros E. unfold mbind, wire_bind. by rewrite run_bind, E. Qed.

Lemma run_bind_Err {S A B} (c : wire S A) (f : A → wire S B) s w e s' w' :
  run_proc (c s) w = (Return (Err e, s'), w') → run_proc ((c ≫= f) s) w = (Return (Err e, s'), w').
Proof. intros E. unfold mbind, wire_bind. by rewrite run_bind, E. Qed.

Lemma run_write {S} (s : S) bs w : w_up w = true →
  run_proc (write_all bs s) w = (Return (Ok (), s), with_buf w (w_buf w ++ bs)).
Proof. intros Hup. cbn. unfold writing. by rewrite Hup. Qed.

Lemma run_flush {S} (s : S) w : w_up w = true → run_proc (flush_all s) w = (Return (Ok (), s), flushed w).
Proof. intros Hup. cbn. unfold flushing. by rewrite Hup. Qed.

Lemma run_recv {S} (s : S) n bs rest w : w_in w = bs ++ rest → length bs = n →
  run_proc (recv_exact n s) w = (Return (Ok bs, s), with_in w rest).
Proof.
  intros Hin Hn. cbn. unfold reading. rewrite Hin, decide_True by (rewrite length_app; lia).
  by rewrite take_app_length', drop_app_length' by done.
Qed.

Lemma run_recv_end {S} (s : S) n w : w_end w = true → (length (w_in w) < n)%nat →
  run_proc (recv_exact n s) w = (Return (Err UnexpectedEnd, s), with_in w []).
Proof. intros He Hn. cbn. unfold reading. by rewrite He, decide_False by lia. Qed.

Definition waiting {A} (p : Proc A) (w : Wire) : Prop := run_proc p w = (p, w) ∧ returned p = None.

Lemma waiting_recv {S} (s : S) n w : w_end w = false → (length (w_in w) < n)%nat → waiting (recv_exact n s) w.
Proof. intros He Hn. split; [|done]. cbn. unfold reading. by rewrite He, decide_False by lia. Qed.

Lemma waiting_bind {A B} (m : Proc A) (f : A → Proc B) w : waiting m w → waiting (proc_bind m f) w.
Proof. intros [E Hr]. split; [|by destruct m]. rewrite run_bind, E. by destruct m. Qed.

(** ** Two programs *)

Section link.
Context {A B : Type}.
Implicit Types (p : Proc A) (q : Proc B) (w v : Wire).

Record Link : Type := { li_left : Proc A * Wire; li_right : Proc B * Wire }.

(** What one end has flushed arrives at the other. *)
Definition carried {X Y : Type} (x : X * Wire) (y : Y * Wire) : (X * Wire) * (Y * Wire) :=
  ((fst x, with_out (snd x) []), (fst y, arrive (snd y) (w_out (snd x)))).

Definition left_moved (x : Proc A * Wire) (y : Proc B * Wire) : Link :=
  {| li_left := fst (carried x y); li_right := snd (carried x y) |}.
Definition right_moved (x : Proc A * Wire) (y : Proc B * Wire) : Link :=
  {| li_left := snd (carried y x); li_right := fst (carried y x) |}.

(** Either end takes a step. *)
Inductive link_step : Link → Link → Prop :=
  | step_left p w x y : pstep p w = Some x → link_step {| li_left := (p, w); li_right := y |} (left_moved x y)
  | step_right q v x y : pstep q v = Some y → link_step {| li_left := x; li_right := (q, v) |} (right_moved x y).

(** Between the steps nothing is on its way. *)
Definition delivered (l : Link) : Prop := w_out (snd (li_left l)) = [] ∧ w_out (snd (li_right l)) = [].

(** Both ends stay open. *)
Definition open_ended (l : Link) : Prop := w_end (snd (li_left l)) = false ∧ w_end (snd (li_right l)) = false.
End link.
Arguments Link : clear implicits.

(** What has arrived does not change what a step does. *)
Lemma pstep_arrive {A} (p p' : Proc A) w w' bs : pstep p w = Some (p', w') → w_end w = false →
  pstep p (arrive w bs) = Some (p', arrive w' bs).
Proof.
  destruct p as [a|b k|k|n k]; cbn; [done|..].
  - unfold writing. cbn. destruct (w_up w); by intros [= <- <-].
  - unfold flushing. cbn. destruct (w_up w); by intros [= <- <-].
  - unfold reading. cbn. intros H He. rewrite He in H. destruct (decide (n ≤ length (w_in w))%nat) as [Hn|]; [|done].
    injection H as <- <-. rewrite decide_True by (rewrite length_app; lia). cbn. unfold arrive, with_in. cbn.
    by rewrite take_app_le, drop_app_le by done.
Qed.

Lemma pstep_open {A} (p p' : Proc A) w w' : pstep p w = Some (p', w') → w_end w' = w_end w.
Proof.
  destruct p as [a|b k|k|n k]; cbn; [done|..].
  - unfold writing. destruct (w_up w); by intros [= <- <-].
  - unfold flushing. destruct (w_up w); by intros [= <- <-].
  - unfold reading. destruct (decide _); [by intros [= <- <-]|]. destruct (w_end w) eqn:E; [|done]. intros [= <- <-]. done.
Qed.

(** What is on its way does not change what is done. *)
Lemma pstep_out {A} (p p' : Proc A) w w' : pstep p w = Some (p', w') →
  ∃ o, w_out w' = w_out w ++ o ∧ ∀ x, pstep p (with_out w x) = Some (p', with_out w' (x ++ o)).
Proof.
  destruct p as [a|bs k|k|n k]; cbn; [done|..].
  - unfold writing. cbn. destruct (w_up w); intros [= <- <-]; exists []; cbn; (split; [by rewrite app_nil_r|]);
      intros x; by rewrite app_nil_r.
  - unfold flushing. cbn. destruct (w_up w); intros [= <- <-]; [by exists (w_buf w)|].
    exists []. split; [by rewrite app_nil_r|]. intros x. by rewrite app_nil_r.
  - unfold reading. cbn. destruct (decide _); [|destruct (w_end w); [|done]]; intros [= <- <-]; exists []; cbn;
      (split; [by rewrite app_nil_r|]); intros x; by rewrite app_nil_r.
Qed.

Lemma run_steps {A} (p : Proc A) w : rtc (λ x y, pstep (fst x) (snd x) = Some y) (p, w) (run_proc p w).
Proof.
  revert w. induction p as [a|bs k IH|k IH|n k IH]; intros w; cbn; [done|..].
  - destruct (writing bs w) as [r w'] eqn:E. eapply rtc_l; [|apply IH]. cbn. by rewrite E.
  - destruct (flushing w) as [r w'] eqn:E. eapply rtc_l; [|apply IH]. cbn. by rewrite E.
  - destruct (reading n w) as [[r w']|] eqn:E; [|done]. eapply rtc_l; [|apply IH]. cbn. by rewrite E.
Qed.

(** ** Any interleaving *)

Section runs.
Context {A B : Type}.
Implicit Types (c d e : Link A B).

Lemma step_open c d : link_step c d → open_ended c → open_ended d.
Proof.
  intros Hs [Hl Hr]. destruct Hs as [p w [p' w'] y E|q v x [q' v'] E]; cbn in *; apply pstep_open in E;
    split; cbn; congruence.
Qed.

Lemma step_diamond c d e : open_ended c → link_step c d → link_step c e →
  d = e ∨ ∃ f, link_step d f ∧ link_step e f.
Proof.
  intros [Hl Hr] Hd He. destruct Hd as [p w [p' w'] [q v] Ep|q v [p w] [q' v'] Eq]; inversion He as [? ? x ? E|? ? ? x E]; subst;
    cbn in Hl, Hr.
  - left. congruence.
  - right. destruct x as [q' v']. pose proof (pstep_arrive _ _ _ _ (w_out w') E Hr) as E1.
    pose proof (pstep_arrive _ _ _ _ (w_out v') Ep Hl) as E2.
    eexists. split; [apply step_right; exact E1|]. exact (step_left _ _ _ _ E2).
  - right. destruct x as [p' w']. pose proof (pstep_arrive _ _ _ _ (w_out w') Eq Hr) as E1.
    pose proof (pstep_arrive _ _ _ _ (w_out v') E Hl) as E2.
    eexists. split; [apply step_left; exact E2|]. exact (step_right _ _ _ _ E1).
  - left. congruence.
Qed.

Lemma step_towards n c d e : open_ended c → link_step c e → nsteps link_step n c d → nf link_step d →
  ∃ m, n = S m ∧ nsteps link_step m e d.
Proof.
  revert c e. induction n as [|n IH]; intros c e Ho Hs Hn Hnf.
  - inversion Hn; subst. destruct Hnf. by exists e.
  - inversion Hn as [|? ? c' ? Hs' Hn']; subst. exists n. split; [done|].
    destruct (step_diamond c e c' Ho Hs Hs') as [->|(f & Hf & Hf')]; [done|].
    destruct (IH c' f) as (m & -> & Hm); [by eapply step_open|done..|]. by econstructor.
Qed.

(** Whatever the order of the steps, [d] is where they lead, after the same number of steps. *)
Definition ends_in c d : Prop :=
  nf link_step d ∧ ∃ n, ∀ m e, nsteps link_step m c e → (m ≤ n)%nat ∧ nsteps link_step (n - m) e d.

Lemma any_order c d : open_ended c → rtc link_step c d → nf link_step d → ends_in c d.
Proof.
  intros Ho [n Hn]%rtc_nsteps_1 Hnf. split; [done|]. exists n. intros m. revert n c Ho Hn.
  induction m as [|m IH]; intros n c Ho Hn e He; inversion He as [|? ? c' ? Hs He']; subst.
  - split; [lia|]. by rewrite Nat.sub_0_r.
  - destruct (step_towards n c d c' Ho Hs Hn Hnf) as (n' & -> & Hn').
    destruct (IH n' c' (step_open _ _ Hs Ho) Hn' e He') as [Hle Hk]. split; [lia|done].
Qed.

Lemma left_lift (x x' : Proc A * Wire) (y : Proc B * Wire) :
  rtc (λ x y, pstep (fst x) (snd x) = Some y) x x' → rtc link_step (left_moved x y) (left_moved x' y).
Proof.
  induction 1 as [|x x1 x' Hs Hrtc IH]; [done|]. destruct x as [p w], x1 as [p1 w1], y as [q v]. cbn in Hs.
  destruct (pstep_out _ _ _ _ Hs) as (o & Ho & Hx). eapply rtc_l; [apply step_left, (Hx [])|].
  unfold left_moved, carried, arrive, with_in in *. cbn in *. by rewrite Ho, app_assoc in IH.
Qed.

Lemma right_lift (x : Proc A * Wire) (y y' : Proc B * Wire) :
  rtc (λ x y, pstep (fst x) (snd x) = Some y) y y' → rtc link_step (right_moved x y) (right_moved x y').
Proof.
  induction 1 as [|y y1 y' Hs Hrtc IH]; [done|]. destruct y as [q v], y1 as [q1 v1], x as [p w]. cbn in Hs.
  destruct (pstep_out _ _ _ _ Hs) as (o & Ho & Hx). eapply rtc_l; [apply step_right, (Hx [])|].
  unfold right_moved, carried, arrive, with_in in *. cbn in *. by rewrite Ho, app_assoc in IH.
Qed.

Lemma left_moved_stay (x : Proc A * Wire) (y : Proc B * Wire) :
  w_out (snd x) = [] → left_moved x y = {| li_left := x; li_right := y |}.
Proof. destruct x as [p []], y as [q []]. cbn. intros ->. unfold left_moved, carried, arrive, with_in. cbn. by rewrite app_nil_r. Qed.

Lemma right_moved_stay (x : Proc A * Wire) (y : Proc B * Wire) :
  w_out (snd y) = [] → right_moved x y = {| li_left := x; li_right := y |}.
Proof. destruct x as [p []], y as [q []]. cbn. intros ->. unfold right_moved, carried, arrive, with_in. cbn. by rewrite app_nil_r. Qed.

(** One end runs until it returns or waits. *)
Lemma left_runs (p : Proc A) w (y : Proc B * Wire) x' : run_proc p w = x' → w_out w = [] →
  rtc link_step {| li_left := (p, w); li_right := y |} (left_moved x' y).
Proof. intros <- Ho. rewrite <- (left_moved_stay (p, w) y Ho). apply left_lift, run_steps. Qed.

Lemma right_runs (x : Proc A * Wire) (q : Proc B) v y' : run_proc q v = y' → w_out v = [] →
  rtc link_step {| li_left := x; li_right := (q, v) |} (right_moved x y').
Proof. intros <- Ho. rewrite <- (right_moved_stay x (q, v) Ho). apply right_lift, run_steps. Qed.

Lemma both_returned (a : A) (b : B) w v : nf link_step {| li_left := (Return a, w); li_right := (Return b, v) |}.
Proof. intros [l Hl]. inversion Hl; subst; done. Qed.
End runs.

(** The ends of a connection that was just made. *)
Definition idle_wire : Wire := {| w_in := []; w_buf := []; w_out := []; w_end := false; w_up := true |}.

(** The two programs are started. *)
Definition connected {A B} (p : Proc A) (q : Proc B) : Link A B :=
  {| li_left := (p, idle_wire); li_right := (q, idle_wire) |}.

(** Whatever the interleaving, the programs return [a] and [b], and nothing is left between them. *)
Definition both_return {A B} (p : Proc A) (q : Proc B) (a : A) (b : B) : Prop :=
  ends_in (connected p q) (connected (Return a) (Return b)).
