(* ===== verification/Protocol.v ===== *)
(** * The message protocols of a stream

    comms/src/protocol: the three versions of the framing that a connection carries its messages
    in, and the halves of a stream ([StreamRx], [StreamTx]) that use one of them.  Of the sockets
    a protocol has only whether they are there: what is written and read goes to the end of the
    connection that the program runs on (Wire.v). *)

From S2P Require Import Prelude Wire LogApi Crypto.

(** [tx_guard] and [rx_guard]. *)
Definition guard {S} (has : S → bool) : wire S unit :=
  wire_mk (λ s, if has s then Return (Ok (), s) else Return (Err Unsupported, s)).

Definition byte_len (bs : bytes) : Z := Z.of_nat (length bs).

(** [vec![0; len]] is filled. *)
Definition recv_vec {S} (has_rx : S → bool) (len : Z) : wire S bytes :=
  _ ← guard has_rx; recv_exact (Z.to_nat len).

Definition recv_uint {S} (has_rx : S → bool) (width : nat) : wire S Z :=
  bs ← recv_vec has_rx (Z.of_nat width); mret (from_be bs).

(** A buffer behind its length; nothing is read for a length of zero. *)
Definition recv_counted {S} (has_rx : S → bool) (width : nat) : wire S bytes :=
  len ← recv_uint has_rx width; if decide (len ≤ 0) then mret [] else recv_vec has_rx len.

(** What was gathered is flushed, unless that is left to a later write. *)
Definition flush_unless {S} (delay_flush : bool) : wire S unit := if delay_flush then mret () else flush_all.

(** [InitializationVector::generate]. *)
Definition generate_iv (rnd : bytes) : InitializationVector := {| iv_bytes := fit 16 rnd |}.

(** ** Version 1 *)

Module V1.
Record MessageProtocol : Type := { rx : bool; tx : bool }.

Definition new (rx tx : bool) : MessageProtocol := {| rx := rx; tx := tx |}.

(** The three widths of a header: what is small goes out in one write. *)
Definition write_counted (width : nat) (max small : Z) (buf : bytes) (delay_flush : bool)
    : wire MessageProtocol Z :=
  _ ← guard tx;
  if decide (max < byte_len buf) then wire_fail InvalidData
  else
    let len_buf := to_be width (byte_len buf) in
    if decide (byte_len buf ≤ small) then
      _ ← write_all (len_buf ++ buf);
      _ ← flush_unless delay_flush;
      mret (byte_len (len_buf ++ buf))
    else
      _ ← write_all len_buf;
      _ ← write_all buf;
      _ ← flush_unless delay_flush;
      mret (byte_len len_buf + byte_len buf).

Definition write_with_8bit_header := write_counted 1 u8_max 63.
Definition write_with_16bit_header := write_counted 2 u16_max 62.
Definition write_with_32bit_header := write_counted 4 u32_max 60.

Definition read_exact := recv_vec rx.
Definition read_u8 := recv_uint rx 1.
Definition read_u16 := recv_uint rx 2.
Definition read_u32 := recv_uint rx 4.
Definition read_with_8bit_header : wire MessageProtocol bytes := recv_counted rx 1.
Definition read_with_fixed_16bit_header : wire MessageProtocol bytes := recv_counted rx 2.
Definition read_with_fixed_32bit_header : wire MessageProtocol bytes := recv_counted rx 4.

Definition write_with_fixed_16bit_header := write_with_16bit_header.
Definition write_with_fixed_32bit_header := write_with_32bit_header.

Section ops.
Context `{CryptoPrims}.

Definition send (rnd : bytes) (wire_encryption : option EncryptKey) (data : bytes) : wire MessageProtocol Z :=
  match wire_encryption with
  | Some key =>
      let enc := EncryptKey.encrypt key rnd data in
      n ← write_with_8bit_header (iv_bytes (er_iv enc)) true;
      m ← write_with_32bit_header (er_data enc) false;
      mret (n + m)
  | None => write_with_32bit_header data false
  end.

(** Nothing is a broken pipe. *)
Definition read_buf_with_header (wire_encryption : option EncryptKey) (total_read : Z)
    : wire MessageProtocol (bytes * Z) :=
  match wire_encryption with
  | Some key =>
      iv ← read_with_8bit_header;
      match iv with
      | [] => wire_fail BrokenPipe
      | _ =>
          cipher ← read_with_fixed_32bit_header;
          match cipher with
          | [] => wire_fail BrokenPipe
          | _ => mret (EncryptKey.decrypt key {| iv_bytes := iv |} cipher,
                       total_read + 1 + byte_len iv + 4 + byte_len cipher)
          end
      end
  | None =>
      buf ← read_with_fixed_32bit_header;
      match buf with
      | [] => wire_fail BrokenPipe
      | _ => mret (buf, total_read + 4 + byte_len buf)
      end
  end.
End ops.

Definition send_close : wire MessageProtocol unit := mret ().
Definition flush : wire MessageProtocol unit := _ ← guard tx; flush_all.
End V1.

(** ** Operation codes *)

(** The codes of [MessageOpCode]; version 3 has [Close] as well. *)
Definition op_noop : Z := 0.
Definition op_new_iv : Z := 1.
Definition op_buf16 : Z := 2.
Definition op_buf32 : Z := 3.
Definition op_close : Z := 4.

Definition MESSAGE_MAX_IV_REUSE : Z := 1000.

(** ** Version 2 *)

Module V2.
Record MessageProtocol : Type := {
  iv_tx : option InitializationVector;
  iv_rx : option InitializationVector;
  iv_use_cnt : Z;
  rx : bool;
  tx : bool;
}.

Definition new (rx tx : bool) : MessageProtocol :=
  {| iv_tx := None; iv_rx := None; iv_use_cnt := 0; rx := rx; tx := tx |}.

Definition with_iv_tx (s : MessageProtocol) (iv : InitializationVector) (cnt : Z) : MessageProtocol :=
  {| iv_tx := Some iv; iv_rx := iv_rx s; iv_use_cnt := cnt; rx := rx s; tx := tx s |}.
Definition with_iv_rx (s : MessageProtocol) (iv : InitializationVector) : MessageProtocol :=
  {| iv_tx := iv_tx s; iv_rx := Some iv; iv_use_cnt := iv_use_cnt s; rx := rx s; tx := tx s |}.

Definition MAX_MESSAGE_OP_CODE : Z := 4.

(** What precedes a buffer; [None] is a buffer that is too big. *)
Definition header_of (max_op len : Z) : option bytes :=
  if decide (len < u8_max - max_op) then Some [byte_of_Z (max_op + len)]
  else if decide (len < u16_max) then Some (byte_of_Z op_buf16 :: to_be 2 len)
  else if decide (len < u32_max) then Some (byte_of_Z op_buf32 :: to_be 4 len)
  else None.

Definition write_with_header (max_op : Z) (buf : bytes) (delay_flush : bool) : wire MessageProtocol Z :=
  _ ← guard tx;
  match header_of max_op (byte_len buf) with
  | None => wire_fail InvalidData
  | Some op =>
      if decide (byte_len buf ≤ 62) then
        _ ← write_all (op ++ buf);
        _ ← flush_unless delay_flush;
        mret (byte_len (op ++ buf))
      else
        _ ← write_all op;
        _ ← write_all buf;
        _ ← flush_unless delay_flush;
        mret (byte_len op + byte_len buf)
  end.

Definition write_fixed (width : nat) (max : Z) (buf : bytes) (delay_flush : bool) : wire MessageProtocol Z :=
  _ ← guard tx;
  if decide (byte_len buf < max) then
    let header := to_be width (byte_len buf) in
    _ ← write_all header;
    _ ← write_all buf;
    _ ← flush_unless delay_flush;
    mret (byte_len header + byte_len buf)
  else wire_fail InvalidData.

Definition write_with_fixed_16bit_header := write_fixed 2 u16_max.
Definition write_with_fixed_32bit_header := write_fixed 4 u32_max.

Definition read_exact := recv_vec rx.
Definition read_u8 := recv_uint rx 1.
Definition read_u16 := recv_uint rx 2.
Definition read_u32 := recv_uint rx 4.
Definition read_with_fixed_16bit_header : wire MessageProtocol bytes := recv_counted rx 2.
Definition read_with_fixed_32bit_header : wire MessageProtocol bytes := recv_counted rx 4.

Section ops.
Context `{CryptoPrims}.

Definition new_iv (rnd : bytes) : wire MessageProtocol InitializationVector :=
  let iv := generate_iv rnd in
  _ ← guard tx;
  _ ← write_all (byte_of_Z op_new_iv :: iv_bytes iv);
  s ← wire_get; _ ← wire_put (with_iv_tx s iv 0); mret iv.

(** A new initialization vector for the first message, and when the last one was used often
    enough. *)
Definition choose_iv (rnd : bytes) : wire MessageProtocol InitializationVector :=
  s ← wire_get;
  match iv_tx s with
  | Some iv =>
      if decide (MESSAGE_MAX_IV_REUSE < iv_use_cnt s) then new_iv rnd
      else _ ← wire_put (with_iv_tx s iv (iv_use_cnt s + 1)); mret iv
  | None => new_iv rnd
  end.

Definition send_with (max_op : Z) (rnd : bytes) (wire_encryption : option EncryptKey) (data : bytes)
    : wire MessageProtocol Z :=
  match wire_encryption with
  | Some key =>
      iv ← choose_iv rnd;
      write_with_header max_op (EncryptKey.encrypt_with_iv key iv data) false
  | None => write_with_header max_op data false
  end.

Definition send := send_with MAX_MESSAGE_OP_CODE.

(** The buffer that a header announces. *)
Definition read_body (wire_encryption : option EncryptKey) (len total_read : Z)
    : wire MessageProtocol (bytes * Z) :=
  bs ← read_exact len;
  let total_read := total_read + len in
  match wire_encryption with
  | Some key =>
      s ← wire_get;
      match iv_rx s with
      | None => wire_fail BrokenPipe
      | Some iv => mret (EncryptKey.decrypt key iv bs, total_read)
      end
  | None => mret (bs, total_read)
  end.

Definition read_iv : wire MessageProtocol unit :=
  iv ← read_exact 16; s ← wire_get; wire_put (with_iv_rx s {| iv_bytes := iv |}).

(** One operation code for each unit of [fuel]. *)
Fixpoint read_buf_with_header (fuel : nat) (wire_encryption : option EncryptKey) (total_read : Z)
    : wire MessageProtocol (bytes * Z) :=
  match fuel with
  | O => wire_fail Stalled
  | S fuel =>
      op ← read_u8;
      let total_read := total_read + 1 in
      if decide (op = op_noop) then read_buf_with_header fuel wire_encryption total_read
      else if decide (op = op_new_iv) then
        _ ← read_iv; read_buf_with_header fuel wire_encryption (total_read + 16)
      else if decide (op = op_buf16) then
        len ← read_u16; read_body wire_encryption len (total_read + 2)
      else if decide (op = op_buf32) then
        len ← read_u32; read_body wire_encryption len (total_read + 4)
      else read_body wire_encryption (op - MAX_MESSAGE_OP_CODE) total_read
  end.
End ops.

Definition send_close : wire MessageProtocol unit := mret ().
Definition flush : wire MessageProtocol unit := _ ← guard tx; flush_all.
End V2.

(** ** Version 3 *)

Module V3.
(** The fields of version 2, and those of closing. *)
Record MessageProtocol : Type := {
  packed : V2.MessageProtocol;
  flip_to_abort : bool;
  is_closed : bool;
}.

Definition new (rx tx : bool) : MessageProtocol :=
  {| packed := V2.new rx tx; flip_to_abort := false; is_closed := false |}.

Definition rx (s : MessageProtocol) : bool := V2.rx (packed s).
Definition tx (s : MessageProtocol) : bool := V2.tx (packed s).

Definition with_packed (s : MessageProtocol) (p : V2.MessageProtocol) : MessageProtocol :=
  {| packed := p; flip_to_abort := flip_to_abort s; is_closed := is_closed s |}.
Definition closed (s : MessageProtocol) : MessageProtocol :=
  {| packed := packed s; flip_to_abort := flip_to_abort s; is_closed := true |}.
Definition aborting (s : MessageProtocol) : MessageProtocol :=
  {| packed := packed s; flip_to_abort := true; is_closed := is_closed s |}.

Definition on_packed {A} (c : wire V2.MessageProtocol A) : wire MessageProtocol A :=
  wire_mk (λ s, proc_bind (c (packed s)) (λ '(r, p), Return (r, with_packed s p))).

Definition MAX_MESSAGE_OP_CODE : Z := 8.

Definition write_with_header (buf : bytes) (delay_flush : bool) : wire MessageProtocol Z :=
  on_packed (V2.write_with_header MAX_MESSAGE_OP_CODE buf delay_flush).

(** A closed stream says so once, and is broken from then on. *)
Definition check_abort : wire MessageProtocol bool :=
  wire_mk (λ s,
    if is_closed s then
      if flip_to_abort s then Return (Err BrokenPipe, s) else Return (Ok true, aborting s)
    else Return (Ok false, s)).

Definition write_fixed (width : nat) (max : Z) (buf : bytes) (delay_flush : bool) : wire MessageProtocol Z :=
  aborted ← check_abort;
  if (aborted : bool) then mret 0
  else if decide (byte_len buf < max) then
    let header := to_be width (byte_len buf) in
    _ ← guard tx;
    _ ← write_all header;
    _ ← write_all buf;
    _ ← flush_unless delay_flush;
    mret (byte_len header + byte_len buf)
  else wire_fail InvalidData.

Definition write_with_fixed_16bit_header := write_fixed 2 u16_max.
Definition write_with_fixed_32bit_header := write_fixed 4 u32_max.

Definition read_exact := recv_vec rx.
Definition read_u8 := recv_uint rx 1.
Definition read_u16 := recv_uint rx 2.
Definition read_u32 := recv_uint rx 4.

Definition read_fixed (width : nat) : wire MessageProtocol bytes :=
  aborted ← check_abort; if (aborted : bool) then mret [] else recv_counted rx width.
Definition read_with_fixed_16bit_header : wire MessageProtocol bytes := read_fixed 2.
Definition read_with_fixed_32bit_header : wire MessageProtocol bytes := read_fixed 4.

Section ops.
Context `{CryptoPrims}.

Definition send (rnd : bytes) (wire_encryption : option EncryptKey) (data : bytes) : wire MessageProtocol Z :=
  aborted ← check_abort;
  if (aborted : bool) then mret 0
  else on_packed (V2.send_with MAX_MESSAGE_OP_CODE rnd wire_encryption data).

(** The codes from 5 to 7 mean nothing: the length is taken from below zero. *)
Fixpoint read_buf_with_header (fuel : nat) (wire_encryption : option EncryptKey) (total_read : Z)
    : wire MessageProtocol (bytes * Z) :=
  match fuel with
  | O => wire_fail Stalled
  | S fuel =>
      aborted ← check_abort;
      if (aborted : bool) then mret ([], total_read)
      else
        op ← read_u8;
        let total_read := total_read + 1 in
        if decide (op = op_noop) then read_buf_with_header fuel wire_encryption total_read
        else if decide (op = op_new_iv) then
          _ ← on_packed V2.read_iv; read_buf_with_header fuel wire_encryption (total_read + 16)
        else if decide (op = op_buf16) then
          len ← read_u16; on_packed (V2.read_body wire_encryption len (total_read + 2))
        else if decide (op = op_buf32) then
          len ← read_u32; on_packed (V2.read_body wire_encryption len (total_read + 4))
        else if decide (op = op_close) then
          _ ← wire_mk (λ s, Return (Ok (), closed s)); read_buf_with_header fuel wire_encryption total_read
        else if decide (op < MAX_MESSAGE_OP_CODE) then wire_fail WirePanic
        else on_packed (V2.read_body wire_encryption (op - MAX_MESSAGE_OP_CODE) total_read)
  end.
End ops.

Definition send_close : wire MessageProtocol unit :=
  _ ← guard tx;
  _ ← write_all [byte_of_Z op_close];
  _ ← flush_all;
  wire_mk (λ s, Return (Ok (), closed s)).
Definition flush : wire MessageProtocol unit := _ ← guard tx; flush_all.
End V3.

(** ** Any version *)

Inductive MessageProtocolVersion : Type := Version1 | Version2 | Version3.

#[global] Instance version_eq_dec : EqDecision MessageProtocolVersion.
Proof. solve_decision. Defined.

(** [Box<dyn MessageProtocolApi>]. *)
Inductive Protocol : Type :=
  | Proto1 (p : V1.MessageProtocol)
  | Proto2 (p : V2.MessageProtocol)
  | Proto3 (p : V3.MessageProtocol).

Module MessageProtocolVersion.
Definition default : MessageProtocolVersion := Version3.

Definition as_u16 (v : MessageProtocolVersion) : Z :=
  match v with Version1 => 1 | Version2 => 2 | Version3 => 3 end.

Definition min (v other : MessageProtocolVersion) : MessageProtocolVersion :=
  if decide (as_u16 v = Z.min (as_u16 v) (as_u16 other)) then v else other.

Definition create (v : MessageProtocolVersion) (rx tx : bool) : Protocol :=
  match v with
  | Version1 => Proto1 (V1.new rx tx)
  | Version2 => Proto2 (V2.new rx tx)
  | Version3 => Proto3 (V3.new rx tx)
  end.
End MessageProtocolVersion.

Module Protocol.
Definition version (p : Protocol) : MessageProtocolVersion :=
  match p with Proto1 _ => Version1 | Proto2 _ => Version2 | Proto3 _ => Version3 end.

(** [take_rx] and [take_tx] leave the protocol without its sockets. *)
Definition rx (p : Protocol) : bool :=
  match p with Proto1 s => V1.rx s | Proto2 s => V2.rx s | Proto3 s => V3.rx s end.
Definition tx (p : Protocol) : bool :=
  match p with Proto1 s => V1.tx s | Proto2 s => V2.tx s | Proto3 s => V3.tx s end.

(** The call goes to the version of the protocol. *)
Definition dispatch {A} (c1 : wire V1.MessageProtocol A) (c2 : wire V2.MessageProtocol A)
    (c3 : wire V3.MessageProtocol A) : wire Protocol A :=
  wire_mk (λ p, match p with
                | Proto1 s => proc_bind (c1 s) (λ '(r, s), Return (r, Proto1 s))
                | Proto2 s => proc_bind (c2 s) (λ '(r, s), Return (r, Proto2 s))
                | Proto3 s => proc_bind (c3 s) (λ '(r, s), Return (r, Proto3 s))
                end).

Definition write_with_fixed_16bit_header (buf : bytes) (delay_flush : bool) : wire Protocol Z :=
  dispatch (V1.write_with_fixed_16bit_header buf delay_flush) (V2.write_with_fixed_16bit_header buf delay_flush)
    (V3.write_with_fixed_16bit_header buf delay_flush).
Definition write_with_fixed_32bit_header (buf : bytes) (delay_flush : bool) : wire Protocol Z :=
  dispatch (V1.write_with_fixed_32bit_header buf delay_flush) (V2.write_with_fixed_32bit_header buf delay_flush)
    (V3.write_with_fixed_32bit_header buf delay_flush).
Definition read_with_fixed_16bit_header : wire Protocol bytes :=
  dispatch V1.read_with_fixed_16bit_header V2.read_with_fixed_16bit_header V3.read_with_fixed_16bit_header.
Definition read_with_fixed_32bit_header : wire Protocol bytes :=
  dispatch V1.read_with_fixed_32bit_header V2.read_with_fixed_32bit_header V3.read_with_fixed_32bit_header.
Definition send_close : wire Protocol unit := dispatch V1.send_close V2.send_close V3.send_close.
Definition flush : wire Protocol unit := dispatch V1.flush V2.flush V3.flush.

Section ops.
Context `{CryptoPrims}.
Definition send (rnd : bytes) (wire_encryption : option EncryptKey) (data : bytes) : wire Protocol Z :=
  dispatch (V1.send rnd wire_encryption data) (V2.send rnd wire_encryption data) (V3.send rnd wire_encryption data).
Definition read_buf_with_header (fuel : nat) (wire_encryption : option EncryptKey) (total_read : Z)
    : wire Protocol (bytes * Z) :=
  dispatch (V1.read_buf_with_header wire_encryption total_read) (V2.read_buf_with_header fuel wire_encryption total_read)
    (V3.read_buf_with_header fuel wire_encryption total_read).
End ops.

(** The sockets go over to a new protocol. *)
Definition upgrade (v : MessageProtocolVersion) (p : Protocol) : Protocol :=
  MessageProtocolVersion.create v (rx p) (tx p).
End Protocol.

(** ** The halves of a stream *)

Record StreamRx : Type := { srx_proto : Protocol; srx_ek : option EncryptKey }.
Record StreamTx : Type := { stx_proto : Protocol; stx_ek : option EncryptKey }.

Definition split (p : Protocol) (ek : option EncryptKey) : StreamRx * StreamTx :=
  ({| srx_proto := MessageProtocolVersion.create (Protocol.version p) (Protocol.rx p) false; srx_ek := ek |},
   {| stx_proto := MessageProtocolVersion.create (Protocol.version p) false (Protocol.tx p); stx_ek := ek |}).

Module StreamRx.
Definition read `{CryptoPrims} (fuel : nat) : wire StreamRx bytes :=
  wire_mk (λ s, proc_bind (Protocol.read_buf_with_header fuel (srx_ek s) 0 (srx_proto s))
    (λ '(r, p), Return (fst <$> r, {| srx_proto := p; srx_ek := srx_ek s |}))).
End StreamRx.

Module StreamTx.
Definition on_proto {A} (c : StreamTx → wire Protocol A) : wire StreamTx A :=
  wire_mk (λ s, proc_bind (c s (stx_proto s)) (λ '(r, p), Return (r, {| stx_proto := p; stx_ek := stx_ek s |}))).

Definition write `{CryptoPrims} (rnd data : bytes) : wire StreamTx Z := on_proto (λ s, Protocol.send rnd (stx_ek s) data).
Definition flush : wire StreamTx unit := on_proto (λ _, Protocol.flush).
Definition close : wire StreamTx unit := on_proto (λ _, Protocol.send_close).
Definition wire_encryption (s : StreamTx) : option EncryptKey := stx_ek s.
End StreamTx.
