(* ===== verification/ProtocolSpec.v ===== *)
(** * What the message protocols put on the wire

    For each version of comms/src/protocol the bytes that carry a message ([frame1], [frame2]), that
    sending a message sends them, and that reading takes the message from them. *)

From S2P Require Import Prelude Wire LogApi Crypto Protocol.

(** ** Reading and writing *)

(** Bytes that leave at once. *)
Definition shipped (w : Wire) (bs : bytes) : Wire := with_out w (w_out w ++ bs).

(** An end that can be written to, with nothing left behind. *)
Definition writable (w : Wire) : Prop := w_up w = true ∧ w_buf w = [].

Lemma flushed_shipped w bs : w_buf w = [] → flushed (with_buf w bs) = shipped w bs.
Proof. intros Hb. unfold flushed, shipped, with_buf, with_out. cbn. by rewrite Hb. Qed.

Section recv.
Context {S : Type}.
Implicit Types (s : S) (w : Wire).

Lemma run_guard (has : S → bool) s w : has s = true → run_proc (guard has s) w = (Return (Ok (), s), w).
Proof. intros Hh. unfold guard, wire_mk. by rewrite Hh. Qed.

Lemma run_recv_vec has s w n bs rest : has s = true → w_in w = bs ++ rest → byte_len bs = n →
  run_proc (recv_vec has n s) w = (Return (Ok bs, s), with_in w rest).
Proof.
  intros Hh Hin Hn. unfold recv_vec. rewrite (run_bind_Ok _ _ _ _ _ _ _ (run_guard has s w Hh)).
  apply run_recv; [done|]. unfold byte_len in Hn. lia.
Qed.

Lemma run_recv_uint has s w width z rest : has s = true → w_in w = to_be width z ++ rest →
  0 ≤ z < 256 ^ Z.of_nat width → run_proc (recv_uint has width s) w = (Return (Ok z, s), with_in w rest).
Proof.
  intros Hh Hin Hz. unfold recv_uint.
  erewrite run_bind_Ok; [|by apply (run_recv_vec has s w (Z.of_nat width)); [|exact Hin|unfold byte_len; rewrite to_be_length]].
  cbn. by rewrite from_be_to_be.
Qed.

Lemma run_recv_counted has s w width buf rest : has s = true →
  w_in w = to_be width (byte_len buf) ++ buf ++ rest → byte_len buf < 256 ^ Z.of_nat width →
  run_proc (recv_counted has width s) w = (Return (Ok buf, s), with_in w rest).
Proof.
  intros Hh Hin Hz. unfold recv_counted.
  erewrite run_bind_Ok; [|apply run_recv_uint; [done|exact Hin|unfold byte_len in *; lia]].
  destruct (decide (byte_len buf ≤ 0)) as [Hle|].
  - destruct buf; [done|]. unfold byte_len in Hle. cbn in Hle. lia.
  - by erewrite (run_recv_vec _ _ _ _ buf rest).
Qed.

Lemma run_flush_unless (delay : bool) s w : w_up w = true →
  run_proc (flush_unless delay s) w = (Return (Ok (), s), if delay then w else flushed w).
Proof. intros Hup. destruct delay; [done|]. by apply run_flush. Qed.

(** What follows a header in one write, or in two. *)
Lemma run_two_writes {A} (delay : bool) s w hdr buf (n : A) : w_up w = true →
  run_proc ((_ ← write_all hdr; _ ← write_all buf; _ ← flush_unless delay; mret n) s) w
  = (Return (Ok n, s), let w' := with_buf w (w_buf w ++ hdr ++ buf) in if delay then w' else flushed w').
Proof.
  intros Hup. rewrite (run_bind_Ok _ _ _ _ _ _ _ (run_write s hdr w Hup)).
  erewrite run_bind_Ok; [|by apply run_write]. erewrite run_bind_Ok; [|by apply run_flush_unless].
  cbn. unfold with_buf. cbn. by rewrite <- app_assoc.
Qed.

Lemma run_one_write {A} (delay : bool) s w bs (n : A) : w_up w = true →
  run_proc ((_ ← write_all bs; _ ← flush_unless delay; mret n) s) w
  = (Return (Ok n, s), let w' := with_buf w (w_buf w ++ bs) in if delay then w' else flushed w').
Proof.
  intros Hup. rewrite (run_bind_Ok _ _ _ _ _ _ _ (run_write s bs w Hup)).
  by erewrite run_bind_Ok; [|by apply run_flush_unless].
Qed.

Lemma wait_recv_uint has s w width : has s = true → w_in w = [] → w_end w = false → (0 < width)%nat →
  waiting (recv_uint has width s) w.
Proof.
  intros Hh Hin He Hw. unfold recv_uint, mbind, wire_bind. apply waiting_bind.
  unfold recv_vec, mbind, wire_bind, guard, wire_mk. rewrite Hh. apply (waiting_recv s); [done|]. rewrite Hin. cbn. lia.
Qed.
End recv.

Lemma encrypt_iv_len `{CryptoPrims} k iv d : byte_len (EncryptKey.encrypt_with_iv k iv d) = byte_len d.
Proof. unfold byte_len. by rewrite encrypt_with_iv_length. Qed.

(** ** What is between the ends *)

(** The messages in flight as bytes.  [frame x d bs y] says that [bs] carries the message [d] to a
    reader in the state [x], which it leaves in the state [y]. *)
Inductive inflight {X : Type} (frame : X → bytes → bytes → X → Prop) : X → list bytes → bytes → X → Prop :=
  | inflight_nil x : inflight frame x [] [] x
  | inflight_cons x y z d ds bs rest : frame x d bs y → inflight frame y ds rest z →
      inflight frame x (d :: ds) (bs ++ rest) z.

Lemma inflight_snoc {X} (frame : X → bytes → bytes → X → Prop) x y z ds rest d bs :
  inflight frame x ds rest y → frame y d bs z → inflight frame x (ds ++ [d]) (rest ++ bs) z.
Proof.
  intros Hds Hd. induction Hds as [x|x y y' d' ds bs' rest Hd' Hds IH]; cbn.
  - rewrite <- (app_nil_r bs). eapply inflight_cons; [done|constructor].
  - rewrite <- app_assoc. eapply inflight_cons; [done|]. by apply IH.
Qed.

Section frames.
Context `{CryptoPrims}.

(** What is sent instead of a message. *)
Definition sealed (ek : option EncryptKey) (iv : option InitializationVector) (d : bytes) : bytes :=
  match ek, iv with Some key, Some iv => EncryptKey.encrypt_with_iv key iv d | _, _ => d end.

Lemma sealed_len ek iv d : byte_len (sealed ek iv d) = byte_len d.
Proof. destruct ek, iv; [apply encrypt_iv_len|done..]. Qed.

(** Version 1: the vector and the message, each behind its length. *)
Definition frame1 (ek : option EncryptKey) (_ : unit) (d bs : bytes) (_ : unit) : Prop :=
  0 < byte_len d ≤ u32_max ∧
  match ek with
  | None => bs = to_be 4 (byte_len d) ++ d
  | Some key => ∃ iv, length (iv_bytes iv) = 16%nat
      ∧ bs = to_be 1 16 ++ iv_bytes iv ++ to_be 4 (byte_len d) ++ EncryptKey.encrypt_with_iv key iv d
  end.

(** Versions 2 and 3: perhaps a new vector, and the message behind its operation code. *)
Definition frame2 (max_op : Z) (ek : option EncryptKey) (x : option InitializationVector) (d bs : bytes)
    (y : option InitializationVector) : Prop :=
  ∃ hdr, V2.header_of max_op (byte_len d) = Some hdr ∧
  match ek with
  | None => bs = hdr ++ d ∧ x = y
  | Some _ => ∃ iv, y = Some iv ∧
      (x = Some iv ∧ bs = hdr ++ sealed ek y d
       ∨ length (iv_bytes iv) = 16%nat ∧ bs = byte_of_Z op_new_iv :: iv_bytes iv ++ hdr ++ sealed ek y d)
  end.

(** What [send] counts: the vectors of versions 2 and 3 are left out. *)
Definition sent_size (v : MessageProtocolVersion) (ek : option EncryptKey) (d : bytes) : Z :=
  byte_len d +
  match v with
  | Version1 => match ek with Some _ => 21 | None => 4 end
  | Version2 => byte_len (default [] (V2.header_of V2.MAX_MESSAGE_OP_CODE (byte_len d)))
  | Version3 => byte_len (default [] (V2.header_of V3.MAX_MESSAGE_OP_CODE (byte_len d)))
  end.

(** The messages that a version takes: version 1 has none that are empty. *)
Definition fits (v : MessageProtocolVersion) (d : bytes) : Prop :=
  match v with
  | Version1 => 0 < byte_len d ≤ u32_max
  | _ => byte_len d < u32_max
  end.

(** *** Version 1 *)

Lemma v1_write width max small buf delay s w : V1.tx s = true → w_up w = true → byte_len buf ≤ max →
  run_proc (V1.write_counted width max small buf delay s) w
  = (Return (Ok (Z.of_nat width + byte_len buf), s),
     let w' := with_buf w (w_buf w ++ to_be width (byte_len buf) ++ buf) in if delay then w' else flushed w').
Proof.
  intros Htx Hup Hmax. unfold V1.write_counted. rewrite (run_bind_Ok _ _ _ _ _ _ _ (run_guard V1.tx s w Htx)).
  rewrite decide_False by lia. destruct (decide (byte_len buf ≤ small)).
  - rewrite run_one_write by done. unfold byte_len. rewrite length_app, to_be_length, Nat2Z.inj_add. done.
  - rewrite run_two_writes by done. unfold byte_len at 1. by rewrite to_be_length.
Qed.

Lemma v1_send rnd ek d s w : V1.tx s = true → writable w → fits Version1 d →
  ∃ bs, run_proc (V1.send rnd ek d s) w = (Return (Ok (sent_size Version1 ek d), s), shipped w bs)
    ∧ frame1 ek () d bs ().
Proof.
  intros Htx [Hup Hbuf] Hfit. cbn in Hfit. unfold V1.send. destruct ek as [key|].
  - cbn [EncryptKey.encrypt er_iv er_data]. set (iv := {| iv_bytes := fit 16 rnd |}).
    assert (byte_len (iv_bytes iv) = 16) as Hiv by (unfold byte_len, iv; cbn; by rewrite fit_length).
    clearbody iv.
    erewrite run_bind_Ok; [|apply v1_write; [done..|unfold u8_max; lia]].
    erewrite run_bind_Ok; [|apply v1_write; [done..|]]; [|rewrite encrypt_iv_len; lia].
    rewrite encrypt_iv_len. cbn -[to_be]. eexists. split; [|split; [done|]; exists iv; split; [|reflexivity]].
    + rewrite Hiv. f_equal; [unfold sent_size; do 3 f_equal; lia|]. rewrite Hbuf. cbn -[to_be]. unfold flushed, shipped, with_buf, with_out.
      cbn -[to_be]. by rewrite Hbuf, <- !app_assoc.
    + unfold byte_len in Hiv. lia.
  - unfold V1.write_with_32bit_header. rewrite v1_write by (done || lia). cbn -[to_be]. eexists. split; [|split; [done|reflexivity]].
    rewrite Hbuf. rewrite flushed_shipped by done. unfold sent_size. do 4 f_equal. lia.
Qed.

Lemma v1_read ek d bs rest t s w : V1.rx s = true → frame1 ek () d bs () → w_in w = bs ++ rest →
  ∃ n, run_proc (V1.read_buf_with_header ek t s) w = (Return (Ok (d, n), s), with_in w rest).
Proof.
  intros Hrx [Hlen Hbs] Hin. unfold V1.read_buf_with_header. destruct ek as [key|].
  - destruct Hbs as (iv & Hiv & ->). rewrite <- !app_assoc in Hin.
    erewrite run_bind_Ok; [|apply (run_recv_counted V1.rx s w 1 (iv_bytes iv)); [done| |unfold byte_len; rewrite Hiv; lia]];
      [|by unfold byte_len; rewrite Hiv; exact Hin].
    destruct (iv_bytes iv) as [|b bs] eqn:Eiv; [done|]. rewrite <- Eiv in *.
    erewrite run_bind_Ok; [|apply (run_recv_counted V1.rx s _ 4 (EncryptKey.encrypt_with_iv key iv d)); [done| |]].
    2: { rewrite encrypt_iv_len. reflexivity. }
    2: { rewrite encrypt_iv_len. unfold u32_max in Hlen. lia. }
    pose proof (encrypt_iv_len key iv d) as Hc. destruct (EncryptKey.encrypt_with_iv key iv d) as [|c cs] eqn:Ec.
    { cbn in Hc. unfold byte_len in *. cbn in Hc. lia. }
    rewrite <- Ec. eexists. cbn -[EncryptKey.decrypt]. destruct iv as [ivb]. cbn in Eiv. subst ivb. by rewrite decrypt_encrypt_with_iv.
  - subst bs. rewrite <- app_assoc in Hin.
    erewrite run_bind_Ok; [|apply (run_recv_counted V1.rx s w 4 d rest); [done..|unfold u32_max in Hlen; lia]].
    destruct d as [|b d]; [unfold byte_len in Hlen; cbn in Hlen; lia|]. by eexists.
Qed.

Lemma v1_wait ek t s w : V1.rx s = true → w_in w = [] → w_end w = false → waiting (V1.read_buf_with_header ek t s) w.
Proof.
  intros Hrx Hin He. unfold V1.read_buf_with_header. destruct ek; apply waiting_bind, waiting_bind, wait_recv_uint; done || lia.
Qed.

(** *** Version 2, and what version 3 has of it *)

Lemma header_fits max_op len : 0 ≤ max_op < 200 → 0 ≤ len < u32_max → is_Some (V2.header_of max_op len).
Proof. intros Hm Hl. unfold V2.header_of. repeat case_decide; done || lia. Qed.

Lemma v2_write max_op buf hdr delay s w : V2.tx s = true → w_up w = true →
  V2.header_of max_op (byte_len buf) = Some hdr →
  run_proc (V2.write_with_header max_op buf delay s) w
  = (Return (Ok (byte_len buf + byte_len hdr), s),
     let w' := with_buf w (w_buf w ++ hdr ++ buf) in if delay then w' else flushed w').
Proof.
  intros Htx Hup Hh. unfold V2.write_with_header. rewrite (run_bind_Ok _ _ _ _ _ _ _ (run_guard V2.tx s w Htx)), Hh.
  destruct (decide (byte_len buf ≤ 62)).
  - rewrite run_one_write by done. unfold byte_len. rewrite length_app, Nat2Z.inj_add. do 4 f_equal. lia.
  - rewrite run_two_writes by done. do 4 f_equal. lia.
Qed.

Lemma v2_new_iv rnd s w : V2.tx s = true → w_up w = true →
  run_proc (V2.new_iv rnd s) w
  = (Return (Ok (generate_iv rnd), V2.with_iv_tx s (generate_iv rnd) 0),
     with_buf w (w_buf w ++ byte_of_Z op_new_iv :: iv_bytes (generate_iv rnd))).
Proof.
  intros Htx Hup. unfold V2.new_iv. rewrite (run_bind_Ok _ _ _ _ _ _ _ (run_guard V2.tx s w Htx)).
  rewrite (run_bind_Ok _ _ _ _ _ _ _ (run_write s _ w Hup)). done.
Qed.

Lemma v2_choose_iv rnd s w : V2.tx s = true → writable w → ∃ bs iv s',
  run_proc (V2.choose_iv rnd s) w = (Return (Ok iv, s'), with_buf w bs) ∧ V2.iv_tx s' = Some iv
  ∧ V2.tx s' = V2.tx s ∧ V2.rx s' = V2.rx s ∧ V2.iv_rx s' = V2.iv_rx s
  ∧ (V2.iv_tx s = Some iv ∧ bs = [] ∨ length (iv_bytes iv) = 16%nat ∧ bs = byte_of_Z op_new_iv :: iv_bytes iv).
Proof.
  intros Htx [Hup Hbuf]. pose proof (v2_new_iv rnd s w Htx Hup) as Hnew. rewrite Hbuf in Hnew.
  assert (length (iv_bytes (generate_iv rnd)) = 16%nat) as Hgen by apply fit_length.
  unfold V2.choose_iv. erewrite run_bind_Ok by reflexivity.
  destruct (V2.iv_tx s) as [iv|]; [destruct (decide (MESSAGE_MAX_IV_REUSE < V2.iv_use_cnt s))|].
  1,3: eexists _, (generate_iv rnd), _; split; [exact Hnew|]; repeat (split; [done|]); by right.
  exists [], iv, (V2.with_iv_tx s iv (V2.iv_use_cnt s + 1)). split; [|repeat (split; [done|]); by left].
  cbn. unfold with_buf. by destruct w; cbn in Hbuf; subst.
Qed.

Definition v2_sent (max_op : Z) (ek : option EncryptKey) (d : bytes) (s s' : V2.MessageProtocol) (bs : bytes) : Prop :=
  frame2 max_op ek (V2.iv_tx s) d bs (V2.iv_tx s') ∧ V2.tx s' = V2.tx s ∧ V2.rx s' = V2.rx s ∧ V2.iv_rx s' = V2.iv_rx s.

Lemma v2_send max_op rnd ek d s w : V2.tx s = true → writable w → 0 ≤ max_op < 200 → byte_len d < u32_max →
  ∃ bs s', run_proc (V2.send_with max_op rnd ek d s) w
      = (Return (Ok (byte_len d + byte_len (default [] (V2.header_of max_op (byte_len d)))), s'), shipped w bs)
    ∧ v2_sent max_op ek d s s' bs.
Proof.
  intros Htx [Hup Hbuf] Hm Hlen.
  destruct (header_fits max_op (byte_len d) Hm) as [hdr Hh]; [split; [unfold byte_len|]; lia|].
  rewrite Hh. cbn [default]. unfold V2.send_with. destruct ek as [key|].
  - destruct (v2_choose_iv rnd s w Htx (conj Hup Hbuf)) as (bs & iv & s' & E & Hiv & Htx' & Hrx' & Hivr & Hor).
    erewrite run_bind_Ok by exact E. erewrite v2_write; [|congruence|done|by rewrite encrypt_iv_len].
    rewrite encrypt_iv_len. eexists _, s'. split.
    + unfold shipped, flushed, with_buf, with_out. cbn. rewrite Hbuf, <- ?app_assoc. reflexivity.
    + split; [|done]. exists hdr. split; [done|]. rewrite Hiv. exists iv. split; [done|].
      destruct Hor as [[Hs ->]|[Hl ->]]; [left; by split|right; split; [done|]]. by rewrite app_comm_cons.
  - erewrite v2_write by done. eexists _, s. cbn. rewrite Hbuf. split; [by rewrite flushed_shipped|].
    split; [|done]. by exists hdr.
Qed.

Lemma v2_body ek d s w rest t : V2.rx s = true → (ek ≠ None → is_Some (V2.iv_rx s)) →
  w_in w = sealed ek (V2.iv_rx s) d ++ rest →
  run_proc (V2.read_body ek (byte_len d) t s) w = (Return (Ok (d, t + byte_len d), s), with_in w rest).
Proof.
  intros Hrx Hiv Hin. unfold V2.read_body.
  erewrite run_bind_Ok; [|apply (run_recv_vec V2.rx s w (byte_len d) _ rest); [done|exact Hin|apply sealed_len]].
  destruct ek as [key|]; [|done]. destruct (Hiv ltac:(done)) as [iv Hs].
  erewrite run_bind_Ok by reflexivity. rewrite Hs. cbn -[EncryptKey.decrypt EncryptKey.encrypt_with_iv].
  by rewrite decrypt_encrypt_with_iv.
Qed.

(** The operation codes, as a reader takes them. *)
Definition code_of (max_op len : Z) : Z :=
  if decide (len < u8_max - max_op) then max_op + len else if decide (len < u16_max) then op_buf16 else op_buf32.

(** What is behind the operation code. *)
Definition count_of (max_op len : Z) : bytes :=
  if decide (len < u8_max - max_op) then [] else if decide (len < u16_max) then to_be 2 len else to_be 4 len.

Lemma header_split max_op len hdr : V2.header_of max_op len = Some hdr →
  hdr = byte_of_Z (code_of max_op len) :: count_of max_op len.
Proof. unfold V2.header_of, code_of, count_of. repeat case_decide; by intros [= <-]. Qed.

Lemma byte_to_be z : [byte_of_Z z] = to_be 1 z.
Proof. cbn. by rewrite Z.div_1_r. Qed.

Lemma run_read_code {S} (has : S → bool) s w z rest : has s = true → w_in w = byte_of_Z z :: rest → 0 ≤ z < 256 →
  run_proc (recv_uint has 1 s) w = (Return (Ok z, s), with_in w rest).
Proof.
  intros Hh Hin Hz. apply run_recv_uint; [done| |lia]. rewrite <- byte_to_be. done.
Qed.

(** What the reader does once it has the operation code of a message. *)
Definition take_message (max_op op : Z) (ek : option EncryptKey) (t : Z) : wire V2.MessageProtocol (bytes * Z) :=
  if decide (op = op_buf16) then len ← V2.read_u16; V2.read_body ek len (t + 2)
  else if decide (op = op_buf32) then len ← V2.read_u32; V2.read_body ek len (t + 4)
  else V2.read_body ek (op - max_op) t.

Lemma v2_take max_op ek d s w rest t : V2.rx s = true → 4 ≤ max_op < 200 → byte_len d < u32_max →
  (ek ≠ None → is_Some (V2.iv_rx s)) →
  w_in w = count_of max_op (byte_len d) ++ sealed ek (V2.iv_rx s) d ++ rest →
  ∃ n, run_proc (take_message max_op (code_of max_op (byte_len d)) ek t s) w = (Return (Ok (d, n), s), with_in w rest).
Proof.
  intros Hrx Hm Hlen Hiv Hin. unfold take_message, code_of, count_of, op_buf16, op_buf32, u8_max in *.
  assert (0 ≤ byte_len d) as Hpos by (unfold byte_len; lia).
  destruct (decide (byte_len d < 255 - max_op)); [|destruct (decide (byte_len d < u16_max))].
  - rewrite !decide_False by lia. eexists. replace (max_op + byte_len d - max_op) with (byte_len d) by lia. by apply v2_body.
  - rewrite decide_True by done. eexists.
    erewrite run_bind_Ok; [|apply (run_recv_uint V2.rx s w 2 (byte_len d)); [done|exact Hin|unfold u16_max in *; lia]].
    by erewrite v2_body.
  - rewrite decide_False, decide_True by done. eexists.
    erewrite run_bind_Ok; [|apply (run_recv_uint V2.rx s w 4 (byte_len d)); [done|exact Hin|unfold u32_max in *; lia]].
    by erewrite v2_body.
Qed.

Lemma code_bound max_op len : 4 ≤ max_op < 200 → 0 ≤ len → 1 < code_of max_op len < 256 ∧ (code_of max_op len = op_buf16
  ∨ code_of max_op len = op_buf32 ∨ max_op ≤ code_of max_op len).
Proof. intros Hm Hl. unfold code_of, op_buf16, op_buf32, u8_max. repeat case_decide; lia. Qed.

Lemma v2_iv iv s w rest : V2.rx s = true → length (iv_bytes iv) = 16%nat → w_in w = iv_bytes iv ++ rest →
  run_proc (V2.read_iv s) w = (Return (Ok (), V2.with_iv_rx s iv), with_in w rest).
Proof.
  intros Hrx Hl Hin. unfold V2.read_iv.
  erewrite run_bind_Ok; [|apply (run_recv_vec V2.rx s w 16 (iv_bytes iv) rest); [done|done|unfold byte_len; lia]].
  by destruct iv.
Qed.

Lemma header_small max_op d hdr : V2.header_of max_op (byte_len d) = Some hdr → 0 ≤ max_op → byte_len d < u32_max.
Proof. unfold V2.header_of, u8_max, u16_max, u32_max. repeat case_decide; done || lia. Qed.

Lemma v2_read_here fuel ek d hdr s w rest t : V2.rx s = true → (ek ≠ None → is_Some (V2.iv_rx s)) →
  V2.header_of V2.MAX_MESSAGE_OP_CODE (byte_len d) = Some hdr → w_in w = hdr ++ sealed ek (V2.iv_rx s) d ++ rest →
  ∃ n, run_proc (V2.read_buf_with_header (S fuel) ek t s) w = (Return (Ok (d, n), s), with_in w rest).
Proof.
  intros Hrx Hiv Hh Hin. pose proof (header_small _ _ _ Hh ltac:(done)) as Hlen. apply header_split in Hh as ->.
  destruct (code_bound V2.MAX_MESSAGE_OP_CODE (byte_len d)) as [Hc Hor]; [done|unfold byte_len; lia|].
  destruct (v2_take V2.MAX_MESSAGE_OP_CODE ek d s (with_in w (count_of V2.MAX_MESSAGE_OP_CODE (byte_len d)
    ++ sealed ek (V2.iv_rx s) d ++ rest)) rest (t + 1) Hrx ltac:(done) Hlen Hiv eq_refl) as [n E].
  exists n. cbn [V2.read_buf_with_header].
  erewrite run_bind_Ok; [|apply (run_read_code V2.rx s w _ _ Hrx Hin); lia]. cbn beta zeta.
  rewrite (decide_False (P := _ = op_noop)), (decide_False (P := _ = op_new_iv)) by (unfold op_noop, op_new_iv; lia). exact E.
Qed.

Lemma v2_read fuel ek d bs y s w rest t : V2.rx s = true → (2 ≤ fuel)%nat →
  frame2 V2.MAX_MESSAGE_OP_CODE ek (V2.iv_rx s) d bs y → w_in w = bs ++ rest →
  ∃ n s', run_proc (V2.read_buf_with_header fuel ek t s) w = (Return (Ok (d, n), s'), with_in w rest)
    ∧ V2.iv_rx s' = y ∧ V2.rx s' = V2.rx s ∧ V2.tx s' = V2.tx s.
Proof.
  intros Hrx Hf (hdr & Hh & Hbs) Hin. destruct fuel as [|[|fuel]]; [lia..|].
  destruct ek as [key|].
  - destruct Hbs as (iv & -> & [[Hx ->]|[Hl ->]]).
    + rewrite <- app_assoc, <- Hx in Hin.
      destruct (v2_read_here (S fuel) (Some key) d hdr s w rest t Hrx (λ _, ltac:(by rewrite Hx)) Hh Hin) as [n E]. by exists n, s.
    + rewrite <- app_comm_cons, <- !app_assoc in Hin. cbn [V2.read_buf_with_header].
      erewrite run_bind_Ok; [|apply (run_read_code V2.rx s w op_new_iv _ Hrx Hin); done]. cbn beta zeta.
      rewrite (decide_False (P := _ = op_noop)), decide_True by done.
      erewrite run_bind_Ok; [|eapply (v2_iv iv s); [exact Hrx|exact Hl|reflexivity]].
      destruct (v2_read_here fuel (Some key) d hdr (V2.with_iv_rx s iv) (with_in w (hdr ++ sealed (Some key) (Some iv) d ++ rest))
        rest (t + 1 + 16)) as [n E]; [done|by eexists|done..|]. by exists n, (V2.with_iv_rx s iv).
  - destruct Hbs as [-> <-]. rewrite <- app_assoc in Hin.
    destruct (v2_read_here (S fuel) None d hdr s w rest t Hrx ltac:(done) Hh Hin) as [n E]. by exists n, s.
Qed.

Lemma v2_wait fuel ek t s w : V2.rx s = true → w_in w = [] → w_end w = false →
  waiting (V2.read_buf_with_header (S fuel) ek t s) w.
Proof. intros Hrx Hin He. cbn [V2.read_buf_with_header]. apply waiting_bind, wait_recv_uint; done || lia. Qed.

(** *** Version 3 *)

Lemma run_packed {A} (c : wire V2.MessageProtocol A) (s : V3.MessageProtocol) w r p' w' :
  run_proc (c (V3.packed s)) w = (Return (r, p'), w') →
  run_proc (V3.on_packed c s) w = (Return (r, V3.with_packed s p'), w').
Proof. intros E. unfold V3.on_packed, wire_mk. by rewrite run_bind, E. Qed.

Lemma run_open s w : V3.is_closed s = false → run_proc (V3.check_abort s) w = (Return (Ok false, s), w).
Proof. intros Ho. unfold V3.check_abort, wire_mk. by rewrite Ho. Qed.

Lemma v3_send rnd ek d s w : V3.is_closed s = false → V3.tx s = true → writable w → byte_len d < u32_max →
  ∃ bs p', run_proc (V3.send rnd ek d s) w = (Return (Ok (sent_size Version3 ek d), V3.with_packed s p'), shipped w bs)
    ∧ v2_sent V3.MAX_MESSAGE_OP_CODE ek d (V3.packed s) p' bs.
Proof.
  intros Ho Htx Hw Hlen. unfold V3.send. rewrite (run_bind_Ok _ _ _ _ _ _ _ (run_open s w Ho)).
  destruct (v2_send V3.MAX_MESSAGE_OP_CODE rnd ek d (V3.packed s) w Htx Hw ltac:(done) Hlen) as (bs & p' & E & Hsent).
  exists bs, p'. split; [|done]. by erewrite run_packed.
Qed.

Lemma with_packed_same s : V3.with_packed s (V3.packed s) = s.
Proof. by destruct s. Qed.

(** What the reader of version 3 does once it has the operation code of a message. *)
Definition take_message3 (op : Z) (ek : option EncryptKey) (t : Z) : wire V3.MessageProtocol (bytes * Z) :=
  if decide (op = op_buf16) then len ← V3.read_u16; V3.on_packed (V2.read_body ek len (t + 2))
  else if decide (op = op_buf32) then len ← V3.read_u32; V3.on_packed (V2.read_body ek len (t + 4))
  else V3.on_packed (V2.read_body ek (op - V3.MAX_MESSAGE_OP_CODE) t).

Lemma v3_body ek d s w rest t : V3.rx s = true → (ek ≠ None → is_Some (V2.iv_rx (V3.packed s))) →
  w_in w = sealed ek (V2.iv_rx (V3.packed s)) d ++ rest →
  run_proc (V3.on_packed (V2.read_body ek (byte_len d) t) s) w = (Return (Ok (d, t + byte_len d), s), with_in w rest).
Proof. intros Hrx Hiv Hin. erewrite run_packed by by apply v2_body. by rewrite with_packed_same. Qed.

Lemma v3_take ek d s w rest t : V3.rx s = true → byte_len d < u32_max →
  (ek ≠ None → is_Some (V2.iv_rx (V3.packed s))) →
  w_in w = count_of V3.MAX_MESSAGE_OP_CODE (byte_len d) ++ sealed ek (V2.iv_rx (V3.packed s)) d ++ rest →
  ∃ n, run_proc (take_message3 (code_of V3.MAX_MESSAGE_OP_CODE (byte_len d)) ek t s) w
    = (Return (Ok (d, n), s), with_in w rest).
Proof.
  intros Hrx Hlen Hiv Hin. unfold take_message3, code_of, count_of, op_buf16, op_buf32, u8_max in *.
  assert (0 ≤ byte_len d) as Hpos by (unfold byte_len; lia). change V3.MAX_MESSAGE_OP_CODE with 8 in *.
  destruct (decide (byte_len d < 255 - 8)); [|destruct (decide (byte_len d < u16_max))].
  - rewrite !decide_False by lia. eexists. replace (8 + byte_len d - 8) with (byte_len d) by lia. by apply v3_body.
  - rewrite decide_True by done. eexists.
    erewrite run_bind_Ok; [|apply (run_recv_uint V3.rx s w 2 (byte_len d)); [done|exact Hin|unfold u16_max in *; lia]].
    by erewrite v3_body.
  - rewrite decide_False, decide_True by done. eexists.
    erewrite run_bind_Ok; [|apply (run_recv_uint V3.rx s w 4 (byte_len d)); [done|exact Hin|unfold u32_max in *; lia]].
    by erewrite v3_body.
Qed.

Lemma v3_read_here fuel ek d hdr s w rest t : V3.is_closed s = false → V3.rx s = true →
  (ek ≠ None → is_Some (V2.iv_rx (V3.packed s))) → V2.header_of V3.MAX_MESSAGE_OP_CODE (byte_len d) = Some hdr →
  w_in w = hdr ++ sealed ek (V2.iv_rx (V3.packed s)) d ++ rest →
  ∃ n, run_proc (V3.read_buf_with_header (S fuel) ek t s) w = (Return (Ok (d, n), s), with_in w rest).
Proof.
  intros Ho Hrx Hiv Hh Hin. pose proof (header_small _ _ _ Hh ltac:(done)) as Hlen. apply header_split in Hh as ->.
  destruct (code_bound V3.MAX_MESSAGE_OP_CODE (byte_len d)) as [Hc Hor]; [done|unfold byte_len; lia|].
  destruct (v3_take ek d s (with_in w (count_of V3.MAX_MESSAGE_OP_CODE (byte_len d)
    ++ sealed ek (V2.iv_rx (V3.packed s)) d ++ rest)) rest (t + 1) Hrx Hlen Hiv eq_refl) as [n E].
  exists n. cbn [V3.read_buf_with_header]. rewrite (run_bind_Ok _ _ _ _ _ _ _ (run_open s w Ho)).
  erewrite run_bind_Ok; [|apply (run_read_code V3.rx s w _ _ Hrx Hin); lia]. cbn beta zeta.
  rewrite (decide_False (P := _ = op_noop)), (decide_False (P := _ = op_new_iv)) by (unfold op_noop, op_new_iv; lia).
  etrans; [|exact E]. unfold take_message3. unfold V3.MAX_MESSAGE_OP_CODE, op_buf16, op_buf32, op_close in *.
  repeat case_decide; done || lia.
Qed.

Lemma v3_read fuel ek d bs y s w rest t : V3.is_closed s = false → V3.rx s = true → (2 ≤ fuel)%nat →
  frame2 V3.MAX_MESSAGE_OP_CODE ek (V2.iv_rx (V3.packed s)) d bs y → w_in w = bs ++ rest →
  ∃ n p', run_proc (V3.read_buf_with_header fuel ek t s) w = (Return (Ok (d, n), V3.with_packed s p'), with_in w rest)
    ∧ V2.iv_rx p' = y ∧ V2.rx p' = V3.rx s ∧ V2.tx p' = V3.tx s.
Proof.
  intros Ho Hrx Hf (hdr & Hh & Hbs) Hin. destruct fuel as [|[|fuel]]; [lia..|].
  destruct ek as [key|].
  - destruct Hbs as (iv & -> & [[Hx ->]|[Hl ->]]).
    + rewrite <- app_assoc, <- Hx in Hin.
      destruct (v3_read_here (S fuel) (Some key) d hdr s w rest t Ho Hrx (λ _, ltac:(by rewrite Hx)) Hh Hin) as [n E].
      exists n, (V3.packed s). by rewrite with_packed_same.
    + rewrite <- app_comm_cons, <- !app_assoc in Hin. cbn [V3.read_buf_with_header].
      rewrite (run_bind_Ok _ _ _ _ _ _ _ (run_open s w Ho)).
      erewrite run_bind_Ok; [|apply (run_read_code V3.rx s w op_new_iv _ Hrx Hin); done]. cbn beta zeta.
      rewrite (decide_False (P := _ = op_noop)), decide_True by done.
      erewrite run_bind_Ok; [|eapply run_packed, (v2_iv iv (V3.packed s)); [exact Hrx|exact Hl|reflexivity]].
      set (s' := V3.with_packed s (V2.with_iv_rx (V3.packed s) iv)).
      destruct (v3_read_here fuel (Some key) d hdr s' (with_in w (hdr ++ sealed (Some key) (Some iv) d ++ rest)) rest (t + 1 + 16))
        as [n E]; [done|done|by eexists|done..|]. by exists n, (V2.with_iv_rx (V3.packed s) iv).
  - destruct Hbs as [-> <-]. rewrite <- app_assoc in Hin.
    destruct (v3_read_here (S fuel) None d hdr s w rest t Ho Hrx ltac:(done) Hh Hin) as [n E].
    exists n, (V3.packed s). by rewrite with_packed_same.
Qed.

Lemma v3_wait fuel ek t s w : V3.is_closed s = false → V3.rx s = true → w_in w = [] → w_end w = false →
  waiting (V3.read_buf_with_header (S fuel) ek t s) w.
Proof.
  intros Ho Hrx Hin He. cbn [V3.read_buf_with_header]. unfold V3.check_abort, wire_mk, mbind at 1, wire_bind at 1. rewrite Ho. cbn [proc_bind].
  apply waiting_bind, wait_recv_uint; done || lia.
Qed.

(** The end of a stream that was closed. *)
Lemma v3_read_close fuel ek t s w rest : V3.is_closed s = false → V3.flip_to_abort s = false → V3.rx s = true →
  (2 ≤ fuel)%nat → w_in w = byte_of_Z op_close :: rest →
  ∃ n, run_proc (V3.read_buf_with_header fuel ek t s) w
    = (Return (Ok ([], n), V3.aborting (V3.closed s)), with_in w rest).
Proof.
  intros Ho Hfl Hrx Hf Hin. destruct fuel as [|[|fuel]]; [lia..|]. cbn [V3.read_buf_with_header].
  rewrite (run_bind_Ok _ _ _ _ _ _ _ (run_open s w Ho)).
  erewrite run_bind_Ok; [|apply (run_read_code V3.rx s w op_close _ Hrx Hin); done]. cbn beta zeta.
  do 4 rewrite decide_False by done. rewrite decide_True by done.
  erewrite run_bind_Ok by reflexivity. eexists.
  erewrite run_bind_Ok; [|by unfold V3.check_abort, wire_mk, V3.closed; cbn; rewrite Hfl]. done.
Qed.

Lemma v3_read_aborted fuel ek t s w : V3.is_closed s = true → V3.flip_to_abort s = true →
  run_proc (V3.read_buf_with_header (S fuel) ek t s) w = (Return (Err BrokenPipe, s), w).
Proof.
  intros Hc Hf. cbn [V3.read_buf_with_header]. apply run_bind_Err. unfold V3.check_abort, wire_mk. by rewrite Hc, Hf.
Qed.
End frames.
