(* ===== verification/ProtocolQueue.v ===== *)
(** * A stream is a queue of messages

    What the protocols of comms/src/protocol promise to whoever uses the halves of a stream: the
    messages that are written on one end are read on the other, once, in their order and as they
    were, in every version and with or without encryption. *)

From S2P Require Import Prelude Wire LogApi Crypto Protocol ProtocolSpec.

(** A stream from a writer to a reader: the halves, and their ends of the connection. *)
Record Chan : Type := { ch_tx : StreamTx; ch_tw : Wire; ch_rx : StreamRx; ch_rw : Wire }.

Inductive ChanOp : Type :=
  | Write (rnd data : bytes)
  | Read
  | Close.

Inductive ChanAnswer : Type :=
  | Wrote (r : result WireError Z)
  | Got (r : result WireError bytes)
  | Closed (r : result WireError unit)
  | Waiting.

Inductive Side : Type := Opened | ClosedOnce | Broken.

#[global] Instance side_eq_dec : EqDecision Side.
Proof. solve_decision. Defined.

Section chan.
Context `{CryptoPrims}.

(** The writer does something, and what it flushed arrives. *)
Definition on_tx {A} (op : wire StreamTx A) (answer : result WireError A → ChanAnswer) (c : Chan) : ChanAnswer * Chan :=
  match run_proc (op (ch_tx c)) (ch_tw c) with
  | (Return (r, tx), w) =>
      (answer r, {| ch_tx := tx; ch_tw := with_out w []; ch_rx := ch_rx c; ch_rw := arrive (ch_rw c) (w_out w) |})
  | _ => (Waiting, c)
  end.

(** The bound is above the number of operation codes that can have arrived. *)
Definition on_rx (c : Chan) : ChanAnswer * Chan :=
  match run_proc (StreamRx.read (2 + length (w_in (ch_rw c))) (ch_rx c)) (ch_rw c) with
  | (Return (r, rx), w) => (Got r, {| ch_tx := ch_tx c; ch_tw := ch_tw c; ch_rx := rx; ch_rw := w |})
  | _ => (Waiting, c)
  end.

Definition chan_op (op : ChanOp) : Chan → ChanAnswer * Chan :=
  match op with
  | Write rnd data => on_tx (StreamTx.write rnd data) Wrote
  | Read => on_rx
  | Close => on_tx StreamTx.close Closed
  end.

Fixpoint chan_ops (ops : list ChanOp) (c : Chan) : list ChanAnswer * Chan :=
  match ops with
  | [] => ([], c)
  | op :: ops => let '(a, c) := chan_op op c in let '(l, c) := chan_ops ops c in (a :: l, c)
  end.

(** What is promised: a queue.  A writer that closed it is told so once, and the reader is once it
    has read everything; from then on the pipe is broken. *)
Record Queue : Type := { q_msgs : list bytes; q_tx : Side; q_rx : Side }.

Definition queue_op (v : MessageProtocolVersion) (ek : option EncryptKey) (op : ChanOp) (q : Queue) : ChanAnswer * Queue :=
  match op with
  | Write _ d =>
      match q_tx q with
      | Opened => (Wrote (Ok (sent_size v ek d)), {| q_msgs := q_msgs q ++ [d]; q_tx := Opened; q_rx := q_rx q |})
      | ClosedOnce => (Wrote (Ok 0), {| q_msgs := q_msgs q; q_tx := Broken; q_rx := q_rx q |})
      | Broken => (Wrote (Err BrokenPipe), q)
      end
  | Read =>
      match q_rx q, q_msgs q, q_tx q with
      | Opened, d :: ds, _ => (Got (Ok d), {| q_msgs := ds; q_tx := q_tx q; q_rx := Opened |})
      | Opened, [], Opened => (Waiting, q)
      | Opened, [], _ => (Got (Ok []), {| q_msgs := []; q_tx := q_tx q; q_rx := Broken |})
      | _, _, _ => (Got (Err BrokenPipe), q)
      end
  | Close =>
      (Closed (Ok ()),
       match v, q_tx q with
       | Version3, Opened => {| q_msgs := q_msgs q; q_tx := ClosedOnce; q_rx := q_rx q |}
       | _, _ => q
       end)
  end.

Fixpoint queue_ops (v : MessageProtocolVersion) (ek : option EncryptKey) (ops : list ChanOp) (q : Queue)
    : list ChanAnswer * Queue :=
  match ops with
  | [] => ([], q)
  | op :: ops => let '(a, q) := queue_op v ek op q in let '(l, q) := queue_ops v ek ops q in (a :: l, q)
  end.

Definition side_is (p : V3.MessageProtocol) (x : Side) : Prop :=
  match x with
  | Opened => V3.is_closed p = false ∧ V3.flip_to_abort p = false
  | ClosedOnce => V3.is_closed p = true ∧ V3.flip_to_abort p = false
  | Broken => V3.is_closed p = true ∧ V3.flip_to_abort p = true
  end.

(** Both halves of the same version, and between them the messages of the queue. *)
Definition halves (ek : option EncryptKey) (tx rx : Protocol) (bs : bytes) (q : Queue) : Prop :=
  match tx, rx with
  | Proto1 p, Proto1 r => V1.tx p = true ∧ V1.rx r = true ∧ q_tx q = Opened ∧ q_rx q = Opened
      ∧ inflight (frame1 ek) () (q_msgs q) bs ()
  | Proto2 p, Proto2 r => V2.tx p = true ∧ V2.rx r = true ∧ q_tx q = Opened ∧ q_rx q = Opened
      ∧ inflight (frame2 V2.MAX_MESSAGE_OP_CODE ek) (V2.iv_rx r) (q_msgs q) bs (V2.iv_tx p)
  | Proto3 p, Proto3 r => V3.tx p = true ∧ V3.rx r = true ∧ side_is p (q_tx q) ∧ side_is r (q_rx q)
      ∧ match q_rx q with
        | Opened => ∃ ds n, bs = ds ++ replicate n (byte_of_Z op_close) ∧ (n = 0 ↔ q_tx q = Opened)%nat
           ∧ inflight (frame2 V3.MAX_MESSAGE_OP_CODE ek) (V2.iv_rx (V3.packed r)) (q_msgs q) ds (V2.iv_tx (V3.packed p))
        | ClosedOnce => False
        | Broken => q_tx q ≠ Opened
        end
  | _, _ => False
  end.

Definition linked (v : MessageProtocolVersion) (ek : option EncryptKey) (c : Chan) (q : Queue) : Prop :=
  stx_ek (ch_tx c) = ek ∧ srx_ek (ch_rx c) = ek ∧ Protocol.version (stx_proto (ch_tx c)) = v
  ∧ writable (ch_tw c) ∧ w_out (ch_tw c) = [] ∧ w_end (ch_rw c) = false
  ∧ halves ek (stx_proto (ch_tx c)) (srx_proto (ch_rx c)) (w_in (ch_rw c)) q.

(** *** Each operation *)

Lemma on_tx_ok {A} (op : StreamTx → wire Protocol A) (answer : result WireError A → ChanAnswer) tp ek tw rx rw r p' bs :
  run_proc (op {| stx_proto := tp; stx_ek := ek |} tp) tw = (Return (r, p'), shipped tw bs) → w_out tw = [] →
  on_tx (StreamTx.on_proto op) answer {| ch_tx := {| stx_proto := tp; stx_ek := ek |}; ch_tw := tw; ch_rx := rx; ch_rw := rw |}
  = (answer r, {| ch_tx := {| stx_proto := p'; stx_ek := ek |}; ch_tw := tw; ch_rx := rx; ch_rw := arrive rw bs |}).
Proof.
  intros E Ho. unfold on_tx, StreamTx.on_proto, wire_mk. cbn [ch_tx ch_tw stx_proto]. rewrite run_bind, E. cbn.
  rewrite Ho. destruct tw. cbn in Ho. by subst.
Qed.

Lemma on_rx_ok tx tw rp ek rw r p' w' :
  run_proc (Protocol.read_buf_with_header (2 + length (w_in rw)) ek 0 rp) rw = (Return (r, p'), w') →
  on_rx {| ch_tx := tx; ch_tw := tw; ch_rx := {| srx_proto := rp; srx_ek := ek |}; ch_rw := rw |}
  = (Got (fst <$> r), {| ch_tx := tx; ch_tw := tw; ch_rx := {| srx_proto := p'; srx_ek := ek |}; ch_rw := w' |}).
Proof.
  intros E. unfold on_rx, StreamRx.read, wire_mk. cbn [ch_rx ch_rw srx_ek srx_proto]. by rewrite run_bind, E.
Qed.

Lemma run_dispatch1 {A} (c1 : wire _ A) c2 c3 s w r s' w' : run_proc (c1 s) w = (Return (r, s'), w') →
  run_proc (Protocol.dispatch c1 c2 c3 (Proto1 s)) w = (Return (r, Proto1 s'), w').
Proof. intros E. unfold Protocol.dispatch, wire_mk. by rewrite run_bind, E. Qed.
Lemma run_dispatch2 {A} c1 (c2 : wire _ A) c3 s w r s' w' : run_proc (c2 s) w = (Return (r, s'), w') →
  run_proc (Protocol.dispatch c1 c2 c3 (Proto2 s)) w = (Return (r, Proto2 s'), w').
Proof. intros E. unfold Protocol.dispatch, wire_mk. by rewrite run_bind, E. Qed.
Lemma run_dispatch3 {A} c1 c2 (c3 : wire _ A) s w r s' w' : run_proc (c3 s) w = (Return (r, s'), w') →
  run_proc (Protocol.dispatch c1 c2 c3 (Proto3 s)) w = (Return (r, Proto3 s'), w').
Proof. intros E. unfold Protocol.dispatch, wire_mk. by rewrite run_bind, E. Qed.

Lemma halves_version ek tp rp bs q : halves ek tp rp bs q → Protocol.version rp = Protocol.version tp.
Proof. by destruct tp, rp. Qed.

(** The halves after a write to an open stream. *)
Lemma halves_write ek tp rp w bs q rnd d : halves ek tp rp bs q → q_tx q = Opened → writable w →
  fits (Protocol.version tp) d →
  ∃ p' bs', run_proc (Protocol.send rnd ek d tp) w = (Return (Ok (sent_size (Protocol.version tp) ek d), p'), shipped w bs')
    ∧ Protocol.version p' = Protocol.version tp
    ∧ halves ek p' rp (bs ++ bs') {| q_msgs := q_msgs q ++ [d]; q_tx := Opened; q_rx := q_rx q |}.
Proof.
  intros Hh Hq Hw Hfit. destruct tp as [p|p|p], rp as [r|r|r]; try done; cbn in Hh.
  - destruct Hh as (Htx & Hrx & _ & Hr & Hin). destruct (v1_send rnd ek d p w Htx Hw Hfit) as (bs' & E & Hf).
    exists (Proto1 p), bs'. split; [by apply run_dispatch1|]. repeat (split; [done|]). by eapply inflight_snoc.
  - destruct Hh as (Htx & Hrx & _ & Hr & Hin).
    destruct (v2_send V2.MAX_MESSAGE_OP_CODE rnd ek d p w Htx Hw ltac:(done) Hfit) as (bs' & p' & E & Hf & Ht & Hr' & _).
    exists (Proto2 p'), bs'. split; [by apply run_dispatch2|]. split; [done|]. split; [congruence|].
    repeat (split; [done|]). by eapply inflight_snoc.
  - destruct Hh as (Htx & Hrx & Hs & Hr & Hin). rewrite Hq in Hs. destruct Hs as [Hc Hfl].
    destruct (v3_send rnd ek d p w Hc Htx Hw Hfit) as (bs' & p' & E & Hf & Ht & Hr' & _).
    exists (Proto3 (V3.with_packed p p')), bs'. split; [by apply run_dispatch3|]. split; [done|].
    split; [unfold V3.tx in *; cbn; congruence|]. split; [done|]. split; [done|]. split; [done|]. cbn.
    destruct (q_rx q); [|done..]. destruct Hin as (ds & n & -> & Hn & Hin). rewrite Hq in Hn.
    assert (n = 0%nat) as -> by by apply Hn. cbn. rewrite app_nil_r. exists (ds ++ bs'), 0%nat.
    split; [by rewrite app_nil_r|]. split; [done|]. by eapply inflight_snoc.
Qed.

(** The halves after a read from a stream with messages. *)
Lemma halves_read ek tp rp w q d ds fuel : halves ek tp rp (w_in w) q → q_msgs q = d :: ds → q_rx q = Opened → (2 ≤ fuel)%nat →
  ∃ p' bs' n, run_proc (Protocol.read_buf_with_header fuel ek 0 rp) w = (Return (Ok (d, n), p'), with_in w bs')
    ∧ halves ek tp p' bs' {| q_msgs := ds; q_tx := q_tx q; q_rx := Opened |}.
Proof.
  intros Hh Hm Hq Hf. destruct tp as [p|p|p], rp as [r|r|r]; try done; cbn in Hh.
  - destruct Hh as (Htx & Hrx & Hqt & _ & Hin). rewrite Hm in Hin. inversion Hin as [|? y ? ? ? bs rest Hfr Hin' Hd Hbs]; subst.
    destruct y. destruct (v1_read ek d bs rest 0 r w Hrx Hfr ltac:(done)) as [n E].
    exists (Proto1 r), rest, n. split; [by apply run_dispatch1|]. by repeat (split; [done|]).
  - destruct Hh as (Htx & Hrx & Hqt & _ & Hin). rewrite Hm in Hin. inversion Hin as [|? y ? ? ? bs rest Hfr Hin' Hd Hbs]; subst.
    destruct (v2_read fuel ek d bs y r w rest 0 Hrx Hf Hfr ltac:(done)) as (n & r' & E & Hiv & Hr' & _).
    exists (Proto2 r'), rest, n. split; [by apply run_dispatch2|]. split; [done|]. split; [congruence|].
    repeat (split; [done|]). by rewrite Hiv.
  - destruct Hh as (Htx & Hrx & Hs & Hr & Hin). rewrite Hq in Hr, Hin. destruct Hr as [Hc Hfl].
    destruct Hin as (bs0 & m & Hw & Hn & Hin). rewrite Hm in Hin.
    inversion Hin as [|? y ? ? ? bs rest Hfr Hin' Hd Hbs]; subst. rewrite <- app_assoc in Hw.
    destruct (v3_read fuel ek d bs y r w (rest ++ replicate m (byte_of_Z op_close)) 0 Hc Hrx Hf Hfr Hw)
      as (n & r' & E & Hiv & Hr' & _).
    exists (Proto3 (V3.with_packed r r')), (rest ++ replicate m (byte_of_Z op_close)), n. split; [by apply run_dispatch3|].
    split; [done|]. split; [unfold V3.rx in *; cbn; congruence|]. split; [done|]. split; [done|]. cbn.
    exists rest, m. rewrite Hiv. by split.
Qed.

(** Nothing to read yet. *)
Lemma halves_wait ek tp rp w q fuel : halves ek tp rp (w_in w) q → w_end w = false → q_msgs q = [] → q_rx q = Opened →
  q_tx q = Opened → waiting (Protocol.read_buf_with_header (S fuel) ek 0 rp) w.
Proof.
  intros Hh He Hm Hr Ht. unfold Protocol.read_buf_with_header, Protocol.dispatch, wire_mk.
  destruct tp as [p|p|p], rp as [r|r|r]; try done; cbn in Hh; apply waiting_bind.
  - destruct Hh as (_ & Hrx & _ & _ & Hin). rewrite Hm in Hin. inversion Hin. by apply v1_wait.
  - destruct Hh as (_ & Hrx & _ & _ & Hin). rewrite Hm in Hin. inversion Hin. by apply v2_wait.
  - destruct Hh as (_ & Hrx & _ & Hs & Hin). rewrite Hr in Hs, Hin. destruct Hs as [Hc _].
    destruct Hin as (ds & n & Hw & Hn & Hin). rewrite Hm in Hin. inversion Hin; subst.
    assert (n = 0%nat) as -> by by apply Hn. by apply v3_wait.
Qed.

(** A closed stream: only version 3 has them. *)
Lemma halves_closed ek tp rp bs q : halves ek tp rp bs q → q_tx q ≠ Opened ∨ q_rx q ≠ Opened →
  ∃ p r, tp = Proto3 p ∧ rp = Proto3 r.
Proof. intros Hh Hq. destruct tp as [p|p|p], rp as [r|r|r]; try done; cbn in Hh; [naive_solver..|]. by exists p, r. Qed.

Lemma halves_end ek tp rp w q fuel : halves ek tp rp (w_in w) q → q_msgs q = [] → q_rx q = Opened → q_tx q ≠ Opened →
  (2 ≤ fuel)%nat →
  ∃ p' bs' n, run_proc (Protocol.read_buf_with_header fuel ek 0 rp) w = (Return (Ok ([], n), p'), with_in w bs')
    ∧ halves ek tp p' bs' {| q_msgs := []; q_tx := q_tx q; q_rx := Broken |}.
Proof.
  intros Hh Hm Hr Ht Hf. destruct (halves_closed _ _ _ _ _ Hh (or_introl Ht)) as (p & r & -> & ->). cbn in Hh.
  destruct Hh as (Htx & Hrx & Hs & Hsr & Hin). rewrite Hr in Hsr, Hin. destruct Hsr as [Hc Hfl].
  destruct Hin as (ds & n & Hw & Hn & Hin). rewrite Hm in Hin. inversion Hin; subst.
  destruct n as [|n]; [by destruct Ht; apply Hn|].
  destruct (v3_read_close fuel ek 0 r w (replicate n (byte_of_Z op_close)) Hc Hfl Hrx Hf Hw) as [m E].
  eexists (Proto3 _), _, m. split; [by apply run_dispatch3|]. by repeat (split; [done|]).
Qed.

Lemma halves_broken ek tp rp bs q w fuel : halves ek tp rp bs q → q_rx q ≠ Opened →
  run_proc (Protocol.read_buf_with_header (S fuel) ek 0 rp) w = (Return (Err BrokenPipe, rp), w).
Proof.
  intros Hh Hr. destruct (halves_closed _ _ _ _ _ Hh (or_intror Hr)) as (p & r & -> & ->). cbn in Hh.
  destruct Hh as (_ & _ & _ & Hs & Hin). apply run_dispatch3, v3_read_aborted; destruct (q_rx q); try done; apply Hs.
Qed.

(** Writing to a stream that was closed. *)
Lemma halves_late_write ek tp rp w bs q rnd d : halves ek tp rp bs q → q_tx q ≠ Opened → w_buf w = [] →
  ∃ p' r x, run_proc (Protocol.send rnd ek d tp) w = (Return (r, p'), shipped w []) ∧ Protocol.version p' = Protocol.version tp
    ∧ halves ek p' rp bs {| q_msgs := q_msgs q; q_tx := x; q_rx := q_rx q |}
    ∧ match q_tx q with ClosedOnce => r = Ok 0 ∧ x = Broken | _ => r = Err BrokenPipe ∧ x = q_tx q end.
Proof.
  intros Hh Hq Hb. destruct (halves_closed _ _ _ _ _ Hh (or_introl Hq)) as (p & s & -> & ->).
  assert (shipped w [] = w) as Hship by (unfold shipped; rewrite app_nil_r; by destruct w). rewrite Hship.
  destruct Hh as (Htx & Hrx & Hs & Hr & Hin). destruct (q_tx q) eqn:Eq; [done|..].
  - destruct Hs as [Hc Hf]. exists (Proto3 (V3.aborting p)), (Ok 0), Broken.
    split; [apply run_dispatch3; unfold V3.send; erewrite run_bind_Ok; [|by unfold V3.check_abort, wire_mk; rewrite Hc, Hf]; done|].
    split; [done|]. split; [|done]. repeat (split; [done|]). cbn. destruct (q_rx q); [|done..].
    destruct Hin as (ds & n & Hw & Hn & Hin). exists ds, n. split; [done|]. split; [|done]. by rewrite Hn.
  - destruct Hs as [Hc Hf]. exists (Proto3 p), (Err BrokenPipe), Broken.
    split; [apply run_dispatch3, run_bind_Err; unfold V3.check_abort, wire_mk; by rewrite Hc, Hf|].
    by repeat (split; [done|]).
Qed.

Lemma halves_close ek tp rp w bs q : halves ek tp rp bs q → writable w →
  ∃ p' bs', run_proc (Protocol.send_close tp) w = (Return (Ok (), p'), shipped w bs') ∧ Protocol.version p' = Protocol.version tp
    ∧ halves ek p' rp (bs ++ bs') (snd (queue_op (Protocol.version tp) ek Close q)).
Proof.
  intros Hh [Hup Hbuf]. assert (shipped w [] = w) as Hship by (unfold shipped; rewrite app_nil_r; by destruct w).
  destruct tp as [p|p|p], rp as [r|r|r]; try done.
  - exists (Proto1 p), []. rewrite Hship, app_nil_r. split; [by apply run_dispatch1|]. by split.
  - exists (Proto2 p), []. rewrite Hship, app_nil_r. split; [by apply run_dispatch2|]. by split.
  - destruct Hh as (Htx & Hrx & Hs & Hr & Hin). exists (Proto3 (V3.closed p)), [byte_of_Z op_close]. split.
    { apply run_dispatch3. unfold V3.send_close. rewrite (run_bind_Ok _ _ _ _ _ _ _ (run_guard V3.tx p w Htx)).
      erewrite run_bind_Ok by by apply run_write. erewrite run_bind_Ok by by apply run_flush. cbn.
      rewrite Hbuf. by rewrite flushed_shipped. }
    split; [done|]. split; [done|]. split; [done|].
    split; [by destruct (q_tx q) eqn:Et; cbn; rewrite ?Et; (split; [done|apply Hs])|]. split; [by cbn; destruct (q_tx q)|].
    assert (match q_rx q with
      | Opened => ∃ ds n, bs ++ [byte_of_Z op_close] = ds ++ replicate n (byte_of_Z op_close) ∧ n ≠ 0%nat
          ∧ inflight (frame2 V3.MAX_MESSAGE_OP_CODE ek) (V2.iv_rx (V3.packed r)) (q_msgs q) ds (V2.iv_tx (V3.packed p))
      | ClosedOnce => False | Broken => q_tx q ≠ Opened end) as Hin'.
    { destruct (q_rx q); [|done..]. destruct Hin as (ds & n & -> & Hn & Hin). exists ds, (S n).
      rewrite replicate_S_end, <- app_assoc. by split. }
    destruct (q_tx q) eqn:Et; cbn; rewrite ?Et; (destruct (q_rx q); [|done..]);
      destruct Hin' as (ds & n & Hw & Hn & Hi); exists ds, n; repeat (split; [done|]); done.
Qed.

Lemma linked_intro v ek tp rp tw rw q : Protocol.version tp = v → writable tw → w_out tw = [] → w_end rw = false →
  halves ek tp rp (w_in rw) q →
  linked v ek {| ch_tx := {| stx_proto := tp; stx_ek := ek |}; ch_tw := tw;
                 ch_rx := {| srx_proto := rp; srx_ek := ek |}; ch_rw := rw |} q.
Proof. intros <- Hw Ho He Hh. by repeat (split; [done|]). Qed.

Lemma chan_step v ek op c q : linked v ek c q → (∀ rnd d, op = Write rnd d → fits v d) →
  ∃ c', chan_op op c = (fst (queue_op v ek op q), c') ∧ linked v ek c' (snd (queue_op v ek op q)).
Proof.
  destruct c as [[tp tek] tw [rp rek] rw]. intros (Ht & Hr & <- & Hw & Ho & He & Hh) Hfit.
  cbn in Ht, Hr, Hw, Ho, He, Hh. subst tek rek.
  destruct op as [rnd d| |].
  - destruct (q_tx q) eqn:Et; cbn [chan_op queue_op]; rewrite Et.
    + destruct (halves_write ek tp rp tw (w_in rw) q rnd d Hh Et Hw (Hfit _ _ eq_refl)) as (p' & bs & E & Hv & Hh').
      eexists. split; [exact (on_tx_ok (λ s, Protocol.send rnd (stx_ek s) d) Wrote _ _ _ _ _ _ _ _ E Ho)|]. by apply linked_intro.
    + destruct (halves_late_write ek tp rp tw (w_in rw) q rnd d Hh) as (p' & r & x & E & Hv & Hh' & Hx); [by rewrite Et|apply Hw|].
      rewrite Et in Hx. destruct Hx as [-> ->]. eexists. split; [exact (on_tx_ok (λ s, Protocol.send rnd (stx_ek s) d) Wrote _ _ _ _ _ _ _ _ E Ho)|].
      apply linked_intro; try done. cbn. by rewrite app_nil_r.
    + destruct (halves_late_write ek tp rp tw (w_in rw) q rnd d Hh) as (p' & r & x & E & Hv & Hh' & Hx); [by rewrite Et|apply Hw|].
      rewrite Et in Hx. destruct Hx as [-> ->]. eexists. split; [exact (on_tx_ok (λ s, Protocol.send rnd (stx_ek s) d) Wrote _ _ _ _ _ _ _ _ E Ho)|].
      apply linked_intro; try done. cbn. rewrite app_nil_r. destruct q. cbn in *. by subst.
  - cbn [chan_op queue_op]. destruct (q_rx q) eqn:Er; [destruct (q_msgs q) as [|d ds] eqn:Em|..].
    + destruct (decide (q_tx q = Opened)) as [Et|Et].
      * rewrite Et. eexists. split; [|by apply linked_intro].
        destruct (halves_wait ek tp rp rw q (S (length (w_in rw))) Hh He Em Er Et) as [E Hn].
        unfold on_rx, StreamRx.read, wire_mk. cbn [ch_rx ch_rw srx_ek srx_proto]. rewrite run_bind.
        change (2 + length (w_in rw))%nat with (S (S (length (w_in rw)))). rewrite E.
        by destruct (Protocol.read_buf_with_header _ _ _ _).
      * destruct (halves_end ek tp rp rw q (2 + length (w_in rw)) Hh Em Er Et ltac:(lia)) as (p' & bs' & n & E & Hh').
        rewrite (on_rx_ok _ _ _ _ _ _ _ _ E). destruct (q_tx q); [done|..]; (eexists; split; [done|]); by apply linked_intro.
    + destruct (halves_read ek tp rp rw q d ds (2 + length (w_in rw)) Hh Em Er ltac:(lia)) as (p' & bs' & n & E & Hh').
      rewrite (on_rx_ok _ _ _ _ _ _ _ _ E). eexists. split; [done|]. by apply linked_intro.
    + pose proof (halves_broken ek tp rp _ q rw (S (length (w_in rw))) Hh ltac:(by rewrite Er)) as E.
      rewrite (on_rx_ok _ _ _ _ _ _ _ _ E). eexists. split; [done|]. by apply linked_intro.
    + pose proof (halves_broken ek tp rp _ q rw (S (length (w_in rw))) Hh ltac:(by rewrite Er)) as E.
      rewrite (on_rx_ok _ _ _ _ _ _ _ _ E). eexists. split; [done|]. by apply linked_intro.
  - destruct (halves_close ek tp rp tw (w_in rw) q Hh Hw) as (p' & bs & E & Hv & Hh').
    eexists. split; [exact (on_tx_ok (λ _, Protocol.send_close) Closed _ _ _ _ _ _ _ _ E Ho)|]. by apply linked_intro.
Qed.

Fixpoint all_fit (v : MessageProtocolVersion) (ops : list ChanOp) : Prop :=
  match ops with
  | [] => True
  | Write _ d :: ops => fits v d ∧ all_fit v ops
  | _ :: ops => all_fit v ops
  end.

Lemma chan_steps v ek ops c q : linked v ek c q → all_fit v ops →
  ∃ c', chan_ops ops c = (fst (queue_ops v ek ops q), c') ∧ linked v ek c' (snd (queue_ops v ek ops q)).
Proof.
  revert c q. induction ops as [|op ops IH]; intros c q Hl Hf; [by exists c|].
  destruct (chan_step v ek op c q Hl) as (c1 & E & Hl1).
  { intros rnd d ->. apply Hf. }
  assert (all_fit v ops) as Hf' by by destruct op; [apply Hf|..].
  cbn [queue_ops]. destruct (queue_op v ek op q) as [a q1]. cbn in E, Hl1.
  destruct (IH c1 q1 Hl1 Hf') as (c2 & E2 & Hl2). exists c2. cbn. rewrite E, E2. by destruct (queue_ops v ek ops q1).
Qed.

(** The halves of a protocol that was split, at both ends of a new connection. *)
Definition new_chan (p r : Protocol) (ek : option EncryptKey) : Chan :=
  {| ch_tx := snd (split p ek); ch_tw := idle_wire; ch_rx := fst (split r ek); ch_rw := idle_wire |}.

Definition empty_queue : Queue := {| q_msgs := []; q_tx := Opened; q_rx := Opened |}.

Lemma new_chan_linked p r ek : Protocol.version r = Protocol.version p → Protocol.tx p = true → Protocol.rx r = true →
  linked (Protocol.version p) ek (new_chan p r ek) empty_queue.
Proof.
  intros Hv Ht Hr. unfold new_chan, split. rewrite Hv, Ht, Hr. apply linked_intro; try done.
  - by destruct p.
  - destruct (Protocol.version p); cbn; repeat (split; [done|]); try by constructor.
    exists [], 0%nat. split; [done|]. split; [done|]. constructor.
Qed.

(** C14. A stream is a queue of messages: between two protocols of the same version that were split
    with the same key, whatever is written is read at the other end, once, in its order and as it
    was, whatever the order of the writes and reads; a reader that is ahead of the writer waits.
    After version 3 is closed, the writer is told once, the reader is told once when it has read
    everything, and both find the pipe broken from then on. *)
Theorem stream_is_queue (p r : Protocol) (ek : option EncryptKey) (ops : list ChanOp) :
  Protocol.version r = Protocol.version p → Protocol.tx p = true → Protocol.rx r = true →
  all_fit (Protocol.version p) ops →
  fst (chan_ops ops (new_chan p r ek)) = fst (queue_ops (Protocol.version p) ek ops empty_queue).
Proof.
  intros Hv Ht Hr Hf. by destruct (chan_steps _ ek ops _ _ (new_chan_linked p r ek Hv Ht Hr) Hf) as (c' & -> & _).
Qed.
End chan.
