(* ===== verification/ProtocolTorn.v ===== *)
(** * Streams that end, and streams that say too much

    A message of comms/src/protocol that arrives in part is refused; the operation codes that mean
    nothing; and what two messages under the same initialization vector give away. *)

From S2P Require Import Prelude Wire LogApi Crypto Protocol ProtocolSpec ProtocolQueue.

(** ** Messages that are cut off *)

(** A program that fails when reading fails. *)
Fixpoint strict {S A} (p : Proc (result WireError A * S)) : Prop :=
  match p with
  | Return _ => True
  | WriteAll _ k => ∀ r, strict (k r)
  | FlushAll k => ∀ r, strict (k r)
  | ReadExact _ k => (∀ bs, strict (k (Ok bs))) ∧ ∀ e, ∃ s, k (Err e) = Return (Err e, s)
  end.

Lemma strict_bind {S T A B} (m : Proc (result WireError A * S)) (f : result WireError A * S → Proc (result WireError B * T)) :
  strict m → (∀ x, strict (f x)) → (∀ e s, ∃ s', f (Err e, s) = Return (Err e, s')) → strict (proc_bind m f).
Proof.
  intros Hm Hf He. induction m as [x|bs k IH|k IH|n k IH]; cbn in *; [apply Hf|auto..].
  destruct Hm as [Hk Hs]. split; [intros bs; by apply IH|]. intros e. destruct (Hs e) as [s ->]. apply He.
Qed.

Lemma strict_wire {S A B} (c : wire S A) (f : A → wire S B) s : strict (c s) → (∀ a s, strict (f a s)) → strict ((c ≫= f) s).
Proof. intros Hc Hf. apply strict_bind; [done|by intros [[a|e] s']|]. intros e s'. by exists s'. Qed.

Lemma strict_recv {S} n (s : S) : strict (recv_exact n s).
Proof. split; [done|]. intros e. by exists s. Qed.

Lemma strict_guard {S} (has : S → bool) s : strict (guard has s).
Proof. unfold guard, wire_mk. by destruct (has s). Qed.

Create HintDb strict.
#[local] Hint Resolve strict_wire strict_recv strict_guard : strict.
#[local] Hint Extern 1 (strict (mret _ _)) => exact I : strict.
#[local] Hint Extern 1 (strict (wire_fail _ _)) => exact I : strict.
#[local] Hint Extern 1 (strict (wire_get _)) => exact I : strict.
#[local] Hint Extern 1 (strict (wire_put _ _)) => exact I : strict.

Lemma strict_vec {S} (has : S → bool) n s : strict (recv_vec has n s).
Proof. unfold recv_vec. auto with strict. Qed.
#[local] Hint Resolve strict_vec : strict.
Lemma strict_uint {S} (has : S → bool) n s : strict (recv_uint has n s).
Proof. unfold recv_uint. auto with strict. Qed.
#[local] Hint Resolve strict_uint : strict.
Lemma strict_counted {S} (has : S → bool) n s : strict (recv_counted has n s).
Proof. unfold recv_counted. apply strict_wire; [auto with strict|]. intros z s'. case_decide; auto with strict. Qed.
#[local] Hint Resolve strict_counted : strict.

Section reads.
Context `{CryptoPrims}.

Lemma strict_read1 ek t s : strict (V1.read_buf_with_header ek t s).
Proof.
  unfold V1.read_buf_with_header. destruct ek; (apply strict_wire; [apply strict_counted|]).
  - intros [|b iv] s'; [done|]. apply strict_wire; [apply strict_counted|]. by intros [|c cs] s''.
  - by intros [|b buf] s'.
Qed.

Lemma strict_body ek len t s : strict (V2.read_body ek len t s).
Proof.
  unfold V2.read_body. apply strict_wire; [apply strict_vec|]. intros bs s'. destruct ek; [|done].
  apply strict_wire; [done|]. intros s1 s2. by destruct (V2.iv_rx s1).
Qed.
#[local] Hint Resolve strict_body : strict.

Lemma strict_iv s : strict (V2.read_iv s).
Proof. unfold V2.read_iv. apply strict_wire; [apply strict_vec|]. done. Qed.
#[local] Hint Resolve strict_iv : strict.

Lemma strict_read2 fuel ek t s : strict (V2.read_buf_with_header fuel ek t s).
Proof.
  revert t s. induction fuel as [|fuel IH]; intros t s; [done|]. cbn [V2.read_buf_with_header].
  apply strict_wire; [apply strict_uint|]. intros op s'. cbv zeta.
  repeat case_decide; auto with strict; apply strict_wire; auto with strict; apply strict_uint.
Qed.

Lemma strict_packed {A} (c : wire V2.MessageProtocol A) s : strict (c (V3.packed s)) → strict (V3.on_packed c s).
Proof. intros Hc. apply strict_bind; [done|by intros []|]. intros e p. by eexists. Qed.
#[local] Hint Resolve strict_packed : strict.

Lemma strict_abort s : strict (V3.check_abort s).
Proof. unfold V3.check_abort, wire_mk. destruct (V3.is_closed s); [|done]. by destruct (V3.flip_to_abort s). Qed.

Lemma strict_read3 fuel ek t s : strict (V3.read_buf_with_header fuel ek t s).
Proof.
  revert t s. induction fuel as [|fuel IH]; intros t s; [done|]. cbn [V3.read_buf_with_header].
  apply strict_wire; [apply strict_abort|]. intros [] s'; [done|].
  apply strict_wire; [apply strict_uint|]. intros op s1. cbv zeta.
  repeat case_decide; auto with strict; apply strict_wire; auto with strict; try apply strict_uint. done.
Qed.

Lemma strict_read fuel rx : strict (StreamRx.read fuel rx).
Proof.
  unfold StreamRx.read, wire_mk, Protocol.read_buf_with_header, Protocol.dispatch.
  apply strict_bind; [|by intros []|intros e p; by eexists].
  destruct (srx_proto rx); (apply strict_bind; [|by intros []|intros e s; by eexists]).
  - apply strict_read1.
  - apply strict_read2.
  - apply strict_read3.
Qed.
End reads.

(** The connection ends after [n] of the bytes that arrived. *)
Definition cut_off (n : nat) (w : Wire) : Wire :=
  {| w_in := take n (w_in w); w_buf := w_buf w; w_out := w_out w; w_end := true; w_up := w_up w |}.

Lemma cut_short {S A} (p : Proc (result WireError A * S)) w x w' n : strict p → run_proc p w = (Return x, w') →
  w_end w = false → w_in w' = [] → (n < length (w_in w))%nat →
  ∃ s, returned (fst (run_proc p (cut_off n w))) = Some (Err UnexpectedEnd, s).
Proof.
  revert w n. induction p as [a|bs k IH|k IH|m k IH]; intros w n Hs E He Hin Hn; cbn in Hs, E |- *.
  - injection E as _ <-. rewrite Hin in Hn. cbn in Hn. lia.
  - unfold writing in *. cbn. destruct (w_up w).
    + by apply (IH (Ok ()) (with_buf w (w_buf w ++ bs)) n).
    + by apply (IH (Err BrokenPipe) w n).
  - unfold flushing in *. cbn. destruct (w_up w).
    + by apply (IH (Ok ()) (flushed w) n).
    + by apply (IH (Err BrokenPipe) w n).
  - destruct Hs as [Hk Hf]. unfold reading in *. cbn. rewrite He in E.
    destruct (decide (m ≤ length (w_in w))%nat) as [Hm|]; [|done]. rewrite length_take, Nat.min_l by lia.
    destruct (decide (m ≤ n)%nat) as [Hmn|Hmn].
    + rewrite take_take, Nat.min_l by lia. rewrite skipn_firstn_comm.
      apply (IH _ (with_in w (drop m (w_in w))) (n - m)%nat); try done. cbn. rewrite length_drop. lia.
    + destruct (Hf UnexpectedEnd) as [s ->]. by exists s.
Qed.

Section torn.
Context `{CryptoPrims}.

Lemma halves_nil ek tp rp bs q : halves ek tp rp bs q → q_msgs q = [] → q_tx q = Opened → q_rx q = Opened → bs = [].
Proof.
  intros Hh Hm Ht Hr. destruct tp as [p|p|p], rp as [r|r|r]; try done; cbn in Hh.
  - destruct Hh as (_ & _ & _ & _ & Hin). rewrite Hm in Hin. by inversion Hin.
  - destruct Hh as (_ & _ & _ & _ & Hin). rewrite Hm in Hin. by inversion Hin.
  - destruct Hh as (_ & _ & _ & _ & Hin). rewrite Hr in Hin. destruct Hin as (ds & n & -> & Hn & Hin).
    rewrite Hm in Hin. inversion Hin. by rewrite (proj2 Hn Ht).
Qed.

(** C17. A message that arrives in part is refused: in every version, with or without encryption, when
    the connection ends after fewer bytes than a write has sent, reading fails with the end of the
    stream, and never gives another message. *)
Theorem torn_message_refused (p r : Protocol) (ek : option EncryptKey) (rnd d : bytes) (n : nat) :
  Protocol.version r = Protocol.version p → Protocol.tx p = true → Protocol.rx r = true →
  fits (Protocol.version p) d →
  let c := snd (chan_op (Write rnd d) (new_chan p r ek)) in
  (n < length (w_in (ch_rw c)))%nat →
  ∃ rx, returned (fst (run_proc (StreamRx.read (2 + length (w_in (ch_rw c))) (ch_rx c)) (cut_off n (ch_rw c))))
    = Some (Err UnexpectedEnd, rx).
Proof.
  intros Hv Ht Hr Hf c Hn. pose proof (new_chan_linked p r ek Hv Ht Hr) as Hl.
  destruct (chan_step _ ek (Write rnd d) _ _ Hl) as (c' & E & Hl'); [by intros ? ? [= -> ->]|].
  assert (c = c') as Hc by (unfold c; by rewrite E). clearbody c. subst c. clear E. cbn in Hl'.
  destruct c' as [[tp tek] tw [rp rek] rw]. destruct Hl' as (Hte & Hre & _ & _ & _ & He & Hh). cbn in *. subst tek rek.
  destruct (halves_read ek tp rp rw _ d [] (2 + length (w_in rw)) Hh eq_refl eq_refl ltac:(lia)) as (p' & bs' & m & E & Hh').
  apply halves_nil in Hh' as ->; [|done..]. change (2 + length (w_in rw))%nat with (S (S (length (w_in rw)))) in E.
  eapply cut_short; [apply strict_read| |done| |done].
  - unfold StreamRx.read, wire_mk. cbn [srx_proto srx_ek]. rewrite run_bind, E. done.
  - done.
Qed.

(** ** Codes that mean nothing *)

(** Version 3 has no use for the codes 5, 6 and 7: the length that they stand for is below zero. *)
Lemma unknown_code_panics fuel ek t s w rest op : V3.is_closed s = false → V3.rx s = true → 5 ≤ op ≤ 7 →
  w_in w = byte_of_Z op :: rest →
  run_proc (V3.read_buf_with_header (S fuel) ek t s) w = (Return (Err WirePanic, s), with_in w rest).
Proof.
  intros Ho Hrx Hop Hin. cbn [V3.read_buf_with_header]. rewrite (run_bind_Ok _ _ _ _ _ _ _ (run_open s w Ho)).
  erewrite run_bind_Ok; [|apply (run_read_code V3.rx s w op rest Hrx Hin); lia]. cbn beta zeta.
  unfold op_noop, op_new_iv, op_buf16, op_buf32, op_close, V3.MAX_MESSAGE_OP_CODE.
  do 5 rewrite decide_False by lia. by rewrite decide_True by lia.
Qed.

(** ** One vector for many messages *)

Lemma xor_onto_common xs ys ks : length xs = length ys → length ks = length xs →
  xor_onto (xor_onto xs ks) (xor_onto ys ks) = xor_onto xs ys.
Proof.
  revert ys ks. induction xs as [|x xs IH]; intros [|y ys] [|k ks] Hl Hk; try done. cbn. f_equal; [|naive_solver].
  unfold byte_xor. rewrite !Z_of_byte_of_Z, !Z.mod_small by apply byte_lxor_bound. f_equal.
  rewrite <- (Z.lxor_0_r (Z.lxor (Z_of_byte x) (Z_of_byte y))), <- (Z.lxor_nilpotent (Z_of_byte k)).
  by rewrite !Z.lxor_assoc, <- (Z.lxor_assoc (Z_of_byte k) (Z_of_byte y)), (Z.lxor_comm (Z_of_byte k) (Z_of_byte y)), !Z.lxor_assoc.
Qed.

Lemma v3_send_again rnd key iv d hdr s w : V3.is_closed s = false → V3.tx s = true → writable w →
  V2.iv_tx (V3.packed s) = Some iv → V2.iv_use_cnt (V3.packed s) ≤ MESSAGE_MAX_IV_REUSE →
  V2.header_of V3.MAX_MESSAGE_OP_CODE (byte_len d) = Some hdr →
  run_proc (V3.send rnd (Some key) d s) w
  = (Return (Ok (byte_len d + byte_len hdr),
             V3.with_packed s (V2.with_iv_tx (V3.packed s) iv (V2.iv_use_cnt (V3.packed s) + 1))),
     shipped w (hdr ++ EncryptKey.encrypt_with_iv key iv d)).
Proof.
  intros Ho Htx [Hup Hb] Hiv Hc Hh. unfold V3.send. rewrite (run_bind_Ok _ _ _ _ _ _ _ (run_open s w Ho)).
  apply run_packed. unfold V2.send_with. erewrite run_bind_Ok.
  2: { unfold V2.choose_iv. erewrite run_bind_Ok by reflexivity. rewrite Hiv, decide_False by lia. reflexivity. }
  erewrite v2_write; [|done|done|by rewrite encrypt_iv_len]. rewrite encrypt_iv_len. cbn. rewrite Hb.
  by rewrite flushed_shipped.
Qed.

(** The protocol uses an initialization vector again for the next messages.  With the key
    stream of the counter mode this gives away what they have in common: of two messages
    of the same length that are sent one after the other, the difference is on the wire. *)
Theorem reused_vector_reveals (key : EncryptKey) (rnd1 rnd2 : bytes) (iv : InitializationVector) (a b : bytes)
    (s : V3.MessageProtocol) (w : Wire) :
  V3.is_closed s = false → V3.tx s = true → writable w → V2.iv_tx (V3.packed s) = Some iv →
  V2.iv_use_cnt (V3.packed s) < MESSAGE_MAX_IV_REUSE → length a = length b → byte_len a < u32_max →
  ∃ hdr ca cb n m s' w', run_proc ((n ← V3.send rnd1 (Some key) a; m ← V3.send rnd2 (Some key) b; mret (n, m)) s) w
      = (Return (Ok (n, m), s'), w')
    ∧ w_out w' = w_out w ++ (hdr ++ ca) ++ (hdr ++ cb) ∧ xor_onto ca cb = xor_onto a b.
Proof.
  intros Ho Htx Hw Hiv Hc Hl Hlen. assert (byte_len b = byte_len a) as Hbl by (unfold byte_len; by rewrite Hl).
  destruct (header_fits V3.MAX_MESSAGE_OP_CODE (byte_len a)) as [hdr Hh]; [done|split; [unfold byte_len; lia|done]|].
  eexists hdr, _, _, _, _, _, _. split.
  - erewrite run_bind_Ok by (apply v3_send_again; try done; lia).
    erewrite run_bind_Ok; [reflexivity|]. apply v3_send_again; try done; [cbn; lia|by rewrite Hbl].
  - split; [cbn; by rewrite <- app_assoc|]. unfold EncryptKey.encrypt_with_iv. rewrite <- Hl.
    apply xor_onto_common; [done|]. apply aes_ctr_length.
Qed.
End torn.

(** ** Witnesses *)

#[local] Existing Instance toy_prims.

Definition sample_proto (v : MessageProtocolVersion) : Protocol := MessageProtocolVersion.create v true true.

Definition sample_chan_ops : list ChanOp :=
  [Read; Write [x01] [x41; x42]; Write [x02] (replicate 300 x43); Read; Write [x03] [x44]; Close; Read; Read; Read; Read;
   Write [x05] [x45]; Write [x06] [x46]].

Lemma stream_is_queue_witness :
  fst (chan_ops sample_chan_ops (new_chan (sample_proto Version3) (sample_proto Version3) (Some (toy_key x07))))
  = [Waiting; Wrote (Ok 3); Wrote (Ok 303); Got (Ok [x41; x42]); Wrote (Ok 2); Closed (Ok ()); Got (Ok (replicate 300 x43));
     Got (Ok [x44]); Got (Ok []); Got (Err BrokenPipe); Wrote (Ok 0); Wrote (Err BrokenPipe)].
Proof.
  rewrite (stream_is_queue (sample_proto Version3) (sample_proto Version3) (Some (toy_key x07)) sample_chan_ops);
    [vm_compute; reflexivity|reflexivity..|].
  cbn. unfold byte_len, u32_max. cbn. lia.
Defined.

Lemma torn_message_refused_witness :
  ∃ rx, let c := snd (chan_op (Write [x01] [x41; x42]) (new_chan (sample_proto Version2) (sample_proto Version2) (Some (toy_key x07)))) in
  returned (fst (run_proc (StreamRx.read (2 + length (w_in (ch_rw c))) (ch_rx c)) (cut_off 19 (ch_rw c)))) = Some (Err UnexpectedEnd, rx).
Proof.
  apply (torn_message_refused (sample_proto Version2) (sample_proto Version2) (Some (toy_key x07)) [x01] [x41; x42] 19);
    [reflexivity..| |].
  - cbn. unfold byte_len, u32_max. cbn. lia.
  - vm_compute. lia.
Defined.

Definition sample_used : V3.MessageProtocol :=
  {| V3.packed := V2.with_iv_tx (V2.new false true) (generate_iv [x01]) 0; V3.flip_to_abort := false; V3.is_closed := false |}.

Lemma reused_vector_reveals_witness :
  ∃ hdr ca cb n m s' w', run_proc ((n ← V3.send [] (Some (toy_key x07)) [x41; x42]; m ← V3.send [] (Some (toy_key x07)) [x43; x44];
      mret (n, m)) sample_used) idle_wire = (Return (Ok (n, m), s'), w')
    ∧ w_out w' = (hdr ++ ca) ++ (hdr ++ cb) ∧ xor_onto ca cb = xor_onto [x41; x42] [x43; x44].
Proof.
  apply (reused_vector_reveals (toy_key x07) [] [] (generate_iv [x01]) [x41; x42] [x43; x44] sample_used idle_wire);
    [reflexivity|reflexivity|split; reflexivity|reflexivity|unfold MESSAGE_MAX_IV_REUSE; cbn; lia|reflexivity|].
  unfold byte_len, u32_max. cbn. lia.
Defined.
