(* ===== verification/Handshake.v ===== *)
(** * Setting up a connection

    comms/src/hello.rs and key_exchange.rs: the two ends tell each other who they are, agree on
    the version of the protocol and on a key.  The clients of comms/src/client.rs and
    lib/src/comms/client.rs, and the server of lib/src/comms/router.rs, are made of them. *)

From S2P Require Import Prelude Wire LogApi Crypto Codec Secure Protocol.

(** ** Who is at the ends *)

Inductive NodeId : Type :=
  | NodeUnknown
  | NodeClient (id : Z)
  | NodeServer (server_id node_id : Z).

Record HelloMetadata : Type := {
  hm_client_id : NodeId;
  hm_server_id : NodeId;
  hm_path : string;
  hm_encryption : option KeySize;
  hm_wire_format : SerializationFormat;
}.

Record SenderHello : Type := {
  sh_id : NodeId;
  sh_path : string;
  sh_domain : string;
  sh_key_size : option KeySize;
  sh_version : MessageProtocolVersion;
}.

Record ReceiverHello : Type := {
  rh_id : NodeId;
  rh_encryption : option KeySize;
  rh_wire_format : SerializationFormat;
  rh_version : MessageProtocolVersion;
}.

(** serde_json on the two messages; a message without a version has version 1. *)
Class HelloJson : Type := {
  sender_to_vec : SenderHello → option bytes;
  sender_from_slice : bytes → option SenderHello;
  receiver_to_vec : ReceiverHello → option bytes;
  receiver_from_slice : bytes → option ReceiverHello;
  sender_json : ∀ h bs, sender_to_vec h = Some bs → sender_from_slice bs = Some h;
  receiver_json : ∀ h bs, receiver_to_vec h = Some bs → receiver_from_slice bs = Some h;
}.

(** ** Key sizes *)

Definition key_bytes (k : KeySize) : Z := match k with Bit128 => 16 | Bit192 => 24 | Bit256 => 32 end.

Definition mesh_hello_upgrade_key (key1 key2 : option KeySize) : option KeySize :=
  match key1, key2 with
  | None, None => None
  | None, _ => key2
  | Some key1, None => Some key1
  | Some key1, Some key2 =>
      if decide (key_bytes key1 < key_bytes key2) then Some key2
      else if decide (key_bytes key2 < key_bytes key1) then Some key1
      else Some key1
  end.

(** ** Certificates *)

Inductive CertificateValidation : Type :=
  | DenyAll
  | AllowAll
  | AllowedCertificates (certs : list AteHash).

Definition validate (v : CertificateValidation) (cert : AteHash) : bool :=
  match v with
  | DenyAll => false
  | AllowAll => true
  | AllowedCertificates a => bool_decide (cert ∈ a)
  end.

Inductive StreamSecurity : Type :=
  | Unencrypted | AnyEncryption | ClassicEncryption | QuantumEncryption | DoubleEncryption.

Module StreamSecurity.
Definition default : StreamSecurity := AnyEncryption.

Definition classic_encryption (s : StreamSecurity) : bool :=
  match s with ClassicEncryption | DoubleEncryption => true | _ => false end.

Definition quantum_encryption (s : StreamSecurity) (https : bool) : bool :=
  match s with
  | AnyEncryption => negb https
  | QuantumEncryption | DoubleEncryption => true
  | _ => false
  end.

Definition from_str (s : string) : option StreamSecurity :=
  if decide (s ∈ ["none"; EmptyString; "no"; "unencrypted"]) then Some Unencrypted
  else if decide (s ∈ ["any"; "anyencryption"; "encrypted"; "any_encryption"]) then Some AnyEncryption
  else if decide (s = "classic"%string) then Some ClassicEncryption
  else if decide (s = "quantum"%string) then Some QuantumEncryption
  else if decide (s = "double"%string) then Some DoubleEncryption
  else None.
End StreamSecurity.

(** ** Hello *)

(** [?] on what serde_json returns. *)
Definition json {S A} (o : option A) : wire S A := match o with Some a => mret a | None => wire_fail JsonError end.

Definition switch_to (v : MessageProtocolVersion) : wire Protocol unit :=
  wire_mk (λ p, Return (Ok (), Protocol.upgrade v p)).

(** A program on the streams of a connection starts with version 1. *)
Definition on_streams {A} (c : wire Protocol A) : Proc (result WireError (Protocol * A)) :=
  proc_bind (c (MessageProtocolVersion.create Version1 true true)) (λ '(r, p), Return (a ← r; Ok (p, a))).

Section hello.
Context `{HelloJson}.

Definition mesh_hello_exchange_sender (client_id : NodeId) (hello_path domain : string) (key_size : option KeySize)
    : wire Protocol HelloMetadata :=
  let hello_client := {| sh_id := client_id; sh_path := hello_path; sh_domain := domain; sh_key_size := key_size;
                         sh_version := MessageProtocolVersion.default |} in
  hello_client_bytes ← json (sender_to_vec hello_client);
  _ ← Protocol.write_with_fixed_16bit_header hello_client_bytes false;
  hello_server_bytes ← Protocol.read_with_fixed_16bit_header;
  hello_server ← json (receiver_from_slice hello_server_bytes);
  _ ← match key_size with
      | None => mret ()
      | Some needed_size =>
          match rh_encryption hello_server with
          | None => wire_fail ConnectionRefused
          | Some a => if decide (key_bytes a < key_bytes needed_size) then wire_fail ConnectionRefused else mret ()
          end
      end;
  _ ← switch_to (MessageProtocolVersion.min (rh_version hello_server) (sh_version hello_client));
  mret {| hm_client_id := client_id; hm_server_id := rh_id hello_server; hm_path := hello_path;
          hm_encryption := rh_encryption hello_server; hm_wire_format := rh_wire_format hello_server |}.

Definition mesh_hello_exchange_receiver (server_id : NodeId) (key_size : option KeySize)
    (wire_format : SerializationFormat) : wire Protocol HelloMetadata :=
  hello_client_bytes ← Protocol.read_with_fixed_16bit_header;
  hello_client ← json (sender_from_slice hello_client_bytes);
  let encryption := mesh_hello_upgrade_key key_size (sh_key_size hello_client) in
  let hello_server := {| rh_id := server_id; rh_encryption := encryption; rh_wire_format := wire_format;
                         rh_version := MessageProtocolVersion.default |} in
  hello_server_bytes ← json (receiver_to_vec hello_server);
  _ ← Protocol.write_with_fixed_16bit_header hello_server_bytes false;
  _ ← switch_to (MessageProtocolVersion.min (rh_version hello_server) (sh_version hello_client));
  mret {| hm_client_id := sh_id hello_client; hm_server_id := server_id; hm_path := sh_path hello_client;
          hm_encryption := encryption; hm_wire_format := wire_format |}.
End hello.

(** ** Keys *)

(** The panics of the encryption. *)
Definition no_panic {S A} (r : result SecureError A) : wire S A :=
  match r with Ok a => mret a | Err _ => wire_fail WirePanic end.

Definition refuse {S A} (o : option A) : wire S A := match o with Some a => mret a | None => wire_fail ConnectionRefused end.

Definition merge_halves {S} (ek1 ek2 : EncryptKey) : wire S EncryptKey :=
  match EncryptKey.xor ek1 ek2 with Some ek => mret ek | None => wire_fail WirePanic end.

Section keys.
Context `{CryptoPrims} `{KemPrims}.

(** [pair] is what the key of the client is made of, [rnd] what its half of the secret is. *)
Definition mesh_key_exchange_sender (pair : bytes * bytes) (rnd : bytes) (key_size : KeySize)
    (validation : CertificateValidation) : wire Protocol EncryptKey :=
  let sk1 := PrivateEncryptKey.generate pair key_size in
  let pk1 := PrivateEncryptKey.as_public_key sk1 in
  _ ← Protocol.write_with_fixed_32bit_header (PublicEncryptKey.pk pk1) false;
  iv1_bytes ← Protocol.read_with_fixed_32bit_header;
  half1 ← no_panic (PrivateEncryptKey.decapsulate sk1 {| iv_bytes := iv1_bytes |});
  ek1 ← refuse half1;
  pk2_bytes ← Protocol.read_with_fixed_32bit_header;
  pk2 ← refuse (PublicEncryptKey.from_bytes pk2_bytes);
  if negb (validate validation (PublicEncryptKey.hash pk2)) then wire_fail ConnectionRefused
  else
    half2 ← no_panic (PublicEncryptKey.encapsulate rnd pk2);
    let '(iv2, ek2) := half2 in
    _ ← Protocol.write_with_fixed_32bit_header (iv_bytes iv2) false;
    merge_halves ek1 ek2.

Definition mesh_key_exchange_receiver (rnd : bytes) (server_key : PrivateEncryptKey) : wire Protocol EncryptKey :=
  pk1_bytes ← Protocol.read_with_fixed_32bit_header;
  pk1 ← refuse (PublicEncryptKey.from_bytes pk1_bytes);
  half1 ← no_panic (PublicEncryptKey.encapsulate rnd pk1);
  let '(iv1, ek1) := half1 in
  _ ← Protocol.write_with_fixed_32bit_header (iv_bytes iv1) true;
  let pk2 := PrivateEncryptKey.as_public_key server_key in
  _ ← Protocol.write_with_fixed_32bit_header (PublicEncryptKey.pk pk2) false;
  iv2_bytes ← Protocol.read_with_fixed_32bit_header;
  half2 ← no_panic (PrivateEncryptKey.decapsulate server_key {| iv_bytes := iv2_bytes |});
  ek2 ← refuse half2;
  merge_halves ek1 ek2.
End keys.

(** ** Clients *)

(** The sending half of a connection (lib/src/comms/conf.rs). *)
Record Upstream : Type := { up_id : NodeId; up_outbox : StreamTx; up_wire_format : SerializationFormat }.

Module StreamClient.
Record StreamClient : Type := { cl_rx : StreamRx; cl_tx : StreamTx; cl_hello : HelloMetadata }.

(** The certificates of the domain, and those of the process that are not among them. *)
Definition known_certs (dns_certs global : list AteHash) : list AteHash :=
  foldl (λ certs cert, if decide (cert ∈ certs) then certs else certs ++ [cert]) dns_certs global.

Definition validation (domain : string) (security : StreamSecurity) (https : bool) (dns_certs global : list AteHash)
    : CertificateValidation :=
  let certs := known_certs dns_certs global in
  let validation := match certs with
                    | _ :: _ => AllowedCertificates certs
                    | [] => if decide (domain = "localhost"%string) then AllowAll else DenyAll
                    end in
  if decide (domain = "localhost"%string) then AllowAll
  else if StreamSecurity.quantum_encryption security https then validation else AllowAll.

Section ops.
Context `{CryptoPrims} `{KemPrims} `{HelloJson}.

(** Once the socket is open. *)
Definition connect (pair : bytes * bytes) (rnd : bytes) (node_id : NodeId) (path domain : string)
    (security : StreamSecurity) (https : bool) (dns_certs global : list AteHash) : wire Protocol (option EncryptKey * HelloMetadata) :=
  let key_size := if StreamSecurity.quantum_encryption security https then Some Bit192 else None in
  hello_metadata ← mesh_hello_exchange_sender node_id path domain key_size;
  match hm_encryption hello_metadata with
  | Some key_size =>
      ek ← mesh_key_exchange_sender pair rnd key_size (validation domain security https dns_certs global);
      mret (Some ek, hello_metadata)
  | None => mret (None, hello_metadata)
  end.
End ops.

Definition built (p : Protocol) (x : option EncryptKey * HelloMetadata) : StreamClient :=
  let '(ek, hello) := x in
  {| cl_rx := fst (split p ek); cl_tx := snd (split p ek); cl_hello := hello |}.
End StreamClient.

Module MeshConnect.
Section ops.
Context `{CryptoPrims} `{KemPrims} `{HelloJson}.

(** lib/src/comms/client.rs: keys are exchanged when the client asks for encryption, whatever the
    server answered. *)
Definition mesh_connect_to (pair : bytes * bytes) (rnd : bytes) (hello_path : string) (node_id : NodeId) (domain : string)
    (wire_encryption : option KeySize) (validation : CertificateValidation) : wire Protocol (option EncryptKey * HelloMetadata) :=
  hello_metadata ← mesh_hello_exchange_sender node_id hello_path domain wire_encryption;
  match wire_encryption with
  | Some key_size =>
      ek ← mesh_key_exchange_sender pair rnd key_size validation; mret (Some ek, hello_metadata)
  | None => mret (None, hello_metadata)
  end.
End ops.

(** What the worker reads from, and what is written to. *)
Definition built (node_id : NodeId) (p : Protocol) (x : option EncryptKey * HelloMetadata) : StreamRx * Upstream :=
  let '(ek, hello) := x in
  (fst (split p ek), {| up_id := node_id; up_outbox := snd (split p ek); up_wire_format := hm_wire_format hello |}).
End MeshConnect.

(** ** The server *)

(** The routes are in the order that the hash maps give them in; [R] is what a route leads to. *)
Record StreamRouter (R : Type) : Type := {
  ro_wire_format : SerializationFormat;
  ro_min_encryption : option KeySize;
  ro_server_cert : option PrivateEncryptKey;
  ro_server_id : NodeId;
  ro_post_routes : list (string * R);
  ro_put_routes : list (string * R);
  ro_raw_routes : list (string * R);
  ro_routes : list (string * R);
  ro_default_route : option R;
}.
Arguments ro_wire_format {R} _.
Arguments ro_min_encryption {R} _.
Arguments ro_server_cert {R} _.
Arguments ro_server_id {R} _.
Arguments ro_post_routes {R} _.
Arguments ro_put_routes {R} _.
Arguments ro_raw_routes {R} _.
Arguments ro_routes {R} _.
Arguments ro_default_route {R} _.

(** What becomes of a socket: a raw route has it, a route has its halves, or nobody wants it. *)
Inductive Accepted (R : Type) : Type :=
  | RawAccepted (route : R) (path : string)
  | Accepting (route : option R) (ek : option EncryptKey) (hello : HelloMetadata).
Arguments RawAccepted {R} route path.
Arguments Accepting {R} route ek hello.

Module StreamRouter.
Definition new {R} (format : SerializationFormat) (min_encryption : option KeySize) (server_cert : option PrivateEncryptKey)
    (server_id : NodeId) : StreamRouter R :=
  {| ro_wire_format := format; ro_min_encryption := min_encryption; ro_server_cert := server_cert; ro_server_id := server_id;
     ro_post_routes := []; ro_put_routes := []; ro_raw_routes := []; ro_routes := []; ro_default_route := None |}.

(** [FxHashMap::insert]: the entry of a path is replaced. *)
Definition insert_route {R} (path : string) (route : R) (routes : list (string * R)) : list (string * R) :=
  (path, route) :: filter (λ e, fst e ≠ path) routes.

Definition set_default_route {R} (route : R) (r : StreamRouter R) : StreamRouter R :=
  {| ro_wire_format := ro_wire_format r; ro_min_encryption := ro_min_encryption r; ro_server_cert := ro_server_cert r;
     ro_server_id := ro_server_id r; ro_post_routes := ro_post_routes r; ro_put_routes := ro_put_routes r;
     ro_raw_routes := ro_raw_routes r; ro_routes := ro_routes r; ro_default_route := Some route |}.
Definition add_socket_route {R} (path : string) (route : R) (r : StreamRouter R) : StreamRouter R :=
  {| ro_wire_format := ro_wire_format r; ro_min_encryption := ro_min_encryption r; ro_server_cert := ro_server_cert r;
     ro_server_id := ro_server_id r; ro_post_routes := ro_post_routes r; ro_put_routes := ro_put_routes r;
     ro_raw_routes := ro_raw_routes r; ro_routes := insert_route path route (ro_routes r); ro_default_route := ro_default_route r |}.
Definition add_raw_route {R} (path : string) (route : R) (r : StreamRouter R) : StreamRouter R :=
  {| ro_wire_format := ro_wire_format r; ro_min_encryption := ro_min_encryption r; ro_server_cert := ro_server_cert r;
     ro_server_id := ro_server_id r; ro_post_routes := ro_post_routes r; ro_put_routes := ro_put_routes r;
     ro_raw_routes := insert_route path route (ro_raw_routes r); ro_routes := ro_routes r; ro_default_route := ro_default_route r |}.
Definition add_post_route {R} (path : string) (route : R) (r : StreamRouter R) : StreamRouter R :=
  {| ro_wire_format := ro_wire_format r; ro_min_encryption := ro_min_encryption r; ro_server_cert := ro_server_cert r;
     ro_server_id := ro_server_id r; ro_post_routes := insert_route path route (ro_post_routes r); ro_put_routes := ro_put_routes r;
     ro_raw_routes := ro_raw_routes r; ro_routes := ro_routes r; ro_default_route := ro_default_route r |}.
Definition add_put_route {R} (path : string) (route : R) (r : StreamRouter R) : StreamRouter R :=
  {| ro_wire_format := ro_wire_format r; ro_min_encryption := ro_min_encryption r; ro_server_cert := ro_server_cert r;
     ro_server_id := ro_server_id r; ro_post_routes := ro_post_routes r; ro_put_routes := insert_route path route (ro_put_routes r);
     ro_raw_routes := ro_raw_routes r; ro_routes := ro_routes r; ro_default_route := ro_default_route r |}.

(** The first route whose path the path starts with. *)
Definition find_route {R} (path : string) (routes : list (string * R)) : option R :=
  snd <$> List.find (λ e, String.prefix (fst e) path) routes.

Section ops.
Context `{CryptoPrims} `{KemPrims} `{HelloJson} {R : Type}.
Implicit Types (r : StreamRouter R).

(** The certificate that the negotiated key size asks for. *)
Definition server_keys (rnd : bytes) (r : StreamRouter R) (wire_encryption : option KeySize)
    : wire Protocol (option EncryptKey) :=
  match wire_encryption with
  | None => mret None
  | Some size =>
      match ro_server_cert r with
      | None => wire_fail MissingCertificate
      | Some a =>
          if decide (key_bytes (PrivateEncryptKey.size a) < key_bytes size) then wire_fail CertificateTooWeak
          else ek ← mesh_key_exchange_receiver rnd a; mret (Some ek)
      end
  end.

Definition accept_socket (rnd : bytes) (uri : option string) (r : StreamRouter R) : wire Protocol (Accepted R) :=
  match path ← uri; route ← find_route path (ro_raw_routes r); Some (route, path) with
  | Some (route, path) => mret (RawAccepted route path)
  | None =>
      hello_meta ← mesh_hello_exchange_receiver (ro_server_id r) (ro_min_encryption r) (ro_wire_format r);
      ek ← server_keys rnd r (hm_encryption hello_meta);
      mret (Accepting (match find_route (hm_path hello_meta) (ro_routes r) with
                       | Some route => Some route
                       | None => ro_default_route r
                       end) ek hello_meta)
  end.

(** The halves that a route gets. *)
Definition built (r : StreamRouter R) (p : Protocol) (ek : option EncryptKey) (hello : HelloMetadata) : StreamRx * Upstream :=
  (fst (split p ek), {| up_id := hm_client_id hello; up_outbox := snd (split p ek); up_wire_format := ro_wire_format r |}).

(** The routes of requests: both look at the routes of posts. *)
Definition post_request (path : string) r : option R := find_route path (ro_post_routes r).
Definition put_request (path : string) r : option R := find_route path (ro_post_routes r).
End ops.
End StreamRouter.
