(* ===== verification/HandshakeSpec.v ===== *)
(** * Both ends of a connection agree

    Whatever the interleaving, the client and the server of a new connection end up with the same
    version of the protocol, the same view of each other and the same key, and the halves of their
    streams are queues of messages in both directions. *)

From stdpp Require Import relations.
From S2P Require Import Prelude Wire LogApi Crypto Codec Secure Protocol ProtocolSpec ProtocolQueue Handshake.

(** ** Running two programs *)

Lemma pstep_bind {A B} (m m' : Proc A) (k : A → Proc B) w w' : pstep m w = Some (m', w') →
  pstep (proc_bind m k) w = Some (proc_bind m' k, w').
Proof.
  destruct m as [a|bs f|f|n f]; cbn; [done|..].
  - destruct (writing bs w). by intros [= <- <-].
  - destruct (flushing w). by intros [= <- <-].
  - destruct (reading n w) as [[r w1]|]; [|done]. by intros [= <- <-].
Qed.

Section rules.
Context {A B A' B' : Type}.

(** Programs that are part of others. *)
Lemma link_inside (F : Proc A → Proc A') (G : Proc B → Proc B') (m m' : Proc A) (n n' : Proc B) w w' v v' :
  (∀ m w m' w', pstep m w = Some (m', w') → pstep (F m) w = Some (F m', w')) →
  (∀ n w n' w', pstep n w = Some (n', w') → pstep (G n) w = Some (G n', w')) →
  rtc link_step {| li_left := (m, w); li_right := (n, v) |} {| li_left := (m', w'); li_right := (n', v') |} →
  rtc link_step {| li_left := (F m, w); li_right := (G n, v) |} {| li_left := (F m', w'); li_right := (G n', v') |}.
Proof.
  intros HF HG.
  set (up := λ c : Link A B, {| li_left := (F (fst (li_left c)), snd (li_left c));
                                li_right := (G (fst (li_right c)), snd (li_right c)) |}).
  intros Hr. change (rtc link_step (up {| li_left := (m, w); li_right := (n, v) |})
    (up {| li_left := (m', w'); li_right := (n', v') |})).
  revert Hr. generalize {| li_left := (m, w); li_right := (n, v) |} {| li_left := (m', w'); li_right := (n', v') |}.
  intros c d Hr. induction Hr as [|c c1 d Hs _ IH]; [done|]. eapply rtc_l; [|exact IH].
  destruct Hs as [p u [p' u'] y E|q u x [q' u'] E].
  - exact (step_left _ _ _ _ (HF _ _ _ _ E)).
  - exact (step_right _ _ _ _ (HG _ _ _ _ E)).
Qed.
End rules.

(** What follows does not matter yet. *)
Lemma link_context {A B A' B'} (k : A → Proc A') (l : B → Proc B') m m' n n' w w' v v' :
  rtc link_step {| li_left := (m, w); li_right := (n, v) |} {| li_left := (m', w'); li_right := (n', v') |} →
  rtc link_step {| li_left := (proc_bind m k, w); li_right := (proc_bind n l, v) |}
    {| li_left := (proc_bind m' k, w'); li_right := (proc_bind n' l, v') |}.
Proof. apply (link_inside (λ m, proc_bind m k) (λ n, proc_bind n l)); intros ????; apply pstep_bind. Qed.

Lemma link_context_r {A B B'} (l : B → Proc B') (m m' : Proc A) n n' w w' v v' :
  rtc link_step {| li_left := (m, w); li_right := (n, v) |} {| li_left := (m', w'); li_right := (n', v') |} →
  rtc link_step {| li_left := (m, w); li_right := (proc_bind n l, v) |}
    {| li_left := (m', w'); li_right := (proc_bind n' l, v') |}.
Proof. apply (link_inside (λ m, m) (λ n, proc_bind n l)); [done|]. intros ????. apply pstep_bind. Qed.

(** An end where [i] has arrived and [b] is to be flushed. *)
Definition wire_at (i b : bytes) : Wire := {| w_in := i; w_buf := b; w_out := []; w_end := false; w_up := true |}.

Section left_right.
Context {S A B X : Type}.
Implicit Types (c : wire S A) (f : A → wire S B) (s : S).

Lemma head_steps c f s w a s' w' : run_proc (c s) w = (Return (Ok a, s'), w') →
  rtc (λ x y, pstep (fst x) (snd x) = Some y) ((c ≫= f) s, w) (f a s', w').
Proof.
  intros E. pose proof (run_steps (c s) w) as Hr. rewrite E in Hr.
  assert (∀ x y : Proc (result WireError A * S) * Wire, rtc (λ x y, pstep (fst x) (snd x) = Some y) x y →
    ∀ k : _ → Proc (result WireError B * S), rtc (λ x y, pstep (fst x) (snd x) = Some y) (proc_bind (fst x) k, snd x) (proc_bind (fst y) k, snd y))
    as Hup.
  { intros x y Hxy k. induction Hxy as [|x [m w1] y Hs _ IH]; [done|]. eapply rtc_l; [|exact IH].
    cbn. by apply pstep_bind. }
  exact (Hup _ _ Hr (λ '(r, s'), match r with Ok a => f a s' | Err e => Return (Err e, s') end)).
Qed.

(** An operation at the left end that sends something, and one that does not. *)
Lemma left_sends c f s i b a s' i' b' bs (q : Proc X) j d :
  run_proc (c s) (wire_at i b) = (Return (Ok a, s'), with_out (wire_at i' b') bs) →
  rtc link_step {| li_left := ((c ≫= f) s, wire_at i b); li_right := (q, wire_at j d) |}
    {| li_left := (f a s', wire_at i' b'); li_right := (q, wire_at (j ++ bs) d) |}.
Proof.
  intros E. pose proof (left_lift _ _ (q, wire_at j d) (head_steps c f s _ a s' _ E)) as Hl.
  rewrite left_moved_stay in Hl by done. exact Hl.
Qed.

Lemma left_quiet c f s i b a s' i' b' (y : Proc X * Wire) :
  run_proc (c s) (wire_at i b) = (Return (Ok a, s'), wire_at i' b') →
  rtc link_step {| li_left := ((c ≫= f) s, wire_at i b); li_right := y |} {| li_left := (f a s', wire_at i' b'); li_right := y |}.
Proof.
  intros E. pose proof (left_lift _ _ y (head_steps c f s _ a s' _ E)) as Hl. by rewrite !left_moved_stay in Hl by done.
Qed.

Lemma right_sends c f s i b a s' i' b' bs (p : Proc X) j d :
  run_proc (c s) (wire_at i b) = (Return (Ok a, s'), with_out (wire_at i' b') bs) →
  rtc link_step {| li_left := (p, wire_at j d); li_right := ((c ≫= f) s, wire_at i b) |}
    {| li_left := (p, wire_at (j ++ bs) d); li_right := (f a s', wire_at i' b') |}.
Proof.
  intros E. pose proof (right_lift (p, wire_at j d) _ _ (head_steps c f s _ a s' _ E)) as Hl.
  rewrite right_moved_stay in Hl by done. exact Hl.
Qed.

Lemma right_quiet c f s i b a s' i' b' (x : Proc X * Wire) :
  run_proc (c s) (wire_at i b) = (Return (Ok a, s'), wire_at i' b') →
  rtc link_step {| li_left := x; li_right := ((c ≫= f) s, wire_at i b) |} {| li_left := x; li_right := (f a s', wire_at i' b') |}.
Proof.
  intros E. pose proof (right_lift x _ _ (head_steps c f s _ a s' _ E)) as Hl. by rewrite !right_moved_stay in Hl by done.
Qed.
End left_right.

(** ** The messages of the handshake *)

(** A buffer behind its length. *)
Definition counted (width : nat) (bs : bytes) : bytes := to_be width (byte_len bs) ++ bs.

Definition fresh (v : MessageProtocolVersion) : Protocol := MessageProtocolVersion.create v true true.

Lemma fresh_write16 i bs : byte_len bs ≤ u16_max →
  ∃ n, run_proc (Protocol.write_with_fixed_16bit_header bs false (fresh Version1)) (wire_at i [])
    = (Return (Ok n, fresh Version1), with_out (wire_at i []) (counted 2 bs)).
Proof.
  intros Hl. eexists. apply (run_dispatch1 _ _ _ (V1.new true true)). unfold V1.write_with_fixed_16bit_header, V1.write_with_16bit_header.
  by rewrite v1_write.
Qed.

Lemma fresh_read16 bs rest b : byte_len bs ≤ u16_max →
  run_proc (Protocol.read_with_fixed_16bit_header (fresh Version1)) (wire_at (counted 2 bs ++ rest) b)
  = (Return (Ok bs, fresh Version1), wire_at rest b).
Proof.
  intros Hl. apply (run_dispatch1 _ _ _ (V1.new true true)). unfold V1.read_with_fixed_16bit_header, counted.
  by rewrite (run_recv_counted V1.rx _ _ 2 bs rest); [|done|cbn -[to_be]; by rewrite <- app_assoc|unfold u16_max in Hl; lia].
Qed.

(** In any version. *)
Lemma fresh_write32 v i b bs (delay : bool) : byte_len bs < u32_max →
  ∃ n, run_proc (Protocol.write_with_fixed_32bit_header bs delay (fresh v)) (wire_at i b)
    = (Return (Ok n, fresh v), if delay then wire_at i (b ++ counted 4 bs) else with_out (wire_at i []) (b ++ counted 4 bs)).
Proof.
  intros Hl. eexists. destruct v.
  - apply (run_dispatch1 _ _ _ (V1.new true true)). unfold V1.write_with_fixed_32bit_header, V1.write_with_32bit_header.
    rewrite v1_write by (done || unfold u32_max in *; lia). by destruct delay.
  - apply (run_dispatch2 _ _ _ (V2.new true true)). unfold V2.write_with_fixed_32bit_header, V2.write_fixed.
    erewrite run_bind_Ok by by apply run_guard. rewrite decide_True by done. rewrite run_two_writes by done. by destruct delay.
  - apply (run_dispatch3 _ _ _ (V3.new true true)). unfold V3.write_with_fixed_32bit_header, V3.write_fixed.
    erewrite run_bind_Ok by by apply run_open. rewrite decide_True by done. erewrite run_bind_Ok by by apply run_guard.
    rewrite run_two_writes by done. by destruct delay.
Qed.

Lemma fresh_read32 v bs rest b : byte_len bs < u32_max →
  run_proc (Protocol.read_with_fixed_32bit_header (fresh v)) (wire_at (counted 4 bs ++ rest) b)
  = (Return (Ok bs, fresh v), wire_at rest b).
Proof.
  intros Hl. unfold counted.
  assert (∀ S (has : S → bool) s, has s = true → run_proc (recv_counted has 4 s) (wire_at ((to_be 4 (byte_len bs) ++ bs) ++ rest) b)
    = (Return (Ok bs, s), wire_at rest b)) as Hr.
  { intros S has s Hs.
    by rewrite (run_recv_counted has _ _ 4 bs rest); [|done|cbn -[to_be]; by rewrite <- app_assoc|unfold u32_max in Hl; lia]. }
  destruct v.
  - apply (run_dispatch1 _ _ _ (V1.new true true)). by apply Hr.
  - apply (run_dispatch2 _ _ _ (V2.new true true)). by apply Hr.
  - apply (run_dispatch3 _ _ _ (V3.new true true)). unfold V3.read_with_fixed_32bit_header, V3.read_fixed.
    erewrite run_bind_Ok by by apply run_open. by apply Hr.
Qed.

Lemma upgrade_fresh v v' : Protocol.upgrade v' (fresh v) = fresh v'.
Proof. unfold Protocol.upgrade. by destruct v. Qed.

(** ** Hello *)

Lemma upgrade_key_l key1 key2 k : key2 = Some k →
  ∃ k', mesh_hello_upgrade_key key1 key2 = Some k' ∧ key_bytes k ≤ key_bytes k'.
Proof.
  intros ->. destruct key1 as [k1|]; cbn; [|by exists k].
  repeat case_decide; eexists; (split; [done|]); lia.
Qed.

Lemma upgrade_key_r key1 key2 k : key1 = Some k →
  ∃ k', mesh_hello_upgrade_key key1 key2 = Some k' ∧ key_bytes k ≤ key_bytes k'.
Proof.
  intros ->. destruct key2 as [k2|]; cbn; [|by exists k].
  repeat case_decide; eexists; (split; [done|]); lia.
Qed.

Section hello.
Context `{HelloJson}.

(** What the two ends say. *)
Definition client_hello (client_id : NodeId) (path domain : string) (key_size : option KeySize) : SenderHello :=
  {| sh_id := client_id; sh_path := path; sh_domain := domain; sh_key_size := key_size;
     sh_version := MessageProtocolVersion.default |}.
Definition server_hello (server_id : NodeId) (min_size key_size : option KeySize) (format : SerializationFormat) : ReceiverHello :=
  {| rh_id := server_id; rh_encryption := mesh_hello_upgrade_key min_size key_size; rh_wire_format := format;
     rh_version := MessageProtocolVersion.default |}.

(** It fits into the messages. *)
Definition short_json (o : option bytes) : Prop := ∃ bs, o = Some bs ∧ byte_len bs ≤ u16_max.

Definition agreed (client_id server_id : NodeId) (path : string) (min_size key_size : option KeySize)
    (format : SerializationFormat) : HelloMetadata :=
  {| hm_client_id := client_id; hm_server_id := server_id; hm_path := path;
     hm_encryption := mesh_hello_upgrade_key min_size key_size; hm_wire_format := format |}.

Lemma hello_runs client_id server_id path domain min_size key_size format :
  short_json (sender_to_vec (client_hello client_id path domain key_size)) →
  short_json (receiver_to_vec (server_hello server_id min_size key_size format)) →
  rtc link_step (connected (mesh_hello_exchange_sender client_id path domain key_size (fresh Version1))
      (mesh_hello_exchange_receiver server_id min_size format (fresh Version1)))
    (connected (Return (Ok (agreed client_id server_id path min_size key_size format), fresh Version3))
      (Return (Ok (agreed client_id server_id path min_size key_size format), fresh Version3))).
Proof.
  intros (cb & Hcb & Hcl) (sb & Hsb & Hsl). unfold connected. change idle_wire with (wire_at [] []).
  unfold mesh_hello_exchange_sender. fold (client_hello client_id path domain key_size). rewrite Hcb. cbn [json].
  etrans; [by apply left_quiet|]. destruct (fresh_write16 [] cb Hcl) as [n En]. etrans; [by apply (left_sends _ _ _ _ _ _ _ _ _ _ _ _ _ En)|].
  unfold mesh_hello_exchange_receiver at 1. cbn [app]. pose proof (fresh_read16 cb [] [] Hcl) as Er. rewrite app_nil_r in Er.
  etrans; [by apply (right_quiet _ _ _ _ _ _ _ _ _ _ Er)|]. cbv beta. rewrite (sender_json _ _ Hcb). cbn [json].
  etrans; [by apply right_quiet|]. cbv beta zeta. cbn [sh_key_size client_hello sh_version sh_id sh_path].
  fold (server_hello server_id min_size key_size format). rewrite Hsb. cbn [json].
  etrans; [by apply right_quiet|]. destruct (fresh_write16 [] sb Hsl) as [m Em].
  etrans; [by apply (right_sends _ _ _ _ _ _ _ _ _ _ _ _ _ Em)|].
  etrans; [by apply right_quiet|]. cbn [app]. clear Er. pose proof (fresh_read16 sb [] [] Hsl) as Er. rewrite app_nil_r in Er.
  etrans; [by apply (left_quiet _ _ _ _ _ _ _ _ _ _ Er)|]. cbv beta. rewrite (receiver_json _ _ Hsb). cbn [json].
  etrans; [by apply left_quiet|]. etrans; [eapply (left_quiet _ _ _ _ _ ())|].
  { destruct key_size as [k|]; [|done]. cbn [rh_encryption server_hello].
    destruct (upgrade_key_l min_size (Some k) k eq_refl) as (k' & -> & Hk'). by rewrite decide_False by lia. }
  etrans; [by apply left_quiet|]. done.
Qed.
End hello.

(** ** Keys *)

(** The sizes of the parameter sets: the public keys of two sets are never of the same length. *)
Class KemSizes `{KemPrims} : Prop := {
  kem_public : ∀ l pk sk, ntru_pair l pk sk → length pk = ntru_public_key_bytes l;
  kem_apart : ∀ l l', ntru_public_key_bytes l = ntru_public_key_bytes l' → l = l';
  kem_public_small : ∀ l, Z.of_nat (ntru_public_key_bytes l) < u32_max;
  kem_cipher_small : ∀ l, Z.of_nat (ntru_ciphertext_bytes l) < u32_max;
}.

Section keys.
Context `{CryptoPrims} `{KemPrims} {HKS : KemSizes} `{HelloJson}.

Lemma from_bytes_public k : PrivateEncryptKey.generated k →
  PublicEncryptKey.from_bytes (PublicEncryptKey.pk (PrivateEncryptKey.as_public_key k)) = Some (PrivateEncryptKey.as_public_key k)
  ∧ byte_len (PublicEncryptKey.pk (PrivateEncryptKey.as_public_key k)) < u32_max.
Proof.
  unfold byte_len, PublicEncryptKey.from_bytes.
  destruct k as [[] ?|[] ?|[] ?]; cbn; try done; intros Hp; rewrite (kem_public _ _ _ Hp); (split; [|apply kem_public_small]);
    repeat (destruct (decide _) as [E|]; [try by apply kem_apart in E|]); done.
Qed.

Lemma seed_wf ss l : EncryptKey.wf (EncryptKey.from_seed_bytes ss l).
Proof.
  unfold EncryptKey.from_seed_bytes. assert (length (digest Sha3 [ss]) = 48%nat) as Hd by apply keccak384_length.
  destruct l; cbn -[digest take]; rewrite length_take, Hd; done.
Qed.

Lemma half_secret rnd k : PrivateEncryptKey.generated k → ∃ iv ek,
  PublicEncryptKey.encapsulate rnd (PrivateEncryptKey.as_public_key k) = Ok (iv, ek)
  ∧ PrivateEncryptKey.decapsulate k iv = Ok (Some ek) ∧ byte_len (iv_bytes iv) < u32_max ∧ EncryptKey.wf ek
  ∧ EncryptKey.size ek = PrivateEncryptKey.size k.
Proof.
  assert (∀ l pk sk, ntru_pair l pk sk → ∃ iv ek, encapsulate_at l rnd pk = Ok (iv, ek)
    ∧ decapsulate_at l sk iv = Ok (Some ek) ∧ byte_len (iv_bytes iv) < u32_max ∧ EncryptKey.wf ek
    ∧ EncryptKey.size ek = l) as Hat.
  { intros l pk sk Hp. destruct (ntru_agree l pk sk rnd Hp) as (ss & ct & He & Hl & Hd).
    unfold encapsulate_at, decapsulate_at. rewrite He. eexists _, _. split; [done|]. cbn [iv_bytes].
    rewrite bool_decide_eq_true_2 by done. cbn [negb]. rewrite Hd. split; [done|].
    split; [unfold byte_len; rewrite Hl; apply kem_cipher_small|]. split; [apply seed_wf|by destruct l]. }
  destruct k as [[] ?|[] ?|[] ?]; cbn; try done; apply Hat.
Qed.

Lemma xor_wf ek1 ek2 : EncryptKey.wf ek1 → ∃ ek, EncryptKey.xor ek1 ek2 = Some ek ∧ EncryptKey.size ek = EncryptKey.size ek1.
Proof.
  unfold EncryptKey.xor, EncryptKey.from_bytes. intros Hw. rewrite xor_onto_length.
  destruct ek1; cbn in *; rewrite Hw; by eexists.
Qed.

Lemma generated_pair pair l : ntru_pair l (fst pair) (snd pair) → PrivateEncryptKey.generated (PrivateEncryptKey.generate pair l).
Proof. by destruct l. Qed.

(** The key of a connection: the exclusive or of the secret that the server made for the key pair of
    the client, and the one that the client made for the certificate of the server. *)
Definition shared_key (pair : bytes * bytes) (rnd rnd' : bytes) (size : KeySize) (cert : PrivateEncryptKey) (ek : EncryptKey) : Prop :=
  ∃ iv1 ek1 iv2 ek2,
    PublicEncryptKey.encapsulate rnd' (PrivateEncryptKey.as_public_key (PrivateEncryptKey.generate pair size)) = Ok (iv1, ek1)
    ∧ PublicEncryptKey.encapsulate rnd (PrivateEncryptKey.as_public_key cert) = Ok (iv2, ek2)
    ∧ EncryptKey.xor ek1 ek2 = Some ek ∧ EncryptKey.size ek = size.

Lemma keys_run v pair rnd rnd' key_size validation server_key :
  ntru_pair key_size (fst pair) (snd pair) → PrivateEncryptKey.generated server_key →
  validate validation (PrivateEncryptKey.hash server_key) = true →
  ∃ ek, rtc link_step (connected (mesh_key_exchange_sender pair rnd key_size validation (fresh v))
      (mesh_key_exchange_receiver rnd' server_key (fresh v)))
    (connected (Return (Ok ek, fresh v)) (Return (Ok ek, fresh v)))
    ∧ shared_key pair rnd rnd' key_size server_key ek.
Proof.
  intros Hpair Hserver Hval. unfold connected. change idle_wire with (wire_at [] []).
  unfold mesh_key_exchange_sender, mesh_key_exchange_receiver. cbv zeta.
  set (sk1 := PrivateEncryptKey.generate pair key_size). pose proof (generated_pair _ _ Hpair) as Hsk1. fold sk1 in Hsk1.
  destruct (from_bytes_public sk1 Hsk1) as [Hpk1 Hl1]. destruct (from_bytes_public server_key Hserver) as [Hpk2 Hl2].
  destruct (half_secret rnd' sk1 Hsk1) as (iv1 & ek1 & He1 & Hd1 & Hil1 & Hw1 & Hs1).
  destruct (half_secret rnd server_key Hserver) as (iv2 & ek2 & He2 & Hd2 & Hil2 & _ & _).
  destruct (xor_wf ek1 ek2 Hw1) as (ek & Hx & Hsx). exists ek. split.
  2:{ exists iv1, ek1, iv2, ek2. split; [done|]. split; [done|]. split; [done|]. rewrite Hsx, Hs1. by destruct key_size. }
  (* the client's public key *)
  destruct (fresh_write32 v [] [] _ false Hl1) as [n1 En1]. etrans; [apply (left_sends _ _ _ _ _ _ _ _ _ _ _ _ _ En1)|].
  pose proof (fresh_read32 v _ [] [] Hl1) as Er1. rewrite app_nil_r in Er1. cbn [app].
  etrans; [apply (right_quiet _ _ _ _ _ _ _ _ _ _ Er1)|]. cbv beta. rewrite Hpk1. cbn [refuse].
  etrans; [by apply right_quiet|]. cbv beta. rewrite He1. cbn [no_panic]. etrans; [by apply right_quiet|]. cbv beta iota.
  (* the server's half, and its public key *)
  destruct (fresh_write32 v [] [] _ true Hil1) as [n2 En2]. etrans; [apply (right_quiet _ _ _ _ _ _ _ _ _ _ En2)|]. cbv beta.
  destruct (fresh_write32 v [] ([] ++ counted 4 (iv_bytes iv1)) _ false Hl2) as [n3 En3].
  etrans; [apply (right_sends _ _ _ _ _ _ _ _ _ _ _ _ _ En3)|]. cbn [app].
  etrans; [apply (left_quiet _ _ _ _ _ _ _ _ _ _ (fresh_read32 v _ _ [] Hil1))|]. cbv beta.
  destruct iv1 as [iv1]. cbn [iv_bytes]. rewrite Hd1. cbn [no_panic]. etrans; [by apply left_quiet|]. cbn [refuse].
  etrans; [by apply left_quiet|]. cbv beta. pose proof (fresh_read32 v _ [] [] Hl2) as Er2. rewrite app_nil_r in Er2.
  etrans; [apply (left_quiet _ _ _ _ _ _ _ _ _ _ Er2)|]. cbv beta. rewrite Hpk2. cbn [refuse].
  etrans; [by apply left_quiet|]. cbv beta. unfold PrivateEncryptKey.hash in Hval. rewrite Hval. cbn [negb].
  rewrite He2. cbn [no_panic]. etrans; [by apply left_quiet|]. cbv beta iota.
  (* the client's half *)
  destruct (fresh_write32 v [] [] _ false Hil2) as [n4 En4]. etrans; [apply (left_sends _ _ _ _ _ _ _ _ _ _ _ _ _ En4)|].
  pose proof (fresh_read32 v _ [] [] Hil2) as Er4. rewrite app_nil_r in Er4. cbn [app].
  etrans; [apply (right_quiet _ _ _ _ _ _ _ _ _ _ Er4)|]. cbv beta. destruct iv2 as [iv2]. cbn [iv_bytes].
  rewrite Hd2. cbn [no_panic]. etrans; [by apply right_quiet|]. cbn [refuse]. etrans; [by apply right_quiet|]. cbv beta.
  unfold merge_halves. by rewrite Hx.
Qed.
End keys.

(** ** The whole handshake *)

Section session.
Context `{CryptoPrims} `{KemPrims} {HKS : KemSizes} `{HelloJson} {R : Type}.
Implicit Types (r : StreamRouter R).

(** A client that exchanges keys when [wants] says so. *)
Definition client_of (pair : bytes * bytes) (rnd : bytes) (node_id : NodeId) (path domain : string) (key_size : option KeySize)
    (validation : CertificateValidation) (wants : HelloMetadata → option KeySize) : wire Protocol (option EncryptKey * HelloMetadata) :=
  hello ← mesh_hello_exchange_sender node_id path domain key_size;
  match wants hello with
  | Some key_size => ek ← mesh_key_exchange_sender pair rnd key_size validation; mret (Some ek, hello)
  | None => mret (None, hello)
  end.

(** The route of a path. *)
Definition routed r (path : string) : option R :=
  match StreamRouter.find_route path (ro_routes r) with Some route => Some route | None => ro_default_route r end.

(** The server has the certificate that the negotiated size asks for, and the client accepts it. *)
Definition trusted r (size : KeySize) (validation : CertificateValidation) : Prop :=
  ∃ cert, ro_server_cert r = Some cert ∧ PrivateEncryptKey.generated cert
    ∧ key_bytes size ≤ key_bytes (PrivateEncryptKey.size cert) ∧ validate validation (PrivateEncryptKey.hash cert) = true.

(** Nothing but the handshake is done with the socket. *)
Definition not_raw r (uri : option string) : Prop :=
  match uri with Some path => StreamRouter.find_route path (ro_raw_routes r) = None | None => True end.

Definition greeted r (node_id : NodeId) (path : string) (key_size : option KeySize) : HelloMetadata :=
  agreed node_id (ro_server_id r) path (ro_min_encryption r) key_size (ro_wire_format r).

Definition heard r (node_id : NodeId) (path domain : string) (key_size : option KeySize) : Prop :=
  short_json (sender_to_vec (client_hello node_id path domain key_size))
  ∧ short_json (receiver_to_vec (server_hello (ro_server_id r) (ro_min_encryption r) key_size (ro_wire_format r))).

(** After the hellos. *)
Lemma greeting_runs pair rnd rnd' node_id path domain key_size validation wants uri r :
  heard r node_id path domain key_size → not_raw r uri →
  rtc link_step (connected (on_streams (client_of pair rnd node_id path domain key_size validation wants))
      (on_streams (StreamRouter.accept_socket rnd' uri r)))
    (connected
       (proc_bind ((match wants (greeted r node_id path key_size) with
                    | Some wanted => ek ← mesh_key_exchange_sender pair rnd wanted validation;
                        mret (Some ek, greeted r node_id path key_size)
                    | None => mret (None, greeted r node_id path key_size)
                    end) (fresh Version3)) (λ '(x, p), Return (a ← x; Ok (p, a))))
       (proc_bind ((ek ← StreamRouter.server_keys rnd' r (hm_encryption (greeted r node_id path key_size));
                    mret (Accepting (routed r path) ek (greeted r node_id path key_size))) (fresh Version3))
         (λ '(x, p), Return (a ← x; Ok (p, a))))).
Proof.
  intros [Hc Hs] Hraw. unfold on_streams. apply link_context.
  assert (StreamRouter.accept_socket rnd' uri r = (hello_meta ← mesh_hello_exchange_receiver (ro_server_id r) (ro_min_encryption r) (ro_wire_format r);
    ek ← StreamRouter.server_keys rnd' r (hm_encryption hello_meta);
    mret (Accepting (routed r (hm_path hello_meta)) ek hello_meta))) as ->.
  { unfold StreamRouter.accept_socket. destruct uri as [u|]; [|done]. cbn in Hraw |- *. by rewrite Hraw. }
  pose proof (hello_runs node_id (ro_server_id r) path domain (ro_min_encryption r) key_size (ro_wire_format r) Hc Hs) as Hr.
  exact (link_context _ _ _ _ _ _ _ _ _ _ Hr).
Qed.

(** What both ends have in the end. *)
Definition session_of r (node_id : NodeId) (path : string) (key_size : option KeySize) (ek : option EncryptKey)
    (client : Proc (result WireError (Protocol * (option EncryptKey * HelloMetadata))))
    (server : Proc (result WireError (Protocol * Accepted R))) : Prop :=
  both_return client server (Ok (fresh Version3, (ek, greeted r node_id path key_size)))
    (Ok (fresh Version3, Accepting (routed r path) ek (greeted r node_id path key_size))).

Lemma session_runs pair rnd rnd' node_id path domain key_size validation wants uri r :
  heard r node_id path domain key_size → not_raw r uri →
  match hm_encryption (greeted r node_id path key_size), wants (greeted r node_id path key_size) with
  | Some size, Some wanted => ntru_pair wanted (fst pair) (snd pair) ∧ trusted r size validation
  | None, None => True
  | _, _ => False
  end →
  ∃ ek, match hm_encryption (greeted r node_id path key_size), wants (greeted r node_id path key_size) with
        | Some _, Some wanted => ∃ k cert, ek = Some k ∧ ro_server_cert r = Some cert ∧ shared_key pair rnd rnd' wanted cert k
        | _, _ => ek = None
        end
    ∧ session_of r node_id path key_size ek
        (on_streams (client_of pair rnd node_id path domain key_size validation wants))
        (on_streams (StreamRouter.accept_socket rnd' uri r)).
Proof.
  intros Hheard Hraw Hkeys. pose proof (greeting_runs pair rnd rnd' node_id path domain key_size validation wants uri r Hheard Hraw) as Hg.
  unfold session_of, both_return.
  destruct (hm_encryption (greeted r node_id path key_size)) as [size|], (wants (greeted r node_id path key_size)) as [wanted|]; try done.
  - destruct Hkeys as (Hpair & cert & Hcert & Hgen & Hsize & Hval).
    destruct (keys_run Version3 pair rnd rnd' wanted validation cert Hpair Hgen Hval) as (ek & Hek & Hk).
    exists (Some ek). split; [by exists ek, cert|]. apply any_order; [done| |apply both_returned]. etrans; [exact Hg|].
    unfold StreamRouter.server_keys. rewrite Hcert, decide_False by lia.
    exact (link_context _ _ _ _ _ _ _ _ _ _ (link_context_r _ _ _ _ _ _ _ _ _ (link_context _ _ _ _ _ _ _ _ _ _ Hek))).
  - exists None. split; [done|]. apply any_order; [done| |apply both_returned]. exact Hg.
Qed.

(** A stream between two ends is a queue, one way and back. *)
Lemma fresh_queue ek ops : all_fit Version3 ops →
  fst (chan_ops ops (new_chan (fresh Version3) (fresh Version3) ek)) = fst (queue_ops Version3 ek ops empty_queue).
Proof.
  intros Hf. pose proof (new_chan_linked (fresh Version3) (fresh Version3) ek eq_refl eq_refl eq_refl) as Hl.
  by destruct (chan_steps _ ek ops _ _ Hl Hf) as (c' & -> & _).
Qed.

(** C15. A client that connects to a server whose certificate it accepts gets a session: whatever the
    interleaving, both ends return, with the same view of each other, at version 3 of the protocol, with
    the same key, and with one exactly when either of them asked for it.  The key is made of a secret
    of the server for the client and of one of the client for the certificate of the server, has the
    size they settle on, and that is at least what each asked for.  The streams between them are
    queues of messages both ways. *)
Theorem client_gets_session (pair : bytes * bytes) (rnd rnd' : bytes) (node_id : NodeId) (path domain : string)
    (security : StreamSecurity) (https : bool) (dns_certs global : list AteHash) (uri : option string) (r : StreamRouter R) :
  let asked := if StreamSecurity.quantum_encryption security https then Some Bit192 else None in
  let hello := greeted r node_id path asked in
  heard r node_id path domain asked → not_raw r uri →
  (∀ size, hm_encryption hello = Some size → ntru_pair size (fst pair) (snd pair)
     ∧ trusted r size (StreamClient.validation domain security https dns_certs global)) →
  ∃ ek, both_return (on_streams (StreamClient.connect pair rnd node_id path domain security https dns_certs global))
      (on_streams (StreamRouter.accept_socket rnd' uri r))
      (Ok (fresh Version3, (ek, hello))) (Ok (fresh Version3, Accepting (routed r path) ek hello))
    ∧ (is_Some ek ↔ is_Some (ro_min_encryption r) ∨ is_Some asked)
    ∧ (∀ k, ek = Some k → ∃ size cert, hm_encryption hello = Some size ∧ ro_server_cert r = Some cert
         ∧ shared_key pair rnd rnd' size cert k)
    ∧ (∀ size, ro_min_encryption r = Some size ∨ asked = Some size →
         ∃ k, ek = Some k ∧ key_bytes size ≤ key_bytes (EncryptKey.size k))
    ∧ let client := StreamClient.built (fresh Version3) (ek, hello) in
      let server := StreamRouter.built r (fresh Version3) ek hello in
      ∀ ops, all_fit Version3 ops →
        fst (chan_ops ops {| ch_tx := StreamClient.cl_tx client; ch_tw := idle_wire; ch_rx := fst server; ch_rw := idle_wire |})
          = fst (queue_ops Version3 ek ops empty_queue)
        ∧ fst (chan_ops ops {| ch_tx := up_outbox (snd server); ch_tw := idle_wire;
                               ch_rx := StreamClient.cl_rx client; ch_rw := idle_wire |})
          = fst (queue_ops Version3 ek ops empty_queue).
Proof.
  intros asked hello Hheard Hraw Htrust.
  destruct (session_runs pair rnd rnd' node_id path domain asked
    (StreamClient.validation domain security https dns_certs global) hm_encryption uri r Hheard Hraw) as (ek & Hek & Hs).
  { fold hello. destruct (hm_encryption hello) as [size|] eqn:E; [|done]. by apply Htrust. }
  fold hello in Hek. exists ek. split; [exact Hs|].
  assert (∀ size, ro_min_encryption r = Some size ∨ asked = Some size →
    ∃ size', hm_encryption hello = Some size' ∧ key_bytes size ≤ key_bytes size') as Hup.
  { intros size [Hk|Hk]; [by apply upgrade_key_r|by apply upgrade_key_l]. }
  split; [|split; [|split]].
  - split.
    + intros [k ->]. destruct (ro_min_encryption r) as [k1|] eqn:Emin; [by left|right]. destruct asked as [k2|] eqn:Easked; [done|].
      assert (hm_encryption hello = None) as E by (unfold hello; cbn; by rewrite Emin). by rewrite E in Hek.
    + intros [[size Hk]|[size Hk]]; (destruct (Hup size) as (size' & E & _); [by auto|]); rewrite E in Hek;
        by destruct Hek as (k & cert & -> & _).
  - intros k ->. destruct (hm_encryption hello) as [size|]; [|done]. destruct Hek as (k' & cert & [= <-] & Hc & Hk). by exists size, cert.
  - intros size Hor. destruct (Hup size Hor) as (size' & E & Hle). rewrite E in Hek.
    destruct Hek as (k & cert & -> & _ & iv1 & ek1 & iv2 & ek2 & _ & _ & _ & Hsz). exists k. by rewrite Hsz.
  - intros client server ops Hf. split; by apply fresh_queue.
Qed.

(** C39. A client of the mesh that asks for no encryption is lost at a server that does: it takes the
    connection for established and its messages for readable, while the server waits for a public
    key that never comes. *)
Theorem unasked_encryption_strands (pair : bytes * bytes) (rnd rnd' : bytes) (node_id : NodeId) (path domain : string)
    (validation : CertificateValidation) (uri : option string) (r : StreamRouter R) (size : KeySize) (cert : PrivateEncryptKey) :
  heard r node_id path domain None → not_raw r uri → ro_min_encryption r = Some size → ro_server_cert r = Some cert →
  key_bytes size ≤ key_bytes (PrivateEncryptKey.size cert) →
  ∃ q, ends_in (connected (on_streams (MeshConnect.mesh_connect_to pair rnd path node_id domain None validation))
      (on_streams (StreamRouter.accept_socket rnd' uri r)))
    {| li_left := (Return (Ok (fresh Version3, (None, greeted r node_id path None))), idle_wire); li_right := (q, idle_wire) |}
    ∧ returned q = None.
Proof.
  intros Hheard Hraw Hmin Hcert Hsize.
  pose proof (greeting_runs pair rnd rnd' node_id path domain None validation (λ _, None) uri r Hheard Hraw) as Hg.
  assert (hm_encryption (greeted r node_id path None) = Some size) as Henc by (cbn; by rewrite Hmin).
  rewrite Henc in Hg. unfold StreamRouter.server_keys in Hg. rewrite Hcert, decide_False in Hg by lia.
  eexists. split; [apply any_order; [done|exact Hg|]|done].
  intros [l Hl]. inversion Hl as [? ? x ? E|? ? ? x E]; subst; cbn in E; done.
Qed.
End session.
