(* ===== verification/HandshakeSafety.v ===== *)
(** * Against any server

    What a client has of its certificates whatever the other end sends, the routes of requests, and
    the connections that the theorems of HandshakeSpec.v are used on. *)

From stdpp Require Import relations.
From S2P Require Import Prelude Wire LogApi Crypto Codec Secure Protocol ProtocolSpec ProtocolQueue Handshake HandshakeSpec.

(** ** Any other end *)

Lemma run_bind_inv {S A B} (c : wire S A) (f : A → wire S B) s w b s2 w2 :
  run_proc ((c ≫= f) s) w = (Return (Ok b, s2), w2) →
  ∃ a s1 w1, run_proc (c s) w = (Return (Ok a, s1), w1) ∧ run_proc (f a s1) w1 = (Return (Ok b, s2), w2).
Proof.
  unfold mbind, wire_bind. rewrite run_bind. destruct (run_proc (c s) w) as [[[[a|e] s1]|bs k|k|n k] w1]; cbn; try done.
  intros E. by exists a, s1, w1.
Qed.

(** What a run has taken from the wire and put on it. *)
Definition moved (w w' : Wire) (taken sent : bytes) : Prop :=
  w_in w = taken ++ w_in w' ∧ w_out w' ++ w_buf w' = w_out w ++ w_buf w ++ sent.

Lemma moved_trans w1 w2 w3 t1 t2 s1 s2 : moved w1 w2 t1 s1 → moved w2 w3 t2 s2 → moved w1 w3 (t1 ++ t2) (s1 ++ s2).
Proof. intros [Hi Ho] [Hi' Ho']. split; [by rewrite Hi, Hi', app_assoc|]. by rewrite Ho', (app_assoc (w_out w2)), Ho, <- !app_assoc. Qed.

Section inversion.
Context {S : Type}.
Implicit Types (s : S) (has : S → bool).

Lemma recv_vec_inv has n s w bs s' w' : run_proc (recv_vec has n s) w = (Return (Ok bs, s'), w') →
  s' = s ∧ length bs = Z.to_nat n ∧ moved w w' bs [].
Proof.
  unfold recv_vec. intros (u & s1 & w1 & Eg & E)%run_bind_inv. unfold guard, wire_mk in Eg. destruct (has s); [|done].
  injection Eg as <- <- <-. cbn in E. unfold reading in E. destruct (decide _) as [Hn|]; [|by destruct (w_end w)].
  injection E as <- <- <-. split; [done|]. split; [rewrite length_take; lia|]. unfold moved. cbn. by rewrite take_drop, app_nil_r.
Qed.

Lemma recv_counted_inv has s w bs s' w' : run_proc (recv_counted has 4 s) w = (Return (Ok bs, s'), w') →
  s' = s ∧ moved w w' (counted 4 bs) [].
Proof.
  unfold recv_counted. intros (len & s1 & w1 & Eu & E)%run_bind_inv. unfold recv_uint in Eu.
  apply run_bind_inv in Eu as (h & s2 & w2 & Eh & Eu). apply recv_vec_inv in Eh as (-> & Hl & Hm). injection Eu as <- <- <-.
  assert (to_be 4 (from_be h) = h) as Hh by (change 4%nat with (Z.to_nat (Z.of_nat 4)); rewrite <- Hl; apply to_be_from_be).
  assert (0 ≤ from_be h) as Hpos by apply from_be_nonneg. unfold counted, byte_len.
  destruct (decide _) as [Hz|Hz].
  - injection E as <- <- <-. split; [done|]. cbn [length]. by replace (Z.of_nat 0) with (from_be h) by (cbn; lia); rewrite Hh, app_nil_r.
  - apply recv_vec_inv in E as (-> & Hb & Hm'). split; [done|]. rewrite Hb, Z2Nat.id, Hh by done. exact (moved_trans _ _ _ _ _ _ _ Hm Hm').
Qed.

Lemma two_writes_inv {A} s w hdr buf (n a : A) s' w' :
  run_proc ((_ ← write_all hdr; _ ← write_all buf; _ ← flush_unless false; mret n) s) w = (Return (Ok a, s'), w') →
  s' = s ∧ w_buf w' = [] ∧ moved w w' [] (hdr ++ buf).
Proof.
  intros E. destruct (w_up w) eqn:Hup; [|apply run_bind_inv in E as (? & ? & ? & Ew & _); cbn in Ew; unfold writing in Ew; by rewrite Hup in Ew].
  rewrite (run_two_writes false s w hdr buf n Hup) in E. injection E as _ <- <-. split; [done|]. split; [done|].
  unfold moved. cbn. by rewrite app_nil_r.
Qed.

Lemma one_write_inv {A} s w bs (n a : A) s' w' :
  run_proc ((_ ← write_all bs; _ ← flush_unless false; mret n) s) w = (Return (Ok a, s'), w') →
  s' = s ∧ w_buf w' = [] ∧ moved w w' [] bs.
Proof.
  intros E. destruct (w_up w) eqn:Hup; [|apply run_bind_inv in E as (? & ? & ? & Ew & _); cbn in Ew; unfold writing in Ew; by rewrite Hup in Ew].
  rewrite (run_one_write false s w bs n Hup) in E. injection E as _ <- <-. split; [done|]. split; [done|].
  unfold moved. cbn. by rewrite app_nil_r.
Qed.
End inversion.

Lemma dispatch_inv {A} (c1 : wire V1.MessageProtocol A) c2 c3 p w a p' w' :
  run_proc (Protocol.dispatch c1 c2 c3 p) w = (Return (Ok a, p'), w') →
  match p with
  | Proto1 s => ∃ s', p' = Proto1 s' ∧ run_proc (c1 s) w = (Return (Ok a, s'), w')
  | Proto2 s => ∃ s', p' = Proto2 s' ∧ run_proc (c2 s) w = (Return (Ok a, s'), w')
  | Proto3 s => ∃ s', p' = Proto3 s' ∧ run_proc (c3 s) w = (Return (Ok a, s'), w')
  end.
Proof.
  unfold Protocol.dispatch, wire_mk. destruct p as [s|s|s]; rewrite run_bind;
    destruct (run_proc _ w) as [[[r s1]|?|?|?] w1]; cbn; try done; intros [= -> <- <-]; by exists s1.
Qed.

(** A message that was read, and one that was written, of a protocol that nothing was closed on. *)
Lemma read32_inv v w bs p' w' : run_proc (Protocol.read_with_fixed_32bit_header (fresh v)) w = (Return (Ok bs, p'), w') →
  p' = fresh v ∧ moved w w' (counted 4 bs) [].
Proof.
  intros E%dispatch_inv. destruct v; cbn in E; destruct E as (s' & -> & E).
  - by apply recv_counted_inv in E as [-> Hm].
  - by apply recv_counted_inv in E as [-> Hm].
  - unfold V3.read_with_fixed_32bit_header, V3.read_fixed in E. apply run_bind_inv in E as (a & s1 & w1 & Ea & E).
    injection Ea as <- <- <-. by apply recv_counted_inv in E as [-> Hm].
Qed.

Lemma write32_inv v w bs n p' w' : run_proc (Protocol.write_with_fixed_32bit_header bs false (fresh v)) w = (Return (Ok n, p'), w') →
  p' = fresh v ∧ w_buf w' = [] ∧ moved w w' [] (counted 4 bs).
Proof.
  intros E%dispatch_inv. destruct v; cbn in E; destruct E as (s' & -> & E).
  - unfold V1.write_with_fixed_32bit_header, V1.write_with_32bit_header, V1.write_counted in E.
    apply run_bind_inv in E as (a & s1 & w1 & Ea & E). injection Ea as <- <- <-. destruct (decide _); [done|].
    destruct (decide _); [apply one_write_inv in E as (-> & ?)|apply two_writes_inv in E as (-> & ?)]; done.
  - unfold V2.write_with_fixed_32bit_header, V2.write_fixed in E.
    apply run_bind_inv in E as (a & s1 & w1 & Ea & E). injection Ea as <- <- <-. destruct (decide _); [|done].
    by apply two_writes_inv in E as (-> & ?).
  - unfold V3.write_with_fixed_32bit_header, V3.write_fixed in E.
    apply run_bind_inv in E as (a & s1 & w1 & Ea & E). injection Ea as <- <- <-. destruct (decide _); [|done].
    apply run_bind_inv in E as (a & s1 & w1 & Ea & E). injection Ea as <- <- <-.
    by apply two_writes_inv in E as (-> & ?).
Qed.

Section any_server.
Context `{CryptoPrims} `{KemPrims}.

(** C16. Whatever the other end sends, a client that ends up with a key has accepted a certificate,
    and the certificate is in the key.  What it received is an encapsulated secret and a public key
    whose hash it accepted; what it sent is its own public key and a secret encapsulated for the
    accepted one.  The key is the exclusive or of the two secrets, the one that it opened with its
    private key and the one that it made for the owner of the certificate. *)
Theorem accepted_key_is_certified (pair : bytes * bytes) (rnd : bytes) (key_size : KeySize) (validation : CertificateValidation)
    (v : MessageProtocolVersion) (p' : Protocol) (w w' : Wire) (ek : EncryptKey) :
  run_proc (mesh_key_exchange_sender pair rnd key_size validation (fresh v)) w = (Return (Ok ek, p'), w') →
  let sk1 := PrivateEncryptKey.generate pair key_size in
  ∃ iv1 pk2_bytes pk2 iv2 ek1 ek2,
    w_in w = counted 4 iv1 ++ counted 4 pk2_bytes ++ w_in w'
    ∧ w_out w' = w_out w ++ w_buf w ++ counted 4 (PublicEncryptKey.pk (PrivateEncryptKey.as_public_key sk1))
                   ++ counted 4 (iv_bytes iv2)
    ∧ PrivateEncryptKey.decapsulate sk1 {| iv_bytes := iv1 |} = Ok (Some ek1)
    ∧ PublicEncryptKey.from_bytes pk2_bytes = Some pk2 ∧ validate validation (PublicEncryptKey.hash pk2) = true
    ∧ PublicEncryptKey.encapsulate rnd pk2 = Ok (iv2, ek2) ∧ EncryptKey.xor ek1 ek2 = Some ek.
Proof.
  unfold mesh_key_exchange_sender. cbv zeta. set (sk1 := PrivateEncryptKey.generate pair key_size). intros E.
  apply run_bind_inv in E as (n & p1 & w1 & (-> & _ & Hm1)%write32_inv & E).
  apply run_bind_inv in E as (iv1 & p2 & w2 & (-> & Hm2)%read32_inv & E).
  apply run_bind_inv in E as (half1 & p3 & w3 & Ed & E).
  destruct (PrivateEncryptKey.decapsulate sk1 {| iv_bytes := iv1 |}) as [half|] eqn:Edec; [|done]. injection Ed as -> <- <-.
  apply run_bind_inv in E as (ek1 & p4 & w4 & Er & E). destruct half1 as [h1|]; [|done]. injection Er as -> <- <-.
  apply run_bind_inv in E as (pk2b & p5 & w5 & (-> & Hm3)%read32_inv & E).
  apply run_bind_inv in E as (pk2 & p6 & w6 & Er & E). destruct (PublicEncryptKey.from_bytes pk2b) as [pk|] eqn:Epk; [|done].
  injection Er as -> <- <-. destruct (validate validation (PublicEncryptKey.hash pk2)) eqn:Hv; [|done].
  apply run_bind_inv in E as ([iv2 ek2] & p7 & w7 & Eh & E).
  destruct (PublicEncryptKey.encapsulate rnd pk2) as [x|] eqn:Ex; [|done]. injection Eh as -> <- <-.
  apply run_bind_inv in E as (m & p8 & w8 & (-> & Hb & Hm4)%write32_inv & E).
  unfold merge_halves in E. destruct (EncryptKey.xor ek1 ek2) as [ek'|] eqn:Exor; [|done]. injection E as -> _ <-.
  exists iv1, pk2b, pk2, iv2, ek1, ek2.
  destruct (moved_trans _ _ _ _ _ _ _ (moved_trans _ _ _ _ _ _ _ Hm1 Hm2) (moved_trans _ _ _ _ _ _ _ Hm3 Hm4)) as [Hin Hout].
  rewrite Hb, !app_nil_r in Hout. rewrite !app_nil_r, <- app_assoc in Hin. done.
Qed.

(** A client that accepts no certificate never gets a key. *)
Lemma deny_all_refuses pair rnd key_size p p' w w' ek :
  run_proc (mesh_key_exchange_sender pair rnd key_size DenyAll p) w ≠ (Return (Ok ek, p'), w').
Proof.
  unfold mesh_key_exchange_sender. intros E. apply run_bind_inv in E as (n & p1 & w1 & _ & E).
  apply run_bind_inv in E as (iv1 & p2 & w2 & _ & E). apply run_bind_inv in E as (half1 & p3 & w3 & _ & E).
  apply run_bind_inv in E as (ek1 & p4 & w4 & _ & E). apply run_bind_inv in E as (pk2b & p5 & w5 & _ & E).
  by apply run_bind_inv in E as (pk2 & p6 & w6 & _ & E).
Qed.
End any_server.

(** ** Routes *)

Lemma find_added {R} path (route : R) routes : StreamRouter.find_route path (StreamRouter.insert_route path route routes) = Some route.
Proof.
  unfold StreamRouter.find_route, StreamRouter.insert_route. cbn.
  assert (String.prefix path path = true) as ->; [|done]. induction path as [|c path IH]; [done|]. cbn.
  by destruct (Ascii.ascii_dec c c).
Qed.

(** A route that is added is found by its path: for sockets, raw sockets and posts. *)
Lemma added_routes_found {R} path (route : R) (r : StreamRouter R) :
  routed (StreamRouter.add_socket_route path route r) path = Some route
  ∧ StreamRouter.find_route path (ro_raw_routes (StreamRouter.add_raw_route path route r)) = Some route
  ∧ StreamRouter.post_request path (StreamRouter.add_post_route path route r) = Some route.
Proof.
  split; [|split; apply find_added]. unfold routed. cbn [ro_routes StreamRouter.add_socket_route]. by rewrite find_added.
Qed.

(** The routes of puts are never looked at. *)
Lemma put_routes_unused {R} path path' (route : R) (r : StreamRouter R) :
  StreamRouter.put_request path' (StreamRouter.add_put_route path route r) = StreamRouter.put_request path' r.
Proof. done. Qed.

(** ** Witnesses *)

Section samples.
#[local] Existing Instance toy_prims.

(** Keys of one, two and three bytes. *)
#[local] Program Instance sized_kem : KemPrims := {
  ntru_public_key_bytes l := match l with Bit128 => 1 | Bit192 => 2 | Bit256 => 3 end%nat;
  ntru_ciphertext_bytes _ := 20%nat;
  ntru_pair l pk sk := pk = sk ∧ length pk = match l with Bit128 => 1 | Bit192 => 2 | Bit256 => 3 end%nat;
  ntru_encapsulate _ pk rnd := Some (pk ++ fit 20 rnd, fit 20 rnd);
  ntru_decapsulate _ ct sk := Some (sk ++ ct);
}.
Next Obligation. intros l pk sk rnd [-> _]. eexists _, _. split; [done|]. split; [apply fit_length|done]. Qed.

#[local] Instance sized_sizes : KemSizes.
Proof.
  split.
  - by intros l pk sk [_ Hl].
  - by intros [] [].
  - by intros [].
  - done.
Qed.

Definition size_code (k : option KeySize) : bytes :=
  match k with None => [x00] | Some Bit128 => [x01] | Some Bit192 => [x02] | Some Bit256 => [x03] end.
Definition code_size (bs : bytes) : option KeySize :=
  match bs with x01 :: _ => Some Bit128 | x02 :: _ => Some Bit192 | x03 :: _ => Some Bit256 | _ => None end.

(** Hellos of one client to one server, which differ in the key size only. *)
Definition toy_sender (key_size : option KeySize) : SenderHello :=
  client_hello (NodeClient 7) "/db" "example" key_size.
Definition toy_receiver (encryption : option KeySize) : ReceiverHello :=
  {| rh_id := NodeServer 1 2; rh_encryption := encryption; rh_wire_format := Bincode; rh_version := Version3 |}.

#[local] Instance node_eq_dec : EqDecision NodeId.
Proof. solve_decision. Defined.
#[local] Instance format_eq_dec : EqDecision SerializationFormat.
Proof. solve_decision. Defined.
#[local] Instance sender_eq_dec : EqDecision SenderHello.
Proof. solve_decision. Defined.
#[local] Instance receiver_eq_dec : EqDecision ReceiverHello.
Proof. solve_decision. Defined.

#[local] Program Instance toy_hello : HelloJson := {
  sender_to_vec h := if decide (h = toy_sender (sh_key_size h)) then Some (size_code (sh_key_size h)) else None;
  sender_from_slice bs := Some (toy_sender (code_size bs));
  receiver_to_vec h := if decide (h = toy_receiver (rh_encryption h)) then Some (size_code (rh_encryption h)) else None;
  receiver_from_slice bs := Some (toy_receiver (code_size bs));
}.
Next Obligation.
  cbn. intros h bs. destruct (decide (h = toy_sender (sh_key_size h))) as [E|]; [|done]. intros [= <-]. rewrite E at 2.
  by destruct (sh_key_size h) as [[]|].
Qed.
Next Obligation.
  cbn. intros h bs. destruct (decide (h = toy_receiver (rh_encryption h))) as [E|]; [|done]. intros [= <-]. rewrite E at 2.
  by destruct (rh_encryption h) as [[]|].
Qed.

Definition sample_cert : PrivateEncryptKey := PrivateNtru256 (PublicNtru256 [x01; x02; x03]) [x01; x02; x03].

Definition sample_router : StreamRouter string :=
  StreamRouter.add_socket_route "/db" "chains" (StreamRouter.new Bincode (Some Bit256) (Some sample_cert) (NodeServer 1 2)).

Definition sample_hash : AteHash := PrivateEncryptKey.hash sample_cert.

Definition sample_pair : bytes * bytes := ([x04; x05; x06], [x04; x05; x06]).

Lemma client_gets_session_witness :
  ∃ ek, both_return
      (on_streams (StreamClient.connect sample_pair [x09] (NodeClient 7) "/db" "example" QuantumEncryption true [] [sample_hash]))
      (on_streams (StreamRouter.accept_socket [x0a] None sample_router))
      (Ok (fresh Version3, (ek, greeted sample_router (NodeClient 7) "/db" (Some Bit192))))
      (Ok (fresh Version3, Accepting (Some "chains"%string) ek (greeted sample_router (NodeClient 7) "/db" (Some Bit192))))
    ∧ is_Some ek.
Proof.
  destruct (client_gets_session sample_pair [x09] [x0a] (NodeClient 7) "/db" "example" QuantumEncryption true [] [sample_hash] None
    sample_router) as (ek & Hb & Hs & _).
  - split; eexists; (split; [vm_compute; reflexivity|]); vm_compute; done.
  - exact I.
  - intros size [= <-]. split; [split; reflexivity|]. exists sample_cert. split; [reflexivity|]. split; [split; reflexivity|].
    split; [vm_compute; done|]. vm_compute. reflexivity.
  - exists ek. split; [exact Hb|]. apply Hs. left. by eexists.
Defined.

Lemma unasked_encryption_strands_witness :
  ∃ q, ends_in (connected (on_streams (MeshConnect.mesh_connect_to sample_pair [x09] "/db" (NodeClient 7) "example" None AllowAll))
      (on_streams (StreamRouter.accept_socket [x0a] None sample_router)))
    {| li_left := (Return (Ok (fresh Version3, (None, greeted sample_router (NodeClient 7) "/db" None))), idle_wire);
       li_right := (q, idle_wire) |}
    ∧ returned q = None.
Proof.
  apply (unasked_encryption_strands sample_pair [x09] [x0a] (NodeClient 7) "/db" "example" AllowAll None sample_router Bit256 sample_cert).
  - split; eexists; (split; [vm_compute; reflexivity|]); vm_compute; done.
  - exact I.
  - reflexivity.
  - reflexivity.
  - vm_compute. done.
Defined.

(** What a server has to say for the key exchange to end. *)
Definition sample_answer : Wire := wire_at (counted 4 (fit 20 [x0a]) ++ counted 4 [x01; x02; x03]) [].

Lemma accepted_key_is_certified_witness :
  ∃ pk2, validate (AllowedCertificates [sample_hash]) (PublicEncryptKey.hash pk2) = true
    ∧ ∃ ek p' w', run_proc (mesh_key_exchange_sender sample_pair [x09] Bit256 (AllowedCertificates [sample_hash]) (fresh Version3)) sample_answer
        = (Return (Ok ek, p'), w').
Proof.
  eassert (run_proc (mesh_key_exchange_sender sample_pair [x09] Bit256 (AllowedCertificates [sample_hash]) (fresh Version3)) sample_answer
    = (Return (Ok _, _), _)) as E by (vm_compute; reflexivity).
  destruct (accepted_key_is_certified sample_pair [x09] Bit256 (AllowedCertificates [sample_hash]) Version3 _ sample_answer _ _ E)
    as (iv1 & pk2b & pk2 & iv2 & ek1 & ek2 & _ & _ & _ & _ & Hv & _).
  exists pk2. split; [exact Hv|]. eexists _, _, _. reflexivity.
Defined.
End samples.
