(* ===== verification/AuthModel.v ===== *)
(** * The records of the authentication service

    wasmer-auth/src/model: users, their second factor, what is known of them in public and what
    they recover an account with; groups and the roles of a group.  lib/src/dio/child.rs and
    foreign.rs: the one record that hangs under another, and references into other chains.
    wasmer-auth/src/helper: keys from passwords, numbers for users and groups, and the keys a
    user, a user with sudo and a member of a group are given.  Texts are ASCII. *)

From Stdlib Require Import Ascii.
From S2P Require Import Prelude LogApi Crypto Codec Secure Meta Time Event Index Signature Tree Session Compact Plugins LogFile MemDb RedoLog Chain ChainSpec Pipe Dio Mesh Trans.

(** ** Texts *)

(** [to_lowercase] and [to_uppercase] on ASCII letters. *)
Definition lower_char (c : ascii) : ascii :=
  let n := nat_of_ascii c in
  if (65 <=? n)%nat && (n <=? 90)%nat then ascii_of_nat (n + 32) else c.

Definition upper_char (c : ascii) : ascii :=
  let n := nat_of_ascii c in
  if (97 <=? n)%nat && (n <=? 122)%nat then ascii_of_nat (n - 32) else c.

Fixpoint map_string (f : ascii → ascii) (s : string) : string :=
  match s with
  | EmptyString => EmptyString
  | String c s => String (f c) (map_string f s)
  end.

Definition to_lowercase : string → string := map_string lower_char.
Definition to_uppercase : string → string := map_string upper_char.

(** [&s[from..to]]. *)
Definition slice (from to : nat) (s : string) : string := String.substring from (to - from) s.

(** [AteHash::from(String)] and [PrimaryKey::from(String)]. *)
Definition hash_of_text `{CryptoPrims} (s : string) : AteHash := AteHash.from_bytes (str_bytes s).
Definition key_of_text `{CryptoPrims} (s : string) : PrimaryKey := PrimaryKey.from_hash (hash_of_text s).

(** lib/src/utils/key.rs. *)
Definition chain_key_4hex `{CryptoPrims} (val : string) (prefix : option string) : ChainKey :=
  let hex := to_lowercase (to_hex_string (hash_of_text val)) in
  match prefix with
  | Some prefix => ChainKey.new (prefix +:+ "-" +:+ slice 0 4 hex)
  | None => ChainKey.new (slice 0 4 hex)
  end.

(** ** References *)

Record DaoForeign : Type := { df_map : gmap string PrimaryKey }.

Module DaoForeign.
Definition new : DaoForeign := {| df_map := ∅ |}.
Definition get_by_name (f : DaoForeign) (name : string) : option PrimaryKey := df_map f !! name.
Definition set_by_name (name : string) (key : PrimaryKey) (f : DaoForeign) : DaoForeign :=
  {| df_map := <[name := key]> (df_map f) |}.
End DaoForeign.

(** [DaoChild<D>]: the record of the collection; the child of a record that is saved. *)
Record DaoChild (D : Type) : Type := { dc_vec_id : Z }.
Arguments dc_vec_id {D} _.

Module DaoChild.
(** [vec_id] is drawn. *)
Definition new {D} (vec_id : Z) : DaoChild D := {| dc_vec_id := vec_id |}.

Section ops.
Context {B T : Type} `{!Trans B T} {D : Type} `{!DataSerializer D}.
Implicit Types (parent_id : PrimaryKey) (c : DaoChild D).

Definition iter_mut parent_id c : st (B * T) DioLoadErrorKind (list (DaoMut D)) :=
  children ← tr_children D parent_id (dc_vec_id c) false false;
  mret (reverse children).

Definition load_mut parent_id c : st (B * T) DioLoadErrorKind (option (DaoMut D)) :=
  daos ← iter_mut parent_id c;
  mret (head daos).

Fixpoint delete_all (daos : list (DaoMut D)) : st (B * T) RowErrorKind unit :=
  match daos with
  | [] => mret ()
  | dao :: daos => _ ← tr_dao_delete dao; delete_all daos
  end.

Definition clear parent_id c : st (B * T) DioLoadErrorKind unit :=
  daos ← iter_mut parent_id c;
  st_map_err DioSerialization (delete_all daos).

Definition store_with_key parent_id (data : D) (key : option PrimaryKey) c
    : st (B * T) DioLoadErrorKind (DaoMut D) :=
  _ ← clear parent_id c;
  st_map_err DioSerialization
    (ret ← tr_store key data;
     tr_attach_ext parent_id (dc_vec_id c) ret).
End ops.
End DaoChild.

(** ** Users *)

Record Authorization : Type := {
  au_read : EncryptKey;
  au_private_read : PrivateEncryptKey;
  au_write : PrivateSignKey;
}.

Inductive UserRole : Type := Human | Robot.

(** The time is in nanoseconds. *)
Inductive UserStatus : Type :=
  | Nominal
  | Unverified
  | AccountLocked (until : Z).

#[global] Instance UserStatus_eq_dec : EqDecision UserStatus.
Proof. solve_decision. Defined.

Record AcceptedTerms : Type := { at_terms_and_conditions : string }.

Inductive AdvertId : Type := UID (v : Z) | GID (v : Z).

Record Advert : Type := {
  av_identity : string;
  av_id : AdvertId;
  av_nominal_encrypt : PublicEncryptKey;
  av_nominal_auth : PublicSignKey;
  av_sudo_encrypt : PublicEncryptKey;
  av_sudo_auth : PublicSignKey;
  av_broker_encrypt : PublicEncryptKey;
  av_broker_auth : PublicSignKey;
}.

Record Sudo : Type := {
  sud_email : string;
  sud_uid : Z;
  sud_google_auth : string;
  sud_secret : string;
  sud_qr_code : string;
  sud_failed_attempts : Z;
  sud_contract_read_key : EncryptKey;
  sud_access : list Authorization;
  sud_groups : list string;
}.

Record UserRecovery : Type := {
  rec_email : string;
  rec_google_auth : string;
  rec_sudo_secret : string;
  rec_qr_code : string;
  rec_login_secret : EncryptKey;
}.

Inductive Gender : Type := GenderUnspecified | Male | Female | OtherGender.

(** A day and the codes of countries are numbers. *)
Record Person : Type := {
  pe_first_name : string;
  pe_last_name : string;
  pe_other_names : list string;
  pe_date_of_birth : option Z;
  pe_gender : Gender;
  pe_nationalities : list Z;
  pe_foreign : DaoForeign;
}.

Record User : Type := {
  us_email : string;
  us_person : DaoChild Person;
  us_accepted_terms : DaoChild AcceptedTerms;
  us_verification_code : option string;
  us_uid : Z;
  us_role : UserRole;
  us_status : UserStatus;
  us_last_login : option Z;
  us_access : list Authorization;
  us_foreign : DaoForeign;
  us_sudo : DaoChild Sudo;
  us_advert : DaoChild Advert;
  us_recovery : DaoChild UserRecovery;
  us_nominal_read : AteHash;
  us_nominal_public_read : PublicEncryptKey;
  us_nominal_write : PublicSignKey;
  us_sudo_read : AteHash;
  us_sudo_public_read : PublicEncryptKey;
  us_sudo_write : PublicSignKey;
  us_broker_read : PrivateEncryptKey;
  us_broker_write : PrivateSignKey;
}.

Module User.
(** The fields the service changes. *)
Definition with_status (u : User) (status : UserStatus) (code : option string) : User :=
  {| us_email := us_email u; us_person := us_person u; us_accepted_terms := us_accepted_terms u;
     us_verification_code := code; us_uid := us_uid u; us_role := us_role u; us_status := status;
     us_last_login := us_last_login u; us_access := us_access u; us_foreign := us_foreign u;
     us_sudo := us_sudo u; us_advert := us_advert u; us_recovery := us_recovery u;
     us_nominal_read := us_nominal_read u; us_nominal_public_read := us_nominal_public_read u;
     us_nominal_write := us_nominal_write u; us_sudo_read := us_sudo_read u;
     us_sudo_public_read := us_sudo_public_read u; us_sudo_write := us_sudo_write u;
     us_broker_read := us_broker_read u; us_broker_write := us_broker_write u |}.
End User.

Module Sudo.
Definition with_failed_attempts (s : Sudo) (n : Z) : Sudo :=
  {| sud_email := sud_email s; sud_uid := sud_uid s; sud_google_auth := sud_google_auth s;
     sud_secret := sud_secret s; sud_qr_code := sud_qr_code s; sud_failed_attempts := n;
     sud_contract_read_key := sud_contract_read_key s; sud_access := sud_access s;
     sud_groups := sud_groups s |}.

(** A new second factor; the count of failures begins anew. *)
Definition with_authenticator (s : Sudo) (google_auth secret qr_code : string) : Sudo :=
  {| sud_email := sud_email s; sud_uid := sud_uid s; sud_google_auth := google_auth;
     sud_secret := secret; sud_qr_code := qr_code; sud_failed_attempts := 0;
     sud_contract_read_key := sud_contract_read_key s; sud_access := sud_access s;
     sud_groups := sud_groups s |}.
End Sudo.

(** ** Groups *)

Record Role : Type := {
  ro_purpose : AteRolePurpose;
  ro_read : AteHash;
  ro_private_read : PublicEncryptKey;
  ro_write : PublicSignKey;
  ro_access : MultiEncryptedSecureData;
}.

Record Group : Type := {
  gp_name : string;
  gp_gid : Z;
  gp_roles : list Role;
  gp_foreign : DaoForeign;
  gp_broker_read : PrivateEncryptKey;
  gp_broker_write : PrivateSignKey;
}.

Definition with_access (r : Role) (access : MultiEncryptedSecureData) : Role :=
  {| ro_purpose := ro_purpose r; ro_read := ro_read r; ro_private_read := ro_private_read r;
     ro_write := ro_write r; ro_access := access |}.

Definition with_roles (g : Group) (roles : list Role) : Group :=
  {| gp_name := gp_name g; gp_gid := gp_gid g; gp_roles := roles; gp_foreign := gp_foreign g;
     gp_broker_read := gp_broker_read g; gp_broker_write := gp_broker_write g |}.

(** ** Keys and numbers *)

Section helpers.
Context `{CryptoPrims} `{KemPrims}.

(** The buffer that is made of the seed and the password is not used. *)
Definition password_to_read_key (seed password : string) (repeat : Z) (key_size : KeySize) : EncryptKey :=
  let bytes := str_bytes seed ++ str_bytes password in
  let bytes := bytes ++ replicate (1000 - length bytes) x00 in
  let hash := AteHash.from_bytes_sha3 (str_bytes password) repeat in
  EncryptKey.from_seed_bytes (hash_val hash) key_size.

Definition U32_MAX : Z := 4294967295.

(** [as u32]. *)
Definition as_u32 (n : Z) : Z := n mod 2 ^ 32.

(** [None] is the panic of an empty range. *)
Definition estimate_user_name_as_uid (email : string) : option Z :=
  let min := U32_MAX * 2 `div` 4 in
  let max := U32_MAX * 3 `div` 4 in
  (λ k, as_u32 (PrimaryKey.as_u64 k)) <$> PrimaryKey.from_ext (hash_of_text email) min max.

Definition estimate_group_name_as_gid (group : string) : option Z :=
  let min := U32_MAX * 3 `div` 4 in
  let max := U32_MAX * 4 `div` 4 in
  (λ k, as_u32 (PrimaryKey.as_u64 k)) <$> PrimaryKey.from_ext (hash_of_text group) min max.

Definition is_public_domain (domain : string) : bool :=
  existsb (λ d, bool_decide (d = domain))
    ["gmail.com"; "zoho.com"; "outlook.com"; "hotmail.com"; "mail.com"; "yahoo.com"; "gmx.com";
     "hushmail.com"; "hush.com"; "inbox.com"; "aol.com"; "yandex.com"].

(** ** What a user is given *)

Definition add_authorization (a : Authorization) (r : AteGroupRole) : AteGroupRole :=
  AteGroupRole.add_write_key (au_write a)
    (AteGroupRole.add_private_read_key (au_private_read a)
       (AteGroupRole.add_read_key (au_read a) r)).

Definition compute_user_auth (user : User) : AteSessionUser :=
  let role := fold_left (λ r a, add_authorization a r) (us_access user)
                (su_user AteSessionUser.new) in
  {| su_user := AteGroupRole.add_uid (us_uid user) role; su_token := None;
     su_identity := us_email user; su_broker_read := Some (us_broker_read user);
     su_broker_write := Some (us_broker_write user) |}.

Definition compute_sudo_auth (sudo : Sudo) (session : AteSessionUser) : AteSessionSudo :=
  let role := fold_left (λ r a, add_authorization a r) (sud_access sudo)
                {| gr_purpose := Owner; gr_properties := [] |} in
  let role := AteGroupRole.add_read_key (sud_contract_read_key sudo) role in
  {| sd_inner := session; sd_sudo := AteGroupRole.add_uid (sud_uid sudo) role |}.
End helpers.

(** ** What a member of a group is given *)

Section groups.
Context `{CryptoPrims} `{KemPrims} `{!Serde EncryptKey} `{!Serde Authorization}.
Implicit Types (role : Role) (session : AteSessionGroup).

(** The first key that gives something; an error ends the search. *)
Fixpoint first_open {K A} (open : K → result SecureError (option A)) (keys : list K)
    : result SecureError (option A) :=
  match keys with
  | [] => Ok None
  | key :: keys =>
      a ← open key;
      match a with Some a => Ok (Some a) | None => first_open open keys end
  end.

Definition open_role (super_keys : list PrivateEncryptKey) (shared_keys : list EncryptKey) role
    : result SecureError (option Authorization) :=
  a ← first_open (MultiEncryptedSecureData.unwrap (ro_access role)) super_keys;
  match a with
  | Some a => Ok (Some a)
  | None => first_open (MultiEncryptedSecureData.unwrap_shared (ro_access role)) shared_keys
  end.

Definition gain_role (gid : Z) (purpose : AteRolePurpose) (a : Authorization) session : AteSessionGroup :=
  AteSessionGroup.with_group session
    (AteGroup.with_role purpose (λ r, AteGroupRole.add_gid gid (add_authorization a r))
       (sg_group session)).

(** One turn over the roles: those that stay closed, and the session. *)
Fixpoint try_roles (gid : Z) (super_keys : list PrivateEncryptKey) (shared_keys : list EncryptKey)
    (roles : list Role) session : result SecureError (list Role * AteSessionGroup) :=
  match roles with
  | [] => Ok ([], session)
  | role :: roles =>
      a ← open_role super_keys shared_keys role;
      match a with
      | Some a => try_roles gid super_keys shared_keys roles (gain_role gid (ro_purpose role) a session)
      | None =>
          '(next, session) ← try_roles gid super_keys shared_keys roles session;
          Ok (role :: next, session)
      end
  end.

(** The loop; [fuel] is above the number of roles, and every turn but the last opens one. *)
Fixpoint expand_roles (fuel : nat) (gid : Z) (roles : list Role) session : result SecureError AteSessionGroup :=
  match fuel, roles with
  | O, _ | _, [] => Ok session
  | S fuel, _ =>
      '(next, session) ← try_roles gid (se_private_read_keys AllKeys session)
                           (se_read_keys AllKeys session) roles session;
      if decide (length roles ≤ length next)%nat then Ok session
      else expand_roles fuel gid next session
  end.

(** The session before a role is opened; the brokers come with it. *)
Definition group_session (group : Group) (inner : AteSessionInner) : AteSessionGroup :=
  let session := AteSessionGroup.new inner (gp_name group) in
  AteSessionGroup.with_group session
    {| ag_name := ag_name (sg_group session); ag_roles := ag_roles (sg_group session);
       ag_broker_read := Some (gp_broker_read group);
       ag_broker_write := Some (gp_broker_write group) |}.

Definition complete_group_auth (group : Group) (inner : AteSessionInner) : result SecureError AteSessionGroup :=
  expand_roles (S (length (gp_roles group))) (gp_gid group) (gp_roles group) (group_session group inner).
End groups.
