(* ===== verification/AuthService.v ===== *)
(** * The authentication service

    wasmer-auth/src/service.rs and work/: the handlers of the requests that make users and groups,
    log users in, raise them to sudo, reset what they log in with, and change who is in a group.
    The users and groups are records of chains the registry opens; [Registry] and [SessionTrans]
    are what the service relies on.  The chain is one of 65536, by the hash of the name.

    A guard of [as_mut] saves the record when it goes out of scope: [with_guard].  The draws of a
    request are numbered.  The clock stands still while a request is worked on. *)

From Stdlib Require Import Ascii.
From S2P Require Import Prelude LogApi Crypto Codec Secure Meta Time Event Index Signature Tree Session Compact Plugins LogFile MemDb RedoLog Chain ChainSpec Pipe Dio Mesh Trans AuthModel.

(** ** What the service relies on *)

(** [Chain::dio] for a session, and [session_mut]. *)
Class SessionTrans (B T : Type) `{!Trans B T} : Type := {
  tr_dio : AteSession → B → B;
  tr_session_mut : (AteSession → AteSession) → B → B;
}.

(** [Registry::open]; [None] when the chain cannot be opened. *)
Class Registry (R B : Type) : Type := {
  reg_open : ChainKey → R → option B;
  reg_put : ChainKey → B → R → R;
}.

Section chain.
Context {W L : Type} `{CryptoPrims} `{KemPrims} `{MetaSerializer} `{SnapFrames} `{!LogFile W L}.
Variable pipe : EventPipe (Node W L).
Variable order : gset PrimaryKey → list PrimaryKey.
Variable capacity : nat.
Variable random : nat → Z.
Variable clock : nat → nat → option Z.
Variable rnds : nat → nat → nat → bytes.

(** [Chain::dio]: it hears what is announced from now on. *)
Definition chain_dio (session : AteSession) (b : DioStore (W := W) (L := L)) : DioStore :=
  {| sto_node := sto_node b;
     sto_dio := {| dio_cache_load := ∅; dio_session := session; dio_keeper := dio_keeper (sto_dio b);
                   dio_log_format := Some (ca_default_format (nd_async (sto_node b)));
                   dio_record_type_name := dio_record_type_name (sto_dio b);
                   dio_cursor := length (nd_decache (sto_node b)) |};
     sto_drawn := sto_drawn b |}.

Definition dio_session_mut (f : AteSession → AteSession) (b : DioStore (W := W) (L := L)) : DioStore :=
  let d := sto_dio b in
  {| sto_node := sto_node b;
     sto_dio := {| dio_cache_load := dio_cache_load d; dio_session := f (dio_session d);
                   dio_keeper := dio_keeper d; dio_log_format := dio_log_format d;
                   dio_record_type_name := dio_record_type_name d; dio_cursor := dio_cursor d |};
     sto_drawn := sto_drawn b |}.

#[global] Instance DioSessions :
    @SessionTrans _ _ (DioTrans pipe order capacity random clock rnds) :=
  {| tr_dio := chain_dio; tr_session_mut := dio_session_mut |}.
End chain.

(** The crates [google_authenticator] and [qrcode]; a code that does not fit panics. *)
Class Authenticator : Type := {
  verify_code : string → string → Z → Z → bool;
  create_secret : bytes → Z → string;
  render_qr : string → option string;
}.

(** What a request draws: for keys and vectors, for the two kinds of pairs, and for the numbers
    of collections. *)
Record Draws : Type := {
  dw_bytes : nat → bytes;
  dw_kem : nat → bytes * bytes;
  dw_sign : nat → (bytes * bytes) * (bytes * bytes);
  dw_u64 : nat → Z;
}.

(** ** Failures *)

(** What is logged with the number of an internal error. *)
Inductive AuthInternal : Type :=
  | InChain
  | InLoad (e : DioLoadErrorKind)
  | InRow (e : RowErrorKind)
  | InCommit (e : DioCommitErrorKind)
  | InSecure (e : SecureError)
  | InTime (e : TimeErrorKind).

(** The failures of a handler: those of its own, the variant [InternalError] that each of them
    has, and a panic. *)
Inductive Fault (F : Type) : Type :=
  | Refused (e : F)
  | InternalError (e : AuthInternal)
  | Panicked.
Arguments Refused {F} e.
Arguments InternalError {F} e.
Arguments Panicked {F}.

Module LoginFailed.
Inductive t : Type :=
  | UserNotFound (email : string) | WrongPassword | AccountLocked (duration : Z)
  | Unverified (email : string) | NoMasterKey.
End LoginFailed.

Module SudoFailed.
Inductive t : Type :=
  | UserNotFound (email : string) | MissingToken | WrongCode | AccountLocked (duration : Z)
  | Unverified (email : string) | NoMasterKey.
End SudoFailed.

Module CreateUserFailed.
Inductive t : Type :=
  | AlreadyExists (why : string) | InvalidEmail | NoMoreRoom | NoMasterKey
  | TermsAndConditions (terms : string).
End CreateUserFailed.

Module ResetFailed.
Inductive t : Type :=
  | InvalidEmail (email : string) | InvalidRecoveryCode | InvalidAuthenticatorCode
  | RecoveryImpossible | NoMasterKey.
End ResetFailed.

Module QueryFailed.
Inductive t : Type := NotFound | Banned | Suspended.
End QueryFailed.

Module CreateGroupFailed.
Inductive t : Type :=
  | AlreadyExists (why : string) | NoMoreRoom | NoMasterKey | InvalidGroupName (why : string)
  | OperatorNotFound | OperatorBanned | AccountSuspended | ValidationError (why : string).
End CreateGroupFailed.

Module GatherFailed.
Inductive t : Type := GroupNotFound (group : string) | NoAccess | NoMasterKey.
End GatherFailed.

Module GroupUserAddFailed.
Inductive t : Type := InvalidPurpose | GroupNotFound | NoMasterKey | NoAccess | UnknownIdentity.
End GroupUserAddFailed.

Module GroupUserRemoveFailed.
Inductive t : Type := GroupNotFound | RoleNotFound | NothingToRemove | NoMasterKey | NoAccess.
End GroupUserRemoveFailed.

Module GroupDetailsFailed.
Inductive t : Type := GroupNotFound | NoMasterKey | NoAccess.
End GroupDetailsFailed.

Module GroupRemoveFailed.
Inductive t : Type := GroupNotFound | NoMasterKey | NoAccess.
End GroupRemoveFailed.

(** ** Requests and responses *)

Record LoginRequest : Type := {
  lq_email : string; lq_secret : EncryptKey; lq_verification_code : option string;
}.
Record LoginResponse : Type := {
  lr_user_key : PrimaryKey; lr_nominal_read : AteHash; lr_nominal_write : PublicSignKey;
  lr_sudo_read : AteHash; lr_sudo_write : PublicSignKey; lr_authority : AteSessionUser;
  lr_message_of_the_day : option string;
}.
Record SudoRequest : Type := { sq_session : AteSessionUser; sq_authenticator_code : string }.
Record SudoResponse : Type := { sr_authority : AteSessionSudo }.
Record CreateUserRequest : Type := {
  cq_auth : string; cq_email : string; cq_secret : EncryptKey; cq_accepted_terms : option string;
}.
Record CreateUserResponse : Type := {
  cr_key : PrimaryKey; cr_qr_code : string; cr_qr_secret : string; cr_recovery_code : string;
  cr_authority : AteSessionUser; cr_message_of_the_day : option string;
}.
Record ResetRequest : Type := {
  rq_auth : string; rq_email : string; rq_new_secret : EncryptKey; rq_recovery_key : EncryptKey;
  rq_sudo_code : string; rq_sudo_code_2 : string;
}.
Record ResetResponse : Type := {
  rr_key : PrimaryKey; rr_qr_code : string; rr_qr_secret : string; rr_authority : AteSessionUser;
  rr_message_of_the_day : option string;
}.
Record CreateGroupRequest : Type := { gq_group : string; gq_identity : string }.
Record CreateGroupResponse : Type := { gr_key : PrimaryKey; gr_session : AteSessionGroup }.
Record GatherRequest : Type := { ga_session : AteSessionInner; ga_group : string }.
Record GatherResponse : Type := {
  ge_group_name : string; ge_gid : Z; ge_group_key : PrimaryKey; ge_authority : AteSessionGroup;
}.
Record GroupUserAddRequest : Type := {
  ua_group : string; ua_session : AteSessionGroup; ua_who_key : PublicEncryptKey;
  ua_who_name : string; ua_purpose : AteRolePurpose;
}.
Record GroupUserRemoveRequest : Type := {
  ur_group : string; ur_session : AteSessionGroup; ur_who : AteHash; ur_purpose : AteRolePurpose;
}.
Record GroupDetailsRequest : Type := { dq_group : string; dq_session : option AteSessionGroup }.
Record GroupDetailsRoleResponse : Type := {
  dr_purpose : AteRolePurpose; dr_name : string; dr_read : AteHash; dr_private_read : PublicEncryptKey;
  dr_write : PublicSignKey; dr_hidden : bool; dr_members : list string;
}.
Record GroupDetailsResponse : Type := {
  ds_key : PrimaryKey; ds_name : string; ds_roles : list GroupDetailsRoleResponse; ds_gid : Z;
}.

(** ** The service *)

Record AuthService : Type := {
  sv_auth_url : string;
  sv_master_session : AteSessionUser;
  sv_web_key : EncryptKey;
  sv_edge_key : EncryptKey;
  sv_contract_key : EncryptKey;
  sv_time_keeper : TimeKeeper;
  sv_terms_and_conditions : option string;
}.

Module AuthService.
Section keys.
Context `{CryptoPrims} `{!Serde EncryptKey}.
Implicit Types svc : AuthService.

Definition master_key svc : option EncryptKey :=
  head (AteGroupRole.read_keys (su_user (sv_master_session svc))).

Definition master_write_key svc : option PrivateSignKey :=
  head (AteGroupRole.write_keys (su_user (sv_master_session svc))).

Definition super_key_of (master_key : EncryptKey) (entropy : bytes) : EncryptKey :=
  EncryptKey.from_seed_bytes
    (hash_val (AteHash.from_bytes_twice (EncryptKey.value master_key) entropy)) Bit192.

(** [None] is the panic of [unwrap]. *)
Definition compute_super_key (rnd : bytes) (master_key secret : EncryptKey)
    : option (EncryptKey * EncryptedSecureData) :=
  let super_key := super_key_of master_key (EncryptKey.value secret) in
  match EncryptedSecureData.new rnd master_key super_key with
  | Ok token => Some (super_key, token)
  | Err _ => None
  end.

Definition compute_super_key_from_hash (master_key : EncryptKey) (hash : AteHash) : EncryptKey :=
  super_key_of master_key (hash_val hash).

(** The failure [none] without a master key. *)
Definition compute_master_key {F} (none : F) svc (rnd : bytes) (secret : EncryptKey)
    : result (Fault F) (EncryptKey * EncryptedSecureData) :=
  match master_key svc with
  | None => Err (Refused none)
  | Some key =>
      match compute_super_key rnd key secret with Some a => Ok a | None => Err Panicked end
  end.

Definition compute_master_key_from_hash svc (hash : AteHash) : option EncryptKey :=
  (λ key, compute_super_key_from_hash key hash) <$> master_key svc.

Definition compute_web_key svc (rnd : bytes) (secret : EncryptKey) : option (EncryptKey * EncryptedSecureData) :=
  compute_super_key rnd (sv_web_key svc) secret.
Definition compute_web_key_from_hash svc (hash : AteHash) : EncryptKey :=
  compute_super_key_from_hash (sv_web_key svc) hash.
Definition compute_edge_key svc (rnd : bytes) (secret : EncryptKey) : option (EncryptKey * EncryptedSecureData) :=
  compute_super_key rnd (sv_edge_key svc) secret.
Definition compute_edge_key_from_hash svc (hash : AteHash) : EncryptKey :=
  compute_super_key_from_hash (sv_edge_key svc) hash.
Definition compute_contract_key svc (rnd : bytes) (secret : EncryptKey) : option (EncryptKey * EncryptedSecureData) :=
  compute_super_key rnd (sv_contract_key svc) secret.
Definition compute_contract_key_from_hash svc (hash : AteHash) : EncryptKey :=
  compute_super_key_from_hash (sv_contract_key svc) hash.
End keys.
End AuthService.

(** ** Working on a chain *)

Definition st_of {S E A} (r : result E A) : st S E A := st_mk (λ s, (r, s)).

Section work.
Context {R B T : Type} `{!Trans B T} `{!SessionTrans B T} `{!Registry R B} {F : Type}.

(** A chain that is opened, and a transaction on it for the session; what was not committed when
    the handler is done is dropped. *)
Definition with_dio {A} (key : ChainKey) (session : AteSessionUser) (scope : TransactionScope)
    (f : st (B * T) (Fault F) A) : st R (Fault F) A :=
  st_mk (λ r,
    match reg_open key r with
    | None => (Err (InternalError InChain), r)
    | Some b =>
        let '(res, (b, _)) := f (tr_dio (as_session (SessionUser session)) b, tr_begin scope) in
        (res, reg_put key b r)
    end).

Context {D : Type} `{!DataSerializer D}.

(** [bail!] on the errors of loading that are not matched. *)
Definition load_or (key : PrimaryKey) (on : DioLoadErrorKind → option F) : st (B * T) (Fault F) (DaoMut D) :=
  st_map_err (λ e, match on e with Some e => Refused e | None => InternalError (InLoad e) end)
    (tr_load D key).

Definition load_ro_or (key : PrimaryKey) (on : DioLoadErrorKind → option F)
    : st B (Fault F) (RowHeader * Row D) :=
  st_map_err (λ e, match on e with Some e => Refused e | None => InternalError (InLoad e) end)
    (tr_load_ro D key).

(** A guard that goes out of scope; it panics when the record cannot be saved. *)
Definition drop_guard (dao : DaoMut D) : st (B * T) (Fault F) unit :=
  st_map_err (λ _, Panicked) (tr_save false true dao).

(** [c] is run before a guard that was written through goes out of scope. *)
Definition with_guard {A} (dao : DaoMut D) (c : st (B * T) (Fault F) A) : st (B * T) (Fault F) A :=
  st_try c (λ r, _ ← drop_guard dao; st_of r).

(** [c] is run while the guard is held; an early return lets it go. *)
Definition or_drop {A} (dao : DaoMut D) (c : st (B * T) (Fault F) A) : st (B * T) (Fault F) A :=
  st_try c (λ r, match r with Ok a => mret a | Err e => _ ← drop_guard dao; st_fail e end).

(** [as_mut]. *)
Definition guard (dao : DaoMut D) : st (B * T) (Fault F) unit :=
  st_mk (λ s, (Ok (), tr_as_mut dao s)).

(** A change through a guard of its own. *)
Definition modify (f : D → D) (dao : DaoMut D) : st (B * T) (Fault F) (DaoMut D) :=
  st_map_err (λ _, Panicked) (tr_modify f dao).

(** [auth_mut]. *)
Definition set_read (read : ReadOption) (dao : DaoMut D) : st (B * T) (Fault F) (DaoMut D) :=
  st_map_err (λ _, Panicked)
    (tr_auth_set {| ma_read := read; ma_write := ma_write (rwh_auth (dao_header dao)) |} dao).
Definition set_write (write : WriteOption) (dao : DaoMut D) : st (B * T) (Fault F) (DaoMut D) :=
  st_map_err (λ _, Panicked)
    (tr_auth_set {| ma_read := ma_read (rwh_auth (dao_header dao)); ma_write := write |} dao).

Definition store_at (data : D) (key : PrimaryKey) : st (B * T) (Fault F) (DaoMut D) :=
  st_map_err (λ e, InternalError (InRow e)) (tr_store (Some key) data).

Definition child_load (parent_id : PrimaryKey) (c : DaoChild D) : st (B * T) (Fault F) (option (DaoMut D)) :=
  st_map_err (λ e, InternalError (InLoad e)) (DaoChild.load_mut parent_id c).

Definition child_store (parent_id : PrimaryKey) (data : D) (key : option PrimaryKey) (c : DaoChild D)
    : st (B * T) (Fault F) (DaoMut D) :=
  st_map_err (λ e, InternalError (InLoad e)) (DaoChild.store_with_key parent_id data key c).
End work.

Definition commit {B T F} `{!Trans B T} : st (B * T) (Fault F) unit :=
  st_map_err (λ e, InternalError (InCommit e)) tr_commit.

Definition exists_key {B T F} `{!Trans B T} (key : PrimaryKey) : st (B * T) (Fault F) bool :=
  st_mk (λ s, (Ok (tr_exists key s), s)).
