(* ===== verification/AuthUsers.v ===== *)
(** * Users of the authentication service

    wasmer-auth/src/work: login.rs, sudo.rs, create_user.rs and reset.rs. *)

From Stdlib Require Import Ascii.
From S2P Require Import Prelude LogApi Crypto Codec Secure Meta Time Event Index Signature Tree Session Compact Plugins LogFile MemDb RedoLog Chain ChainSpec Pipe Dio Mesh Trans AuthModel AuthService.

(** ** The address of a user *)

(** The characters of the regular expression. *)
Definition email_char (c : ascii) : bool :=
  let n := nat_of_ascii c in
  (97 <=? n)%nat && (n <=? 122)%nat || (48 <=? n)%nat && (n <=? 57)%nat
  || existsb (Ascii.eqb c) (String.list_ascii_of_string ".!#$%&'*+/=?^_`{|}~-").

Fixpoint all_chars (p : ascii → bool) (s : list ascii) : bool :=
  match s with [] => true | c :: s => p c && all_chars p s end.

(** One character or more of the set. *)
Definition some_chars (p : ascii → bool) (s : list ascii) : bool :=
  match s with [] => false | _ => all_chars p s end.

(** [y.z], where the dot is any character but the end of a line. *)
Definition domain_at (s : list ascii) (i : nat) : bool :=
  match drop i s with
  | c :: z => some_chars email_char (take i s) && negb (Ascii.eqb c "010") && some_chars email_char z
  | [] => false
  end.

Definition is_domain (s : list ascii) : bool := existsb (domain_at s) (seq 0 (length s)).

(** [x@y.z]; the sign is not in the set. *)
Fixpoint email_from (seen : bool) (s : list ascii) : bool :=
  match s with
  | [] => false
  | c :: s => if Ascii.eqb c "@" then seen && is_domain s
              else email_char c && email_from true s
  end.

Definition email_matches (email : string) : bool := email_from false (String.list_ascii_of_string email).

Definition BANNED_USERNAMES : list string := ["nobody"; "admin"; "support"; "help"; "root"].

Section users.
Context {R B T : Type} `{!Trans B T} `{!SessionTrans B T} `{!Registry R B}.
Context `{CryptoPrims} `{KemPrims} `{!Serde EncryptKey} `{!Authenticator}.
Context `{!DataSerializer User} `{!DataSerializer Sudo} `{!DataSerializer UserRecovery}
  `{!DataSerializer AcceptedTerms} `{!DataSerializer Advert}.
Variable svc : AuthService.
(** The time of the system in nanoseconds. *)
Variable now : Z.
Variable draws : Draws.

Abbreviation rnd i := (dw_bytes draws i).

Definition data {D} (dao : DaoMut D) : D := row_data (dao_row dao).

Definition user_chain (email : string) : ChainKey := chain_key_4hex email (Some "redo").

Definition with_read_key (key : EncryptKey) (s : AteSessionUser) : AteSessionUser :=
  AteSessionUser.add_user_read_key key s.

Definition with_token (token : option EncryptedSecureData) (s : AteSessionUser) : AteSessionUser :=
  {| su_user := su_user s; su_token := token; su_identity := su_identity s;
     su_broker_read := su_broker_read s; su_broker_write := su_broker_write s |}.

(** ** Logging in *)

(** What the status of the account lets pass. *)
Definition check_login (request : LoginRequest) (user : DaoMut User)
    : st (B * T) (Fault LoginFailed.t) (DaoMut User) :=
  match us_status (data user) with
  | AccountLocked until =>
      if decide (now < until) then st_fail (Refused (LoginFailed.AccountLocked (until - now)))
      else mret user
  | Unverified =>
      match lq_verification_code request with
      | Some a =>
          if decide (Some (to_lowercase a) = to_lowercase <$> us_verification_code (data user))
          then modify (λ u, User.with_status u Nominal None) user
          else st_fail (Refused LoginFailed.WrongPassword)
      | None => st_fail (Refused (LoginFailed.Unverified (lq_email request)))
      end
  | Nominal => mret user
  end.

Definition login_response (user_key : PrimaryKey) (token : EncryptedSecureData) (user : User) : LoginResponse :=
  {| lr_user_key := user_key; lr_nominal_read := us_nominal_read user;
     lr_nominal_write := us_nominal_write user; lr_sudo_read := us_sudo_read user;
     lr_sudo_write := us_sudo_write user;
     lr_authority := with_token (Some token) (compute_user_auth user);
     lr_message_of_the_day := None |}.

Definition process_login (request : LoginRequest) : st R (Fault LoginFailed.t) LoginResponse :=
  '(super_key, token) ← st_of (AuthService.compute_master_key LoginFailed.NoMasterKey svc (rnd 0)
                                 (lq_secret request));
  let super_session := with_read_key super_key (sv_master_session svc) in
  let user_key := key_of_text (lq_email request) in
  with_dio (user_chain (lq_email request)) super_session ScopeFull
    (user ← load_or (D := User) user_key (λ e,
       match e with
       | NotFound _ => Some (LoginFailed.UserNotFound (lq_email request))
       | DioTransformation (MissingReadKey _) => Some LoginFailed.WrongPassword
       | _ => None
       end);
     user ← check_login request user;
     _ ← commit;
     mret (login_response user_key token (data user))).

(** ** Sudo *)

(** Every fifth failure; in nanoseconds. *)
Definition ban_time (failed_attempts : Z) : Z :=
  (if decide (failed_attempts ≤ 5) then 30
   else if decide (failed_attempts ≤ 10) then 5 * 60
   else if decide (failed_attempts ≤ 15) then 60 * 60
   else 24 * 60 * 60) * 1000000000.

Definition failed_once (sudo : Sudo) : Sudo :=
  Sudo.with_failed_attempts sudo (as_u32 (sud_failed_attempts sudo + 1)).

(** The user as the guard has it after a failure. *)
Definition ban (failed_attempts : Z) (user : User) : User :=
  if decide (failed_attempts mod 5 = 0)
  then User.with_status user (AccountLocked (now + ban_time failed_attempts)) (us_verification_code user)
  else user.

(** A wrong code: what was changed is committed while the guard of the user is still held. *)
Definition wrong_code (user : DaoMut User) (sudo : DaoMut Sudo) {A} : st (B * T) (Fault SudoFailed.t) A :=
  sudo ← modify failed_once sudo;
  with_guard (DaoMut.with_data user (ban (sud_failed_attempts (data sudo)) (data user)))
    (_ ← commit; st_fail (Refused SudoFailed.WrongCode)).

(** A right code; the guard of the user goes out of scope at the end of the block. *)
Definition right_code (request : SudoRequest) (user : DaoMut User) (sudo : DaoMut Sudo)
    : st (B * T) (Fault SudoFailed.t) AteSessionSudo :=
  sudo ← (if decide (0 < sud_failed_attempts (data sudo))
          then modify (λ s, Sudo.with_failed_attempts s 0) sudo else mret sudo);
  with_guard (DaoMut.with_data user
                (User.with_status (data user) Nominal (us_verification_code (data user))))
    (mret (compute_sudo_auth (data sudo) (sq_session request))).

(** What may be done for a user that was loaded. *)
Definition check_sudo (request : SudoRequest) (user : DaoMut User)
    : st (B * T) (Fault SudoFailed.t) AteSessionSudo :=
  let identity := su_identity (sq_session request) in
  _ ← guard user;
  sudo ← or_drop user (st_map_err (λ e, match e with
                                           | NotFound _ => Refused (SudoFailed.UserNotFound identity)
                                           | e => InternalError (InLoad e)
                                           end)
           (DaoChild.load_mut (DaoMut.key user) (us_sudo (data user))));
  match sudo with
  | None => with_guard user (st_fail (Refused (SudoFailed.UserNotFound identity)))
  | Some sudo =>
      match TimeKeeper.current_timestamp_as_duration (sv_time_keeper svc) (Some now) with
      | Err e => with_guard user (st_fail (InternalError (InTime e)))
      | Ok time =>
          if verify_code (sud_secret (data sudo)) (sq_authenticator_code request) 3
               ((time `div` 1000000000) `div` 30)
          then right_code request user sudo
          else wrong_code user sudo
      end
  end.

Definition process_sudo (request : SudoRequest) : st R (Fault SudoFailed.t) SudoResponse :=
  let identity := su_identity (sq_session request) in
  match su_token (sq_session request), AuthService.master_key svc with
  | None, _ => st_fail (Refused SudoFailed.MissingToken)
  | _, None => st_fail (Refused SudoFailed.NoMasterKey)
  | Some token, Some master_key =>
      super_key ← st_of (map_err (λ e, InternalError (InSecure e))
                           (EncryptedSecureData.unwrap token master_key));
      '(super_super_key, super_token) ← st_of (AuthService.compute_master_key SudoFailed.NoMasterKey
                                                 svc (rnd 0) super_key);
      let super_session := with_token (Some super_token)
        (with_read_key super_super_key (with_read_key super_key (sv_master_session svc))) in
      with_dio (user_chain identity) super_session ScopeFull
        (user ← load_or (D := User) (F := SudoFailed.t) (key_of_text identity) (λ _, None);
         _ ← match us_status (data user) with
             | AccountLocked until =>
                 if decide (now < until) then st_fail (Refused (SudoFailed.AccountLocked (until - now)))
                 else mret ()
             | Unverified => st_fail (Refused (SudoFailed.Unverified identity))
             | Nominal => mret ()
             end;
         session ← check_sudo request user;
         _ ← commit;
         mret {| sr_authority := session |})
  end.

(** ** Making a user *)

(** [AteHash::generate().to_hex_string().to_uppercase()]. *)
Definition random_code (rnd : bytes) : string := to_uppercase (to_hex_string {| hash_val := fit 16 rnd |}).

Definition recovery_code_of (code : string) : string :=
  slice 0 4 code +:+ "-" +:+ slice 4 8 code +:+ "-" +:+ slice 8 12 code +:+ "-" +:+
  slice 12 16 code +:+ "-" +:+ slice 16 20 code.

Definition verification_code_of (code : string) : string :=
  slice 0 4 code +:+ "-" +:+ slice 4 8 code +:+ "-" +:+ slice 8 12 code.

(** The first of fifty numbers that is not taken; [Panicked] when there is no first. *)
Fixpoint find_uid (estimate : Z) (ns : list Z) : st (B * T) (Fault CreateUserFailed.t) (option Z) :=
  match ns with
  | [] => mret None
  | n :: ns =>
      let uid_test := (if decide (estimate < 1000) then estimate + 1000 else estimate) + n in
      taken ← exists_key (PrimaryKey.new uid_test);
      if (taken : bool) then find_uid estimate ns else mret (Some uid_test)
  end.

Definition free_uid (email : string) : st (B * T) (Fault CreateUserFailed.t) Z :=
  match estimate_user_name_as_uid email with
  | None => st_fail Panicked
  | Some estimate =>
      uid ← find_uid estimate (seqZ 0 50);
      match (uid : option Z) with Some uid => mret uid | None => st_fail (Refused CreateUserFailed.NoMoreRoom) end
  end.

(** Three keys of a new authorization, from the draws [i]. *)
Definition new_authorization (key_size : KeySize) (i : nat) : Authorization :=
  {| au_read := EncryptKey.generate (rnd i) key_size;
     au_private_read := PrivateEncryptKey.generate (dw_kem draws i) key_size;
     au_write := PrivateSignKey.generate (fst (dw_sign draws i)) (snd (dw_sign draws i)) key_size |}.

(** The secret of the second factor, its address and the picture of it. *)
Record SecondFactor : Type := { sf_secret : string; sf_google_auth : string; sf_qr_code : string }.

Definition new_second_factor {F} (auth email : string) (i : nat) : result (Fault F) SecondFactor :=
  let secret := create_secret (rnd i) 32 in
  let google_auth_secret := "otpauth://totp/" +:+ auth +:+ ":" +:+ email +:+ "?secret=" +:+ secret in
  match render_qr google_auth_secret with
  | Some qr_code =>
      Ok {| sf_secret := secret; sf_google_auth := google_auth_secret; sf_qr_code := qr_code |}
  | None => Err Panicked
  end.

Definition contract_key_for (identity : string) : EncryptKey :=
  AuthService.compute_contract_key_from_hash svc (hash_of_text ("contract-read:" +:+ identity)).

(** The record of a user that is not there yet. *)
Definition new_user (request : CreateUserRequest) (initial_status : UserStatus) (uid : Z)
    (access sudo : Authorization) : User :=
  let key_size := EncryptKey.size (cq_secret request) in
  let broker := new_authorization key_size 7 in
  {| us_email := cq_email request; us_person := DaoChild.new (dw_u64 draws 0);
     us_accepted_terms := DaoChild.new (dw_u64 draws 4);
     us_verification_code := if decide (initial_status = Unverified)
                             then Some (verification_code_of (random_code (rnd 8))) else None;
     us_uid := uid; us_role := Human; us_status := initial_status; us_last_login := None;
     us_access := [access]; us_foreign := DaoForeign.new; us_sudo := DaoChild.new (dw_u64 draws 1);
     us_advert := DaoChild.new (dw_u64 draws 2); us_recovery := DaoChild.new (dw_u64 draws 3);
     us_nominal_read := EncryptKey.hash (au_read access);
     us_nominal_public_read := PrivateEncryptKey.as_public_key (au_private_read access);
     us_nominal_write := PrivateSignKey.as_public_key (au_write access);
     us_sudo_read := EncryptKey.hash (au_read sudo);
     us_sudo_public_read := PrivateEncryptKey.as_public_key (au_private_read sudo);
     us_sudo_write := PrivateSignKey.as_public_key (au_write sudo);
     us_broker_read := au_private_read broker; us_broker_write := au_write broker |}.

(** The record that is found and never logged in, or a new one. *)
Definition find_or_make_user (request : CreateUserRequest) (initial_status : UserStatus) (uid : Z)
    (access sudo : Authorization) : st (B * T) (Fault CreateUserFailed.t) (DaoMut User) :=
  let user_key := key_of_text (cq_email request) in
  st_try (tr_load User user_key) (λ r,
    match r with
    | Ok user =>
        match us_last_login (data user) with
        | None => mret user
        | Some _ => st_fail (Refused (CreateUserFailed.AlreadyExists
                                        "your account already exists and is in use"))
        end
    | Err _ =>
        there ← exists_key user_key;
        if (there : bool) then st_fail (Refused (CreateUserFailed.AlreadyExists
                                          "an account already exists for this username"))
        else store_at (new_user request initial_status uid access sudo) user_key
    end).

Definition recovery_key_of (email : string) : PrimaryKey := key_of_text ("recovery:" +:+ email).
Definition advert_key_of (identity : string) : PrimaryKey := key_of_text ("advert:" +:+ identity).

(** The record under the user, all its fields written, or made when there is none. *)
Definition put_child {D F} `{!DataSerializer D} (user : DaoMut User) (c : DaoChild D) (key : option PrimaryKey)
    (x : D) : st (B * T) (Fault F) (DaoMut D) :=
  _ ← guard user;
  with_guard user
    (there ← child_load (DaoMut.key user) c;
     match there with
     | Some dao => modify (λ _, x) dao
     | None => child_store (DaoMut.key user) x key c
     end).

Definition put_recovery (request : CreateUserRequest) (factor : SecondFactor)
    (super_recovery_key : EncryptKey) (master_write : PrivateSignKey) (user : DaoMut User)
    : st (B * T) (Fault CreateUserFailed.t) unit :=
  recovery ← put_child user (us_recovery (data user)) (Some (recovery_key_of (cq_email request)))
    {| rec_email := cq_email request; rec_google_auth := sf_google_auth factor;
       rec_sudo_secret := sf_secret factor; rec_qr_code := sf_qr_code factor;
       rec_login_secret := cq_secret request |};
  recovery ← set_read (ReadOption.from_key (rnd 11) (rnd 12) super_recovery_key) recovery;
  _ ← set_write (WriteSpecific (PrivateSignKey.hash master_write)) recovery;
  mret ().

Definition put_sudo (request : CreateUserRequest) (factor : SecondFactor) (uid : Z)
    (access : Authorization) (super_super_key : EncryptKey) (user : DaoMut User)
    : st (B * T) (Fault CreateUserFailed.t) unit :=
  sudo ← put_child user (us_sudo (data user)) None
    {| sud_email := cq_email request; sud_uid := uid; sud_google_auth := sf_google_auth factor;
       sud_secret := sf_secret factor; sud_qr_code := sf_qr_code factor; sud_failed_attempts := 0;
       sud_contract_read_key := contract_key_for (cq_email request); sud_access := [access];
       sud_groups := [] |};
  sudo ← set_read (ReadOption.from_key (rnd 13) (rnd 14) super_super_key) sudo;
  _ ← set_write WriteInherit sudo;
  mret ().

(** Terms that were accepted before keep their authorization. *)
Definition put_terms (request : CreateUserRequest) (master_write : PrivateSignKey) (user : DaoMut User)
    : st (B * T) (Fault CreateUserFailed.t) unit :=
  match cq_accepted_terms request with
  | None => mret ()
  | Some accepted_terms =>
      let x := {| at_terms_and_conditions := accepted_terms |} in
      _ ← guard user;
      with_guard user
        (there ← child_load (DaoMut.key user) (us_accepted_terms (data user));
         match there with
         | Some terms => _ ← modify (λ _, x) terms; mret ()
         | None =>
             terms ← child_store (DaoMut.key user) x None (us_accepted_terms (data user));
             terms ← set_read (ReadEveryone None) terms;
             _ ← set_write (WriteSpecific (PrivateSignKey.hash master_write)) terms;
             mret ()
         end)
  end.

(** An advert that cannot be read is made anew. *)
Definition put_advert (request : CreateUserRequest) (uid : Z) (access sudo : Authorization)
    (user : DaoMut User) : st (B * T) (Fault CreateUserFailed.t) unit :=
  let advert_key := advert_key_of (cq_email request) in
  let x :=
    {| av_identity := cq_email request; av_id := UID uid;
       av_nominal_encrypt := PrivateEncryptKey.as_public_key (au_private_read access);
       av_nominal_auth := PrivateSignKey.as_public_key (au_write access);
       av_sudo_encrypt := PrivateEncryptKey.as_public_key (au_private_read sudo);
       av_sudo_auth := PrivateSignKey.as_public_key (au_write sudo);
       av_broker_encrypt := PrivateEncryptKey.as_public_key (us_broker_read (data user));
       av_broker_auth := PrivateSignKey.as_public_key (us_broker_write (data user)) |} in
  advert ← st_try (tr_load Advert advert_key) (λ r,
    match r with
    | Ok advert => modify (λ _, x) advert
    | Err _ =>
        _ ← guard user;
        with_guard user (child_store (DaoMut.key user) x (Some advert_key) (us_advert (data user)))
    end);
  advert ← set_read (ReadEveryone None) advert;
  _ ← set_write WriteInherit advert;
  mret ().

(** What is done on the chain of the user. *)
Definition create_user_records (request : CreateUserRequest) (initial_status : UserStatus)
    (super_key super_super_key super_recovery_key : EncryptKey) (token : EncryptedSecureData)
    (master_write : PrivateSignKey) (recovery_code : string)
    : st (B * T) (Fault CreateUserFailed.t) (CreateUserResponse * DaoMut User) :=
  let key_size := EncryptKey.size (cq_secret request) in
  let access := new_authorization key_size 4 in
  let sudo_access := new_authorization key_size 6 in
  uid ← free_uid (cq_email request);
  _ ← match sv_terms_and_conditions svc with
      | Some terms => if decide (cq_accepted_terms request = sv_terms_and_conditions svc) then mret ()
                      else st_fail (Refused (CreateUserFailed.TermsAndConditions terms))
      | None => mret ()
      end;
  factor ← st_of (new_second_factor (cq_auth request) (cq_email request) 5);
  user ← find_or_make_user request initial_status uid access sudo_access;
  user ← set_read (ReadOption.from_key (rnd 9) (rnd 10) super_key) user;
  user ← set_write (WriteAny [PrivateSignKey.hash master_write;
                              PrivateSignKey.hash (au_write sudo_access)]) user;
  _ ← put_recovery request factor super_recovery_key master_write user;
  _ ← put_sudo request factor uid sudo_access super_super_key user;
  _ ← put_terms request master_write user;
  _ ← put_advert request uid access sudo_access user;
  _ ← commit;
  mret ({| cr_key := DaoMut.key user; cr_qr_code := sf_qr_code factor; cr_qr_secret := sf_secret factor;
           cr_recovery_code := recovery_code;
           cr_authority := with_token (Some token) (compute_user_auth (data user));
           cr_message_of_the_day := None |}, user).

Definition process_create_user_internal (request : CreateUserRequest) (initial_status : UserStatus)
    : st R (Fault CreateUserFailed.t) (CreateUserResponse * DaoMut User) :=
  if negb (email_matches (cq_email request)) then st_fail (Refused CreateUserFailed.InvalidEmail)
  else match AuthService.master_write_key svc with
  | None => st_fail (Refused CreateUserFailed.NoMasterKey)
  | Some master_write =>
      if decide (cq_email request ∈ BANNED_USERNAMES) then st_fail (Refused CreateUserFailed.InvalidEmail)
      else
      let master_key := AuthService.compute_master_key CreateUserFailed.NoMasterKey svc in
      '(super_key, token) ← st_of (master_key (rnd 0) (cq_secret request));
      '(super_super_key, super_token) ← st_of (master_key (rnd 1) super_key);
      let recovery_code := recovery_code_of (random_code (rnd 2)) in
      let recovery_prefix := "recover-login:" +:+ cq_email request +:+ ":" in
      let recovery_key := password_to_read_key recovery_prefix recovery_code 15 Bit192 in
      '(super_recovery_key, _) ← st_of (master_key (rnd 3) recovery_key);
      let super_session := with_read_key super_recovery_key (with_token (Some super_token)
        (with_read_key super_super_key (with_read_key super_key (sv_master_session svc)))) in
      with_dio (user_chain (cq_email request)) super_session ScopeFull
        (create_user_records request initial_status super_key super_super_key super_recovery_key
           token master_write recovery_code)
  end.

Definition process_create_user (request : CreateUserRequest)
    : st R (Fault CreateUserFailed.t) CreateUserResponse :=
  '(response, _) ← process_create_user_internal request Nominal;
  mret response.

(** ** Resetting an account *)

Definition add_session_key (key : EncryptKey) (s : AteSession) : AteSession :=
  {| ss_identity := ss_identity s; ss_write_keys := ss_write_keys s;
     ss_read_keys := ss_read_keys s ++ [key]; ss_private_read_keys := ss_private_read_keys s |}.

Definition session_mut {F} (f : AteSession → AteSession) : st (B * T) (Fault F) unit :=
  st_mk (λ s, (Ok (), (tr_session_mut f (fst s), snd s))).

(** Two codes of the second factor that are not the same. *)
Definition codes_match (request : ResetRequest) (secret : string) (time : Z) : bool :=
  negb (bool_decide (rq_sudo_code request = rq_sudo_code_2 request))
  && verify_code secret (rq_sudo_code request) 4 time
  && verify_code secret (rq_sudo_code_2 request) 4 time.

(** The keys of the secret the user had go to the session. *)
Definition regain_keys (login_secret : EncryptKey) : st (B * T) (Fault ResetFailed.t) unit :=
  let master_key := AuthService.compute_master_key ResetFailed.NoMasterKey svc in
  '(super_key, _) ← st_of (master_key (rnd 3) login_secret);
  '(super_super_key, _) ← st_of (master_key (rnd 4) super_key);
  session_mut (λ s, add_session_key super_super_key (add_session_key super_key s)).

(** [user.as_mut().sudo.load_mut()]. *)
Definition load_sudo (email : string) (user : DaoMut User) : st (B * T) (Fault ResetFailed.t) (DaoMut Sudo) :=
  _ ← guard user;
  with_guard user
    (sudo ← st_map_err (λ e, match e with
                             | DioTransformation (MissingReadKey _) => Refused ResetFailed.RecoveryImpossible
                             | e => InternalError (InLoad e)
                             end) (DaoChild.load_mut (DaoMut.key user) (us_sudo (data user)));
     match sudo with
     | Some sudo => mret sudo
     | None => st_fail (Refused (ResetFailed.InvalidEmail email))
     end).

(** What is done on the chain of the user. *)
Definition reset_records (request : ResetRequest) (super_key super_super_key super_recovery_key : EncryptKey)
    (token : EncryptedSecureData) : st (B * T) (Fault ResetFailed.t) (ResetResponse * DaoMut User) :=
  let email := rq_email request in
  there ← exists_key (key_of_text email);
  if negb there then st_fail (Refused (ResetFailed.InvalidEmail email)) else
  recovery ← load_or (D := UserRecovery) (recovery_key_of email) (λ e,
    match e with
    | NotFound _ | DioTransformation (MissingReadKey _) => Some ResetFailed.InvalidRecoveryCode
    | _ => None
    end);
  time ← st_of (map_err (λ e, InternalError (InTime e))
                  (TimeKeeper.current_timestamp_as_duration (sv_time_keeper svc) (Some now)));
  if negb (codes_match request (rec_sudo_secret (data recovery)) ((time `div` 1000000000) `div` 30))
  then st_fail (Refused ResetFailed.InvalidAuthenticatorCode) else
  _ ← regain_keys (rec_login_secret (data recovery));
  user ← load_or (D := User) (key_of_text email) (λ e,
    match e with
    | NotFound _ => Some (ResetFailed.InvalidEmail email)
    | DioTransformation (MissingReadKey _) => Some ResetFailed.RecoveryImpossible
    | _ => None
    end);
  user ← set_read (ReadOption.from_key (rnd 6) (rnd 7) super_key) user;
  sudo ← load_sudo email user;
  factor ← st_of (new_second_factor (rq_auth request) email 5);
  sudo ← set_read (ReadOption.from_key (rnd 8) (rnd 9) super_super_key) sudo;
  _ ← modify (λ s, Sudo.with_authenticator s (sf_google_auth factor) (sf_secret factor) (sf_qr_code factor))
        sudo;
  recovery ← set_read (ReadOption.from_key (rnd 10) (rnd 11) super_recovery_key) recovery;
  _ ← modify (λ _, {| rec_email := email; rec_google_auth := sf_google_auth factor;
                      rec_sudo_secret := sf_secret factor; rec_qr_code := sf_qr_code factor;
                      rec_login_secret := rq_new_secret request |}) recovery;
  _ ← commit;
  mret ({| rr_key := DaoMut.key user; rr_qr_code := sf_qr_code factor; rr_qr_secret := sf_secret factor;
           rr_authority := with_token (Some token) (compute_user_auth (data user));
           rr_message_of_the_day := None |}, user).

Definition process_reset_internal (request : ResetRequest)
    : st R (Fault ResetFailed.t) (ResetResponse * DaoMut User) :=
  let master_key := AuthService.compute_master_key ResetFailed.NoMasterKey svc in
  '(super_key, token) ← st_of (master_key (rnd 0) (rq_new_secret request));
  '(super_super_key, super_token) ← st_of (master_key (rnd 1) super_key);
  '(super_recovery_key, _) ← st_of (master_key (rnd 2) (rq_recovery_key request));
  let super_session := with_read_key super_recovery_key (with_token (Some super_token)
    (with_read_key super_super_key (with_read_key super_key (sv_master_session svc)))) in
  with_dio (user_chain (rq_email request)) super_session ScopeFull
    (reset_records request super_key super_super_key super_recovery_key token).

Definition process_reset (request : ResetRequest) : st R (Fault ResetFailed.t) ResetResponse :=
  '(response, _) ← process_reset_internal request;
  mret response.
End users.
