(* ===== verification/AuthUsersSpec.v ===== *)
(** * What the service does for users

    [login_by_status]: what a login answers for every status of the account, and what it leaves on
    the chain.  [wrong_codes_never_lock]: wrong codes of the second factor are counted, and the ban
    that is meant for every fifth of them never reaches the chain. *)

From S2P Require Import Prelude LogApi Crypto Codec Secure Meta Time Event Index Signature Tree Session Compact Plugins LogFile MemDb RedoLog Chain ChainSpec Pipe Dio Mesh Trans TransSpec AuthModel AuthService AuthUsers.

(** A chain that is put back is the one that is opened again. *)
Class RegistrySpec (R B : Type) `{Registry R B} : Prop :=
  reg_open_put key (b : B) (r : R) : reg_open key (reg_put key b r) = Some b.

Lemma st_of_Ok {S E A C} (a : A) (f : A → st S E C) (s : S) : (st_of (Ok a) ≫= f) s = f a s.
Proof. done. Qed.

(** ** Logging in *)

(** The user after a login, or why it is refused. *)
Definition login_outcome (now : Z) (request : LoginRequest) (u : User) : result LoginFailed.t User :=
  match us_status u with
  | AccountLocked until =>
      if decide (now < until) then Err (LoginFailed.AccountLocked (until - now)) else Ok u
  | Unverified =>
      match lq_verification_code request with
      | Some a =>
          if decide (Some (to_lowercase a) = to_lowercase <$> us_verification_code u)
          then Ok (User.with_status u Nominal None) else Err LoginFailed.WrongPassword
      | None => Err (LoginFailed.Unverified (lq_email request))
      end
  | Nominal => Ok u
  end.

Section users.
Context {R B T : Type} `{HTr : Trans B T} `{!SessionTrans B T} `{!Registry R B} {HTS : TreeSpec B T}.
Context `{CryptoPrims} `{KemPrims} `{!Serde EncryptKey}.
Context `{HU : TotalData User}.
Implicit Types (s : B * T) (k : PrimaryKey).

Lemma dao_data {D} k (x : D) dao : dao_of k x dao → data dao = x.
Proof. by intros (_ & _ & _ & <-). Qed.

Lemma modify_ok {D F} `{HTD : TotalData D} s k (x : D) f dao : tt_ready s → dao_of k x dao → tt_placed s dao →
  tt_sees D s k x →
  ∃ dao' s', modify (F := F) f dao s = (Ok dao', s') ∧ dao_of k (f x) dao' ∧ tt_placed s' dao' ∧ tt_ready s'
    ∧ tt_written D s s' k (f x).
Proof.
  intros Hr Hd Hp Hs. destruct (tt_modify s k x f dao Hr Hd Hp Hs) as (dao' & s' & E & Hrest).
  exists dao', s'. split; [|done]. unfold modify. by rewrite (st_map_err_run _ _ _ _ _ E).
Qed.

Lemma chain_commit_ok {F} s : tt_ready s →
  ∃ s', commit (F := F) s = (Ok (), s') ∧ tt_ready s' ∧ tt_same s s' ∧ tt_durable s'.
Proof.
  intros Hr. destruct (tt_commit s Hr) as (s' & E & Hrest). exists s'. split; [|done].
  unfold commit. by rewrite (st_map_err_run _ _ _ _ _ E).
Qed.

Lemma load_or_ok {D F} `{DataSerializer D} s k (x : D) (on : DioLoadErrorKind → option F) : tt_ready s → tt_sees D s k x →
  ∃ dao s', load_or k on s = (Ok dao, s') ∧ dao_of k x dao ∧ tt_placed s' dao ∧ tt_ready s' ∧ tt_same s s'
    ∧ (tt_durable s → tt_durable s').
Proof.
  intros Hr Hs. destruct (tt_load D s k x Hr Hs) as (dao & s' & E & Hd & Hp & Hr' & Hsame & Hdu).
  exists dao, s'. split; [unfold load_or; by rewrite (st_map_err_run _ _ _ _ _ E)|]. split; [done|].
  split; [by apply (tt_placed_same s); [apply Hsame|]|done].
Qed.

Lemma check_login_spec now request s k u dao : tt_ready s → dao_of k u dao → tt_placed s dao → tt_sees User s k u →
  match login_outcome now request u with
  | Ok u' => ∃ dao' s', check_login now request dao s = (Ok dao', s') ∧ dao_of k u' dao' ∧ tt_ready s'
               ∧ tt_written User s s' k u'
  | Err e => check_login now request dao s = (Err (Refused e), s)
  end.
Proof.
  intros Hr Hd Hp Hs. unfold check_login, login_outcome. rewrite (dao_data _ _ _ Hd).
  assert (tt_written User s s k u) as Hw by (apply tt_written_same; [apply tt_same_refl|done]).
  destruct (us_status u) as [| |until].
  - by exists dao, s.
  - destruct (lq_verification_code request) as [a|]; [|done]. case_decide; [|done].
    destruct (modify_ok (F := LoginFailed.t) s k u (λ u, User.with_status u Nominal None) dao Hr Hd Hp Hs)
      as (dao' & s' & E & Hd' & _ & Hr' & Hw'). by exists dao', s'.
  - case_decide; [done|]. by exists dao, s.
Qed.

(** What a transaction sees that is begun later. *)
Lemma durable_begun s scope : tt_durable s →
  tt_durable (fst s, tr_begin scope) ∧ tt_same s (fst s, tr_begin scope).
Proof. intros Hd. by destruct (tt_begin s scope Hd) as (_ & ? & ?). Qed.


(** ** Wrong codes *)

Context `{HS : TotalData Sudo} `{!Authenticator} {HDrop : DropSpec B T}.

(** The account [k] is the user [u], and its second factor is the record [ks], which is [sudo]. *)
Record account s k (u : User) ks (sudo : Sudo) : Prop := {
  acc_user : tt_sees User s k u;
  acc_sudo : tt_sees Sudo s ks sudo;
  acc_child k' : tt_child s (collection k (dc_vec_id (us_sudo u))) k' ↔ k' = ks;
  acc_distinct : ks ≠ k;
}.

Lemma account_same s s' k u ks sudo : tt_same s s' → account s k u ks sudo → account s' k u ks sudo.
Proof.
  intros [Hs Hc] [Hu Hsu Hch Hne]. split; [by apply Hs|by apply Hs| |done].
  intros k'. by rewrite <- Hc.
Qed.

Lemma account_user s s' k u ks sudo : tt_written User s s' k u → account s k u ks sudo → account s' k u ks sudo.
Proof.
  intros (Hu' & Ho & Hc) [Hu Hsu Hch Hne]. split; [done|by apply Ho| |done].
  intros k'. by rewrite <- Hc.
Qed.

Lemma account_sudo s s' k u ks sudo sudo' : tt_written Sudo s s' ks sudo' → account s k u ks sudo →
  account s' k u ks sudo'.
Proof.
  intros (Hu' & Ho & Hc) [Hu Hsu Hch Hne]. split; [by apply Ho|done| |done].
  intros k'. by rewrite <- Hc.
Qed.

(** The second factor is found under the user. *)
Lemma load_sudo_ok s k u ks sudo : tt_ready s → account s k u ks sudo →
  ∃ dao s', DaoChild.load_mut k (us_sudo u) s = (Ok (Some dao), s') ∧ dao_of ks sudo dao ∧ tt_placed s' dao
    ∧ tt_ready s' ∧ tt_same s s'.
Proof.
  intros Hr [Hu Hsu Hch Hne].
  destruct (tt_children Sudo s k (dc_vec_id (us_sudo u)) false false Hr) as (daos & s' & E & Hr' & Hsame & Hin & Hd & _).
  { intros k' ->%Hch. by exists sudo. }
  assert (∃ dao, head (reverse daos) = Some dao) as [dao Hh].
  { assert (ks ∈ map DaoMut.key daos) as Hk by (apply Hin; by apply Hch).
    destruct (head (reverse daos)) as [dao|] eqn:Eh; [by exists dao|].
    apply head_None in Eh. assert (daos = []) as -> by (rewrite <- (reverse_involutive daos), Eh; done).
    by apply elem_of_nil in Hk. }
  assert (dao ∈ daos) as Hdao by (apply elem_of_reverse; by apply head_Some_elem_of).
  destruct (Hd dao Hdao) as (Hof & Hp & Hsees).
  assert (DaoMut.key dao = ks) as Hk.
  { apply Hch, Hin. apply list_elem_of_In, in_map, list_elem_of_In. exact Hdao. }
  rewrite Hk in Hof, Hsees. rewrite (tt_sees_one _ _ _ _ _ Hsees Hsu) in Hof.
  exists dao, s'. unfold DaoChild.load_mut, DaoChild.iter_mut. unfold mbind, st_bind. rewrite E. cbn [mret st_ret].
  rewrite Hh. split; [done|]. split; [done|]. split; [by apply (tt_placed_same s); [apply Hsame|]|done].
Qed.

(** The ban is put into the transaction after it was committed. *)
Lemma wrong_code_ok {A} now s k u ks sudo user sdao : tt_ready s → account s k u ks sudo →
  dao_of k u user → tt_placed s user → dao_of ks sudo sdao → tt_placed s sdao →
  ∃ s', wrong_code (A := A) now user sdao s = (Err (Refused SudoFailed.WrongCode), s')
    ∧ tt_durable (fst s', tr_begin ScopeFull)
    ∧ account (fst s', tr_begin ScopeFull) k u ks (failed_once sudo).
Proof.
  intros Hr Hacc Hd Hp Hds Hps.
  destruct (modify_ok (F := SudoFailed.t) s ks sudo failed_once sdao Hr Hds Hps (acc_sudo _ _ _ _ _ Hacc))
    as (sdao' & s1 & E1 & Hds1 & _ & Hr1 & Hw1).
  apply (account_sudo _ _ _ _ _ _ _ Hw1) in Hacc.
  destruct (chain_commit_ok (F := SudoFailed.t) s1 Hr1) as (s2 & E2 & Hr2 & Hsame2 & Hdu2).
  apply (account_same _ _ _ _ _ _ Hsame2) in Hacc.
  unfold wrong_code. rewrite (st_bind_Ok _ _ _ _ _ E1). rewrite (dao_data _ _ _ Hd), (dao_data _ _ _ Hds1).
  set (u' := ban now _ u). unfold with_guard, st_try. rewrite (st_bind_Ok _ _ _ _ _ E2). cbn [st_fail].
  assert (dao_of k u' (DaoMut.with_data user u')) as Hd' by (by destruct Hd as (? & ? & ? & ?)).
  destruct (tt_save User s2 k u' u false _ Hr2 Hd' (acc_user _ _ _ _ _ Hacc)) as (s3 & E3 & _).
  exists s3. split.
  { unfold drop_guard, mbind, st_bind. by rewrite (st_map_err_run _ _ _ _ _ E3). }
  destruct (durable_begun s2 ScopeFull Hdu2) as [Hdu2' Hsame2'].
  destruct (td_save User _ _ _ _ _ _ ScopeFull E3 Hdu2') as [Hdu3 Hsame3].
  split; [done|]. eapply account_same; [exact Hsame3|]. by eapply account_same.
Qed.

Lemma check_sudo_wrong svc now request s k u ks sudo user time : tt_ready s → account s k u ks sudo →
  dao_of k u user → tt_placed s user →
  TimeKeeper.current_timestamp_as_duration (sv_time_keeper svc) (Some now) = Ok time →
  verify_code (sud_secret sudo) (sq_authenticator_code request) 3 ((time `div` 1000000000) `div` 30) = false →
  ∃ s', check_sudo svc now request user s = (Err (Refused SudoFailed.WrongCode), s')
    ∧ tt_durable (fst s', tr_begin ScopeFull)
    ∧ account (fst s', tr_begin ScopeFull) k u ks (failed_once sudo).
Proof.
  intros Hr Hacc Hd Hp Htime Hwrong. unfold check_sudo.
  destruct (tt_as_mut_written s k u user Hr Hd Hp (acc_user _ _ _ _ _ Hacc)) as [Hr1 Hw1].
  assert (guard (F := SudoFailed.t) user s = (Ok (), tr_as_mut user s)) as E1 by done.
  rewrite (st_bind_Ok _ _ _ _ _ E1). apply (account_user _ _ _ _ _ _ Hw1) in Hacc.
  assert (tt_placed (tr_as_mut user s) user) as Hp1 by (apply (tt_placed_same s); [apply Hw1|done]).
  rewrite (dao_data _ _ _ Hd). rewrite (proj1 Hd).
  destruct (load_sudo_ok _ k u ks sudo Hr1 Hacc) as (sdao & s2 & E2 & Hds & Hps & Hr2 & Hsame2).
  match goal with |- context [or_drop user ?c] =>
    assert (or_drop user c (tr_as_mut user s) = (Ok (Some sdao), s2)) as E3 end.
  { unfold or_drop, st_try. by rewrite (st_map_err_run _ _ _ _ _ E2). }
  rewrite (st_bind_Ok _ _ _ _ _ E3). cbv iota beta. rewrite Htime, (dao_data _ _ _ Hds), Hwrong.
  apply wrong_code_ok; [done|by eapply account_same|done| |done|done].
  by apply (tt_placed_same (tr_as_mut user s)); [apply Hsame2|].
Qed.

(** One who asks for sudo: the clock, the draws and the code of the request. *)
Record Attempt : Type := { at_now : Z; at_draws : Draws; at_code : string }.

Fixpoint sudo_attempts (svc : AuthService) (session : AteSessionUser) (attempts : list Attempt) (r : R)
    : list (result (Fault SudoFailed.t) SudoResponse) * R :=
  match attempts with
  | [] => ([], r)
  | a :: attempts =>
      let '(res, r) := process_sudo svc (at_now a) (at_draws a)
                         {| sq_session := session; sq_authenticator_code := at_code a |} r in
      let '(rest, r) := sudo_attempts svc session attempts r in
      (res :: rest, r)
  end.

(** The code does not match, and no lock is in force. *)
Definition wrong_attempt (svc : AuthService) (u : User) (secret : string) (a : Attempt) : Prop :=
  match us_status u with
  | Nominal => True
  | Unverified => False
  | AccountLocked until => until ≤ at_now a
  end
  ∧ ∃ time, TimeKeeper.current_timestamp_as_duration (sv_time_keeper svc) (Some (at_now a)) = Ok time
    ∧ verify_code secret (at_code a) 3 ((time `div` 1000000000) `div` 30) = false.

Section attempts.
Variables (svc : AuthService) (session : AteSessionUser) (token : EncryptedSecureData) (master super_key : EncryptKey).
Hypothesis Htoken : su_token session = Some token.
Hypothesis Hmaster : AuthService.master_key svc = Some master.
Hypothesis Hsuper : EncryptedSecureData.unwrap token master = Ok super_key.
Hypothesis Hkeys : ∀ k : EncryptKey, is_Some (serialize Bincode k).
Hypothesis Hreg : RegistrySpec R B.

(** What the chain is opened with. *)
Definition sudo_session : AteSession :=
  as_session (SessionUser (with_read_key (AuthService.super_key_of master (EncryptKey.value super_key))
                             (with_read_key super_key (sv_master_session svc)))).

(** The session reads the account. *)
Definition session_reads : Prop :=
  ∀ b, tt_durable (b, tr_begin ScopeFull) →
    tt_durable (tr_dio sudo_session b, tr_begin ScopeFull)
    ∧ tt_same (b, tr_begin ScopeFull) (tr_dio sudo_session b, tr_begin ScopeFull).
Hypothesis Hreads : session_reads.

Abbreviation key := (key_of_text (su_identity session)).
Abbreviation chain := (user_chain (su_identity session)).

Lemma sudo_super_key rnd :
  ∃ t, AuthService.compute_master_key SudoFailed.NoMasterKey svc rnd super_key
       = Ok (AuthService.super_key_of master (EncryptKey.value super_key), t).
Proof.
  unfold AuthService.compute_master_key. rewrite Hmaster. unfold AuthService.compute_super_key, EncryptedSecureData.new, to_bytes.
  destruct (Hkeys (AuthService.super_key_of master (EncryptKey.value super_key))) as [bs ->]. cbn. by eexists.
Qed.

Lemma attempt_wrong a (r : R) b u ks sudo : reg_open chain r = Some b → tt_durable (b, tr_begin ScopeFull) →
  account (b, tr_begin ScopeFull) key u ks sudo → wrong_attempt svc u (sud_secret sudo) a →
  ∃ b', process_sudo svc (at_now a) (at_draws a) {| sq_session := session; sq_authenticator_code := at_code a |} r
        = (Err (Refused SudoFailed.WrongCode), reg_put chain b' r)
    ∧ tt_durable (b', tr_begin ScopeFull) ∧ account (b', tr_begin ScopeFull) key u ks (failed_once sudo).
Proof.
  intros Hopen Hdu Hacc [Hstatus (time & Htime & Hwrong)].
  destruct (Hreads b Hdu) as [Hdu0 Hsame0]. apply (account_same _ _ _ _ _ _ Hsame0) in Hacc.
  set (s0 := (tr_dio sudo_session b, tr_begin ScopeFull)) in *.
  assert (tt_ready s0) as Hr0 by (by destruct (tt_begin s0 ScopeFull Hdu0)).
  destruct (sudo_super_key (dw_bytes (at_draws a) 0)) as [t Ht].
  unfold process_sudo. cbn [sq_session]. rewrite Htoken, Hmaster, Hsuper. cbn [map_err].
  rewrite st_of_Ok, Ht, st_of_Ok. cbv beta iota zeta. unfold with_dio, st_mk. rewrite Hopen.
  change (as_session (SessionUser (with_token _ _))) with sudo_session. fold s0.
  destruct (load_or_ok (F := SudoFailed.t) s0 key u (λ _, None) Hr0 (acc_user _ _ _ _ _ Hacc))
    as (dao & s1 & E1 & Hd & Hp & Hr1 & Hsame1 & _).
  rewrite (st_bind_Ok _ _ _ _ _ E1), (dao_data _ _ _ Hd).
  apply (account_same _ _ _ _ _ _ Hsame1) in Hacc.
  destruct (check_sudo_wrong svc (at_now a) {| sq_session := session; sq_authenticator_code := at_code a |}
    s1 key u ks sudo dao time Hr1 Hacc Hd Hp Htime Hwrong) as (s2 & E2 & Hdu2 & Hacc2).
  match goal with |- context [(?c ≫= ?f) s1] => assert (c s1 = (Ok (), s1)) as E3 end.
  { destruct (us_status u) as [| |until]; [done..|]. rewrite decide_False by lia. done. }
  rewrite (st_bind_Ok _ _ _ _ _ E3), (st_bind_Err _ _ _ _ _ E2). destruct s2 as [b2 t2]. by exists b2.
Qed.

Lemma attempts_wrong attempts : ∀ (r : R) b u ks sudo, reg_open chain r = Some b → tt_durable (b, tr_begin ScopeFull) →
  account (b, tr_begin ScopeFull) key u ks sudo →
  Forall (wrong_attempt svc u (sud_secret sudo)) attempts →
  ∃ r' b', sudo_attempts svc session attempts r
           = (replicate (length attempts) (Err (Refused SudoFailed.WrongCode)), r')
    ∧ reg_open chain r' = Some b' ∧ tt_durable (b', tr_begin ScopeFull)
    ∧ account (b', tr_begin ScopeFull) key u ks (Nat.iter (length attempts) failed_once sudo).
Proof.
  induction attempts as [|a attempts IH]; intros r b u ks sudo Hopen Hdu Hacc Hall; [by exists r, b|].
  apply Forall_cons in Hall as [Ha Hall].
  destruct (attempt_wrong a r b u ks sudo Hopen Hdu Hacc Ha) as (b1 & E & Hdu1 & Hacc1).
  destruct (IH (reg_put chain b1 r) b1 u ks (failed_once sudo) (reg_open_put _ _ _) Hdu1 Hacc1 Hall)
    as (r' & b' & E' & Hopen' & Hdu' & Hacc').
  exists r', b'. cbn [sudo_attempts]. rewrite E, E'. split; [done|]. split; [done|]. split; [done|].
  cbn [length]. by rewrite Nat.iter_succ_r.
Qed.
End attempts.

End users.
