(* ===== verification/AuthGroups.v ===== *)
(** * Groups of the authentication service

    wasmer-auth/src/work: query.rs, create_group.rs, gather.rs, group_user_add.rs,
    group_user_remove.rs, group_details.rs and group_remove.rs. *)

From Stdlib Require Import Ascii.
From S2P Require Import Prelude LogApi Crypto Codec Secure Meta Time Event Index Signature Tree Session Compact Plugins LogFile MemDb RedoLog Chain ChainSpec Pipe Dio Mesh Trans AuthModel AuthService AuthUsers.

(** ** The name of a group *)

Definition group_char (c : ascii) : bool :=
  let n := nat_of_ascii c in
  (97 <=? n)%nat && (n <=? 122)%nat || (65 <=? n)%nat && (n <=? 90)%nat
  || (48 <=? n)%nat && (n <=? 57)%nat || existsb (Ascii.eqb c) (String.list_ascii_of_string "_.-").

Definition group_matches (group : string) : bool :=
  match String.list_ascii_of_string group with
  | c :: s => if Ascii.eqb c "/" then some_chars group_char s else some_chars group_char (c :: s)
  | [] => false
  end.

(** What [create_group] makes roles of, in this order. *)
Definition group_purposes : list AteRolePurpose :=
  [Owner; Delegate; Contributor; Finance; WebServer; EdgeCompute; Observer].

(** The role that may change who has a role. *)
Definition needed_role (purpose : AteRolePurpose) : AteRolePurpose :=
  match purpose with Owner | Delegate => Owner | _ => Delegate end.

Section groups.
Context {R B T : Type} `{!Trans B T} `{!SessionTrans B T} `{!Registry R B}.
Context `{CryptoPrims} `{KemPrims} `{!Serde EncryptKey} `{!Serde Authorization}.
Context `{!DataSerializer Group} `{!DataSerializer Advert}.
Variable svc : AuthService.
Variable draws : Draws.

Abbreviation rnd i := (dw_bytes draws i).

(** What only reads the chain. *)
Definition on_chain {E A} (c : st B E A) : st (B * T) E A :=
  st_mk (λ s, let '(r, b) := c (fst s) in (r, (b, snd s))).

(** Another transaction on the chain, for another session. *)
Definition in_dio {E A} (session : AteSessionUser) (scope : TransactionScope) (c : st (B * T) E A)
    : st (B * T) E A :=
  st_mk (λ s, let '(r, (b, _)) := c (tr_dio (as_session (SessionUser session)) (fst s), tr_begin scope) in
              (r, (b, snd s))).

(** ** Asking for an identity *)

Definition process_query (identity : string) : st R (Fault QueryFailed.t) Advert :=
  with_dio (user_chain identity) (sv_master_session svc) ScopeNone
    (there ← exists_key (advert_key_of identity);
     if negb there then st_fail (Refused QueryFailed.NotFound) else
     advert ← on_chain (load_ro_or (D := Advert) (advert_key_of identity) (λ _, None));
     mret (row_data (snd advert))).

(** ** Making a group *)

(** The first of fifty numbers that is not taken, nor above the greatest number; sums of 32 bits. *)
Fixpoint find_gid (estimate : Z) (ns : list Z) : st (B * T) (Fault CreateGroupFailed.t) (option Z) :=
  match ns with
  | [] => mret None
  | n :: ns =>
      let gid_test := as_u32 ((if decide (estimate < 1000) then estimate + 1000 else estimate) + n) in
      taken ← exists_key (PrimaryKey.new gid_test);
      if (taken : bool) then find_gid estimate ns else
      taken ← exists_key (PrimaryKey.new (gid_test + U32_MAX));
      if (taken : bool) then find_gid estimate ns else mret (Some gid_test)
  end.

Definition free_gid (group : string) : st (B * T) (Fault CreateGroupFailed.t) Z :=
  match estimate_group_name_as_gid group with
  | None => st_fail Panicked
  | Some estimate =>
      gid ← find_gid estimate (seqZ 0 50);
      match (gid : option Z) with
      | Some gid => mret gid
      | None => st_fail (Refused CreateGroupFailed.NoMoreRoom)
      end
  end.

(** The keys of a role; those of finance are read with the key of contracts. *)
Definition role_keys (group : string) (key_size : KeySize) (purpose : AteRolePurpose) : Authorization :=
  match purpose with
  | Owner => new_authorization draws key_size 0
  | Delegate => new_authorization draws key_size 1
  | Contributor => new_authorization draws key_size 2
  | Observer => new_authorization draws key_size 3
  | WebServer => new_authorization draws key_size 4
  | EdgeCompute => new_authorization draws key_size 5
  | Finance =>
      let a := new_authorization draws key_size 6 in
      {| au_read := contract_key_for svc group; au_private_read := au_private_read a;
         au_write := au_write a |}
  | _ => new_authorization draws key_size 8
  end.

Definition role_public (a : Authorization) : PublicEncryptKey :=
  PrivateEncryptKey.as_public_key (au_private_read a).

(** Who is let into a role beside the owner, and under which names. *)
Definition role_members (keys : AteRolePurpose → Authorization) (nominal sudo : PublicEncryptKey)
    (identity : string) (purpose : AteRolePurpose) : list (PublicEncryptKey * string) :=
  let delegate := (role_public (keys Delegate), "delegate") in
  let contributor := (role_public (keys Contributor), "contributor") in
  match purpose with
  | Owner | Finance => [(sudo, identity)]
  | Delegate => [(nominal, identity)]
  | Observer | WebServer => [delegate; contributor]
  | _ => [delegate]
  end.

(** [access.add] for each of them. *)
Fixpoint add_members (i : nat) (referrer : PrivateEncryptKey) (members : list (PublicEncryptKey * string))
    (access : MultiEncryptedSecureData) : result SecureError MultiEncryptedSecureData :=
  match members with
  | [] => Ok access
  | (key, name) :: members =>
      match MultiEncryptedSecureData.add (rnd i) key name referrer access with
      | (Ok _, access) => add_members (S i) referrer members access
      | (Err e, _) => Err e
      end
  end.

(** The key that the box of a role is sealed with: those of web servers and of edge nodes are
    derived from keys of the service, the others are drawn. *)
Definition access_key (group : string) (key_size : KeySize) (i : nat) (purpose : AteRolePurpose) : EncryptKey :=
  match purpose with
  | WebServer => AuthService.compute_web_key_from_hash svc (hash_of_text ("web-read:" +:+ group))
  | EdgeCompute => AuthService.compute_edge_key_from_hash svc (hash_of_text ("edge-read:" +:+ group))
  | _ => EncryptKey.generate (rnd i) (PrivateEncryptKey.size (au_private_read (role_keys group key_size Owner)))
  end.

(** The draws of a role begin at [i]. *)
Definition make_role (group identity : string) (key_size : KeySize) (nominal sudo : PublicEncryptKey)
    (i : nat) (purpose : AteRolePurpose) : result SecureError Role :=
  let keys := role_keys group key_size in
  let a := keys purpose in
  let owner := au_private_read (keys Owner) in
  access ← MultiEncryptedSecureData.new_ext (rnd (1 + i)) (rnd (2 + i))
             (PrivateEncryptKey.as_public_key owner) (access_key group key_size i purpose) "owner" a;
  access ← add_members (3 + i) owner (role_members keys nominal sudo identity purpose) access;
  Ok {| ro_purpose := purpose; ro_read := EncryptKey.hash (au_read a); ro_private_read := role_public a;
        ro_write := PrivateSignKey.as_public_key (au_write a); ro_access := access |}.

Fixpoint make_roles (group identity : string) (key_size : KeySize) (nominal sudo : PublicEncryptKey)
    (i : nat) (purposes : list AteRolePurpose) : result SecureError (list Role) :=
  match purposes with
  | [] => Ok []
  | purpose :: purposes =>
      role ← make_role group identity key_size nominal sudo i purpose;
      roles ← make_roles group identity key_size nominal sudo (5 + i) purposes;
      Ok (role :: roles)
  end.

Definition secure {F A} (r : result SecureError A) : result (Fault F) A :=
  map_err (λ e, InternalError (InSecure e)) r.

(** The records of the group, in a transaction of the owner. *)
Definition create_group_records (request : CreateGroupRequest) (key_size : KeySize) (gid : Z)
    (nominal sudo : PublicEncryptKey) (master_key : EncryptKey) (master_write : PrivateSignKey)
    : st (B * T) (Fault CreateGroupFailed.t) CreateGroupResponse :=
  let name := gq_group request in
  let keys := role_keys name key_size in
  let broker := new_authorization draws key_size 7 in
  group ← store_at {| gp_name := name; gp_gid := gid; gp_roles := []; gp_foreign := DaoForeign.new;
                      gp_broker_read := au_private_read broker; gp_broker_write := au_write broker |}
            (key_of_text name);
  roles ← st_of (secure (make_roles name (gq_identity request) key_size nominal sudo 9 group_purposes));
  group ← modify (λ g, with_roles g roles) group;
  group ← set_read (ReadOption.from_key (rnd 44) (rnd 45) master_key) group;
  group ← set_write (WriteAny [PrivateSignKey.hash master_write;
                               PrivateSignKey.hash (au_write (keys Owner))]) group;
  advert ← store_at {| av_identity := name; av_id := GID gid;
                       av_nominal_encrypt := role_public (keys Observer);
                       av_nominal_auth := PrivateSignKey.as_public_key (au_write (keys Contributor));
                       av_sudo_encrypt := role_public (keys Owner);
                       av_sudo_auth := PrivateSignKey.as_public_key (au_write (keys Owner));
                       av_broker_encrypt := PrivateEncryptKey.as_public_key (au_private_read broker);
                       av_broker_auth := PrivateSignKey.as_public_key (au_write broker) |}
             (advert_key_of name);
  advert ← set_read (ReadEveryone None) advert;
  _ ← set_write WriteInherit advert;
  _ ← commit;
  session ← st_of (secure (complete_group_auth (data group) (InnerUser AteSessionUser.new)));
  mret {| gr_key := DaoMut.key group; gr_session := session |}.

(** The master session with the keys of the owner and of the delegates. *)
Definition owner_session (group : string) (key_size : KeySize) : AteSessionUser :=
  let owner := role_keys group key_size Owner in
  let delegate := role_keys group key_size Delegate in
  AteSessionUser.add_user_write_key (au_write delegate)
    (AteSessionUser.add_user_write_key (au_write owner)
      (AteSessionUser.add_user_private_read_key (au_private_read delegate)
        (AteSessionUser.add_user_private_read_key (au_private_read owner)
          (AteSessionUser.add_user_read_key (au_read delegate)
            (AteSessionUser.add_user_read_key (au_read owner) (sv_master_session svc)))))).

Definition query_failed (e : Fault QueryFailed.t) : Fault CreateGroupFailed.t :=
  match e with
  | Refused QueryFailed.Banned => Refused CreateGroupFailed.OperatorBanned
  | Refused QueryFailed.NotFound => Refused CreateGroupFailed.OperatorNotFound
  | Refused QueryFailed.Suspended => Refused CreateGroupFailed.AccountSuspended
  | InternalError code => InternalError code
  | Panicked => Panicked
  end.

Definition process_create_group (request : CreateGroupRequest)
    : st R (Fault CreateGroupFailed.t) CreateGroupResponse :=
  advert ← st_map_err query_failed (process_query (gq_identity request));
  if negb (group_matches (gq_group request))
  then st_fail (Refused (CreateGroupFailed.InvalidGroupName "the group name you specified is invalid"))
  else match AuthService.master_write_key svc, AuthService.master_key svc with
  | Some master_write, Some master_key =>
      let key_size := PublicEncryptKey.size (av_nominal_encrypt advert) in
      with_dio (user_chain (gq_group request)) (sv_master_session svc) ScopeLocal
        (gid ← free_gid (gq_group request);
         there ← exists_key (key_of_text (gq_group request));
         if (there : bool)
         then st_fail (Refused (CreateGroupFailed.AlreadyExists "the group with this name already exists"))
         else in_dio (owner_session (gq_group request) key_size) ScopeFull
                (create_group_records request key_size gid (av_nominal_encrypt advert)
                   (av_sudo_encrypt advert) master_key master_write))
  | _, _ => st_fail (Refused CreateGroupFailed.NoMasterKey)
  end.

(** ** Gathering the rights in a group *)

Definition process_gather (request : GatherRequest) : st R (Fault GatherFailed.t) GatherResponse :=
  match AuthService.master_key svc with
  | None => st_fail (Refused GatherFailed.NoMasterKey)
  | Some _ =>
      with_dio (user_chain (ga_group request)) (sv_master_session svc) ScopeNone
        (group ← on_chain (load_ro_or (D := Group) (key_of_text (ga_group request)) (λ e,
           match e with
           | NotFound _ => Some (GatherFailed.GroupNotFound (ga_group request))
           | DioTransformation (MissingReadKey _) => Some GatherFailed.NoMasterKey
           | _ => None
           end));
         session ← st_of (secure (complete_group_auth (row_data (snd group)) (ga_session request)));
         mret {| ge_group_name := ga_group request; ge_gid := gp_gid (row_data (snd group));
                 ge_group_key := row_key (snd group); ge_authority := session |})
  end.

(** ** Who is in a group *)

Definition get_delegate_write (session : AteSessionGroup) (role : AteRolePurpose) : option PrivateEncryptKey :=
  head (option_list (AteSessionGroup.get_group_role role session) ≫= AteGroupRole.private_read_keys).

(** The master session with all that the session of the request has. *)
Definition joined_session (session : AteSessionGroup) : AteSessionUser :=
  AteSessionUser.append (se_properties session) (sv_master_session svc).

Definition has_role (purpose : AteRolePurpose) (r : Role) : bool := bool_decide (ro_purpose r = purpose).

(** A role of its own, opened by the key of the one who asks. *)
Definition custom_role (request : GroupUserAddRequest) (key_size : KeySize) (delegate_write : PrivateEncryptKey)
    : result SecureError Role :=
  let a := new_authorization draws key_size 0 in
  access ← MultiEncryptedSecureData.new (rnd 1) (rnd 2) (rnd 3)
             (PrivateEncryptKey.as_public_key delegate_write)
             (se_identity (sg_inner (ua_session request))) a;
  Ok {| ro_purpose := ua_purpose request; ro_read := EncryptKey.hash (au_read a);
        ro_private_read := role_public a; ro_write := PrivateSignKey.as_public_key (au_write a);
        ro_access := access |}.

(** [role.access.add] for every role of the purpose. *)
Fixpoint add_to_roles (request : GroupUserAddRequest) (delegate_write : PrivateEncryptKey) (i : nat)
    (roles : list Role) : result SecureError (list Role) :=
  match roles with
  | [] => Ok []
  | role :: roles =>
      role ← (if has_role (ua_purpose request) role then
                match MultiEncryptedSecureData.add (rnd i) (ua_who_key request) (ua_who_name request)
                        delegate_write (ro_access role) with
                | (Ok _, access) => Ok (with_access role access)
                | (Err e, _) => Err e
                end
              else Ok role);
      roles ← add_to_roles request delegate_write (S i) roles;
      Ok (role :: roles)
  end.

Definition process_group_user_add (request : GroupUserAddRequest)
    : st R (Fault GroupUserAddFailed.t) PrimaryKey :=
  let session := ua_session request in
  let key_size := from_option EncryptKey.size Bit192 (head (se_read_keys AllKeys session)) in
  with_dio (user_chain (ua_group request)) (joined_session session) ScopeFull
    (group ← load_or (D := Group) (key_of_text (ua_group request)) (λ e,
       match e with
       | NotFound _ => Some GroupUserAddFailed.GroupNotFound
       | DioTransformation (MissingReadKey _) => Some GroupUserAddFailed.NoMasterKey
       | _ => None
       end);
     match get_delegate_write session (needed_role (ua_purpose request)) with
     | None => st_fail (Refused GroupUserAddFailed.NoAccess)
     | Some delegate_write =>
         group ← (if existsb (has_role (ua_purpose request)) (gp_roles (data group)) then mret group
                  else role ← st_of (secure (custom_role request key_size delegate_write));
                       modify (λ g, with_roles g (gp_roles g ++ [role])) group);
         roles ← st_of (secure (add_to_roles request delegate_write 4 (gp_roles (data group))));
         group ← modify (λ g, with_roles g roles) group;
         _ ← commit;
         mret (DaoMut.key group)
     end).

(** The first role of the purpose, when [f] gives one for it. *)
Fixpoint alter_role {E} (purpose : AteRolePurpose) (f : Role → result E Role) (roles : list Role)
    : option (result E (list Role)) :=
  match roles with
  | [] => None
  | role :: roles =>
      if has_role purpose role then Some (role ← f role; Ok (role :: roles))
      else match alter_role purpose f roles with
           | Some r => Some (roles ← r; Ok (role :: roles))
           | None => None
           end
  end.

Definition remove_member (delegate_hash who : AteHash) (role : Role) : result GroupUserRemoveFailed.t Role :=
  if negb (MultiEncryptedSecureData.exists_ (ro_access role) delegate_hash)
  then Err GroupUserRemoveFailed.NoAccess
  else match MultiEncryptedSecureData.remove who (ro_access role) with
       | (false, _) => Err GroupUserRemoveFailed.NothingToRemove
       | (true, access) => Ok (with_access role access)
       end.

Definition process_group_user_remove (request : GroupUserRemoveRequest)
    : st R (Fault GroupUserRemoveFailed.t) PrimaryKey :=
  let session := ur_session request in
  with_dio (user_chain (ur_group request)) (joined_session session) ScopeFull
    (group ← load_or (D := Group) (key_of_text (ur_group request)) (λ e,
       match e with
       | NotFound _ => Some GroupUserRemoveFailed.GroupNotFound
       | DioTransformation (MissingReadKey _) => Some GroupUserRemoveFailed.NoMasterKey
       | _ => None
       end);
     match get_delegate_write session (needed_role (ur_purpose request)) with
     | None => st_fail (Refused GroupUserRemoveFailed.NoAccess)
     | Some delegate_write =>
         let delegate_hash := PublicEncryptKey.hash (PrivateEncryptKey.as_public_key delegate_write) in
         match alter_role (ur_purpose request) (remove_member delegate_hash (ur_who request))
                 (gp_roles (data group)) with
         | None => st_fail (Refused GroupUserRemoveFailed.RoleNotFound)
         | Some (Err e) => st_fail (Refused e)
         | Some (Ok roles) =>
             group ← modify (λ g, with_roles g roles) group;
             _ ← commit;
             mret (DaoMut.key group)
         end
     end).

(** ** What is told about a group *)

(** The names are shown to a key of the owners or the delegates. *)
Definition has_access (session : option AteSessionGroup) (roles : list Role) : bool :=
  match session with
  | Some session =>
      let hashes := PrivateEncryptKey.hash <$> se_private_read_keys AllKeys session in
      existsb (λ r, (has_role Owner r || has_role Delegate r)
                    && existsb (MultiEncryptedSecureData.exists_ (ro_access r)) hashes) roles
  | None => false
  end.

Definition role_details (access : bool) (r : Role) : GroupDetailsRoleResponse :=
  {| dr_purpose := ro_purpose r; dr_name := AteRolePurpose.fmt (ro_purpose r); dr_read := ro_read r;
     dr_private_read := ro_private_read r; dr_write := ro_write r; dr_hidden := negb access;
     dr_members := if access then snd <$> map_to_list (msd_metadata (ro_access r)) else [] |}.

Definition process_group_details (request : GroupDetailsRequest)
    : st R (Fault GroupDetailsFailed.t) GroupDetailsResponse :=
  with_dio (user_chain (dq_group request)) (sv_master_session svc) ScopeNone
    (group ← on_chain (load_ro_or (D := Group) (key_of_text (dq_group request)) (λ e,
       match e with
       | NotFound _ => Some GroupDetailsFailed.GroupNotFound
       | DioTransformation (MissingReadKey _) => Some GroupDetailsFailed.NoMasterKey
       | _ => None
       end));
     let g := row_data (snd group) in
     mret {| ds_key := row_key (snd group); ds_name := gp_name g;
             ds_roles := role_details (has_access (dq_session request) (gp_roles g)) <$> gp_roles g;
             ds_gid := gp_gid g |}).

(** ** Removing a group *)

Definition process_group_remove (group : string) (session : AteSessionGroup)
    : st R (Fault GroupRemoveFailed.t) PrimaryKey :=
  with_dio (user_chain group) (joined_session session) ScopeFull
    (_ ← st_map_err (λ e, InternalError (InRow e)) (tr_delete (key_of_text group));
     _ ← st_try (tr_delete (advert_key_of group)) (λ _, mret ());
     _ ← commit;
     mret (key_of_text group)).
End groups.
