(* ===== verification/AuthRoles.v ===== *)
(** * The roles a session gains in a group

    [complete_group_auth] tries the keys of the session on the roles that are still closed, turn
    after turn, and a role that opens brings keys of its own.  It ends, and what the session has in
    the end is the least set of roles that is closed under opening: [complete_group_auth_spec]. *)

From S2P Require Import Prelude LogApi Crypto Codec Secure Meta Time Event Index Signature Tree Session Compact Plugins LogFile MemDb RedoLog Chain ChainSpec Pipe Dio Mesh Trans AuthModel.

(** ** Properties of a group *)

(** What an authorization puts into a role. *)
Definition auth_properties (gid : Z) (a : Authorization) : list AteSessionProperty :=
  [ReadKey (au_read a); PrivateReadKey (au_private_read a); WriteKey (au_write a); Gid gid].

Lemma alter_first_properties purpose f (new : list AteSessionProperty) roles :
  (∀ r, gr_properties (f r) = gr_properties r ++ new) →
  existsb (AteGroup.has_purpose purpose) roles = true →
  ∀ p, p ∈ AteGroup.alter_first purpose f roles ≫= gr_properties
       ↔ p ∈ roles ≫= gr_properties ∨ p ∈ new.
Proof.
  intros Hf. induction roles as [|r roles IH]; [done|]. cbn. intros He p.
  destruct (AteGroup.has_purpose purpose r); cbn.
  - rewrite Hf. set_solver.
  - rewrite !elem_of_app, (IH He p). tauto.
Qed.

Lemma with_role_properties purpose f (new : list AteSessionProperty) g :
  (∀ r, gr_properties (f r) = gr_properties r ++ new) →
  ∀ p, p ∈ AteGroup.properties (AteGroup.with_role purpose f g) ↔ p ∈ AteGroup.properties g ∨ p ∈ new.
Proof.
  intros Hf p. unfold AteGroup.properties, AteGroup.with_role. cbn [ag_roles].
  destruct (existsb _ _) eqn:He; [by apply alter_first_properties|].
  rewrite (alter_first_properties purpose f new _ Hf).
  - rewrite bind_app, elem_of_app. cbn. set_solver.
  - rewrite existsb_app. cbn. unfold AteGroup.has_purpose at 2. cbn.
    by rewrite bool_decide_true, orb_true_r.
Qed.

Section roles.
Context `{CryptoPrims} `{KemPrims} `{!Serde EncryptKey} `{!Serde Authorization}.
Implicit Types (s : AteSessionGroup) (r : Role).

Lemma gain_properties gid purpose a s p :
  p ∈ AteGroup.properties (sg_group (gain_role gid purpose a s))
  ↔ p ∈ AteGroup.properties (sg_group s) ∨ p ∈ auth_properties gid a.
Proof.
  apply with_role_properties. intros r. unfold auth_properties. cbn. by rewrite <- !app_assoc.
Qed.

(** The keys of a session, by the properties of its group. *)
Lemma roles_keys {K} (f : AteSessionProperty → option K) (c : K → AteSessionProperty) roles k :
  (∀ p, f p = Some k ↔ p = c k) →
  k ∈ (roles ≫= λ r : AteGroupRole, omap f (gr_properties r)) ↔ c k ∈ roles ≫= gr_properties.
Proof.
  intros Hf. rewrite !list_elem_of_bind. setoid_rewrite list_elem_of_omap. split.
  - intros (r & (p & Hp & Hk%Hf) & Hr). subst p. by exists r.
  - intros (r & Hp & Hr). exists r. split; [|done]. exists (c k). split; [done|]. by apply Hf.
Qed.

Lemma group_private_keys s k :
  k ∈ se_private_read_keys AllKeys s
  ↔ k ∈ se_private_read_keys AllKeys (sg_inner s)
    ∨ PrivateReadKey k ∈ AteGroup.properties (sg_group s)
    ∨ ag_broker_read (sg_group s) = Some k.
Proof.
  change (se_private_read_keys AllKeys s) with (AteSessionGroup.private_read_keys AllKeys s).
  unfold AteSessionGroup.private_read_keys, AteGroup.properties. cbn [only].
  rewrite !elem_of_app. cbn.
  rewrite (roles_keys AteSessionProperty.private_read_key PrivateReadKey)
    by (intros []; cbn; split; congruence).
  destruct (ag_broker_read (sg_group s)); cbn; set_solver.
Qed.

Lemma group_shared_keys s k :
  k ∈ se_read_keys AllKeys s
  ↔ k ∈ se_read_keys AllKeys (sg_inner s) ∨ ReadKey k ∈ AteGroup.properties (sg_group s).
Proof.
  change (se_read_keys AllKeys s) with (AteSessionGroup.read_keys AllKeys s).
  unfold AteSessionGroup.read_keys, AteGroup.properties. cbn [only]. rewrite !elem_of_app. cbn.
  by rewrite (roles_keys AteSessionProperty.read_key ReadKey) by (intros []; cbn; split; congruence).
Qed.

Lemma gain_private_keys gid purpose a s k :
  k ∈ se_private_read_keys AllKeys (gain_role gid purpose a s)
  ↔ k ∈ se_private_read_keys AllKeys s ∨ k = au_private_read a.
Proof.
  rewrite !group_private_keys, gain_properties. cbn [sg_inner gain_role AteSessionGroup.with_group].
  assert (PrivateReadKey k ∈ auth_properties gid a ↔ k = au_private_read a) as ->
    by (unfold auth_properties; set_solver). cbn. tauto.
Qed.

Lemma gain_shared_keys gid purpose a s k :
  k ∈ se_read_keys AllKeys (gain_role gid purpose a s)
  ↔ k ∈ se_read_keys AllKeys s ∨ k = au_read a.
Proof.
  rewrite !group_shared_keys, gain_properties. cbn [sg_inner gain_role AteSessionGroup.with_group].
  assert (ReadKey k ∈ auth_properties gid a ↔ k = au_read a) as ->
    by (unfold auth_properties; set_solver). tauto.
Qed.

(** ** The closure *)

Section closure.
Variable g : Group.
Variable inner : AteSessionInner.
(** What is in the box of a role. *)
Variable auth_of : Role → Authorization.

Abbreviation start := (group_session g inner).
Abbreviation roles := (gp_roles g).

Definition opens_private r (k : PrivateEncryptKey) : Prop :=
  MultiEncryptedSecureData.unwrap (ro_access r) k = Ok (Some (auth_of r)).
Definition opens_shared r (k : EncryptKey) : Prop :=
  MultiEncryptedSecureData.unwrap_shared (ro_access r) k = Ok (Some (auth_of r)).

(** A role is gained with a key of the session, or with a key of a role that is gained. *)
Inductive gained : Role → Prop :=
  | gained_at_once r : r ∈ roles →
      (∃ k, k ∈ se_private_read_keys AllKeys start ∧ opens_private r k)
      ∨ (∃ k, k ∈ se_read_keys AllKeys start ∧ opens_shared r k) → gained r
  | gained_by_role r r' : r ∈ roles → gained r' →
      opens_private r (au_private_read (auth_of r')) ∨ opens_shared r (au_read (auth_of r')) → gained r.

(** The keys that are ever tried. *)
Definition private_ring (k : PrivateEncryptKey) : Prop :=
  k ∈ se_private_read_keys AllKeys start ∨ ∃ r, r ∈ roles ∧ k = au_private_read (auth_of r).
Definition shared_ring (k : EncryptKey) : Prop :=
  k ∈ se_read_keys AllKeys start ∨ ∃ r, r ∈ roles ∧ k = au_read (auth_of r).

(** A box is opened by a key to what is in it, or stays closed. *)
Record sound_boxes : Prop := {
  box_private r k : r ∈ roles → private_ring k →
    MultiEncryptedSecureData.unwrap (T := Authorization) (ro_access r) k = Ok None ∨ opens_private r k;
  box_shared r k : r ∈ roles → shared_ring k →
    MultiEncryptedSecureData.unwrap_shared (T := Authorization) (ro_access r) k = Ok None ∨ opens_shared r k;
}.

Hypothesis Hboxes : sound_boxes.

Lemma first_open_spec {K} (open : K → result SecureError (option Authorization)) a keys :
  (∀ k, k ∈ keys → open k = Ok None ∨ open k = Ok (Some a)) →
  (first_open open keys = Ok None ∧ ∀ k, k ∈ keys → open k = Ok None)
  ∨ (first_open open keys = Ok (Some a) ∧ ∃ k, k ∈ keys ∧ open k = Ok (Some a)).
Proof.
  induction keys as [|k keys IH]; intros Hall; [left; split; [done|set_solver]|]. cbn.
  destruct (Hall k) as [E|E]; [by left|..]; rewrite E; cbn.
  - destruct IH as [[E' Hn]|[E' (k' & Hk' & Eo)]]; [set_solver|..].
    + left. split; [done|]. intros k' [->|Hk']%elem_of_cons; auto.
    + right. split; [done|]. exists k'. split; [by right|done].
  - right. split; [done|]. exists k. split; [by left|done].
Qed.

(** A role opens with some key of the two lists, or with none. *)
Lemma open_role_spec (sup : list PrivateEncryptKey) (sha : list EncryptKey) r : r ∈ roles → (∀ k, k ∈ sup → private_ring k) → (∀ k, k ∈ sha → shared_ring k) →
  (open_role sup sha r = Ok None
   ∧ (∀ k, k ∈ sup → ¬ opens_private r k) ∧ (∀ k, k ∈ sha → ¬ opens_shared r k))
  ∨ (open_role sup sha r = Ok (Some (auth_of r))
     ∧ ((∃ k, k ∈ sup ∧ opens_private r k) ∨ ∃ k, k ∈ sha ∧ opens_shared r k)).
Proof.
  intros Hr Hp Hs. unfold open_role.
  destruct (first_open_spec (MultiEncryptedSecureData.unwrap (ro_access r)) (auth_of r) sup) as [[-> Hn]|[-> Hk]].
  - intros k Hk. apply (box_private Hboxes r k Hr). auto.
  - cbn. destruct (first_open_spec (MultiEncryptedSecureData.unwrap_shared (ro_access r)) (auth_of r) sha) as [[-> Hn']|[-> Hk]].
    + intros k Hk. apply (box_shared Hboxes r k Hr). auto.
    + left. split; [done|]. split; intros k Hk Ho; [specialize (Hn k Hk)|specialize (Hn' k Hk)];
        unfold opens_private, opens_shared in Ho; congruence.
    + right. split; [done|]. by right.
  - cbn. right. split; [done|]. by left.
Qed.

(** How far the loop is: the roles that are open, and those that are not. *)
Record progress (opened closed : list Role) s : Prop := {
  pg_roles r : r ∈ roles ↔ r ∈ opened ∨ r ∈ closed;
  pg_private k : k ∈ se_private_read_keys AllKeys s
    ↔ k ∈ se_private_read_keys AllKeys start ∨ ∃ r, r ∈ opened ∧ k = au_private_read (auth_of r);
  pg_shared k : k ∈ se_read_keys AllKeys s
    ↔ k ∈ se_read_keys AllKeys start ∨ ∃ r, r ∈ opened ∧ k = au_read (auth_of r);
  pg_props p : p ∈ AteGroup.properties (sg_group s)
    ↔ ∃ r, r ∈ opened ∧ p ∈ auth_properties (gp_gid g) (auth_of r);
  pg_gained r : r ∈ opened → gained r;
  pg_inner : sg_inner s = inner;
  pg_name : ag_name (sg_group s) = gp_name g;
  pg_brokers : ag_broker_read (sg_group s) = Some (gp_broker_read g)
               ∧ ag_broker_write (sg_group s) = Some (gp_broker_write g);
}.

Lemma progress_start : progress [] roles start.
Proof. split; try done; set_solver. Qed.

Lemma progress_gain opened kept rest s r : gained r → progress opened (kept ++ r :: rest) s →
  progress (r :: opened) (kept ++ rest) (gain_role (gp_gid g) (ro_purpose r) (auth_of r) s).
Proof.
  intros Hg [P1 P2 P3 P4 P5 P6 P7 P8]. split; try done.
  - intros r'. rewrite P1. set_solver.
  - intros k. rewrite gain_private_keys, P2. setoid_rewrite elem_of_cons. naive_solver.
  - intros k. rewrite gain_shared_keys, P3. setoid_rewrite elem_of_cons. naive_solver.
  - intros p. rewrite gain_properties, P4. setoid_rewrite elem_of_cons. naive_solver.
  - intros r' [->|?]%elem_of_cons; auto.
Qed.

Lemma gained_role r : gained r → r ∈ roles.
Proof. by intros [? ?|? ? ?]. Qed.

(** Keys that were gained. *)
Definition private_gained (k : PrivateEncryptKey) : Prop :=
  k ∈ se_private_read_keys AllKeys start ∨ ∃ r, gained r ∧ k = au_private_read (auth_of r).
Definition shared_gained (k : EncryptKey) : Prop :=
  k ∈ se_read_keys AllKeys start ∨ ∃ r, gained r ∧ k = au_read (auth_of r).

Lemma opened_gained (sup : list PrivateEncryptKey) (sha : list EncryptKey) r : r ∈ roles → (∀ k, k ∈ sup → private_gained k) → (∀ k, k ∈ sha → shared_gained k) →
  (∃ k, k ∈ sup ∧ opens_private r k) ∨ (∃ k, k ∈ sha ∧ opens_shared r k) → gained r.
Proof.
  intros Hr Hp Hs [(k & Hk & Ho)|(k & Hk & Ho)].
  - destruct (Hp k Hk) as [Hst|(r' & Hg & ->)]; [apply gained_at_once; eauto|].
    apply (gained_by_role r r'); auto.
  - destruct (Hs k Hk) as [Hst|(r' & Hg & ->)]; [apply gained_at_once; eauto|].
    apply (gained_by_role r r'); auto.
Qed.

(** One turn opens roles, or nothing changes and no key opens any. *)
Lemma try_roles_spec (sup : list PrivateEncryptKey) (sha : list EncryptKey) : (∀ k, k ∈ sup → private_gained k) → (∀ k, k ∈ sha → shared_gained k) →
  ∀ rest opened kept s, progress opened (kept ++ rest) s →
  ∃ next opened' s', try_roles (gp_gid g) sup sha rest s = Ok (next, s')
    ∧ progress opened' (kept ++ next) s'
    ∧ ((length next < length rest)%nat
       ∨ next = rest ∧ s' = s ∧ opened' = opened
         ∧ ∀ r, r ∈ rest → (∀ k, k ∈ sup → ¬ opens_private r k) ∧ (∀ k, k ∈ sha → ¬ opens_shared r k)).
Proof.
  intros Hp Hs. induction rest as [|r rest IH]; intros opened kept s P.
  { exists [], opened, s. split; [done|]. split; [done|]. right. set_solver. }
  assert (r ∈ roles) as Hr by (apply (pg_roles _ _ _ P); right; set_solver). cbn.
  destruct (open_role_spec sup sha r Hr) as [[-> [Hn Hn']]|[-> Ho]].
  { intros k Hk. destruct (Hp k Hk) as [?|(r' & ?%gained_role & ->)]; [by left|right; eauto]. }
  { intros k Hk. destruct (Hs k Hk) as [?|(r' & ?%gained_role & ->)]; [by left|right; eauto]. }
  - cbn. destruct (IH opened (kept ++ [r]) s) as (next & opened' & s' & E & P' & Hcase).
    { by rewrite <- app_assoc. }
    rewrite E. cbn. rewrite <- app_assoc in P'. exists (r :: next), opened', s'. split; [done|]. split; [done|].
    destruct Hcase as [Hlt|(-> & -> & -> & Hc)]; [left; cbn; lia|right].
    repeat (split; [done|]). intros r' [->|Hr']%elem_of_cons; auto.
  - cbn. assert (gained r) as Hg by (by eapply opened_gained).
    destruct (IH _ kept _ (progress_gain _ _ _ _ _ Hg P)) as (next & opened' & s' & E & P' & Hcase). exists next, opened', s'.
    split; [done|]. split; [done|]. left. destruct Hcase as [?|[-> _]]; cbn; lia.
Qed.

(** The loop, with more fuel than there are roles that are closed. *)
Lemma expand_roles_spec fuel : ∀ opened closed s, (length closed < fuel)%nat → progress opened closed s →
  ∃ opened' s', expand_roles fuel (gp_gid g) closed s = Ok s'
    ∧ (∃ closed', progress opened' closed' s') ∧ ∀ r, gained r → r ∈ opened'.
Proof.
  induction fuel as [|fuel IH]; intros opened closed s Hl P; [lia|].
  destruct closed as [|c closed].
  { exists opened, s. split; [done|]. split; [by exists []|]. intros r Hr%gained_role.
    apply (pg_roles _ _ _ P) in Hr. set_solver. }
  cbn [expand_roles].
  destruct (try_roles_spec (se_private_read_keys AllKeys s) (se_read_keys AllKeys s)) with
    (rest := c :: closed) (opened := opened) (kept := @nil Role) (s := s)
    as (next & opened' & s' & E & P' & Hcase); [..|done|].
  { intros k [?|(r & Hr%(pg_gained _ _ _ P) & ->)]%(pg_private _ _ _ P); [by left|right; eauto]. }
  { intros k [?|(r & Hr%(pg_gained _ _ _ P) & ->)]%(pg_shared _ _ _ P); [by left|right; eauto]. }
  rewrite E. cbn [mbind result_bind].
  destruct Hcase as [Hlt|(-> & -> & -> & Hc)].
  - rewrite decide_False by lia. apply (IH opened' next s'); [cbn in *; lia|done].
  - rewrite decide_True by done. exists opened, s. split; [done|]. split; [by exists (c :: closed)|].
    assert (∀ r, r ∈ roles → (∃ k, k ∈ se_private_read_keys AllKeys s ∧ opens_private r k)
      ∨ (∃ k, k ∈ se_read_keys AllKeys s ∧ opens_shared r k) → r ∈ opened) as Hopen.
    { intros r Hr Ho. apply (pg_roles _ _ _ P) in Hr as [|Hr]; [done|].
      destruct (Hc r Hr) as [Hn Hn']. exfalso. destruct Ho as [(k & Hk & Ho)|(k & Hk & Ho)]; naive_solver. }
    induction 1 as [r Hr Ho|r r' Hr Hg IHg Ho]; apply Hopen; [done| |done|].
    + destruct Ho as [(k & Hk & Ho)|(k & Hk & Ho)]; [left|right]; exists k; (split; [|done]).
      * apply (pg_private _ _ _ P). by left.
      * apply (pg_shared _ _ _ P). by left.
    + destruct Ho as [Ho|Ho]; [left|right]; (eexists; split; [|exact Ho]).
      * apply (pg_private _ _ _ P). right. eauto.
      * apply (pg_shared _ _ _ P). right. eauto.
Qed.

Lemma complete_group_auth_spec :
  ∃ s, complete_group_auth g inner = Ok s
    ∧ (∀ p, p ∈ AteGroup.properties (sg_group s)
            ↔ ∃ r, gained r ∧ p ∈ auth_properties (gp_gid g) (auth_of r))
    ∧ sg_inner s = inner ∧ ag_name (sg_group s) = gp_name g
    ∧ ag_broker_read (sg_group s) = Some (gp_broker_read g)
    ∧ ag_broker_write (sg_group s) = Some (gp_broker_write g).
Proof.
  destruct (expand_roles_spec (S (length roles)) [] roles start) as (opened & s & E & [closed P] & Hall);
    [lia|apply progress_start|].
  exists s. split; [exact E|]. destruct (pg_brokers _ _ _ P) as [Hb Hb'].
  split; [|by rewrite (pg_inner _ _ _ P), (pg_name _ _ _ P)].
  intros p. rewrite (pg_props _ _ _ P). split; intros (r & Hr & Hp); exists r; (split; [|done]).
  - by apply (pg_gained _ _ _ P).
  - by apply Hall.
Qed.
End closure.
End roles.
