(* ===== verification/AuthRights.v ===== *)
(** * The rights in a group that was just made

    [created_group_rights]: a session that holds the sudo key of the one who made the group gains
    every role, one that holds the nominal key gains the delegates and what is below them, a web
    server or an edge node that holds the key the service derives for the group gains its own role,
    and any other session gains nothing. *)

From S2P Require Import Prelude LogApi Crypto Codec Secure Meta Time Event Index Signature Tree Session Compact Plugins LogFile MemDb RedoLog Chain ChainSpec Pipe Dio Mesh Trans AuthModel AuthService AuthUsers AuthGroups AuthRoles.

Section rights.
Context `{CryptoPrims} `{KemPrims} `{!Serde EncryptKey} `{!Serde Authorization}.
Variable svc : AuthService.
Variable draws : Draws.
Variables (group identity : string) (key_size : KeySize).
(** The pairs of the one who makes the group. *)
Variables nominal sudo : PrivateEncryptKey.
Implicit Types (purpose : AteRolePurpose) (r : Role).

Abbreviation keys := (role_keys svc draws group key_size).
Definition role_pair purpose : PrivateEncryptKey := au_private_read (keys purpose).

(** Whose pairs are put into the box of a role. *)
Definition member_pairs purpose : list (PrivateEncryptKey * string) :=
  match purpose with
  | Owner | Finance => [(sudo, identity)]
  | Delegate => [(nominal, identity)]
  | Observer | WebServer => [(role_pair Delegate, "delegate"); (role_pair Contributor, "contributor")]
  | _ => [(role_pair Delegate, "delegate")]
  end.

(** What a session with some of the two pairs and the two derived keys is to gain. *)
Definition rights (has_nominal has_sudo has_web has_edge : bool) purpose : bool :=
  has_sudo || has_nominal && match purpose with Owner | Finance => false | _ => true end
  || has_web && bool_decide (purpose = WebServer) || has_edge && bool_decide (purpose = EdgeCompute).

(** The number of the first draw of a role. *)
Fixpoint first_draw (i : nat) (ps : list AteRolePurpose) purpose : nat :=
  match ps with
  | [] => i
  | p :: ps => if decide (purpose = p) then i else first_draw (5 + i) ps purpose
  end.

(** The key that the box of a role is sealed with. *)
Definition box_key purpose : EncryptKey :=
  access_key svc draws group key_size (first_draw 9 group_purposes purpose) purpose.

Lemma role_members_pairs purpose :
  role_members keys (PrivateEncryptKey.as_public_key nominal) (PrivateEncryptKey.as_public_key sudo) identity purpose
  = (λ m, (PrivateEncryptKey.as_public_key (fst m), snd m)) <$> member_pairs purpose.
Proof. by destruct purpose. Qed.

Definition grants (i : nat) (referrer : PrivateEncryptKey) (members : list (PrivateEncryptKey * string)) : list MemberOp :=
  imap (λ n m, Grant (dw_bytes draws (i + n)) (fst m) (snd m) referrer) members.

Lemma add_members_grants referrer members : ∀ i access access',
  add_members draws i referrer ((λ m, (PrivateEncryptKey.as_public_key (fst m), snd m)) <$> members) access = Ok access' →
  access' = foldl (flip run_member) access (grants i referrer members).
Proof.
  induction members as [|[k name] members IH]; intros i access access'; [by intros [= ->]|].
  cbn [fmap list_fmap fst snd add_members]. unfold grants. cbn [imap foldl flip run_member fst snd].
  rewrite Nat.add_0_r.
  destruct (MultiEncryptedSecureData.add _ _ _ _ access) as [[b|e] access1]; [|done]. cbn [snd].
  intros ->%IH. unfold grants. f_equal. apply imap_ext. intros n m _. cbn. by rewrite Nat.add_succ_r.
Qed.

Lemma grants_members members owner : ∀ i (s : gset AteHash), PrivateEncryptKey.hash owner ∈ s →
  foldl (flip spec_member) s (grants i owner members)
  = s ∪ list_to_set (PrivateEncryptKey.hash ∘ fst <$> members).
Proof.
  unfold grants. induction members as [|m members IH]; intros i s Hs; cbn; [set_solver|].
  rewrite decide_True by done.
  rewrite (imap_ext _ (λ n m, Grant (dw_bytes draws (S i + n)) (fst m) (snd m) owner))
    by (intros n x _; cbn; by rewrite Nat.add_succ_r).
  rewrite IH by set_solver. set_solver.
Qed.

(** ** The boxes *)

(** The keys that open a role. *)
Definition role_openers purpose : list PrivateEncryptKey := role_pair Owner :: (fst <$> member_pairs purpose).

(** The keys of the session and those that are drawn: generated pairs that are told apart, and
    none of the drawn ones is one the session had. *)
Record fresh_pairs (session : list PrivateEncryptKey) (broker : PrivateEncryptKey)
    (ring : list PrivateEncryptKey) : Prop := {
  fp_ring : key_ring ring;
  fp_all : session ++ nominal :: sudo :: broker :: (role_pair <$> group_purposes) ⊆ ring;
  fp_distinct : NoDup (nominal :: sudo :: broker :: (role_pair <$> group_purposes));
  fp_session k : k ∈ session → k ∉ broker :: (role_pair <$> group_purposes);
}.

Section boxes.
Variables (session : list PrivateEncryptKey) (broker : PrivateEncryptKey) (ring : list PrivateEncryptKey).
Hypothesis Hfresh : fresh_pairs session broker ring.

Lemma role_pair_ring purpose : purpose ∈ group_purposes → role_pair purpose ∈ ring.
Proof. intros Hp. apply (fp_all _ _ _ Hfresh). rewrite elem_of_app. right. do 3 right. by apply list_elem_of_fmap_2. Qed.

Lemma openers_ring purpose : role_openers purpose ⊆ ring.
Proof.
  assert (nominal ∈ ring ∧ sudo ∈ ring) as [Hn Hs]
    by (split; apply (fp_all _ _ _ Hfresh); set_solver).
  assert (∀ p, p ∈ group_purposes → role_pair p ∈ ring) as Hr by apply role_pair_ring.
  assert (Owner ∈ group_purposes ∧ Delegate ∈ group_purposes ∧ Contributor ∈ group_purposes) as (Ho & Hd & Hc)
    by (unfold group_purposes; set_solver).
  apply Hr in Ho, Hd, Hc. destruct purpose; cbn; set_solver.
Qed.

(** The box of a role that is made opens for the owner and for the members of the role. *)
Lemma make_role_box i purpose r k :
  make_role svc draws group identity key_size (PrivateEncryptKey.as_public_key nominal)
    (PrivateEncryptKey.as_public_key sudo) i purpose = Ok r → k ∈ ring →
  ro_purpose r = purpose
  ∧ MultiEncryptedSecureData.unwrap (ro_access r) k
    = Ok (if decide (k ∈ role_openers purpose) then Some (keys purpose) else None)
  ∧ MultiEncryptedSecureData.unwrap_shared (ro_access r) (access_key svc draws group key_size i purpose)
    = Ok (Some (keys purpose)).
Proof.
  unfold make_role. rewrite role_members_pairs.
  intros (access & Hnew & (access' & Hadd & [= <-])%bind_Ok_inv)%bind_Ok_inv Hk. split; [done|]. cbn [ro_access].
  apply add_members_grants in Hadd as ->.
  pose proof (openers_ring purpose) as Hsub.
  destruct (new_ext_members ring (role_pair Owner) k _ _ _ _ _ _
    (grants (3 + i) (role_pair Owner) (member_pairs purpose)) (fp_ring _ _ _ Hfresh)
    (Hsub _ (list_elem_of_here _ _)) Hk Hnew) as (E & _ & Eshared).
  - apply Forall_forall. intros op (n & m & -> & Hm%list_elem_of_lookup_2)%elem_of_lookup_imap_1.
    split; [apply Hsub; right; by apply list_elem_of_fmap_2|apply Hsub; by left].
  - split; [|exact Eshared]. refine (eq_trans E _). clear E. f_equal. rewrite grants_members by set_solver. apply decide_ext.
    rewrite elem_of_union, elem_of_singleton, elem_of_list_to_set, list_elem_of_fmap.
    unfold role_openers. rewrite elem_of_cons, list_elem_of_fmap.
    assert (∀ k', k' ∈ role_openers purpose → PrivateEncryptKey.hash k = PrivateEncryptKey.hash k' ↔ k = k') as Hinj.
    { intros k' Hk'%Hsub. split; [by apply (proj2 (fp_ring _ _ _ Hfresh))|by intros ->]. }
    rewrite (Hinj (role_pair Owner)) by (by left). split; (intros [?|(m & E & Hm)]; [by left|right; exists m; split; [|done]]).
    + apply Hinj; [right; by apply list_elem_of_fmap_2|done].
    + cbn. by rewrite E.
Qed.

(** Making a role does not fail when its keys can be written. *)
Lemma add_members_ok shared bs members owner : serialize Bincode shared = Some bs → owner ∈ ring →
  (∀ m, m ∈ members → fst m ∈ ring) →
  ∀ i access (s : gset AteHash), shares shared ring access s →
  ∃ access', add_members draws i owner ((λ m, (PrivateEncryptKey.as_public_key (fst m), snd m)) <$> members) access
             = Ok access'.
Proof.
  intros Hser Ho. induction members as [|[k name] members IH]; intros Hm i access s Hs; [by exists access|].
  cbn [fmap list_fmap fst snd add_members].
  assert (k ∈ ring) as Hk by (apply (Hm (k, name)); by left).
  pose proof (shares_step _ _ _ _ (Grant (dw_bytes draws i) k name owner) _ (fp_ring _ _ _ Hfresh) Hser (conj Hk Ho) Hs) as Hstep.
  cbn [run_member] in Hstep.
  assert (∃ b access1, MultiEncryptedSecureData.add (dw_bytes draws i) (PrivateEncryptKey.as_public_key k) name owner access
    = (Ok b, access1)) as (b & access1 & E).
  { unfold MultiEncryptedSecureData.add, st_mk. destruct (msd_members access !! _) as [a|] eqn:Ea; [|eauto].
    rewrite (shares_key _ _ _ _ Hs _ _ Ho Ea). cbn [mbind result_bind].
    destruct (member_opens (dw_bytes draws i) k shared bs (proj1 (fp_ring _ _ _ Hfresh) _ Hk) Hser) as (b & -> & _). eauto. }
  rewrite E in *. eapply IH; [|exact Hstep]. intros m Hin. apply Hm. by right.
Qed.

Hypothesis Hkeys : ∀ k : EncryptKey, is_Some (serialize Bincode k).
Hypothesis Hauths : ∀ a : Authorization, is_Some (serialize Bincode a).

Lemma new_ext_ok rnd_member rnd_iv owner shared meta (a : Authorization) : owner ∈ ring →
  ∃ m, MultiEncryptedSecureData.new_ext rnd_member rnd_iv (PrivateEncryptKey.as_public_key owner) shared meta a = Ok m.
Proof.
  intros Ho. destruct (Hkeys shared) as [bs Hser], (Hauths a) as [bs' Hser'].
  destruct (member_opens rnd_member owner shared bs (proj1 (fp_ring _ _ _ Hfresh) _ Ho) Hser) as (m & Hm & _).
  unfold MultiEncryptedSecureData.new_ext. rewrite Hm. cbn [mbind result_bind]. unfold to_bytes. rewrite Hser'.
  cbn. by eexists.
Qed.

Lemma make_role_ok i purpose :
  ∃ r, make_role svc draws group identity key_size (PrivateEncryptKey.as_public_key nominal)
         (PrivateEncryptKey.as_public_key sudo) i purpose = Ok r.
Proof.
  pose proof (openers_ring purpose) as Hsub.
  assert (role_pair Owner ∈ ring) as Ho by (apply Hsub; by left).
  unfold make_role. rewrite role_members_pairs.
  match goal with |- context [MultiEncryptedSecureData.new_ext ?r1 ?r2 _ ?k ?n ?a] =>
    destruct (new_ext_ok r1 r2 (role_pair Owner) k n a Ho) as [m Hm] end.
  unfold role_pair in Hm. rewrite Hm. cbn [mbind result_bind].
  destruct (new_ext_shares ring (role_pair Owner) _ _ _ _ _ _ (fp_ring _ _ _ Hfresh) Ho Hm) as ([bs Hser] & Hs & _).
  destruct (add_members_ok _ bs (member_pairs purpose) (role_pair Owner) Hser Ho) with (i := (3 + i)%nat) (access := m)
    (s := {[PrivateEncryptKey.hash (role_pair Owner)]} : gset AteHash) as [access' E]; [|done|].
  { intros x Hx. apply Hsub. right. by apply list_elem_of_fmap_2. }
  unfold role_pair in E. rewrite E. cbn. by eexists.
Qed.

Lemma make_roles_ok ps : ∀ i,
  ∃ roles, make_roles svc draws group identity key_size (PrivateEncryptKey.as_public_key nominal)
             (PrivateEncryptKey.as_public_key sudo) i ps = Ok roles.
Proof.
  induction ps as [|p ps IH]; intros i; [by exists []|]. cbn [make_roles].
  destruct (make_role_ok i p) as [r ->], (IH (5 + i)%nat) as [roles Hr]. cbn [mbind result_bind].
  rewrite Hr. cbn. by eexists.
Qed.

Lemma make_roles_spec i ps roles :
  make_roles svc draws group identity key_size (PrivateEncryptKey.as_public_key nominal)
    (PrivateEncryptKey.as_public_key sudo) i ps = Ok roles →
  ro_purpose <$> roles = ps
  ∧ (∀ r k, r ∈ roles → k ∈ ring →
      MultiEncryptedSecureData.unwrap (ro_access r) k
      = Ok (if decide (k ∈ role_openers (ro_purpose r)) then Some (keys (ro_purpose r)) else None))
  ∧ (NoDup ps → ∀ r, r ∈ roles →
      MultiEncryptedSecureData.unwrap_shared (ro_access r)
        (access_key svc draws group key_size (first_draw i ps (ro_purpose r)) (ro_purpose r))
      = Ok (Some (keys (ro_purpose r)))).
Proof.
  revert i roles. induction ps as [|p ps IH]; intros i roles.
  { cbn. intros [= <-]. split; [done|]. split; [intros r k []%elem_of_nil|intros _ r []%elem_of_nil]. }
  cbn [make_roles]. intros (r & Hr & (rs & (Hp & Hb & Hsh)%IH & [= <-])%bind_Ok_inv)%bind_Ok_inv.
  assert (role_pair Owner ∈ ring) as Ho by (apply (openers_ring Owner); by left).
  destruct (make_role_box _ _ _ _ Hr Ho) as (Er & _ & Es).
  split; [|split].
  - cbn. by f_equal.
  - intros r' k [->|Hr']%elem_of_cons Hk; [|by apply Hb].
    destruct (make_role_box _ _ _ _ Hr Hk) as (_ & E & _). by rewrite Er.
  - intros [Hn Hnd]%NoDup_cons r' [->|Hr']%elem_of_cons; cbn [first_draw].
    + by rewrite Er, decide_True.
    + rewrite decide_False; [by apply Hsh|]. intros E. apply Hn. rewrite <- Hp, <- E. by apply list_elem_of_fmap_2.
Qed.
End boxes.

(** ** Who gains what *)

Section gains.
Variables (g : Group) (inner : AteSessionInner) (ring : list PrivateEncryptKey).
Abbreviation session := (se_private_read_keys AllKeys inner).
Hypothesis Hfresh : fresh_pairs session (gp_broker_read g) ring.
Hypothesis Hmade : make_roles svc draws group identity key_size (PrivateEncryptKey.as_public_key nominal)
  (PrivateEncryptKey.as_public_key sudo) 9 group_purposes = Ok (gp_roles g).

(** The keys that are read with.  A box that is sealed with another key stays closed; the session
    has none of the keys that are drawn for boxes; and no key of a role is the one of a box. *)
Record sealed_boxes : Prop := {
  sb_wrong r k : r ∈ gp_roles g →
    k ∈ se_read_keys AllKeys inner ∨ (∃ p, p ∈ group_purposes ∧ k = au_read (keys p)) →
    k ≠ box_key (ro_purpose r) →
    MultiEncryptedSecureData.unwrap_shared (T := Authorization) (ro_access r) k = Ok None;
  sb_drawn p : p ∈ group_purposes → p ≠ WebServer → p ≠ EdgeCompute → box_key p ∉ se_read_keys AllKeys inner;
  sb_roles p q : p ∈ group_purposes → q ∈ group_purposes → au_read (keys p) ≠ box_key q;
}.
Hypothesis Hsealed : sealed_boxes.

Definition granted r : Authorization := keys (ro_purpose r).

Definition entitled purpose : bool :=
  rights (bool_decide (nominal ∈ session)) (bool_decide (sudo ∈ session))
    (bool_decide (box_key WebServer ∈ se_read_keys AllKeys inner))
    (bool_decide (box_key EdgeCompute ∈ se_read_keys AllKeys inner)) purpose.

Lemma made_purpose r : r ∈ gp_roles g → ro_purpose r ∈ group_purposes.
Proof. intros Hr. destruct (make_roles_spec _ _ _ Hfresh _ _ _ Hmade) as (<- & _). by apply list_elem_of_fmap_2. Qed.

Lemma made_role purpose : purpose ∈ group_purposes → ∃ r, r ∈ gp_roles g ∧ ro_purpose r = purpose.
Proof.
  destruct (make_roles_spec _ _ _ Hfresh _ _ _ Hmade) as (<- & _).
  intros (r & -> & Hr)%list_elem_of_fmap. by exists r.
Qed.

Lemma start_private k : k ∈ se_private_read_keys AllKeys (group_session g inner) ↔ k ∈ session ∨ k = gp_broker_read g.
Proof. rewrite group_private_keys. cbn. set_solver. Qed.

Lemma start_shared k : k ∈ se_read_keys AllKeys (group_session g inner) ↔ k ∈ se_read_keys AllKeys inner.
Proof. rewrite group_shared_keys. cbn. set_solver. Qed.

Lemma opens_iff r k : r ∈ gp_roles g → k ∈ ring →
  opens_private granted r k ↔ k ∈ role_openers (ro_purpose r).
Proof.
  intros Hr Hk. unfold opens_private, granted.
  rewrite (proj1 (proj2 (make_roles_spec _ _ _ Hfresh _ _ _ Hmade)) r k Hr Hk). by case_decide.
Qed.

Lemma ring_private k : private_ring g inner granted k → k ∈ ring.
Proof.
  intros [[Hk| ->]%start_private|(r & Hr & ->)]; [apply (fp_all _ _ _ Hfresh); set_solver..|].
  by eapply role_pair_ring, made_purpose.
Qed.

Lemma box_opens r : r ∈ gp_roles g → opens_shared granted r (box_key (ro_purpose r)).
Proof.
  intros Hr. apply (proj2 (proj2 (make_roles_spec _ _ _ Hfresh _ _ _ Hmade))); [|done].
  apply (bool_decide_unpack _). by vm_compute.
Qed.

Lemma wrong_key_closed r k : r ∈ gp_roles g → shared_ring g inner granted k → k ≠ box_key (ro_purpose r) →
  MultiEncryptedSecureData.unwrap_shared (T := Authorization) (ro_access r) k = Ok None.
Proof.
  intros Hr Hk. apply (sb_wrong Hsealed); [done|]. destruct Hk as [Hk%start_shared|(r' & Hr' & ->)]; [by left|right].
  exists (ro_purpose r'). split; [by apply made_purpose|done].
Qed.

Lemma opens_shared_iff r k : r ∈ gp_roles g → shared_ring g inner granted k →
  opens_shared granted r k ↔ k = box_key (ro_purpose r).
Proof.
  intros Hr Hk. split; [|intros ->; by apply box_opens].
  intros Ho. destruct (decide (k = box_key (ro_purpose r))) as [|Hne]; [done|].
  unfold opens_shared in Ho. by rewrite (wrong_key_closed r k Hr Hk Hne) in Ho.
Qed.

Lemma made_sound : sound_boxes g inner granted.
Proof.
  split; intros r k Hr Hk.
  2:{ destruct (decide (k = box_key (ro_purpose r))) as [->|Hne]; [right; by apply box_opens|left; by apply wrong_key_closed]. }
  apply ring_private in Hk.
  rewrite (proj1 (proj2 (make_roles_spec _ _ _ Hfresh _ _ _ Hmade)) r k Hr Hk).
  destruct (decide (k ∈ role_openers (ro_purpose r))); [right; by apply opens_iff|by left].
Qed.

(** The pairs of different roles are different, and none is one of the user's or the broker's. *)
Lemma role_pair_inj p q : p ∈ group_purposes → q ∈ group_purposes → role_pair p = role_pair q → p = q.
Proof.
  intros Hp Hq E. pose proof (fp_distinct _ _ _ Hfresh) as Hd.
  do 3 apply NoDup_cons in Hd as [_ Hd].
  apply list_elem_of_lookup in Hp as [i Hi], Hq as [j Hj].
  assert (i = j) as ->; [|congruence].
  eapply (NoDup_lookup _ _ _ (role_pair p) Hd); rewrite list_lookup_fmap;
    [by rewrite Hi|rewrite Hj; cbn; by rewrite E].
Qed.

Lemma role_pair_new p : p ∈ group_purposes →
  role_pair p ≠ nominal ∧ role_pair p ≠ sudo ∧ role_pair p ∉ session ∧ role_pair p ≠ gp_broker_read g.
Proof.
  intros Hp%(list_elem_of_fmap_2 role_pair). pose proof (fp_distinct _ _ _ Hfresh) as Hd.
  apply NoDup_cons in Hd as [Hn Hd]. apply NoDup_cons in Hd as [Hs Hd]. apply NoDup_cons in Hd as [Hb _].
  repeat split; try (intros E; rewrite E in Hp; set_solver).
  intros Hk%(fp_session _ _ _ Hfresh). set_solver.
Qed.

Lemma opens_ring r k : r ∈ gp_roles g → k ∈ ring → k ∈ role_openers (ro_purpose r) → opens_private granted r k.
Proof. intros Hr Hk Ho. by apply opens_iff. Qed.

Lemma opened_by_role r p : r ∈ gp_roles g → p ∈ group_purposes → role_pair p ∈ role_openers (ro_purpose r) →
  ∀ r', gained g inner granted r' → ro_purpose r' = p → gained g inner granted r.
Proof.
  intros Hr Hp Ho r' Hg <-. eapply (gained_by_role _ _ _ r r'); [done..|]. left.
  apply opens_ring; [done|by eapply role_pair_ring|done].
Qed.

Lemma opened_at_once r k : r ∈ gp_roles g → k ∈ session → k ∈ role_openers (ro_purpose r) → gained g inner granted r.
Proof.
  intros Hr Hk Ho. apply gained_at_once; [done|]. left. exists k. split; [apply start_private; by left|].
  apply opens_ring; [done|apply (fp_all _ _ _ Hfresh); set_solver|done].
Qed.

Lemma entitled_iff p : entitled p = true ↔
  sudo ∈ session ∨ (nominal ∈ session ∧ p ≠ Owner ∧ p ≠ Finance)
  ∨ (box_key p ∈ se_read_keys AllKeys inner ∧ (p = WebServer ∨ p = EdgeCompute)).
Proof.
  unfold entitled, rights. rewrite !orb_true_iff, !andb_true_iff, !bool_decide_eq_true.
  destruct p; naive_solver.
Qed.

(** What the pairs of the user and the derived keys lead to. *)
Lemma entitled_gains r : r ∈ gp_roles g → entitled (ro_purpose r) = true → gained g inner granted r.
Proof.
  intros Hr [Hs|[(Hn & Hno & Hnf)|[Hk _]]]%entitled_iff; pose proof (made_purpose r Hr) as Hp.
  - destruct (made_role Owner) as (o & Ho & Ep); [unfold group_purposes; clear; set_solver|].
    assert (gained g inner granted o) as Hg by (apply (opened_at_once o sudo); [done..|rewrite Ep; unfold role_openers; cbn; clear; set_solver]).
    eapply (opened_by_role r Owner); [done|unfold group_purposes; clear; set_solver|by left|exact Hg|done].
  - destruct (made_role Delegate) as (d & Hd & Ep); [unfold group_purposes; clear; set_solver|].
    assert (gained g inner granted d) as Hg by (apply (opened_at_once d nominal); [done..|rewrite Ep; unfold role_openers; cbn; clear; set_solver]).
    destruct (decide (ro_purpose r = Delegate)) as [E|Hne].
    { apply (opened_at_once r nominal); [done..|rewrite E; unfold role_openers; cbn; clear; set_solver]. }
    eapply (opened_by_role r Delegate); [done|unfold group_purposes; clear; set_solver| |exact Hg|done].
    unfold role_openers. destruct (ro_purpose r); try done; cbn; clear; set_solver.
  - apply gained_at_once; [done|]. right. exists (box_key (ro_purpose r)).
    split; [by apply start_shared|by apply box_opens].
Qed.

Lemma openers_entitled k p : k ∈ session → k ∈ role_openers p → entitled p = true.
Proof.
  intros Hk Ho. apply entitled_iff. unfold role_openers in Ho.
  assert (∀ q, q ∈ group_purposes → k ≠ role_pair q) as Hn
    by (intros q Hq ->; by destruct (role_pair_new q Hq) as (_ & _ & ? & _)).
  assert (k ≠ role_pair Owner ∧ k ≠ role_pair Delegate ∧ k ≠ role_pair Contributor) as (? & ? & ?)
    by (repeat split; apply Hn; unfold group_purposes; clear; set_solver).
  destruct p; cbn in Ho; set_unfold in Ho; destruct_or? Ho; try done; subst k; auto.
Qed.

(** A key of a role opens roles that whoever gains the first is entitled to: those of the owner and
    of the delegates open all that is below them, those of the contributors two, the others none. *)
Lemma role_opens_entitled p q : p ∈ group_purposes → role_pair p ∈ role_openers q →
  entitled p = true → entitled q = true.
Proof.
  intros Hp Ho He. destruct (role_pair_new p Hp) as (Hn & Hs & _ & _).
  assert (∀ p', p' ∈ group_purposes → role_pair p = role_pair p' → p = p') as Hinj by (intros; by apply role_pair_inj).
  assert (p = Owner ∨ (p = Delegate ∨ p = Contributor) ∧ q ≠ Owner ∧ q ≠ Finance) as Hpq.
  { assert (Owner ∈ group_purposes ∧ Delegate ∈ group_purposes ∧ Contributor ∈ group_purposes) as (Ho' & Hd' & Hc')
      by (unfold group_purposes; clear; set_solver).
    unfold role_openers in Ho. destruct q; cbn in Ho; set_unfold in Ho; destruct_or? Ho; try done;
      (assert (p = Owner ∨ p = Delegate ∨ p = Contributor) by eauto 6); naive_solver. }
  apply entitled_iff in He. apply entitled_iff. naive_solver.
Qed.

Lemma broker_opens_nothing p : gp_broker_read g ∉ role_openers p.
Proof.
  intros Ho. pose proof (fp_distinct _ _ _ Hfresh) as Hd.
  apply NoDup_cons in Hd as [Hn Hd]. apply NoDup_cons in Hd as [Hs Hd]. apply NoDup_cons in Hd as [Hb _].
  assert (∀ q, q ∈ group_purposes → gp_broker_read g ≠ role_pair q) as Hq
    by (intros q Hq E; apply Hb; rewrite E; by apply list_elem_of_fmap_2).
  assert (gp_broker_read g ≠ role_pair Owner ∧ gp_broker_read g ≠ role_pair Delegate
    ∧ gp_broker_read g ≠ role_pair Contributor) as (? & ? & ?)
    by (repeat split; apply Hq; unfold group_purposes; clear; set_solver).
  assert (gp_broker_read g ≠ nominal ∧ gp_broker_read g ≠ sudo) as [? ?]
    by (split; intros E; [apply Hn|apply Hs]; rewrite <- E; set_solver).
  unfold role_openers in Ho. destruct p; cbn in Ho; set_unfold in Ho; destruct_or? Ho; done.
Qed.

(** A key that is read with and opens a box is one of the derived ones, and the session had it. *)
Lemma shared_entitled r k : r ∈ gp_roles g → k ∈ se_read_keys AllKeys inner → opens_shared granted r k →
  entitled (ro_purpose r) = true.
Proof.
  intros Hr Hk Ho. pose proof (made_purpose r Hr) as Hp.
  apply opens_shared_iff in Ho as ->; [|done|left; by apply start_shared].
  apply entitled_iff. do 2 right. split; [done|].
  destruct (decide (ro_purpose r = WebServer)) as [|Hw]; [by left|].
  destruct (decide (ro_purpose r = EdgeCompute)) as [|He]; [by right|]. by destruct (sb_drawn Hsealed _ Hp Hw He).
Qed.

Lemma role_key_opens_nothing r r' : r ∈ gp_roles g → r' ∈ gp_roles g → ¬ opens_shared granted r (au_read (granted r')).
Proof.
  intros Hr Hr' Ho. apply opens_shared_iff in Ho; [|done|right; by exists r'].
  exact (sb_roles Hsealed _ _ (made_purpose r' Hr') (made_purpose r Hr) Ho).
Qed.

Lemma gained_entitled : ∀ r, gained g inner granted r → r ∈ gp_roles g ∧ entitled (ro_purpose r) = true.
Proof.
  induction 1 as [r Hr Ho|r r' Hr Hg [Hr' IH] Ho]; (split; [done|]).
  - destruct Ho as [(k & Hk & Ho)|(k & Hk%start_shared & Ho)]; [|by eapply shared_entitled].
    apply opens_iff in Ho; [|done|apply ring_private; by left].
    apply start_private in Hk as [Hk| ->]; [by eapply openers_entitled|by apply broker_opens_nothing in Ho].
  - destruct Ho as [Ho|Ho]; [|by apply role_key_opens_nothing in Ho].
    apply opens_iff in Ho; [|done|apply ring_private; right; by exists r'].
    eapply role_opens_entitled; [|exact Ho|done]. by apply made_purpose.
Qed.

Lemma made_group_gains :
  ∃ s, complete_group_auth g inner = Ok s
    ∧ (∀ p, p ∈ AteGroup.properties (sg_group s)
            ↔ ∃ purpose, purpose ∈ group_purposes ∧ entitled purpose = true
                ∧ p ∈ auth_properties (gp_gid g) (keys purpose))
    ∧ sg_inner s = inner.
Proof.
  destruct (complete_group_auth_spec g inner granted made_sound) as (s & E & Hp & Hi & _).
  exists s. split; [done|]. split; [|done]. intros p. rewrite Hp. split.
  - intros (r & [Hr He]%gained_entitled & Hin). exists (ro_purpose r). split; [by apply made_purpose|done].
  - intros (purpose & Hpu & He & Hin). destruct (made_role purpose Hpu) as (r & Hr & <-).
    exists r. split; [by apply entitled_gains|done].
Qed.
End gains.
End rights.

(** C18. Who makes a group has the rights in it that the roles are meant to give.  The roles are made
    without an error.  A session that brings the sudo key of the maker gains all seven roles; one
    that brings the nominal key gains all but the owner's and the one of finance; one that brings
    the key which the service derives for the web servers, or for the edge nodes, of the group gains
    that role; and a session gains nothing else.  What it gains is the keys of exactly these roles and
    the number of the group, in whatever order the keys open the boxes.  It is assumed that drawn
    keys are new, and that no key opens by chance a box that is sealed with another. *)
Theorem created_group_rights `{CryptoPrims} `{KemPrims} `{!Serde EncryptKey} `{!Serde Authorization}
  (svc : AuthService) (draws : Draws) (group identity : string) (key_size : KeySize)
  (nominal sudo : PrivateEncryptKey) (inner : AteSessionInner) (ring : list PrivateEncryptKey) (g : Group)
  (Hfresh : fresh_pairs svc draws group key_size nominal sudo (se_private_read_keys AllKeys inner)
              (gp_broker_read g) ring)
  (Hkeys : ∀ k : EncryptKey, is_Some (serialize Bincode k))
  (Hauths : ∀ a : Authorization, is_Some (serialize Bincode a)) :
  let web := AuthService.compute_web_key_from_hash svc (hash_of_text ("web-read:" +:+ group)) in
  let edge := AuthService.compute_edge_key_from_hash svc (hash_of_text ("edge-read:" +:+ group)) in
  ∃ roles, make_roles svc draws group identity key_size (PrivateEncryptKey.as_public_key nominal)
             (PrivateEncryptKey.as_public_key sudo) 9 group_purposes = Ok roles
    ∧ (sealed_boxes svc draws group key_size (with_roles g roles) inner →
       ∃ s, complete_group_auth (with_roles g roles) inner = Ok s
         ∧ (∀ p, p ∈ AteGroup.properties (sg_group s)
                 ↔ ∃ purpose, purpose ∈ group_purposes
                     ∧ rights (bool_decide (nominal ∈ se_private_read_keys AllKeys inner))
                         (bool_decide (sudo ∈ se_private_read_keys AllKeys inner))
                         (bool_decide (web ∈ se_read_keys AllKeys inner))
                         (bool_decide (edge ∈ se_read_keys AllKeys inner)) purpose = true
                     ∧ p ∈ auth_properties (gp_gid g) (role_keys svc draws group key_size purpose))
         ∧ sg_inner s = inner).
Proof.
  intros web edge.
  destruct (make_roles_ok svc draws group identity key_size nominal sudo _ _ ring Hfresh Hkeys Hauths
    group_purposes 9) as [roles Hr].
  exists roles. split; [done|]. intros Hc. by apply (made_group_gains _ _ _ identity _ _ _ (with_roles g roles) inner ring).
Qed.
