(* ===== verification/AuthSamples.v ===== *)
(** * Groups on concrete inputs

    A digest of the end of what it reads, keys as bytes, and a group that is made. *)

From S2P Require Import Prelude LogApi Crypto Codec Secure Meta Time Event Index Signature Tree Session Compact Plugins LogFile MemDb RedoLog Chain ChainSpec Pipe Dio Mesh Trans AuthModel AuthService AuthUsers AuthGroups AuthRoles AuthRights.

(** ** Keys as bytes *)

Module ToyKeys.
(** The digest is the end of the input, and the end of the key stream is the key. *)
#[export] Program Instance ending : CryptoPrims := {
  blake3 bs := fit 32 (reverse bs);
  keccak384 bs := fit 48 (reverse bs);
  aes_ctr k iv n := reverse (fit n (k ++ iv));
  falcon_pair _ pk sk := pk = sk;
  falcon_sign _ sk data := Some (sk ++ data);
  falcon_verify _ pk data sig := Some (bool_decide (sig = pk ++ data));
}.
Next Obligation. intros. apply fit_length. Qed.
Next Obligation. intros. apply fit_length. Qed.
Next Obligation. intros. etrans; [apply length_reverse|apply fit_length]. Qed.
Next Obligation.
  intros l pk sk data ->. eexists. split; [done|]. by rewrite bool_decide_eq_true_2.
Qed.

#[export] Existing Instance toy_kem.
#[export] Existing Instance toy_serde_key.

(** Bytes up to a mark. *)
Fixpoint marked (bs : bytes) : bytes :=
  match bs with [] => [x00] | b :: bs => x01 :: b :: marked bs end.

Fixpoint unmarked (bs : bytes) : option (bytes * bytes) :=
  match bs with
  | x00 :: rest => Some ([], rest)
  | x01 :: b :: rest => match unmarked rest with Some (l, r) => Some (b :: l, r) | None => None end
  | _ => None
  end.

Lemma unmarked_marked bs rest : unmarked (marked bs ++ rest) = Some (bs, rest).
Proof. induction bs as [|b bs IH]; [done|]. cbn. by rewrite IH. Qed.

Definition size_byte (s : KeySize) : byte := match s with Bit128 => x00 | Bit192 => x01 | Bit256 => x02 end.

Definition ntru_bytes (k : PrivateEncryptKey) : bytes :=
  let pub := PrivateEncryptKey.as_public_key k in
  size_byte (PrivateEncryptKey.size k) :: size_byte (PublicEncryptKey.size pub)
  :: marked (PublicEncryptKey.pk pub) ++ marked (PrivateEncryptKey.sk k).

Definition falcon_bytes (k : PrivateSignKey) : bytes :=
  let pub := PrivateSignKey.as_public_key k in
  (match k with PrivateFalcon512 _ _ => x00 | _ => x01 end)
  :: (match pub with PublicFalcon512 _ => x00 | _ => x01 end)
  :: marked (PublicSignKey.pk pub) ++ marked (PrivateSignKey.sk k).

Definition two_marked (bs : bytes) : option (bytes * bytes * bytes) :=
  match unmarked bs with
  | Some (a, bs) => match unmarked bs with Some (b, bs) => Some (a, b, bs) | None => None end
  | None => None
  end.

Definition bytes_ntru (bs : bytes) : option (PrivateEncryptKey * bytes) :=
  match bs with
  | s :: p :: bs =>
      match two_marked bs with
      | Some (pk, sk, bs) =>
          let pub := match p with x00 => PublicNtru128 pk | x01 => PublicNtru192 pk | _ => PublicNtru256 pk end in
          Some (match s with x00 => PrivateNtru128 pub sk | x01 => PrivateNtru192 pub sk
                | _ => PrivateNtru256 pub sk end, bs)
      | None => None
      end
  | _ => None
  end.

Definition bytes_falcon (bs : bytes) : option (PrivateSignKey * bytes) :=
  match bs with
  | s :: p :: bs =>
      match two_marked bs with
      | Some (pk, sk, bs) =>
          let pub := match p with x00 => PublicFalcon512 pk | _ => PublicFalcon1024 pk end in
          Some (match s with x00 => PrivateFalcon512 pub sk | _ => PrivateFalcon1024 pub sk end, bs)
      | None => None
      end
  | _ => None
  end.

Lemma two_marked_marked a b rest : two_marked ((marked a ++ marked b) ++ rest) = Some (a, b, rest).
Proof. unfold two_marked. by rewrite <- app_assoc, !unmarked_marked. Qed.

Lemma bytes_ntru_bytes k rest : bytes_ntru (ntru_bytes k ++ rest) = Some (k, rest).
Proof.
  unfold ntru_bytes, bytes_ntru. cbn [app]. rewrite two_marked_marked.
  destruct k as [[] ?|[] ?|[] ?]; reflexivity.
Qed.

Lemma bytes_falcon_bytes k rest : bytes_falcon (falcon_bytes k ++ rest) = Some (k, rest).
Proof.
  unfold falcon_bytes, bytes_falcon. cbn [app]. rewrite two_marked_marked. destruct k as [[] ?|[] ?]; reflexivity.
Qed.

Definition authorization_bytes (a : Authorization) : bytes :=
  marked (toy_key_bytes (au_read a)) ++ ntru_bytes (au_private_read a) ++ falcon_bytes (au_write a).

Definition bytes_authorization (bs : bytes) : option Authorization :=
  match unmarked bs with
  | Some (k, bs) =>
      match toy_bytes_key k, bytes_ntru bs with
      | Some read, Some (private_read, bs) =>
          match bytes_falcon bs with
          | Some (write, _) =>
              Some {| au_read := read; au_private_read := private_read; au_write := write |}
          | None => None
          end
      | _, _ => None
      end
  | None => None
  end.

#[export] Program Instance toy_serde_authorization : Serde Authorization := {
  serialize _ a := Some (authorization_bytes a);
  deserialize _ bs := bytes_authorization bs;
}.
Next Obligation.
  intros [r p w] bs [= <-]. unfold authorization_bytes, bytes_authorization. cbn [au_read au_private_read au_write].
  rewrite unmarked_marked, bytes_ntru_bytes, <- (app_nil_r (falcon_bytes w)), bytes_falcon_bytes.
  by destruct r.
Qed.
End ToyKeys.
Import ToyKeys.

(** ** A group that is made *)

Definition number_byte (n : nat) : byte := byte_of_Z (Z.of_nat n).

Definition sample_draws : Draws :=
  {| dw_bytes i := [number_byte (100 + i)]; dw_kem i := ([number_byte i], [number_byte i]);
     dw_sign i := (([number_byte i], [number_byte i]), ([number_byte i], [number_byte i]));
     dw_u64 i := Z.of_nat i |}.

Definition sample_master : AteSessionUser :=
  AteSessionUser.add_user_write_key (PrivateFalcon512 (PublicFalcon512 [x63]) [x63])
    (AteSessionUser.add_user_read_key (toy_key x63) AteSessionUser.new).

Definition sample_service : AuthService :=
  {| sv_auth_url := "auth"; sv_master_session := sample_master; sv_web_key := toy_key x60;
     sv_edge_key := toy_key x61; sv_contract_key := toy_key x62;
     sv_time_keeper := {| tk_tolerance := 0; tk_ntp_worker := None |}; sv_terms_and_conditions := None |}.

Definition sample_nominal : PrivateEncryptKey := PrivateEncryptKey.generate ([x40], [x40]) Bit128.
Definition sample_sudo : PrivateEncryptKey := PrivateEncryptKey.generate ([x41], [x41]) Bit128.

(** A user without sudo. *)
Definition sample_inner : AteSessionInner :=
  InnerUser (AteSessionUser.add_user_private_read_key sample_nominal
               (AteSessionUser.add_user_read_key (toy_key x50) AteSessionUser.new)).

Definition sample_group : Group :=
  {| gp_name := "team"; gp_gid := 7; gp_roles := []; gp_foreign := DaoForeign.new;
     gp_broker_read := PrivateEncryptKey.generate ([x42], [x42]) Bit128;
     gp_broker_write := PrivateFalcon512 (PublicFalcon512 [x42]) [x42] |}.

Definition sample_ring : list PrivateEncryptKey :=
  sample_nominal :: sample_sudo :: gp_broker_read sample_group
  :: (role_pair sample_service sample_draws "team" Bit128 <$> group_purposes).

Definition sample_roles : result SecureError (list Role) :=
  make_roles sample_service sample_draws "team" "me@here" Bit128
    (PrivateEncryptKey.as_public_key sample_nominal) (PrivateEncryptKey.as_public_key sample_sudo) 9
    group_purposes.

Abbreviation sample_box_key := (box_key sample_service sample_draws "team" Bit128).
Abbreviation sample_read_key := (λ p, au_read (role_keys sample_service sample_draws "team" Bit128 p)).

(** A key opens the box of a role or leaves it closed. *)
Definition opens_or_closed (r : Role) (k : EncryptKey) : bool :=
  bool_decide (k = sample_box_key (ro_purpose r))
  || match MultiEncryptedSecureData.unwrap_shared (T := Authorization) (ro_access r) k with
     | Ok None => true
     | _ => false
     end.

Lemma sample_boxes roles r k : sample_roles = Ok roles → r ∈ roles →
  k ∈ toy_key x50 :: (sample_read_key <$> group_purposes) → opens_or_closed r k = true.
Proof.
  assert (match sample_roles with
          | Ok roles => forallb (λ r, forallb (opens_or_closed r) (toy_key x50 :: (sample_read_key <$> group_purposes))) roles
          | Err _ => true
          end = true) as Hall by by vm_compute.
  intros E Hr Hk. rewrite E, forallb_forall in Hall. apply list_elem_of_In in Hr, Hk.
  specialize (Hall r Hr). rewrite forallb_forall in Hall. by apply Hall.
Qed.

Lemma sample_sealed roles : sample_roles = Ok roles →
  sealed_boxes sample_service sample_draws "team" Bit128 (with_roles sample_group roles) sample_inner.
Proof.
  intros E. split.
  - intros r k Hr Hk Hne.
    assert (opens_or_closed r k = true) as Hc.
    { apply (sample_boxes roles); [done..|]. destruct Hk as [Hk|(p & Hp & ->)]; [|right; apply list_elem_of_fmap; by exists p].
      cbn in Hk. apply list_elem_of_singleton in Hk as ->. by left. }
    unfold opens_or_closed in Hc. rewrite bool_decide_false in Hc by done. by repeat case_match.
  - intros p Hp _ _ Hk. cbn in Hk. apply list_elem_of_singleton in Hk.
    assert (Forall (λ p, sample_box_key p ≠ toy_key x50) group_purposes) as Hall
      by (apply (bool_decide_unpack _); by vm_compute).
    rewrite Forall_forall in Hall. exact (Hall p Hp Hk).
  - intros p q Hp Hq.
    assert (Forall (λ p, Forall (λ q, sample_read_key p ≠ sample_box_key q) group_purposes) group_purposes) as Hall
      by (apply (bool_decide_unpack _); by vm_compute).
    rewrite Forall_forall in Hall. specialize (Hall p Hp). rewrite Forall_forall in Hall. by apply Hall.
Qed.

Lemma sample_fresh : fresh_pairs sample_service sample_draws "team" Bit128 sample_nominal sample_sudo
  (se_private_read_keys AllKeys sample_inner) (gp_broker_read sample_group) sample_ring.
Proof.
  split.
  - split.
    + assert (Forall PrivateEncryptKey.generated sample_ring) as Hall by (repeat constructor).
      by apply Forall_forall.
    + intros k k' Hk Hk' Hh. assert (NoDup (PrivateEncryptKey.hash <$> sample_ring)) as Hnd
        by (apply (bool_decide_unpack _); by vm_compute).
      apply list_elem_of_lookup in Hk as [i Hi], Hk' as [j Hj].
      assert (i = j) as ->; [|congruence].
      eapply (NoDup_lookup _ _ _ (PrivateEncryptKey.hash k) Hnd); rewrite list_lookup_fmap;
        [by rewrite Hi|rewrite Hj; cbn; by rewrite Hh].
  - unfold sample_ring. intros k [Hk|Hk]%elem_of_app; [|done].
    cbn in Hk. apply list_elem_of_singleton in Hk as ->. by left.
  - apply (bool_decide_unpack _). by vm_compute.
  - intros k Hk. cbn in Hk. apply list_elem_of_singleton in Hk as ->.
    apply (bool_decide_unpack _). by vm_compute.
Qed.

(** The user without sudo is a delegate of the group, and not an owner. *)
Lemma created_group_rights_witness : ∃ roles s,
  sample_roles = Ok roles ∧ complete_group_auth (with_roles sample_group roles) sample_inner = Ok s
  ∧ ReadKey (au_read (role_keys sample_service sample_draws "team" Bit128 Delegate))
    ∈ AteGroup.properties (sg_group s)
  ∧ ReadKey (au_read (role_keys sample_service sample_draws "team" Bit128 Owner))
    ∉ AteGroup.properties (sg_group s).
Proof.
  destruct (created_group_rights sample_service sample_draws "team" "me@here" Bit128 sample_nominal sample_sudo
    sample_inner sample_ring sample_group sample_fresh) as (roles & Hr & Hs); [by eexists|by eexists|].
  destruct (Hs (sample_sealed roles Hr)) as (s & E & Hp & _).
  exists roles, s. split; [done|]. split; [done|]. rewrite !Hp. split.
  - exists Delegate. split; [unfold group_purposes; set_solver|]. split; [by vm_compute|by left].
  - intros (purpose & Hpu & Hri & Hin).
    assert (Forall (λ p, bool_decide (p = Owner) || negb (bool_decide (au_read (role_keys sample_service sample_draws "team" Bit128 p)
      = au_read (role_keys sample_service sample_draws "team" Bit128 Owner)))) group_purposes) as Hd
      by (repeat constructor).
    rewrite Forall_forall in Hd. specialize (Hd purpose Hpu).
    destruct (decide (purpose = Owner)) as [->|Hne]; [by vm_compute in Hri|].
    rewrite bool_decide_false in Hd by done. cbn in Hd.
    unfold auth_properties in Hin. set_unfold in Hin. destruct_or? Hin; try done. injection Hin as Hin.
    rewrite <- Hin in Hd. by rewrite bool_decide_true in Hd.
Defined.
