(* ===== verification/AuthUserSamples.v ===== *)
(** * Users on concrete inputs

    Users and second factors as records of the plain store, a login with a verification code and
    five wrong codes. *)

From S2P Require Import Prelude LogApi Crypto Codec Secure Meta Time Event Index Signature Tree Session Compact Plugins LogFile MemDb RedoLog Chain ChainSpec Pipe Dio Mesh Trans TransSpec FileModel RecordBytes AuthModel AuthService AuthUsers AuthUsersSpec AuthGroups AuthRoles AuthRights AuthSamples.

Import ToyKeys.

(** ** Users as records *)

Module ToyUsers.
Import RecordBytes.ToyRecords.

#[export] Instance EncryptKey_countable : Countable EncryptKey.
Proof.
  refine (inj_countable' (λ k, match k with Aes128 v => (0, v) | Aes192 v => (1, v) | Aes256 v => (2, v) end)
    (λ '(n, v), match n with 0 => Aes128 v | 1 => Aes192 v | _ => Aes256 v end) _).
  by intros [].
Defined.
#[export] Instance PublicEncryptKey_countable : Countable PublicEncryptKey.
Proof.
  refine (inj_countable' (λ k, match k with PublicNtru128 v => (0, v) | PublicNtru192 v => (1, v) | PublicNtru256 v => (2, v) end)
    (λ '(n, v), match n with 0 => PublicNtru128 v | 1 => PublicNtru192 v | _ => PublicNtru256 v end) _).
  by intros [].
Defined.
#[export] Instance PrivateEncryptKey_countable : Countable PrivateEncryptKey.
Proof.
  refine (inj_countable' (λ k, match k with PrivateNtru128 p v => (0, p, v) | PrivateNtru192 p v => (1, p, v)
                       | PrivateNtru256 p v => (2, p, v) end)
    (λ '(n, p, v), match n with 0 => PrivateNtru128 p v | 1 => PrivateNtru192 p v | _ => PrivateNtru256 p v end) _).
  by intros [].
Defined.
#[export] Instance PublicSignKey_countable : Countable PublicSignKey.
Proof.
  refine (inj_countable' (λ k, match k with PublicFalcon512 v => (0, v) | PublicFalcon1024 v => (1, v) end)
    (λ '(n, v), match n with 0 => PublicFalcon512 v | _ => PublicFalcon1024 v end) _).
  by intros [].
Defined.
#[export] Instance PrivateSignKey_eq_dec : EqDecision PrivateSignKey.
Proof. solve_decision. Defined.
#[export] Instance PrivateSignKey_countable : Countable PrivateSignKey.
Proof.
  refine (inj_countable' (λ k, match k with PrivateFalcon512 p v => (0, p, v) | PrivateFalcon1024 p v => (1, p, v) end)
    (λ '(n, p, v), match n with 0 => PrivateFalcon512 p v | _ => PrivateFalcon1024 p v end) _).
  by intros [].
Defined.

#[export] Instance Authorization_eq_dec : EqDecision Authorization.
Proof. solve_decision. Defined.
#[export] Instance Authorization_countable : Countable Authorization.
Proof.
  refine (inj_countable' (λ a, (au_read a, au_private_read a, au_write a))
    (λ '(r, p, w), {| au_read := r; au_private_read := p; au_write := w |}) _).
  by intros [].
Defined.

#[export] Instance DaoForeign_eq_dec : EqDecision DaoForeign.
Proof. solve_decision. Defined.
#[export] Instance DaoForeign_countable : Countable DaoForeign.
Proof.
  refine (inj_countable' df_map (λ m, {| df_map := m |}) _).
  by intros [].
Defined.
#[export] Instance DaoChild_eq_dec D : EqDecision (DaoChild D).
Proof. intros [v] [v']. destruct (decide (v = v')) as [->|Hne]; [by left|right; congruence]. Defined.
#[export] Instance DaoChild_countable D : Countable (DaoChild D).
Proof.
  refine (inj_countable' dc_vec_id (λ v, {| dc_vec_id := v |}) _).
  by intros [].
Defined.

#[export] Instance UserRole_eq_dec : EqDecision UserRole.
Proof. solve_decision. Defined.
#[export] Instance UserRole_countable : Countable UserRole.
Proof.
  refine (inj_countable' (λ r, match r with Human => true | Robot => false end) (λ b : bool, if b then Human else Robot) _).
  by intros [].
Defined.
#[export] Instance UserStatus_countable : Countable UserStatus.
Proof.
  refine (inj_countable' (λ s, match s with Nominal => (0, 0) | Unverified => (1, 0) | AccountLocked t => (2, t) end)
    (λ '(n, t), match n with 0 => Nominal | 1 => Unverified | _ => AccountLocked t end) _).
  by intros [].
Defined.

#[export] Instance User_eq_dec : EqDecision User.
Proof. solve_decision. Defined.
#[export] Instance User_countable : Countable User.
Proof.
  refine (inj_countable' (λ u, ((us_email u, us_person u, us_accepted_terms u, us_verification_code u, us_uid u, us_role u,
      us_status u), (us_last_login u, us_access u, us_foreign u, us_sudo u, us_advert u, us_recovery u),
      (us_nominal_read u, us_nominal_public_read u, us_nominal_write u, us_sudo_read u, us_sudo_public_read u,
       us_sudo_write u, us_broker_read u, us_broker_write u)))
    (λ '((a1, a2, a3, a4, a5, a6, a7), (b1, b2, b3, b4, b5, b6), (c1, c2, c3, c4, c5, c6, c7, c8)),
      {| us_email := a1; us_person := a2; us_accepted_terms := a3; us_verification_code := a4; us_uid := a5;
         us_role := a6; us_status := a7; us_last_login := b1; us_access := b2; us_foreign := b3; us_sudo := b4;
         us_advert := b5; us_recovery := b6; us_nominal_read := c1; us_nominal_public_read := c2;
         us_nominal_write := c3; us_sudo_read := c4; us_sudo_public_read := c5; us_sudo_write := c6;
         us_broker_read := c7; us_broker_write := c8 |}) _).
  by intros [].
Defined.

#[export] Instance Sudo_eq_dec : EqDecision Sudo.
Proof. solve_decision. Defined.
#[export] Instance Sudo_countable : Countable Sudo.
Proof.
  refine (inj_countable' (λ s, (sud_email s, sud_uid s, sud_google_auth s, sud_secret s, sud_qr_code s,
      sud_failed_attempts s, sud_contract_read_key s, sud_access s, sud_groups s))
    (λ '(a1, a2, a3, a4, a5, a6, a7, a8, a9),
      {| sud_email := a1; sud_uid := a2; sud_google_auth := a3; sud_secret := a4; sud_qr_code := a5;
         sud_failed_attempts := a6; sud_contract_read_key := a7; sud_access := a8; sud_groups := a9 |}) _).
  by intros [].
Defined.

(** A chain that anybody reads, chains by their names, and a second factor whose code is the secret. *)
#[export] Instance mem_sessions : SessionTrans MemStore MemTx := {| tr_dio _ b := b; tr_session_mut _ b := b |}.
#[export] Instance toy_registry : Registry (gmap string MemStore) MemStore :=
  {| reg_open k r := r !! ck_name k; reg_put k b r := <[ck_name k := b]> r |}.
#[export] Instance toy_authenticator : Authenticator :=
  {| verify_code secret code _ _ := bool_decide (secret = code); create_secret _ _ := "secret";
     render_qr s := Some s |}.
End ToyUsers.
Import RecordBytes.ToyRecords.
Import ToyUsers.

(** ** An account *)

Definition sample_email : string := "me@here.com".
Definition sample_user_key : PrimaryKey := key_of_text sample_email.
Definition sample_sudo_key : PrimaryKey := PrimaryKey.new 5.

Definition sample_authorization : Authorization := new_authorization sample_draws Bit128 1.

Definition sample_user (status : UserStatus) (code : option string) : User :=
  {| us_email := sample_email; us_person := DaoChild.new 1; us_accepted_terms := DaoChild.new 2;
     us_verification_code := code; us_uid := 1001; us_role := Human; us_status := status; us_last_login := None;
     us_access := [sample_authorization]; us_foreign := DaoForeign.new; us_sudo := DaoChild.new 3;
     us_advert := DaoChild.new 4; us_recovery := DaoChild.new 5;
     us_nominal_read := EncryptKey.hash (au_read sample_authorization);
     us_nominal_public_read := PrivateEncryptKey.as_public_key (au_private_read sample_authorization);
     us_nominal_write := PrivateSignKey.as_public_key (au_write sample_authorization);
     us_sudo_read := EncryptKey.hash (au_read sample_authorization);
     us_sudo_public_read := PrivateEncryptKey.as_public_key (au_private_read sample_authorization);
     us_sudo_write := PrivateSignKey.as_public_key (au_write sample_authorization);
     us_broker_read := au_private_read sample_authorization; us_broker_write := au_write sample_authorization |}.

Definition sample_sudo_record : Sudo :=
  {| sud_email := sample_email; sud_uid := 1001; sud_google_auth := "auth"; sud_secret := "123456";
     sud_qr_code := "qr"; sud_failed_attempts := 0; sud_contract_read_key := toy_key x11;
     sud_access := [sample_authorization]; sud_groups := [] |}.

Definition sample_row {D} `{Countable D} (key : PrimaryKey) (parent : option MetaParent) (x : D) : RowData :=
  {| rdt_key := key; rdt_type_name := "record"; rdt_format := {| mf_meta := Json; mf_data := Json |};
     rdt_data_hash := AteHash.from_bytes []; rdt_data := bits (encode x); rdt_collections := [];
     rdt_created := 0; rdt_updated := 0; rdt_extra_meta := []; rdt_parent := parent;
     rdt_auth := inherit_auth; rdt_is_new := false |}.

Definition sample_parent : option MetaParent := in_collection (collection sample_user_key 3).

Definition sample_chain (u : User) : MemStore :=
  {| mem_rows := <[sample_user_key := sample_row sample_user_key None u]>
                   {[sample_sudo_key := sample_row sample_sudo_key sample_parent sample_sudo_record]};
     mem_next := 2 ^ 64 |}.

Definition sample_registry (u : User) : gmap string MemStore :=
  {[ck_name (user_chain sample_email) := sample_chain u]}.

Lemma sample_keys_distinct : sample_sudo_key ≠ sample_user_key ∧ pk_key sample_user_key < 2 ^ 64 - 1.
Proof. split; [apply (bool_decide_unpack _)|apply (bool_decide_unpack (_ < _))]; by vm_compute. Qed.

Lemma sample_visible_rows u k row : MemTrans.visible (sample_chain u) ∅ k = Some row →
  (k = sample_user_key ∧ row = sample_row sample_user_key None u)
  ∨ (k = sample_sudo_key ∧ row = sample_row sample_sudo_key sample_parent sample_sudo_record).
Proof.
  unfold MemTrans.visible. rewrite lookup_empty. cbn [mem_rows sample_chain].
  intros [[<- <-]|[_ [<- <-]%lookup_singleton_Some]]%lookup_insert_Some; [by left|by right].
Qed.

Lemma sample_chain_durable u : mem_durable (sample_chain u, ∅).
Proof.
  destruct sample_keys_distinct as [_ Hlt].
  split; [split; cbn [fst snd]|done].
  - intros k Hk. destruct (MemTrans.visible _ _ k) as [row|] eqn:E; [|done].
    apply sample_visible_rows in E as [[-> _]|[-> _]]; cbn [mem_next sample_chain] in Hk; [lia|].
    unfold sample_sudo_key in Hk. cbn in Hk. lia.
  - intros k row [[_ ->]|[_ ->]]%sample_visible_rows; [done|].
    cbn [sample_row rdt_parent sample_parent in_collection MemTrans.above collection mp_vec mc_parent_id mem_next sample_chain]. lia.
  - by intros k row [[-> ->]|[-> ->]]%sample_visible_rows.
Qed.

Lemma sample_account u : us_sudo u = DaoChild.new 3 →
  account (sample_chain u, ∅ : MemTx) sample_user_key u sample_sudo_key sample_sudo_record.
Proof.
  intros Hs. destruct sample_keys_distinct as [Hne _].
  assert (MemTrans.visible (sample_chain u) ∅ sample_user_key = Some (sample_row sample_user_key None u)) as Hu
    by (unfold MemTrans.visible; rewrite lookup_empty; apply lookup_insert_eq).
  assert (MemTrans.visible (sample_chain u) ∅ sample_sudo_key
    = Some (sample_row sample_sudo_key sample_parent sample_sudo_record)) as Hsu.
  { unfold MemTrans.visible. rewrite lookup_empty. cbn [mem_rows sample_chain].
    rewrite lookup_insert_ne by done. apply lookup_singleton_eq. }
  split; [..|done].
  - eexists. split; [exact Hu|]. exact (data_round_trip Json u _ eq_refl).
  - eexists. split; [exact Hsu|]. exact (data_round_trip Json sample_sudo_record _ eq_refl).
  - rewrite Hs. intros k'. split.
    + intros (row & Hv & Hp). destruct (sample_visible_rows u k' row Hv) as [[Hk Hrow]|[Hk _]]; [|exact Hk].
      rewrite Hrow in Hp. cbn [sample_row rdt_parent] in Hp. discriminate Hp.
    + intros ->. eexists. split; [exact Hsu|reflexivity].
Qed.

(** ** A login with a verification code *)

Definition sample_login : LoginRequest :=
  {| lq_email := sample_email; lq_secret := toy_key x70; lq_verification_code := Some "AB-CD" |}.

Definition sample_token : EncryptKey * EncryptedSecureData :=
  match AuthService.compute_master_key LoginFailed.NoMasterKey sample_service (dw_bytes sample_draws 0)
          (lq_secret sample_login) with
  | Ok a => a
  | Err _ => (toy_key x00, {| esd_format := Bincode; esd_ek_hash := EncryptKey.hash (toy_key x00);
                              esd_iv := {| iv_bytes := [] |}; esd_encrypted := [] |})
  end.

Lemma sample_registry_open u : reg_open (user_chain sample_email) (sample_registry u) = Some (sample_chain u).
Proof. apply lookup_singleton_eq. Qed.


(** ** Five wrong codes *)

Definition sample_session_user : AteSessionUser :=
  {| su_user := su_user AteSessionUser.new; su_token := Some (snd sample_token); su_identity := sample_email;
     su_broker_read := None; su_broker_write := None |}.

Definition sample_attempts : list Attempt :=
  replicate 5 {| at_now := 0; at_draws := sample_draws; at_code := "654321" |}.

